(* ===== verification/_CoqProject ===== *)
-Q . S2P
Prelude.v
PmmrIndex.v
Ser.v
Pmmr.v
PmmrRefine.v
MerkleProof.v
AppendOnlyFile.v
PruneList.v
PmmrBackend.v
PmmrData.v
PmmrExample.v
Float.v
Global.v
Reward.v
Pow.v
Retarget.v
Feijoada.v
Committed.v
Transaction.v
CutThrough.v
Block.v
BlockTheory.v
ChainStore.v
ChainStoreTheory.v
Orphans.v
Pipe.v
Cuckoo.v
CuckooTheory.v
CuckooExample.v
PipeTheory.v
ChainSums.v
PipeExample.v
TxHashSet.v
ProcessBlock.v
ChainFacade.v
TxHashSetUndo.v
TxHashSetUtxo.v
UtxoSums.v
ProcessBlockTheory.v
ForkTheory.v
ChainTheory.v
ChainLoops.v
UtxoRewind.v
TxHashSetExample.v
ProcessBlockExample.v
Pool.v
PoolTheory.v
Node.v
NodeTheory.v
PoolExample.v
ChainExample.v
Msg.v
MsgTheory.v
Peers.v
PeerMap.v
Protocol.v
Server.v
PeersTheory.v
PeersInv.v
ProtocolTheory.v
NetExample.v
NodeNet.v
NodeNetTheory.v
Sync.v
SyncTheory.v
SyncExample.v
Base58.v
Base58Theory.v
Mnemonic.v
MnemonicTheory.v
ExtKey.v
Keychain.v
KeyTheory.v
LibTx.v
LibTxTheory.v
KeyExample.v
Mining.v
Stratum.v
MiningTheory.v
MiningExample.v
