(* ===== verification/Prelude.v ===== *)
(** * Epic Cash node: a verification library

    Epic is a node of a Mimblewimble chain with four proof-of-work algorithms.
    This library models its consensus core, under [src/core], [src/chain] and
    [src/store], its transaction pool under [src/pool], its peer-to-peer layer under
    [src/p2p], the adapters, the synchronization and the mining of [src/servers] that tie
    them together, and the keychain and the transaction builder of a wallet, under
    [src/keychain] and [core/src/libtx], as executable definitions, and proves what
    makes them correct.

    ** Parts of the program and where they are modelled

    Storage, bottom up:
    - [PmmrIndex] (module [Pos]): positions of a Merkle mountain range, the free
      functions of [core/src/core/pmmr/pmmr.rs] ([peaks], [peak_map_height],
      [family], [path], [family_branch], ...) on wrapping 64-bit integers.  [Node],
      [Spec] and [Theorems] describe a node by the number of leaves before it and
      its height, and show that the bit manipulations compute these coordinates.
    - [Ser]: the readers, the writer and the hashes of [core/src/ser.rs] and
      [core/src/core/hash.rs].  [reads m bs a]: either reader decodes [bs] to [a]
      and leaves the rest.
    - [Pmmr]: [PMMR] and its read-only and rewindable views over the [Backend]
      interface ([pmmr.rs], [backend.rs], [readonly_pmmr.rs],
      [rewindable_pmmr.rs]).  [PmmrRefine]: against [BackendLaws] the range refines
      the list of its leaves.  [MerkleProof]: [core/src/core/merkle_proof.rs].
    - [AppendOnlyFile] ([store/src/types.rs]), [PruneList]
      ([store/src/prune_list.rs] in module [Prune], [leaf_set.rs] in [Leaf]) and
      [PmmrBackend] ([store/src/pmmr.rs]), the persistent backend made of them.
      [PmmrData]: the elements of a range under pruning; [stored p ts] is the whole
      state of a range.  [PmmrExample] has the concrete ranges on which the theorems are applied.
    Consensus rules:
    - [Float], [Global], [Reward]: [core/src/global.rs] and the emission half of
      [core/src/consensus.rs], with IEEE 754 arithmetic where the code has it.
    - [Pow]: [core/src/pow/types.rs]; [Retarget]: the difficulty half of
      [consensus.rs] and the header window of [global.rs]; [Feijoada]:
      [core/src/core/block/feijoada.rs], the choice of the next algorithm.
    Transactions and blocks:
    - [Committed]: [core/src/core/committed.rs]; the curve is the class [Secp], its
      laws [SecpLaws].  [Transaction]: [core/src/core/transaction.rs];
      [CutThrough]: what its loops compute.
    - [Block]: [core/src/core/block.rs], [compact_block.rs], [block_sums.rs],
      [id.rs]; [BlockTheory]: encoding and conservation of value.
    Chain:
    - [ChainStore]: [store/src/lmdb.rs], [chain/src/store.rs] and the tips of
      [chain/src/types.rs], on a map from byte keys to byte values;
      [ChainStoreTheory]: what is saved is what is read.
    - [Pipe]: [chain/src/pipe.rs] as far as it needs no hash set: the checks,
      [validate_header], the heads and the block sums; the seed heights of
      [core/src/pow/randomx.rs]; [verify_size] of [core/src/pow.rs].
      [PipeTheory]: accepted headers; [ChainSums]: conservation along a chain;
      [PipeExample]: a concrete chain.
    - [TxHashSet]: [chain/src/txhashset], the four ranges, the [Extension] a unit of
      work runs on, the views, and the functions that commit it or undo it.
      [ProcessBlock]: the rest of [pipe.rs], on the set and the batch.
      [TxHashSetUndo] and [ProcessBlockTheory]: units of work and [process_block] are
      atomic; [TxHashSetUtxo]: the ranges, the leaf sets and the index are a set of
      unspent outputs ([utxo_state]); [UtxoSums]: the set adds up to the emission;
      [UtxoRewind] and [ForkTheory]: going back.  [TxHashSetExample] and
      [ProcessBlockExample]: concrete blocks, one accepted by the whole pipeline.
    - [Orphans]: the orphan pool of [chain/src/chain.rs]; [ChainFacade] (module
      [Chain]): the rest of that file, the store, the hash set and the orphan pool as one
      state with the log of what was announced to the adapter.  [ChainTheory]: one
      block, one header, the search for an output; [ChainLoops]: the loops over
      orphans, kernels and historical blocks, and the chain of headers; [ChainExample]: a chain that takes them.
    Proof of work and the mempool:
    - [Cuckoo]: [core/src/pow/common.rs], [cuckoo.rs], [cuckaroo.rs], [cuckatoo.rs],
      [lean.rs] and [siphash.rs]: verification of a cycle, the edge trimming and the
      cycle finder.  [CuckooTheory]: verification decides the cycles of the graph, and
      trimming keeps them; [CuckooExample]: a graph with and without one.
    - [Pool]: [pool/src/pool.rs] and [transaction_pool.rs] over the [BlockChain]
      interface of [pool/src/types.rs]; [PoolTheory]: what the pool holds can be
      mined; [PoolExample].
    - [Node]: [servers/src/common/adapters.rs], where the chain announces blocks to
      the pool and the peers hand theirs to the chain; [NodeTheory].
    The network, under [p2p/src]:
    - [Msg]: [msg.rs], the encodings of [types.rs] and [util/src/read_write.rs]: every
      message, its limits and its framing on a stream.  [MsgTheory]: round trips and types.
    - [Peers]: [peer.rs], [util/src/rate_counter.rs] and the records of [types.rs];
      [PeerMap]: [peers.rs] and [store.rs], the map of connected peers, the database, and
      the adapter traits [ChainAdapter] and [NetAdapter] as classes, with [Peers] and
      [TrackingAdapter] as functions from adapters to adapters.  [PeersTheory], [PeersInv].
    - [Protocol]: [handshake.rs], [conn.rs] and [protocol.rs], both sides of the handshake
      and the handling of every message; [Server]: one turn of a connection's thread,
      [serv.rs] and [servers/src/epic/seed.rs].  [ProtocolTheory]; [NetExample].
    - [NodeNet]: [NetToChainAdapter] as the adapter of a node, with its archives;
      [NodeNetTheory]: traffic as steps of a node ([network_step]).
    - [Sync]: [servers/src/epic/sync] and the state of the synchronization and the Dandelion
      epochs of [servers/src/common/types.rs]: one round of the loop and its stages for
      headers, blocks and archives.  [SyncTheory]: locators, requests, archives, and rounds
      as steps of a node ([life_step]); [SyncExample], with the traffic too.
    Wallet side:
    - [Base58] and [Mnemonic]: [keychain/src/base58.rs] and [mnemonic.rs] with
      its list of words; [Base58Theory], [MnemonicTheory].
    - [ExtKey]: [keychain/src/extkey_bip32.rs], the hashes and the operations on keys as
      the classes [KeyHashes] and [SecpKeys]; [Keychain]: [keychain/src/keychain.rs] and
      [types.rs], signing as the class [SecpSigning].  [KeyTheory].
    - [LibTx]: [core/src/libtx]: combinators, rewards, range proofs, signatures.
      [LibTxTheory], against [BuildLaws]; [KeyExample]: a wallet on a concrete curve.
    Mining, under [servers/src/mining]:
    - [Mining]: [mine_block.rs], the block to mine on top of the head, from the pool and
      the wallet.
    - [Stratum]: [stratumserver.rs] and the statistics of [common/stats.rs]: workers, jobs
      and shares, one round of the main loop.  [MiningTheory]: a solved template is valid,
      and workers and shares are kept in order; [MiningExample]: a worker is sent a job, solves it, and the block becomes the head.
    This file has what they share: outcomes of a Rust computation, machine integers
    and their wrap-around, loops with fuel, folds that can fail, bit counts, binary
    search, and the tactics and hints for them.

    ** How the program is modelled

    A method is a function of the state it reads, returning the new state.  A
    [Result] is an [outcome], whose third case [Panic] stands for a panic (an
    [unwrap], an index, an [expect]); so a theorem with an [Ok] in its conclusion
    also says that nothing panics.  Integers are [Z] kept in the range of their
    width: [+!], [-!], [*!] and [<<!] wrap as the release profile does, [sat_add] and
    its like saturate.  Bytes are [Z] in [list Z]; fixed-size arrays are [array n].
    Where the code threads errors through calls on mutable state, [trans] is the
    state with an outcome: an error keeps the changes made so far, as in Rust.
    Hash maps keyed by algorithm are [gmap]s, roaring bitmaps [gset Z] cut to 32
    bits.  In-place loops over two vectors are loops over the indices and the
    vectors, as written.

    Fuel.  The loops of [PmmrIndex] run at most 64 times, once per bit of a 64-bit
    position, and take 64 as fuel ([push] 65); the theorems show that the results are
    the intended ones, so the fuel is enough.  [cut_through] takes the sum of the two
    lengths.  The iterators of [ChainStore] take the height of a header plus one:
    [same_algo_ends] and [collect_stored] show that this is enough on every store
    in which a header is one above its parent, and [header_head_heaviest] that the
    pipeline only builds such stores.  Running out of fuel is a [Panic] there.  The
    walks back to a fork take the same fuel; [fork_of_terminates] and
    [input_pos_to_rewind_exact] show that they return.  The search for the header of
    an output halves its interval and takes 65; [get_header_for_output_exact] shows
    when it answers and [search_output_stalls] that the code itself need not.  The
    loop over the orphans takes the number of heights waiting plus one, which
    [check_orphans_ends] shows to be enough.  [Panic] stands for running out.  The loops
    over an attachment, the headers of a message or the kernels of a stream take the number
    of bytes or items announced, each round taking at least one; [headers_delivered] and
    [consume_in_step] rest on it.  The walk back of a locator takes the height of its header
    plus one, and the loop over its heights the limit of twenty, which [fresh_locator_exact]
    shows to be enough; a carry in base 58 is gone after as many divisions as its value.

    Parameters.  BLAKE2b ([Hasher]), the curve ([Secp]), the solvers behind
    [PoWContext], the ProgPoW value, the 256-bit integer of a hash, SipHash, the
    serialization of bitmaps, the foundation outputs (a JSON file), the clock and
    the date range of [chrono] are arguments, as are the archive a fast sync unpacks,
    the order in which a bucket sort leaves ties, the relay of stem transactions, the random numbers and the
    state of the sync threads where the adapters read them.  In the network, the bytes that
    will arrive, the sockets that are dialled, the nonces, the shuffles and the text of an
    address are arguments; in the wallet SHA-2, HMAC, RIPEMD, PBKDF2 and the signatures; in mining the answers of
    the wallet and the reading of parameters from JSON.  The
    laws assumed of the curve are those of an abelian group with an additive commitment to
    values and keys; [integer_secp_laws] shows that they can hold.  [TweakLaws] and
    [BuildLaws] add that public keys follow private ones, that what is signed verifies and
    that a range proof made for a commitment is one; [KeyExample] has a curve where they hold.  No property of BLAKE2b is
    assumed; where a collision matters the statement says so.

    ** What the theorems show

    - Positions: [peak_map_height_correct], [family_correct], [peaks_correct],
      [path_follows_family], [insertion_index_roundtrip], [bintree_bounds_correct].
    - Ranges: [push_refines], [root_refines], [rewind_refines], [validate_correct],
      [prune_refines] refine the list of leaves; [merkle_proof_verifies].
    - Files: [append_only_file_refines]; [prune_list_add], [prune_list_shift_counts],
      [leaf_set_rewind_undoes], [removed_pre_cutoff_spec]; [backend_sync_discard],
      the atomicity of a unit of work.
    - Money: [levy_exact], [supply_cap], [total_overage_exact] for the schedule;
      [cut_through_correct], [body_validate_read_exact], [aggregate_verifies] for
      transactions; [block_conserves_value] for a block; [chain_conserves_value] for
      a chain: no value but the rewards of the heights is ever created.
    - Work: [difficulty_accumulates], [difficulty_window], [cuckoo_retarget],
      [hash_retarget], [next_difficulty_local], [feijoada_fair], [era_policy_only].
    - Unspent outputs: [apply_block_refines] and [valid_block_applies] (a block acts
      on the set of unspent outputs, and is not refused when it should pass),
      [utxo_set_commits_to_emission], [rewind_undoes_block].
    - Units of work: [process_block_atomic], [fork_of_terminates],
      [input_pos_to_rewind_exact].
    - Chain: [accepted_header], [header_head_heaviest] (over [process_block] and
      [sync_block_headers]), and [unchecked_bottles], a defect: the bottles of a header are neither checked nor covered by its proof.
    - Facade: [process_block_single_atomic] and [chain_head_never_loses_work] (a block
      is all or nothing, and no block or header makes the head lighter),
      [orphan_pool_invariant], [check_orphans_ends], [validate_kernel_history_exact],
      [get_header_for_output_exact], [remove_historical_exact].
    - Proof of work: [cuckoo_context_exact] (a proof is accepted exactly when it is a
      cycle of the graph), [trimming_keeps_solutions].
    - Mempool: [txpool_stays_valid], [mineable_valid]; [pool_follows_chain], through
      the adapters: what the pool holds after a block is valid on the new chain.
    - Messages: [message_roundtrip], [decoded_message_typed]; [handshake_agrees];
      [consume_in_step] and [headers_delivered] (the stream stays in step, and nothing of an
      answer is lost); [banned_peer_powerless]; [peers_invariant].
    - The whole node: [life_never_lightens_chain], whatever the network sends, between
      whatever rounds of the synchronization.
    - Synchronization: [fresh_locator_exact], [block_requests_fit], [blocks_to_get_exact],
      [archive_left_to_finish].
    - Wallet: [base58_check_exact] and [mnemonic_exact] (text and bytes correspond one to
      one), [path_identifier] and [identifier_path], [priv_text_roundtrip],
      [derivation_agrees]; [built_transaction_valid] and [reward_valid] (what is built
      passes the validation of the node), [output_recovered].
    - Mining: [solved_template_valid] (a solved template passes the validation),
      [stratum_invariant] (workers, jobs and difficulties stay in order through any run),
      [share_counted] and [full_solution_submitted] (what becomes of a share).
    - Encodings: [difficulty_roundtrip], [pow_roundtrip], [block_roundtrip],
      [store_roundtrip].
    Some theorems state defects of the code: [pow_trait_write_truncated],
    [malformed_proof_panics], [timestamp_median_rank], [missing_bottle_panics],
    [search_output_stalls], [eviction_breaks_pool], [solver_loses_solutions],
    [bad_block_not_blamed]; in the network [no_kernel_kills_connection],
    [second_greeting_left_over], [empty_unknown_ends_connection],
    [clean_peers_leaves_too_many], [dialling_lifts_ban], [own_address_banned],
    [median_swapped]; in the synchronization [locator_too_long], [done_not_noticed],
    [download_unwatched]; in the wallet [duplicate_unbalanced], [deep_identifier_panics];
    in mining [outrun_job_published], [cuckaroo_minimum_above_block].

    ** What is not modelled

    Failures of the operating system and of the database; locks, threads and
    memory maps beyond their contents; logging, JSON and hexadecimal printing; the
    zip archives and folders of the hash set; the RandomX and ProgPoW virtual
    machines, which are foreign code; sockets, time-outs, sleeps and the start of the
    threads of the peer-to-peer layer and of the synchronization, whose turns and rounds
    are taken in any order instead; signatures of several parties; the verifier cache,
    which the validation ignores; the miner for tests, the start of the server, the API,
    configuration and user interface. *)
From stdpp Require Export prelude list gmap sets sorting.
From Stdlib Require Export ZArith Lia.

#[export] Set Default Goal Selector "!".
#[global] Open Scope Z_scope.

(** ** Outcomes of a Rust computation

    [Ok] and [Err] are the two arms of [Result]; [Panic] is an unwinding panic
    ([unwrap] on [None], an index out of range, a failed [assert!]). *)
Inductive outcome (E A : Type) : Type :=
| Ok (a : A)
| Err (e : E)
| Panic.
Arguments Ok {E A} a.
Arguments Err {E A} e.
Arguments Panic {E A}.

#[export] Instance outcome_eq_dec {E A} `{EqDecision E, EqDecision A} : EqDecision (outcome E A).
Proof. solve_decision. Defined.

Definition bind {E A B} (m : outcome E A) (f : A -> outcome E B) : outcome E B :=
  match m with
  | Ok a => f a
  | Err e => Err e
  | Panic => Panic
  end.

(** [Result::map_err]. *)
Definition map_err {E F A} (f : E -> F) (m : outcome E A) : outcome F A :=
  match m with
  | Ok a => Ok a
  | Err e => Err (f e)
  | Panic => Panic
  end.

(** [Option::ok_or]. *)
Definition ok_or {E A} (o : option A) (e : E) : outcome E A :=
  match o with
  | Some a => Ok a
  | None => Err e
  end.

(** [Option::unwrap] and indexing: panics on [None]. *)
Definition unwrap {E A} (o : option A) : outcome E A :=
  match o with
  | Some a => Ok a
  | None => Panic
  end.

Definition is_ok {E A} (m : outcome E A) : bool :=
  match m with
  | Ok _ => true
  | _ => false
  end.

Declare Scope rust_scope.
Delimit Scope rust_scope with rust.
Notation "'let?' x := c1 'in' c2" := (bind c1 (fun x => c2))
  (at level 10, x name, c1 at level 200, c2 at level 200) : rust_scope.
Notation "'let?' ' pat := c1 'in' c2" := (bind c1 (fun x => match x with pat => c2 end))
  (at level 10, pat pattern, c1 at level 200, c2 at level 200) : rust_scope.
Notation "'try?' c1 'then' c2" := (bind c1 (fun _ => c2))
  (at level 10, c1 at level 200, c2 at level 200) : rust_scope.
#[global] Open Scope rust_scope.

Lemma bind_Ok_inv {E A B} (m : outcome E A) (f : A -> outcome E B) b :
  bind m f = Ok b -> exists a, m = Ok a /\ f a = Ok b.
Proof. destruct m; simpl; naive_solver. Qed.

(** A computation that evaluates to a success, as an equation. *)
Lemma is_ok_inv {E A} (m : outcome E A) : is_ok m = true -> exists a, m = Ok a.
Proof. destruct m; [by eexists|done|done]. Qed.

Lemma bind_assoc {E A B C} (m : outcome E A) (f : A -> outcome E B) (g : B -> outcome E C) :
  bind (bind m f) g = bind m (fun a => bind (f a) g).
Proof. by destruct m. Qed.

Lemma map_err_Ok_inv {E F A} (f : E -> F) (m : outcome E A) a :
  map_err f m = Ok a -> m = Ok a.
Proof. destruct m; simpl; naive_solver. Qed.

(** A method that takes [&mut self] and can fail: the state is there on every
    exit, since the caller may look at it or undo it after an error. *)
Definition trans (S E A : Type) : Type := S -> outcome E A * S.

Definition tret {S E A} (a : A) : trans S E A := fun s => (Ok a, s).
Definition tfail {S E A} (e : E) : trans S E A := fun s => (Err e, s).
Definition tbind {S E A B} (m : trans S E A) (f : A -> trans S E B) : trans S E B := fun s =>
  match m s with
  | (Ok a, s) => f a s
  | (Err e, s) => (Err e, s)
  | (Panic, s) => (Panic, s)
  end.

(** A call that only reads the state, and one that replaces it. *)
Definition tread {S E A} (f : S -> outcome E A) : trans S E A := fun s => (f s, s).
Definition tmodify {S E} (f : S -> S) : trans S E () := fun s => (Ok tt, f s).

(** A call on a part of the state that hands back the changed part. *)
Definition tzoom {S P E A} (part : S -> P) (set : P -> S -> S) (f : P -> outcome E (A * P)) : trans S E A :=
  fun s => match f (part s) with
           | Ok (a, p) => (Ok a, set p s)
           | Err e => (Err e, s)
           | Panic => (Panic, s)
           end.

(** A [for] loop of such calls. *)
Fixpoint tfor {S E A} (body : A -> trans S E ()) (l : list A) : trans S E () :=
  match l with
  | [] => tret tt
  | a :: l => tbind (body a) (fun _ => tfor body l)
  end.

Notation "'let!' x := c1 'in' c2" := (tbind c1 (fun x => c2))
  (at level 10, x name, c1 at level 200, c2 at level 200) : rust_scope.
Notation "'do!' c1 'then' c2" := (tbind c1 (fun _ => c2))
  (at level 10, c1 at level 200, c2 at level 200) : rust_scope.

Lemma tbind_Ok_inv {S E A B} (m : trans S E A) (f : A -> trans S E B) s b s' :
  tbind m f s = (Ok b, s') -> exists a s1, m s = (Ok a, s1) /\ f a s1 = (Ok b, s').
Proof. unfold tbind. destruct (m s) as [[a|e|] s1]; [eauto|done|done]. Qed.

Lemma tread_Ok_inv {S E A} (f : S -> outcome E A) s a s' :
  tread f s = (Ok a, s') -> f s = Ok a /\ s' = s.
Proof. unfold tread. by intros [= ? ?]. Qed.

Lemma tzoom_Ok_inv {S P E A} (part : S -> P) set (f : P -> outcome E (A * P)) s a s' :
  tzoom part set f s = (Ok a, s') -> exists p, f (part s) = Ok (a, p) /\ s' = set p s.
Proof. unfold tzoom. destruct (f (part s)) as [[a' p]|e|]; intros [= ? ?]; subst; eauto. Qed.

(** An invariant of every step of a loop is one of the loop. *)
Lemma tfor_inv {S E A} (P : S -> Prop) (body : A -> trans S E ()) l s s' r :
  (forall a s r s', a ∈ l -> P s -> body a s = (r, s') -> P s') ->
  P s -> tfor body l s = (r, s') -> P s'.
Proof.
  intros Hb. revert s. induction l as [|a l IH]; intros s Hs He; cbn [tfor] in He.
  { unfold tret in He. by injection He as _ <-. }
  unfold tbind in He. destruct (body a s) as [q s1] eqn:Ha.
  assert (P s1) as H1 by (eapply Hb; [by left|exact Hs|exact Ha]).
  destruct q; [|by injection He as _ <-..].
  eapply (IH ltac:(intros; eapply Hb; [by right|done..]) s1); done.
Qed.

(** A computation that moves the state along [R] whatever its result, the moves
    being closed under composition. *)
Definition tkeeps {S E A} (R : relation S) (m : trans S E A) : Prop :=
  forall s r s', m s = (r, s') -> R s s'.

Create HintDb keeps discriminated.

Section Keeps.
Context {S E : Type} (R : relation S) `{!PreOrder R}.

Lemma tkeeps_tret {A} (a : A) : tkeeps (E := E) R (tret a).
Proof. by intros s r s' [= _ <-]. Qed.
Lemma tkeeps_tfail {A} (err : E) : tkeeps (A := A) R (tfail err).
Proof. by intros s r s' [= _ <-]. Qed.
Lemma tkeeps_tread {A} (f : S -> outcome E A) : tkeeps R (tread f).
Proof. by intros s r s' [= _ <-]. Qed.
Lemma tkeeps_tmodify (f : S -> S) : (forall s, R s (f s)) -> tkeeps (E := E) R (tmodify f).
Proof. by intros Hf s r s' [= _ <-]. Qed.

Lemma tkeeps_tzoom {P A} (part : S -> P) set (f : P -> outcome E (A * P)) :
  (forall s a p, f (part s) = Ok (a, p) -> R s (set p s)) -> tkeeps R (tzoom part set f).
Proof.
  intros Hf s r s' He. unfold tzoom in He. destruct (f (part s)) as [[a p]| |] eqn:E1; injection He as _ <-; [|done..].
  by eapply Hf.
Qed.

Lemma tkeeps_tbind {A B} (m : trans S E A) (f : A -> trans S E B) :
  tkeeps R m -> (forall a, tkeeps R (f a)) -> tkeeps R (tbind m f).
Proof.
  intros Hm Hf s r s' He. unfold tbind in He. destruct (m s) as [[a|x|] s1] eqn:E1.
  - etransitivity; [by eapply Hm|]. by eapply Hf.
  - injection He as _ <-. by eapply Hm.
  - injection He as _ <-. by eapply Hm.
Qed.

Lemma tkeeps_tfor {A} (body : A -> trans S E ()) l : (forall a, tkeeps R (body a)) -> tkeeps R (tfor body l).
Proof.
  intros Hb. induction l as [|a l IH]; cbn [tfor]; [apply tkeeps_tret|]. by apply tkeeps_tbind.
Qed.

End Keeps.
#[export] Hint Resolve tkeeps_tret tkeeps_tfail tkeeps_tread tkeeps_tbind tkeeps_tfor : keeps.
#[export] Hint Extern 0 (PreOrder _) => exact _ : keeps.

(** Through the sequence of calls of a function, one goal per call. *)
Ltac keeps_seq := repeat (simple apply tkeeps_tbind; [exact _| |intros ?]).

(** Split every [bind _ _ = Ok _] hypothesis into its steps. *)
Ltac inv_ok :=
  repeat match goal with
  | H : bind _ _ = Ok _ |- _ =>
      let a := fresh "a" in let H1 := fresh "Hok" in
      apply bind_Ok_inv in H as (a & H1 & H)
  | H : map_err _ _ = Ok _ |- _ => apply map_err_Ok_inv in H
  | H : Ok _ = Ok _ |- _ => injection H as H
  | H : Err _ = Ok _ |- _ => discriminate H
  | H : Panic = Ok _ |- _ => discriminate H
  | a : unit |- _ => destruct a
  | H : context [match ?x with pair _ _ => _ end] |- _ => destruct x eqn:?
  end.

(** Close a decidable closed goal by evaluating its decision procedure. *)
Ltac vm_decide :=
  match goal with |- ?P => apply (bool_decide_eq_true_1 P); vm_compute; reflexivity end.

(** ** Machine integers

    A Rust integer of width [w] is a [Z] in its range.  The plain operators
    [+ - * <<] wrap, as they do in the release profile the workspace builds
    with (no [overflow-checks] in any [Cargo.toml]); a shift amount is taken
    modulo the width. *)
Definition u64_max : Z := 2 ^ 64 - 1.
Definition is_u64 (x : Z) : Prop := 0 <= x < 2 ^ 64.
Definition is_u32 (x : Z) : Prop := 0 <= x < 2 ^ 32.

Definition wrap64 (x : Z) : Z := x mod 2 ^ 64.
Definition wrap32 (x : Z) : Z := x mod 2 ^ 32.

Definition u64_add (x y : Z) : Z := wrap64 (x + y).
Definition u64_sub (x y : Z) : Z := wrap64 (x - y).
Definition u64_mul (x y : Z) : Z := wrap64 (x * y).
Definition u64_shl (x n : Z) : Z := wrap64 (Z.shiftl x (n mod 64)).
Definition u64_shr (x n : Z) : Z := Z.shiftr x (n mod 64).

Definition sat_add (x y : Z) : Z := Z.min u64_max (x + y).
Definition sat_sub (x y : Z) : Z := Z.max 0 (x - y).
Definition sat_mul (x y : Z) : Z := Z.min u64_max (x * y).

(** Two's complement signed 64-bit. *)
Definition is_i64 (x : Z) : Prop := - 2 ^ 63 <= x < 2 ^ 63.
Definition wrap_i64 (x : Z) : Z := (x + 2 ^ 63) mod 2 ^ 64 - 2 ^ 63.

Notation "x +! y" := (u64_add x y) (at level 50, left associativity) : rust_scope.
Notation "x -! y" := (u64_sub x y) (at level 50, left associativity) : rust_scope.
Notation "x *! y" := (u64_mul x y) (at level 40, left associativity) : rust_scope.
Notation "x <<! n" := (u64_shl x n) (at level 40, left associativity) : rust_scope.
Notation "x >>! n" := (u64_shr x n) (at level 40, left associativity) : rust_scope.

(** [u64::leading_zeros]. *)
Definition leading_zeros (x : Z) : Z := if x =? 0 then 64 else 63 - Z.log2 x.

(** [u64::count_ones]. *)
Fixpoint pos_popcount (p : positive) : Z :=
  match p with
  | xH => 1
  | xO p => pos_popcount p
  | xI p => 1 + pos_popcount p
  end.
Definition count_ones (x : Z) : Z :=
  match x with
  | Zpos p => pos_popcount p
  | _ => 0
  end.

Create HintDb u64 discriminated.

Lemma wrap64_small x : is_u64 x -> wrap64 x = x.
Proof. unfold wrap64, is_u64. intros. by rewrite Z.mod_small. Qed.

Lemma wrap64_range x : is_u64 (wrap64 x).
Proof. unfold wrap64, is_u64. apply Z.mod_pos_bound. lia. Qed.
#[export] Hint Resolve wrap64_range : u64.

Lemma wrap_i64_small x : is_i64 x -> wrap_i64 x = x.
Proof. unfold is_i64, wrap_i64. intros. rewrite Z.mod_small by lia. lia. Qed.

Lemma u64_add_small x y : is_u64 (x + y) -> x +! y = x + y.
Proof. apply wrap64_small. Qed.
Lemma u64_sub_small x y : is_u64 (x - y) -> x -! y = x - y.
Proof. apply wrap64_small. Qed.
Lemma u64_mul_small x y : is_u64 (x * y) -> x *! y = x * y.
Proof. apply wrap64_small. Qed.

Lemma u64_shl_small x n :
  0 <= n < 64 -> is_u64 (x * 2 ^ n) -> x <<! n = x * 2 ^ n.
Proof.
  intros Hn Hx. unfold u64_shl. rewrite (Z.mod_small n 64) by lia.
  rewrite Z.shiftl_mul_pow2 by lia. by apply wrap64_small.
Qed.

Lemma u64_shr_div x n : 0 <= n < 64 -> x >>! n = x / 2 ^ n.
Proof.
  intros Hn. unfold u64_shr. rewrite (Z.mod_small n 64) by lia.
  by apply Z.shiftr_div_pow2; lia.
Qed.

(** Remove the wrap-around of the operators whose result is in range. *)
Ltac unwrap64 :=
  repeat first
    [ rewrite u64_add_small by (unfold is_u64 in *; lia)
    | rewrite u64_sub_small by (unfold is_u64 in *; lia)
    | rewrite u64_mul_small by (unfold is_u64 in *; lia) ].

(** ** Loops

    [while fuel cond body s] runs a Rust [while] for at most [fuel]
    iterations; [while_exits] shows that a decreasing measure below the fuel
    makes the loop leave through its condition. *)
Fixpoint while {S : Type} (fuel : nat) (cond : S -> bool) (body : S -> S) (s : S) : S :=
  match fuel with
  | O => s
  | S fuel => if cond s then while fuel cond body (body s) else s
  end.

Lemma while_exits {S : Type} (m : S -> nat) cond (body : S -> S) fuel s :
  (forall s, cond s = true -> (m (body s) < m s)%nat) ->
  (m s <= fuel)%nat ->
  (forall s, m s = 0%nat -> cond s = false) ->
  cond (while fuel cond body s) = false.
Proof.
  intros Hdec. revert s. induction fuel as [|fuel IH]; intros s Hm H0; simpl.
  - apply H0. lia.
  - destruct (cond s) eqn:Hc; [|done].
    apply IH; [|done]. specialize (Hdec s Hc). lia.
Qed.

(** A [for] loop over [l] whose body can leave the function with an error or a
    panic. *)
Fixpoint foldM {E S A} (body : S -> A -> outcome E S) (l : list A) (s : S) : outcome E S :=
  match l with
  | [] => Ok s
  | a :: l => let? s := body s a in foldM body l s
  end.

Lemma foldM_app {E S A} (body : S -> A -> outcome E S) l1 l2 s :
  foldM body (l1 ++ l2) s = let? s := foldM body l1 s in foldM body l2 s.
Proof. revert s. induction l1; intros s; simpl; [done|]. destruct (body s a); simpl; auto. Qed.

(** A loop whose body succeeds on the states of an invariant is a plain fold. *)
Lemma foldM_foldl {E S A} (P : S -> Prop) (body : S -> A -> outcome E S) (f : S -> A -> S) l s :
  (forall s a, P s -> a ∈ l -> body s a = Ok (f s a) /\ P (f s a)) ->
  P s -> foldM body l s = Ok (foldl f s l) /\ P (foldl f s l).
Proof.
  intros Hb. revert s. induction l as [|a l IH]; intros s Hs; [done|]. simpl.
  destruct (Hb s a) as [-> HP]; [done|by left|]. simpl.
  apply IH; [|done]. intros s' a' Hs' Ha'. apply Hb; [done|by right].
Qed.

(** ** Powers of two and population counts *)
Lemma pow2_pos n : 0 < 2 ^ n \/ n < 0.
Proof. destruct (Z.le_gt_cases 0 n); [left; by apply Z.pow_pos_nonneg|by right]. Qed.

Lemma pow2_succ n : 0 <= n -> 2 ^ (n + 1) = 2 * 2 ^ n.
Proof. intros. by rewrite Z.pow_add_r, Z.pow_1_r, Z.mul_comm by lia. Qed.

Lemma count_ones_nonneg x : 0 <= count_ones x.
Proof.
  destruct x as [|p|p]; simpl; try lia.
  induction p; simpl; lia.
Qed.

Lemma count_ones_double x : count_ones (2 * x) = count_ones x.
Proof. by destruct x. Qed.

Lemma count_ones_double_1 x : 0 <= x -> count_ones (2 * x + 1) = 1 + count_ones x.
Proof. destruct x; [done|done|lia]. Qed.

(** Two numbers written side by side: the population counts add up. *)
Lemma count_ones_concat k q r :
  0 <= k -> 0 <= q -> 0 <= r < 2 ^ k ->
  count_ones (q * 2 ^ k + r) = count_ones q + count_ones r.
Proof.
  intros Hk. revert q r. pattern k. apply natlike_ind; [| |done]; clear k Hk.
  - intros q r Hq Hr. replace r with 0 by lia.
    replace (q * 2 ^ 0 + 0) with q by lia. simpl. lia.
  - intros k Hk IH q r Hq Hr. rewrite Z.pow_succ_r in * by done.
    assert (0 <= q * 2 ^ k) by (apply Z.mul_nonneg_nonneg; lia).
    destruct (Z.Even_or_Odd r) as [[r' ->]|[r' ->]].
    + replace (q * (2 * 2 ^ k) + 2 * r') with (2 * (q * 2 ^ k + r')) by lia.
      rewrite !count_ones_double. apply IH; lia.
    + replace (q * (2 * 2 ^ k) + (2 * r' + 1)) with (2 * (q * 2 ^ k + r') + 1) by lia.
      rewrite !count_ones_double_1 by lia. rewrite IH by lia. lia.
Qed.

Lemma count_ones_pow2 k : 0 <= k -> count_ones (2 ^ k) = 1.
Proof.
  intros Hk. pattern k. apply natlike_ind; [done| |done].
  intros j Hj IH. by rewrite Z.pow_succ_r, count_ones_double.
Qed.

Lemma count_ones_ones k : 0 <= k -> count_ones (2 ^ k - 1) = k.
Proof.
  intros Hk. pattern k. apply natlike_ind; [done| |done].
  intros j Hj IH. rewrite Z.pow_succ_r by done.
  replace (2 * 2 ^ j - 1) with (2 * (2 ^ j - 1) + 1) by lia.
  assert (0 < 2 ^ j) by (apply Z.pow_pos_nonneg; lia).
  rewrite count_ones_double_1 by lia. lia.
Qed.

Lemma count_ones_le x : 0 <= x -> count_ones x <= x.
Proof.
  destruct x as [|p|p]; simpl; intros; try lia.
  clear H. induction p; simpl; lia.
Qed.

Lemma count_ones_succ x : 0 <= x -> count_ones (x + 1) <= count_ones x + 1.
Proof.
  destruct x as [|p|p]; [done| |lia]. intros _.
  change (pos_popcount (p + 1) <= pos_popcount p + 1).
  induction p as [p IH|p IH|]; [|simpl; lia|done].
  change (pos_popcount (Pos.succ p) <= 1 + pos_popcount p + 1).
  rewrite <- Pos.add_1_r. lia.
Qed.

(** ** Lists *)
Lemma last_of_sorted (l : list Z) x :
  StronglySorted Z.lt l -> x ∈ l -> (forall y, y ∈ l -> y <= x) -> last l = Some x.
Proof.
  intros Hs Hx Hmax. destruct (last l) as [y|] eqn:Hl.
  - apply last_Some in Hl as [l' ->]. f_equal.
    assert (y <= x) by (apply Hmax, elem_of_app; right; by left).
    apply elem_of_app in Hx as [Hx|Hx%list_elem_of_singleton]; [|done].
    apply StronglySorted_app in Hs as (Hs & _). exfalso.
    specialize (Hs x y Hx ltac:(by left)). lia.
  - apply last_None in Hl as ->. by apply elem_of_nil in Hx.
Qed.

Lemma filter_all {A} (P : A -> Prop) `{!forall x, Decision (P x)} (l : list A) :
  (forall x, x ∈ l -> P x) -> filter P l = l.
Proof.
  induction l as [|x l IH]; intros Hl; [done|].
  rewrite filter_cons_True by (apply Hl; by left). rewrite IH; [done|].
  intros y Hy. apply Hl. by right.
Qed.

Lemma filter_none {A} (P : A -> Prop) `{!forall x, Decision (P x)} (l : list A) :
  (forall x, x ∈ l -> ~ P x) -> filter P l = [].
Proof.
  induction l as [|x l IH]; intros Hl; [done|].
  rewrite filter_cons_False by (apply Hl; by left). apply IH.
  intros y Hy. apply Hl. by right.
Qed.

Lemma omap_ext_elem {A C} (f g : A -> option C) (l : list A) :
  (forall x, x ∈ l -> f x = g x) -> omap f l = omap g l.
Proof.
  induction l as [|x l IHl]; intros Hfg; [done|]. cbn [omap list_omap].
  rewrite (Hfg x) by (by left). rewrite IHl; [done|]. intros y Hy. apply Hfg. by right.
Qed.

Lemma omap_nonempty {A C} (f : A -> option C) (l : list A) x :
  x ∈ l -> is_Some (f x) -> omap f l <> [].
Proof.
  intros Hx [y Hy] E0. eapply elem_of_nil. rewrite <- E0.
  apply list_elem_of_omap. eauto.
Qed.

Lemma length_omap_le {A C} (f : A -> option C) (l : list A) : (length (omap f l) <= length l)%nat.
Proof. induction l as [|x l IH]; [done|]. cbn [omap list_omap]. destruct (f x); simpl; unfold omap in *; lia. Qed.

(** ** [slice::binary_search_by]

    The loop of the standard library: [base] moves to the middle unless the
    middle is greater; [Ok i] is a match, [Err i] an insertion point. *)
Fixpoint bs_loop {A} (fuel : nat) (f : A -> comparison) (s : list A) (base size : nat) : nat :=
  match fuel with
  | O => base
  | S fuel =>
      if (1 <? size)%nat then
        let half := (size / 2)%nat in
        let mid := (base + half)%nat in
        let base := match f <$> s !! mid with
                    | Some Gt => base
                    | _ => mid
                    end in
        bs_loop fuel f s base (size - half)
      else base
  end.

Definition binary_search_by {A} (f : A -> comparison) (s : list A) : outcome nat nat :=
  match s with
  | [] => Err 0%nat
  | _ =>
      let base := bs_loop (length s) f s 0 (length s) in
      match f <$> s !! base with
      | Some Eq => Ok base
      | Some Lt => Err (S base)
      | _ => Err base
      end
  end.

(** The slice is sorted for the probe: [Lt] then [Eq] then [Gt]. *)
Definition probe_sorted {A} (f : A -> comparison) (s : list A) : Prop :=
  forall i j a b, (i < j)%nat -> s !! i = Some a -> s !! j = Some b ->
    (f a = Gt -> f b = Gt) /\ (f b = Lt -> f a = Lt).

Lemma bs_loop_spec {A} (f : A -> comparison) (s : list A) fuel base size :
  probe_sorted f s -> (size <= S fuel)%nat -> (1 <= size)%nat -> (base + size <= length s)%nat ->
  (base = 0%nat \/ f <$> s !! base <> Some Gt) ->
  (forall j a, (base + size <= j)%nat -> s !! j = Some a -> f a = Gt) ->
  let r := bs_loop fuel f s base size in
  (r < length s)%nat /\ (r = 0%nat \/ f <$> s !! r <> Some Gt) /\
  (forall j a, (r < j)%nat -> s !! j = Some a -> f a = Gt).
Proof.
  intros Hs. revert base size. induction fuel as [|fuel IH]; intros base size Hf H1 Hlen Hb Hg;
    cbn [bs_loop]; [split_and!; [lia|done|intros; eapply Hg; [|done]; lia]|].
  destruct (Nat.ltb_spec 1 size) as [Hlt|Hge].
  2: { split_and!; [lia|done|]. intros j a Hj. apply Hg. lia. }
  set (half := (size / 2)%nat).
  assert (1 <= half /\ 2 * half <= size)%nat as Hh.
  { unfold half. pose proof (Nat.div_mod_eq size 2). pose proof (Nat.mod_upper_bound size 2). lia. }
  destruct (lookup_lt_is_Some_2 s (base + half)) as [m Hm]; [lia|].
  rewrite Hm. cbn [fmap option_fmap option_map].
  destruct (f m) eqn:Hfm; apply IH; try lia; try done.
  - right. rewrite Hm. simpl. congruence.
  - intros j a Hj. apply Hg. lia.
  - right. rewrite Hm. simpl. congruence.
  - intros j a Hj. apply Hg. lia.
  - intros j a Hj Ha. destruct (Nat.eq_dec j (base + half)) as [->|]; [congruence|].
    eapply (Hs (base + half)%nat j m a); [lia|done..].
Qed.

Lemma binary_search_by_spec {A} (f : A -> comparison) (s : list A) :
  probe_sorted f s ->
  match binary_search_by f s with
  | Ok i => exists a, s !! i = Some a /\ f a = Eq
  | Err i => (i <= length s)%nat /\ forall j a, s !! j = Some a ->
      f a = if (j <? i)%nat then Lt else Gt
  | Panic => False
  end.
Proof.
  intros Hs. destruct s as [|x s']; [split; [simpl; lia|intros j a; by rewrite lookup_nil]|].
  set (s := x :: s') in *. unfold binary_search_by. fold s.
  destruct (bs_loop_spec f s (length s) 0 (length s)) as (Hr & Hb & Hg);
    [done|lia|simpl; lia|lia|by left|intros j a Hj Ha; apply lookup_lt_Some in Ha; lia|].
  set (r := bs_loop _ _ _ _ _) in *. destruct (lookup_lt_is_Some_2 s r Hr) as [m Hm].
  rewrite Hm in *. cbn [fmap option_fmap option_map] in *. destruct (f m) eqn:Hfm.
  - by exists m.
  - split; [lia|]. intros j a Ha. destruct (Nat.ltb_spec j (S r)).
    + destruct (Nat.eq_dec j r) as [->|]; [congruence|]. eapply (Hs j r); eauto. lia.
    + eapply Hg; [|done]. lia.
  - destruct Hb as [Hb|]; [|done]. split; [lia|]. intros j a Ha.
    destruct (Nat.ltb_spec j r); [lia|]. destruct (Nat.eq_dec j r) as [->|]; [congruence|].
    eapply Hg; [|done]. lia.
Qed.

Lemma probe_sorted_Z (x : Z) l :
  StronglySorted Z.lt l -> probe_sorted (fun y => Z.compare y x) l.
Proof.
  intros Hs. induction Hs as [|y l Hs IH Hy]; intros i j a b Hij Ha Hb; [by rewrite lookup_nil in Ha|].
  destruct j as [|j]; [lia|]. destruct i as [|i]; simpl in *.
  - simplify_eq. rewrite Forall_forall in Hy. specialize (Hy b (list_elem_of_lookup_2 _ _ _ Hb)).
    rewrite !Z.compare_gt_iff, !Z.compare_lt_iff. lia.
  - eapply (IH i j); eauto. lia.
Qed.
