(* ===== verification/PmmrIndex.v ===== *)
(** * Positions of a Merkle Mountain Range

    The position arithmetic of [core/src/core/pmmr/pmmr.rs]: free functions on
    1-based postorder positions ([peaks], [n_leaves], [family], ...).  Every
    function is a translation of the bit-twiddling code on [u64]; the theorems
    relate it to an abstract view of a node as a pair [(n, h)]: the 0-based
    index [n] of the last leaf below the node, and its height [h]. *)
From S2P Require Import Prelude.

(** ** The code *)
Module Pos.

Definition ALL_ONES : Z := u64_max.

Definition peaks_body (s : Z * Z * Z * list Z) : Z * Z * Z * list Z :=
  let '(peak_size, num_left, sum_prev_peaks, peaks) := s in
  let '(num_left, sum_prev_peaks, peaks) :=
    if num_left >=? peak_size then
      (num_left -! peak_size, sum_prev_peaks +! peak_size,
       peaks ++ [sum_prev_peaks +! peak_size])
    else (num_left, sum_prev_peaks, peaks) in
  (peak_size >>! 1, num_left, sum_prev_peaks, peaks).

Definition peaks (num : Z) : list Z :=
  if num =? 0 then []
  else
    let peak_size := ALL_ONES >>! leading_zeros num in
    let '(_, num_left, _, peaks) :=
      while 64 (fun '(ps, _, _, _) => negb (ps =? 0)) peaks_body
        (peak_size, num, 0, []) in
    if num_left >? 0 then [] else peaks.

Definition peak_sizes_body (s : Z * Z * list Z) : Z * Z * list Z :=
  let '(peak_size, size_left, sizes) := s in
  let '(size_left, sizes) :=
    if size_left >=? peak_size then (size_left -! peak_size, sizes ++ [peak_size])
    else (size_left, sizes) in
  (peak_size >>! 1, size_left, sizes).

Definition peak_sizes_height (size : Z) : list Z * Z :=
  if size =? 0 then ([], 0)
  else
    let peak_size := ALL_ONES >>! leading_zeros size in
    let '(_, size_left, sizes) :=
      while 64 (fun '(ps, _, _) => negb (ps =? 0)) peak_sizes_body
        (peak_size, size, []) in
    (sizes, size_left).

Definition n_leaves (size : Z) : Z :=
  let '(sizes, height) := peak_sizes_height size in
  let nleaves := foldl u64_add 0 (map (fun n => (n +! 1) / 2) sizes) in
  if height =? 0 then nleaves else nleaves +! 1.

Definition insertion_to_pmmr_index (sz : Z) : Z :=
  if sz =? 0 then 0
  else
    let sz := sz -! 1 in
    2 *! sz -! count_ones sz +! 1.

Definition peak_map_body (s : Z * Z * Z) : Z * Z * Z :=
  let '(peak_size, bitmap, pos) := s in
  let bitmap := bitmap <<! 1 in
  let '(pos, bitmap) :=
    if pos >=? peak_size then (pos -! peak_size, Z.lor bitmap 1)
    else (pos, bitmap) in
  (peak_size >>! 1, bitmap, pos).

Definition peak_map_height (pos : Z) : Z * Z :=
  if pos =? 0 then (0, 0)
  else
    let peak_size := ALL_ONES >>! leading_zeros pos in
    let '(_, bitmap, pos) :=
      while 64 (fun '(ps, _, _) => negb (ps =? 0)) peak_map_body
        (peak_size, 0, pos) in
    (bitmap, pos).

Definition bintree_postorder_height (num : Z) : Z :=
  if num =? 0 then 0 else (peak_map_height (num -! 1)).2.

Definition is_leaf (pos : Z) : bool := bintree_postorder_height pos =? 0.

Definition family (pos : Z) : Z * Z :=
  let '(peak_map, height) := peak_map_height (pos -! 1) in
  let peak := 1 <<! height in
  if negb (Z.land peak_map peak =? 0) then
    (pos +! 1, pos +! 1 -! 2 *! peak)
  else (pos +! 2 *! peak, pos +! 2 *! peak -! 1).

Definition is_left_sibling (pos : Z) : bool :=
  let '(peak_map, height) := peak_map_height (pos -! 1) in
  let peak := 1 <<! height in
  Z.land peak_map peak =? 0.

Definition path_body (peak_map : Z) (s : Z * Z * list Z) : Z * Z * list Z :=
  let '(current, peak, path) := s in
  let path := path ++ [current] in
  let current :=
    current +! (if negb (Z.land peak_map peak =? 0) then 1 else 2 *! peak) in
  (current, peak <<! 1, path).

Definition path (pos last_pos : Z) : list Z :=
  let '(peak_map, height) := peak_map_height (pos -! 1) in
  let peak := 1 <<! height in
  let '(_, _, path) :=
    while 64 (fun '(current, _, _) => current <=? last_pos) (path_body peak_map)
      (pos, peak, []) in
  path.

(** The loop of [family_branch]; its [break] ends the list. *)
Fixpoint family_branch_loop (fuel : nat) (peak_map last_pos current peak : Z)
    : list (Z * Z) :=
  match fuel with
  | O => []
  | S fuel =>
      if current <? last_pos then
        let '(current, sibling) :=
          if negb (Z.land peak_map peak =? 0) then
            let current := current +! 1 in (current, current -! 2 *! peak)
          else
            let current := current +! 2 *! peak in (current, current -! 1) in
        if current >? last_pos then []
        else (current, sibling)
               :: family_branch_loop fuel peak_map last_pos current (peak <<! 1)
      else []
  end.

Definition family_branch (pos last_pos : Z) : list (Z * Z) :=
  let '(peak_map, height) := peak_map_height (pos -! 1) in
  family_branch_loop 64 peak_map last_pos pos (1 <<! height).

Definition bintree_rightmost (num : Z) : Z := num -! bintree_postorder_height num.

Definition bintree_leftmost (num : Z) : Z :=
  let height := bintree_postorder_height num in
  num +! 2 -! (2 <<! height).

(** The values of the doc comments and unit tests of the source. *)
Example peak_map_height_4 : peak_map_height 4 = (3, 0).
Proof. reflexivity. Qed.
Example peak_sizes_height_5 : peak_sizes_height 5 = ([3; 1], 1).
Proof. reflexivity. Qed.
Example peaks_42 : peaks 42 = [31; 38; 41; 42].
Proof. reflexivity. Qed.
Example peaks_invalid : peaks 6 = [].
Proof. reflexivity. Qed.
Example family_branch_2_7 : family_branch 2 7 = [(3, 1); (7, 6)].
Proof. reflexivity. Qed.
Example path_1_7 : path 1 7 = [1; 3; 7].
Proof. reflexivity. Qed.
Example n_leaves_5 : n_leaves 5 = 4.
Proof. reflexivity. Qed.

End Pos.

(** ** The abstract view *)
Module Node.

(** Number of nodes (leaves and parents) of a range of [n] leaves. *)
Definition mmr_size (n : Z) : Z := 2 * n - count_ones n.

(** [(n, h)] names a node: [n] is the last leaf of a perfect subtree of height [h]. *)
Definition is_node (n h : Z) : Prop := 0 <= n /\ 0 <= h /\ n mod 2 ^ h = 2 ^ h - 1.

(** Its 1-based postorder position. *)
Definition pos_of (n h : Z) : Z := mmr_size n + h + 1.

Lemma mmr_size_0 : mmr_size 0 = 0.
Proof. done. Qed.

Lemma mmr_size_ge n : 0 <= n -> n <= mmr_size n <= 2 * n.
Proof.
  intros. unfold mmr_size.
  pose proof (count_ones_nonneg n). pose proof (count_ones_le n). lia.
Qed.

(** Size of a mountain of [2 ^ k] leaves followed by a smaller range. *)
Lemma mmr_size_mountain k m :
  0 <= k -> 0 <= m < 2 ^ k -> mmr_size (2 ^ k + m) = 2 ^ (k + 1) - 1 + mmr_size m.
Proof.
  intros Hk Hm. unfold mmr_size.
  replace (2 ^ k + m) with (1 * 2 ^ k + m) by lia.
  rewrite count_ones_concat by lia. rewrite pow2_succ by lia. simpl (count_ones 1). lia.
Qed.

(** The low bits of a number whose lowest [h] bits are ones. *)
Lemma low_ones_le n h j :
  0 <= j <= h -> n mod 2 ^ h = 2 ^ h - 1 -> n mod 2 ^ j = 2 ^ j - 1.
Proof.
  intros Hj Hn.
  replace h with (j + (h - j)) in Hn by lia.
  rewrite Z.pow_add_r in Hn by lia.
  assert (0 < 2 ^ j) by (apply Z.pow_pos_nonneg; lia).
  assert (0 < 2 ^ (h - j)) by (apply Z.pow_pos_nonneg; lia).
  rewrite Z.rem_mul_r in Hn by lia.
  pose proof (Z.mod_pos_bound n (2 ^ j)).
  pose proof (Z.mod_pos_bound (n / 2 ^ j) (2 ^ (h - j))). nia.
Qed.

Lemma is_node_split n h :
  is_node n h -> exists q, 0 <= q /\ n = q * 2 ^ h + (2 ^ h - 1).
Proof.
  intros (Hn & Hh & Hm). exists (n / 2 ^ h).
  assert (0 < 2 ^ h) by (apply Z.pow_pos_nonneg; lia).
  split; [apply Z.div_pos; lia|].
  pose proof (Z.div_mod n (2 ^ h)). lia.
Qed.

Lemma is_node_intro q h : 0 <= q -> 0 <= h -> is_node (q * 2 ^ h + (2 ^ h - 1)) h.
Proof.
  intros Hq Hh. assert (0 < 2 ^ h) by (apply Z.pow_pos_nonneg; lia).
  split_and!; [nia|lia|].
  rewrite Z.add_comm, Z.mod_add by lia. apply Z.mod_small. lia.
Qed.

Lemma is_node_leaf n : 0 <= n -> is_node n 0.
Proof. intros. split_and!; [done..|]. by rewrite Z.mod_1_r. Qed.

Lemma is_node_ones n h : is_node n h -> h <= count_ones n.
Proof.
  intros Hnode. pose proof Hnode as (Hn & Hh & _).
  destruct (is_node_split n h Hnode) as (q & Hq & ->).
  assert (0 < 2 ^ h) by (apply Z.pow_pos_nonneg; lia).
  rewrite count_ones_concat, count_ones_ones by lia.
  pose proof (count_ones_nonneg q). lia.
Qed.

(** Every position is the position of a node. *)
Lemma pos_of_surj pos : 1 <= pos -> exists n h, is_node n h /\ pos = pos_of n h.
Proof.
  intros Hpos. replace pos with ((pos - 1) + 1) by lia.
  assert (0 <= pos - 1) as Hp by lia. revert Hp. generalize (pos - 1). clear pos Hpos.
  intros p Hp. pattern p. apply natlike_ind; [| |done]; clear p Hp.
  - exists 0, 0. split; [by apply is_node_leaf|done].
  - intros p Hp (n & h & Hnode & Heq). unfold pos_of in *.
    pose proof Hnode as (Hn & Hh & _).
    destruct (is_node_split n h Hnode) as (q & Hq & Hnq).
    assert (0 < 2 ^ h) by (apply Z.pow_pos_nonneg; lia).
    destruct (Z.Even_or_Odd q) as [[q' Hq']|[q' Hq']]; subst q.
    + (* the node is a left child: the next position is a fresh leaf *)
      exists (n + 1), 0. split; [apply is_node_leaf; lia|].
      enough (mmr_size (n + 1) = mmr_size n + 1 + h) by lia.
      unfold mmr_size. rewrite Hnq.
      replace (2 * q' * 2 ^ h + (2 ^ h - 1) + 1) with (q' * 2 ^ (h + 1) + 2 ^ h)
        by (rewrite pow2_succ by lia; lia).
      replace (2 * q' * 2 ^ h + (2 ^ h - 1)) with (q' * 2 ^ (h + 1) + (2 ^ h - 1))
        by (rewrite pow2_succ by lia; lia).
      rewrite !count_ones_concat by (rewrite ?pow2_succ by lia; lia).
      rewrite count_ones_pow2, count_ones_ones by lia.
      rewrite pow2_succ by lia. lia.
    + (* a right child: the next position is its parent *)
      exists n, (h + 1). split; [|lia]. subst n.
      replace ((2 * q' + 1) * 2 ^ h + (2 ^ h - 1)) with (q' * 2 ^ (h + 1) + (2 ^ (h + 1) - 1))
        by (rewrite pow2_succ by lia; lia).
      apply is_node_intro; lia.
Qed.

End Node.

(** ** The greedy loops compute node coordinates *)
Module Greedy.
Import Pos Node.

(** Loop invariant at [peak_size = 2 ^ k - 1]: [n] has [k] bits left, its lowest ones. *)
Definition greedy (k n h : Z) : Prop :=
  0 <= n < 2 ^ k /\ 0 <= h /\ n mod 2 ^ (Z.min h k) = 2 ^ (Z.min h k) - 1.

Lemma greedy_hit k n h :
  0 <= k -> greedy (k + 1) n h -> 2 ^ k <= n ->
  mmr_size n + h = (2 ^ (k + 1) - 1) + (mmr_size (n - 2 ^ k) + h) /\ greedy k (n - 2 ^ k) h.
Proof.
  intros Hk (Hn & Hh & Hm) Hge. rewrite pow2_succ in Hn by lia.
  assert (0 < 2 ^ k) by (apply Z.pow_pos_nonneg; lia).
  split.
  - replace n with (2 ^ k + (n - 2 ^ k)) at 1 by lia.
    rewrite mmr_size_mountain by lia. lia.
  - split_and!; [lia|lia|done|].
    apply (low_ones_le _ _ (Z.min h k)) in Hm; [|lia].
    set (j := Z.min h k) in *.
    replace (n - 2 ^ k) with (n + (- 2 ^ (k - j)) * 2 ^ j).
    + by rewrite Z.mod_add by (apply Z.pow_nonzero; lia).
    + assert (2 ^ k = 2 ^ (k - j) * 2 ^ j)
        by (rewrite <- Z.pow_add_r by lia; f_equal; lia).
      lia.
Qed.

Lemma greedy_miss k n h :
  0 <= k -> greedy (k + 1) n h -> n < 2 ^ k ->
  mmr_size n + h < 2 ^ (k + 1) - 1 /\ greedy k n h.
Proof.
  intros Hk (Hn & Hh & Hm) Hlt.
  assert (0 < 2 ^ k) by (apply Z.pow_pos_nonneg; lia).
  assert (h <= k) as Hhk.
  { destruct (Z.le_gt_cases h k); [done|]. exfalso.
    apply (low_ones_le _ _ (k + 1)) in Hm; [|lia].
    rewrite Z.mod_small in Hm by lia. rewrite pow2_succ in Hm by lia. lia. }
  rewrite Z.min_l in Hm by lia. split.
  - pose proof (is_node_ones n h) as Ho. unfold mmr_size. rewrite pow2_succ by lia.
    assert (is_node n h) by (split_and!; lia). specialize (Ho H0). lia.
  - split_and!; [lia|lia|lia|]. by rewrite Z.min_l by lia.
Qed.

Lemma greedy_init n h :
  is_node n h -> 0 < mmr_size n + h ->
  greedy (Z.log2 (mmr_size n + h) + 1) n h.
Proof.
  intros (Hn & Hh & Hm) Hpos. set (p := mmr_size n + h) in *.
  pose proof (Z.log2_spec p Hpos) as [_ Hlt]. pose proof (Z.log2_nonneg p).
  pose proof (mmr_size_ge n Hn). rewrite Z.add_1_r. split_and!; [lia|lia|done|].
  apply (low_ones_le _ h); [|done]. lia.
Qed.

(** [ALL_ONES >> num.leading_zeros()] is the largest peak that can fit. *)
Lemma first_peak p :
  0 < p < 2 ^ 64 -> ALL_ONES >>! leading_zeros p = 2 ^ (Z.log2 p + 1) - 1.
Proof.
  intros Hp. unfold leading_zeros. destruct (Z.eqb_spec p 0); [lia|].
  assert (0 <= Z.log2 p < 64) as Hl.
  { split; [apply Z.log2_nonneg|]. apply Z.log2_lt_pow2; lia. }
  rewrite u64_shr_div by lia. unfold ALL_ONES, u64_max.
  set (a := Z.log2 p + 1). replace (63 - Z.log2 p) with (64 - a) by lia.
  assert (0 < 2 ^ (64 - a)) by (apply Z.pow_pos_nonneg; lia).
  assert (0 < 2 ^ a) by (apply Z.pow_pos_nonneg; lia).
  replace (2 ^ 64) with (2 ^ a * 2 ^ (64 - a)) by (rewrite <- Z.pow_add_r by lia; f_equal; lia).
  symmetry. apply Z.div_unique with (r := 2 ^ (64 - a) - 1); nia.
Qed.

Lemma next_peak k : 0 <= k -> (2 ^ (k + 1) - 1) >>! 1 = 2 ^ k - 1.
Proof.
  intros. rewrite u64_shr_div by lia. rewrite pow2_succ by lia.
  symmetry. apply Z.div_unique with (r := 1); lia.
Qed.

Lemma peak_nonzero k : 0 <= k -> negb (2 ^ (k + 1) - 1 =? 0) = true.
Proof.
  intros. assert (0 < 2 ^ k) by (apply Z.pow_pos_nonneg; lia).
  rewrite pow2_succ by lia. destruct (Z.eqb_spec (2 * 2 ^ k - 1) 0); [lia|done].
Qed.

Lemma log2_bits p : 0 < p < 2 ^ 64 -> 0 <= Z.log2 p + 1 <= 64.
Proof.
  intros Hp. assert (Z.log2 p < 64) by (apply Z.log2_lt_pow2; lia).
  pose proof (Z.log2_nonneg p). lia.
Qed.

Lemma pow2_le_u64 k : 0 <= k <= 64 -> 0 < 2 ^ k <= 2 ^ 64.
Proof. intros. split; [apply Z.pow_pos_nonneg|apply Z.pow_le_mono_r]; lia. Qed.

(** One round of a loop, for the two outcomes of its comparison. *)
Lemma greedy_round k n h :
  0 <= k -> greedy (k + 1) n h ->
  (2 ^ k <= n /\ greedy k (n - 2 ^ k) h /\
   (mmr_size n + h >=? 2 ^ (k + 1) - 1) = true /\
   mmr_size n + h - (2 ^ (k + 1) - 1) = mmr_size (n - 2 ^ k) + h) \/
  (n < 2 ^ k /\ greedy k n h /\ (mmr_size n + h >=? 2 ^ (k + 1) - 1) = false).
Proof.
  intros Hk Hg. destruct (Z.le_gt_cases (2 ^ k) n) as [Hle|Hlt].
  - left. apply greedy_hit in Hg as [Hsz Hg]; [|done..].
    pose proof Hg as ((? & _) & ? & _). pose proof (mmr_size_ge (n - 2 ^ k)).
    split_and!; [done|done| |lia]. rewrite Z.geb_leb. apply Z.leb_le. lia.
  - right. apply greedy_miss in Hg as [Hsz Hg]; [|done..].
    split_and!; [done|done|]. rewrite Z.geb_leb. apply Z.leb_gt. lia.
Qed.

#[local] Coercion Z.of_nat : nat >-> Z.

Lemma greedy_0 n h : greedy 0%nat n h -> n = 0 /\ mmr_size n + h = h.
Proof.
  intros ((Hn1 & Hn2) & _). change (2 ^ Z.of_nat 0) with 1 in Hn2.
  assert (n = 0) as -> by lia. by rewrite mmr_size_0.
Qed.

Lemma greedy_range k n h : greedy k n h -> 0 <= n /\ 0 <= h /\ 0 <= mmr_size n.
Proof. intros ((? & _) & ? & _). pose proof (mmr_size_ge n). lia. Qed.

(** Prepare the step from [S k] to [k] of a loop lemma. *)
Ltac greedy_step k :=
  rewrite Nat2Z.inj_succ, <- Z.add_1_r in *;
  pose proof (pow2_le_u64 k ltac:(lia));
  pose proof (pow2_le_u64 (k + 1) ltac:(lia));
  cbn [while]; rewrite peak_nonzero by lia;
  match goal with Hg : greedy (Z.of_nat k + 1) ?n ?h |- _ =>
    pose proof (greedy_range _ _ _ Hg) as (? & ? & ?);
    apply greedy_round in Hg as [(? & Hg & Hc & Hsz)|(? & Hg & Hc)]; [| |lia] end.

Lemma peak_map_loop (k : nat) fuel n h b :
  (k <= fuel)%nat -> (k <= 64)%nat -> greedy k n h -> 0 <= b -> (b + 1) * 2 ^ k <= 2 ^ 64 ->
  mmr_size n + h < 2 ^ 64 ->
  while fuel (fun '(ps, _, _) => negb (ps =? 0)) peak_map_body
    (2 ^ k - 1, b, mmr_size n + h) = (0, b * 2 ^ k + n, h).
Proof.
  revert fuel n b. induction k as [|k IH]; intros fuel n b Hf H64 Hg Hb Hb2 Hp.
  - apply greedy_0 in Hg as [-> ->]. destruct fuel; cbn; repeat f_equal; lia.
  - destruct fuel as [|fuel]; [lia|].
    greedy_step k; unfold peak_map_body at 2; rewrite pow2_succ in Hb2 by lia;
      rewrite next_peak, Hc by lia; unwrap64; rewrite ?Hsz; cbv beta iota zeta;
      (rewrite u64_shl_small; [change (2 ^ 1) with 2|lia|unfold is_u64; change (2 ^ 1) with 2; nia]).
    + rewrite (Z.mul_comm b 2). replace (Z.lor (2 * b) 1) with (2 * b + 1) by (by destruct b).
      rewrite IH; [|lia|lia|done|lia|nia|lia]. rewrite pow2_succ by lia. do 2 f_equal. lia.
    + rewrite IH; [|lia|lia|done|lia|nia|lia]. rewrite pow2_succ by lia. do 2 f_equal. lia.
Qed.

(** Sizes of the mountains of [n] leaves, of at most [2 ^ k] leaves each, left to right. *)
Fixpoint mountains (k : nat) (n : Z) : list Z :=
  match k with
  | O => []
  | S k => if 2 ^ k <=? n then (2 ^ (k + 1) - 1) :: mountains k (n - 2 ^ k)
           else mountains k n
  end.

(** Running sums: the positions of the summits of consecutive mountains. *)
Fixpoint summits (base : Z) (sizes : list Z) : list Z :=
  match sizes with
  | [] => []
  | s :: sizes => (base + s) :: summits (base + s) sizes
  end.

Lemma peak_sizes_loop (k : nat) fuel n h acc :
  (k <= fuel)%nat -> (k <= 64)%nat -> greedy k n h -> mmr_size n + h < 2 ^ 64 ->
  while fuel (fun '(ps, _, _) => negb (ps =? 0)) peak_sizes_body
    (2 ^ k - 1, mmr_size n + h, acc) = (0, h, acc ++ mountains k n).
Proof.
  revert fuel n acc. induction k as [|k IH]; intros fuel n acc Hf H64 Hg Hp.
  - apply greedy_0 in Hg as [-> ->]. destruct fuel; cbn; by rewrite app_nil_r.
  - destruct fuel as [|fuel]; [lia|]. cbn [mountains].
    greedy_step k; unfold peak_sizes_body at 2;
      rewrite next_peak, Hc by lia; unwrap64; rewrite ?Hsz; cbv beta iota zeta;
      rewrite IH by first [done|lia].
    + destruct (Z.leb_spec (2 ^ k) n); [|lia]. by rewrite <- app_assoc.
    + by destruct (Z.leb_spec (2 ^ k) n); [lia|].
Qed.

Lemma peaks_loop (k : nat) fuel n h base acc :
  (k <= fuel)%nat -> (k <= 64)%nat -> greedy k n h -> 0 <= base ->
  base + mmr_size n + h < 2 ^ 64 ->
  while fuel (fun '(ps, _, _, _) => negb (ps =? 0)) peaks_body
    (2 ^ k - 1, mmr_size n + h, base, acc) =
  (0, h, base + mmr_size n, acc ++ summits base (mountains k n)).
Proof.
  revert fuel n base acc. induction k as [|k IH]; intros fuel n base acc Hf H64 Hg Hb Hp.
  - apply greedy_0 in Hg as [-> ->]. destruct fuel; cbn; by rewrite app_nil_r, Z.add_0_r.
  - destruct fuel as [|fuel]; [lia|]. cbn [mountains].
    greedy_step k; unfold peaks_body at 2; rewrite next_peak, Hc by lia.
    + pose proof (greedy_range _ _ _ Hg). unwrap64. rewrite Hsz. cbv beta iota zeta.
      destruct (Z.leb_spec (2 ^ k) n); [|lia]. cbn [summits].
      rewrite IH by first [done|lia]. rewrite <- app_assoc. do 2 f_equal. lia.
    + rewrite IH by first [done|lia]. by destruct (Z.leb_spec (2 ^ k) n); [lia|].
Qed.

End Greedy.

(** ** What the position functions compute *)
Module Spec.
Import Pos Node Greedy.

(** Parent and sibling of a node in the infinite binary tree over the leaves. *)
Definition parent_leaf (n h : Z) : Z := if Z.testbit n h then n else n + 2 ^ h.
Definition sibling_leaf (n h : Z) : Z := if Z.testbit n h then n - 2 ^ h else n + 2 ^ h.

Lemma pos_of_ge n h : is_node n h -> 2 ^ (h + 1) - 1 <= pos_of n h.
Proof.
  intros Hnode. pose proof Hnode as (_ & Hh & _).
  destruct (is_node_split n h Hnode) as (q & Hq & ->).
  assert (0 < 2 ^ h) by (apply Z.pow_pos_nonneg; lia).
  unfold pos_of, mmr_size.
  rewrite count_ones_concat, count_ones_ones by lia. rewrite pow2_succ by lia.
  pose proof (count_ones_le q). nia.
Qed.

Lemma pos_of_pos n h : is_node n h -> 1 <= pos_of n h.
Proof. intros (Hn & Hh & _). unfold pos_of. pose proof (mmr_size_ge n Hn). lia. Qed.

Lemma height_lt n h k : is_node n h -> 0 <= k -> pos_of n h < 2 ^ (k + 1) - 1 -> h < k.
Proof.
  intros Hnode Hk Hlt. pose proof (pos_of_ge n h Hnode). destruct Hnode as (_ & Hh & _).
  destruct (Z.le_gt_cases k h); [|lia]. exfalso.
  pose proof (Z.pow_le_mono_r 2 (k + 1) (h + 1)). lia.
Qed.

Lemma testbit_split q h :
  0 <= h -> Z.testbit (q * 2 ^ h + (2 ^ h - 1)) h = Z.odd q.
Proof.
  intros Hh. assert (0 < 2 ^ h) by (apply Z.pow_pos_nonneg; lia).
  rewrite Z.testbit_odd, Z.shiftr_div_pow2 by lia. f_equal.
  symmetry. apply Z.div_unique with (r := 2 ^ h - 1); lia.
Qed.

(** The tree walk stays on nodes, at the positions the code computes. *)
Lemma parent_node n h : is_node n h -> is_node (parent_leaf n h) (h + 1).
Proof.
  intros Hnode. pose proof Hnode as (_ & Hh & _). unfold parent_leaf.
  destruct (is_node_split n h Hnode) as (q & Hq & ->). rewrite testbit_split by done.
  assert (0 < 2 ^ h) by (apply Z.pow_pos_nonneg; lia).
  destruct (Z.Even_or_Odd q) as [[p ->]|[p ->]].
  - rewrite Z.odd_mul. simpl.
    replace (2 * p * 2 ^ h + (2 ^ h - 1) + 2 ^ h) with (p * 2 ^ (h + 1) + (2 ^ (h + 1) - 1))
      by (rewrite pow2_succ by lia; lia).
    apply is_node_intro; lia.
  - rewrite Z.add_comm, Z.odd_add_mul_2. simpl.
    replace ((1 + 2 * p) * 2 ^ h + (2 ^ h - 1)) with (p * 2 ^ (h + 1) + (2 ^ (h + 1) - 1))
      by (rewrite pow2_succ by lia; lia).
    apply is_node_intro; lia.
Qed.

Lemma sibling_node n h : is_node n h -> is_node (sibling_leaf n h) h.
Proof.
  intros Hnode. pose proof Hnode as (_ & Hh & _). unfold sibling_leaf.
  destruct (is_node_split n h Hnode) as (q & Hq & ->). rewrite testbit_split by done.
  destruct (Z.odd q) eqn:Hodd.
  - replace (q * 2 ^ h + (2 ^ h - 1) - 2 ^ h) with ((q - 1) * 2 ^ h + (2 ^ h - 1)) by lia.
    apply is_node_intro; [|done]. destruct (Z.eq_dec q 0); [by subst|lia].
  - replace (q * 2 ^ h + (2 ^ h - 1) + 2 ^ h) with ((q + 1) * 2 ^ h + (2 ^ h - 1)) by lia.
    apply is_node_intro; lia.
Qed.

(** Going from a left node to its right sibling skips a whole subtree. *)
Lemma mmr_size_sibling q h :
  0 <= q -> 0 <= h ->
  mmr_size ((2 * q + 1) * 2 ^ h + (2 ^ h - 1)) =
  mmr_size (2 * q * 2 ^ h + (2 ^ h - 1)) + 2 ^ (h + 1) - 1.
Proof.
  intros Hq Hh. assert (0 < 2 ^ h) by (apply Z.pow_pos_nonneg; lia).
  unfold mmr_size. rewrite !count_ones_concat by lia.
  rewrite count_ones_double, count_ones_double_1 by lia. rewrite pow2_succ by lia. lia.
Qed.

Lemma family_positions n h :
  is_node n h ->
  if Z.testbit n h
  then pos_of (parent_leaf n h) (h + 1) = pos_of n h + 1 /\
       pos_of (sibling_leaf n h) h = pos_of n h + 1 - 2 ^ (h + 1)
  else pos_of (parent_leaf n h) (h + 1) = pos_of n h + 2 ^ (h + 1) /\
       pos_of (sibling_leaf n h) h = pos_of n h + 2 ^ (h + 1) - 1.
Proof.
  intros Hnode. pose proof Hnode as (_ & Hh & _). unfold parent_leaf, sibling_leaf, pos_of.
  destruct (is_node_split n h Hnode) as (q & Hq & ->). rewrite !testbit_split by done.
  assert (0 < 2 ^ h) by (apply Z.pow_pos_nonneg; lia).
  destruct (Z.Even_or_Odd q) as [[p ->]|[p ->]].
  - rewrite Z.odd_mul. simpl.
    replace (2 * p * 2 ^ h + (2 ^ h - 1) + 2 ^ h)
      with ((2 * p + 1) * 2 ^ h + (2 ^ h - 1)) by lia.
    rewrite mmr_size_sibling by lia. lia.
  - rewrite (Z.add_comm (2 * p) 1), Z.odd_add_mul_2. simpl. rewrite (Z.add_comm 1).
    replace ((2 * p + 1) * 2 ^ h + (2 ^ h - 1) - 2 ^ h)
      with (2 * p * 2 ^ h + (2 ^ h - 1)) by lia.
    rewrite mmr_size_sibling by lia. lia.
Qed.

Lemma land_pow2 n h : 0 <= h -> negb (Z.land n (2 ^ h) =? 0) = Z.testbit n h.
Proof.
  intros Hh. destruct (Z.testbit n h) eqn:Hb.
  - destruct (Z.eqb_spec (Z.land n (2 ^ h)) 0) as [E|]; [|done]. exfalso.
    apply (f_equal (fun x => Z.testbit x h)) in E.
    by rewrite Z.land_spec, Z.pow2_bits_true, Hb, Z.bits_0 in E by done.
  - destruct (Z.eqb_spec (Z.land n (2 ^ h)) 0) as [|E]; [done|]. exfalso. apply E.
    apply Z.bits_inj'. intros i Hi. rewrite Z.land_spec, Z.bits_0, Z.pow2_bits_eqb by done.
    destruct (Z.eqb_spec h i); [subst; by rewrite Hb|by rewrite andb_false_r].
Qed.

(** [peak_map_height] inverts the numbering of the nodes. *)
Lemma peak_map_height_node n h :
  is_node n h -> mmr_size n + h < 2 ^ 64 -> peak_map_height (mmr_size n + h) = (n, h).
Proof.
  intros Hnode Hlt. pose proof Hnode as (Hn & Hh & _). pose proof (mmr_size_ge n Hn).
  unfold peak_map_height. destruct (Z.eqb_spec (mmr_size n + h) 0).
  { assert (n = 0 /\ h = 0) as [-> ->] by lia. done. }
  rewrite first_peak by lia. pose proof (log2_bits (mmr_size n + h) ltac:(lia)) as Hb.
  pose proof (greedy_init n h Hnode ltac:(lia)) as Hg.
  set (K := Z.log2 (mmr_size n + h) + 1) in *.
  replace K with (Z.of_nat (Z.to_nat K)) in * by lia.
  pose proof (pow2_le_u64 (Z.of_nat (Z.to_nat K)) Hb).
  rewrite peak_map_loop by first [done|lia]. by rewrite Z.mul_0_l.
Qed.

Lemma peak_map_height_pos n h :
  is_node n h -> pos_of n h < 2 ^ 64 -> peak_map_height (pos_of n h -! 1) = (n, h).
Proof.
  intros Hnode Hlt. pose proof (pos_of_pos n h Hnode). unwrap64.
  unfold pos_of in *. rewrite Z.add_simpl_r. apply peak_map_height_node; [done|lia].
Qed.

Lemma height_pos n h :
  is_node n h -> pos_of n h < 2 ^ 64 -> bintree_postorder_height (pos_of n h) = h.
Proof.
  intros Hnode Hlt. pose proof (pos_of_pos n h Hnode). unfold bintree_postorder_height.
  destruct (Z.eqb_spec (pos_of n h) 0); [lia|]. by rewrite peak_map_height_pos.
Qed.

Lemma pos_of_inj n h n' h' :
  is_node n h -> is_node n' h' -> pos_of n h < 2 ^ 64 -> pos_of n h = pos_of n' h' ->
  n = n' /\ h = h'.
Proof.
  intros H1 H2 Hlt E. pose proof (peak_map_height_pos n h H1 Hlt) as P.
  rewrite E, peak_map_height_pos in P by (done || lia). naive_solver.
Qed.

(** Room for the walk up the tree below [2 ^ 63]. *)
Lemma walk_room n h :
  is_node n h -> pos_of n h < 2 ^ 63 ->
  0 <= h < 63 /\ 0 < 2 ^ (h + 1) <= pos_of n h + 1 /\ 2 ^ (h + 1) = 2 * 2 ^ h.
Proof.
  intros Hnode Hlt. pose proof (pos_of_ge n h Hnode). pose proof Hnode as (_ & Hh & _).
  rewrite (pow2_succ h) in * by done. assert (0 < 2 ^ h) by (apply Z.pow_pos_nonneg; lia).
  assert (h < 63); [|lia]. eapply (height_lt n h 63); [done..|]. change (2 ^ (63 + 1)) with (2 ^ 64). lia.
Qed.

Lemma family_node n h :
  is_node n h -> pos_of n h < 2 ^ 63 ->
  family (pos_of n h) = (pos_of (parent_leaf n h) (h + 1), pos_of (sibling_leaf n h) h).
Proof.
  intros Hnode Hlt. pose proof (walk_room n h Hnode Hlt) as (Hh & Hr & E2).
  pose proof (pos_of_pos n h Hnode). unfold family. rewrite peak_map_height_pos by (done || lia).
  rewrite u64_shl_small by (unfold is_u64; lia). rewrite Z.mul_1_l, land_pow2 by lia.
  pose proof (family_positions n h Hnode) as Hf.
  destruct (Z.testbit n h); destruct Hf as [-> ->]; unwrap64; by rewrite E2.
Qed.

(** *** Monotonicity of the sizes *)
Lemma mmr_size_lt a b : 0 <= a < b -> mmr_size a < mmr_size b.
Proof.
  intros Hab. assert (0 <= a) as Ha by lia. replace b with (a + 1 + (b - a - 1)) by lia.
  assert (0 <= b - a - 1) as Hd by lia. revert Hd. generalize (b - a - 1). clear b Hab.
  intros d Hd. pattern d. apply natlike_ind; [| |done]; clear d Hd.
  - unfold mmr_size. pose proof (count_ones_succ a). rewrite Z.add_0_r. lia.
  - intros d Hd IH. unfold mmr_size in *. pose proof (count_ones_succ (a + 1 + d)).
    rewrite Z.add_succ_r, <- Z.add_1_r. lia.
Qed.

Lemma mmr_size_le a b : 0 <= a <= b -> mmr_size a <= mmr_size b.
Proof.
  intros. destruct (Z.eq_dec a b) as [->|]; [lia|]. pose proof (mmr_size_lt a b). lia.
Qed.

(** A node is in the range of [n] leaves exactly when its last leaf is. *)
Lemma pos_of_in_range m h n :
  is_node m h -> 0 <= n -> pos_of m h <= mmr_size n <-> m < n.
Proof.
  intros Hnode Hn. pose proof Hnode as (Hm & Hh & _). split; intros Hle.
  - destruct (Z.le_gt_cases n m); [|done]. unfold pos_of in Hle.
    pose proof (mmr_size_le n m). lia.
  - pose proof (mmr_size_le (m + 1) n).
    enough (pos_of m h <= mmr_size (m + 1)) by lia.
    destruct (is_node_split m h Hnode) as (q & Hq & Em). unfold pos_of, mmr_size.
    assert (0 < 2 ^ h) by (apply Z.pow_pos_nonneg; lia).
    replace (count_ones m) with (count_ones q + h).
    + replace (m + 1) with ((q + 1) * 2 ^ h + 0) by lia.
      rewrite count_ones_concat by lia.
      pose proof (count_ones_succ q). simpl (count_ones 0). lia.
    + subst m. rewrite count_ones_concat, count_ones_ones by lia.
      lia.
Qed.

(** *** Mountains and summits *)
Lemma mmr_size_concat k q r :
  0 <= k -> 0 <= q -> 0 <= r < 2 ^ k ->
  mmr_size (q * 2 ^ k + r) = mmr_size (q * 2 ^ k) + mmr_size r.
Proof.
  intros. unfold mmr_size.
  replace (count_ones (q * 2 ^ k)) with (count_ones (q * 2 ^ k + 0)) by (f_equal; lia).
  rewrite !count_ones_concat by lia. simpl (count_ones 0). lia.
Qed.

(** The summit of height [j] closes the leaves counted by the bits of [n] from [j] up. *)
Lemma elem_of_summits (k : nat) B n p :
  0 <= B -> 0 <= n < 2 ^ Z.of_nat k ->
  p ∈ summits (mmr_size (B * 2 ^ Z.of_nat k)) (mountains k n) <->
  exists j, 0 <= j < Z.of_nat k /\ Z.testbit n j = true /\
    p = mmr_size ((B * 2 ^ Z.of_nat k + n) / 2 ^ j * 2 ^ j).
Proof.
  revert B n. induction k as [|k IH]; intros B n HB Hn; cbn [mountains summits].
  - rewrite elem_of_nil. split; [done|]. intros (j & Hj & _). lia.
  - rewrite Nat2Z.inj_succ, <- Z.add_1_r in *. set (K := Z.of_nat k) in *.
    assert (0 < 2 ^ K) by (apply Z.pow_pos_nonneg; lia). rewrite pow2_succ in * by lia.
    destruct (Z.leb_spec (2 ^ K) n) as [Hle|Hlt].
    + cbn [summits]. rewrite elem_of_cons.
      assert (mmr_size (B * (2 * 2 ^ K)) + (2 * 2 ^ K - 1) = mmr_size ((2 * B + 1) * 2 ^ K)) as Eb.
      { replace ((2 * B + 1) * 2 ^ K) with (B * 2 ^ (K + 1) + 2 ^ K)
          by (rewrite pow2_succ by lia; lia).
        rewrite mmr_size_concat by (rewrite ?pow2_succ by lia; lia).
        rewrite <- (pow2_succ K) by lia. unfold mmr_size at 3.
        rewrite count_ones_pow2 by lia. rewrite pow2_succ by lia. lia. }
      rewrite Eb. rewrite IH by lia.
      replace ((2 * B + 1) * 2 ^ K + (n - 2 ^ K)) with (B * (2 * 2 ^ K) + n) by lia.
      assert (Z.testbit n K = true) as HbK.
      { rewrite Z.testbit_odd, Z.shiftr_div_pow2 by lia.
        replace (n / 2 ^ K) with 1; [done|]. apply Z.div_unique with (r := n - 2 ^ K); lia. }
      assert (mmr_size ((B * (2 * 2 ^ K) + n) / 2 ^ K * 2 ^ K) = mmr_size ((2 * B + 1) * 2 ^ K)) as EK.
      { f_equal. f_equal. symmetry. apply Z.div_unique with (r := n - 2 ^ K); lia. }
      assert (forall j, 0 <= j < K -> Z.testbit (n - 2 ^ K) j = Z.testbit n j) as Hlow.
      { intros j Hj. replace n with (n - 2 ^ K + 1 * 2 ^ K) at 2 by lia.
        rewrite <- (Z.mod_pow2_bits_low (n - 2 ^ K + 1 * 2 ^ K) K) by lia.
        rewrite Z.mod_add by lia. by rewrite Z.mod_pow2_bits_low by lia. }
      split.
      * intros [->|(j & Hj & Hb & ->)].
        -- exists K. split_and!; [lia|lia|done|done].
        -- exists j. rewrite Hlow in Hb by lia. split_and!; [lia|lia|done|done].
      * intros (j & Hj & Hb & ->). destruct (Z.eq_dec j K) as [->|]; [by left|].
        right. exists j. rewrite Hlow by lia. split_and!; [lia|lia|done|done].
    + replace (B * (2 * 2 ^ K)) with (2 * B * 2 ^ K) by lia. rewrite IH by lia.
      split; intros (j & Hj & Hb & ->); exists j; (split_and!; [lia| |done|done]); [lia|].
      destruct (Z.eq_dec j K) as [->|]; [|lia]. exfalso.
      rewrite Z.testbit_odd, Z.shiftr_div_pow2, Z.div_small in Hb by lia. done.
Qed.

Lemma mountains_pos k n s : s ∈ mountains k n -> 0 < s.
Proof.
  revert n. induction k as [|k IH]; intros n; cbn [mountains]; [by rewrite elem_of_nil|].
  assert (0 < 2 ^ Z.of_nat k) by (apply Z.pow_pos_nonneg; lia).
  destruct (2 ^ Z.of_nat k <=? n); [|apply IH]. rewrite elem_of_cons, pow2_succ by lia.
  intros [->|Hs]; [lia|by eapply IH].
Qed.

Lemma summits_sorted base l :
  (forall s, s ∈ l -> 0 < s) -> StronglySorted Z.lt (summits base l) /\
  (forall p, p ∈ summits base l -> base < p).
Proof.
  revert base. induction l as [|s l IH]; intros base Hl; cbn [summits].
  - split; [constructor|]. intros p. by rewrite elem_of_nil.
  - destruct (IH (base + s)) as [IH1 IH2]; [intros; apply Hl; by constructor|].
    assert (0 < s) by (apply Hl; by constructor). split.
    + constructor; [done|]. apply Forall_forall. intros p Hp. by apply IH2.
    + intros p. rewrite elem_of_cons. intros [->|Hp]; [lia|]. specialize (IH2 p Hp). lia.
Qed.

(** The position of a summit: a node that is a left child, or the top. *)
Lemma summit_node n j :
  0 <= n -> 0 <= j -> Z.testbit n j = true ->
  let m := n / 2 ^ j * 2 ^ j - 1 in
  is_node m j /\ pos_of m j = mmr_size (m + 1) /\ Z.testbit m j = false /\ m < n <= m + 2 ^ j.
Proof.
  intros Hn Hj Hb m. assert (0 < 2 ^ j) by (apply Z.pow_pos_nonneg; lia).
  rewrite Z.testbit_odd, Z.shiftr_div_pow2 in Hb by lia.
  apply Z.odd_spec in Hb as [a Ha]. pose proof (Z.div_mod n (2 ^ j)) as Hdm.
  pose proof (Z.mod_pos_bound n (2 ^ j)).
  assert (0 <= a) by (pose proof (Z.div_pos n (2 ^ j)); lia).
  assert (m = 2 * a * 2 ^ j + (2 ^ j - 1)) as Em by (unfold m; rewrite Ha; lia).
  split_and!; [| | |rewrite Em; lia|rewrite Em; lia].
  - rewrite Em. apply is_node_intro; lia.
  - unfold pos_of. replace (m + 1) with (2 ^ j * (2 * a + 1)) by lia.
    rewrite Em. unfold mmr_size. rewrite count_ones_concat, count_ones_ones by lia.
    replace (2 ^ j * (2 * a + 1)) with ((2 * a + 1) * 2 ^ j + 0) by lia.
    rewrite count_ones_concat by lia. rewrite count_ones_double, count_ones_double_1 by lia.
    simpl (count_ones 0). lia.
  - rewrite Em, testbit_split, Z.odd_mul by lia. done.
Qed.

(** *** The three decompositions of a size *)
Lemma peak_sizes_height_size n h :
  is_node n h -> 1 <= mmr_size n + h < 2 ^ 64 ->
  exists k : nat, peak_sizes_height (mmr_size n + h) = (mountains k n, h) /\ 0 <= n < 2 ^ Z.of_nat k /\
    (forall j, 0 <= j -> mmr_size n + h < 2 ^ j -> Z.of_nat k <= j).
Proof.
  intros Hnode Hp. pose proof Hnode as (Hn & Hh & _).
  exists (Z.to_nat (Z.log2 (mmr_size n + h) + 1)).
  pose proof (log2_bits (mmr_size n + h) ltac:(lia)) as Hb.
  pose proof (greedy_init n h Hnode ltac:(lia)) as Hg.
  unfold peak_sizes_height. destruct (Z.eqb_spec (mmr_size n + h) 0); [lia|].
  rewrite first_peak by lia. set (K := Z.log2 (mmr_size n + h) + 1) in *.
  replace K with (Z.of_nat (Z.to_nat K)) in * by lia. rewrite Nat2Z.id.
  split_and!.
  - by rewrite peak_sizes_loop by first [done|lia].
  - lia.
  - by destruct Hg as ((_ & ?) & _).
  - intros j Hj Hlt. assert (Z.log2 (mmr_size n + h) < j) by (apply Z.log2_lt_pow2; lia). lia.
Qed.

Lemma sum_mountains (k : nat) n a :
  (k <= 63)%nat -> 0 <= n < 2 ^ Z.of_nat k -> 0 <= a -> a + n < 2 ^ 64 ->
  foldl u64_add a (map (fun n => (n +! 1) / 2) (mountains k n)) = a + n.
Proof.
  revert n a. induction k as [|k IH]; intros n a Hk Hn Ha Hlt; cbn [mountains].
  - change (2 ^ Z.of_nat 0) with 1 in Hn. simpl. lia.
  - rewrite Nat2Z.inj_succ, <- Z.add_1_r in *.
    pose proof (pow2_le_u64 (Z.of_nat k) ltac:(lia)). rewrite pow2_succ in * by lia.
    assert (2 ^ Z.of_nat k <= 2 ^ 62) by (apply Z.pow_le_mono_r; lia).
    destruct (Z.leb_spec (2 ^ Z.of_nat k) n).
    + cbn [map foldl]. rewrite (u64_add_small (2 * _ - 1) 1) by (unfold is_u64; lia).
      replace ((2 * 2 ^ Z.of_nat k - 1 + 1) / 2) with (2 ^ Z.of_nat k)
        by (apply Z.div_unique with (r := 0); lia).
      rewrite u64_add_small by (unfold is_u64; lia). rewrite IH by lia. lia.
    + rewrite IH by lia. done.
Qed.

(** Leaves of the range that ends at a node: all up to the node's last leaf. *)
Lemma n_leaves_size n h :
  is_node n h -> mmr_size n + h < 2 ^ 63 ->
  n_leaves (mmr_size n + h) = if h =? 0 then n else n + 1.
Proof.
  intros Hnode Hlt. pose proof Hnode as (Hn & Hh & _). pose proof (mmr_size_ge n Hn).
  destruct (Z.eq_dec (mmr_size n + h) 0) as [E|].
  { assert (n = 0 /\ h = 0) as [-> ->] by lia. done. }
  destruct (peak_sizes_height_size n h Hnode ltac:(lia)) as (k & Hs & Hnk & Hk).
  unfold n_leaves. rewrite Hs. specialize (Hk 63 ltac:(lia) Hlt).
  rewrite sum_mountains by lia. rewrite Z.add_0_l.
  destruct (h =? 0); [done|]. unwrap64. done.
Qed.

Lemma insertion_pos n :
  0 <= n < 2 ^ 62 -> insertion_to_pmmr_index (n + 1) = pos_of n 0.
Proof.
  intros Hn. unfold insertion_to_pmmr_index. destruct (Z.eqb_spec (n + 1) 0); [lia|].
  pose proof (mmr_size_ge n). unfold pos_of, mmr_size in *. pose proof (count_ones_nonneg n).
  rewrite (u64_sub_small (n + 1) 1) by (unfold is_u64; lia). rewrite Z.add_simpl_r.
  unwrap64. lia.
Qed.

Lemma elem_of_peaks n p :
  1 <= n -> mmr_size n < 2 ^ 63 ->
  p ∈ peaks (mmr_size n) <->
  exists j, 0 <= j /\ Z.testbit n j = true /\ p = mmr_size (n / 2 ^ j * 2 ^ j).
Proof.
  intros Hn Hlt. pose proof (is_node_leaf n ltac:(lia)) as Hnode.
  pose proof (mmr_size_ge n ltac:(lia)).
  pose proof (log2_bits (mmr_size n) ltac:(lia)) as Hb.
  pose proof (greedy_init n 0 Hnode ltac:(lia)) as Hg. rewrite Z.add_0_r in Hg.
  unfold peaks. destruct (Z.eqb_spec (mmr_size n) 0); [lia|].
  rewrite first_peak by lia. set (K := Z.log2 (mmr_size n) + 1) in *.
  replace K with (Z.of_nat (Z.to_nat K)) in * by lia.
  replace (mmr_size n) with (mmr_size n + 0) by lia.
  rewrite peaks_loop by first [done|lia]. cbn [app Z.gtb Z.compare].
  pose proof Hg as (Hnk & _).
  pose proof (elem_of_summits (Z.to_nat K) 0 n p ltac:(lia) Hnk) as He.
  rewrite Z.mul_0_l, mmr_size_0, Z.add_0_l in He. rewrite He.
  split; intros (j & Hj & Hbit & ->); exists j; [split_and!; [lia|done|done]|].
  split_and!; [lia| |done|done]. destruct (Z.lt_ge_cases j (Z.of_nat (Z.to_nat K))); [done|].
  exfalso. assert (n < 2 ^ j) by (pose proof (Z.pow_le_mono_r 2 (Z.of_nat (Z.to_nat K)) j); lia).
  rewrite Z.testbit_odd, Z.shiftr_div_pow2, Z.div_small in Hbit by lia. done.
Qed.

(** *** Walking up the tree *)

(** The positions of a node and of its ancestors, as long as they are within [last]. *)
Fixpoint ancestors (fuel : nat) (n h last : Z) : list Z :=
  match fuel with
  | O => []
  | S fuel =>
      if pos_of n h <=? last then pos_of n h :: ancestors fuel (parent_leaf n h) (h + 1) last
      else []
  end.

(** Bits of [m] and [n] agree from [h] up: both lie below the same node of height [h]. *)
Definition same_path (m n h : Z) : Prop := forall j, h <= j -> Z.testbit m j = Z.testbit n j.

Lemma same_path_parent m n h :
  is_node n h -> same_path m n h -> same_path m (parent_leaf n h) (h + 1).
Proof.
  intros Hnode Hs j Hj. rewrite Hs by lia. pose proof Hnode as (Hn & Hh & _).
  unfold parent_leaf. destruct (Z.testbit n h) eqn:Hb; [done|].
  assert (Z.land n (2 ^ h) = 0) as Hl.
  { pose proof (land_pow2 n h Hh) as E. rewrite Hb in E.
    destruct (Z.eqb_spec (Z.land n (2 ^ h)) 0); done. }
  rewrite Z.add_nocarry_lxor by done. rewrite Z.lxor_spec, Z.pow2_bits_false by lia.
  by rewrite xorb_false_r.
Qed.

Lemma ancestors_fuel fuel fuel' n h last :
  is_node n h -> last < 2 ^ 63 -> 63 <= h + Z.of_nat fuel -> 63 <= h + Z.of_nat fuel' ->
  ancestors fuel n h last = ancestors fuel' n h last.
Proof.
  revert fuel' n h. induction fuel as [|fuel IH]; intros fuel' n h Hnode Hl Hf Hf'.
  - destruct fuel' as [|fuel']; [done|]. cbn [ancestors].
    destruct (Z.leb_spec (pos_of n h) last) as [Hle|]; [|done]. exfalso.
    pose proof (walk_room n h Hnode ltac:(lia)). lia.
  - destruct fuel' as [|fuel'].
    + cbn [ancestors]. destruct (Z.leb_spec (pos_of n h) last) as [Hle|]; [|done]. exfalso.
      pose proof (walk_room n h Hnode ltac:(lia)). lia.
    + cbn [ancestors]. destruct (pos_of n h <=? last); [|done]. f_equal.
      apply IH; [by apply parent_node|done|lia|lia].
Qed.

Lemma step_up n h :
  is_node n h -> pos_of n h < 2 ^ 63 ->
  pos_of n h +! (if Z.testbit n h then 1 else 2 *! 2 ^ h) = pos_of (parent_leaf n h) (h + 1).
Proof.
  intros Hnode Hlt. pose proof (walk_room n h Hnode Hlt) as (Hh & Hr & E2).
  pose proof (pos_of_pos n h Hnode). pose proof (family_positions n h Hnode) as Hf.
  destruct (Z.testbit n h); destruct Hf as [-> _]; unwrap64; lia.
Qed.

Lemma path_loop fuel m n h last acc :
  is_node n h -> same_path m n h -> h <= 63 -> last < 2 ^ 63 ->
  snd (while fuel (fun '(current, _, _) => current <=? last) (path_body m)
    (pos_of n h, 2 ^ h, acc)) = acc ++ ancestors fuel n h last.
Proof.
  revert n h acc. induction fuel as [|fuel IH]; intros n h acc Hnode Hs Hh Hl; cbn [while ancestors].
  - by rewrite app_nil_r.
  - destruct (Z.leb_spec (pos_of n h) last) as [Hle|]; [|by rewrite app_nil_r].
    pose proof (walk_room n h Hnode ltac:(lia)) as (Hh' & Hr & E2).
    unfold path_body at 2. rewrite land_pow2, (Hs h) by lia.
    rewrite step_up by (done || lia).
    rewrite u64_shl_small by (unfold is_u64; change (2 ^ 1) with 2; lia).
    change (2 ^ 1) with 2. rewrite Z.mul_comm, <- E2.
    rewrite IH; [by rewrite <- app_assoc|by apply parent_node|by apply same_path_parent|lia|done].
Qed.

Lemma path_node n h last :
  is_node n h -> pos_of n h < 2 ^ 63 -> last < 2 ^ 63 ->
  path (pos_of n h) last = ancestors 64 n h last.
Proof.
  intros Hnode Hlt Hl. pose proof (walk_room n h Hnode Hlt) as (Hh & Hr & E2).
  unfold path. rewrite peak_map_height_pos by (done || lia).
  rewrite u64_shl_small by (unfold is_u64; lia). rewrite Z.mul_1_l.
  pose proof (path_loop 64 n n h last [] Hnode ltac:(by intros ?) ltac:(lia) Hl) as Hp.
  by destruct (while _ _ _ _) as [[? ?] ?].
Qed.

(** The branch of a node: [family] of the node and of each ancestor below the top. *)
Fixpoint branch (fuel : nat) (n h last : Z) : list (Z * Z) :=
  match fuel with
  | O => []
  | S fuel =>
      let parent := pos_of (parent_leaf n h) (h + 1) in
      if parent <=? last then
        (parent, pos_of (sibling_leaf n h) h) :: branch fuel (parent_leaf n h) (h + 1) last
      else []
  end.

Lemma pos_of_parent_lt n h :
  is_node n h -> pos_of n h < pos_of (parent_leaf n h) (h + 1).
Proof.
  intros Hnode. pose proof (family_positions n h Hnode) as Hf.
  pose proof Hnode as (_ & Hh & _). assert (0 < 2 ^ (h + 1)) by (apply Z.pow_pos_nonneg; lia).
  destruct (Z.testbit n h); lia.
Qed.

Lemma branch_fuel fuel fuel' n h last :
  is_node n h -> last < 2 ^ 63 -> 62 <= h + Z.of_nat fuel -> 62 <= h + Z.of_nat fuel' ->
  branch fuel n h last = branch fuel' n h last.
Proof.
  revert fuel' n h. induction fuel as [|fuel IH]; intros fuel' n h Hnode Hl Hf Hf';
    (destruct fuel' as [|fuel']; [try done|]); cbn [branch];
    destruct (Z.leb_spec (pos_of (parent_leaf n h) (h + 1)) last) as [Hle|]; try done.
  1,2: exfalso; pose proof (walk_room _ _ (parent_node n h Hnode) ltac:(lia)); lia.
  f_equal. apply IH; [by apply parent_node|done|lia|lia].
Qed.

Lemma family_branch_loop_node fuel m n h last :
  is_node n h -> same_path m n h -> h <= 63 -> last < 2 ^ 63 ->
  family_branch_loop fuel m last (pos_of n h) (2 ^ h) = branch fuel n h last.
Proof.
  revert n h. induction fuel as [|fuel IH]; intros n h Hnode Hs Hh Hl; [done|].
  cbn [family_branch_loop branch]. pose proof (pos_of_parent_lt n h Hnode).
  destruct (Z.ltb_spec (pos_of n h) last) as [Hlt|Hge].
  2: { by destruct (Z.leb_spec (pos_of (parent_leaf n h) (h + 1)) last); [lia|]. }
  pose proof (walk_room n h Hnode ltac:(lia)) as (Hh' & Hr & E2).
  pose proof (pos_of_pos n h Hnode).
  rewrite land_pow2, (Hs h) by lia. pose proof (family_positions n h Hnode) as Hf.
  pose proof (pos_of_pos _ _ (sibling_node n h Hnode)).
  pose proof (step_up n h Hnode ltac:(lia)) as Hup.
  assert (2 ^ h <<! 1 = 2 ^ (h + 1)) as Es.
  { rewrite u64_shl_small by (unfold is_u64; change (2 ^ 1) with 2; lia).
    change (2 ^ 1) with 2. lia. }
  rewrite Es.
  destruct (Z.testbit n h); destruct Hf as [Ep Esib]; rewrite Hup;
    rewrite Z.gtb_ltb, Z.ltb_antisym;
    (destruct (pos_of (parent_leaf n h) (h + 1) <=? last); [|done]); cbn [negb];
    rewrite IH by (first [by apply parent_node|by apply same_path_parent|done|lia]);
    f_equal; f_equal; unwrap64; lia.
Qed.

Lemma family_branch_node n h last :
  is_node n h -> pos_of n h < 2 ^ 63 -> last < 2 ^ 63 ->
  family_branch (pos_of n h) last = branch 64 n h last.
Proof.
  intros Hnode Hlt Hl. pose proof (walk_room n h Hnode Hlt) as (Hh & Hr & E2).
  unfold family_branch. rewrite peak_map_height_pos by (done || lia).
  rewrite u64_shl_small by (unfold is_u64; lia). rewrite Z.mul_1_l.
  by apply family_branch_loop_node; [done|intros ?|lia|done].
Qed.

End Spec.

(** ** The properties of the position functions *)
Module Theorems.
Import Pos Node Greedy Spec.

Lemma parent_room n h :
  is_node n h -> pos_of n h < 2 ^ 62 -> pos_of (parent_leaf n h) (h + 1) < 2 ^ 63.
Proof.
  intros Hnode Hlt. pose proof (walk_room n h Hnode ltac:(lia)) as (Hh & Hr & E2).
  pose proof (family_positions n h Hnode) as Hf. destruct (Z.testbit n h); lia.
Qed.

Lemma is_left_sibling_node n h :
  is_node n h -> pos_of n h < 2 ^ 63 -> is_left_sibling (pos_of n h) = negb (Z.testbit n h).
Proof.
  intros Hnode Hlt. pose proof (walk_room n h Hnode Hlt) as (Hh & Hr & E2).
  unfold is_left_sibling. rewrite peak_map_height_pos by (done || lia).
  rewrite u64_shl_small by (unfold is_u64; lia). rewrite Z.mul_1_l, <- land_pow2 by lia.
  by rewrite negb_involutive.
Qed.

Lemma sibling_bit n h : is_node n h -> Z.testbit (sibling_leaf n h) h = negb (Z.testbit n h).
Proof.
  intros Hnode. pose proof Hnode as (_ & Hh & _). unfold sibling_leaf.
  destruct (is_node_split n h Hnode) as (q & Hq & ->). rewrite !testbit_split by done.
  destruct (Z.odd q) eqn:Hodd.
  - replace (q * 2 ^ h + (2 ^ h - 1) - 2 ^ h) with ((q - 1) * 2 ^ h + (2 ^ h - 1)) by lia.
    by rewrite testbit_split, Z.odd_sub, Hodd by done.
  - replace (q * 2 ^ h + (2 ^ h - 1) + 2 ^ h) with ((q + 1) * 2 ^ h + (2 ^ h - 1)) by lia.
    by rewrite testbit_split, Z.odd_add, Hodd by done.
Qed.

Lemma sibling_sibling n h : is_node n h -> sibling_leaf (sibling_leaf n h) h = n.
Proof.
  intros Hnode. pose proof (sibling_bit n h Hnode) as Hb.
  unfold sibling_leaf at 1. rewrite Hb. unfold sibling_leaf. destruct (Z.testbit n h); simpl; lia.
Qed.

Lemma sibling_parent n h : is_node n h -> parent_leaf (sibling_leaf n h) h = parent_leaf n h.
Proof.
  intros Hnode. pose proof (sibling_bit n h Hnode) as Hb.
  unfold parent_leaf at 1. rewrite Hb. unfold parent_leaf, sibling_leaf.
  destruct (Z.testbit n h); simpl; lia.
Qed.

Lemma n_leaves_leaf n : 0 <= n < 2 ^ 61 -> n_leaves (pos_of n 0) = n + 1.
Proof.
  intros Hn. pose proof (mmr_size_ge n ltac:(lia)). unfold pos_of.
  destruct (Z.Even_or_Odd n) as [[q ->]|[q ->]].
  - replace (mmr_size (2 * q) + 0 + 1) with (mmr_size (2 * q + 1) + 0).
    + rewrite n_leaves_size; [done|apply is_node_leaf; lia|].
      pose proof (mmr_size_ge (2 * q + 1) ltac:(lia)). lia.
    + unfold mmr_size. rewrite count_ones_double, count_ones_double_1 by lia. lia.
  - replace (mmr_size (2 * q + 1) + 0 + 1) with (mmr_size (2 * q + 1) + 1) by lia.
    rewrite n_leaves_size; [done| |lia].
    replace (2 * q + 1) with (q * 2 ^ 1 + (2 ^ 1 - 1)) by lia. apply is_node_intro; lia.
Qed.

(** A node in range whose parent is out of range is a summit. *)
Lemma peak_is_summit n m j :
  is_node m j -> 0 <= n -> pos_of m j <= mmr_size n ->
  mmr_size n < pos_of (parent_leaf m j) (j + 1) ->
  exists i, 0 <= i /\ Z.testbit n i = true /\ pos_of m j = mmr_size (n / 2 ^ i * 2 ^ i).
Proof.
  intros Hm Hn Hin Hpar. pose proof Hm as (Hm0 & Hj & _).
  apply pos_of_in_range in Hin; [|done..].
  assert (n <= parent_leaf m j) as Hout.
  { destruct (Z.lt_ge_cases (parent_leaf m j) n) as [Hlt|]; [|done].
    apply (pos_of_in_range _ (j + 1)) in Hlt; [lia|by apply parent_node|done]. }
  assert (Z.testbit m j = false) as Hb.
  { unfold parent_leaf in Hout. destruct (Z.testbit m j); [lia|done]. }
  unfold parent_leaf in Hout. rewrite Hb in Hout. exists j.
  assert (0 < 2 ^ j) by (apply Z.pow_pos_nonneg; lia).
  destruct (is_node_split m j Hm) as (q & Hq & Em).
  assert (n / 2 ^ j = q + 1) as Eq.
  { symmetry. apply Z.div_unique with (r := n - (q + 1) * 2 ^ j); lia. }
  assert (Z.testbit n j = true) as Hnb.
  { rewrite Em, testbit_split in Hb by done.
    rewrite Z.testbit_odd, Z.shiftr_div_pow2, Eq by done. by rewrite Z.odd_add, Hb. }
  destruct (summit_node n j Hn Hj Hnb) as (_ & Hp & _).
  split_and!; [done|done|]. replace (n / 2 ^ j * 2 ^ j - 1 + 1) with (n / 2 ^ j * 2 ^ j) in Hp by lia.
  rewrite <- Hp, Eq. f_equal. lia.
Qed.

(** The peaks are the nodes in range without a parent in range. *)
Lemma elem_of_peaks_family n p :
  1 <= n -> mmr_size n < 2 ^ 62 ->
  p ∈ peaks (mmr_size n) <-> 1 <= p <= mmr_size n /\ mmr_size n < (family p).1.
Proof.
  intros Hn1 Hlt. assert (0 <= n) as Hn by lia. rewrite elem_of_peaks by lia. split.
  - intros (j & Hj & Hbit & ->).
    destruct (summit_node n j Hn Hj Hbit) as (Hm & Hp & Hmb & Hmn).
    set (m := n / 2 ^ j * 2 ^ j - 1) in *.
    replace (n / 2 ^ j * 2 ^ j) with (m + 1) by lia. rewrite <- Hp.
    pose proof (pos_of_pos m j Hm). pose proof (proj2 (pos_of_in_range m j n Hm Hn)).
    rewrite family_node by (done || lia). cbn [fst]. split; [lia|].
    pose proof (pos_of_in_range _ _ n (parent_node m j Hm) Hn) as Hr.
    unfold parent_leaf in *. rewrite Hmb in *. lia.
  - intros [Hp Hpar]. destruct (pos_of_surj p ltac:(lia)) as (m & j & Hm & ->).
    rewrite family_node in Hpar by (done || lia). cbn [fst] in Hpar.
    apply (peak_is_summit n m j); [done|done|lia|lia].
Qed.

Lemma peaks_summits n h :
  is_node n h -> 1 <= mmr_size n + h < 2 ^ 63 ->
  exists k : nat, peaks (mmr_size n + h) = if h >? 0 then [] else summits 0 (mountains k n).
Proof.
  intros Hnode Hlt. pose proof (log2_bits (mmr_size n + h) ltac:(lia)) as Hb.
  pose proof (greedy_init n h Hnode ltac:(lia)) as Hg.
  exists (Z.to_nat (Z.log2 (mmr_size n + h) + 1)).
  unfold peaks. destruct (Z.eqb_spec (mmr_size n + h) 0); [lia|].
  rewrite first_peak by lia. set (K := Z.log2 (mmr_size n + h) + 1) in *.
  replace K with (Z.of_nat (Z.to_nat K)) in * by lia. rewrite Nat2Z.id.
  by rewrite peaks_loop by first [done|lia].
Qed.

(** *** Children, and the top of a leaf *)
Lemma is_node_children n h :
  is_node n (h + 1) -> 0 <= h -> is_node n h /\ is_node (n - 2 ^ h) h /\ Z.testbit n h = true.
Proof.
  intros Hnode Hh. destruct (is_node_split n (h + 1) Hnode) as (q & Hq & ->).
  assert (0 < 2 ^ h) by (apply Z.pow_pos_nonneg; lia). rewrite pow2_succ by done.
  split_and!.
  - replace (q * (2 * 2 ^ h) + (2 * 2 ^ h - 1)) with ((2 * q + 1) * 2 ^ h + (2 ^ h - 1)) by lia.
    apply is_node_intro; lia.
  - replace (q * (2 * 2 ^ h) + (2 * 2 ^ h - 1) - 2 ^ h) with (2 * q * 2 ^ h + (2 ^ h - 1)) by lia.
    apply is_node_intro; lia.
  - replace (q * (2 * 2 ^ h) + (2 * 2 ^ h - 1)) with ((2 * q + 1) * 2 ^ h + (2 ^ h - 1)) by lia.
    rewrite testbit_split by done. by rewrite Z.add_comm, Z.odd_add_mul_2.
Qed.

Lemma is_node_up n h : is_node n h -> Z.testbit n h = true -> is_node n (h + 1).
Proof.
  intros Hnode Hb. pose proof (parent_node n h Hnode) as Hp. unfold parent_leaf in Hp.
  by rewrite Hb in Hp.
Qed.

Lemma left_child_bit n h : is_node n (h + 1) -> 0 <= h -> Z.testbit (n - 2 ^ h) h = false.
Proof.
  intros Hnode Hh. destruct (is_node_children n h Hnode Hh) as (Hn & _ & Hb).
  pose proof (sibling_bit n h Hn) as Hs. unfold sibling_leaf in Hs. by rewrite Hb in Hs.
Qed.

(** The last node pushed with a leaf closes the range. *)
Lemma top_closes n h : is_node n h -> Z.testbit n h = false -> pos_of n h = mmr_size (n + 1).
Proof.
  intros Hnode Hb. pose proof Hnode as (Hn & Hh & _).
  pose proof (pos_of_in_range n h (n + 1) Hnode ltac:(lia)) as [_ Hle].
  specialize (Hle ltac:(lia)). unfold pos_of in *.
  destruct (is_node_split n h Hnode) as (q & Hq & Em).
  assert (0 < 2 ^ h) by (apply Z.pow_pos_nonneg; lia).
  rewrite Em, testbit_split in Hb by done. apply negb_true_iff in Hb.
  rewrite Z.negb_odd, Z.even_spec in Hb. destruct Hb as [a ->].
  replace (n + 1) with ((2 * a + 1) * 2 ^ h + 0) by lia. rewrite Em. unfold mmr_size.
  rewrite !count_ones_concat, count_ones_ones by lia.
  rewrite count_ones_double, count_ones_double_1 by lia. simpl (count_ones 0). lia.
Qed.

Lemma pos_of_le n h : is_node n h -> pos_of n h <= 2 * (n + 1).
Proof.
  intros Hnode. pose proof Hnode as (Hn & _).
  pose proof (proj2 (pos_of_in_range n h (n + 1) Hnode ltac:(lia)) ltac:(lia)).
  pose proof (mmr_size_ge (n + 1) ltac:(lia)). lia.
Qed.

(** [peak_map_height] computes the coordinates of a node: every 0-based
    [u64] position is the position of exactly the node [(n, h)] it returns,
    where [n] is the number of leaves before it and [h] its height. *)
Theorem peak_map_height_correct pos :
  0 <= pos < 2 ^ 64 ->
  exists n h, is_node n h /\ pos = mmr_size n + h /\ peak_map_height pos = (n, h).
Proof.
  intros Hpos. destruct (pos_of_surj (pos + 1) ltac:(lia)) as (n & h & Hnode & E).
  unfold pos_of in E. exists n, h. split_and!; [done|lia|].
  replace pos with (mmr_size n + h) by lia. apply peak_map_height_node; [done|lia].
Qed.

Lemma peak_map_height_correct_witness :
  exists n h, is_node n h /\ 10 = mmr_size n + h /\ peak_map_height 10 = (n, h).
Proof. apply (peak_map_height_correct 10). lia. Defined.

(** [family] and [is_left_sibling] implement the parent and sibling
    relation of the binary tree over the leaves: the parent of [(n, h)] has
    height [h + 1] and the leaf range of both children, and bit [h] of the
    peak map tells the two children apart. *)
Theorem family_correct n h :
  is_node n h -> pos_of n h < 2 ^ 63 ->
  is_node (parent_leaf n h) (h + 1) /\ is_node (sibling_leaf n h) h /\
  family (pos_of n h) = (pos_of (parent_leaf n h) (h + 1), pos_of (sibling_leaf n h) h) /\
  is_left_sibling (pos_of n h) = negb (Z.testbit n h).
Proof.
  intros Hnode Hlt. split_and!;
    [by apply parent_node|by apply sibling_node|by apply family_node|by apply is_left_sibling_node].
Qed.

Lemma family_correct_witness :
  family (pos_of 1 1) = (pos_of (parent_leaf 1 1) (1 + 1), pos_of (sibling_leaf 1 1) 1).
Proof.
  apply (family_correct 1 1); [|done]. split_and!; done.
Defined.

(** Siblings are each other's siblings, share their parent and their
    height, exactly one of them is the left one, and the right one
    immediately precedes the parent in postorder. *)
Theorem family_symmetric pos :
  1 <= pos < 2 ^ 61 ->
  let '(parent, sibling) := family pos in
  family sibling = (parent, pos) /\
  bintree_postorder_height sibling = bintree_postorder_height pos /\
  bintree_postorder_height parent = bintree_postorder_height pos + 1 /\
  is_left_sibling sibling = negb (is_left_sibling pos) /\
  parent - 1 = (if is_left_sibling pos then sibling else pos).
Proof.
  intros Hpos. destruct (pos_of_surj pos ltac:(lia)) as (n & h & Hnode & ->).
  pose proof (parent_room n h Hnode ltac:(lia)) as Hp.
  rewrite family_node by (done || lia).
  pose proof (sibling_node n h Hnode) as Hsn. pose proof (parent_node n h Hnode) as Hpn.
  pose proof (family_positions n h Hnode) as Hf.
  assert (pos_of (sibling_leaf n h) h < pos_of (parent_leaf n h) (h + 1)) as Hlt.
  { rewrite <- sibling_parent by done. by apply pos_of_parent_lt. }
  rewrite (family_node (sibling_leaf n h)) by (done || lia).
  rewrite sibling_parent, sibling_sibling by done.
  rewrite !height_pos by (done || lia). rewrite !is_left_sibling_node by (done || lia).
  rewrite sibling_bit by done. split_and!; try done.
  destruct (Z.testbit n h); cbn [negb]; lia.
Qed.

Lemma family_symmetric_witness :
  family 6 = (7, 3) /\ family 3 = (7, 6).
Proof.
  pose proof (family_symmetric 6 ltac:(lia)) as H. split; [reflexivity|].
  change (family 6) with (7, 3) in H. exact (proj1 H).
Defined.

(** Insertion numbers and leaf positions are in bijection:
    [insertion_to_pmmr_index] gives the position of the [i]-th leaf,
    [n_leaves] at a leaf position gives its insertion number back. *)
Theorem insertion_index_roundtrip :
  (forall i, 1 <= i < 2 ^ 61 ->
     is_leaf (insertion_to_pmmr_index i) = true /\ n_leaves (insertion_to_pmmr_index i) = i) /\
  (forall pos, 1 <= pos < 2 ^ 61 ->
     is_leaf pos = true -> insertion_to_pmmr_index (n_leaves pos) = pos).
Proof.
  split.
  - intros i Hi. replace i with ((i - 1) + 1) by lia.
    rewrite insertion_pos by lia. rewrite n_leaves_leaf by lia.
    pose proof (mmr_size_ge (i - 1) ltac:(lia)). unfold is_leaf.
    rewrite height_pos; [done|apply is_node_leaf; lia|unfold pos_of; lia].
  - intros pos Hpos Hleaf. destruct (pos_of_surj pos ltac:(lia)) as (n & h & Hnode & ->).
    unfold is_leaf in Hleaf. rewrite height_pos in Hleaf by (done || lia).
    apply Z.eqb_eq in Hleaf as ->. pose proof Hnode as (Hn & _).
    pose proof (mmr_size_ge n Hn). unfold pos_of in Hpos.
    rewrite n_leaves_leaf, insertion_pos by lia. done.
Qed.

(** [peaks] of a valid size lists, in increasing order, exactly the
    positions of the range whose parent lies beyond it, and ends with the
    size itself; a size that cuts a mountain has no peaks. *)
Theorem peaks_correct size :
  1 <= size < 2 ^ 62 ->
  if is_leaf (size + 1) then
    StronglySorted Z.lt (peaks size) /\ last (peaks size) = Some size /\
    (forall p, p ∈ peaks size <-> 1 <= p <= size /\ size < (family p).1)
  else peaks size = [].
Proof.
  intros Hsize. destruct (pos_of_surj (size + 1) ltac:(lia)) as (n & h & Hnode & E).
  unfold is_leaf. rewrite E, height_pos by (done || lia). unfold pos_of in E.
  assert (size = mmr_size n + h) as -> by lia. pose proof Hnode as (Hn & Hh & _).
  destruct (peaks_summits n h Hnode ltac:(lia)) as [k Hk].
  destruct (Z.eqb_spec h 0) as [->|Hne].
  2: { rewrite Hk. destruct (Z.gtb_spec h 0); [done|lia]. }
  rewrite Z.add_0_r in *. cbn [Z.gtb Z.compare] in Hk.
  assert (StronglySorted Z.lt (peaks (mmr_size n))) as Hsorted.
  { rewrite Hk. apply summits_sorted. intros s. apply mountains_pos. }
  assert (1 <= n) by (pose proof (mmr_size_ge n Hn); lia).
  pose proof (elem_of_peaks_family n) as Hin.
  split_and!; [done| |intros p; apply Hin; lia].
  apply last_of_sorted; [done| |].
  - apply Hin; [lia..|]. split; [lia|].
    destruct (pos_of_surj (mmr_size n) ltac:(lia)) as (m & j & Hm & Em).
    rewrite Em, family_node by (done || lia). by apply pos_of_parent_lt.
  - intros p Hp. apply Hin in Hp; lia.
Qed.

Lemma peaks_correct_witness :
  last (peaks 11) = Some 11 /\ peaks 6 = [].
Proof.
  pose proof (peaks_correct 11 ltac:(lia)) as H1.
  pose proof (peaks_correct 6 ltac:(lia)) as H2.
  assert (is_leaf (11 + 1) = true) as E1 by reflexivity.
  assert (is_leaf (6 + 1) = false) as E2 by reflexivity.
  rewrite E1 in H1. rewrite E2 in H2. split; [apply H1|exact H2].
Defined.

(** [path] and [family_branch], which climb with one precomputed peak map,
    agree with applying [family] over and over: [path] lists a position and
    its ancestors up to [last_pos], [family_branch] the parent and sibling at
    every level whose parent is within [last_pos]. *)
Theorem path_follows_family pos last_pos :
  1 <= pos < 2 ^ 62 -> last_pos < 2 ^ 62 ->
  path pos last_pos =
    (if pos <=? last_pos then pos :: path (family pos).1 last_pos else []) /\
  family_branch pos last_pos =
    (if (family pos).1 <=? last_pos then family pos :: family_branch (family pos).1 last_pos
     else []).
Proof.
  intros Hpos Hl. destruct (pos_of_surj pos ltac:(lia)) as (n & h & Hnode & ->).
  pose proof (parent_room n h Hnode ltac:(lia)). pose proof (parent_node n h Hnode).
  pose proof Hnode as (_ & Hh & _).
  rewrite family_node by (done || lia). cbn [fst].
  rewrite !path_node, !family_branch_node by (done || lia). split.
  - rewrite (ancestors_fuel 64 63 (parent_leaf n h)) by (done || lia). reflexivity.
  - rewrite (branch_fuel 64 63 (parent_leaf n h)) by (done || lia). reflexivity.
Qed.

Lemma path_follows_family_witness :
  path 1 7 = 1 :: path 3 7 /\ family_branch 1 7 = (3, 2) :: family_branch 3 7.
Proof.
  destruct (path_follows_family 1 7 ltac:(lia) ltac:(lia)) as [H1 H2].
  split; [exact H1|exact H2].
Defined.

(** [bintree_leftmost] and [bintree_rightmost] delimit the subtree of a
    position: both are leaves, and the positions from the leftmost leaf to
    the position itself are exactly as many as a perfect tree of its height
    has nodes, of which the leaves are numbered consecutively. *)
Theorem bintree_bounds_correct pos :
  1 <= pos < 2 ^ 61 ->
  let h := bintree_postorder_height pos in
  is_leaf (bintree_leftmost pos) = true /\ is_leaf (bintree_rightmost pos) = true /\
  pos - bintree_leftmost pos + 1 = 2 ^ (h + 1) - 1 /\
  n_leaves (bintree_rightmost pos) - n_leaves (bintree_leftmost pos) + 1 = 2 ^ h.
Proof.
  intros Hpos. destruct (pos_of_surj pos ltac:(lia)) as (n & h & Hnode & ->).
  rewrite height_pos by (done || lia). pose proof Hnode as (Hn & Hh & _).
  pose proof (walk_room n h Hnode ltac:(lia)) as (Hh' & Hr & E2).
  pose proof (mmr_size_ge n Hn).
  destruct (is_node_split n h Hnode) as (q & Hq & En).
  assert (bintree_rightmost (pos_of n h) = pos_of n 0) as ->.
  { unfold bintree_rightmost. rewrite height_pos by (done || lia). unfold pos_of in *.
    unwrap64. lia. }
  assert (pos_of (n - 2 ^ h + 1) 0 = pos_of n h - 2 ^ (h + 1) + 2) as Eleft.
  { unfold pos_of. rewrite En. replace (q * 2 ^ h + (2 ^ h - 1) - 2 ^ h + 1) with (q * 2 ^ h) by lia.
    rewrite mmr_size_concat by lia. unfold mmr_size at 3. rewrite count_ones_ones by lia. lia. }
  assert (bintree_leftmost (pos_of n h) = pos_of (n - 2 ^ h + 1) 0) as ->.
  { unfold bintree_leftmost. rewrite height_pos by (done || lia).
    assert (2 <<! h = 2 ^ (h + 1)) as ->
      by (rewrite u64_shl_small by (unfold is_u64; lia); lia).
    unwrap64. lia. }
  assert (0 <= n - 2 ^ h + 1) by (rewrite En; nia).
  unfold pos_of in Hpos. unfold is_leaf.
  rewrite !height_pos by (first [apply is_node_leaf; lia|unfold pos_of in *; lia]).
  rewrite !n_leaves_leaf by lia. split_and!; [done|done|lia|lia].
Qed.

Lemma bintree_bounds_correct_witness :
  7 - bintree_leftmost 7 + 1 = 2 ^ (bintree_postorder_height 7 + 1) - 1.
Proof. apply (bintree_bounds_correct 7). lia. Defined.

End Theorems.
