(* ===== verification/Ser.v ===== *)
(** * Binary serialization and hashes

    [core/src/ser.rs] (the two readers, the writer, [read_multi], the element
    instances, the sortedness check) and [core/src/core/hash.rs].  A byte is a
    [Z]; a [[u8; n]] array is [array n]. *)
From S2P Require Import Prelude.

(** ** Bytes and arrays *)
Definition is_byte (b : Z) : Prop := 0 <= b < 256.
#[export] Instance is_byte_dec b : Decision (is_byte b).
Proof. unfold is_byte. apply _. Defined.

Definition array_ok (n : nat) (l : list Z) : Prop := length l = n /\ Forall is_byte l.
#[export] Instance array_ok_dec n l : Decision (array_ok n l).
Proof. unfold array_ok. apply _. Defined.

Record array (n : nat) := mkArray { bytes : list Z; bytes_ok : bool_decide (array_ok n bytes) }.
Arguments mkArray {n} _ _.
Arguments bytes {n} _.
Arguments bytes_ok {n} _.

Lemma array_eq {n} (a b : array n) : bytes a = bytes b -> a = b.
Proof.
  destruct a as [l Hl], b as [k Hk]. cbn [bytes]. intros ->. f_equal. apply proof_irrel.
Qed.

#[export] Instance array_eq_dec n : EqDecision (array n).
Proof.
  intros a b. destruct (decide (bytes a = bytes b)) as [E|E].
  - left. by apply array_eq.
  - right. congruence.
Defined.

(** Copy a slice into a zeroed array, cutting or completing it ([Hash::from_vec]). *)
Definition fit (n : nat) (v : list Z) : list Z :=
  map (fun b => b mod 256) (take n v) ++ replicate (n - length v) 0.

Lemma fit_ok n v : array_ok n (fit n v).
Proof.
  unfold fit. split.
  - rewrite length_app, length_map, length_take, length_replicate. lia.
  - apply Forall_app. split.
    + apply Forall_map, Forall_forall. intros b _. unfold is_byte. apply Z.mod_pos_bound. lia.
    + apply Forall_replicate. unfold is_byte. lia.
Qed.

Definition from_vec {n} (v : list Z) : array n :=
  mkArray (fit n v) (bool_decide_pack _ (fit_ok n v)).

Lemma fit_array n l : array_ok n l -> fit n l = l.
Proof.
  intros [<- Hb]. unfold fit. rewrite firstn_all, Nat.sub_diag, app_nil_r.
  induction Hb as [|b l Hb _ IH]; simpl; [done|].
  rewrite IH. f_equal. unfold is_byte in Hb. apply Z.mod_small. lia.
Qed.

Lemma array_bytes_ok {n} (a : array n) : array_ok n (bytes a).
Proof. apply (bool_decide_unpack _ (bytes_ok a)). Qed.

Lemma from_vec_bytes {n} (a : array n) : from_vec (bytes a) = a.
Proof. apply array_eq. cbn [bytes from_vec]. apply fit_array, array_bytes_ok. Qed.

(** Big-endian integers of [w] bytes. *)
Fixpoint be_bytes (w : nat) (x : Z) : list Z :=
  match w with
  | O => []
  | S w => (x / 2 ^ (8 * Z.of_nat w)) mod 256 :: be_bytes w x
  end.

Definition be_value (bs : list Z) : Z := foldl (fun acc b => acc * 256 + b) 0 bs.

(** ** Errors, modes and readers *)
Inductive ser_error : Type :=
| UnexpectedEof
| UnexpectedData (expected received : list Z)
| CorruptedData
| CountError
| TooLargeReadErr
| SortError
| DuplicateError
| InvalidBlockVersion.

Inductive SerializationMode : Type := Full | HashMode.

(** A reader: which implementation, the bytes left, the count of bytes read. *)
Inductive reader_kind : Type := BinReader | StreamingReader.
Record reader := mkReader { kind : reader_kind; source : list Z; total_bytes_read : Z }.

Definition read (A : Type) : Type := reader -> outcome ser_error (A * reader).

Definition ret {A} (a : A) : read A := fun r => Ok (a, r).
Definition rbind {A B} (m : read A) (f : A -> read B) : read B :=
  fun r => let? '(a, r) := m r in f a r.
Definition fail {A} (e : ser_error) : read A := fun _ => Err e.
Notation "x <- m ;; k" := (rbind m (fun x => k))
  (at level 100, m at next level, right associativity) : rust_scope.

(** [read_exact]: all the bytes asked for, or an error. *)
Definition take_bytes (len : nat) : read (list Z) := fun r =>
  if (length (source r) <? len)%nat then Err UnexpectedEof
  else Ok (take len (source r),
           mkReader (kind r) (drop len (source r)) (total_bytes_read r)).

(** [read_fixed_bytes] of the two readers: the in-memory one refuses more than
    100,000 bytes at once, the streaming one counts what it reads. *)
Definition read_fixed_bytes (len : nat) : read (list Z) := fun r =>
  match kind r with
  | BinReader => if (100000 <? Z.of_nat len) then Err TooLargeReadErr else take_bytes len r
  | StreamingReader =>
      let? '(buf, r) := take_bytes len r in
      Ok (buf, mkReader (kind r) (source r) (total_bytes_read r +! Z.of_nat len))
  end.

(** The fixed-width reads; the in-memory reader's own integer reads have no limit. *)
Definition read_uint (w : nat) : read Z := fun r =>
  match kind r with
  | BinReader => let? '(buf, r) := take_bytes w r in Ok (be_value buf, r)
  | StreamingReader => let? '(buf, r) := read_fixed_bytes w r in Ok (be_value buf, r)
  end.
Definition read_u8 : read Z := read_uint 1.
Definition read_u16 : read Z := read_uint 2.
Definition read_u32 : read Z := read_uint 4.
Definition read_u64 : read Z := read_uint 8.

(** Two's complement. *)
Definition read_i64 : read Z := x <- read_uint 8 ;; ret (wrap_i64 x).
Definition read_i32 : read Z :=
  x <- read_uint 4 ;; ret ((x + 2 ^ 31) mod 2 ^ 32 - 2 ^ 31).

Definition read_bytes_len_prefix : read (list Z) := fun r =>
  match kind r with
  | BinReader => (len <- read_u64 ;; read_fixed_bytes (Z.to_nat len)) r
  | StreamingReader =>
      let? '(len, r) := read_u64 r in
      read_fixed_bytes (Z.to_nat len) (mkReader (kind r) (source r) (total_bytes_read r +! 8))
  end.

Definition expect_u8 (val : Z) : read Z :=
  b <- read_u8 ;; if b =? val then ret b else fail (UnexpectedData [val] [b]).

(** [IteratingReader] collected: stops at the first element that does not read. *)
Fixpoint read_iter {A} (elt : read A) (count : nat) : read (list A) := fun r =>
  match count with
  | O => Ok ([], r)
  | S count =>
      match elt r with
      | Ok (a, r) => let? '(l, r) := read_iter elt count r in Ok (a :: l, r)
      | Err _ => Ok ([], r)
      | Panic => Panic
      end
  end.

Definition read_multi {A} (elt : read A) (count : Z) : read (list A) := fun r =>
  if count >? 1000000 then Err TooLargeReadErr
  else
    let? '(res, r) := read_iter elt (Z.to_nat count) r in
    if Z.of_nat (length res) =? count then Ok (res, r) else Err CountError.

(** [deserialize]: trailing bytes are ignored. *)
Definition deserialize {A} (elt : read A) (bs : list Z) : outcome ser_error A :=
  let? '(a, _) := elt (mkReader BinReader bs 0) in Ok a.

(** ** The writer: the bytes appended to the sink *)
Definition write_u8 (n : Z) : list Z := be_bytes 1 n.
Definition write_u16 (n : Z) : list Z := be_bytes 2 n.
Definition write_u32 (n : Z) : list Z := be_bytes 4 n.
Definition write_u64 (n : Z) : list Z := be_bytes 8 n.
Definition write_i32 (n : Z) : list Z := be_bytes 4 n.
Definition write_i64 (n : Z) : list Z := be_bytes 8 n.
Definition write_bytes (bs : list Z) : list Z := write_u64 (Z.of_nat (length bs)) ++ bs.

(** ** Hashes *)
Abbreviation Hash := (array 32).
Definition ZERO_HASH : Hash := from_vec [].

Definition write_array {n} (a : array n) : list Z := bytes a.
Definition read_array (n : nat) : read (array n) :=
  v <- read_fixed_bytes n ;; ret (from_vec v).

Definition read_hash : read Hash := read_array 32.

(** The derived order of a byte array: lexicographic. *)
Fixpoint lex_cmp (a b : list Z) : comparison :=
  match a, b with
  | [], [] => Eq
  | [], _ => Lt
  | _, [] => Gt
  | x :: a, y :: b =>
      match Z.compare x y with
      | Eq => lex_cmp a b
      | c => c
      end
  end.
Definition hash_cmp (a b : Hash) : comparison := lex_cmp (bytes a) (bytes b).

(** [Hash::to_u64]: the most significant 64 bits. *)
Definition to_u64 (h : Hash) : Z := be_value (take 8 (bytes h)).

(** The hash function (BLAKE2b with a 32-byte digest) is a parameter. *)
Class Hasher := blake2b : list Z -> Hash.

(** [PMMRIndexHashable]: the index is hashed before the element. *)
Definition hash_with_index `{Hasher} (index : Z) (content : list Z) : Hash :=
  blake2b (write_u64 index ++ content).

(** [verify_sorted_and_unique] on the hashes of the items. *)
Fixpoint verify_sorted_and_unique (hashes : list Hash) : outcome ser_error () :=
  match hashes with
  | a :: ((b :: _) as l) =>
      match hash_cmp a b with
      | Gt => Err SortError
      | Eq => Err DuplicateError
      | Lt => verify_sorted_and_unique l
      end
  | _ => Ok tt
  end.

(** ** Integers as bytes *)
Lemma length_be_bytes w x : length (be_bytes w x) = w.
Proof. induction w; simpl; congruence. Qed.

Lemma foldl_be_bytes w x acc :
  foldl (fun acc b => acc * 256 + b) acc (be_bytes w x)
    = acc * 2 ^ (8 * Z.of_nat w) + x mod 2 ^ (8 * Z.of_nat w).
Proof.
  revert acc. induction w as [|w IH]; intros acc.
  - cbn [be_bytes foldl]. change (2 ^ (8 * Z.of_nat 0)) with 1. rewrite Z.mod_1_r. lia.
  - cbn [be_bytes foldl]. rewrite IH.
    assert (0 < 2 ^ (8 * Z.of_nat w)) by (apply Z.pow_pos_nonneg; lia).
    replace (2 ^ (8 * Z.of_nat (S w))) with (2 ^ (8 * Z.of_nat w) * 256).
    + rewrite (Z.rem_mul_r x (2 ^ (8 * Z.of_nat w)) 256) by lia. lia.
    + change 256 with (2 ^ 8). rewrite <- Z.pow_add_r by lia. f_equal. lia.
Qed.

(** The bytes of an integer, read back unsigned: two's complement for a negative one. *)
Lemma be_value_bytes_mod w x : be_value (be_bytes w x) = x mod 2 ^ (8 * Z.of_nat w).
Proof. unfold be_value. rewrite foldl_be_bytes. lia. Qed.

Lemma be_value_bytes w x : 0 <= x < 2 ^ (8 * Z.of_nat w) -> be_value (be_bytes w x) = x.
Proof. intros. rewrite be_value_bytes_mod. by apply Z.mod_small. Qed.

Lemma be_bytes_ok w x : array_ok w (be_bytes w x).
Proof.
  split; [apply length_be_bytes|]. induction w as [|w IH]; simpl; constructor; [|done].
  unfold is_byte. apply Z.mod_pos_bound. lia.
Qed.

(** ** Round trips

    [reads m bs a]: either reader, on [bs] followed by anything, gives [a] and
    leaves the rest; the streaming reader has counted the bytes of [bs]. *)
Definition counted (k : reader_kind) (total : Z) (bs : list Z) : Z :=
  match k with
  | BinReader => total
  | StreamingReader => wrap64 (total + Z.of_nat (length bs))
  end.

Definition reads {A} (m : read A) (bs : list Z) (a : A) : Prop :=
  forall k rest total, is_u64 total ->
    m (mkReader k (bs ++ rest) total) = Ok (a, mkReader k rest (counted k total bs)).

Lemma counted_u64 k total bs : is_u64 total -> is_u64 (counted k total bs).
Proof. destruct k; simpl; [done|]. intros _. apply wrap64_range. Qed.

Lemma counted_app k total bs cs : counted k (counted k total bs) cs = counted k total (bs ++ cs).
Proof.
  destruct k; simpl; [done|]. unfold wrap64. rewrite Zplus_mod_idemp_l, length_app. f_equal. lia.
Qed.

Lemma counted_nil k total : is_u64 total -> counted k total [] = total.
Proof. destruct k; simpl; [done|]. intros. rewrite Z.add_0_r. by apply wrap64_small. Qed.

Lemma reads_ret {A} (a : A) : reads (ret a) [] a.
Proof. intros k rest total Ht. unfold ret. by rewrite counted_nil. Qed.

Lemma reads_bind {A B} (m : read A) (f : A -> read B) b1 b2 a c :
  reads m b1 a -> reads (f a) b2 c -> reads (rbind m f) (b1 ++ b2) c.
Proof.
  intros Hm Hf k rest total Ht. unfold rbind. rewrite <- app_assoc, Hm by done. cbn [bind].
  rewrite Hf by (by apply counted_u64). by rewrite counted_app.
Qed.

(** The last field of a record: nothing is left to read after it. *)
Lemma reads_map {A B} (m : read A) (f : A -> B) bs a :
  reads m bs a -> reads (x <- m ;; ret (f x)) bs (f a).
Proof. intros Hm. rewrite <- (app_nil_r bs). eapply reads_bind; [done|apply reads_ret]. Qed.

Lemma take_bytes_app k bs rest total :
  take_bytes (length bs) (mkReader k (bs ++ rest) total) = Ok (bs, mkReader k rest total).
Proof.
  unfold take_bytes. cbn [source kind]. rewrite length_app.
  destruct (Nat.ltb_spec (length bs + length rest) (length bs)); [lia|].
  by rewrite take_app_length, drop_app_length.
Qed.

Lemma reads_fixed n bs :
  length bs = n -> Z.of_nat n <= 100000 -> reads (read_fixed_bytes n) bs bs.
Proof.
  intros <- Hn k rest total Ht. unfold read_fixed_bytes. cbn [kind]. destruct k.
  - destruct (Z.ltb_spec 100000 (Z.of_nat (length bs))); [lia|]. by rewrite take_bytes_app.
  - rewrite take_bytes_app. done.
Qed.

Lemma reads_uint_mod w x :
  reads (read_uint w) (be_bytes w x) (x mod 2 ^ (8 * Z.of_nat w)).
Proof.
  intros k rest total Ht. unfold read_uint, read_fixed_bytes. cbn [kind].
  pose proof (take_bytes_app k (be_bytes w x) rest total) as Htb. rewrite length_be_bytes in Htb.
  destruct k; rewrite Htb; cbn [bind counted]; rewrite be_value_bytes_mod; [done|].
  by rewrite length_be_bytes.
Qed.

Lemma reads_uint w x :
  0 <= x < 2 ^ (8 * Z.of_nat w) -> reads (read_uint w) (be_bytes w x) x.
Proof. intros Hx. rewrite <- (Z.mod_small x (2 ^ (8 * Z.of_nat w))) at 2 by done. apply reads_uint_mod. Qed.

Lemma reads_array n (a : array n) : Z.of_nat n <= 100000 -> reads (read_array n) (write_array a) a.
Proof.
  intros Hn. unfold read_array. rewrite <- (from_vec_bytes a) at 2.
  apply reads_map, reads_fixed; [|done]. by destruct (array_bytes_ok a).
Qed.

Lemma reads_i64 x : is_i64 x -> reads read_i64 (write_i64 x) x.
Proof.
  intros Hx. replace x with (wrap_i64 (x mod 2 ^ 64)) at 2.
  - apply (reads_map _ wrap_i64), (reads_uint_mod 8).
  - unfold wrap_i64. rewrite Zplus_mod_idemp_l. by apply wrap_i64_small.
Qed.

Lemma reads_iter {A} (elt : read A) (wr : A -> list Z) l k rest total :
  (forall a, a ∈ l -> reads elt (wr a) a) -> is_u64 total ->
  read_iter elt (length l) (mkReader k (concat (map wr l) ++ rest) total) =
    Ok (l, mkReader k rest (counted k total (concat (map wr l)))).
Proof.
  intros Hl. revert total. induction l as [|a l IH]; intros total Ht; cbn [read_iter length map concat].
  - by rewrite counted_nil.
  - rewrite <- app_assoc, (Hl a) by (done || by left).
    rewrite IH; [by rewrite counted_app|intros; apply Hl; by right|by apply counted_u64].
Qed.

Lemma reads_multi {A} (elt : read A) (wr : A -> list Z) l :
  (forall a, a ∈ l -> reads elt (wr a) a) -> Z.of_nat (length l) <= 1000000 ->
  reads (read_multi elt (Z.of_nat (length l))) (concat (map wr l)) l.
Proof.
  intros Hl Hn k rest total Ht. unfold read_multi. rewrite Z.gtb_ltb.
  destruct (Z.ltb_spec 1000000 (Z.of_nat (length l))); [lia|].
  rewrite Nat2Z.id, (reads_iter elt wr) by done. cbn [bind]. by rewrite Z.eqb_refl.
Qed.

Lemma reads_deserialize {A} (m : read A) bs a extra :
  reads m bs a -> deserialize m (bs ++ extra) = Ok a.
Proof. intros Hm. unfold deserialize. by rewrite Hm by (unfold is_u64; lia). Qed.

Create HintDb reads discriminated.
#[export] Hint Resolve reads_ret reads_bind reads_map reads_uint reads_array : reads.

(** ** The order of hashes *)
Lemma lex_cmp_eq a b : lex_cmp a b = Eq <-> a = b.
Proof.
  revert b. induction a as [|x a IH]; intros [|y b]; simpl; try (split; done).
  destruct (Z.compare_spec x y) as [->|Hlt|Hgt].
  - rewrite IH. split; [by intros ->|by intros [= ->]].
  - split; [done|]. intros [= -> ->]. lia.
  - split; [done|]. intros [= -> ->]. lia.
Qed.

Lemma lex_cmp_opp a b : lex_cmp b a = CompOpp (lex_cmp a b).
Proof.
  revert b. induction a as [|x a IH]; intros [|y b]; simpl; try done.
  rewrite (Z.compare_antisym x y). destruct (x ?= y); simpl; [apply IH|done|done].
Qed.

Lemma lex_cmp_trans a b c : lex_cmp a b = Lt -> lex_cmp b c = Lt -> lex_cmp a c = Lt.
Proof.
  revert b c. induction a as [|x a IH]; intros [|y b] [|z c]; simpl; try done.
  destruct (Z.compare_spec x y), (Z.compare_spec y z); subst; try done; intros.
  - rewrite Z.compare_refl. by eapply IH.
  - by rewrite (proj2 (Z.compare_lt_iff _ _)).
  - by rewrite (proj2 (Z.compare_lt_iff _ _)).
  - by rewrite (proj2 (Z.compare_lt_iff x z)) by lia.
Qed.

Definition hash_lt (a b : Hash) : Prop := hash_cmp a b = Lt.
Definition hash_le (a b : Hash) : Prop := hash_cmp a b <> Gt.
#[export] Instance hash_lt_dec : RelDecision hash_lt.
Proof. intros a b. unfold hash_lt. apply _. Defined.
#[export] Instance hash_le_dec : RelDecision hash_le.
Proof. intros a b. unfold hash_le. apply _. Defined.

Lemma hash_cmp_eq a b : hash_cmp a b = Eq <-> a = b.
Proof.
  unfold hash_cmp. rewrite lex_cmp_eq. split; [apply array_eq|by intros ->].
Qed.

#[export] Instance hash_lt_trans : Transitive hash_lt.
Proof. intros a b c. unfold hash_lt, hash_cmp. apply lex_cmp_trans. Qed.

Lemma hash_lt_irrefl a : ~ hash_lt a a.
Proof. unfold hash_lt. by rewrite (proj2 (hash_cmp_eq a a) eq_refl). Qed.

Lemma hash_cmp_gt a b : hash_cmp a b = Gt <-> hash_lt b a.
Proof. unfold hash_lt, hash_cmp. rewrite (lex_cmp_opp (bytes a)). by destruct (lex_cmp _ _). Qed.

#[export] Instance hash_le_total : Total hash_le.
Proof.
  intros a b. unfold hash_le, hash_cmp. rewrite (lex_cmp_opp (bytes a) (bytes b)).
  destruct (lex_cmp (bytes a) (bytes b)); simpl; [left|left|right]; done.
Qed.

#[export] Instance hash_le_trans : Transitive hash_le.
Proof.
  intros a b c Hab Hbc Hac. unfold hash_le in *.
  destruct (hash_cmp a b) eqn:E1; [apply hash_cmp_eq in E1 as ->; done| |done].
  destruct (hash_cmp b c) eqn:E2; [apply hash_cmp_eq in E2 as ->; congruence| |done].
  rewrite (hash_lt_trans a b c E1 E2) in Hac. done.
Qed.

(** The check of [verify_sorted_and_unique] is strict sortedness. *)
Lemma verify_sorted_spec hashes :
  verify_sorted_and_unique hashes = Ok tt <-> StronglySorted hash_lt hashes.
Proof.
  enough (verify_sorted_and_unique hashes = Ok tt <-> Sorted hash_lt hashes) as ->.
  { split; [apply Sorted_StronglySorted; apply _|apply StronglySorted_Sorted]. }
  induction hashes as [|a [|b l] IH]; [split; [constructor|done]|split; [repeat constructor|done]|].
  cbn [verify_sorted_and_unique]. cbn [verify_sorted_and_unique] in IH. split.
  - destruct (hash_cmp a b) eqn:E; try done. intros Hv. constructor; [by apply IH|]. by constructor.
  - intros Hs. inversion Hs as [|? ? Hs' Hh]; subst. inversion Hh as [|? ? Hab]; subst.
    unfold hash_lt in Hab. rewrite Hab. by apply IH.
Qed.
