(* ===== verification/Pmmr.v ===== *)
(** * The prunable Merkle Mountain Range

    [core/src/core/pmmr/pmmr.rs] ([PMMR]), [readonly_pmmr.rs],
    [rewindable_pmmr.rs] and the [Backend] trait of [backend.rs].  The storage
    is an interface: the operations are the methods of the trait, and
    [BackendLaws] states what the range relies on. *)
From S2P Require Import Prelude PmmrIndex.
Import Pos.

(** ** Interfaces *)

(** [PMMRIndexHashable] for leaves and for pairs of hashes. *)
Class IndexHash (T H : Type) := {
  leaf_hash : T -> Z -> H;
  pair_hash : H * H -> Z -> H;
  ZERO_HASH : H
}.

(** Messages of the [Err(String)] results. *)
Inductive pmmr_error : Type :=
| NotALeafAt (pos : Z)
| NoElementAt (pos : Z)
| BadMmrSize (size : Z)
| MissingLeftSibling
| CantPrune (pos : Z)
| InvalidParentHash (pos : Z)
| NoRoot
| BackendErr (msg : Z).

(** The [Backend] trait; a [croaring] bitmap of positions is a finite set.
    A method that takes [&mut self] returns the new backend. *)
Class Backend (T H E B : Type) := {
  be_append : B -> T -> list H -> outcome pmmr_error B;
  be_rewind : B -> Z -> gset Z -> outcome pmmr_error B;
  be_get_hash : B -> Z -> option H;
  be_get_data : B -> Z -> option E;
  be_get_from_file : B -> Z -> option H;
  be_get_data_from_file : B -> Z -> option E;
  be_leaf_pos_iter : B -> list Z;
  be_remove : B -> Z -> outcome pmmr_error B
}.

(** A Merkle proof ([core/src/core/merkle_proof.rs]). *)
Record MerkleProof (H : Type) := mkMerkleProof { mmr_size_of : Z; proof_path : list H }.
Arguments mkMerkleProof {H} _ _.
Arguments mmr_size_of {H} _.
Arguments proof_path {H} _.

Record PMMR (B : Type) := mkPMMR { last_pos : Z; backend : B }.
Arguments mkPMMR {B} _ _.
Arguments last_pos {B} _.
Arguments backend {B} _.

(** ** Operations *)
Section Ops.
Context {T H E B : Type} `{!EqDecision H} {IH : IndexHash T H} {BE : Backend T H E B}.
Implicit Types p : PMMR B.

Definition new (b : B) : PMMR B := mkPMMR 0 b.
Definition at_ (b : B) (last : Z) : PMMR B := mkPMMR last b.

Definition is_empty p : bool := last_pos p =? 0.
Definition unpruned_size p : Z := last_pos p.

(** Private [get_from_file]: ignores the remove log, bounded by [last_pos]. *)
Definition get_from_file p (pos : Z) : option H :=
  if pos >? last_pos p then None else be_get_from_file (backend p) pos.

Definition get_hash p (pos : Z) : option H :=
  if pos >? last_pos p then None
  else if is_leaf pos then be_get_hash (backend p) pos
  else be_get_from_file (backend p) pos.

Definition get_data p (pos : Z) : option E :=
  if pos >? last_pos p then None
  else if is_leaf pos then be_get_data (backend p) pos
  else None.

Definition leaf_pos_iter p : list Z := be_leaf_pos_iter (backend p).

Definition peaks p : list H :=
  omap (be_get_from_file (backend p)) (Pos.peaks (last_pos p)).

(** The loop shared by [bag_the_rhs] and [root]: fold the peaks from the right. *)
Definition bag_step (size : Z) (res : option H) (peak : H) : option H :=
  match res with
  | None => Some peak
  | Some rhash => Some (pair_hash (peak, rhash) size)
  end.

Definition bag_the_rhs p (peak_pos : Z) : option H :=
  let rhs := omap (be_get_from_file (backend p))
               (filter (fun x => x > peak_pos) (Pos.peaks (last_pos p))) in
  foldl (bag_step (unpruned_size p)) None (rev rhs).

Definition peak_path p (peak_pos : Z) : list H :=
  let rhs := bag_the_rhs p peak_pos in
  let res := rev (omap (be_get_from_file (backend p))
               (filter (fun x => x < peak_pos) (Pos.peaks (last_pos p)))) in
  match rhs with
  | Some rhs => rhs :: res
  | None => res
  end.

Definition root p : outcome pmmr_error H :=
  if is_empty p then Ok ZERO_HASH
  else unwrap (foldl (bag_step (unpruned_size p)) None (rev (peaks p))).

Definition merkle_proof p (pos : Z) : outcome pmmr_error (MerkleProof H) :=
  if negb (is_leaf pos) then Err (NotALeafAt pos)
  else
    try? ok_or (get_hash p pos) (NoElementAt pos) then
    let mmr_size := unpruned_size p in
    let family_branch := family_branch pos (last_pos p) in
    let path := omap (fun x => get_from_file p x.2) family_branch in
    let peak_pos := match last family_branch with
                    | Some (x, _) => x
                    | None => pos
                    end in
    Ok (mkMerkleProof mmr_size (path ++ peak_path p peak_pos)).

(** The [while (peak_map & peak) != 0] loop of [push]; 64 doublings exhaust [peak]. *)
Fixpoint push_loop (fuel : nat) (b : B) (peak_map peak pos : Z) (current_hash : H)
    (hashes : list H) : outcome pmmr_error (Z * list H) :=
  match fuel with
  | O => Ok (pos, hashes)
  | S fuel =>
      if negb (Z.land peak_map peak =? 0) then
        let left_sibling := pos +! 1 -! 2 *! peak in
        let? left_hash := ok_or (be_get_from_file b left_sibling) MissingLeftSibling in
        let peak := peak *! 2 in
        let pos := pos +! 1 in
        let current_hash := pair_hash (left_hash, current_hash) (pos -! 1) in
        push_loop fuel b peak_map peak pos current_hash (hashes ++ [current_hash])
      else Ok (pos, hashes)
  end.

Definition push p (elmt : T) : outcome pmmr_error (Z * PMMR B) :=
  let elmt_pos := last_pos p +! 1 in
  let current_hash := leaf_hash elmt (elmt_pos -! 1) in
  let '(peak_map, height) := peak_map_height (elmt_pos -! 1) in
  if negb (height =? 0) then Err (BadMmrSize (elmt_pos -! 1))
  else
    let? '(pos, hashes) :=
      push_loop 65 (backend p) peak_map 1 elmt_pos current_hash [current_hash] in
    let? b := be_append (backend p) elmt hashes in
    Ok (elmt_pos, mkPMMR pos b).

Definition truncate p : outcome pmmr_error (PMMR B) :=
  let? b := be_rewind (backend p) 0 ∅ in Ok (mkPMMR 0 b).

(** The position [rewind] settles on: parents that complete the range are kept. *)
Definition rewind_pos (position : Z) : Z :=
  while 64 (fun pos => bintree_postorder_height (pos +! 1) >? 0) (fun pos => pos +! 1) position.

Definition rewind p (position : Z) (rewind_rm_pos : gset Z) : outcome pmmr_error (PMMR B) :=
  let pos := rewind_pos position in
  let? b := be_rewind (backend p) pos rewind_rm_pos in
  Ok (mkPMMR pos b).

Definition prune p (position : Z) : outcome pmmr_error (bool * PMMR B) :=
  if negb (is_leaf position) then Err (CantPrune position)
  else
    match be_get_hash (backend p) position with
    | None => Ok (false, p)
    | Some _ =>
        let? b := be_remove (backend p) position in
        Ok (true, mkPMMR (last_pos p) b)
    end.

(** One iteration of [validate]. *)
Definition validate_at p (n : Z) : outcome pmmr_error () :=
  let height := bintree_postorder_height n in
  if height >? 0 then
    match get_hash p n with
    | Some hash =>
        let left_pos := n -! (1 <<! height) in
        let right_pos := n -! 1 in
        match get_from_file p left_pos with
        | Some left_child_hs =>
            match get_from_file p right_pos with
            | Some right_child_hs =>
                if decide (pair_hash (left_child_hs, right_child_hs) (n -! 1) = hash)
                then Ok tt else Err (InvalidParentHash n)
            | None => Ok tt
            end
        | None => Ok tt
        end
    | None => Ok tt
    end
  else Ok tt.

Fixpoint validate_from p (n : Z) (count : nat) : outcome pmmr_error () :=
  match count with
  | O => Ok tt
  | S count => try? validate_at p n then validate_from p (n + 1) count
  end.

Definition validate p : outcome pmmr_error () :=
  validate_from p 1 (Z.to_nat (last_pos p)).

(** *** Readonly and rewindable views *)

(** [readonly_pmmr]: same fields, shared backend. *)
Definition readonly_pmmr p : PMMR B := at_ (backend p) (last_pos p).

(** [ReadonlyPMMR::elements_from_insertion_index]; [fuel] bounds the leaves visited. *)
Fixpoint elements_loop (fuel : nat) p (index return_index : Z) (max_count : Z)
    (return_vec : list E) : Z * list E :=
  match fuel with
  | O => (return_index, return_vec)
  | S fuel =>
      let pmmr_index := insertion_to_pmmr_index index in
      if (Z.of_nat (length return_vec) <? max_count) && (pmmr_index <=? last_pos p) then
        let '(return_vec, return_index) :=
          match get_data p pmmr_index with
          | Some t => (return_vec ++ [t], index)
          | None => (return_vec, return_index)
          end in
        elements_loop fuel p (index +! 1) return_index max_count return_vec
      else (return_index, return_vec)
  end.

Definition elements_from_insertion_index p (index max_count : Z) : Z * list E :=
  let index := if index =? 0 then 1 else index in
  elements_loop (S (Z.to_nat (last_pos p))) p index index max_count [].

(** [ReadonlyPMMR::get_last_n_insertions]. *)
Fixpoint last_n_loop (n : nat) p (last_leaf : Z) (return_vec : list (H * E)) : list (H * E) :=
  match n with
  | O => return_vec
  | S n =>
      if last_leaf =? 0 then return_vec
      else
        let last_leaf := bintree_rightmost last_leaf in
        let return_vec :=
          match be_get_hash (backend p) last_leaf, be_get_data (backend p) last_leaf with
          | Some hash, Some data => return_vec ++ [(hash, data)]
          | _, _ => return_vec
          end in
        last_n_loop n p (last_leaf -! 1) return_vec
  end.

Definition get_last_n_insertions p (n : Z) : list (H * E) := last_n_loop (Z.to_nat n) p (last_pos p) [].

(** [RewindablePMMR::rewind] moves [last_pos] only. *)
Definition rewindable_rewind p (position : Z) : PMMR B :=
  mkPMMR (rewind_pos position) (backend p).

Definition rewindable_root p : outcome pmmr_error H :=
  if is_empty p then Ok ZERO_HASH
  else ok_or (foldl (bag_step (unpruned_size p)) None (rev (peaks p))) NoRoot.

End Ops.
