(* ===== verification/PmmrRefine.v ===== *)
(** * Refinement of the Merkle Mountain Range

    The abstract state of a range is the list of the leaves pushed into it;
    [node_hash] is the hash every node must have.  [repr] relates a [PMMR] over
    a backend that keeps [BackendLaws] to that list, and every operation of
    [Pmmr.v] is shown to act on the list. *)
From S2P Require Import Prelude PmmrIndex Pmmr.
Import Pos Node Spec Theorems.

(** ** What the range relies on from its storage *)
Class BackendLaws (T H E B : Type) `{BE : Backend T H E B} := {
  be_ok : B -> Prop;
  be_size : B -> Z;
  (** positions the storage can address *)
  be_cap : Z;
  (** the storage can be truncated at a position *)
  be_rewindable : B -> Z -> Prop;
  append_spec : forall b t hs b',
    be_ok b -> be_size b + Z.of_nat (length hs) < be_cap -> be_append b t hs = Ok b' ->
    be_ok b' /\ be_size b' = be_size b + Z.of_nat (length hs) /\
    (forall pos, 1 <= pos <= be_size b -> be_get_from_file b' pos = be_get_from_file b pos) /\
    (forall i h, hs !! i = Some h ->
       be_get_from_file b' (be_size b + 1 + Z.of_nat i) = Some h);
  rewind_spec : forall b pos bm b',
    be_ok b -> 0 <= pos <= be_size b -> be_rewindable b pos -> be_rewind b pos bm = Ok b' ->
    be_ok b' /\ be_size b' = pos /\
    (forall q, 1 <= q <= pos -> be_get_from_file b' q = be_get_from_file b q);
  remove_spec : forall b pos b',
    be_ok b -> be_remove b pos = Ok b' ->
    be_ok b' /\ be_size b' = be_size b /\
    (forall q, be_get_from_file b' q = be_get_from_file b q)
}.

Section Refinement.
Context {T H E B : Type} `{!EqDecision H} {IH : IndexHash T H} {BE : Backend T H E B}.
Context {BL : BackendLaws T H E B}.
Implicit Types (p : PMMR B) (ts : list T).

(** ** The abstract range *)
Definition leaves ts : Z := Z.of_nat (length ts).

(** The hash of the node of height [h] whose last leaf is the [n]-th. *)
Fixpoint node_hash ts (h : nat) (n : Z) : option H :=
  match h with
  | O => (fun t => leaf_hash t (pos_of n 0 - 1)) <$> ts !! Z.to_nat n
  | S k =>
      match node_hash ts k (n - 2 ^ Z.of_nat k), node_hash ts k n with
      | Some l, Some r => Some (pair_hash (l, r) (pos_of n (Z.of_nat h) - 1))
      | _, _ => None
      end
  end.

(** The hash at a position. *)
Definition hash_at ts (pos : Z) : option H :=
  let '(n, h) := peak_map_height (pos -! 1) in node_hash ts (Z.to_nat h) n.

(** The root: the hashes at the peaks, bagged from the right. *)
Definition range_root ts : option H :=
  let size := mmr_size (leaves ts) in
  foldl (bag_step size) None (rev (omap (hash_at ts) (Pos.peaks size))).

(** The peaks of the range of [k] leaves are in the file. *)
Definition peaks_kept p (k : Z) : Prop :=
  forall n h, is_node n h -> n < k <= parent_leaf n h ->
    is_Some (be_get_from_file (backend p) (pos_of n h)).

(** What a reader of [last_pos p] positions sees: every hash still in the file
    is the hash of the abstract node, and the peaks are there. *)
Record viewed p ts : Prop := {
  repr_size : last_pos p = mmr_size (leaves ts);
  repr_cap : leaves ts < 2 ^ 60;
  repr_agrees : forall n h v, is_node n h -> n < leaves ts ->
    be_get_from_file (backend p) (pos_of n h) = Some v ->
    node_hash ts (Z.to_nat h) n = Some v;
  repr_peaks : peaks_kept p (leaves ts)
}.

(** The range that owns its backend: nothing is stored past [last_pos]. *)
Definition repr p ts : Prop :=
  viewed p ts /\ be_ok (backend p) /\ be_size (backend p) = last_pos p.

Lemma node_room n h m : is_node n h -> n < m -> m < 2 ^ 60 -> pos_of n h < 2 ^ 62.
Proof. intros Hnode Hlt Hm. pose proof (pos_of_le n h Hnode). lia. Qed.

Lemma hash_at_node ts n h :
  is_node n h -> pos_of n h < 2 ^ 64 -> hash_at ts (pos_of n h) = node_hash ts (Z.to_nat h) n.
Proof. intros. unfold hash_at. by rewrite peak_map_height_pos. Qed.

Lemma node_hash_S ts n h :
  0 <= h ->
  node_hash ts (Z.to_nat (h + 1)) n =
  match node_hash ts (Z.to_nat h) (n - 2 ^ h), node_hash ts (Z.to_nat h) n with
  | Some l, Some r => Some (pair_hash (l, r) (pos_of n (h + 1) - 1))
  | _, _ => None
  end.
Proof.
  intros Hh. replace (Z.to_nat (h + 1)) with (S (Z.to_nat h)) by lia. cbn [node_hash].
  rewrite Z2Nat.id by done. by replace (Z.of_nat (S (Z.to_nat h))) with (h + 1) by lia.
Qed.

Lemma is_node_ind_h (P : Z -> Z -> Prop) :
  (forall n, 0 <= n -> P n 0) ->
  (forall n h, 0 <= h -> is_node n (h + 1) -> P n h -> P (n - 2 ^ h) h -> P n (h + 1)) ->
  forall n h, is_node n h -> P n h.
Proof.
  intros H0 HS n h Hnode. pose proof Hnode as (_ & Hh & _). revert n Hnode.
  pattern h. apply natlike_ind; [| |done]; clear h Hh.
  - intros n (Hn & _). by apply H0.
  - intros h Hh IHh n Hnode. rewrite <- Z.add_1_r in *.
    destruct (is_node_children n h Hnode Hh) as (H1 & H2 & _). by apply HS; auto.
Qed.

(** Pushing more leaves leaves the hashes of the earlier nodes alone. *)
Lemma node_hash_app ts us n h :
  is_node n h -> n < leaves ts ->
  node_hash (ts ++ us) (Z.to_nat h) n = node_hash ts (Z.to_nat h) n.
Proof.
  intros Hnode. pattern n, h. apply is_node_ind_h; [| |done]; clear n h Hnode.
  - intros n Hn Hlt. change (Z.to_nat 0) with 0%nat. cbn [node_hash]. unfold leaves in Hlt.
    by rewrite lookup_app_l by lia.
  - intros n h Hh Hnode IH1 IH2 Hlt. rewrite !node_hash_S by done.
    assert (0 < 2 ^ h) by (apply Z.pow_pos_nonneg; lia).
    by rewrite IH1, IH2 by lia.
Qed.

Lemma node_hash_take ts k n h :
  is_node n h -> 0 <= k <= leaves ts -> n < k ->
  node_hash (take (Z.to_nat k) ts) (Z.to_nat h) n = node_hash ts (Z.to_nat h) n.
Proof.
  intros Hnode Hk Hlt. rewrite <- (take_drop (Z.to_nat k) ts) at 2.
  symmetry. apply node_hash_app; [done|]. unfold leaves in *. rewrite length_take. lia.
Qed.

Lemma node_hash_some ts n h :
  is_node n h -> n < leaves ts -> is_Some (node_hash ts (Z.to_nat h) n).
Proof.
  intros Hnode. pattern n, h. apply is_node_ind_h; [| |done]; clear n h Hnode.
  - intros n Hn Hlt. change (Z.to_nat 0) with 0%nat. cbn [node_hash]. unfold leaves in Hlt.
    apply fmap_is_Some, lookup_lt_is_Some. lia.
  - intros n h Hh Hnode IH1 IH2 Hlt. rewrite !node_hash_S by done.
    assert (0 < 2 ^ h) by (apply Z.pow_pos_nonneg; lia).
    destruct (IH1 ltac:(lia)) as [? ->], (IH2 ltac:(lia)) as [? ->]. by eexists.
Qed.

(** ** Pushing a leaf *)

(** The nodes a new leaf brings: itself and the parents it completes. *)
Lemma left_sibling_pos n h :
  is_node n h -> Z.testbit n h = true -> pos_of n h < 2 ^ 62 ->
  pos_of n h +! 1 -! 2 *! 2 ^ h = pos_of (n - 2 ^ h) h.
Proof.
  intros Hnode Hb Hlt. pose proof (walk_room n h Hnode ltac:(lia)) as (Hh & Hr & E2).
  pose proof (pos_of_pos n h Hnode). pose proof (family_positions n h Hnode) as Hf.
  rewrite Hb in Hf. destruct Hf as [_ Hs]. unfold sibling_leaf in Hs. rewrite Hb in Hs.
  unwrap64. lia.
Qed.

Lemma push_loop_node fuel b ts ts' h cur hashes :
  let n := leaves ts in
  n < 2 ^ 60 ->
  (forall m j v, is_node m j -> m < n -> be_get_from_file b (pos_of m j) = Some v ->
     node_hash ts' (Z.to_nat j) m = Some v) ->
  (forall m j, is_node m j -> m < n <= parent_leaf m j ->
     is_Some (be_get_from_file b (pos_of m j))) ->
  is_node n h -> 62 <= h + Z.of_nat fuel -> node_hash ts' (Z.to_nat h) n = Some cur ->
  exists k new,
    push_loop fuel b n (2 ^ h) (pos_of n h) cur hashes = Ok (pos_of n k, hashes ++ new) /\
    is_node n k /\ Z.testbit n k = false /\ h <= k /\
    Some <$> new = (fun i => node_hash ts' i n) <$> seq (S (Z.to_nat h)) (Z.to_nat (k - h)).
Proof.
  intros n Hcap Hagree Hpeaks. revert h cur hashes.
  induction fuel as [|fuel IHf]; intros h cur hashes Hnode Hf Hcur.
  - pose proof (pos_of_le n h Hnode). pose proof (height_lt n h 62 Hnode ltac:(lia)). lia.
  - pose proof (pos_of_le n h Hnode). pose proof (walk_room n h Hnode ltac:(lia)) as (Hh & Hr & E2).
    pose proof (pos_of_pos n h Hnode). cbn [push_loop]. rewrite land_pow2 by lia.
    destruct (Z.testbit n h) eqn:Hb.
    + pose proof (is_node_up n h Hnode Hb) as Hup.
      destruct (is_node_children n h Hup ltac:(lia)) as (_ & Hl & _).
      rewrite left_sibling_pos by (done || lia).
      destruct (Hpeaks (n - 2 ^ h) h Hl) as [l El].
      { unfold parent_leaf. rewrite left_child_bit by (done || lia). lia. }
      rewrite El. cbn [ok_or bind]. pose proof (Hagree _ _ _ Hl ltac:(lia) El) as Hlh.
      rewrite (u64_mul_small (2 ^ h) 2), (u64_add_small (pos_of n h)) by (unfold is_u64; lia).
      rewrite u64_sub_small by (unfold is_u64; lia).
      replace (2 ^ h * 2) with (2 ^ (h + 1)) by lia.
      replace (pos_of n h + 1) with (pos_of n (h + 1)) by (unfold pos_of; lia).
      edestruct (IHf (h + 1)) as (k & new & Hp & Hk & Hkb & Hle & Hnew);
        [done|lia|by rewrite node_hash_S, Hlh, Hcur by lia|].
      eexists k, (_ :: new). rewrite Hp, <- app_assoc. split_and!; [done..|lia|].
      rewrite fmap_cons, Hnew. replace (Z.to_nat (k - h)) with (S (Z.to_nat (k - (h + 1)))) by lia.
      cbn [seq fmap list_fmap]. replace (S (Z.to_nat h)) with (Z.to_nat (h + 1)) by lia.
      f_equal. by rewrite node_hash_S, Hlh, Hcur by lia.
    + exists h, []. rewrite app_nil_r, Z.sub_diag. by split_and!.
Qed.

(** The hashes [push] appends for the leaf [t]: one per node it completes. *)
Definition pushed ts t (hs : list H) : Prop :=
  let n := leaves ts in
  Some <$> hs = (fun i => node_hash (ts ++ [t]) i n) <$>
                  seq 0 (Z.to_nat (mmr_size (n + 1) - mmr_size n)).

Lemma leaves_snoc ts t : leaves (ts ++ [t]) = leaves ts + 1.
Proof. unfold leaves. rewrite length_app. simpl. lia. Qed.

Lemma push_appends p ts t :
  repr p ts ->
  exists hs, pushed ts t hs /\
    push p t = (let? b := be_append (backend p) t hs in
                Ok (insertion_to_pmmr_index (leaves ts + 1),
                    mkPMMR (mmr_size (leaves ts + 1)) b)).
Proof.
  intros [[Hsize Hcap Hagree Hpeaks] _]. unfold push.
  assert (0 <= leaves ts) as Hn by (unfold leaves; lia).
  pose proof (mmr_size_ge (leaves ts) Hn). rewrite Hsize.
  rewrite u64_add_small by (unfold is_u64; lia). rewrite u64_sub_small by (unfold is_u64; lia).
  pose proof (peak_map_height_node (leaves ts) 0 (is_node_leaf _ Hn) ltac:(lia)) as Hmap.
  replace (mmr_size (leaves ts) + 1 - 1) with (mmr_size (leaves ts) + 0) by lia.
  rewrite Hmap. cbn [Z.eqb negb]. rewrite Z.add_0_r.
  set (cur := leaf_hash t (mmr_size (leaves ts))).
  assert (node_hash (ts ++ [t]) 0 (leaves ts) = Some cur) as Hcur.
  { cbn [node_hash]. unfold leaves at 2. rewrite Nat2Z.id, list_lookup_middle by done.
    unfold cur, pos_of. simpl. do 2 f_equal. lia. }
  edestruct (push_loop_node 65 (backend p) ts (ts ++ [t]) 0 cur [cur])
    as (k & new & Hp & Hk & Hkb & Hk0 & Hnew); [done| |done|by apply is_node_leaf|lia|done|].
  { intros m j v Hm Hlt Hv. rewrite node_hash_app by done. by apply Hagree. }
  replace (mmr_size (leaves ts) + 1) with (pos_of (leaves ts) 0) by (unfold pos_of; lia).
  change (2 ^ 0) with 1 in Hp. exists (cur :: new). rewrite Hp. cbn [bind].
  rewrite (top_closes _ _ Hk Hkb), insertion_pos by lia. split; [|done].
  unfold pushed. rewrite <- (top_closes _ _ Hk Hkb). unfold pos_of.
  replace (Z.to_nat (mmr_size (leaves ts) + k + 1 - mmr_size (leaves ts)))
    with (S (Z.to_nat (k - 0))) by lia.
  cbn [seq]. rewrite !fmap_cons. by rewrite Hcur, Hnew.
Qed.

(** A node of the new range is an old node or one of the pushed ones. *)
Lemma pushed_lookup ts t hs n h :
  pushed ts t hs -> n = leaves ts -> is_node n h ->
  hs !! Z.to_nat h = node_hash (ts ++ [t]) (Z.to_nat h) n /\ is_Some (hs !! Z.to_nat h).
Proof.
  intros Hp -> Hnode. pose proof Hnode as (Hn & Hh & _).
  pose proof (proj2 (pos_of_in_range _ h (leaves ts + 1) Hnode ltac:(lia)) ltac:(lia)) as Hr.
  unfold pos_of in Hr. apply (f_equal (fun l => l !! Z.to_nat h)) in Hp.
  rewrite !list_lookup_fmap, lookup_seq_lt in Hp by lia. simpl in Hp.
  destruct (node_hash_some (ts ++ [t]) (leaves ts) h Hnode) as [v Hv]; [rewrite leaves_snoc; lia|].
  rewrite Hv in *. destruct (hs !! Z.to_nat h); simplify_eq/=; eauto.
Qed.

Lemma pushed_length ts t hs :
  pushed ts t hs -> Z.of_nat (length hs) = mmr_size (leaves ts + 1) - mmr_size (leaves ts).
Proof.
  intros Hp. apply (f_equal length) in Hp. rewrite !length_fmap, length_seq in Hp.
  pose proof (mmr_size_lt (leaves ts) (leaves ts + 1) ltac:(unfold leaves; lia)). lia.
Qed.

Lemma append_repr p ts t hs b :
  repr p ts -> leaves ts + 1 < 2 ^ 60 -> mmr_size (leaves ts + 1) < be_cap -> pushed ts t hs ->
  be_append (backend p) t hs = Ok b ->
  repr (mkPMMR (mmr_size (leaves ts + 1)) b) (ts ++ [t]).
Proof.
  intros ([Hsize Hcap Hagree Hpeaks] & Hok & Hbs) Hcap' Hbc Hp Happ.
  assert (be_size (backend p) + Z.of_nat (length hs) < be_cap) as Hroom.
  { rewrite Hbs, Hsize, (pushed_length _ _ _ Hp). lia. }
  destruct (append_spec _ _ _ _ Hok Hroom Happ) as (Hok' & Hbs' & Hold & Hnew).
  assert (0 <= leaves ts) as Hn by (unfold leaves; lia).
  assert (forall m j, is_node m j -> m < leaves ts ->
    be_get_from_file b (pos_of m j) = be_get_from_file (backend p) (pos_of m j)) as Hsame.
  { intros m j Hm Hlt. apply Hold. rewrite Hbs, Hsize. split; [by apply pos_of_pos|].
    by apply pos_of_in_range. }
  assert (forall m j, is_node m j -> m = leaves ts ->
    be_get_from_file b (pos_of m j) = node_hash (ts ++ [t]) (Z.to_nat j) m) as Hlast.
  { intros m j Hm ->. destruct (pushed_lookup _ _ _ _ _ Hp eq_refl Hm) as [Eh [v Ev]].
    rewrite <- Eh, Ev. rewrite <- (Hnew _ _ Ev). f_equal. rewrite Hbs, Hsize. unfold pos_of.
    destruct Hm as (_ & Hj & _). lia. }
  split; [|split; [done|]]; cycle 1.
  { cbn [last_pos backend]. rewrite Hbs', Hbs, Hsize, (pushed_length _ _ _ Hp). lia. }
  constructor; cbn [last_pos backend]; rewrite ?leaves_snoc; [done|lia| |].
  - intros m j v Hm Hlt Hv. destruct (Z.eq_dec m (leaves ts)) as [->|].
    + by rewrite <- Hlast.
    + rewrite Hsame in Hv by (done || lia). rewrite node_hash_app by (done || lia).
      apply Hagree; [done|lia|done].
  - intros m j Hm Hlt. destruct (Z.eq_dec m (leaves ts)) as [->|].
    + rewrite Hlast by done. apply node_hash_some; [done|]. rewrite leaves_snoc. lia.
    + rewrite Hsame by (done || lia). apply Hpeaks; [done|lia].
Qed.

Lemma push_repr p ts t pos p' :
  repr p ts -> leaves ts + 1 < 2 ^ 60 -> mmr_size (leaves ts + 1) < be_cap ->
  push p t = Ok (pos, p') ->
  pos = insertion_to_pmmr_index (leaves ts + 1) /\ repr p' (ts ++ [t]).
Proof.
  intros Hr Hcap Hbc Hok. destruct (push_appends p ts t Hr) as (hs & Hp & Hpush).
  rewrite Hpush in Hok. inv_ok. simplify_eq. split; [done|]. by eapply append_repr.
Qed.

(** ** Rewinding *)

(** The scan for the end of the range climbs from a node to the top of its leaf. *)
Lemma rewind_scan fuel n h :
  is_node n h -> 1 <= h -> n < 2 ^ 60 -> 64 <= h + Z.of_nat fuel ->
  while fuel (fun pos => bintree_postorder_height (pos +! 1) >? 0) (fun pos => pos +! 1)
    (mmr_size n + h) = mmr_size (n + 1).
Proof.
  revert h. induction fuel as [|fuel IHf]; intros h Hnode Hh Hn Hf;
    pose proof (pos_of_le n h Hnode); pose proof (height_lt n h 62 Hnode ltac:(lia)).
  - lia.
  - cbn [while]. pose proof Hnode as (Hn0 & _ & _). pose proof (mmr_size_ge n Hn0).
    rewrite u64_add_small by (unfold is_u64, pos_of in *; lia).
    change (mmr_size n + h + 1) with (pos_of n h). rewrite height_pos by (done || lia).
    destruct (Z.gtb_spec h 0); [|lia].
    destruct (Z.testbit n h) eqn:Hb.
    + rewrite <- (IHf (h + 1)) by (done || lia || by apply is_node_up). f_equal. unfold pos_of. lia.
    + rewrite (top_closes n h Hnode Hb). destruct fuel as [|fuel]; [lia|]. cbn [while].
      pose proof (mmr_size_ge (n + 1) ltac:(lia)).
      rewrite u64_add_small by (unfold is_u64; lia).
      replace (mmr_size (n + 1) + 1) with (pos_of (n + 1) 0) by (unfold pos_of; lia).
      rewrite height_pos; [done|apply is_node_leaf; lia|unfold pos_of; lia].
Qed.

Lemma rewind_pos_leaves pos :
  0 <= pos < 2 ^ 60 -> rewind_pos pos = mmr_size (n_leaves pos).
Proof.
  intros Hpos. destruct (pos_of_surj (pos + 1) ltac:(lia)) as (n & h & Hnode & Ep).
  pose proof Hnode as (Hn & Hh & _). pose proof (mmr_size_ge n Hn).
  assert (pos = mmr_size n + h) as -> by (unfold pos_of in Ep; lia).
  rewrite n_leaves_size by (done || lia). unfold rewind_pos.
  destruct (Z.eqb_spec h 0) as [->|].
  - rewrite Z.add_0_r. cbn [while].
    rewrite u64_add_small by (unfold is_u64; lia).
    replace (mmr_size n + 1) with (pos_of n 0) by (unfold pos_of; lia).
    by rewrite height_pos by (done || unfold pos_of; lia).
  - apply rewind_scan; [done|lia|lia|lia].
Qed.

Lemma rewound_view p ts k b :
  viewed p ts -> 0 <= k <= leaves ts -> peaks_kept p k ->
  (forall q, 1 <= q <= mmr_size k -> be_get_from_file b q = be_get_from_file (backend p) q) ->
  viewed (mkPMMR (mmr_size k) b) (take (Z.to_nat k) ts).
Proof.
  intros [Hsize Hcap Hagree _] Hk Hkept Hq.
  assert (leaves (take (Z.to_nat k) ts) = k) as El.
  { unfold leaves in *. rewrite length_take. lia. }
  assert (forall m j, is_node m j -> m < k ->
    be_get_from_file b (pos_of m j) = be_get_from_file (backend p) (pos_of m j)) as Hsame.
  { intros m j Hm Hlt. apply Hq. split; [by apply pos_of_pos|]. apply pos_of_in_range; [done|lia|done]. }
  constructor; cbn [last_pos backend]; rewrite ?El; [done|lia| |].
  - intros m j v Hm Hlt Hv. rewrite Hsame in Hv by done.
    rewrite node_hash_take by done. apply Hagree; [done|lia|done].
  - intros m j Hm Hlt. rewrite Hsame by (done || lia). by apply Hkept.
Qed.

(** ** The root *)
Lemma elem_of_peaks_node n q :
  1 <= n < 2 ^ 60 -> q ∈ Pos.peaks (mmr_size n) <->
  exists m j, is_node m j /\ m < n <= parent_leaf m j /\ q = pos_of m j.
Proof.
  intros Hn. pose proof (mmr_size_ge n ltac:(lia)).
  rewrite elem_of_peaks_family by lia. split.
  - intros [Hq Hf]. destruct (pos_of_surj q ltac:(lia)) as (m & j & Hm & ->).
    rewrite family_node in Hf by (done || lia). cbn [fst] in Hf. exists m, j.
    pose proof (pos_of_in_range m j n Hm ltac:(lia)).
    pose proof (pos_of_in_range _ _ n (parent_node m j Hm) ltac:(lia)). split_and!; [done|lia|lia|done].
  - intros (m & j & Hm & Hr & ->). pose proof (pos_of_pos m j Hm).
    pose proof (pos_of_in_range m j n Hm ltac:(lia)).
    pose proof (pos_of_in_range _ _ n (parent_node m j Hm) ltac:(lia)).
    rewrite family_node by (done || lia). cbn [fst]. lia.
Qed.

(** The file answers at a peak with the hash of the abstract range. *)
Lemma peak_read p ts q :
  viewed p ts -> q ∈ Pos.peaks (last_pos p) ->
  be_get_from_file (backend p) q = hash_at ts q /\ is_Some (hash_at ts q).
Proof.
  intros [Hsize Hcap Hagree Hpeaks] Hq. rewrite Hsize in Hq.
  destruct (Z.eq_dec (leaves ts) 0) as [E0|].
  { rewrite E0, mmr_size_0 in Hq. by apply elem_of_nil in Hq. }
  apply elem_of_peaks_node in Hq as (m & j & Hm & Hr & ->); [|unfold leaves in *; lia].
  destruct (Hpeaks m j Hm Hr) as [v Hv].
  pose proof (Hagree m j v Hm ltac:(lia) Hv).
  pose proof (node_room m j (leaves ts) Hm ltac:(lia) Hcap).
  rewrite hash_at_node by (done || lia). by rewrite Hv; eauto.
Qed.

Lemma peaks_read p ts : viewed p ts -> Pmmr.peaks p = omap (hash_at ts) (Pos.peaks (last_pos p)).
Proof. intros Hr. apply omap_ext_elem. intros q Hq. by apply peak_read. Qed.

Lemma bag_some size r l : is_Some r \/ l <> [] -> is_Some (foldl (bag_step size) r l).
Proof.
  revert r. induction l as [|x l IHl]; intros r [Hr|Hl]; simpl; try done;
    apply IHl; left; destruct r; simpl; eauto.
Qed.

Lemma range_root_some ts :
  1 <= leaves ts < 2 ^ 60 -> is_Some (range_root ts).
Proof.
  intros Hn. apply bag_some. right. intros E0.
  apply (f_equal (@rev H)) in E0. rewrite rev_involutive in E0. simpl in E0. revert E0.
  pose proof (summit_node (leaves ts) (Z.log2 (leaves ts)) ltac:(lia) (Z.log2_nonneg _)
    (Z.bit_log2 (leaves ts) ltac:(lia))) as Hs.
  cbv zeta in Hs. destruct Hs as (Hm & _ & Hb & Hr).
  set (j := Z.log2 (leaves ts)) in *. set (m := leaves ts / 2 ^ j * 2 ^ j - 1) in *.
  pose proof (node_room m j (leaves ts) Hm ltac:(lia) ltac:(lia)).
  apply (omap_nonempty _ _ (pos_of m j)).
  - apply elem_of_peaks_node; [done|]. exists m, j. unfold parent_leaf. rewrite Hb.
    split_and!; [done|lia|lia|done].
  - rewrite hash_at_node by (done || lia). apply node_hash_some; [done|lia].
Qed.

Lemma is_empty_repr p ts : viewed p ts -> is_empty p = (leaves ts =? 0).
Proof.
  intros [Hsize _ _ _]. unfold is_empty. rewrite Hsize.
  pose proof (mmr_size_ge (leaves ts) ltac:(unfold leaves; lia)).
  destruct (Z.eqb_spec (leaves ts) 0) as [->|]; [done|]. apply Z.eqb_neq. lia.
Qed.

(** The bagged peaks of the file are the root of the abstract range. *)
Lemma bagged_root p ts :
  viewed p ts -> foldl (bag_step (unpruned_size p)) None (rev (Pmmr.peaks p)) = range_root ts.
Proof.
  intros Hr. rewrite (peaks_read p ts Hr). unfold unpruned_size, range_root.
  by rewrite (repr_size _ _ Hr).
Qed.

Lemma root_view p ts :
  viewed p ts ->
  root p = Ok (default ZERO_HASH (range_root ts)) /\
  rewindable_root p = Ok (default ZERO_HASH (range_root ts)).
Proof.
  intros Hr. unfold root, rewindable_root. rewrite (is_empty_repr p ts Hr).
  destruct (Z.eqb_spec (leaves ts) 0) as [E0|].
  - unfold range_root. by rewrite E0.
  - rewrite (bagged_root p ts Hr).
    destruct (range_root_some ts) as [v ->]; [|done].
    destruct Hr as [_ Hcap _ _]. unfold leaves in *. lia.
Qed.

(** ** Validation *)

(** Every parent whose children are in the file has the hash of its children. *)
Definition hashes_consistent p : Prop :=
  forall n h v l r, is_node n (h + 1) -> 0 <= h -> pos_of n (h + 1) <= last_pos p ->
    be_get_from_file (backend p) (pos_of n (h + 1)) = Some v ->
    be_get_from_file (backend p) (pos_of (n - 2 ^ h) h) = Some l ->
    be_get_from_file (backend p) (pos_of n h) = Some r ->
    v = pair_hash (l, r) (pos_of n (h + 1) - 1).

Lemma validate_from_spec p n count :
  validate_from p n count = Ok tt <->
  forall i, n <= i < n + Z.of_nat count -> validate_at p i = Ok tt.
Proof.
  revert n. induction count as [|count IHc]; intros n; cbn [validate_from].
  - split; [intros _ i Hi; lia|done].
  - split.
    + intros Hv i Hi. inv_ok. destruct (Z.eq_dec i n) as [->|]; [done|].
      apply (proj1 (IHc (n + 1)) Hv). lia.
    + intros Hall. rewrite (Hall n) by lia. cbn [bind]. apply IHc. intros i Hi. apply Hall. lia.
Qed.

Lemma read_in_range p pos : pos <= last_pos p -> get_from_file p pos = be_get_from_file (backend p) pos.
Proof. intros. unfold get_from_file. rewrite Z.gtb_ltb. by destruct (Z.ltb_spec (last_pos p) pos); [lia|]. Qed.

Lemma get_hash_node p n h :
  is_node n h -> 1 <= h -> pos_of n h <= last_pos p < 2 ^ 62 ->
  get_hash p (pos_of n h) = be_get_from_file (backend p) (pos_of n h).
Proof.
  intros Hnode Hh Hr. unfold get_hash, is_leaf. rewrite height_pos by (done || lia).
  rewrite Z.gtb_ltb. destruct (Z.ltb_spec (last_pos p) (pos_of n h)); [lia|].
  by destruct (Z.eqb_spec h 0); [lia|].
Qed.

Lemma validate_at_node p n h :
  is_node n (h + 1) -> 0 <= h -> pos_of n (h + 1) <= last_pos p < 2 ^ 62 ->
  validate_at p (pos_of n (h + 1)) =
  match be_get_from_file (backend p) (pos_of n (h + 1)),
        be_get_from_file (backend p) (pos_of (n - 2 ^ h) h),
        be_get_from_file (backend p) (pos_of n h) with
  | Some v, Some l, Some r =>
      if decide (pair_hash (l, r) (pos_of n (h + 1) - 1) = v) then Ok tt
      else Err (InvalidParentHash (pos_of n (h + 1)))
  | _, _, _ => Ok tt
  end.
Proof.
  intros Hnode Hh Hr. destruct (is_node_children n h Hnode Hh) as (Hn & Hl & Hb).
  pose proof (pos_of_pos n h Hn). pose proof (pos_of_pos _ h Hl).
  pose proof (walk_room n h Hn ltac:(unfold pos_of in *; lia)) as (Hh' & Hr2 & E2).
  pose proof (family_positions n h Hn) as Hf. rewrite Hb in Hf. destruct Hf as [_ Hs].
  unfold sibling_leaf in Hs. rewrite Hb in Hs.
  assert (pos_of n (h + 1) = pos_of n h + 1) as Ep by (unfold pos_of; lia).
  unfold validate_at. rewrite height_pos by (done || lia).
  destruct (Z.gtb_spec (h + 1) 0); [|lia]. rewrite get_hash_node by (done || lia).
  assert (h + 1 < 64) by lia.
  rewrite u64_shl_small by (unfold is_u64; lia). rewrite Z.mul_1_l.
  rewrite !u64_sub_small by (unfold is_u64; lia).
  replace (pos_of n (h + 1) - 2 ^ (h + 1)) with (pos_of (n - 2 ^ h) h) by lia.
  replace (pos_of n (h + 1) - 1) with (pos_of n h) by lia.
  rewrite !read_in_range by lia.
  by repeat case_match.
Qed.

Lemma validate_at_leaf p n : 0 <= n -> pos_of n 0 < 2 ^ 64 -> validate_at p (pos_of n 0) = Ok tt.
Proof.
  intros Hn Hlt. unfold validate_at. rewrite height_pos by (done || by apply is_node_leaf). done.
Qed.

Lemma view_consistent p ts : viewed p ts -> hashes_consistent p.
Proof.
  intros [Hsize Hcap Hagree _] n h v l r Hnode Hh Hr Hv Hl Hrt.
  destruct (is_node_children n h Hnode Hh) as (Hn & Hln & _).
  assert (0 < 2 ^ h) by (apply Z.pow_pos_nonneg; lia).
  rewrite Hsize in Hr. apply pos_of_in_range in Hr; [|done|unfold leaves; lia].
  apply Hagree in Hv; [|done..]. apply Hagree in Hl; [|done|lia]. apply Hagree in Hrt; [|done..].
  rewrite node_hash_S, Hl, Hrt in Hv by done. by simplify_eq.
Qed.

(** ** The properties of the range *)

(** C30. [push] refines appending to the list of leaves: on a range that holds
    the leaves [ts] it asks the backend to append exactly the hashes of the
    nodes the new leaf completes (its own first, then each parent), it fails
    only when that append fails, it returns the position the insertion index
    says, and the new range holds [ts ++ [t]]. *)
Theorem push_refines p ts t :
  repr p ts -> leaves ts + 1 < 2 ^ 60 -> mmr_size (leaves ts + 1) < be_cap ->
  (exists hs, pushed ts t hs /\
     push p t = (let? b := be_append (backend p) t hs in
                 Ok (insertion_to_pmmr_index (leaves ts + 1),
                     mkPMMR (mmr_size (leaves ts + 1)) b))) /\
  (forall pos p', push p t = Ok (pos, p') ->
     pos = insertion_to_pmmr_index (leaves ts + 1) /\ repr p' (ts ++ [t])).
Proof.
  intros Hr Hcap Hbc. split; [by apply push_appends|].
  intros pos p' Hok. by apply (push_repr p ts t pos p').
Qed.

(** C31. [root] of a view that holds [ts] is a function of [ts] alone (however
    much of the range is pruned away), it never panics and the rewindable view
    computes the same root without its error. *)
Theorem root_refines p ts :
  viewed p ts ->
  root p = Ok (default ZERO_HASH (range_root ts)) /\
  rewindable_root p = Ok (default ZERO_HASH (range_root ts)) /\
  (1 <= leaves ts -> is_Some (range_root ts)).
Proof.
  intros Hr. destruct (root_view p ts Hr) as [H1 H2]. split_and!; [done..|].
  intros Hl. apply range_root_some. pose proof (repr_cap _ _ Hr). lia.
Qed.

Lemma n_leaves_nonneg pos : 0 <= pos < 2 ^ 60 -> 0 <= n_leaves pos.
Proof.
  intros Hpos. destruct (pos_of_surj (pos + 1) ltac:(lia)) as (n & h & Hnode & Ep).
  pose proof Hnode as (Hn & Hh & _). unfold pos_of in Ep.
  replace pos with (mmr_size n + h) in * by lia.
  rewrite n_leaves_size by (done || lia). case_match; lia.
Qed.

(** C32. [rewind] to any position of the first [k] leaves' family (the size
    after leaf [k], or a position inside it) truncates the backend at the size
    of exactly [k] leaves, and if the peaks of that size are still in the file
    the result holds the first [k] leaves: its root is the root the range had
    when it held them.  [RewindablePMMR] gets the same root without touching
    the backend. *)
Theorem rewind_refines p ts position bm k :
  repr p ts -> 0 <= position < 2 ^ 60 -> n_leaves position = k -> k <= leaves ts ->
  peaks_kept p k -> be_rewindable (backend p) (mmr_size k) ->
  let root_k := Ok (default ZERO_HASH (range_root (take (Z.to_nat k) ts))) in
  rewind p position bm =
    (let? b := be_rewind (backend p) (mmr_size k) bm in Ok (mkPMMR (mmr_size k) b)) /\
  (forall p', rewind p position bm = Ok p' ->
     repr p' (take (Z.to_nat k) ts) /\ root p' = root_k) /\
  rewindable_root (rewindable_rewind p position) = root_k.
Proof.
  intros (Hv & Hok & Hbs) Hpos Hk Hle Hkept Hrw root_k. unfold rewind, rewindable_rewind.
  pose proof (n_leaves_nonneg position Hpos). rewrite rewind_pos_leaves, Hk by done.
  pose proof (mmr_size_le k (leaves ts) ltac:(lia)). pose proof (mmr_size_ge k ltac:(lia)).
  pose proof (repr_size _ _ Hv) as Hsize. split_and!; [done| |].
  - intros p' Hp'. inv_ok. subst p'.
    destruct (rewind_spec _ (mmr_size k) _ _ Hok ltac:(rewrite Hbs, Hsize; lia) Hrw Hok0) as (Hok' & Hbs' & Hq).
    pose proof (rewound_view p ts k a Hv ltac:(lia) Hkept Hq) as Hv'.
    split; [by split_and!|]. by apply root_view.
  - apply root_view. by apply (rewound_view p ts k); [|lia|..].
Qed.

(** [validate] succeeds exactly when every parent in the range whose own
    hash and whose children's hashes are in the file is the hash of its
    children; a range built by the operations passes it. *)
Theorem validate_correct p :
  0 <= last_pos p < 2 ^ 61 ->
  (validate p = Ok tt <-> hashes_consistent p) /\
  (forall ts, viewed p ts -> validate p = Ok tt).
Proof.
  intros Hl. assert (validate p = Ok tt <-> hashes_consistent p) as Hiff.
  { unfold validate. rewrite validate_from_spec. split.
    - intros Hall n h v l r Hnode Hh Hr Hv Hlh Hrh. pose proof (pos_of_pos _ _ Hnode).
      specialize (Hall (pos_of n (h + 1)) ltac:(lia)).
      rewrite validate_at_node, Hv, Hlh, Hrh in Hall by (done || lia). by case_decide.
    - intros Hc i Hi. destruct (pos_of_surj i ltac:(lia)) as (n & h & Hnode & ->).
      pose proof Hnode as (Hn & Hh & _). destruct (Z.eq_dec h 0) as [->|].
      { apply validate_at_leaf; [done|lia]. }
      replace h with (h - 1 + 1) in * by lia. rewrite validate_at_node by (done || lia).
      repeat case_match; try done. exfalso.
      match goal with Hne : _ <> _ |- _ => apply Hne end. symmetry. eapply Hc; eauto; lia. }
  split; [done|]. intros ts Hv. apply Hiff. by eapply view_consistent.
Qed.

(** [prune] refuses a position that is not a leaf, reports [false] and
    changes nothing when the leaf is already gone, and otherwise removes it from
    the backend and reports [true]; in every case the range still holds the same
    leaves and keeps its root. *)
Theorem prune_refines p ts position :
  repr p ts ->
  (is_leaf position = false -> prune p position = Err (CantPrune position)) /\
  (is_leaf position = true -> be_get_hash (backend p) position = None ->
     prune p position = Ok (false, p)) /\
  (is_leaf position = true -> is_Some (be_get_hash (backend p) position) ->
     prune p position =
       (let? b := be_remove (backend p) position in Ok (true, mkPMMR (last_pos p) b))) /\
  (forall d p', prune p position = Ok (d, p') -> repr p' ts /\ root p' = root p).
Proof.
  intros Hr. unfold prune. split_and!.
  - by intros ->.
  - by intros -> ->.
  - by intros -> [v ->].
  - intros d p' Hp. destruct (is_leaf position); [|done]. cbn [negb] in Hp.
    destruct (be_get_hash (backend p) position); [|by simplify_eq].
    inv_ok. simplify_eq. pose proof Hr as (Hv & Hbok & Hbs).
    destruct (remove_spec _ _ _ Hbok Hok) as (Hok' & Hbs' & Hq).
    assert (viewed (mkPMMR (last_pos p) a) ts) as Hv'.
    { destruct Hv as [Hs Hc Ha Hp]. constructor; cbn [last_pos backend]; [done|done| |].
      - intros n j v. rewrite Hq. apply Ha.
      - intros n j. cbn [backend]. rewrite Hq. apply Hp. }
    split; [split_and!; [done..|]; cbn [last_pos backend]; congruence|].
    by rewrite (proj1 (root_view _ _ Hv')), (proj1 (root_view _ _ Hv)).
Qed.

End Refinement.
