(* ===== verification/MerkleProof.v ===== *)
(** * Merkle proofs

    [core/src/core/merkle_proof.rs]: verification of the proofs that
    [PMMR::merkle_proof] builds, and the theorem that they verify. *)
From S2P Require Import Prelude PmmrIndex Pmmr PmmrRefine.
Import Pos Node Spec Theorems.

(** [MerkleProofError]. *)
Inductive MerkleProofError : Type := RootMismatch.

Section Verify.
Context {T H : Type} `{!EqDecision H} {IH : IndexHash T H}.

(** [verify_consume] through [verify]: the element is its [hash_with_index], the
    proof's path shrinks by one hash per call and [mmr_size] never changes. *)
Fixpoint verify_consume (path : list H) (mmr_size : Z) (root : H) (element : Z -> H)
    (node_pos : Z) : outcome MerkleProofError () :=
  let peaks_pos := Pos.peaks mmr_size in
  let node_hash := if node_pos >? mmr_size then element mmr_size
                   else element (node_pos -! 1) in
  match path with
  | [] => if decide (root = node_hash) then Ok tt else Err RootMismatch
  | sibling :: path =>
      let '(parent_pos, sibling_pos) := family node_pos in
      let parent :=
        match binary_search_by (fun y => Z.compare y node_pos) peaks_pos with
        | Ok x =>
            if (x =? length peaks_pos - 1)%nat then (sibling, node_hash)
            else (node_hash, sibling)
        | _ =>
            if parent_pos >? mmr_size then (sibling, node_hash)
            else if is_left_sibling sibling_pos then (sibling, node_hash)
            else (node_hash, sibling)
        end in
      verify_consume path mmr_size root (pair_hash parent) parent_pos
  end.

Definition verify (proof : MerkleProof H) (root : H) (element : T) (node_pos : Z)
    : outcome MerkleProofError () :=
  verify_consume (proof_path proof) (mmr_size_of proof) root (leaf_hash element) node_pos.

End Verify.

(** ** Splitting the peaks at one of them *)
Lemma sorted_split (l : list Z) q :
  StronglySorted Z.lt l -> q ∈ l ->
  l = filter (fun x => x < q) l ++ q :: filter (fun x => x > q) l.
Proof.
  intros Hs. induction Hs as [|x l Hs IH Hx]; intros Hq; [by apply elem_of_nil in Hq|].
  rewrite Forall_forall in Hx. rewrite !filter_cons. apply elem_of_cons in Hq as [->|Hq].
  - rewrite !decide_False by lia. rewrite filter_none, filter_all; [done|..];
      intros y Hy; specialize (Hx y Hy); lia.
  - specialize (Hx q Hq). rewrite decide_True, decide_False by lia. simpl. f_equal. by apply IH.
Qed.


Lemma peaks_sorted n : 1 <= n < 2 ^ 60 -> StronglySorted Z.lt (Pos.peaks (mmr_size n)).
Proof.
  intros Hn. pose proof (mmr_size_ge n ltac:(lia)).
  destruct (peaks_summits n 0 (is_node_leaf n ltac:(lia)) ltac:(lia)) as [k Hk].
  rewrite Z.add_0_r in Hk. rewrite Hk. apply summits_sorted. intros s. apply mountains_pos.
Qed.

Lemma peaks_NoDup n : 1 <= n < 2 ^ 60 -> NoDup (Pos.peaks (mmr_size n)).
Proof.
  intros Hn. induction (peaks_sorted n Hn) as [|x l Hs IHs Hx]; constructor; [|done].
  intros Hin. rewrite Forall_forall in Hx. specialize (Hx x Hin). lia.
Qed.

Lemma search_peaks n q :
  1 <= n < 2 ^ 60 ->
  match binary_search_by (fun y => Z.compare y q) (Pos.peaks (mmr_size n)) with
  | Ok i => Pos.peaks (mmr_size n) !! i = Some q
  | _ => q ∉ Pos.peaks (mmr_size n)
  end.
Proof.
  intros Hn. pose proof (binary_search_by_spec _ _ (probe_sorted_Z q _ (peaks_sorted n Hn))) as Hs.
  destruct (binary_search_by _ _) as [i|i|]; [| |done].
  - destruct Hs as (a & Ha & ->%Z.compare_eq_iff). done.
  - destruct Hs as [_ Hs]. intros (j & Hj)%list_elem_of_lookup_1.
    specialize (Hs j q Hj). rewrite Z.compare_refl in Hs. by case_match.
Qed.

(** The coordinates of a peak are determined by its height. *)
Lemma peak_coords n m j :
  is_node m j -> m < n <= parent_leaf m j ->
  m + 1 = n / 2 ^ j * 2 ^ j /\ n <= m + 2 ^ j /\ Z.testbit m j = false /\
  pos_of m j = mmr_size (n / 2 ^ j * 2 ^ j).
Proof.
  intros Hm Hr. pose proof Hm as (Hm0 & Hj & _).
  assert (Z.testbit m j = false) as Hb.
  { unfold parent_leaf in Hr. destruct (Z.testbit m j); [lia|done]. }
  unfold parent_leaf in Hr. rewrite Hb in Hr.
  assert (0 < 2 ^ j) by (apply Z.pow_pos_nonneg; lia).
  destruct (is_node_split m j Hm) as (q & Hq & Em).
  assert (n / 2 ^ j = q + 1) as Eq.
  { symmetry. apply Z.div_unique with (r := n - (q + 1) * 2 ^ j); lia. }
  assert (m + 1 = n / 2 ^ j * 2 ^ j) as E1 by (rewrite Eq; lia).
  split_and!; [done|lia|done|]. rewrite <- E1. by apply top_closes.
Qed.

Lemma higher_peak_left n m j m' j' :
  is_node m j -> is_node m' j' -> m < n <= parent_leaf m j -> m' < n <= parent_leaf m' j' ->
  pos_of m' j' < pos_of m j -> j < j'.
Proof.
  intros Hm Hm' Hr Hr' Hlt. pose proof (peak_coords n m j Hm Hr) as (E1 & Hu & Hb & Ep).
  pose proof (peak_coords n m' j' Hm' Hr') as (E1' & Hu' & Hb' & Ep').
  destruct (Z.lt_ge_cases j j') as [|Hle]; [done|]. exfalso.
  pose proof Hm as (Hm0 & Hj & _). pose proof Hm' as (Hm0' & Hj' & _).
  rewrite Ep, Ep', <- E1, <- E1' in Hlt.
  assert (m' < m) as Hmm.
  { destruct (Z.lt_ge_cases m' m); [done|]. pose proof (mmr_size_le (m + 1) (m' + 1)). lia. }
  assert (0 < 2 ^ j') by (apply Z.pow_pos_nonneg; lia).
  assert (2 ^ j = 2 ^ (j - j') * 2 ^ j') as Epow by (rewrite <- Z.pow_add_r by lia; f_equal; lia).
  rewrite Epow in E1.
  assert (m - m' = (n / (2 ^ (j - j') * 2 ^ j') * 2 ^ (j - j') - n / 2 ^ j') * 2 ^ j') as Ed by lia.
  set (d := _ - _) in Ed at 2. assert (1 <= d) by nia. nia.
Qed.

(** At most as many peaks to the left as there are greater heights. *)
Lemma left_peaks_length n m j :
  1 <= n < 2 ^ 60 -> is_node m j -> m < n <= parent_leaf m j ->
  Z.of_nat (length (filter (fun x => x < pos_of m j) (Pos.peaks (mmr_size n)))) + j <= 59.
Proof.
  intros Hn Hm Hr. pose proof Hm as (Hm0 & Hj & _).
  assert (forall a i, is_node a i -> a < n -> i <= 59) as Hheight.
  { intros a i Ha Hlt. pose proof (pos_of_le a i Ha). pose proof (pos_of_ge a i Ha) as Hge.
    pose proof Ha as (_ & Hi & _). destruct (Z.le_gt_cases i 59); [done|].
    pose proof (Z.pow_le_mono_r 2 61 (i + 1)). lia. }
  pose proof (Hheight m j Hm ltac:(lia)).
  set (heights := (fun i => mmr_size (n / 2 ^ i * 2 ^ i)) <$> seqZ (j + 1) (59 - j)).
  set (left_peaks := filter (fun x => x < pos_of m j) (Pos.peaks (mmr_size n))).
  assert (length left_peaks <= length heights)%nat.
  - apply submseteq_length, NoDup_submseteq.
    + by apply NoDup_filter, peaks_NoDup.
    + intros q [Hq Hin]%list_elem_of_filter. apply elem_of_peaks_node in Hin as (m' & j' & Hm' & Hr' & ->); [|done].
      pose proof (higher_peak_left n m j m' j' Hm Hm' Hr Hr' Hq).
      pose proof (Hheight m' j' Hm' ltac:(lia)).
      apply list_elem_of_fmap. exists j'. split; [by apply peak_coords|]. apply elem_of_seqZ. lia.
  - unfold heights in *. rewrite length_fmap, length_seqZ in *. lia.
Qed.

(** ** Verification of the proofs the range builds *)
Section Completeness.
Context {T H E B : Type} `{!EqDecision H} {IH : IndexHash T H} {BE : Backend T H E B}.
Implicit Types (p : PMMR B) (ts : list T).

(** Once above the peaks, the rest of the path is bagged at the size of the range. *)
Lemma verify_bag n path root el m j v :
  1 <= n < 2 ^ 60 -> is_node m j -> mmr_size n < pos_of m j -> m < 2 ^ 60 + 2 ^ j ->
  j + Z.of_nat (length path) <= 60 -> el (mmr_size n) = v ->
  verify_consume path (mmr_size n) root el (pos_of m j) =
  if decide (root = foldl (fun acc s => pair_hash (s, acc) (mmr_size n)) v path)
  then Ok tt else Err RootMismatch.
Proof.
  intros Hn. revert el m j v. induction path as [|s path IHp]; intros el m j v Hm Hpos Hbd Hlen Hel;
    cbn [verify_consume].
  - rewrite Z.gtb_ltb. destruct (Z.ltb_spec (mmr_size n) (pos_of m j)); [|lia]. by rewrite Hel.
  - rewrite Z.gtb_ltb. destruct (Z.ltb_spec (mmr_size n) (pos_of m j)); [|lia]. rewrite Hel.
    pose proof Hm as (_ & Hj & _). cbn [length] in Hlen.
    assert (2 ^ j <= 2 ^ 59) by (apply Z.pow_le_mono_r; lia).
    pose proof (pos_of_le m j Hm). rewrite family_node by (done || lia).
    pose proof (pos_of_parent_lt m j Hm). rewrite Z.gtb_ltb.
    destruct (Z.ltb_spec (mmr_size n) (pos_of (parent_leaf m j) (j + 1))); [|lia].
    pose proof (search_peaks n (pos_of m j) Hn) as Hs.
    destruct (binary_search_by _ _) as [i|i|].
    1: { apply list_elem_of_lookup_2, elem_of_peaks_node in Hs as (a & b & Ha & Hr & E1); [|done].
         pose proof (proj2 (pos_of_in_range a b n Ha ltac:(lia)) ltac:(lia)). lia. }
    all: rewrite (IHp _ _ _ (pair_hash (s, v) (mmr_size n)));
      [done|by apply parent_node|lia| |lia|done].
    all: rewrite pow2_succ by done; unfold parent_leaf; destruct (Z.testbit m j); lia.
Qed.

(** The peaks of the range around one of them. *)
Definition left_hashes p (q : Z) : list H :=
  omap (be_get_from_file (backend p)) (filter (fun x => x < q) (Pos.peaks (last_pos p))).

Lemma bag_left size r (l : list H) :
  foldl (bag_step size) (Some r) l = Some (foldl (fun acc s => pair_hash (s, acc) size) r l).
Proof. revert r. induction l as [|x l IHl]; intros r; simpl; [done|apply IHl]. Qed.

(** The whole bag, split at the peak [q]. *)
Lemma bag_split p ts q v :
  viewed p ts -> q ∈ Pos.peaks (last_pos p) -> hash_at ts q = Some v -> 1 <= leaves ts ->
  range_root ts = Some (foldl (fun acc s => pair_hash (s, acc) (last_pos p))
    (match bag_the_rhs p q with
     | Some r => pair_hash (v, r) (last_pos p)
     | None => v
     end) (rev (left_hashes p q))).
Proof.
  intros Hv Hq Hh Hl. pose proof (repr_size _ _ Hv) as Hs. pose proof (repr_cap _ _ Hv) as Hc.
  rewrite <- (bagged_root p ts Hv). unfold Pmmr.peaks, bag_the_rhs, unpruned_size, left_hashes.
  assert (StronglySorted Z.lt (Pos.peaks (last_pos p))) as Hsort.
  { rewrite Hs. by apply peaks_sorted. }
  rewrite (sorted_split _ q Hsort Hq) at 1. rewrite omap_app.
  cbn [omap list_omap]. destruct (peak_read p ts q Hv Hq) as [-> _]. rewrite Hh.
  rewrite rev_app_distr. cbn [rev]. rewrite !foldl_app. cbn [foldl].
  destruct (foldl _ None (rev (omap _ (filter (fun x => x > q) _)))) as [r|];
    cbn [bag_step]; by rewrite bag_left.
Qed.

Lemma bag_rhs_some p ts q :
  viewed p ts -> filter (fun x => x > q) (Pos.peaks (last_pos p)) <> [] ->
  is_Some (bag_the_rhs p q).
Proof.
  intros Hv Hne. apply bag_some. right. intros E0. apply (f_equal (@rev H)) in E0.
  rewrite rev_involutive in E0. simpl in E0. revert E0.
  destruct (filter _ _) as [|x l] eqn:Ef; [done|]. apply (omap_nonempty _ _ x); [by left|].
  assert (x ∈ filter (fun x => x > q) (Pos.peaks (last_pos p))) as Hx by (rewrite Ef; by left).
  apply list_elem_of_filter in Hx as [_ Hx].
  by destruct (peak_read p ts x Hv Hx) as [-> ?].
Qed.

(** Where the search finds the peak [q]: last exactly when nothing is to its right. *)
Lemma search_peak p ts q :
  viewed p ts -> 1 <= leaves ts -> q ∈ Pos.peaks (last_pos p) ->
  exists i, binary_search_by (fun y => Z.compare y q) (Pos.peaks (last_pos p)) = Ok i /\
    (i =? length (Pos.peaks (last_pos p)) - 1)%nat =
      match bag_the_rhs p q with Some _ => false | None => true end.
Proof.
  intros Hv Hl Hq. pose proof (repr_size _ _ Hv) as Hs. pose proof (repr_cap _ _ Hv) as Hc.
  pose proof (search_peaks (leaves ts) q ltac:(lia)) as Hi. rewrite <- Hs in Hi.
  destruct (binary_search_by _ _) as [i| |]; [|done..]. exists i. split; [done|].
  pose proof (sorted_split (Pos.peaks (last_pos p)) q ltac:(rewrite Hs; by apply peaks_sorted) Hq) as Hsp.
  set (L := filter (fun x => x < q) _) in *. set (R := filter (fun x => x > q) _) in *.
  assert (i = length L) as ->.
  { eapply (NoDup_lookup (Pos.peaks (last_pos p))); [rewrite Hs; by apply peaks_NoDup|done|].
    rewrite Hsp. by apply list_lookup_middle. }
  rewrite Hsp, length_app. cbn [length]. destruct (decide (R = [])) as [E0|Hne].
  - unfold bag_the_rhs. fold R. rewrite E0. cbn. apply Nat.eqb_eq. lia.
  - destruct (bag_rhs_some p ts q Hv Hne) as [r ->]. apply Nat.eqb_neq.
    destruct R; [done|]. cbn [length]. lia.
Qed.

Lemma verify_peak p ts root el m j v :
  viewed p ts -> is_node m j -> m < leaves ts <= parent_leaf m j ->
  el (pos_of m j - 1) = v -> node_hash ts (Z.to_nat j) m = Some v ->
  verify_consume (peak_path p (pos_of m j)) (last_pos p) root el (pos_of m j) =
  if decide (Some root = range_root ts) then Ok tt else Err RootMismatch.
Proof.
  intros Hv Hm Hr Hel Hh. pose proof (repr_size _ _ Hv) as Hs. pose proof (repr_cap _ _ Hv) as Hc.
  pose proof Hm as (Hm0 & Hj & _). pose proof (node_room m j (leaves ts) Hm ltac:(lia) Hc) as Hroom.
  assert (pos_of m j ∈ Pos.peaks (last_pos p)) as Hq.
  { rewrite Hs. apply elem_of_peaks_node; [lia|]. by exists m, j. }
  rewrite (bag_split p ts (pos_of m j) v Hv Hq) by (rewrite ?hash_at_node by (done || lia); done || lia).
  destruct (search_peak p ts _ Hv ltac:(lia) Hq) as (i & Hi & Hlast).
  pose proof (left_peaks_length (leaves ts) m j ltac:(lia) Hm Hr) as Hlen. rewrite <- Hs in Hlen.
  assert (length (left_hashes p (pos_of m j)) <=
    length (filter (λ x, (x < pos_of m j)%Z) (Pos.peaks (last_pos p))))%nat as Hlh.
  { unfold left_hashes. apply length_omap_le. }
  pose proof (proj2 (pos_of_in_range m j (leaves ts) Hm ltac:(lia)) ltac:(lia)) as Hin.
  pose proof (pos_of_in_range _ _ (leaves ts) (parent_node m j Hm) ltac:(lia)) as Hout.
  pose proof (pos_of_pos m j Hm). assert (0 < 2 ^ j) by (apply Z.pow_pos_nonneg; lia).
  assert (parent_leaf m j < 2 ^ 60 + 2 ^ (j + 1)) as Hpl.
  { rewrite (pow2_succ j) by done. unfold parent_leaf. destruct (Z.testbit m j); lia. }
  unfold peak_path. fold (left_hashes p (pos_of m j)).
  set (res := rev (left_hashes p (pos_of m j))) in *.
  assert (length res = length (left_hashes p (pos_of m j))) as El by apply length_rev.
  destruct (bag_the_rhs p (pos_of m j)) as [r|]; [|destruct res as [|s res'] eqn:Eres];
    cbn [verify_consume]; rewrite Z.gtb_ltb;
    (destruct (Z.ltb_spec (last_pos p) (pos_of m j)); [lia|]);
    rewrite u64_sub_small, Hel by (unfold is_u64; lia).
  - rewrite family_node, Hi, Hlast by (done || lia). rewrite Hs in *.
    rewrite (verify_bag (leaves ts) res _ _ _ _ _ ltac:(lia) (parent_node m j Hm) ltac:(lia) Hpl ltac:(lia) eq_refl).
    repeat case_decide; congruence.
  - cbn [foldl]. repeat case_decide; congruence.
  - rewrite family_node, Hi, Hlast by (done || lia). rewrite Hs in *. cbn [length] in El.
    rewrite (verify_bag (leaves ts) res' _ _ _ _ _ ltac:(lia) (parent_node m j Hm) ltac:(lia) Hpl ltac:(lia) eq_refl).
    cbn [foldl]. repeat case_decide; congruence.
Qed.

(** Below the peaks: each sibling of the branch lifts the proof to the parent. *)
Lemma verify_climb p ts root rest fuel n h el v :
  viewed p ts -> is_node n h -> n < leaves ts -> 62 <= h + Z.of_nat fuel ->
  el (pos_of n h - 1) = v -> node_hash ts (Z.to_nat h) n = Some v ->
  (forall x, x ∈ branch fuel n h (last_pos p) -> is_Some (be_get_from_file (backend p) x.2)) ->
  exists m j el' v',
    is_node m j /\ m < leaves ts <= parent_leaf m j /\
    el' (pos_of m j - 1) = v' /\ node_hash ts (Z.to_nat j) m = Some v' /\
    match last (branch fuel n h (last_pos p)) with Some (x, _) => x | None => pos_of n h end
      = pos_of m j /\
    verify_consume (omap (fun x => get_from_file p x.2) (branch fuel n h (last_pos p)) ++ rest)
      (last_pos p) root el (pos_of n h) =
    verify_consume rest (last_pos p) root el' (pos_of m j).
Proof.
  intros Hv. pose proof (repr_size _ _ Hv) as Hs. pose proof (repr_cap _ _ Hv) as Hc.
  revert n h el v. induction fuel as [|fuel IHf]; intros n h el v Hn Hlt Hf Hel Hh Hsib.
  { pose proof (node_room n h (leaves ts) Hn Hlt Hc). pose proof (height_lt n h 62 Hn). lia. }
  pose proof Hn as (Hn0 & Hh0 & _). pose proof (node_room n h (leaves ts) Hn Hlt Hc) as Hroom.
  pose proof (pos_of_in_range _ _ (leaves ts) (parent_node n h Hn) ltac:(lia)) as Hpar.
  pose proof (proj2 (pos_of_in_range n h (leaves ts) Hn ltac:(lia)) Hlt) as Hin.
  pose proof (pos_of_pos n h Hn). cbn [branch] in *. rewrite Hs in Hsib |- *.
  destruct (Z.leb_spec (pos_of (parent_leaf n h) (h + 1)) (mmr_size (leaves ts))) as [Hle|Hgt].
  2: { exists n, h, el, v. cbn [last omap list_omap app]. split_and!; [done|done|lia|done..]. }
  set (sib := pos_of (sibling_leaf n h) h) in *.
  assert (sibling_leaf n h < leaves ts) as Hsl.
  { assert (0 < 2 ^ h) by (apply Z.pow_pos_nonneg; lia).
    unfold sibling_leaf, parent_leaf in *. destruct (Z.testbit n h); lia. }
  destruct (Hsib (pos_of (parent_leaf n h) (h + 1), sib)) as [s Es]; [by left|]. cbn [snd] in Es.
  pose proof (repr_agrees _ _ Hv _ _ s (sibling_node n h Hn) Hsl Es) as Hsh.
  set (parent := if Z.testbit n h then (s, v) else (v, s)).
  assert (node_hash ts (Z.to_nat (h + 1)) (parent_leaf n h) =
    Some (pair_hash parent (pos_of (parent_leaf n h) (h + 1) - 1))) as Hph.
  { rewrite node_hash_S by done. unfold parent, parent_leaf, sibling_leaf in *.
    destruct (Z.testbit n h); [by rewrite Hsh, Hh|]. rewrite Z.add_simpl_r. by rewrite Hh, Hsh. }
  edestruct (IHf (parent_leaf n h) (h + 1) (pair_hash parent)
      (pair_hash parent (pos_of (parent_leaf n h) (h + 1) - 1))) as (m & j & el' & v' & Hm & Hr & Hel' & Hh' & Hlast & Hver);
    [by apply parent_node|lia|lia|reflexivity|done| |].
  { intros x Hx. apply Hsib. right. by rewrite <- Hs. }
  exists m, j, el', v'. rewrite Hs in Hlast, Hver. split_and!; [done|lia|lia|done|done| |].
  - rewrite <- Hlast, last_cons. by destruct (last _) as [[? ?]|].
  - rewrite <- Hver. cbn [omap list_omap snd]. rewrite read_in_range.
    2: { rewrite Hs. apply pos_of_in_range; [by apply sibling_node|lia|done]. }
    rewrite Es. cbn [app verify_consume]. rewrite Z.gtb_ltb.
    destruct (Z.ltb_spec (mmr_size (leaves ts)) (pos_of n h)); [lia|].
    rewrite u64_sub_small, Hel, family_node by (done || unfold is_u64; lia).
    rewrite Z.gtb_ltb. destruct (Z.ltb_spec (mmr_size (leaves ts)) (pos_of (parent_leaf n h) (h + 1))); [lia|].
    rewrite is_left_sibling_node.
    2: by apply sibling_node.
    2: { pose proof (node_room _ _ _ (sibling_node n h Hn) Hsl Hc). lia. }
    rewrite sibling_bit, negb_involutive by done.
    pose proof (search_peaks (leaves ts) (pos_of n h) ltac:(lia)) as Hs'.
    destruct (binary_search_by _ _) as [i|i|]; [exfalso|done..].
    apply list_elem_of_lookup_2, elem_of_peaks_node in Hs' as (a & b & Ha & Hr' & E1); [|lia].
    apply pos_of_inj in E1 as [-> ->]; [lia|done|done|lia].
Qed.

(** C33. A Merkle proof the range builds verifies: for a leaf whose hash and
    whose branch siblings are still stored, [merkle_proof] returns a proof, and
    [verify] accepts it for that element at that position against a root exactly
    when the root is the root of the range (so any other root is refused). *)
Theorem merkle_proof_verifies p ts n t root :
  viewed p ts -> 0 <= n -> ts !! Z.to_nat n = Some t ->
  is_Some (get_hash p (insertion_to_pmmr_index (n + 1))) ->
  (forall x, x ∈ family_branch (insertion_to_pmmr_index (n + 1)) (last_pos p) ->
     is_Some (be_get_from_file (backend p) x.2)) ->
  exists proof,
    merkle_proof p (insertion_to_pmmr_index (n + 1)) = Ok proof /\
    verify proof root t (insertion_to_pmmr_index (n + 1)) =
      (if decide (Some root = range_root ts) then Ok tt else Err RootMismatch).
Proof.
  intros Hv Hn Ht Hg Hsib. pose proof (repr_cap _ _ Hv) as Hc. pose proof (repr_size _ _ Hv) as Hs.
  assert (n < leaves ts) as Hlt by (apply lookup_lt_Some in Ht; unfold leaves; lia).
  pose proof (is_node_leaf n Hn) as Hnode. rewrite insertion_pos in * by lia.
  pose proof (node_room n 0 (leaves ts) Hnode Hlt Hc). pose proof (mmr_size_ge (leaves ts) ltac:(lia)).
  unfold merkle_proof, is_leaf. rewrite height_pos by (done || lia). cbn [Z.eqb negb].
  destruct Hg as [v Eg]. rewrite Eg. cbn [ok_or bind].
  rewrite family_branch_node in * by (done || lia).
  eexists. split; [reflexivity|]. unfold verify. cbn [proof_path mmr_size_of]. unfold unpruned_size.
  edestruct (verify_climb p ts root (peak_path p
    match last (branch 64 n 0 (last_pos p)) with Some (x, _) => x | None => pos_of n 0 end)
    64 n 0 (leaf_hash t)) as (m & j & el' & v' & Hm & Hr & Hel & Hh & Hlast & Hver);
    [done|done|done|lia|reflexivity| |done|].
  { change (Z.to_nat 0) with 0%nat. cbn [node_hash]. by rewrite Ht. }
  rewrite Hlast in *. rewrite Hver. by eapply verify_peak.
Qed.

End Completeness.
