(* ===== verification/AppendOnlyFile.v ===== *)
(** * Append-only files

    [store/src/types.rs]: [AppendOnlyFile] (fixed-size elements, or variable-size
    elements located through a size file that is itself an append-only file) and
    the [DataFile] wrapper.  Bytes are [Z]; the file on disk and the memory map
    of it are byte lists.  An operating-system failure is not modelled: the
    errors are the ones the code itself produces. *)
From S2P Require Import Prelude Ser.

Inductive io_error : Type := Corrupted | OsError.

(** [SizeEntry]: where an element starts and how long it is. *)
Record SizeEntry := mkSizeEntry { entry_offset : Z; entry_size : Z }.

Definition SizeEntry_LEN : Z := 8 + 2.

Definition write_entry (e : SizeEntry) : list Z :=
  be_bytes 8 (entry_offset e) ++ be_bytes 2 (entry_size e).

(** [ser::deserialize] of a [SizeEntry]: short input is an error, longer input is not. *)
Definition read_entry (bs : list Z) : outcome io_error SizeEntry :=
  if (length bs <? 10)%nat then Err Corrupted
  else Ok (mkSizeEntry (be_value (take 8 bs)) (be_value (take 2 (drop 8 bs)))).

(** The fields are [file] (the bytes on disk), [size_info], [mmap], [buffer],
    [buffer_start_pos] and [buffer_start_pos_bak]. *)
Inductive AppendOnlyFile : Type :=
| mkAOF (file : list Z) (size_info : SizeInfo) (mmap : option (list Z)) (buffer : list Z)
    (buffer_start_pos buffer_start_pos_bak : Z)
with SizeInfo : Type :=
| FixedSize (elmt_size : Z)
| VariableSize (size_file : AppendOnlyFile).

Definition file (f : AppendOnlyFile) : list Z :=
  let '(mkAOF file _ _ _ _ _) := f in file.
Definition size_info (f : AppendOnlyFile) : SizeInfo :=
  let '(mkAOF _ size_info _ _ _ _) := f in size_info.
Definition buffer (f : AppendOnlyFile) : list Z :=
  let '(mkAOF _ _ _ buffer _ _) := f in buffer.
Definition buffer_start_pos (f : AppendOnlyFile) : Z :=
  let '(mkAOF _ _ _ _ buffer_start_pos _) := f in buffer_start_pos.

Definition len (bs : list Z) : Z := Z.of_nat (length bs).

(** [&bytes[offset..offset + length]] where the caller has checked the bounds. *)
Definition slice (bs : list Z) (offset length : Z) : list Z :=
  take (Z.to_nat length) (drop (Z.to_nat offset) bs).

Definition read_from_buffer (buffer : list Z) (offset length : Z) : list Z :=
  if len buffer <? offset +! length then [] else slice buffer offset length.

Definition read_from_mmap (mmap : option (list Z)) (offset length : Z) : list Z :=
  match mmap with
  | Some mmap => if len mmap <? offset +! length then [] else slice mmap offset length
  | None => []
  end.

Fixpoint size_in_elmts (f : AppendOnlyFile) : Z :=
  match f with
  | mkAOF file (FixedSize elmt_size) _ _ _ _ => len file / elmt_size
  | mkAOF _ (VariableSize size_file) _ _ _ _ => size_in_elmts size_file
  end.

Fixpoint size_unsync_in_elmts (f : AppendOnlyFile) : Z :=
  match f with
  | mkAOF _ (FixedSize elmt_size) _ buffer buffer_start_pos _ =>
      buffer_start_pos +! len buffer / elmt_size
  | mkAOF _ (VariableSize size_file) _ _ _ _ => size_unsync_in_elmts size_file
  end.

(** [read]; [offset_and_size] is the local function (the size file's own [read]
    is the recursive call). *)
Fixpoint read (f : AppendOnlyFile) (pos : Z) : outcome io_error (list Z) :=
  match f with
  | mkAOF _ size_info mmap buffer buffer_start_pos _ =>
      if size_unsync_in_elmts f <=? pos then Ok []
      else
        let offset_and_size (pos : Z) : outcome io_error (Z * Z) :=
          match size_info with
          | FixedSize elmt_size => Ok (pos *! elmt_size, elmt_size)
          | VariableSize size_file =>
              let? data := read size_file pos in
              let? entry := read_entry data in
              Ok (entry_offset entry, entry_size entry)
          end in
        let? '(offset, length) := offset_and_size pos in
        if pos <? buffer_start_pos then Ok (read_from_mmap mmap offset length)
        else
          let? '(buffer_offset, _) := offset_and_size buffer_start_pos in
          Ok (read_from_buffer buffer (sat_sub offset buffer_offset) length)
  end.

Definition offset_and_size (f : AppendOnlyFile) (pos : Z) : outcome io_error (Z * Z) :=
  match size_info f with
  | FixedSize elmt_size => Ok (pos *! elmt_size, elmt_size)
  | VariableSize size_file =>
      let? data := read size_file pos in
      let? entry := read_entry data in
      Ok (entry_offset entry, entry_size entry)
  end.

(** [append]: the size entry first, then the bytes into the buffer. *)
Fixpoint append (f : AppendOnlyFile) (bytes : list Z) : outcome io_error AppendOnlyFile :=
  match f with
  | mkAOF file size_info mmap buffer start bak =>
      let? size_info :=
        match size_info with
        | FixedSize n => Ok (FixedSize n)
        | VariableSize size_file =>
            let next_pos := size_unsync_in_elmts size_file in
            let? offset :=
              if next_pos =? 0 then Ok 0
              else
                let? data := read size_file (sat_sub next_pos 1) in
                let? prev_entry := read_entry data in
                Ok (entry_offset prev_entry +! entry_size prev_entry) in
            let? size_file :=
              append size_file (write_entry (mkSizeEntry offset (len bytes mod 2 ^ 16))) in
            Ok (VariableSize size_file)
        end in
      Ok (mkAOF file size_info mmap (buffer ++ bytes) start bak)
  end.

Fixpoint rewind (f : AppendOnlyFile) (pos : Z) : AppendOnlyFile :=
  match f with
  | mkAOF file size_info mmap buffer start bak =>
      let size_info :=
        match size_info with
        | FixedSize n => FixedSize n
        | VariableSize size_file => VariableSize (rewind size_file pos)
        end in
      mkAOF file size_info mmap buffer pos (if bak =? 0 then start else bak)
  end.

(** Mapping an empty file is avoided. *)
Definition map_file (bs : list Z) : option (list Z) :=
  match bs with
  | [] => None
  | _ => Some bs
  end.

(** [File::set_len]: truncates, or extends with zero bytes. *)
Definition set_len (bs : list Z) (n : Z) : list Z :=
  take (Z.to_nat n) bs ++ replicate (Z.to_nat (n - len bs)) 0.

Fixpoint flush (f : AppendOnlyFile) : outcome io_error AppendOnlyFile :=
  match f with
  | mkAOF file size_info mmap buffer start bak =>
      let? size_info :=
        match size_info with
        | FixedSize n => Ok (FixedSize n)
        | VariableSize size_file =>
            let? size_file := flush size_file in Ok (VariableSize size_file)
        end in
      let f := mkAOF file size_info mmap buffer start bak in
      let? file :=
        if bak >? 0 then
          if start =? 0 then Ok (set_len file 0)
          else
            let? '(offset, size) := offset_and_size f (sat_sub start 1) in
            Ok (set_len file (offset +! size))
        else Ok file in
      let file := file ++ buffer in
      let start := size_in_elmts (mkAOF file size_info mmap [] start 0) in
      Ok (mkAOF file size_info (map_file file) [] start 0)
  end.

Fixpoint discard (f : AppendOnlyFile) : AppendOnlyFile :=
  match f with
  | mkAOF file size_info mmap buffer start bak =>
      let size_info :=
        match size_info with
        | FixedSize n => FixedSize n
        | VariableSize size_file => VariableSize (discard size_file)
        end in
      if bak >? 0 then mkAOF file size_info mmap [] bak 0
      else mkAOF file size_info mmap [] start bak
  end.

(** [init]: (re)map the file; an empty file keeps the map it had. *)
Fixpoint init (f : AppendOnlyFile) : AppendOnlyFile :=
  match f with
  | mkAOF file size_info mmap buffer start bak =>
      let size_info :=
        match size_info with
        | FixedSize n => FixedSize n
        | VariableSize size_file => VariableSize (init size_file)
        end in
      if len file =? 0 then mkAOF file size_info mmap buffer 0 bak
      else
        let f := mkAOF file size_info (Some file) buffer start bak in
        mkAOF file size_info (Some file) buffer (size_in_elmts f) bak
  end.

Fixpoint release (f : AppendOnlyFile) : AppendOnlyFile :=
  match f with
  | mkAOF file size_info _ buffer start bak =>
      let size_info :=
        match size_info with
        | FixedSize n => FixedSize n
        | VariableSize size_file => VariableSize (release size_file)
        end in
      mkAOF file size_info None buffer start bak
  end.

(** [replace]: the new file takes the place of the old one on disk. *)
Definition replace (f : AppendOnlyFile) (bytes : list Z) : AppendOnlyFile :=
  match release f with
  | mkAOF _ size_info mmap buffer start bak => mkAOF bytes size_info mmap buffer start bak
  end.

Section Elements.
Context {T : Type}.

(** The element type's [Writeable], its [Readable] on the bytes of one element,
    and its [Readable] on a stream: the element, the bytes left and the growth of
    the stream reader's [total_bytes_read]. *)
Context (ser_elmt : T -> list Z) (deser_elmt : list Z -> option T).
Context (stream_elmt : list Z -> option (T * list Z * Z)).

Definition append_elmt (f : AppendOnlyFile) (data : T) : outcome io_error AppendOnlyFile :=
  append f (ser_elmt data).

Definition read_as_elmt (f : AppendOnlyFile) (pos : Z) : outcome io_error T :=
  let? data := read f pos in ok_or (deser_elmt data) Corrupted.

(** The copy loop of [save_prune]; every element takes at least one byte. *)
Fixpoint save_prune_loop (fuel : nat) (stream : list Z) (current_pos : Z) (prune_pos : list Z)
    (out : list Z) : list Z :=
  match fuel with
  | O => out
  | S fuel =>
      match stream_elmt stream with
      | None => out
      | Some (elmt, stream, _) =>
          if bool_decide (current_pos ∈ prune_pos)
          then save_prune_loop fuel stream (current_pos +! 1) (tail prune_pos) out
          else save_prune_loop fuel stream (current_pos +! 1) prune_pos (out ++ ser_elmt elmt)
      end
  end.

Fixpoint rebuild_loop (fuel : nat) (stream : list Z) (total current_offset : Z) (out : list Z)
    : list Z :=
  match fuel with
  | O => out
  | S fuel =>
      match stream_elmt stream with
      | None => out
      | Some (_, stream, count) =>
          let total := total +! count in
          let size := sat_sub total current_offset mod 2 ^ 16 in
          rebuild_loop fuel stream total (current_offset +! size)
            (out ++ write_entry (mkSizeEntry current_offset size))
      end
  end.

Definition rebuild_size_file (f : AppendOnlyFile) : AppendOnlyFile :=
  match f with
  | mkAOF file (VariableSize size_file) mmap buffer start bak =>
      let entries := rebuild_loop (S (length file)) file 0 0 [] in
      mkAOF file (VariableSize (replace size_file entries)) mmap buffer start bak
  | _ => f
  end.

Definition save_prune (f : AppendOnlyFile) (prune_pos : list Z) : AppendOnlyFile :=
  let kept := save_prune_loop (S (length (file f))) (file f) 0 prune_pos [] in
  let f := replace f kept in
  let f := match size_info f with
           | VariableSize _ => rebuild_size_file f
           | FixedSize _ => f
           end in
  init f.

(** [AppendOnlyFile::open] over the bytes found on disk. *)
Definition open (bytes : list Z) (info : SizeInfo) : AppendOnlyFile :=
  let aof := init (mkAOF bytes info None [] 0 0) in
  match size_info aof with
  | VariableSize size_file =>
      if len (file size_file) =? 0 then init (rebuild_size_file aof) else aof
  | FixedSize _ => aof
  end.

(** *** [DataFile]: positions are 1-based *)
Definition df_append (f : AppendOnlyFile) (data : T) : outcome io_error (Z * AppendOnlyFile) :=
  let? f := append_elmt f data in Ok (size_unsync_in_elmts f, f).

Definition df_read (f : AppendOnlyFile) (position : Z) : option T :=
  match read_as_elmt f (position -! 1) with
  | Ok x => Some x
  | _ => None
  end.

Definition df_save_prune (f : AppendOnlyFile) (prune_pos : list Z) : AppendOnlyFile :=
  save_prune f ((fun x => x -! 1) <$> prune_pos).

End Elements.

Lemma read_write_entry e :
  is_u64 (entry_offset e) -> 0 <= entry_size e < 2 ^ 16 -> read_entry (write_entry e) = Ok e.
Proof.
  intros Ho Hs. unfold read_entry, write_entry. rewrite length_app, !length_be_bytes. cbn [Nat.ltb Nat.leb Nat.add].
  rewrite take_app_length' by (by rewrite length_be_bytes).
  rewrite drop_app_length' by (by rewrite length_be_bytes).
  rewrite (firstn_all2 (n := 2)) by (rewrite length_be_bytes; lia).
  rewrite !be_value_bytes by done. by destruct e.
Qed.

Lemma len_write_entry e : len (write_entry e) = SizeEntry_LEN.
Proof. unfold len, write_entry. by rewrite length_app, !length_be_bytes. Qed.

(** ** Elements laid out one after the other *)
Implicit Types (cs disk cur buf : list (list Z)).

Lemma len_app a b : len (a ++ b) = len a + len b.
Proof. unfold len. rewrite length_app. lia. Qed.
Lemma len_nonneg a : 0 <= len a.
Proof. unfold len. lia. Qed.

(** The byte offset of the [i]-th element. *)
Definition coff cs (i : nat) : Z := len (concat (take i cs)).

Lemma coff_app_l cs ds i : (i <= length cs)%nat -> coff (cs ++ ds) i = coff cs i.
Proof. intros. unfold coff. by rewrite take_app_le. Qed.

Lemma coff_app_r cs ds i :
  coff (cs ++ ds) (length cs + i) = len (concat cs) + coff ds i.
Proof. unfold coff. by rewrite take_app_add, concat_app, len_app. Qed.

Lemma slice_concat cs i c :
  cs !! i = Some c ->
  slice (concat cs) (coff cs i) (len c) = c /\ coff cs i + len c <= len (concat cs) /\
  coff cs (S i) = coff cs i + len c.
Proof.
  intros Hc. pose proof (take_drop_middle _ _ _ Hc) as E.
  assert (concat cs = concat (take i cs) ++ c ++ concat (drop (S i) cs)) as Ec.
  { rewrite <- E at 1. by rewrite concat_app. }
  rewrite Ec, !len_app. pose proof (len_nonneg (concat (drop (S i) cs))). unfold coff.
  rewrite (take_S_r _ _ _ Hc), concat_app, len_app. cbn [concat]. rewrite app_nil_r.
  split_and!; [|lia|done]. unfold slice, len. rewrite !Nat2Z.id, drop_app_length.
  by apply take_app_length.
Qed.

Lemma read_map_file bs o l :
  read_from_mmap (map_file bs) o l = if len bs <? o +! l then [] else slice bs o l.
Proof. destruct bs; [|done]. unfold slice. simpl. rewrite drop_nil, take_nil. by case_match. Qed.

(** The size entries of a list of elements. *)
Fixpoint entries (o : Z) cs : list (list Z) :=
  match cs with
  | [] => []
  | c :: cs => write_entry (mkSizeEntry o (len c)) :: entries (o + len c) cs
  end.

Lemma length_entries o cs : length (entries o cs) = length cs.
Proof. revert o. induction cs; intros; simpl; auto. Qed.

Lemma entries_app o cs ds :
  entries o (cs ++ ds) = entries o cs ++ entries (o + len (concat cs)) ds.
Proof.
  revert o. induction cs as [|c cs IH]; intros o; simpl; [by rewrite Z.add_0_r|].
  rewrite IH, len_app. do 2 f_equal. f_equal. lia.
Qed.

Lemma entries_take o cs k : take k (entries o cs) = entries o (take k cs).
Proof.
  destruct (le_ge_dec k (length cs)).
  - rewrite <- (take_drop k cs) at 1. rewrite entries_app.
    rewrite take_app_length'; [done|]. rewrite length_entries, length_take. lia.
  - by rewrite !take_ge by (rewrite ?length_entries; lia).
Qed.

Lemma entries_lookup cs i c :
  cs !! i = Some c -> entries 0 cs !! i = Some (write_entry (mkSizeEntry (coff cs i) (len c))).
Proof.
  intros Hc. pose proof (take_drop_middle _ _ _ Hc) as E. rewrite <- E, entries_app.
  apply lookup_lt_Some in Hc.
  rewrite lookup_app_r by (rewrite length_entries, length_take; lia).
  rewrite length_entries, length_take. replace (i - i `min` length cs)%nat with 0%nat by lia.
  cbn [entries lookup list_lookup]. do 3 f_equal. unfold coff.
  rewrite take_app_length' by (rewrite length_take; lia). lia.
Qed.

Lemma entries_fixed o cs : Forall (fun e => len e = SizeEntry_LEN) (entries o cs).
Proof. revert o. induction cs; intros; simpl; constructor; [apply len_write_entry|done]. Qed.

Lemma coff_fixed n cs i :
  Forall (fun c => len c = n) cs -> (i <= length cs)%nat -> coff cs i = Z.of_nat i * n.
Proof.
  intros Hn. revert i. induction Hn as [|c cs Hc Hn IH]; intros [|i] Hi; simpl in *; try done; [lia|].
  unfold coff in *. simpl. rewrite len_app, Hc, IH by lia. lia.
Qed.

(** ** The abstract file

    [holds f disk cur]: the elements [disk] are on disk and [cur] is what
    readers see, the kept part of [disk] followed by the unsynced elements. *)
Definition pending (start bak : Z) disk buf cur : Prop :=
  cur = take (Z.to_nat start) disk ++ buf /\ 0 <= start <= Z.of_nat (length disk) /\
  ((bak = 0 /\ start = Z.of_nat (length disk)) \/ (0 < bak /\ bak = Z.of_nat (length disk))).

Definition small cs : Prop :=
  len (concat cs) < 2 ^ 62 /\ Z.of_nat (length cs) < 2 ^ 58 /\ Forall (fun c => len c < 2 ^ 16) cs.

Inductive holds : AppendOnlyFile -> list (list Z) -> list (list Z) -> Prop :=
| holds_fixed n start bak disk buf cur :
    0 < n -> Forall (fun c => len c = n) disk -> Forall (fun c => len c = n) cur ->
    small disk -> small cur -> pending start bak disk buf cur ->
    holds (mkAOF (concat disk) (FixedSize n) (map_file (concat disk)) (concat buf) start bak)
      disk cur
| holds_variable size_file start bak disk buf cur :
    holds size_file (entries 0 disk) (entries 0 cur) ->
    size_info size_file = FixedSize SizeEntry_LEN -> buffer_start_pos size_file = start ->
    small disk -> small cur -> pending start bak disk buf cur ->
    holds (mkAOF (concat disk) (VariableSize size_file) (map_file (concat disk)) (concat buf)
             start bak) disk cur.

Lemma pending_prefix start bak disk buf cur :
  pending start bak disk buf cur ->
  exists k, Z.to_nat start = k /\ start = Z.of_nat k /\ (k <= length disk)%nat /\
    cur = take k disk ++ buf /\ length cur = (k + length buf)%nat.
Proof.
  intros (-> & Hs & _). exists (Z.to_nat start). split_and!; [done|lia|lia|done|].
  rewrite length_app, length_take. lia.
Qed.

Lemma Forall_len_concat n cs : Forall (fun c => len c = n) cs -> len (concat cs) = Z.of_nat (length cs) * n.
Proof.
  intros Hn. rewrite <- (coff_fixed n cs (length cs)) by done. unfold coff. by rewrite take_ge by lia.
Qed.

Lemma Forall_buf start bak disk buf cur (P : list Z -> Prop) :
  pending start bak disk buf cur -> Forall P cur -> Forall P buf.
Proof. intros (-> & _) HF. by apply Forall_app in HF as [_ ?]. Qed.

Lemma size_unsync_holds f disk cur :
  holds f disk cur -> size_unsync_in_elmts f = Z.of_nat (length cur).
Proof.
  induction 1 as [n start bak disk buf cur Hn Hd Hc Hsd Hsc Hp|sf start bak disk buf cur Hh IH Hsi Hst Hsd Hsc Hp].
  - cbn [size_unsync_in_elmts]. pose proof (Forall_buf _ _ _ _ _ _ Hp Hc) as Hb.
    destruct (pending_prefix _ _ _ _ _ Hp) as (k & _ & -> & Hk & _ & El).
    rewrite (Forall_len_concat n buf Hb), Z.div_mul by lia.
    destruct Hsc as (_ & Hl & _). rewrite u64_add_small by (unfold is_u64; lia). lia.
  - cbn [size_unsync_in_elmts]. by rewrite IH, length_entries.
Qed.

(** Where the elements of a well-laid-out file are found. *)
Lemma read_layout cur disk buf start bak (os : Z -> outcome io_error (Z * Z)) i c :
  pending start bak disk buf cur -> small disk -> small cur ->
  (forall i c, cur !! i = Some c -> os (Z.of_nat i) = Ok (coff cur i, len c)) ->
  cur !! i = Some c ->
  (let? '(offset, length) := os (Z.of_nat i) in
   if Z.of_nat i <? start then Ok (read_from_mmap (map_file (concat disk)) offset length)
   else
     let? '(buffer_offset, _) := os start in
     Ok (read_from_buffer (concat buf) (sat_sub offset buffer_offset) length)) = Ok c.
Proof.
  intros Hp Hsd Hsc Hos Hi. rewrite (Hos i c Hi). cbn [bind].
  destruct (pending_prefix _ _ _ _ _ Hp) as (k & _ & -> & Hk & Ec & El).
  pose proof Hsd as (Hds & _). pose proof Hsc as (Hcs & _).
  destruct (Z.ltb_spec (Z.of_nat i) (Z.of_nat k)) as [Hlt|Hge].
  - assert (disk !! i = Some c) as Hd.
    { rewrite Ec, lookup_app_l in Hi by (rewrite length_take; lia).
      by rewrite lookup_take_lt in Hi by lia. }
    assert (coff cur i = coff disk i) as ->.
    { rewrite Ec, coff_app_l by (rewrite length_take; lia). unfold coff.
      by rewrite take_take, Nat.min_l by lia. }
    destruct (slice_concat disk i c Hd) as (Hs & Hle & _). rewrite read_map_file.
    pose proof (len_nonneg c). pose proof (len_nonneg (concat (take i disk))) as Hnn.
    fold (coff disk i) in Hnn. rewrite u64_add_small by (unfold is_u64; lia).
    destruct (Z.ltb_spec (len (concat disk)) (coff disk i + len c)); [lia|]. by rewrite Hs.
  - assert (is_Some (cur !! k)) as [d Hd].
    { apply lookup_lt_is_Some. apply lookup_lt_Some in Hi. lia. }
    rewrite (Hos k d Hd). cbn [bind].
    assert (length (take k disk) = k) as Ek by (rewrite length_take; lia).
    assert (buf !! (i - k)%nat = Some c) as Hb.
    { rewrite Ec, lookup_app_r in Hi by lia. by rewrite Ek in Hi. }
    assert (coff cur i = coff cur k + coff buf (i - k)) as ->.
    { rewrite Ec at 1. replace i with (length (take k disk) + (i - k))%nat at 1 by lia.
      rewrite coff_app_r. f_equal. rewrite Ec, coff_app_l by lia. unfold coff.
      by rewrite (take_ge (take k disk)) by lia. }
    destruct (slice_concat buf (i - k) c Hb) as (Hs & Hle & _). unfold read_from_buffer.
    pose proof (len_nonneg c). assert (0 <= coff buf (i - k)) by apply len_nonneg.
    assert (len (concat buf) <= len (concat cur)).
    { rewrite Ec, concat_app, len_app. pose proof (len_nonneg (concat (take k disk))). lia. }
    unfold sat_sub. replace (Z.max 0 _) with (coff buf (i - k)) by lia.
    rewrite u64_add_small by (unfold is_u64; lia).
    destruct (Z.ltb_spec (len (concat buf)) (coff buf (i - k) + len c)); [lia|]. by rewrite Hs.
Qed.

Lemma coff_small cur i c :
  small cur -> cur !! i = Some c -> is_u64 (coff cur i) /\ 0 <= len c < 2 ^ 16 /\ coff cur i + len c < 2 ^ 62.
Proof.
  intros (Hs & _ & HF) Hi. destruct (slice_concat cur i c Hi) as (_ & Hle & _).
  pose proof (len_nonneg c). assert (0 <= coff cur i) by apply len_nonneg.
  rewrite Forall_lookup in HF. specialize (HF i c Hi). unfold is_u64. lia.
Qed.

Lemma read_holds f disk cur i :
  holds f disk cur -> read f (Z.of_nat i) = Ok (default [] (cur !! i)).
Proof.
  intros Hh. revert i. induction Hh as [n start bak disk buf cur Hn Hd Hc Hsd Hsc Hp
    |sf start bak disk buf cur Hh IH Hsi Hst Hsd Hsc Hp]; intros i.
  - assert (holds (mkAOF (concat disk) (FixedSize n) (map_file (concat disk)) (concat buf) start bak)
      disk cur) as Hf by (by constructor).
    cbn [read]. rewrite (size_unsync_holds _ _ _ Hf).
    destruct (cur !! i) as [c|] eqn:Hi.
    + pose proof Hi as Hlt%lookup_lt_Some. destruct (Z.leb_spec (Z.of_nat (length cur)) (Z.of_nat i)); [lia|].
      eapply (read_layout cur disk buf start bak (fun pos => Ok (pos *! n, n))); [done..| |done].
      intros j d Hj. destruct (coff_small cur j d Hsc Hj) as (Hb1 & _).
      rewrite (proj1 (Forall_lookup _ _) Hc j d Hj). pose proof Hj as Hjl%lookup_lt_Some.
      rewrite (coff_fixed n cur j Hc) in * by lia. by rewrite u64_mul_small.
    + apply lookup_ge_None in Hi. by destruct (Z.leb_spec (Z.of_nat (length cur)) (Z.of_nat i)); [|lia].
  - assert (holds (mkAOF (concat disk) (VariableSize sf) (map_file (concat disk)) (concat buf) start bak)
      disk cur) as Hf by (by constructor).
    cbn [read]. rewrite (size_unsync_holds _ _ _ Hf).
    destruct (cur !! i) as [c|] eqn:Hi.
    + pose proof Hi as Hlt%lookup_lt_Some. destruct (Z.leb_spec (Z.of_nat (length cur)) (Z.of_nat i)); [lia|].
      apply (read_layout cur disk buf start bak (fun pos =>
        let? data := read sf pos in let? entry := read_entry data in
        Ok (entry_offset entry, entry_size entry))); [done..| |done].
      intros j d Hj. rewrite IH, (entries_lookup _ _ _ Hj). cbn [default id bind from_option].
      destruct (coff_small cur j d Hsc Hj) as (Hb1 & Hb2 & _).
      by rewrite read_write_entry.
    + apply lookup_ge_None in Hi. by destruct (Z.leb_spec (Z.of_nat (length cur)) (Z.of_nat i)); [|lia].
Qed.

(** The element fits the file: the fixed size if it has one. *)
Definition fits (f : AppendOnlyFile) (x : list Z) : Prop :=
  match size_info f with
  | FixedSize n => len x = n
  | VariableSize _ => True
  end.

(** Nothing unsynced, in the file or in its size file. *)
Definition clean (f : AppendOnlyFile) : Prop :=
  buffer f = [] /\
  match size_info f with
  | FixedSize _ => True
  | VariableSize size_file => buffer size_file = []
  end.

Lemma small_entries cs : small cs -> small (entries 0 cs).
Proof.
  intros (_ & Hl & _). unfold small. rewrite (Forall_len_concat SizeEntry_LEN), length_entries by apply entries_fixed.
  unfold SizeEntry_LEN. split_and!; [lia|done|]. eapply Forall_impl; [apply (entries_fixed 0)|].
  intros e ->. unfold SizeEntry_LEN. lia.
Qed.

Lemma pending_snoc start bak disk buf cur x :
  pending start bak disk buf cur -> pending start bak disk (buf ++ [x]) (cur ++ [x]).
Proof. intros (-> & Hs & Hb). split_and!; [by rewrite app_assoc|lia|lia|done]. Qed.

Lemma concat_snoc (cs : list (list Z)) x : concat (cs ++ [x]) = concat cs ++ x.
Proof. rewrite concat_app. simpl. by rewrite app_nil_r. Qed.

(** The size entry of the next element follows from the last one. *)
Lemma next_offset sf cur disk :
  holds sf (entries 0 disk) (entries 0 cur) -> small cur ->
  (if size_unsync_in_elmts sf =? 0 then Ok 0
   else
     let? data := read sf (sat_sub (size_unsync_in_elmts sf) 1) in
     let? prev_entry := read_entry data in
     Ok (entry_offset prev_entry +! entry_size prev_entry)) = Ok (len (concat cur)).
Proof.
  intros Hh Hs. rewrite (size_unsync_holds _ _ _ Hh), length_entries.
  destruct cur as [|c0 cur0] eqn:Ecur; [done|]. rewrite <- Ecur in *.
  destruct (Z.eqb_spec (Z.of_nat (length cur)) 0) as [E0|]; [rewrite Ecur in E0; simpl in E0; lia|].
  unfold sat_sub. replace (Z.max 0 _) with (Z.of_nat (length cur - 1)) by lia.
  destruct (lookup_lt_is_Some_2 cur (length cur - 1)) as [c Hc]; [lia|].
  rewrite (read_holds _ _ _ _ Hh), (entries_lookup _ _ _ Hc). cbn [default bind].
  destruct (coff_small _ _ _ Hs Hc) as (H1 & H2 & H3). unfold id.
  rewrite read_write_entry by done. cbn [bind entry_offset entry_size].
  destruct (slice_concat _ _ _ Hc) as (_ & _ & Hn). unfold is_u64 in H1.
  rewrite u64_add_small by (unfold is_u64; lia). rewrite <- Hn.
  unfold coff. rewrite take_ge by lia. done.
Qed.

Lemma append_holds f disk cur x :
  holds f disk cur -> fits f x -> small (cur ++ [x]) ->
  exists f', append f x = Ok f' /\ holds f' disk (cur ++ [x]) /\
    size_info f' = match size_info f with
                   | FixedSize n => FixedSize n
                   | VariableSize _ => size_info f'
                   end /\ buffer_start_pos f' = buffer_start_pos f.
Proof.
  intros Hh. revert x. induction Hh as [n start bak disk buf cur Hn Hd Hc Hsd Hsc Hp
    |sf start bak disk buf cur Hh IH Hsi Hst Hsd Hsc Hp]; intros x Hfit Hsx.
  - cbn [append bind]. eexists. split; [done|]. split; [|done]. rewrite <- concat_snoc.
    constructor; [done..| |done|done|by apply pending_snoc].
    apply Forall_app. split; [done|]. by constructor.
  - cbn [append]. rewrite (next_offset sf cur disk Hh Hsc). cbn [bind].
    pose proof Hsx as (_ & _ & HF). apply Forall_app in HF as [_ HF].
    inversion HF as [|? ? Hx _]. subst. pose proof (len_nonneg x).
    rewrite Z.mod_small by lia.
    destruct (IH (write_entry (mkSizeEntry (len (concat cur)) (len x)))) as (sf' & Ha & Hh' & Hi' & Hs').
    { unfold fits. rewrite Hsi. apply len_write_entry. }
    { pose proof (small_entries _ Hsx) as He. by rewrite entries_app in He. }
    rewrite Ha. cbn [bind]. eexists. split; [done|]. split; [|done].
    rewrite <- concat_snoc. constructor.
    + by rewrite entries_app.
    + by rewrite Hi', Hsi.
    + by rewrite Hs'.
    + done.
    + done.
    + by apply pending_snoc.
Qed.

Lemma pending_clean_fixed n start bak disk buf cur :
  0 < n -> Forall (fun c => len c = n) cur -> pending start bak disk buf cur ->
  concat buf = [] -> buf = [].
Proof.
  intros Hn Hc Hp E0. pose proof (Forall_buf _ _ _ _ _ _ Hp Hc) as Hb.
  pose proof (Forall_len_concat n buf Hb) as El. rewrite E0 in El. unfold len in El. simpl in El.
  destruct buf; [done|]. simpl in El. lia.
Qed.

Lemma pending_rewind start bak disk cur pos :
  pending start bak disk [] cur -> 0 <= pos <= Z.of_nat (length cur) ->
  pending pos (if bak =? 0 then start else bak) disk [] (take (Z.to_nat pos) cur).
Proof.
  intros (-> & Hs & Hb) Hpos. rewrite app_nil_r in *. rewrite length_take in Hpos.
  split_and!; [|lia|lia|].
  - by rewrite take_take, Nat.min_l, app_nil_r by lia.
  - destruct (Z.eqb_spec bak 0); [|lia]. destruct Hb as [[_ ->]|]; [|lia].
    destruct disk; [left|right]; simpl in *; lia.
Qed.

Lemma small_take cs k : small cs -> small (take k cs).
Proof.
  intros (H1 & H2 & H3). split_and!.
  - rewrite <- (take_drop k cs), concat_app, len_app in H1.
    pose proof (len_nonneg (concat (drop k cs))). lia.
  - rewrite length_take. lia.
  - by apply Forall_take.
Qed.

Lemma rewind_holds f disk cur pos :
  holds f disk cur -> clean f -> 0 <= pos <= Z.of_nat (length cur) ->
  holds (rewind f pos) disk (take (Z.to_nat pos) cur) /\ clean (rewind f pos) /\
  buffer_start_pos (rewind f pos) = pos /\
  size_info (rewind f pos) = match size_info f with
                             | FixedSize n => FixedSize n
                             | VariableSize sf => VariableSize (rewind sf pos)
                             end.
Proof.
  intros Hh. revert pos. induction Hh as [n start bak disk buf cur Hn Hd Hc Hsd Hsc Hp
    |sf start bak disk buf cur Hh IH Hsi Hst Hsd Hsc Hp]; intros pos [Hb Hsf] Hpos;
    cbn [rewind buffer size_info] in *.
  - assert (buf = []) as -> by (by eapply pending_clean_fixed). split_and!; [|done..].
    constructor; [done|done|by apply Forall_take|done|by apply small_take|by apply pending_rewind].
  - destruct (IH pos) as (Hh' & [Hcl _] & Hst' & Hsi'); [split; [done|by rewrite Hsi]|by rewrite length_entries|].
    assert (buf = []) as ->.
    { pose proof (size_unsync_holds _ _ _ Hh) as El.
      destruct sf as [sfile sinfo smm sbuf sst sbak]. cbn in *. subst. cbn in El.
      rewrite length_entries in El. destruct Hp as (-> & Hs & _).
      rewrite length_app, length_take in El. destruct Hsd as (_ & Hl & _).
      change (len [] / SizeEntry_LEN) with 0 in El.
      rewrite u64_add_small in El by (unfold is_u64; lia).
      destruct buf; [done|simpl in El; lia]. }
    split_and!; [|done..]. constructor.
    + by rewrite <- entries_take.
    + by rewrite Hsi', Hsi.
    + done.
    + done.
    + by apply small_take.
    + by apply pending_rewind.
Qed.

Lemma size_in_elmts_holds f disk cur : holds f disk cur -> size_in_elmts f = Z.of_nat (length disk).
Proof.
  induction 1 as [n start bak disk buf cur Hn Hd Hc Hsd Hsc Hp
    |sf start bak disk buf cur Hh IH Hsi Hst Hsd Hsc Hp]; cbn [size_in_elmts].
  - by rewrite (Forall_len_concat n disk Hd), Z.div_mul by lia.
  - by rewrite IH, length_entries.
Qed.

Lemma pending_synced cs : pending (Z.of_nat (length cs)) 0 cs [] cs.
Proof. split_and!; [by rewrite Nat2Z.id, firstn_all, app_nil_r|lia|lia|by left]. Qed.

(** Truncating at the end of the last kept element keeps exactly the kept elements. *)
Lemma set_len_concat disk k : set_len (concat disk) (coff disk k) = concat (take k disk).
Proof.
  unfold set_len, coff.
  assert (concat disk = concat (take k disk) ++ concat (drop k disk)) as ->.
  { by rewrite <- concat_app, take_drop. }
  unfold len. rewrite Nat2Z.id, take_app_length, length_app.
  replace (Z.to_nat _) with 0%nat by lia. simpl. by rewrite app_nil_r.
Qed.

(** The file after the truncation step of [flush]. *)
Lemma flush_truncate (f : AppendOnlyFile) disk buf cur start bak :
  pending start bak disk buf cur -> small cur ->
  (forall i c, cur !! i = Some c -> offset_and_size f (Z.of_nat i) = Ok (coff cur i, len c)) ->
  (if bak >? 0 then
     if start =? 0 then Ok (set_len (concat disk) 0)
     else
       let? '(offset, size) := offset_and_size f (sat_sub start 1) in
       Ok (set_len (concat disk) (offset +! size))
   else Ok (concat disk)) = (Ok (concat (take (Z.to_nat start) disk)) : outcome io_error (list Z)).
Proof.
  intros Hp Hsc Hos. destruct (pending_prefix _ _ _ _ _ Hp) as (k & -> & -> & Hk & Ec & El).
  destruct Hp as (_ & _ & Hb). rewrite Z.gtb_ltb.
  destruct (Z.ltb_spec 0 bak).
  - destruct (Z.eqb_spec (Z.of_nat k) 0) as [E0|].
    + replace k with 0%nat by lia. by rewrite <- (set_len_concat disk 0).
    + destruct (lookup_lt_is_Some_2 cur (k - 1)) as [c Hc]; [lia|].
      unfold sat_sub. replace (Z.max 0 _) with (Z.of_nat (k - 1)) by lia. rewrite (Hos _ _ Hc).
      cbn [bind]. destruct (coff_small _ _ _ Hsc Hc) as (H1 & H2 & H3).
      unfold is_u64 in H1. rewrite u64_add_small by (unfold is_u64; lia).
      destruct (slice_concat _ _ _ Hc) as (_ & _ & <-).
      replace (S (k - 1)) with k by lia. rewrite Ec, coff_app_l by (rewrite length_take; lia).
      f_equal. rewrite <- set_len_concat. f_equal. unfold coff. by rewrite take_take, Nat.min_id.
  - destruct Hb as [[_ Hb]|]; [|lia]. by rewrite take_ge by lia.
Qed.

Lemma flush_holds f disk cur :
  holds f disk cur ->
  exists f', flush f = Ok f' /\ holds f' cur cur /\ clean f' /\
    buffer_start_pos f' = Z.of_nat (length cur) /\
    size_info f' = match size_info f with
                   | FixedSize n => FixedSize n
                   | VariableSize _ => size_info f'
                   end.
Proof.
  induction 1 as [n start bak disk buf cur Hn Hd Hc Hsd Hsc Hp
    |sf start bak disk buf cur Hh IH Hsi Hst Hsd Hsc Hp].
  - cbn [flush bind]. rewrite (flush_truncate _ disk buf cur start bak Hp Hsc).
    + cbn [bind]. rewrite <- concat_app. destruct Hp as (<- & _).
      cbn [size_in_elmts]. rewrite (Forall_len_concat n cur Hc), Z.div_mul by lia.
      eexists. split; [done|]. split_and!; [|done..].
      change (@nil Z) with (@concat Z []). constructor; [done..|]. apply pending_synced.
    + intros i c Hi. cbn [offset_and_size size_info].
      destruct (coff_small cur i c Hsc Hi) as (Hb1 & _).
      rewrite (proj1 (Forall_lookup _ _) Hc i c Hi). pose proof Hi as Hil%lookup_lt_Some.
      rewrite (coff_fixed n cur i Hc) in * by lia. by rewrite u64_mul_small.
  - cbn [flush]. destruct IH as (sf' & -> & Hh' & [Hcl _] & Hst' & Hsi').
    cbn [bind]. rewrite (flush_truncate _ disk buf cur start bak Hp Hsc).
    + cbn [bind]. rewrite <- concat_app. destruct Hp as (<- & _). cbn [size_in_elmts].
      rewrite (size_in_elmts_holds _ _ _ Hh'), length_entries.
      eexists. split; [done|]. split_and!; [|done..].
      change (@nil Z) with (@concat Z []). constructor; [done|by rewrite Hsi', Hsi| |done|done|].
      * by rewrite Hst', length_entries.
      * apply pending_synced.
    + intros i c Hi. cbn [offset_and_size size_info].
      rewrite (read_holds _ _ _ _ Hh'), (entries_lookup _ _ _ Hi). cbn [default bind]. unfold id.
      destruct (coff_small cur i c Hsc Hi) as (Hb1 & Hb2 & _).
      by rewrite read_write_entry.
Qed.

Lemma pending_restored (mk : Z -> Z -> AppendOnlyFile) start bak disk buf cur :
  pending start bak disk buf cur ->
  (if bak >? 0 then mk bak 0 else mk start bak) = mk (Z.of_nat (length disk)) 0.
Proof.
  intros (_ & _ & Hb). rewrite Z.gtb_ltb.
  destruct (Z.ltb_spec 0 bak); destruct Hb as [[? ?]|[? ?]]; subst; done || lia.
Qed.

Lemma discard_holds f disk cur :
  holds f disk cur ->
  holds (discard f) disk disk /\ clean (discard f) /\
  buffer_start_pos (discard f) = Z.of_nat (length disk) /\
  size_info (discard f) = match size_info f with
                          | FixedSize n => FixedSize n
                          | VariableSize sf => VariableSize (discard sf)
                          end.
Proof.
  induction 1 as [n start bak disk buf cur Hn Hd Hc Hsd Hsc Hp
    |sf start bak disk buf cur Hh IH Hsi Hst Hsd Hsc Hp]; cbn [discard].
  - rewrite (pending_restored (mkAOF (concat disk) (FixedSize n) (map_file (concat disk)) [])
      _ _ _ _ _ Hp).
    split_and!; [|done..]. change (@nil Z) with (@concat Z []). constructor; (done || apply pending_synced).
  - destruct IH as (Hh' & [Hcl _] & Hst' & Hsi'). rewrite length_entries in Hst'. rewrite Hsi in Hsi'.
    rewrite (pending_restored (mkAOF (concat disk) (VariableSize (discard sf)) (map_file (concat disk)) [])
      _ _ _ _ _ Hp).
    split_and!; [|done..]. change (@nil Z) with (@concat Z []). constructor; (done || apply pending_synced).
Qed.

(** ** The property *)

(** An append-only file, of fixed-size elements or of variable-size
    elements located through its size file, refines a pair of lists: what is on
    disk and what readers see.  Reading gives the element (or no bytes past the
    end), appending adds it at the end for readers only, rewinding with nothing
    unsynced truncates what readers see, [flush] makes that the content of the
    disk and [discard] goes back to the disk; none of them fails. *)
Theorem append_only_file_refines f disk cur :
  holds f disk cur ->
  size_in_elmts f = Z.of_nat (length disk) /\
  size_unsync_in_elmts f = Z.of_nat (length cur) /\
  (forall i, read f (Z.of_nat i) = Ok (default [] (cur !! i))) /\
  (forall x, fits f x -> small (cur ++ [x]) ->
     exists f', append f x = Ok f' /\ holds f' disk (cur ++ [x])) /\
  (forall pos, clean f -> 0 <= pos <= Z.of_nat (length cur) ->
     holds (rewind f pos) disk (take (Z.to_nat pos) cur)) /\
  (exists f', flush f = Ok f' /\ holds f' cur cur /\ clean f') /\
  holds (discard f) disk disk.
Proof.
  intros Hh. split_and!.
  - by eapply size_in_elmts_holds.
  - by eapply size_unsync_holds.
  - intros i. by eapply read_holds.
  - intros x Hf Hs. destruct (append_holds _ _ _ _ Hh Hf Hs) as (f' & Ha & Hh' & _). eauto.
  - intros pos Hc Hp. by apply rewind_holds.
  - destruct (flush_holds _ _ _ Hh) as (f' & Hf & Hh' & Hc & _). eauto.
  - by eapply discard_holds.
Qed.

(** A file of two 2-byte elements, the second of them unsynced. *)
Lemma append_only_file_refines_witness :
  let f := mkAOF [1; 2] (FixedSize 2) (Some [1; 2]) [3; 4] 1 0 in
  holds f [[1; 2]] [[1; 2]; [3; 4]] /\ read f 1 = Ok [3; 4] /\
  holds (discard f) [[1; 2]] [[1; 2]].
Proof.
  intros f. assert (holds f [[1; 2]] [[1; 2]; [3; 4]]) as Hh.
  { apply (holds_fixed 2 1 0 [[1; 2]] [[3; 4]] [[1; 2]; [3; 4]]); unfold small, pending;
      repeat first [split | constructor]; done || lia || (left; done) || (vm_compute; done). }
  destruct (append_only_file_refines f _ _ Hh) as (_ & _ & Hr & _ & _ & _ & Hd).
  split_and!; [done|exact (Hr 1%nat)|done].
Defined.
