(* ===== verification/PruneList.v ===== *)
(** * The prune list and the leaf set

    [store/src/prune_list.rs] and [store/src/leaf_set.rs].  A roaring bitmap of
    [u32] values is a finite set of [Z]; a position is truncated to 32 bits
    where the code casts it. *)
From S2P Require Import Prelude PmmrIndex.
Import Pos Node Spec Theorems.

(** ** Bitmaps *)
Definition bm_iter (b : gset Z) : list Z := merge_sort Z.le (elements b).
Definition bm_maximum (b : gset Z) : Z := default 0 (last (bm_iter b)).
Definition bm_rank (b : gset Z) (x : Z) : nat := length (filter (fun y => y <= x) (bm_iter b)).
Definition bm_contains (b : gset Z) (x : Z) : bool := bool_decide (x ∈ b).
Definition bm_is_empty (b : gset Z) : bool := bool_decide (b = ∅).
(** The values of a range of positions, cast one by one. *)
Definition bm_range (from upto : Z) : gset Z := list_to_set (wrap32 <$> seqZ from (upto - from + 1)).

(** ** [PruneList] *)
Record PruneList := mkPruneList {
  bitmap : gset Z;
  pruned_cache : gset Z;
  shift_cache : list Z;
  leaf_shift_cache : list Z
}.

Module Prune.

Definition new : PruneList := mkPruneList ∅ ∅ [] [].

(** The body shared by [get_shift] and [get_leaf_shift]: the entry of the cache
    for the last root at or before [pos].  Indexing an empty cache panics. *)
Definition cached_shift (bitmap : gset Z) (cache : list Z) (pos : Z) : outcome () Z :=
  if bm_is_empty bitmap then Ok 0
  else
    let idx := bm_rank bitmap (wrap32 pos) in
    if (idx =? 0)%nat then Ok 0
    else if (length cache <? idx)%nat then unwrap (last cache)
    else unwrap (cache !! (idx - 1)%nat).

Definition get_shift (pl : PruneList) (pos : Z) : outcome () Z :=
  cached_shift (bitmap pl) (shift_cache pl) pos.

Definition get_leaf_shift (pl : PruneList) (pos : Z) : outcome () Z :=
  cached_shift (bitmap pl) (leaf_shift_cache pl) pos.

Definition get_total_shift (pl : PruneList) : outcome () Z :=
  get_shift pl (bm_maximum (bitmap pl)).

Definition get_total_leaf_shift (pl : PruneList) : outcome () Z :=
  get_leaf_shift pl (bm_maximum (bitmap pl)).

Definition is_pruned (pl : PruneList) (pos : Z) : bool := bm_contains (pruned_cache pl) (wrap32 pos).
Definition is_pruned_root (pl : PruneList) (pos : Z) : bool := bm_contains (bitmap pl) (wrap32 pos).

Definition node_shift (pos : Z) : Z :=
  2 *! ((1 <<! bintree_postorder_height pos) -! 1).
Definition node_leaf_shift (pos : Z) : Z :=
  let height := bintree_postorder_height pos in
  if height =? 0 then 0 else 1 <<! height.

(** The loop that fills a cache; every entry reads the previous one back. *)
Fixpoint build_cache (bitmap : gset Z) (curr : Z -> Z) (l : list Z) (cache : list Z)
    : outcome () (list Z) :=
  match l with
  | [] => Ok cache
  | pos :: l =>
      let? prev_shift := cached_shift bitmap cache (pos -! 1) in
      let curr_shift := if bm_contains bitmap (wrap32 pos) then curr pos else 0 in
      build_cache bitmap curr l (cache ++ [prev_shift +! curr_shift])
  end.

Definition build_shift_cache (pl : PruneList) : outcome () PruneList :=
  if bm_is_empty (bitmap pl) then Ok pl
  else
    let? cache := build_cache (bitmap pl) node_shift (bm_iter (bitmap pl)) [] in
    Ok (mkPruneList (bitmap pl) (pruned_cache pl) cache (leaf_shift_cache pl)).

Definition build_leaf_shift_cache (pl : PruneList) : outcome () PruneList :=
  if bm_is_empty (bitmap pl) then Ok pl
  else
    let? cache := build_cache (bitmap pl) node_leaf_shift (bm_iter (bitmap pl)) [] in
    Ok (mkPruneList (bitmap pl) (pruned_cache pl) (shift_cache pl) cache).

Definition build_pruned_cache (pl : PruneList) : PruneList :=
  if bm_is_empty (bitmap pl) then pl
  else
    let maximum := bm_maximum (bitmap pl) in
    let pruned pos := existsb (fun x => bm_contains (bitmap pl) (wrap32 x)) (path pos maximum) in
    mkPruneList (bitmap pl) (list_to_set (filter pruned (seqZ 1 maximum)))
      (shift_cache pl) (leaf_shift_cache pl).

Definition init_caches (pl : PruneList) : outcome () PruneList :=
  let? pl := build_shift_cache pl in
  let? pl := build_leaf_shift_cache pl in
  Ok (build_pruned_cache pl).

(** [open] over the bitmap read from disk, and [flush], which rebuilds the caches. *)
Definition open (bitmap : gset Z) : outcome () PruneList :=
  init_caches (mkPruneList bitmap ∅ [] []).
Definition flush (pl : PruneList) : outcome () PruneList := init_caches pl.

(** [add]: one level of the tree per iteration. *)
Fixpoint add_loop (fuel : nat) (pl : PruneList) (current : Z) : PruneList :=
  match fuel with
  | O => pl
  | S fuel =>
      let '(parent, sibling) := family current in
      let cache := {[ wrap32 current ]} ∪ pruned_cache pl in
      if bm_contains (bitmap pl) (wrap32 sibling) || bm_contains (pruned_cache pl) (wrap32 sibling)
      then
        add_loop fuel
          (mkPruneList (bitmap pl ∖ {[ wrap32 sibling ]}) cache
             (shift_cache pl) (leaf_shift_cache pl)) parent
      else
        mkPruneList ({[ wrap32 current ]} ∪ bitmap pl) cache
          (shift_cache pl) (leaf_shift_cache pl)
  end.

Definition add (pl : PruneList) (pos : Z) : PruneList := add_loop 64 pl pos.

Definition to_vec (pl : PruneList) : list Z := bm_iter (bitmap pl).

End Prune.

(** ** [LeafSet] *)
Record LeafSet := mkLeafSet { leaf_bitmap : gset Z; leaf_bitmap_bak : gset Z }.

Module Leaf.

Definition open (bitmap : gset Z) : LeafSet := mkLeafSet bitmap bitmap.

Definition unpruned_pre_cutoff (cutoff_pos : Z) (pl : PruneList) : gset Z :=
  list_to_set (wrap32 <$>
    filter (fun x => negb (Prune.is_pruned pl x)) (filter (fun x => is_leaf x) (seqZ 1 cutoff_pos))).

(** The step shared by [removed_pre_cutoff] and [rewind]. *)
Definition rewound (b : gset Z) (cutoff_pos : Z) (rewind_rm_pos : gset Z) : gset Z :=
  let marker_to := bm_maximum b in
  let rewind_add_pos := bm_range (cutoff_pos +! 1) marker_to in
  (b ∖ rewind_add_pos) ∪ rewind_rm_pos.

(** [Bitmap::flip] over [from..upto]. *)
Definition flip (b : gset Z) (from upto : Z) : gset Z :=
  let r := bm_range from (upto - 1) in (b ∖ r) ∪ (r ∖ b).

Definition removed_pre_cutoff (ls : LeafSet) (cutoff_pos : Z) (rewind_rm_pos : gset Z)
    (pl : PruneList) : gset Z :=
  flip (rewound (leaf_bitmap ls) cutoff_pos rewind_rm_pos) 1 (cutoff_pos +! 1)
    ∩ unpruned_pre_cutoff cutoff_pos pl.

Definition rewind (ls : LeafSet) (cutoff_pos : Z) (rewind_rm_pos : gset Z) : LeafSet :=
  mkLeafSet (rewound (leaf_bitmap ls) cutoff_pos rewind_rm_pos) (leaf_bitmap_bak ls).

Definition add (ls : LeafSet) (pos : Z) : LeafSet :=
  mkLeafSet ({[ wrap32 pos ]} ∪ leaf_bitmap ls) (leaf_bitmap_bak ls).

Definition remove (ls : LeafSet) (pos : Z) : LeafSet :=
  mkLeafSet (leaf_bitmap ls ∖ {[ wrap32 pos ]}) (leaf_bitmap_bak ls).

Definition flush (ls : LeafSet) : LeafSet := mkLeafSet (leaf_bitmap ls) (leaf_bitmap ls).
Definition discard (ls : LeafSet) : LeafSet := mkLeafSet (leaf_bitmap_bak ls) (leaf_bitmap_bak ls).
Definition includes (ls : LeafSet) (pos : Z) : bool := bm_contains (leaf_bitmap ls) (wrap32 pos).
Definition iter (ls : LeafSet) : list Z := bm_iter (leaf_bitmap ls).

End Leaf.

(** ** Facts about bitmaps *)
Lemma elem_of_bm_iter b x : x ∈ bm_iter b <-> x ∈ b.
Proof.
  unfold bm_iter. rewrite (elem_of_Permutation_proper x _ _ (merge_sort_Permutation Z.le (elements b))).
  by rewrite elem_of_elements.
Qed.

Lemma bm_iter_sorted b : StronglySorted Z.lt (bm_iter b).
Proof.
  assert (StronglySorted Z.le (bm_iter b)) as Hs by (apply StronglySorted_merge_sort; apply _).
  assert (NoDup (bm_iter b)) as Hn.
  { unfold bm_iter. rewrite merge_sort_Permutation. apply NoDup_elements. }
  induction Hs as [|x l Hs IH Hx]; [constructor|]. apply NoDup_cons in Hn as [Hnx Hn].
  constructor; [by apply IH|]. rewrite Forall_forall in *. intros y Hy. specialize (Hx y Hy).
  destruct (Z.eq_dec x y) as [->|]; [done|lia].
Qed.

Lemma bm_is_empty_spec b : bm_is_empty b = true <-> b = ∅.
Proof. apply bool_decide_eq_true. Qed.

Lemma bm_iter_empty b : bm_iter b = [] <-> b = ∅.
Proof.
  split; [|by intros ->]. intros E. apply set_eq. intros x.
  rewrite <- elem_of_bm_iter, E. set_solver.
Qed.

Lemma bm_contains_spec b x : bm_contains b x = true <-> x ∈ b.
Proof. apply bool_decide_eq_true. Qed.

Lemma sorted_filter_le l q :
  StronglySorted Z.lt l ->
  filter (fun y => y <= q) l = take (length (filter (fun y => y <= q) l)) l.
Proof.
  induction 1 as [|x l Hs IH Hx]; [done|]. rewrite filter_cons. case_decide.
  - simpl. by f_equal.
  - rewrite Forall_forall in Hx. by rewrite filter_none by (intros y Hy; specialize (Hx y Hy); lia).
Qed.

Lemma bm_maximum_spec b : b <> ∅ -> bm_maximum b ∈ b /\ forall x, x ∈ b -> x <= bm_maximum b.
Proof.
  intros Hb. pose proof (bm_iter_sorted b) as Hs. unfold bm_maximum.
  destruct (last (bm_iter b)) as [m|] eqn:Hl.
  - apply last_Some in Hl as [l' E]. rewrite E in Hs. simpl. split.
    + rewrite <- elem_of_bm_iter, E. set_solver.
    + intros x Hx. rewrite <- elem_of_bm_iter, E in Hx. apply elem_of_app in Hx as [Hx|Hx].
      * apply StronglySorted_app in Hs as (Hs & _). specialize (Hs x m Hx ltac:(by left)). lia.
      * apply list_elem_of_singleton in Hx. lia.
  - apply last_None, bm_iter_empty in Hl. done.
Qed.

(** ** Caches of running sums *)
Definition sumf (curr : Z -> Z) (l : list Z) : Z := foldr (fun x a => curr x + a) 0 l.

Lemma sumf_app curr l k : sumf curr (l ++ k) = sumf curr l + sumf curr k.
Proof. induction l as [|x l IH]; simpl in *; lia. Qed.

Lemma sumf_cons curr x l : sumf curr (x :: l) = curr x + sumf curr l.
Proof. done. Qed.

Lemma sumf_nonneg curr l : (forall x, x ∈ l -> 0 <= curr x) -> 0 <= sumf curr l.
Proof.
  induction l as [|x l IH]; intros Hc; simpl; [lia|].
  pose proof (Hc x ltac:(by left)). assert (0 <= sumf curr l) by (apply IH; intros; apply Hc; by right). lia.
Qed.

Section Cache.
Context (b : gset Z) (curr : Z -> Z).
Context (Hrange : forall x, x ∈ b -> 1 <= x < 2 ^ 32).
Context (Hcurr : forall x, x ∈ b -> 0 <= curr x).
Context (Hsum : sumf curr (bm_iter b) < 2 ^ 64).

Lemma sumf_part l k : bm_iter b = l ++ k -> 0 <= sumf curr l < 2 ^ 64.
Proof.
  intros E. assert (forall x, x ∈ l ++ k -> 0 <= curr x) as Hc.
  { intros x Hx. apply Hcurr. by rewrite <- elem_of_bm_iter, E. }
  pose proof Hsum as Hs. rewrite E, sumf_app in Hs.
  pose proof (sumf_nonneg curr l ltac:(intros; apply Hc, elem_of_app; by left)).
  pose proof (sumf_nonneg curr k ltac:(intros; apply Hc, elem_of_app; by right)). lia.
Qed.

(** The entries of a partially filled cache. *)
Definition filled (cache pre : list Z) : Prop :=
  length cache = length pre /\
  forall i, (i < length pre)%nat -> cache !! i = Some (sumf curr (take (S i) pre)).

Lemma filled_last cache pre : filled cache pre -> pre <> [] -> last cache = Some (sumf curr pre).
Proof.
  intros [Hl Hc] Hp. rewrite last_lookup, Hl.
  assert (0 < length pre)%nat by (destruct pre; [done|simpl; lia]).
  rewrite Hc by lia. by rewrite take_ge by lia.
Qed.

Lemma cached_shift_filled cache pre post pos :
  bm_iter b = pre ++ post -> filled cache pre -> 0 <= pos < 2 ^ 32 ->
  (forall x, x ∈ post -> pos < x) ->
  Prune.cached_shift b cache pos = Ok (sumf curr (filter (fun y => y <= pos) (bm_iter b))).
Proof.
  intros E Hf Hpos Hpost. pose proof (bm_iter_sorted b) as Hs.
  unfold Prune.cached_shift, bm_rank. destruct (bm_is_empty b) eqn:He.
  { apply bm_is_empty_spec in He. rewrite He. done. }
  unfold wrap32. rewrite Z.mod_small by lia.
  assert (filter (fun y => y <= pos) (bm_iter b) = filter (fun y => y <= pos) pre) as Efilt.
  { rewrite E, filter_app, (filter_none _ post); [by rewrite app_nil_r|].
    intros x Hx. specialize (Hpost x Hx). lia. }
  rewrite Efilt. rewrite E in Hs. apply StronglySorted_app in Hs as (_ & Hs & _).
  pose proof (sorted_filter_le pre pos Hs) as Et.
  set (r := length (filter (fun y => y <= pos) pre)) in *. rewrite Et.
  assert (r <= length pre)%nat as Hr by apply length_filter.
  destruct Hf as [Hl Hc]. destruct (Nat.eqb_spec r 0) as [->|]; [done|].
  destruct (Nat.ltb_spec (length cache) r); [lia|]. rewrite Hc by lia.
  by replace (S (r - 1)) with r by lia.
Qed.

Lemma build_cache_filled pre post cache :
  bm_iter b = pre ++ post -> filled cache pre ->
  exists cache', Prune.build_cache b curr post cache = Ok cache' /\ filled cache' (pre ++ post).
Proof.
  revert pre cache. induction post as [|x post IH]; intros pre cache E Hf; cbn [Prune.build_cache].
  { exists cache. by rewrite app_nil_r. }
  pose proof (bm_iter_sorted b) as Hs. rewrite E in Hs.
  assert (x ∈ b) as Hx by (rewrite <- elem_of_bm_iter, E; apply elem_of_app; right; by left).
  pose proof (Hrange x Hx). apply StronglySorted_app in Hs as (Hlt & _ & Hsp).
  inversion Hsp as [|? ? _ Hgt]; subst. rewrite Forall_forall in Hgt.
  rewrite u64_sub_small by (unfold is_u64; lia).
  rewrite (cached_shift_filled cache pre (x :: post)) by
    (done || lia || (intros y [->|Hy]%elem_of_cons; [lia|specialize (Hgt y Hy); lia])).
  cbn [bind]. unfold wrap32. rewrite Z.mod_small by lia.
  rewrite (proj2 (bm_contains_spec b x) Hx).
  assert (filter (fun y => y <= x - 1) (bm_iter b) = pre) as ->.
  { rewrite E, filter_app, filter_all, filter_none; [by rewrite app_nil_r|..].
    - intros y [->|Hy]%elem_of_cons; [lia|]. specialize (Hgt y Hy). lia.
    - intros y Hy. specialize (Hlt y x Hy ltac:(by left)). lia. }
  assert (0 <= sumf curr (pre ++ [x]) < 2 ^ 64) as Hb.
  { apply (sumf_part _ post). by rewrite <- app_assoc. }
  rewrite sumf_app in Hb. simpl in Hb. rewrite u64_add_small by (unfold is_u64; lia).
  destruct (IH (pre ++ [x]) (cache ++ [sumf curr pre + curr x])) as (cache' & Hc' & Hf').
  - by rewrite <- app_assoc.
  - destruct Hf as [Hl Hc]. split; [by rewrite !length_app, Hl|].
    intros i Hi. rewrite length_app in Hi. simpl in Hi.
    destruct (decide (i < length pre)%nat).
    + rewrite lookup_app_l by lia. rewrite Hc by lia. by rewrite take_app_le by lia.
    + replace i with (length cache) by lia. rewrite list_lookup_middle by done.
      rewrite take_ge by (rewrite length_app; simpl; lia). rewrite sumf_app. simpl. f_equal. lia.
  - exists cache'. rewrite <- app_assoc in Hf'. done.
Qed.

(** A built cache answers with the sum over the roots up to the position. *)
Lemma built_shift cache pos :
  filled cache (bm_iter b) -> 0 <= pos < 2 ^ 32 ->
  Prune.cached_shift b cache pos = Ok (sumf curr (filter (fun y => y <= pos) (bm_iter b))).
Proof.
  intros Hf Hpos. apply (cached_shift_filled cache (bm_iter b) []); [by rewrite app_nil_r|done|done|].
  intros x Hx. by apply elem_of_nil in Hx.
Qed.

End Cache.

(** ** Pruned subtrees *)

(** The first position of the subtree below [r]: the subtree is [lo r .. r]. *)
Definition lo (r : Z) : Z := r - (2 ^ (bintree_postorder_height r + 1) - 2).

(** Strictly below one of the roots: gone from the compacted files. *)
Definition compacted (l : list Z) (q : Z) : Prop := Exists (fun r => lo r <= q < r) l.
#[export] Instance compacted_dec l q : Decision (compacted l q).
Proof. unfold compacted. apply _. Defined.

(** Sorted disjoint subtrees after [base]. *)
Fixpoint chain (base : Z) (l : list Z) : Prop :=
  match l with
  | [] => True
  | r :: l => base < lo r /\ lo r <= r /\ chain r l
  end.

Lemma chain_after base l r : chain base l -> r ∈ l -> base < lo r.
Proof.
  revert base. induction l as [|x l IH]; intros base; [by intros _ ?%elem_of_nil|].
  intros (Hb & Hx & Hc) [->|Hr]%elem_of_cons; [done|]. specialize (IH x Hc Hr). lia.
Qed.

Lemma chain_not_compacted base l q : chain base l -> q <= base -> ~ compacted l q.
Proof.
  intros Hc Hq Hex. apply Exists_exists in Hex as (r & Hr & Hin).
  pose proof (chain_after base l r Hc Hr). lia.
Qed.

Definition count_compacted (l : list Z) (from upto : Z) : Z :=
  Z.of_nat (length (filter (compacted l) (seqZ (from + 1) (upto - from)))).

Lemma count_split l from mid upto :
  from <= mid <= upto -> count_compacted l from upto = count_compacted l from mid + count_compacted l mid upto.
Proof.
  intros Hm. unfold count_compacted. replace (upto - from) with ((mid - from) + (upto - mid)) by lia.
  rewrite seqZ_app by lia. rewrite filter_app, length_app.
  replace (from + 1 + (mid - from)) with (mid + 1) by lia. lia.
Qed.

Lemma count_ext l k from upto :
  (forall q, from < q <= upto -> compacted l q <-> compacted k q) ->
  count_compacted l from upto = count_compacted k from upto.
Proof.
  intros He. unfold count_compacted. f_equal. f_equal.
  assert (forall q, q ∈ seqZ (from + 1) (upto - from) -> compacted l q <-> compacted k q) as Hq.
  { intros q Hq%elem_of_seqZ. apply He. lia. }
  induction (seqZ (from + 1) (upto - from)) as [|x s IH]; [done|].
  rewrite !filter_cons. rewrite IH by (intros; apply Hq; by right).
  pose proof (Hq x ltac:(by left)). repeat case_decide; tauto.
Qed.

Lemma count_all l from upto :
  from <= upto -> (forall q, from < q <= upto -> compacted l q) -> count_compacted l from upto = upto - from.
Proof.
  intros Hle Hq. unfold count_compacted. rewrite filter_all; [rewrite length_seqZ; lia|].
  intros q Hin%elem_of_seqZ. apply Hq. lia.
Qed.

Lemma count_none l from upto :
  (forall q, from < q <= upto -> ~ compacted l q) -> count_compacted l from upto = 0.
Proof.
  intros Hq. unfold count_compacted. rewrite filter_none; [done|].
  intros q Hin%elem_of_seqZ. apply Hq. lia.
Qed.

Lemma count_chain base l q :
  chain base l -> StronglySorted Z.lt l -> base <= q -> ~ compacted l q ->
  count_compacted l base q = sumf (fun r => r - lo r) (filter (fun y => y <= q) l).
Proof.
  revert base. induction l as [|r l IH]; intros base Hc Hs Hq Hn.
  { apply count_none. intros x _ Hx. by inversion Hx. }
  destruct Hc as (Hb & Hlo & Hc). inversion Hs as [|? ? Hs' Hr]; subst. rewrite Forall_forall in Hr.
  assert (forall x, compacted (r :: l) x <-> lo r <= x < r \/ compacted l x) as Hcons.
  { intros x. unfold compacted. by rewrite Exists_cons. }
  rewrite filter_cons. destruct (decide (r <= q)) as [Hle|Hgt].
  - rewrite (count_split _ base r q) by lia. cbn [sumf foldr].
    rewrite (count_ext (r :: l) l r q).
    2: { intros x Hx. rewrite Hcons. split; [intros [?|?]; [lia|done]|by right]. }
    rewrite IH; [|done|done|done|by rewrite Hcons in Hn; intros ?; apply Hn; right].
    rewrite (count_split _ base (lo r - 1) r), (count_split _ (lo r - 1) (r - 1) r) by lia.
    rewrite count_none, count_all, count_none; [unfold sumf; lia|..].
    + intros x Hx. rewrite Hcons. intros [?|Hx']; [lia|].
      by apply (chain_not_compacted r l x Hc ltac:(lia)).
    + lia.
    + intros x Hx. rewrite Hcons. left. lia.
    + intros x Hx. rewrite Hcons. intros [?|Hx']; [lia|].
      by apply (chain_not_compacted r l x Hc ltac:(lia)).
  - rewrite (filter_none _ l) by (intros y Hy; specialize (Hr y Hy); lia).
    rewrite Hcons in Hn. assert (q < lo r) by (destruct (Z.lt_ge_cases q (lo r)); [done|destruct Hn; left; lia]).
    apply count_none. intros x Hx. rewrite Hcons. intros [?|Hx']; [lia|]. by apply (chain_not_compacted r l x Hc ltac:(lia)).
Qed.

(** ** Subtrees are the positions below a node *)
Lemma lo_node n h : is_node n h -> pos_of n h < 2 ^ 64 -> lo (pos_of n h) = pos_of n h - (2 ^ (h + 1) - 2).
Proof. intros. unfold lo. by rewrite height_pos. Qed.

Lemma lo_bounds r : 1 <= r < 2 ^ 63 -> 1 <= lo r <= r.
Proof.
  intros Hr. destruct (pos_of_surj r ltac:(lia)) as (n & h & Hnode & ->).
  rewrite lo_node by (done || lia). pose proof (pos_of_ge n h Hnode).
  pose proof Hnode as (_ & Hh & _). rewrite pow2_succ in * by done.
  assert (0 < 2 ^ h) by (apply Z.pow_pos_nonneg; lia). lia.
Qed.

Lemma lo_parent n h :
  is_node n h -> pos_of (parent_leaf n h) (h + 1) < 2 ^ 63 ->
  lo (pos_of (parent_leaf n h) (h + 1)) <= lo (pos_of n h) /\
  pos_of n h < pos_of (parent_leaf n h) (h + 1).
Proof.
  intros Hnode Hlt. pose proof (pos_of_parent_lt n h Hnode). split; [|done].
  rewrite !lo_node by (done || lia || by apply parent_node).
  pose proof Hnode as (_ & Hh & _). rewrite (pow2_succ (h + 1)), (pow2_succ h) by lia.
  assert (0 < 2 ^ h) by (apply Z.pow_pos_nonneg; lia).
  pose proof (family_positions n h Hnode) as Hf. rewrite pow2_succ in Hf by done.
  destruct (Z.testbit n h); lia.
Qed.

Lemma ancestors_above fuel m j last r :
  is_node m j -> last < 2 ^ 63 -> r ∈ ancestors fuel m j last ->
  lo r <= lo (pos_of m j) /\ pos_of m j <= r <= last.
Proof.
  revert m j. induction fuel as [|fuel IH]; intros m j Hm Hl; [by intros ?%elem_of_nil|].
  cbn [ancestors]. destruct (Z.leb_spec (pos_of m j) last) as [Hle|]; [|by intros ?%elem_of_nil].
  pose proof (pos_of_pos m j Hm). pose proof (lo_bounds (pos_of m j) ltac:(lia)).
  intros [->|Hr]%elem_of_cons; [lia|].
  destruct fuel as [|fuel]; [by apply elem_of_nil in Hr|].
  assert (pos_of (parent_leaf m j) (j + 1) <= last) as Hp.
  { cbn [ancestors] in Hr. destruct (Z.leb_spec (pos_of (parent_leaf m j) (j + 1)) last); [done|].
    by apply elem_of_nil in Hr. }
  destruct (lo_parent m j Hm ltac:(lia)).
  destruct (IH _ _ (parent_node m j Hm) Hl Hr). lia.
Qed.

Lemma ancestors_up fuel m j last n h :
  is_node m j -> is_node n h -> last < 2 ^ 63 -> 63 <= j + Z.of_nat fuel ->
  pos_of n h ∈ ancestors fuel m j last -> pos_of (parent_leaf n h) (h + 1) <= last ->
  pos_of (parent_leaf n h) (h + 1) ∈ ancestors fuel m j last.
Proof.
  intros Hm Hn Hl. revert m j Hm. induction fuel as [|fuel IH]; intros m j Hm Hf Hin Hp.
  - by apply elem_of_nil in Hin.
  - cbn [ancestors] in *. destruct (Z.leb_spec (pos_of m j) last) as [Hle|]; [|by apply elem_of_nil in Hin].
    apply elem_of_cons in Hin as [E|Hin]; right.
    + apply pos_of_inj in E as [-> ->]; [|done|done|]. 2: { pose proof (pos_of_parent_lt n h Hn). lia. }
      destruct fuel as [|fuel].
      * pose proof (walk_room _ _ (parent_node m j Hm) ltac:(lia)). lia.
      * cbn [ancestors]. destruct (Z.leb_spec (pos_of (parent_leaf m j) (j + 1)) last); [by left|lia].
    + apply IH; [by apply parent_node|lia|done|done].
Qed.

Lemma is_node_kids n h :
  is_node n (h + 1) -> 0 <= h ->
  is_node n h /\ is_node (n - 2 ^ h) h /\ Z.testbit n h = true /\
  pos_of (parent_leaf n h) (h + 1) = pos_of n (h + 1) /\
  pos_of (parent_leaf (n - 2 ^ h) h) (h + 1) = pos_of n (h + 1).
Proof.
  intros Hn Hh. destruct (is_node_children n h Hn Hh) as (H1 & H2 & Hb).
  unfold parent_leaf. rewrite Hb, (left_child_bit n h Hn Hh). split_and!; [done..|]. f_equal. lia.
Qed.

(** Every position of the subtree has the root among its ancestors. *)
Lemma below_ancestor n h m j last :
  is_node n h -> is_node m j -> last < 2 ^ 63 -> pos_of n h <= last ->
  lo (pos_of n h) <= pos_of m j <= pos_of n h -> pos_of n h ∈ ancestors 64 m j last.
Proof.
  intros Hn Hm Hl. pose proof Hn as (_ & Hh & _). revert n Hn. pattern h.
  apply natlike_ind; [| |done]; clear h Hh.
  - intros n Hn Hle Hin. rewrite lo_node in Hin by (done || lia). change (2 ^ (0 + 1) - 2) with 0 in Hin.
    replace (pos_of n 0) with (pos_of m j) by lia. cbn [ancestors].
    destruct (Z.leb_spec (pos_of m j) last); [by left|lia].
  - intros h Hh IH n Hn Hle Hin. rewrite <- Z.add_1_r in *.
    destruct (is_node_kids n h Hn Hh) as (Hr & Hlft & Hb & Epar & Epar').
    destruct (Z.eq_dec (pos_of m j) (pos_of n (h + 1))) as [E|Hne].
    { rewrite <- E. cbn [ancestors]. destruct (Z.leb_spec (pos_of m j) last); [by left|lia]. }
    pose proof (family_positions n h Hr) as Hf. rewrite Hb in Hf. destruct Hf as [Ep Es].
    unfold parent_leaf, sibling_leaf in Ep, Es. rewrite Hb in Ep, Es.
    assert (0 < 2 ^ h) by (apply Z.pow_pos_nonneg; lia).
    rewrite lo_node in Hin by (done || lia). rewrite (pow2_succ (h + 1)), (pow2_succ h) in Hin by lia.
    rewrite pow2_succ in Es by done.
    destruct (Z.le_gt_cases (pos_of m j) (pos_of (n - 2 ^ h) h)) as [Hleft|Hright].
    + rewrite <- Epar'. apply ancestors_up; [done|done|done|destruct Hm; lia| |by rewrite Epar'].
      apply IH; [done|lia|]. rewrite lo_node by (done || lia). rewrite pow2_succ by done. lia.
    + rewrite <- Epar. apply ancestors_up; [done|done|done|destruct Hm; lia| |by rewrite Epar].
      apply IH; [done|lia|]. rewrite lo_node by (done || lia). rewrite pow2_succ by done. lia.
Qed.

Lemma path_spec q r last :
  1 <= q < 2 ^ 63 -> last < 2 ^ 63 ->
  r ∈ path q last <-> (1 <= r /\ lo r <= q <= r /\ r <= last).
Proof.
  intros Hq Hl. destruct (pos_of_surj q ltac:(lia)) as (m & j & Hm & ->).
  rewrite path_node by (done || lia). split.
  - intros Hr. destruct (ancestors_above 64 m j last r Hm Hl Hr).
    pose proof (lo_bounds (pos_of m j) ltac:(lia)). lia.
  - intros (H1 & Hin & Hle). destruct (pos_of_surj r ltac:(lia)) as (n & h & Hn & ->).
    by apply below_ancestor.
Qed.

(** Subtrees are nested or disjoint. *)
Lemma subtree_nested p r : 1 <= p -> r < 2 ^ 62 -> lo r <= p <= r -> lo r <= lo p.
Proof.
  intros Hp Hr Hin. destruct (pos_of_surj r ltac:(lia)) as (m & j & Hm & ->).
  destruct (pos_of_surj p ltac:(lia)) as (n & h & Hn & ->).
  pose proof (below_ancestor m j n h (pos_of m j) Hm Hn ltac:(lia) ltac:(lia) Hin) as Ha.
  by destruct (ancestors_above 64 _ _ (pos_of m j) _ Hn ltac:(lia) Ha).
Qed.

(** A root above a node is above its parent too. *)
Lemma under_parent n h r :
  is_node n h -> 1 <= r < 2 ^ 62 -> lo r <= pos_of n h < r ->
  lo r <= lo (pos_of (parent_leaf n h) (h + 1)) /\ pos_of (parent_leaf n h) (h + 1) <= r.
Proof.
  intros Hn Hr Hin. destruct (pos_of_surj r ltac:(lia)) as (m & j & Hm & ->).
  pose proof (below_ancestor m j n h (pos_of m j) Hm Hn ltac:(lia) ltac:(lia) ltac:(lia)) as Ha.
  change 64%nat with (S 63) in Ha. cbn [ancestors] in Ha.
  destruct (pos_of n h <=? pos_of m j); [|by apply elem_of_nil in Ha].
  apply elem_of_cons in Ha as [E|Ha]; [lia|].
  destruct (ancestors_above 63 _ _ (pos_of m j) (pos_of m j) (parent_node n h Hn) ltac:(lia) Ha). lia.
Qed.

(** The subtree of the parent: itself and the subtrees of its two children. *)
Lemma parent_subtree n h :
  is_node n h -> pos_of (parent_leaf n h) (h + 1) < 2 ^ 62 ->
  let c := pos_of n h in let s := pos_of (sibling_leaf n h) h in
  let p := pos_of (parent_leaf n h) (h + 1) in
  p = Z.max c s + 1 /\ s < 2 ^ 62 /\
  (forall q, lo p <= q < p <-> lo c <= q <= c \/ lo s <= q <= s) /\ (s < lo c \/ c < lo s).
Proof.
  intros Hn Hp c s p. pose proof (family_positions n h Hn) as Hf.
  pose proof Hn as (_ & Hh & _). pose proof (pos_of_parent_lt n h Hn) as Hcp.
  assert (0 < 2 ^ h) by (apply Z.pow_pos_nonneg; lia).
  assert (s < p) as Hs.
  { pose proof (pos_of_parent_lt _ _ (sibling_node n h Hn)) as Hsp.
    rewrite sibling_parent in Hsp by done. done. }
  assert (lo p = p - (2 ^ (h + 1 + 1) - 2)) as Elp by (apply lo_node; [by apply parent_node|lia]).
  assert (lo c = c - (2 ^ (h + 1) - 2)) as Elc by (apply lo_node; [done|unfold c, p in *; lia]).
  assert (lo s = s - (2 ^ (h + 1) - 2)) as Els by (apply lo_node; [by apply sibling_node|unfold s, p in *; lia]).
  fold c s p in Hf. rewrite Elp, Elc, Els. rewrite (pow2_succ (h + 1)) by lia.
  rewrite pow2_succ in * by done.
  destruct (Z.testbit n h); destruct Hf as [Ef1 Ef2]; split_and!; try lia; intros q; lia.
Qed.

(** ** Well-formed prune lists *)
Definition pruned_by (b : gset Z) (q : Z) : Prop := exists r, r ∈ b /\ lo r <= q <= r.

Definition antichain (b : gset Z) : Prop :=
  forall r1 r2, r1 ∈ b -> r2 ∈ b -> r1 < r2 -> r1 < lo r2.

(** Roots and cache of pruned positions, for a range of [N] leaves. *)
Record roots_ok (N : Z) (pl : PruneList) : Prop := {
  roots_cap : 0 <= N /\ mmr_size N < 2 ^ 31;
  roots_range : forall r, r ∈ bitmap pl -> 1 <= r <= mmr_size N;
  roots_antichain : antichain (bitmap pl);
  roots_cache : forall q, q ∈ pruned_cache pl <-> pruned_by (bitmap pl) q
}.

(** The shift caches are the running sums over the roots. *)
Definition shifts_ok (pl : PruneList) : Prop :=
  bitmap pl = ∅ \/ filled (fun r => r - lo r) (shift_cache pl) (bm_iter (bitmap pl)).

Lemma antichain_chain b :
  antichain b -> (forall r, r ∈ b -> 1 <= r < 2 ^ 63) -> chain 0 (bm_iter b).
Proof.
  intros Ha Hr. pose proof (bm_iter_sorted b) as Hs.
  assert (forall r, r ∈ bm_iter b -> r ∈ b) as Hin by (intros r; by rewrite elem_of_bm_iter).
  assert (forall r, r ∈ bm_iter b -> 0 < lo r) as Hbase.
  { intros r Hb. pose proof (lo_bounds r (Hr r (Hin r Hb))). lia. }
  revert Hbase. generalize 0. induction Hs as [|x l Hs IH Hx]; intros base Hbase; [done|].
  pose proof (lo_bounds x (Hr x (Hin x ltac:(by left)))).
  split_and!; [apply Hbase; by left|lia|]. rewrite Forall_forall in Hx. apply IH.
  - intros r Hl. apply Hin. by right.
  - intros r Hl. apply Ha; [apply Hin; by left|apply Hin; by right|by apply Hx].
Qed.

Lemma chain_sum base l M :
  chain base l -> base <= M -> (forall r, r ∈ l -> r <= M) -> sumf (fun r => r - lo r) l <= M - base.
Proof.
  revert base. induction l as [|r l IH]; intros base Hc Hb HM; [simpl; lia|]. rewrite sumf_cons.
  destruct Hc as (H1 & H2 & Hc). pose proof (HM r ltac:(by left)).
  specialize (IH r Hc ltac:(lia) ltac:(intros; apply HM; by right)). lia.
Qed.

Lemma node_shift_lo r : 1 <= r < 2 ^ 32 -> Prune.node_shift r = r - lo r.
Proof.
  intros Hr. destruct (pos_of_surj r ltac:(lia)) as (n & h & Hn & ->).
  unfold Prune.node_shift. rewrite lo_node, height_pos by (done || lia).
  pose proof (walk_room n h Hn ltac:(lia)) as (Hh & Hw & E2).
  rewrite u64_shl_small by (unfold is_u64; lia). rewrite E2. unwrap64. lia.
Qed.

(** A sum over the roots is the number of positions below them. *)
Lemma shift_count N pl q :
  roots_ok N pl -> shifts_ok pl -> 0 <= q < 2 ^ 32 -> ~ compacted (bm_iter (bitmap pl)) q ->
  Prune.get_shift pl q = Ok (count_compacted (bm_iter (bitmap pl)) 0 q).
Proof.
  intros [[HN Hcap] Hrange Hanti _] Hsh Hq Hn.
  pose proof (antichain_chain _ Hanti ltac:(intros r Hr; specialize (Hrange r Hr); lia)) as Hchain.
  rewrite (count_chain 0 (bm_iter (bitmap pl)) q Hchain (bm_iter_sorted _) ltac:(lia) Hn).
  unfold Prune.get_shift. destruct Hsh as [E|Hf].
  - unfold Prune.cached_shift. by rewrite (proj2 (bm_is_empty_spec _) E), E.
  - by apply built_shift.
Qed.

Lemma sumf_ext f g l : (forall x, x ∈ l -> f x = g x) -> sumf f l = sumf g l.
Proof.
  induction l as [|x l IH]; intros Hfg; [done|]. rewrite !sumf_cons, Hfg by (by left).
  f_equal. apply IH. intros y Hy. apply Hfg. by right.
Qed.

Lemma filled_ext f g cache pre :
  (forall x, x ∈ pre -> f x = g x) -> filled f cache pre -> filled g cache pre.
Proof.
  intros Hfg [Hl Hc]. split; [done|]. intros i Hi. rewrite Hc by done. f_equal.
  apply sumf_ext. intros x Hx. apply Hfg. by eapply elem_of_take in Hx as (? & ? & _); eapply list_elem_of_lookup_2.
Qed.

Lemma node_leaf_shift_bounds r : 1 <= r < 2 ^ 32 -> 0 <= Prune.node_leaf_shift r <= r - lo r.
Proof.
  intros Hr. destruct (pos_of_surj r ltac:(lia)) as (n & h & Hn & ->).
  unfold Prune.node_leaf_shift. rewrite lo_node, height_pos by (done || lia).
  pose proof (walk_room n h Hn ltac:(lia)) as (Hh & Hw & E2). rewrite E2.
  destruct (Z.eqb_spec h 0) as [->|]; [lia|].
  rewrite u64_shl_small by (unfold is_u64; lia).
  assert (2 ^ 1 <= 2 ^ h) by (apply Z.pow_le_mono_r; lia). lia.
Qed.

Lemma sumf_le f g l : (forall x, x ∈ l -> f x <= g x) -> sumf f l <= sumf g l.
Proof.
  induction l as [|x l IH]; intros Hfg; [done|]. rewrite !sumf_cons.
  pose proof (Hfg x ltac:(by left)). assert (sumf f l <= sumf g l) by (apply IH; intros; apply Hfg; by right). lia.
Qed.

Lemma pruned_cache_spec N b q :
  mmr_size N < 2 ^ 31 -> (forall r, r ∈ b -> 1 <= r <= mmr_size N) ->
  q ∈ (list_to_set (filter (fun pos =>
         existsb (fun x => bm_contains b (wrap32 x)) (path pos (bm_maximum b)))
         (seqZ 1 (bm_maximum b))) : gset Z) <-> pruned_by b q.
Proof.
  intros Hcap Hrange. rewrite elem_of_list_to_set, list_elem_of_filter, elem_of_seqZ.
  assert (bm_maximum b < 2 ^ 31 /\ forall r, r ∈ b -> r <= bm_maximum b) as [Hmax Hle].
  { destruct (decide (b = ∅)) as [->|Hne]; [split; [done|set_solver]|].
    destruct (bm_maximum_spec b Hne) as [Hin Hall]. specialize (Hrange _ Hin). split; [lia|done]. }
  rewrite Is_true_true, existsb_exists. split.
  - intros [(x & Hx%list_elem_of_In & Hb%bm_contains_spec) Hq].
    apply path_spec in Hx as (H1 & Hin & Hx); [|lia|lia]. unfold wrap32 in Hb.
    rewrite Z.mod_small in Hb by lia. by exists x.
  - intros (r & Hr & Hin). specialize (Hrange r Hr). specialize (Hle r Hr).
    pose proof (lo_bounds r ltac:(lia)). split; [|lia]. exists r.
    split; [apply list_elem_of_In, path_spec; lia|]. apply bm_contains_spec. unfold wrap32.
    by rewrite Z.mod_small by lia.
Qed.

(** Rebuilding the caches from the roots. *)
Lemma init_caches_ok N pl :
  0 <= N /\ mmr_size N < 2 ^ 31 ->
  (forall r, r ∈ bitmap pl -> 1 <= r <= mmr_size N) -> antichain (bitmap pl) ->
  (bitmap pl = ∅ -> pruned_cache pl = ∅) ->
  exists pl', Prune.init_caches pl = Ok pl' /\ bitmap pl' = bitmap pl /\
    roots_ok N pl' /\ shifts_ok pl'.
Proof.
  intros [HN Hcap] Hrange Hanti Hempty. unfold Prune.init_caches, Prune.build_shift_cache.
  destruct (bm_is_empty (bitmap pl)) eqn:He.
  - cbn [bind]. unfold Prune.build_leaf_shift_cache, Prune.build_pruned_cache. rewrite He. cbn [bind].
    rewrite He. apply bm_is_empty_spec in He. exists pl. split_and!; [done|done| |by left].
    constructor; [done..|]. rewrite (Hempty He), He. intros q. unfold pruned_by.
    split; [by intros ?%not_elem_of_empty|]. by intros (r & ?%not_elem_of_empty & _).
  - assert (forall r, r ∈ bitmap pl -> 1 <= r < 2 ^ 32) as Hr32.
    { intros r Hr. specialize (Hrange r Hr). lia. }
    pose proof (antichain_chain (bitmap pl) Hanti ltac:(intros r Hr; specialize (Hr32 r Hr); lia)) as Hchain.
    assert (sumf (fun r => r - lo r) (bm_iter (bitmap pl)) <= mmr_size N) as Hsum.
    { pose proof (chain_sum 0 (bm_iter (bitmap pl)) (mmr_size N) Hchain) as Hs.
      pose proof (mmr_size_ge N HN). rewrite Z.sub_0_r in Hs. apply Hs; [lia|].
      intros r Hr%elem_of_bm_iter. by apply Hrange. }
    assert (forall x, x ∈ bm_iter (bitmap pl) -> Prune.node_shift x = x - lo x) as Hns.
    { intros x Hx%elem_of_bm_iter. by apply node_shift_lo, Hr32. }
    assert (forall x, x ∈ bitmap pl -> 0 <= x - lo x) as Hpos.
    { intros x Hx. pose proof (lo_bounds x ltac:(specialize (Hr32 x Hx); lia)). lia. }
    destruct (build_cache_filled (bitmap pl) Prune.node_shift Hr32) with (pre := @nil Z)
      (post := bm_iter (bitmap pl)) (cache := @nil Z) as (c1 & Hc1 & Hf1).
    { intros x Hx. rewrite Hns by (by apply elem_of_bm_iter). by apply Hpos. }
    { rewrite (sumf_ext _ (fun r => r - lo r)) by done. lia. }
    { done. }
    { split; [done|]. simpl. lia. }
    destruct (build_cache_filled (bitmap pl) Prune.node_leaf_shift Hr32) with (pre := @nil Z)
      (post := bm_iter (bitmap pl)) (cache := @nil Z) as (c2 & Hc2 & _).
    { intros x Hx. by apply node_leaf_shift_bounds, Hr32. }
    { pose proof (sumf_le Prune.node_leaf_shift (fun r => r - lo r) (bm_iter (bitmap pl))
        ltac:(intros x Hx%elem_of_bm_iter; apply node_leaf_shift_bounds; auto)). lia. }
    { done. }
    { split; [done|]. simpl. lia. }
    rewrite Hc1. cbn [bind]. unfold Prune.build_leaf_shift_cache. cbn [bitmap]. rewrite He, Hc2.
    cbn [bind]. unfold Prune.build_pruned_cache. cbn [bitmap]. rewrite He.
    eexists. split; [done|]. cbn [bitmap pruned_cache shift_cache]. split_and!; [done| |].
    + constructor; cbn [bitmap pruned_cache]; [done..|]. intros q. by apply (pruned_cache_spec N).
    + right. cbn [bitmap shift_cache]. by eapply filled_ext.
Qed.

(** ** Adding a node *)

(** The loop invariant of [add]: everything strictly below [c] is pruned, [c]
    itself is not, and no root is in the subtree of [c]. *)
Record adding (N : Z) (pl : PruneList) (c : Z) : Prop := {
  adding_cap : 0 <= N /\ mmr_size N < 2 ^ 31;
  adding_range : forall r, r ∈ bitmap pl -> 1 <= r <= mmr_size N;
  adding_antichain : antichain (bitmap pl);
  adding_cache : forall q, q ∈ pruned_cache pl <-> pruned_by (bitmap pl) q \/ lo c <= q < c;
  adding_pos : 1 <= c <= mmr_size N;
  adding_free : forall r, r ∈ bitmap pl -> r < lo c \/ c < lo r
}.

Lemma adding_done N pl c :
  adding N pl c ->
  roots_ok N (mkPruneList ({[ c ]} ∪ bitmap pl) ({[ c ]} ∪ pruned_cache pl)
    (shift_cache pl) (leaf_shift_cache pl)).
Proof.
  intros [Hcap Hrange Hanti Hcache Hc Hfree].
  pose proof (lo_bounds c ltac:(lia)) as Hlo. constructor; cbn [bitmap pruned_cache]; [done|..].
  - intros r [->%elem_of_singleton|Hr]%elem_of_union; [lia|by apply Hrange].
  - intros r1 r2 [->%elem_of_singleton|H1]%elem_of_union [->%elem_of_singleton|H2]%elem_of_union Hlt.
    + lia.
    + destruct (Hfree r2 H2); lia.
    + pose proof (Hrange r1 H1). pose proof (lo_bounds r1 ltac:(lia)). destruct (Hfree r1 H1); lia.
    + by apply Hanti.
  - intros q. rewrite elem_of_union, elem_of_singleton, Hcache. split.
    + intros [->|[(r & Hr & Hin)|Hin]].
      * exists c. split; [by apply elem_of_union_l, elem_of_singleton|lia].
      * exists r. split; [by apply elem_of_union_r|done].
      * exists c. split; [by apply elem_of_union_l, elem_of_singleton|lia].
    + intros (r & [->%elem_of_singleton|Hr]%elem_of_union & Hin).
      * destruct (Z.eq_dec q c); [by left|right; right; lia].
      * right. left. by exists r.
Qed.

Lemma adding_up N pl n h :
  let c := pos_of n h in let s := pos_of (sibling_leaf n h) h in
  let p := pos_of (parent_leaf n h) (h + 1) in
  is_node n h -> adding N pl c -> s ∈ bitmap pl ->
  adding N (mkPruneList (bitmap pl ∖ {[ s ]}) ({[ c ]} ∪ pruned_cache pl)
    (shift_cache pl) (leaf_shift_cache pl)) p.
Proof.
  intros c s p Hn [[HN Hcap] Hrange Hanti Hcache Hc Hfree] Hs. pose proof (Hrange s Hs) as Hsr.
  assert (p <= mmr_size N) as Hpr.
  { apply pos_of_in_range; [by apply parent_node|done|].
    destruct Hc as [_ Hc]. apply pos_of_in_range in Hc; [|done..].
    destruct Hsr as [_ Hsr]. apply pos_of_in_range in Hsr; [|by apply sibling_node|done].
    unfold parent_leaf, sibling_leaf in *. destruct (Z.testbit n h); lia. }
  destruct (parent_subtree n h Hn) as (Ep & Hs62 & Hsub & Hdisj); [fold p; lia|].
  fold c s p in Ep, Hs62, Hsub, Hdisj.
  pose proof (lo_bounds s ltac:(lia)) as Hls. pose proof (lo_bounds c ltac:(lia)) as Hlc.
  pose proof (lo_bounds p ltac:(lia)) as Hlp.
  constructor; cbn [bitmap pruned_cache]; [done| | | |lia|].
  - intros r [Hr _]%elem_of_difference. by apply Hrange.
  - intros r1 r2 [H1 _]%elem_of_difference [H2 _]%elem_of_difference. by apply Hanti.
  - intros q. rewrite elem_of_union, elem_of_singleton, Hcache, Hsub. split.
    + intros [->|[(r & Hr & Hin)|Hin]]; [right; left; lia| |right; left; lia].
      destruct (Z.eq_dec r s) as [->|]; [right; by right|]. left. exists r.
      split; [by apply elem_of_difference; rewrite elem_of_singleton|done].
    + intros [(r & [Hr _]%elem_of_difference & Hin)|[Hin|Hin]].
      * right. left. by exists r.
      * destruct (Z.eq_dec q c); [by left|right; right; lia].
      * right. left. by exists s.
  - intros r [Hr Hrs%not_elem_of_singleton]%elem_of_difference. pose proof (Hrange r Hr) as Hrr.
    pose proof (lo_bounds r ltac:(lia)). pose proof (Hfree r Hr) as Hrf.
    assert (r < lo s \/ s < lo r) as Hsf.
    { destruct (Z.lt_trichotomy r s) as [Hlt|[|Hlt]]; [left; by apply Hanti|done|right; by apply Hanti]. }
    pose proof (Hsub r) as Hr1. pose proof (Hsub (lo p)) as Hlop.
    destruct (Z.lt_ge_cases r (lo p)) as [|Hge]; [by left|]. right.
    assert (p <= r) as Hpr' by (destruct (Z.lt_ge_cases r p); [lia|done]).
    destruct (Z.lt_ge_cases p (lo r)) as [|Hlr]; [done|]. exfalso.
    assert (lo r <= c) as Hlrc.
    { pose proof (Hsub c) as Hcs. pose proof (subtree_nested p r ltac:(lia) ltac:(lia) ltac:(lia)). lia. }
    lia.
Qed.

Lemma adding_sibling N pl n h :
  is_node n h -> adding N pl (pos_of n h) ->
  let s := pos_of (sibling_leaf n h) h in
  1 <= s < 2 ^ 32 /\ (s ∈ bitmap pl \/ s ∈ pruned_cache pl -> s ∈ bitmap pl).
Proof.
  intros Hn [[HN Hcap] Hrange Hanti Hcache Hc Hfree] s.
  pose proof (walk_room n h Hn ltac:(lia)) as (Hh & Hw & E2).
  pose proof (family_positions n h Hn) as Hf. pose proof (pos_of_pos _ _ (sibling_node n h Hn)).
  assert (pos_of (parent_leaf n h) (h + 1) < 2 ^ 62) as Hp by (destruct (Z.testbit n h); lia).
  destruct (parent_subtree n h Hn Hp) as (Ep & _ & Hsub & Hdisj).
  split; [unfold s; destruct (Z.testbit n h); lia|].
  intros [Hs|Hs]; [done|]. apply Hcache in Hs as [(r & Hr & Hin)|Hin].
  2: { pose proof (lo_bounds s ltac:(unfold s; destruct (Z.testbit n h); lia)). fold s in Hdisj. lia. }
  destruct (Z.eq_dec r s) as [->|Hne]; [done|]. exfalso. pose proof (Hrange r Hr).
  destruct (under_parent _ h r (sibling_node n h Hn)) as [Hlo Hle]; [lia|fold s; lia|].
  rewrite sibling_parent in Hlo, Hle by done. pose proof (lo_bounds (pos_of n h) ltac:(lia)).
  pose proof (proj2 (Hsub (pos_of n h)) ltac:(left; lia)). destruct (Hfree r Hr); lia.
Qed.

Lemma add_loop_ok N fuel pl n h :
  is_node n h -> adding N pl (pos_of n h) -> 62 <= h + Z.of_nat fuel ->
  let pl' := Prune.add_loop fuel pl (pos_of n h) in
  roots_ok N pl' /\ pos_of n h ∈ pruned_cache pl' /\ pruned_cache pl ⊆ pruned_cache pl' /\
  (forall q, q ∈ pruned_cache pl' -> q ∈ pruned_cache pl \/ (lo q <= pos_of n h <= q /\ q <= mmr_size N)).
Proof.
  revert pl n h. induction fuel as [|fuel IH]; intros pl n h Hn Had Hf.
  { pose proof (height_lt n h 62 Hn). pose proof (adding_cap _ _ _ Had).
    pose proof (adding_pos _ _ _ Had). lia. }
  pose proof Had as [[HN Hcap] Hrange Hanti Hcache Hc Hfree].
  destruct (adding_sibling N pl n h Hn Had) as [Hs32 Hsib].
  pose proof (lo_bounds (pos_of n h) ltac:(lia)) as Hlc.
  cbn [Prune.add_loop]. rewrite family_node by (done || lia).
  unfold wrap32. rewrite !Z.mod_small by lia.
  set (s := pos_of (sibling_leaf n h) h) in *.
  destruct (bm_contains (bitmap pl) s || bm_contains (pruned_cache pl) s) eqn:Eb.
  - rewrite orb_true_iff, !bm_contains_spec in Eb. specialize (Hsib Eb).
    pose proof (adding_up N pl n h Hn Had Hsib) as Hup.
    destruct (IH _ _ _ (parent_node n h Hn) Hup ltac:(lia)) as (Hr & Hin & Hsub & Hnew).
    split_and!; [done| | |].
    + apply Hsub. by apply elem_of_union_l, elem_of_singleton.
    + intros q Hq. apply Hsub. by apply elem_of_union_r.
    + intros q Hq. apply Hnew in Hq as [[->%elem_of_singleton|Hq]%elem_of_union|Hq]; [right; lia|by left|right].
      pose proof (adding_pos _ _ _ Hup). destruct (lo_parent n h Hn ltac:(lia)).
      pose proof (subtree_nested (pos_of (parent_leaf n h) (h + 1)) q ltac:(lia) ltac:(lia) ltac:(lia)). lia.
  - split_and!.
    + by apply adding_done.
    + by apply elem_of_union_l, elem_of_singleton.
    + intros q Hq. by apply elem_of_union_r.
    + intros q [->%elem_of_singleton|Hq]%elem_of_union; [right; lia|by left].
Qed.

(** ** The properties of the prune list *)
Lemma count_lt l from upto :
  from < upto -> ~ compacted l upto -> 0 <= count_compacted l from upto <= upto - from - 1.
Proof.
  intros Hlt Hn. rewrite (count_split l from (upto - 1) upto) by lia.
  rewrite (count_none l (upto - 1) upto) by (intros q Hq; by replace q with upto by lia).
  unfold count_compacted. pose proof (length_filter (compacted l) (seqZ (from + 1) (upto - 1 - from))) as Hl.
  rewrite length_seqZ in Hl. lia.
Qed.

(** The shift of a position that is still stored is the number of
    positions compacted away up to it, without panic, and [pos - shift], the
    place of the position in the compacted file, is at least 1 and strictly
    increasing: compaction moves the stored nodes to distinct places in order. *)
Theorem prune_list_shift_counts N pl q q' :
  roots_ok N pl -> shifts_ok pl -> 1 <= q < q' -> q' < 2 ^ 32 ->
  ~ compacted (bm_iter (bitmap pl)) q -> ~ compacted (bm_iter (bitmap pl)) q' ->
  exists s s', Prune.get_shift pl q = Ok s /\ Prune.get_shift pl q' = Ok s' /\
    s = count_compacted (bm_iter (bitmap pl)) 0 q /\
    s' = count_compacted (bm_iter (bitmap pl)) 0 q' /\
    1 <= q - s < q' - s'.
Proof.
  intros Hr Hs Hq Hq' Hn Hn'. do 2 eexists.
  rewrite (shift_count N pl q), (shift_count N pl q') by (done || lia).
  split_and!; [done..| |].
  - pose proof (count_lt _ 0 q ltac:(lia) Hn). lia.
  - rewrite (count_split _ 0 q q') by lia. pose proof (count_lt _ q q' ltac:(lia) Hn'). lia.
Qed.

(** A list with the root 3 (nodes 1 and 2 compacted away). *)
Definition pruned_three : PruneList := mkPruneList {[ 3 ]} {[ 1; 2; 3 ]} [2] [2].

Lemma pruned_three_ok : roots_ok 4 pruned_three /\ shifts_ok pruned_three.
Proof.
  split.
  - constructor; cbn [bitmap pruned_cache pruned_three].
    + done.
    + intros r ->%elem_of_singleton. done.
    + intros r1 r2 ->%elem_of_singleton ->%elem_of_singleton. lia.
    + intros q. unfold pruned_by. split.
      * intros Hq. exists 3. split; [by apply elem_of_singleton|]. change (lo 3) with 1.
        rewrite !elem_of_union, !elem_of_singleton in Hq. lia.
      * intros (r & ->%elem_of_singleton & Hin). change (lo 3) with 1 in Hin.
        rewrite !elem_of_union, !elem_of_singleton. lia.
  - right. split; [done|]. change (bm_iter (bitmap pruned_three)) with [3].
    intros [|i] Hi; simpl in Hi; [done|lia].
Qed.

Lemma prune_list_shift_counts_witness :
  exists s s', Prune.get_shift pruned_three 3 = Ok s /\ Prune.get_shift pruned_three 4 = Ok s' /\
    1 <= 3 - s < 4 - s'.
Proof.
  destruct pruned_three_ok as [Hr Hs].
  destruct (prune_list_shift_counts 4 pruned_three 3 4 Hr Hs) as (s & s' & H1 & H2 & _ & _ & H3);
    [lia|lia|..].
  - vm_decide.
  - vm_decide.
  - by exists s, s'.
Defined.

(** [add] of an unpruned leaf keeps the prune list well formed (the roots
    are an antichain, the cache is exactly the positions at or below a root),
    prunes the leaf, unprunes nothing, and newly prunes only the leaf and
    ancestors of it; [flush] then rebuilds caches that are right. *)
Theorem prune_list_add N pl pos :
  roots_ok N pl -> is_leaf pos = true -> 1 <= pos <= mmr_size N -> pos ∉ pruned_cache pl ->
  let pl' := Prune.add pl pos in
  roots_ok N pl' /\ pos ∈ pruned_cache pl' /\ pruned_cache pl ⊆ pruned_cache pl' /\
  (forall q, q ∈ pruned_cache pl' -> q ∈ pruned_cache pl \/ q ∈ path pos (mmr_size N)) /\
  (exists pl'', Prune.flush pl' = Ok pl'' /\ bitmap pl'' = bitmap pl' /\
     roots_ok N pl'' /\ shifts_ok pl'').
Proof.
  intros Hr Hleaf Hpos Hnew pl'. pose proof Hr as [[HN Hcap] Hrange Hanti Hcache].
  destruct (pos_of_surj pos ltac:(lia)) as (n & h & Hn & ->).
  unfold is_leaf in Hleaf. rewrite height_pos in Hleaf by (done || lia).
  apply Z.eqb_eq in Hleaf as ->.
  assert (lo (pos_of n 0) = pos_of n 0) as Elo by (rewrite lo_node by (done || lia); lia).
  assert (adding N pl (pos_of n 0)) as Had.
  { constructor; [done..| |done|].
    - intros q. rewrite Hcache, Elo. split; [by left|intros [?|?]; [done|lia]].
    - intros r Hrb. rewrite Elo. destruct (Z.lt_ge_cases r (pos_of n 0)); [by left|right].
      destruct (Z.lt_ge_cases (pos_of n 0) (lo r)); [done|]. destruct Hnew. apply Hcache. by exists r. }
  pose proof (add_loop_ok N 64 pl n 0 Hn Had ltac:(lia)) as Hadd. cbv zeta in Hadd.
  unfold pl', Prune.add. clear pl'. revert Hadd.
  generalize (Prune.add_loop 64 pl (pos_of n 0)). intros pl' (Hr' & Hin & Hsub & Hq).
  split_and!; [done|done|done| |].
  - intros q Hin'. destruct (Hq q Hin') as [?|Hq']; [by left|right]. apply path_spec; lia.
  - apply init_caches_ok; [done|apply Hr'|apply Hr'|]. intros E0.
    apply (roots_cache _ _ Hr') in Hin as (r & Hrb & _). rewrite E0 in Hrb. set_solver.
Qed.

(** Pruning the leaf 4 next to the root 3 leaves the two roots 3 and 4. *)
Lemma prune_list_add_witness :
  let pl' := Prune.add pruned_three 4 in
  roots_ok 4 pl' /\ 4 ∈ pruned_cache pl' /\ Prune.to_vec pl' = [3; 4].
Proof.
  destruct pruned_three_ok as [Hr _].
  destruct (prune_list_add 4 pruned_three 4 Hr) as (Hr' & Hin & _);
    [done|done|vm_decide|].
  split_and!; [done|done|by vm_compute].
Defined.

(** ** The properties of the leaf set *)
Lemma elem_of_bm_range from upto x :
  0 <= from -> upto < 2 ^ 32 -> x ∈ bm_range from upto <-> from <= x <= upto.
Proof.
  intros Hf Ht. unfold bm_range. rewrite elem_of_list_to_set, list_elem_of_fmap. split.
  - intros (y & -> & Hy%elem_of_seqZ). unfold wrap32. rewrite Z.mod_small; lia.
  - intros Hx. exists x. rewrite elem_of_seqZ. unfold wrap32. rewrite Z.mod_small; lia.
Qed.

Definition u32_set (b : gset Z) : Prop := forall x, x ∈ b -> 0 <= x < 2 ^ 32.

Lemma bm_maximum_u32 b : u32_set b -> 0 <= bm_maximum b < 2 ^ 32 /\ forall x, x ∈ b -> x <= bm_maximum b.
Proof.
  intros Hb. destruct (decide (b = ∅)) as [->|Hne]; [split; [done|intros x Hx; set_solver]|].
  destruct (bm_maximum_spec b Hne) as [Hin Hall]. split; [by apply Hb|done].
Qed.

Lemma elem_of_rewound b cutoff rm x :
  u32_set b -> 0 <= cutoff < 2 ^ 32 ->
  x ∈ Leaf.rewound b cutoff rm <-> x ∈ rm \/ (x ∈ b /\ x <= cutoff).
Proof.
  intros Hb Hc. destruct (bm_maximum_u32 b Hb) as [Hmax Hle]. unfold Leaf.rewound.
  rewrite elem_of_union, elem_of_difference, u64_add_small by (unfold is_u64; lia).
  rewrite elem_of_bm_range by lia. split.
  - intros [[Hx Hn]|Hx]; [right|by left]. specialize (Hle x Hx). split; [done|lia].
  - intros [Hx|[Hx Hxc]]; [by right|left]. split; [done|lia].
Qed.

(** The operations between two rewinds. *)
Inductive leaf_op : Type := LeafAdd (pos : Z) | LeafRemove (pos : Z).

Definition leaf_step (ls : LeafSet) (op : leaf_op) : LeafSet :=
  match op with
  | LeafAdd pos => Leaf.add ls pos
  | LeafRemove pos => Leaf.remove ls pos
  end.

(** New leaves come after the cutoff; any leaf may be spent. *)
Definition op_after (cutoff : Z) (op : leaf_op) : Prop :=
  match op with
  | LeafAdd pos => cutoff < pos < 2 ^ 32
  | LeafRemove pos => 0 <= pos < 2 ^ 32
  end.

Definition op_removes (pos : Z) (op : leaf_op) : Prop := op = LeafRemove pos.
#[export] Instance op_removes_dec pos op : Decision (op_removes pos op).
Proof.
  unfold op_removes. destruct op as [p|p]; [by right|].
  destruct (decide (p = pos)) as [->|]; [by left|right; naive_solver].
Defined.

Lemma leaf_steps_spec cutoff ops ls :
  0 <= cutoff -> u32_set (leaf_bitmap ls) -> Forall (op_after cutoff) ops ->
  let ls' := foldl leaf_step ls ops in
  u32_set (leaf_bitmap ls') /\ leaf_bitmap_bak ls' = leaf_bitmap_bak ls /\
  forall x, x <= cutoff ->
    x ∈ leaf_bitmap ls' <-> x ∈ leaf_bitmap ls /\ ~ Exists (op_removes x) ops.
Proof.
  intros Hc0 Hu Hops. revert ls Hu. induction Hops as [|op ops Hop Hops IH]; intros ls Hu ls'.
  { split_and!; [done|done|]. intros x Hx. rewrite Exists_nil. tauto. }
  assert (u32_set (leaf_bitmap (leaf_step ls op)) /\
    leaf_bitmap_bak (leaf_step ls op) = leaf_bitmap_bak ls /\
    forall x, x <= cutoff -> x ∈ leaf_bitmap (leaf_step ls op) <->
      x ∈ leaf_bitmap ls /\ ~ op_removes x op) as (Hu1 & Hb1 & H1).
  { destruct op as [p|p]; cbn [leaf_step Leaf.add Leaf.remove leaf_bitmap leaf_bitmap_bak op_after] in *;
      unfold wrap32; rewrite Z.mod_small by lia; split_and!; try done.
    - intros x [->%elem_of_singleton|Hx]%elem_of_union; [lia|by apply Hu].
    - intros x Hx. unfold op_removes. rewrite elem_of_union, elem_of_singleton.
      split; [intros [->|?]; [lia|done]|intros [? _]; by right].
    - intros x [Hx _]%elem_of_difference. by apply Hu.
    - intros x Hx. unfold op_removes. rewrite elem_of_difference, elem_of_singleton.
      split; intros [? Hne]; (split; [done|]); congruence. }
  destruct (IH (leaf_step ls op) Hu1) as (Hu' & Hb' & H').
  split_and!; [done|by etrans; [exact Hb'|]|]. intros x Hx. unfold ls'. cbn [foldl].
  rewrite H', H1, Exists_cons by done. tauto.
Qed.

(** Rewinding the leaf set undoes a block: after any sequence of additions
    past the cutoff and removals, [rewind] to the cutoff with the positions the
    sequence removed gives back exactly the set there was; [discard] instead
    goes back to the last flushed set. *)
Theorem leaf_set_rewind_undoes cutoff ops ls rm :
  0 <= cutoff < 2 ^ 32 -> u32_set (leaf_bitmap ls) ->
  (forall x, x ∈ leaf_bitmap ls -> x <= cutoff) -> Forall (op_after cutoff) ops ->
  (forall x, x ∈ rm <-> x ∈ leaf_bitmap ls /\ Exists (op_removes x) ops) ->
  let ls' := foldl leaf_step ls ops in
  leaf_bitmap (Leaf.rewind ls' cutoff rm) = leaf_bitmap ls /\
  leaf_bitmap (Leaf.discard ls') = leaf_bitmap_bak ls.
Proof.
  intros Hc Hu Hle Hops Hrm ls'.
  destruct (leaf_steps_spec cutoff ops ls ltac:(lia) Hu Hops) as (Hu' & Hb & H').
  split; [|done]. apply set_eq. intros x. cbn [Leaf.rewind leaf_bitmap].
  rewrite elem_of_rewound by done. split.
  - intros [Hx|[Hx Hxc]]; [by apply Hrm|]. by apply H' in Hx as [? _].
  - intros Hx. pose proof (Hle x Hx). destruct (decide (Exists (op_removes x) ops)).
    + left. by apply Hrm.
    + right. split; [|done]. by apply H'.
Qed.

Lemma leaf_set_rewind_undoes_witness :
  let ls := Leaf.open {[ 1; 2; 4 ]} in
  let ls' := foldl leaf_step ls [LeafAdd 5; LeafRemove 2; LeafAdd 8; LeafRemove 5] in
  leaf_bitmap ls' = {[ 1; 4; 8 ]} /\
  leaf_bitmap (Leaf.rewind ls' 4 {[ 2 ]}) = {[ 1; 2; 4 ]}.
Proof.
  split; [vm_decide|].
  refine (proj1 (leaf_set_rewind_undoes 4 [LeafAdd 5; LeafRemove 2; LeafAdd 8; LeafRemove 5]
    (Leaf.open {[ 1; 2; 4 ]}) {[ 2 ]} _ _ _ _ _)).
  - lia.
  - intros x. cbn. rewrite !elem_of_union, !elem_of_singleton. lia.
  - intros x. cbn. rewrite !elem_of_union, !elem_of_singleton. lia.
  - repeat constructor; lia.
  - intros x. unfold op_removes. cbn. rewrite !Exists_cons, Exists_nil, !elem_of_union, !elem_of_singleton.
    naive_solver.
Defined.

(** [removed_pre_cutoff] is exactly the set of the leaves to compact: the
    leaf positions up to the cutoff that are not pruned yet, not in the leaf set
    and not about to be put back by a rewind to the cutoff. *)
Theorem removed_pre_cutoff_spec ls cutoff rm pl x :
  u32_set (leaf_bitmap ls) -> u32_set rm -> 0 <= cutoff < 2 ^ 32 - 1 ->
  x ∈ Leaf.removed_pre_cutoff ls cutoff rm pl <->
  (1 <= x <= cutoff /\ is_leaf x = true /\ Prune.is_pruned pl x = false /\
   (x ∉ leaf_bitmap ls) /\ (x ∉ rm)).
Proof.
  intros Hu Hurm Hc. unfold Leaf.removed_pre_cutoff, Leaf.flip, Leaf.unpruned_pre_cutoff.
  rewrite elem_of_intersection, elem_of_union, !elem_of_difference.
  rewrite u64_add_small by (unfold is_u64; lia). rewrite elem_of_bm_range by lia.
  rewrite elem_of_rewound by (done || lia).
  rewrite elem_of_list_to_set, list_elem_of_fmap. split.
  - intros [Hin (y & -> & Hy)]. rewrite !list_elem_of_filter, elem_of_seqZ in Hy.
    destruct Hy as (Hp & Hl & Hr). unfold wrap32 in *. rewrite Z.mod_small in * by lia.
    apply negb_True, Is_true_false in Hp. apply Is_true_true in Hl.
    split_and!; [lia|lia|done|done|..]; intros Hx; apply Hin || destruct Hin as [[? ?]|[? Hn]]; try lia;
      apply Hn; [right; split; [done|lia]|by left].
  - intros (Hx & Hl & Hp & Hn & Hm). split.
    + right. split; [lia|]. intros [?|[? _]]; done.
    + exists x. unfold wrap32. rewrite Z.mod_small by lia. split; [done|].
      rewrite !list_elem_of_filter, elem_of_seqZ. split_and!; [by rewrite Hp|by rewrite Hl|lia|lia].
Qed.

Lemma removed_pre_cutoff_spec_witness :
  5 ∈ Leaf.removed_pre_cutoff (Leaf.open {[ 1; 4; 8 ]}) 8 {[ 2 ]} Prune.new.
Proof.
  apply removed_pre_cutoff_spec.
  - intros x. cbn. rewrite !elem_of_union, !elem_of_singleton. lia.
  - intros x ->%elem_of_singleton. lia.
  - lia.
  - split_and!; [lia|lia|done|done|vm_decide|vm_decide].
Defined.
