(* ===== verification/PmmrBackend.v ===== *)
(** * The persistent backend of the Merkle Mountain Range

    [store/src/pmmr.rs]: [PMMRBackend] over the hash file, the data file, the
    leaf set and the prune list, as an instance of the [Backend] interface; it
    keeps [BackendLaws], so the refinement theorems of the range hold over it. *)
From S2P Require Import Prelude PmmrIndex Ser Pmmr PmmrRefine AppendOnlyFile PruneList.
Import Pos Node Spec Theorems.

Record PMMRBackend := mkPMMRBackend {
  prunable : bool;
  hash_file : AppendOnlyFile;
  data_file : AppendOnlyFile;
  leaf_set : LeafSet;
  prune_list : PruneList
}.

Section Backend.
Context {T E : Type}.
(** [PMMRable::as_elmt] and the serialization of the stored element. *)
Context (as_elmt : T -> E) (ser_elmt : E -> list Z) (deser_elmt : list Z -> option E).

Definition deser_hash (bs : list Z) : option Hash :=
  match deserialize read_hash bs with
  | Ok h => Some h
  | _ => None
  end.

Definition is_pruned (b : PMMRBackend) (pos : Z) : bool := Prune.is_pruned (prune_list b) pos.
Definition is_pruned_root (b : PMMRBackend) (pos : Z) : bool :=
  Prune.is_pruned_root (prune_list b) pos.
Definition is_compacted (b : PMMRBackend) (pos : Z) : bool :=
  is_pruned b pos && negb (is_pruned_root b pos).

(** A panic of the shift computation has no value; [shift_total] below shows it
    does not happen on a well-formed prune list. *)
Definition shift_of (m : outcome () Z) : option Z :=
  match m with
  | Ok s => Some s
  | _ => None
  end.

Definition get_from_file (b : PMMRBackend) (position : Z) : option Hash :=
  if is_compacted b position then None
  else
    shift ← shift_of (Prune.get_shift (prune_list b) position);
    df_read deser_hash (hash_file b) (position -! shift).

Definition get_data_from_file (b : PMMRBackend) (position : Z) : option E :=
  if negb (is_leaf position) then None
  else if is_compacted b position then None
  else
    let flatfile_pos := n_leaves position in
    shift ← shift_of (Prune.get_leaf_shift (prune_list b) position);
    df_read deser_elmt (data_file b) (flatfile_pos -! shift).

Definition get_hash (b : PMMRBackend) (pos : Z) : option Hash :=
  if prunable b && is_leaf pos && negb (Leaf.includes (leaf_set b) pos) then None
  else get_from_file b pos.

Definition get_data (b : PMMRBackend) (pos : Z) : option E :=
  if negb (is_leaf pos) then None
  else if prunable b && negb (Leaf.includes (leaf_set b) pos) then None
  else get_data_from_file b pos.

(** Errors of the files, as the [String] the trait wants. *)
Definition io_msg {A} (m : outcome io_error A) : outcome pmmr_error A :=
  map_err (fun e => BackendErr (match e with Corrupted => 0 | OsError => 1 end)) m.
Definition unit_msg {A} (m : outcome () A) : outcome pmmr_error A :=
  map_err (fun _ => BackendErr 2) m.

Fixpoint append_hashes (f : AppendOnlyFile) (hashes : list Hash) : outcome io_error AppendOnlyFile :=
  match hashes with
  | [] => Ok f
  | h :: hashes =>
      let? '(_, f) := df_append (T := Hash) write_array f h in append_hashes f hashes
  end.

Definition append (b : PMMRBackend) (data : T) (hashes : list Hash) : outcome pmmr_error PMMRBackend :=
  let? '(size, data_file) := io_msg (df_append ser_elmt (data_file b) (as_elmt data)) in
  let? hash_file := io_msg (append_hashes (hash_file b) hashes) in
  let? leaf_set :=
    if prunable b then
      let? shift := unit_msg (Prune.get_total_leaf_shift (prune_list b)) in
      let pos := insertion_to_pmmr_index (size +! shift) in
      Ok (Leaf.add (leaf_set b) pos)
    else Ok (leaf_set b) in
  Ok (mkPMMRBackend (prunable b) hash_file data_file leaf_set (prune_list b)).

(** [leaf_pos_iter] panics on a backend that is not prunable; the list is empty there. *)
Definition leaf_pos_iter (b : PMMRBackend) : list Z :=
  if prunable b then Leaf.iter (leaf_set b) else [].

Definition rewind (b : PMMRBackend) (position : Z) (rewind_rm_pos : gset Z)
    : outcome pmmr_error PMMRBackend :=
  let leaf_set := if prunable b then Leaf.rewind (leaf_set b) position rewind_rm_pos
                  else leaf_set b in
  let? shift := unit_msg (Prune.get_shift (prune_list b) position) in
  let hash_file := AppendOnlyFile.rewind (hash_file b) (position -! shift) in
  let flatfile_pos := n_leaves position in
  let? leaf_shift := unit_msg (Prune.get_leaf_shift (prune_list b) position) in
  let data_file := AppendOnlyFile.rewind (data_file b) (flatfile_pos -! leaf_shift) in
  Ok (mkPMMRBackend (prunable b) hash_file data_file leaf_set (prune_list b)).

(** [assert!(self.prunable)]. *)
Definition remove (b : PMMRBackend) (pos : Z) : outcome pmmr_error PMMRBackend :=
  if prunable b then
    Ok (mkPMMRBackend (prunable b) (hash_file b) (data_file b) (Leaf.remove (leaf_set b) pos)
          (prune_list b))
  else Panic.

#[global] Instance pmmr_backend : Backend T Hash E PMMRBackend := {|
  be_append := append;
  be_rewind := rewind;
  be_get_hash := get_hash;
  be_get_data := get_data;
  be_get_from_file := get_from_file;
  be_get_data_from_file := get_data_from_file;
  be_leaf_pos_iter := leaf_pos_iter;
  be_remove := remove
|}.

(** ** Operations outside the trait *)
Definition new (prunable fixed_size : bool) (elmt_len : Z)
    (hashes data sizes : list Z) (leaves prunes : gset Z)
    (stream_hash : list Z -> option (Hash * list Z * Z))
    (stream_elmt : list Z -> option (E * list Z * Z)) : outcome () PMMRBackend :=
  let size_info :=
    if fixed_size then FixedSize elmt_len
    else VariableSize (AppendOnlyFile.open stream_elmt sizes (FixedSize SizeEntry_LEN)) in
  let? prune_list := Prune.open prunes in
  Ok (mkPMMRBackend prunable
        (AppendOnlyFile.open stream_hash hashes (FixedSize 32))
        (AppendOnlyFile.open stream_elmt data size_info)
        (Leaf.open leaves) prune_list).

Definition unpruned_size (b : PMMRBackend) : outcome () Z :=
  let? shift := Prune.get_total_shift (prune_list b) in
  Ok (size_in_elmts (hash_file b) +! shift).

Definition sync (b : PMMRBackend) : outcome io_error PMMRBackend :=
  let? hash_file := flush (hash_file b) in
  let? data_file := flush (data_file b) in
  let leaf_set := if prunable b then Leaf.flush (leaf_set b) else leaf_set b in
  Ok (mkPMMRBackend (prunable b) hash_file data_file leaf_set (prune_list b)).

Definition discard (b : PMMRBackend) : PMMRBackend :=
  mkPMMRBackend (prunable b) (AppendOnlyFile.discard (hash_file b))
    (AppendOnlyFile.discard (data_file b)) (Leaf.discard (leaf_set b)) (prune_list b).

Definition release_files (b : PMMRBackend) : PMMRBackend :=
  mkPMMRBackend (prunable b) (AppendOnlyFile.release (hash_file b))
    (AppendOnlyFile.release (data_file b)) (leaf_set b) (prune_list b).

(** The loop of [pos_to_rm] that climbs from a removed leaf. *)
Fixpoint climb_removed (fuel : nat) (b : PMMRBackend) (current : Z) (expanded : gset Z) : gset Z :=
  match fuel with
  | O => expanded
  | S fuel =>
      let '(parent, sibling) := family current in
      let sibling_pruned := is_pruned_root b sibling in
      let expanded := if sibling_pruned then {[ wrap32 sibling ]} ∪ expanded else expanded in
      if sibling_pruned || bm_contains expanded (wrap32 sibling)
      then climb_removed fuel b parent ({[ wrap32 parent ]} ∪ expanded)
      else expanded
  end.

Definition removed_excl_roots (removed : gset Z) : gset Z :=
  list_to_set (filter (fun pos => bm_contains removed (wrap32 (fst (family pos)))) (bm_iter removed)).

Definition pos_to_rm (b : PMMRBackend) (cutoff_pos : Z) (rewind_rm_pos : gset Z)
    : gset Z * gset Z :=
  let leaf_pos_to_rm :=
    Leaf.removed_pre_cutoff (leaf_set b) cutoff_pos rewind_rm_pos (prune_list b) in
  let expanded :=
    foldl (fun expanded x => climb_removed 64 b x ({[ x ]} ∪ expanded)) ∅ (bm_iter leaf_pos_to_rm) in
  (leaf_pos_to_rm, removed_excl_roots expanded).

Fixpoint shift_all (shift : Z -> outcome () Z) (place : Z -> Z) (l : list Z)
    : outcome () (list Z) :=
  match l with
  | [] => Ok []
  | pos :: l =>
      let? s := shift pos in
      let? rest := shift_all shift place l in
      Ok ((place pos -! s) :: rest)
  end.

Definition check_compact (stream_hash : list Z -> option (Hash * list Z * Z))
    (stream_elmt : list Z -> option (E * list Z * Z))
    (b : PMMRBackend) (cutoff_pos : Z) (rewind_rm_pos : gset Z)
    : outcome () PMMRBackend :=
  if negb (prunable b) then Panic
  else
    let '(leaves_removed, pos_to_rm) := pos_to_rm b cutoff_pos rewind_rm_pos in
    let? hash_pos := shift_all (Prune.get_shift (prune_list b)) (fun pos => pos) (bm_iter pos_to_rm) in
    let hash_file := df_save_prune write_array stream_hash (hash_file b) hash_pos in
    let leaf_pos_to_rm := filter (fun x => is_leaf x) (bm_iter pos_to_rm) in
    let? data_pos := shift_all (Prune.get_leaf_shift (prune_list b)) n_leaves leaf_pos_to_rm in
    let data_file := df_save_prune ser_elmt stream_elmt (data_file b) data_pos in
    let prune_list := foldl Prune.add (prune_list b) (bm_iter leaves_removed) in
    let? prune_list := Prune.flush prune_list in
    Ok (mkPMMRBackend (prunable b) hash_file data_file (Leaf.flush (leaf_set b)) prune_list).

End Backend.

(** ** The backend keeps the laws of its interface *)
Section Laws.
Context {T E : Type}.
Context (as_elmt : T -> E) (ser_elmt : E -> list Z) (deser_elmt : list Z -> option E).
Implicit Types (b : PMMRBackend) (hs : list Hash).

Lemma deser_hash_bytes (h : Hash) : deser_hash (bytes h) = Some h.
Proof.
  unfold deser_hash. rewrite <- (app_nil_r (bytes h)).
  by rewrite (reads_deserialize read_hash (bytes h) h []) by (by apply reads_array).
Qed.

Lemma deser_hash_nil : deser_hash [] = None.
Proof. done. Qed.

Definition roots b : list Z := bm_iter (bitmap (prune_list b)).
Definition total_shift b : Z := count_compacted (roots b) 0 (bm_maximum (bitmap (prune_list b))).

Definition backend_size b : Z := size_unsync_in_elmts (hash_file b) + total_shift b.

Record backend_ok b : Prop := {
  ok_prunes : exists N, roots_ok N (prune_list b);
  ok_shifts : shifts_ok (prune_list b);
  ok_file : exists disk hs, holds (hash_file b) disk (bytes <$> hs) /\
              size_info (hash_file b) = FixedSize 32;
  ok_max : bm_maximum (bitmap (prune_list b)) <= backend_size b;
  ok_cap : backend_size b < 2 ^ 32
}.

Lemma root_le_max b r : r ∈ bitmap (prune_list b) -> r <= bm_maximum (bitmap (prune_list b)).
Proof.
  intros Hr. apply bm_maximum_spec; [|done]. intros E0. rewrite E0 in Hr. by apply not_elem_of_empty in Hr.
Qed.

Lemma max_range b N : roots_ok N (prune_list b) -> 0 <= bm_maximum (bitmap (prune_list b)) < 2 ^ 31.
Proof.
  intros [[HN Hcap] Hr _ _]. destruct (decide (bitmap (prune_list b) = ∅)) as [->|Hne]; [done|].
  destruct (bm_maximum_spec _ Hne) as [Hin _]. specialize (Hr _ Hin). lia.
Qed.

Lemma past_max b q :
  bm_maximum (bitmap (prune_list b)) <= q -> ~ compacted (roots b) q.
Proof.
  intros Hq Hex. apply Exists_exists in Hex as (r & Hr%elem_of_bm_iter & Hin).
  pose proof (root_le_max b r Hr). lia.
Qed.

Lemma count_past_max b q :
  0 <= bm_maximum (bitmap (prune_list b)) <= q -> count_compacted (roots b) 0 q = total_shift b.
Proof.
  intros Hq. unfold total_shift.
  rewrite (count_split _ 0 (bm_maximum (bitmap (prune_list b))) q) by lia.
  rewrite (count_none _ _ q); [lia|]. intros x Hx. apply past_max. lia.
Qed.

Lemma total_shift_bounds b N :
  roots_ok N (prune_list b) -> 0 <= total_shift b <= bm_maximum (bitmap (prune_list b)).
Proof.
  intros Hr. pose proof (max_range b N Hr) as Hm. unfold total_shift.
  destruct (Z.eq_dec (bm_maximum (bitmap (prune_list b))) 0) as [->|].
  - rewrite count_none by lia. lia.
  - pose proof (count_lt (roots b) 0 (bm_maximum (bitmap (prune_list b))) ltac:(lia)
      ltac:(by apply past_max)). lia.
Qed.

Lemma is_compacted_spec b N q :
  roots_ok N (prune_list b) -> 0 <= q < 2 ^ 32 ->
  is_compacted b q = true <-> compacted (roots b) q.
Proof.
  intros [[HN Hcap] Hrange Hanti Hcache] Hq.
  unfold is_compacted, is_pruned, is_pruned_root, Prune.is_pruned, Prune.is_pruned_root, wrap32.
  rewrite Z.mod_small, andb_true_iff, negb_true_iff by lia.
  rewrite bm_contains_spec, Hcache. unfold bm_contains. rewrite bool_decide_eq_false.
  unfold compacted. rewrite Exists_exists. split.
  - intros [(r & Hr & Hin) Hn]. exists r. split; [by apply elem_of_bm_iter|].
    destruct (Z.eq_dec q r) as [->|]; [done|lia].
  - intros (r & Hr%elem_of_bm_iter & Hin). split; [exists r; split; [done|lia]|].
    intros Hb. specialize (Hanti q r Hb Hr). lia.
Qed.

(** The place of a stored position in the hash file. *)
Lemma place_bounds b q :
  backend_ok b -> 1 <= q <= backend_size b -> ~ compacted (roots b) q ->
  1 <= q - count_compacted (roots b) 0 q <= size_unsync_in_elmts (hash_file b).
Proof.
  intros [[N Hr] _ _ Hmax _] Hq Hn. unfold backend_size in *.
  pose proof (max_range b N Hr). pose proof (count_lt (roots b) 0 q ltac:(lia) Hn).
  split; [lia|]. set (m := bm_maximum (bitmap (prune_list b))) in *.
  destruct (Z.le_gt_cases m q) as [Hle|Hgt].
  - rewrite (count_past_max b q) by (fold m; lia). lia.
  - pose proof (count_lt (roots b) q m ltac:(lia) ltac:(by apply past_max)).
    unfold total_shift in *. fold m in Hmax, Hq |- *.
    rewrite (count_split (roots b) 0 q m) in * by lia. lia.
Qed.

Lemma shift_total b q :
  backend_ok b -> 1 <= q < 2 ^ 32 -> ~ compacted (roots b) q ->
  Prune.get_shift (prune_list b) q = Ok (count_compacted (roots b) 0 q).
Proof. intros [[N Hr] Hs _ _ _] Hq Hn. eapply shift_count; [done|done|lia|done]. Qed.

(** What the hash file answers at a position. *)
Lemma get_from_file_spec b hs disk q :
  backend_ok b -> holds (hash_file b) disk (bytes <$> hs) -> 1 <= q <= backend_size b ->
  get_from_file b q =
  if decide (compacted (roots b) q) then None
  else hs !! Z.to_nat (q - count_compacted (roots b) 0 q - 1).
Proof.
  intros Hok Hh Hq. pose proof Hok as [[N Hr] Hs _ Hmax Hcap]. unfold get_from_file.
  destruct (is_compacted b q) eqn:Ec.
  - apply (is_compacted_spec b N) in Ec; [|done|lia]. by rewrite decide_True.
  - rewrite decide_False.
    2: { intros Hc. apply (is_compacted_spec b N) in Hc; [congruence|done|lia]. }
    assert (~ compacted (roots b) q) as Hn.
    { intros Hc. apply (is_compacted_spec b N) in Hc; [congruence|done|lia]. }
    rewrite shift_total by (done || lia). cbn [shift_of mbind option_bind].
    pose proof (place_bounds b q Hok Hq Hn) as Hp.
    pose proof (count_lt (roots b) 0 q ltac:(lia) Hn).
    unfold df_read, read_as_elmt. rewrite (u64_sub_small q) by (unfold is_u64; lia).
    rewrite u64_sub_small by (unfold is_u64; lia).
    set (i := Z.to_nat (q - count_compacted (roots b) 0 q - 1)).
    replace (q - count_compacted (roots b) 0 q - 1) with (Z.of_nat i) by lia.
    rewrite (read_holds _ _ _ _ Hh). cbn [bind]. rewrite list_lookup_fmap.
    destruct (hs !! i) as [h|]; cbn [fmap option_fmap option_map from_option].
    + unfold id. by rewrite deser_hash_bytes.
    + by rewrite deser_hash_nil.
Qed.

Lemma size_holds b hs disk :
  holds (hash_file b) disk (bytes <$> hs) ->
  backend_size b = Z.of_nat (length hs) + total_shift b.
Proof. intros Hh. unfold backend_size. by rewrite (size_unsync_holds _ _ _ Hh), length_fmap. Qed.

Lemma small_hashes hs : Z.of_nat (length hs) < 2 ^ 33 -> small (bytes <$> hs).
Proof.
  intros Hl. assert (Forall (fun c => len c = 32) (bytes <$> hs)) as HF.
  { apply Forall_fmap, Forall_forall. intros h _. unfold len. cbn.
    destruct (array_bytes_ok h) as [-> _]. done. }
  unfold small. rewrite (Forall_len_concat 32), length_fmap by done. split_and!; [lia|lia|].
  eapply Forall_impl; [done|]. intros c ->. lia.
Qed.

Lemma append_hashes_holds f disk hs new :
  holds f disk (bytes <$> hs) -> size_info f = FixedSize 32 ->
  Z.of_nat (length hs + length new) < 2 ^ 33 ->
  exists f', append_hashes f new = Ok f' /\ holds f' disk (bytes <$> (hs ++ new)) /\
    size_info f' = FixedSize 32.
Proof.
  revert f hs. induction new as [|h new IH]; intros f hs Hh Hs Hl; cbn [append_hashes].
  - exists f. by rewrite app_nil_r.
  - destruct (append_holds f disk (bytes <$> hs) (bytes h) Hh) as (f' & Ha & Hh' & Hs' & _).
    { unfold fits. rewrite Hs. unfold len. by destruct (array_bytes_ok h) as [-> _]. }
    { pose proof (small_hashes (hs ++ [h])) as Hsm. rewrite fmap_app in Hsm. apply Hsm.
      rewrite length_app. cbn [length] in *. lia. }
    unfold df_append, append_elmt, write_array. rewrite Ha. cbn [bind].
    rewrite Hs in Hs'.
    destruct (IH f' (hs ++ [h])) as (f'' & Ha' & Hh'' & Hs''); [by rewrite fmap_app|done| |].
    { rewrite length_app. cbn [length] in *. lia. }
    exists f''. by rewrite <- app_assoc in Hh''.
Qed.

Lemma backend_append b t new b' :
  backend_ok b -> backend_size b + Z.of_nat (length new) < 2 ^ 32 ->
  append as_elmt ser_elmt b t new = Ok b' ->
  backend_ok b' /\ backend_size b' = backend_size b + Z.of_nat (length new) /\
  (forall pos, 1 <= pos <= backend_size b -> get_from_file b' pos = get_from_file b pos) /\
  (forall i h, new !! i = Some h ->
     get_from_file b' (backend_size b + 1 + Z.of_nat i) = Some h).
Proof.
  intros Hok Hcap Happ. pose proof Hok as [[N Hr] Hs (disk & hs & Hh & Hi) Hmax _].
  pose proof (size_holds b hs disk Hh) as Esz. pose proof (total_shift_bounds b N Hr) as Ht.
  unfold append in Happ. unfold io_msg in Happ. inv_ok.
  destruct (append_hashes_holds (hash_file b) disk hs new Hh Hi ltac:(lia)) as (f' & Ha & Hh' & Hi').
  match goal with Hx : append_hashes _ _ = Ok _ |- _ => rewrite Ha in Hx; injection Hx as <- end.
  simplify_eq. set (b' := mkPMMRBackend _ _ _ _ _).
  assert (prune_list b' = prune_list b) as Ep by done.
  assert (total_shift b' = total_shift b) as Et by done.
  assert (backend_size b' = backend_size b + Z.of_nat (length new)) as Esz'.
  { rewrite (size_holds b' (hs ++ new) disk Hh'), Et, Esz, length_app. lia. }
  assert (backend_ok b') as Hok'.
  { constructor; rewrite ?Ep; [by exists N|done|by exists disk, (hs ++ new)|lia|lia]. }
  split_and!; [done|done| |].
  - intros pos Hpos. rewrite (get_from_file_spec b hs disk), (get_from_file_spec b' (hs ++ new) disk)
      by (done || lia).
    change (roots b') with (roots b). case_decide; [done|].
    pose proof (place_bounds b pos Hok Hpos ltac:(done)) as Hp.
    rewrite (size_unsync_holds _ _ _ Hh), length_fmap in Hp. by rewrite lookup_app_l by lia.
  - intros i h Hnew. pose proof (lookup_lt_Some _ _ _ Hnew).
    rewrite (get_from_file_spec b' (hs ++ new) disk) by (done || lia).
    change (roots b') with (roots b). rewrite decide_False by (apply past_max; lia).
    rewrite count_past_max by lia.
    replace (Z.to_nat _) with (length hs + i)%nat by lia.
    rewrite lookup_app_r by lia. rewrite <- Hnew. f_equal. lia.
Qed.

(** Truncation needs everything synced and the pruned part kept. *)
Definition backend_rewindable b (pos : Z) : Prop :=
  clean (hash_file b) /\ bm_maximum (bitmap (prune_list b)) <= pos.

Lemma shift_past_max b q :
  backend_ok b -> bm_maximum (bitmap (prune_list b)) <= q -> 0 <= q < 2 ^ 32 ->
  Prune.get_shift (prune_list b) q = Ok (total_shift b).
Proof.
  intros [[N Hr] Hs _ _ _] Hm Hq. pose proof (max_range b N Hr).
  rewrite <- (count_past_max b q) by lia. eapply shift_count; [done|done|lia|by apply past_max].
Qed.

Lemma backend_rewind b pos bm b' :
  backend_ok b -> 0 <= pos <= backend_size b -> backend_rewindable b pos ->
  rewind b pos bm = Ok b' ->
  backend_ok b' /\ backend_size b' = pos /\
  (forall q, 1 <= q <= pos -> get_from_file b' q = get_from_file b q).
Proof.
  intros Hok Hpos [Hcl Hmp] Hrw. pose proof Hok as [[N Hr] Hs (disk & hs & Hh & Hi) Hmax Hcap].
  pose proof (size_holds b hs disk Hh) as Esz. pose proof (total_shift_bounds b N Hr) as Ht.
  unfold rewind in Hrw. rewrite shift_past_max in Hrw by (done || lia).
  unfold unit_msg in Hrw. inv_ok. simplify_eq.
  rewrite u64_sub_small by (unfold is_u64; lia).
  destruct (rewind_holds (hash_file b) disk (bytes <$> hs) (pos - total_shift b) Hh Hcl) as (Hh' & _ & _ & Hi').
  { rewrite length_fmap. lia. }
  rewrite Hi in Hi'. rewrite <- fmap_take in Hh'.
  set (k := Z.to_nat (pos - total_shift b)) in *. set (b' := mkPMMRBackend _ _ _ _ _).
  assert (prune_list b' = prune_list b) as Ep by done.
  assert (total_shift b' = total_shift b) as Et by done.
  assert (backend_size b' = pos) as Esz'.
  { rewrite (size_holds b' (take k hs) disk Hh'), Et, length_take. lia. }
  assert (backend_ok b') as Hok'.
  { constructor; rewrite ?Ep; [by exists N|done|by exists disk, (take k hs)|lia|lia]. }
  split_and!; [done|done|]. intros q Hq.
  rewrite (get_from_file_spec b hs disk), (get_from_file_spec b' (take k hs) disk) by (done || lia).
  change (roots b') with (roots b). case_decide; [done|].
  pose proof (place_bounds b' q Hok' ltac:(lia) ltac:(done)) as Hp.
  change (roots b') with (roots b) in Hp.
  rewrite (size_unsync_holds (hash_file b') _ _ Hh'), length_fmap, length_take in Hp.
  by rewrite lookup_take_lt by lia.
Qed.

Lemma backend_remove b pos b' :
  backend_ok b -> remove b pos = Ok b' ->
  backend_ok b' /\ backend_size b' = backend_size b /\
  (forall q, get_from_file b' q = get_from_file b q).
Proof.
  intros Hok Hrm. unfold remove in Hrm. destruct (prunable b); [|done]. simplify_eq.
  destruct Hok. by split_and!.
Qed.

#[global] Instance pmmr_backend_laws :
  BackendLaws T Hash E PMMRBackend (BE := pmmr_backend as_elmt ser_elmt deser_elmt).
Proof.
  refine (@Build_BackendLaws T Hash E PMMRBackend (pmmr_backend as_elmt ser_elmt deser_elmt)
    backend_ok backend_size (2 ^ 32) backend_rewindable _ _ _).
  - intros b t hs b' Hok Hcap Happ. exact (backend_append b t hs b' Hok Hcap Happ).
  - intros b pos bm b' Hok Hpos Hrw Hr. exact (backend_rewind b pos bm b' Hok Hpos Hrw Hr).
  - intros b pos b' Hok Hr. exact (backend_remove b pos b' Hok Hr).
Defined.

End Laws.

(** ** Syncing and discarding *)

(** One step of a unit of work on the backend, between two syncs. *)
Inductive work {T E} (as_elmt : T -> E) (ser_elmt : E -> list Z) : PMMRBackend -> PMMRBackend -> Prop :=
| work_append b t hs b' :
    backend_ok b -> backend_size b + Z.of_nat (length hs) < 2 ^ 32 ->
    append as_elmt ser_elmt b t hs = Ok b' -> work as_elmt ser_elmt b b'
| work_rewind b pos bm b' :
    backend_ok b -> 0 <= pos <= backend_size b -> backend_rewindable b pos ->
    rewind b pos bm = Ok b' -> work as_elmt ser_elmt b b'
| work_remove b pos b' : remove b pos = Ok b' -> work as_elmt ser_elmt b b'.

(** What is on disk under the hash file. *)
Definition on_disk (b : PMMRBackend) (hs : list Hash) : Prop :=
  exists cur : list Hash,
    holds (hash_file b) (bytes <$> hs) (bytes <$> cur) /\ size_info (hash_file b) = FixedSize 32.

Lemma work_on_disk {T E} (as_elmt : T -> E) ser_elmt b b' hs :
  work as_elmt ser_elmt b b' -> on_disk b hs ->
  on_disk b' hs /\ prune_list b' = prune_list b /\
  leaf_bitmap_bak (leaf_set b') = leaf_bitmap_bak (leaf_set b).
Proof.
  intros Hw (cur & Hh & Hi). destruct Hw as [b t new b' Hok Hcap Happ|b pos bm b' Hok Hpos [Hcl Hm] Hrw|b pos b' Hrm].
  - unfold append, io_msg, unit_msg in Happ. inv_ok.
    pose proof (size_holds b cur _ Hh) as Esz. destruct Hok as [[N Hr] _ _ _ _].
    pose proof (total_shift_bounds b N Hr).
    destruct (append_hashes_holds (hash_file b) (bytes <$> hs) cur new Hh Hi ltac:(lia)) as (f' & Ha & Hh' & Hi').
    match goal with Hx : append_hashes _ _ = Ok _ |- _ => rewrite Ha in Hx; injection Hx as <- end.
    subst b'. split_and!; [by exists (cur ++ new)|done|]. cbn [leaf_set].
    destruct (prunable b); inv_ok; by subst.
  - unfold rewind in Hrw. rewrite shift_past_max in Hrw by (done || destruct Hok; lia).
    unfold unit_msg in Hrw. inv_ok. simplify_eq. cbn [prune_list leaf_set].
    pose proof (size_holds b cur _ Hh) as Esz. destruct Hok as [[N Hr] _ _ _ Hcap].
    pose proof (total_shift_bounds b N Hr).
    rewrite u64_sub_small by (unfold is_u64; lia).
    destruct (rewind_holds (hash_file b) (bytes <$> hs) (bytes <$> cur) (pos - total_shift b) Hh Hcl)
      as (Hh' & _ & _ & Hi'); [rewrite length_fmap; lia|].
    split_and!; [|done|by destruct (prunable b)]. exists (take (Z.to_nat (pos - total_shift b)) cur).
    cbn [hash_file]. rewrite fmap_take. by rewrite Hi', Hi.
  - unfold remove in Hrm. destruct (prunable b); [|done]. simplify_eq. split_and!; [by exists cur|done..].
Qed.

Lemma works_on_disk {T E} (as_elmt : T -> E) ser_elmt b b' hs :
  rtc (work as_elmt ser_elmt) b b' -> on_disk b hs ->
  on_disk b' hs /\ prune_list b' = prune_list b /\
  leaf_bitmap_bak (leaf_set b') = leaf_bitmap_bak (leaf_set b).
Proof.
  induction 1 as [|x y z Hw Hwork IH]; [done|]. intros Hd.
  destruct (work_on_disk _ _ _ _ _ Hw Hd) as (Hd' & Ep & El).
  destruct (IH Hd') as (? & ? & ?). split_and!; [done|congruence|congruence].
Qed.

Lemma get_from_file_ext b b' q disk disk' (hs : list Hash) :
  backend_ok b -> holds (hash_file b) disk (bytes <$> hs) ->
  backend_ok b' -> holds (hash_file b') disk' (bytes <$> hs) ->
  prune_list b' = prune_list b -> 1 <= q <= backend_size b ->
  get_from_file b' q = get_from_file b q.
Proof.
  intros Hok Hh Hok' Hh' Ep Hq.
  assert (backend_size b' = backend_size b) as Es.
  { rewrite (size_holds b hs disk Hh), (size_holds b' hs disk' Hh'). unfold total_shift, roots. by rewrite Ep. }
  rewrite (get_from_file_spec b hs disk), (get_from_file_spec b' hs disk') by (done || lia).
  unfold roots. by rewrite Ep.
Qed.

Lemma backend_ok_ext b b' disk' (hs : list Hash) disk :
  backend_ok b -> holds (hash_file b) disk (bytes <$> hs) ->
  holds (hash_file b') disk' (bytes <$> hs) -> size_info (hash_file b') = FixedSize 32 ->
  prune_list b' = prune_list b -> backend_ok b' /\ backend_size b' = backend_size b.
Proof.
  intros Hok Hh Hh' Hi' Ep.
  assert (backend_size b' = backend_size b) as Es.
  { rewrite (size_holds b hs disk Hh), (size_holds b' hs disk' Hh'). unfold total_shift, roots. by rewrite Ep. }
  split; [|done]. destruct Hok as [Hr Hs _ Hm Hc].
  constructor; rewrite ?Ep, ?Es; [done|done|by exists disk', hs|done|done].
Qed.

(** [sync] changes nothing readers see. *)
Lemma sync_keeps b b' :
  backend_ok b -> sync b = Ok b' ->
  (exists hs, on_disk b' hs /\ exists disk, holds (hash_file b) disk (bytes <$> hs)) /\
  backend_ok b' /\ backend_size b' = backend_size b /\ clean (hash_file b') /\
  prune_list b' = prune_list b /\
  forall q, 1 <= q <= backend_size b -> get_from_file b' q = get_from_file b q.
Proof.
  intros Hok Hsync. pose proof Hok as [_ _ (disk & hs & Hh & Hi) _ _].
  unfold sync in Hsync. destruct (flush_holds _ _ _ Hh) as (f' & Hf & Hh' & Hcl & _ & Hi').
  rewrite Hf in Hsync. rewrite Hi in Hi'. inv_ok. simplify_eq.
  set (b' := mkPMMRBackend _ _ _ _ _) in *.
  destruct (backend_ok_ext b b' _ hs disk Hok Hh Hh' Hi' eq_refl) as [Hok' Es'].
  split_and!; [|done|done|done|done|].
  - exists hs. split; [by exists hs|by exists disk].
  - intros q Hq. by eapply get_from_file_ext.
Qed.

(** Nothing compacted: every hash is there. *)
Lemma unpruned_read b q :
  backend_ok b -> bitmap (prune_list b) = ∅ -> 1 <= q <= backend_size b -> is_Some (get_from_file b q).
Proof.
  intros Hok He Hq. pose proof Hok as [_ _ (disk & hs & Hh & _) _ _].
  rewrite (get_from_file_spec b hs disk) by done. unfold roots. rewrite He.
  assert (~ compacted (roots b) q) as Hn by (unfold roots; rewrite He; by inversion 1).
  rewrite decide_False by (unfold roots in Hn; by rewrite He in Hn).
  pose proof (place_bounds b q Hok Hq Hn) as Hp. unfold roots in Hp. rewrite He in Hp.
  rewrite (size_unsync_holds _ _ _ Hh), length_fmap in Hp. apply lookup_lt_is_Some. lia.
Qed.

(** A unit of work on the persistent backend is atomic: [sync] keeps every
    hash where it is and leaves a backend that can be rewound, and after any
    sequence of appends, rewinds and removals on a synced backend, [discard]
    brings back every hash, the size and the leaf set as they were synced. *)
Theorem backend_sync_discard {T E} (as_elmt : T -> E) ser_elmt b b' b1 :
  backend_ok b -> sync b = Ok b' -> rtc (work as_elmt ser_elmt) b' b1 ->
  (backend_ok b' /\ backend_size b' = backend_size b /\ clean (hash_file b') /\
   forall q, 1 <= q <= backend_size b -> get_from_file b' q = get_from_file b q) /\
  (backend_ok (discard b1) /\ backend_size (discard b1) = backend_size b /\
   leaf_bitmap (leaf_set (discard b1)) = leaf_bitmap_bak (leaf_set b') /\
   forall q, 1 <= q <= backend_size b -> get_from_file (discard b1) q = get_from_file b q).
Proof.
  intros Hok Hsync Hwork.
  destruct (sync_keeps b b' Hok Hsync) as ((hs & Hd & disk & Hh) & Hok' & Es' & Hcl & Ep' & Hq').
  destruct (works_on_disk _ _ _ _ _ Hwork Hd) as ((cur & Hh1 & Hi1) & Ep1 & El1).
  destruct (discard_holds _ _ _ Hh1) as (Hhd & _ & _ & Hid). rewrite Hi1 in Hid.
  assert (prune_list (discard b1) = prune_list b) as Epd by (cbn [discard prune_list]; congruence).
  destruct (backend_ok_ext b (discard b1) _ hs disk Hok Hh Hhd Hid Epd) as [Hokd Esd].
  split; [by split_and!|split_and!; [done|done|done|]].
  intros q Hq. by eapply (get_from_file_ext b (discard b1) q disk _ hs).
Qed.

(** The hashes of leaves and of pairs, from the serialization and BLAKE2b. *)
#[export] Instance index_hash `{Hasher} {T} (ser : T -> list Z) : IndexHash T Hash := {|
  leaf_hash t index := hash_with_index index (ser t);
  pair_hash p index := hash_with_index index (write_array p.1 ++ write_array p.2);
  Pmmr.ZERO_HASH := Ser.ZERO_HASH
|}.
