(* ===== verification/PmmrData.v ===== *)
(** * The elements of a range over the persistent backend

    The data file of [PMMRBackend] ([store/src/pmmr.rs]) under pruning: which
    element [get_data] finds at a leaf, and what [push], [prune] and [rewind] do to
    the elements and to the leaf set.  [stored] is the whole state of a range: the
    hashes of [repr], the data file and the set of unspent leaves. *)
From S2P Require Import Prelude PmmrIndex Ser Pmmr PmmrRefine AppendOnlyFile PruneList PmmrBackend.
Import Pos Node Spec Theorems.

(** ** What the write operations of a file leave alone *)

(** Every file has something on disk, or has been rewound from it: the position to
    go back to is known. *)
Fixpoint anchored (f : AppendOnlyFile) : Prop :=
  match f with
  | mkAOF _ size_info _ _ start bak =>
      0 <= bak /\ (0 < start \/ 0 < bak) /\
      match size_info with
      | FixedSize _ => True
      | VariableSize size_file => anchored size_file
      end
  end.


Lemma append_undo : forall f x f',
  AppendOnlyFile.append f x = Ok f' ->
  AppendOnlyFile.discard f' = AppendOnlyFile.discard f /\ (anchored f -> anchored f') /\ (forall y, fits f' y <-> fits f y).
Proof.
  fix IH 1. intros [file info mmap buf start bak] x f' Ha. cbn [AppendOnlyFile.append] in Ha.
  destruct info as [n|sf].
  - cbn [bind] in Ha. injection Ha as <-. done.
  - apply bind_Ok_inv in Ha as (si & Hsi & Ha). injection Ha as <-.
    apply bind_Ok_inv in Hsi as (o & _ & Hsi). apply bind_Ok_inv in Hsi as (sf' & Hsf & Hsi).
    injection Hsi as <-. destruct (IH sf _ _ Hsf) as (Hd & Han & _).
    cbn [AppendOnlyFile.discard anchored]. rewrite Hd. split_and!; [done|tauto|done].
Qed.

Lemma rewind_undo : forall f pos,
  anchored f ->
  AppendOnlyFile.discard (AppendOnlyFile.rewind f pos) = AppendOnlyFile.discard f /\
  anchored (AppendOnlyFile.rewind f pos) /\ (forall y, fits (AppendOnlyFile.rewind f pos) y <-> fits f y).
Proof.
  fix IH 1. intros [file info mmap buf start bak] pos (Hb & Han & Hsf).
  destruct info as [n|sf]; cbn [AppendOnlyFile.rewind AppendOnlyFile.discard anchored].
  - split_and!; [|destruct (Z.eqb_spec bak 0); lia..|done|done].
    destruct (Z.eqb_spec bak 0) as [->|]; [|by destruct (Z.gtb_spec bak 0); [|lia]]. by destruct (Z.gtb_spec start 0); [|lia].
  - destruct (IH sf pos Hsf) as (Hd & Han' & _). rewrite Hd. split_and!; [|destruct (Z.eqb_spec bak 0); lia..|done|done].
    destruct (Z.eqb_spec bak 0) as [->|]; [|by destruct (Z.gtb_spec bak 0); [|lia]]. by destruct (Z.gtb_spec start 0); [|lia].
Qed.

Lemma discard_discard : forall f, AppendOnlyFile.discard (AppendOnlyFile.discard f) = AppendOnlyFile.discard f.
Proof.
  fix IH 1. intros [file info mmap buf start bak]. cbn [AppendOnlyFile.discard].
  destruct info as [n|sf]; destruct (bak >? 0) eqn:Eb; cbn [AppendOnlyFile.discard]; rewrite ?Eb, ?IH; done.
Qed.

Lemma flush_clean : forall f f', AppendOnlyFile.flush f = Ok f' -> AppendOnlyFile.discard f' = f'.
Proof.
  fix IH 1. intros [file info mmap buf start bak] f' Hf. cbn [AppendOnlyFile.flush] in Hf.
  apply bind_Ok_inv in Hf as (si & Hsi & Hf). apply bind_Ok_inv in Hf as (fl & _ & Hf). injection Hf as <-.
  destruct info as [n|sf].
  - injection Hsi as <-. done.
  - apply bind_Ok_inv in Hsi as (sf' & Hsf & Hsi). injection Hsi as <-.
    cbn [AppendOnlyFile.discard]. by rewrite (IH sf sf' Hsf).
Qed.

(** ** What the operations of a backend leave for [discard] *)
Definition backend_anchored (b : PMMRBackend) : Prop := anchored (hash_file b) /\ anchored (data_file b).

(** [b'] is a state of a unit of work that started from [b]. *)
Definition undoable (b b' : PMMRBackend) : Prop :=
  discard b' = discard b /\ (backend_anchored b -> backend_anchored b').

#[export] Instance undoable_pre : PreOrder undoable.
Proof.
  split; [by intros b; split|]. intros x y z [E1 A1] [E2 A2]. split; [congruence|tauto].
Qed.

Lemma append_hashes_undo hs : forall f f',
  append_hashes f hs = Ok f' ->
  AppendOnlyFile.discard f' = AppendOnlyFile.discard f /\ (anchored f -> anchored f').
Proof.
  induction hs as [|h hs IH]; intros f f' Ha; cbn [append_hashes] in Ha; [by injection Ha as <-|].
  apply bind_Ok_inv in Ha as ([z f1] & H1 & Ha). unfold df_append, append_elmt in H1.
  apply bind_Ok_inv in H1 as (f2 & H1 & E1). injection E1 as _ <-.
  destruct (append_undo _ _ _ H1) as (Hd & Hn & _). destruct (IH _ _ Ha) as (Hd' & Hn').
  split; [congruence|tauto].
Qed.

Section Undo.
Context {T E : Type} (as_elmt : T -> E) (ser_elmt : E -> list Z) (deser_elmt : list Z -> option E).
Implicit Types (b : PMMRBackend).

Lemma backend_append_undo b t hs b' : append as_elmt ser_elmt b t hs = Ok b' -> undoable b b'.
Proof.
  unfold append, io_msg, unit_msg. intros Ha. apply bind_Ok_inv in Ha as ([sz df] & H1 & Ha).
  apply bind_Ok_inv in Ha as (hf & H2 & Ha). apply bind_Ok_inv in Ha as (ls & H3 & Ha). injection Ha as <-.
  apply map_err_Ok_inv in H1, H2. unfold df_append, append_elmt in H1.
  apply bind_Ok_inv in H1 as (f2 & H1 & E1). injection E1 as _ <-.
  destruct (append_undo _ _ _ H1) as (Hd & Hn & _). destruct (append_hashes_undo _ _ _ H2) as (Hd' & Hn').
  split; [|intros [? ?]; split; tauto]. unfold discard. cbn [prunable hash_file data_file leaf_set prune_list].
  rewrite Hd, Hd'. f_equal. destruct (prunable b); [|by injection H3 as <-].
  apply bind_Ok_inv in H3 as (? & _ & H3). by injection H3 as <-.
Qed.

Lemma backend_rewind_undo b pos bm b' :
  backend_anchored b -> PmmrBackend.rewind b pos bm = Ok b' -> undoable b b'.
Proof.
  intros [Hh Hd] Hr. unfold PmmrBackend.rewind, unit_msg in Hr.
  apply bind_Ok_inv in Hr as (s1 & _ & Hr). apply bind_Ok_inv in Hr as (s2 & _ & Hr). injection Hr as <-.
  destruct (rewind_undo (hash_file b) (pos -! s1) Hh) as (E1 & A1 & _).
  destruct (rewind_undo (data_file b) (n_leaves pos -! s2) Hd) as (E2 & A2 & _).
  split; [|by split]. unfold discard. cbn [prunable hash_file data_file leaf_set prune_list].
  rewrite E1, E2. f_equal. by destruct (prunable b).
Qed.

Lemma backend_remove_undo b pos b' : PmmrBackend.remove b pos = Ok b' -> undoable b b'.
Proof. unfold PmmrBackend.remove. destruct (prunable b) eqn:Ep; [|done]. intros [= <-]. split; [|done]. unfold discard. by rewrite Ep. Qed.

Context {IH : IndexHash T Hash}.
#[local] Instance undo_backend : Backend T Hash E PMMRBackend := pmmr_backend as_elmt ser_elmt deser_elmt.
Implicit Types (p : PMMR PMMRBackend).

Lemma push_undo p t pos p' : push p t = Ok (pos, p') -> undoable (backend p) (backend p').
Proof.
  unfold push. destruct (peak_map_height _) as [m h]. destruct (negb _); [done|]. intros Hp.
  apply bind_Ok_inv in Hp as ([q hs] & _ & Hp). apply bind_Ok_inv in Hp as (b & Hb & Hp).
  injection Hp as _ <-. exact (backend_append_undo _ _ _ _ Hb).
Qed.

Lemma rewind_range_undo p pos bm p' :
  backend_anchored (backend p) -> Pmmr.rewind p pos bm = Ok p' -> undoable (backend p) (backend p').
Proof.
  intros Ha Hp. unfold Pmmr.rewind in Hp. apply bind_Ok_inv in Hp as (b & Hb & Hp). injection Hp as <-.
  exact (backend_rewind_undo _ _ _ _ Ha Hb).
Qed.

Lemma truncate_undo p p' :
  backend_anchored (backend p) -> Pmmr.truncate p = Ok p' -> undoable (backend p) (backend p').
Proof.
  intros Ha Hp. unfold Pmmr.truncate in Hp. apply bind_Ok_inv in Hp as (b & Hb & Hp). injection Hp as <-.
  exact (backend_rewind_undo _ _ _ _ Ha Hb).
Qed.

Lemma prune_undo p pos d p' : Pmmr.prune p pos = Ok (d, p') -> undoable (backend p) (backend p').
Proof.
  unfold Pmmr.prune. destruct (negb _); [done|]. destruct (be_get_hash _ _); [|by intros [= _ <-]].
  intros Hp. apply bind_Ok_inv in Hp as (b & Hb & Hp). injection Hp as _ <-. exact (backend_remove_undo _ _ _ Hb).
Qed.

End Undo.

(** Nothing to undo: what [sync] leaves. *)
Definition synced (b : PMMRBackend) : Prop := discard b = b.

Lemma sync_synced b b' :
  (prunable b = false -> leaf_bitmap (leaf_set b) = leaf_bitmap_bak (leaf_set b)) -> sync b = Ok b' -> synced b'.
Proof.
  unfold sync, synced. intros Hp Hs. apply bind_Ok_inv in Hs as (h & Hh & Hs). apply bind_Ok_inv in Hs as (d & Hd & Hs).
  injection Hs as <-. unfold discard. cbn [prunable hash_file data_file leaf_set prune_list].
  rewrite (flush_clean _ _ Hh), (flush_clean _ _ Hd). f_equal.
  destruct (prunable b); [done|]. specialize (Hp eq_refl). unfold Leaf.discard.
  destruct (leaf_set b) as [x y]. cbn in *. by subst.
Qed.

(** ** Counting in disjoint intervals *)
Definition covered (ivs : list (Z * Z)) (k : Z) : Prop := Exists (fun iv => iv.1 <= k < iv.2) ivs.
#[export] Instance covered_dec ivs k : Decision (covered ivs k).
Proof. unfold covered. apply _. Defined.

Definition count_covered (ivs : list (Z * Z)) (from upto : Z) : Z :=
  Z.of_nat (length (filter (covered ivs) (seqZ from (upto - from)))).

(** Consecutive intervals from [base] on; [n] is not inside one of them. *)
Fixpoint in_order (base : Z) (ivs : list (Z * Z)) : Prop :=
  match ivs with
  | [] => True
  | iv :: ivs => base <= iv.1 <= iv.2 /\ in_order iv.2 ivs
  end.

Lemma in_order_after base ivs iv : in_order base ivs -> iv ∈ ivs -> base <= iv.1 <= iv.2.
Proof.
  revert base. induction ivs as [|jv ivs IH]; intros base Ho Hin; [by apply elem_of_nil in Hin|].
  destruct Ho as [Hb Ho]. apply elem_of_cons in Hin as [->|Hin]; [lia|]. specialize (IH _ Ho Hin). lia.
Qed.

Lemma not_covered_before base ivs k : in_order base ivs -> k < base -> ~ covered ivs k.
Proof.
  intros Ho Hk Hc. apply Exists_exists in Hc as (iv & Hin & Hiv).
  pose proof (in_order_after _ _ _ Ho Hin). lia.
Qed.

Lemma count_covered_split ivs from mid upto :
  from <= mid <= upto -> count_covered ivs from upto = count_covered ivs from mid + count_covered ivs mid upto.
Proof.
  intros Hm. unfold count_covered. replace (upto - from) with ((mid - from) + (upto - mid)) by lia.
  rewrite seqZ_app by lia. rewrite filter_app, length_app.
  replace (from + (mid - from)) with mid by lia. lia.
Qed.

Lemma filter_ext_in {A} (P Q : A -> Prop) `{!forall x, Decision (P x), !forall x, Decision (Q x)} (l : list A) :
  (forall x, x ∈ l -> P x <-> Q x) -> filter P l = filter Q l.
Proof.
  induction l as [|x l IH]; intros He; [done|]. rewrite !filter_cons, IH by (intros; apply He; by right).
  pose proof (He x ltac:(by left)). repeat case_decide; tauto.
Qed.

Lemma count_covered_ext ivs jvs from upto :
  (forall k, from <= k < upto -> covered ivs k <-> covered jvs k) ->
  count_covered ivs from upto = count_covered jvs from upto.
Proof.
  intros He. unfold count_covered. do 2 f_equal. apply filter_ext_in.
  intros k Hk%elem_of_seqZ. apply He. lia.
Qed.

Lemma count_covered_none ivs from upto :
  (forall k, from <= k < upto -> ~ covered ivs k) -> count_covered ivs from upto = 0.
Proof.
  intros Hn. unfold count_covered. rewrite filter_none; [done|]. intros k Hk%elem_of_seqZ. apply Hn. lia.
Qed.

Lemma count_covered_all ivs from upto :
  from <= upto -> (forall k, from <= k < upto -> covered ivs k) -> count_covered ivs from upto = upto - from.
Proof.
  intros Hle Ha. unfold count_covered. rewrite filter_all; [rewrite length_seqZ; lia|].
  intros k Hk%elem_of_seqZ. apply Ha. lia.
Qed.

Definition total (ivs : list (Z * Z)) : Z := foldr (fun iv a => iv.2 - iv.1 + a) 0 ivs.

(** Up to a bound outside every interval, the covered numbers are those of the
    intervals before it. *)
Lemma count_in_order base ivs n :
  in_order base ivs -> base <= n -> (forall iv, iv ∈ ivs -> iv.2 <= n \/ n <= iv.1) ->
  count_covered ivs base n = total (filter (fun iv => iv.2 <= n) ivs).
Proof.
  revert base. induction ivs as [|iv ivs IH]; intros base Ho Hn Hout.
  { apply count_covered_none. intros k _ Hk. by inversion Hk. }
  destruct Ho as [Hb Ho].
  assert (forall k, covered (iv :: ivs) k <-> iv.1 <= k < iv.2 \/ covered ivs k) as Hcons.
  { intros k. unfold covered. by rewrite Exists_cons. }
  rewrite filter_cons. destruct (decide (iv.2 <= n)) as [Hle|Hgt].
  - cbn [total foldr]. rewrite (count_covered_split _ base iv.2 n) by lia.
    rewrite (count_covered_ext (iv :: ivs) ivs iv.2 n).
    2: { intros k Hk. rewrite Hcons. split; [intros [?|?]; [lia|done]|by right]. }
    rewrite IH by (done || (intros jv Hjv; apply Hout; by right)).
    rewrite (count_covered_split _ base iv.1 iv.2) by lia.
    rewrite count_covered_none, count_covered_all; [unfold total; lia|lia| |].
    + intros k Hk. rewrite Hcons. by left.
    + intros k Hk. rewrite Hcons. intros [?|Hc]; [lia|]. by apply (not_covered_before iv.2 ivs k Ho ltac:(lia)).
  - destruct (Hout iv ltac:(by left)) as [?|Hni]; [lia|].
    rewrite filter_none.
    2: { intros jv Hjv. pose proof (in_order_after _ _ _ Ho Hjv). lia. }
    apply count_covered_none. intros k Hk. rewrite Hcons. intros [?|Hc]; [lia|].
    by apply (not_covered_before iv.2 ivs k Ho ltac:(lia)).
Qed.

(** ** The leaves below the pruned roots *)

(** The leaves that compaction removed under a root, as an interval of indices. *)
Definition gone_leaves (r : Z) : Z * Z := (n_leaves r - Prune.node_leaf_shift r, n_leaves r).

Lemma n_leaves_node n h : is_node n h -> pos_of n h < 2 ^ 63 -> n_leaves (pos_of n h) = n + 1.
Proof.
  intros Hnode Hlt. pose proof Hnode as (Hn & Hh & _). unfold pos_of in *.
  destruct (Z.testbit n h) eqn:Hb.
  - replace (mmr_size n + h + 1) with (mmr_size n + (h + 1)) in * by lia.
    rewrite n_leaves_size by (done || by apply is_node_up). by destruct (Z.eqb_spec (h + 1) 0); [lia|].
  - pose proof (top_closes n h Hnode Hb) as Et. unfold pos_of in Et. rewrite Et in *.
    rewrite <- (Z.add_0_r (mmr_size (n + 1))). by rewrite n_leaves_size by (apply is_node_leaf || lia; lia).
Qed.

(** The first position under a node is its first leaf. *)
Lemma lo_first_leaf n h :
  is_node n h -> pos_of n h < 2 ^ 63 -> lo (pos_of n h) = pos_of (n - 2 ^ h + 1) 0.
Proof.
  intros Hnode Hlt. rewrite lo_node by (done || lia). pose proof Hnode as (Hn & Hh & _).
  destruct (is_node_split n h Hnode) as (q & Hq & En).
  assert (0 < 2 ^ h) by (apply Z.pow_pos_nonneg; lia).
  assert (mmr_size n = mmr_size (q * 2 ^ h) + mmr_size (2 ^ h - 1)) as Es.
  { rewrite En. apply mmr_size_concat; lia. }
  assert (mmr_size (2 ^ h - 1) = 2 * (2 ^ h - 1) - h) as Em by (unfold mmr_size; by rewrite count_ones_ones).
  unfold pos_of. replace (n - 2 ^ h + 1) with (q * 2 ^ h) by lia. rewrite pow2_succ by lia. lia.
Qed.

Lemma leaf_pos_lt a b : 0 <= a -> 0 <= b -> pos_of a 0 < pos_of b 0 <-> a < b.
Proof.
  intros Ha Hb. unfold pos_of. split; intros Hlt.
  - destruct (Z.lt_ge_cases a b); [done|]. pose proof (mmr_size_le b a ltac:(lia)). lia.
  - pose proof (mmr_size_lt a b ltac:(lia)). lia.
Qed.

Lemma leaf_shift_node n h :
  is_node n h -> pos_of n h < 2 ^ 63 ->
  Prune.node_leaf_shift (pos_of n h) = if h =? 0 then 0 else 2 ^ h.
Proof.
  intros Hnode Hlt. unfold Prune.node_leaf_shift. rewrite height_pos by (done || lia).
  destruct (h =? 0); [done|]. pose proof (walk_room n h Hnode Hlt) as (Hh & Hw & E2).
  rewrite u64_shl_small by (unfold is_u64; lia). lia.
Qed.

(** A leaf is compacted away under a root iff its index is in the root's interval. *)
Lemma leaf_below r k :
  1 <= r < 2 ^ 63 -> 0 <= k ->
  lo r <= pos_of k 0 < r <-> (gone_leaves r).1 <= k < (gone_leaves r).2.
Proof.
  intros Hr Hk. destruct (pos_of_surj r ltac:(lia)) as (n & h & Hnode & ->).
  pose proof Hnode as (Hn & Hh & _). unfold gone_leaves. cbn [fst snd].
  rewrite n_leaves_node, leaf_shift_node, lo_first_leaf by (done || lia).
  assert (0 <= n - 2 ^ h + 1) as Hf.
  { destruct (is_node_split n h Hnode) as (q & Hq & En).
    assert (0 < 2 ^ h) by (apply Z.pow_pos_nonneg; lia). nia. }
  destruct (Z.eqb_spec h 0) as [->|Hh0].
  - change (2 ^ 0) with 1. replace (n - 1 + 1) with n by lia. lia.
  - assert (pos_of k 0 < pos_of n h <-> k <= n) as ->.
    { split; intros Hlt.
      - destruct (Z.le_gt_cases k n); [done|]. exfalso.
        pose proof (proj2 (pos_of_in_range n h k Hnode ltac:(lia)) ltac:(lia)). unfold pos_of in *. lia.
      - pose proof (mmr_size_le k n ltac:(lia)). unfold pos_of. lia. }
    pose proof (leaf_pos_lt k (n - 2 ^ h + 1) ltac:(lia) ltac:(lia)). lia.
Qed.

Lemma chain_in_order base l :
  chain base l -> 0 <= base < 2 ^ 63 -> (forall r, r ∈ l -> 1 <= r < 2 ^ 63) ->
  in_order (n_leaves base) (gone_leaves <$> l).
Proof.
  revert base. induction l as [|r l IH]; intros base Hc Hb Hr; [done|].
  destruct Hc as (Hlo & _ & Hc). cbn [fmap list_fmap in_order].
  pose proof (Hr r ltac:(by left)) as Hr1.
  split; [|apply IH; [done|lia|intros; apply Hr; by right]].
  destruct (pos_of_surj r ltac:(lia)) as (n & h & Hnode & ->). pose proof Hnode as (Hn & Hh & _).
  rewrite lo_first_leaf in Hlo by (done || lia). unfold gone_leaves. cbn [fst snd].
  rewrite n_leaves_node, leaf_shift_node by (done || lia).
  assert (0 < 2 ^ h) by (apply Z.pow_pos_nonneg; lia).
  assert (0 <= n - 2 ^ h + 1) by (destruct (is_node_split n h Hnode) as (q & Hq & En); nia).
  split; [|case_match; lia].
  assert (n_leaves base <= n - 2 ^ h + 1); [|case_match; lia].
  destruct (Z.eq_dec base 0) as [->|]; [done|].
  destruct (pos_of_surj base ltac:(lia)) as (m & j & Hm & ->). pose proof Hm as (Hm0 & Hj & _).
  rewrite n_leaves_node by (done || lia).
  destruct (Z.le_gt_cases (m + 1) (n - 2 ^ h + 1)); [done|].
  pose proof (mmr_size_le (n - 2 ^ h + 1) m ltac:(lia)). unfold pos_of in *. lia.
Qed.

(** Leaves with index below [n] that are gone from the data file. *)
Definition gone (l : list Z) (n : Z) : Z :=
  Z.of_nat (length (filter (fun k => compacted l (pos_of k 0)) (seqZ 0 n))).

Lemma gone_covered l n :
  (forall r, r ∈ l -> 1 <= r < 2 ^ 63) -> gone l n = count_covered (gone_leaves <$> l) 0 n.
Proof.
  intros Hr. unfold gone, count_covered. rewrite Z.sub_0_r. do 2 f_equal. apply filter_ext_in.
  intros k Hk%elem_of_seqZ. unfold compacted, covered. rewrite !Exists_exists. split.
  - intros (r & Hin & Hlo). exists (gone_leaves r). split; [by apply list_elem_of_fmap_2|].
    apply leaf_below; [by apply Hr|lia|done].
  - intros (iv & (r & -> & Hin)%list_elem_of_fmap & Hiv). exists r. split; [done|].
    apply leaf_below; [by apply Hr|lia|done].
Qed.

(** The leaf shift cache holds the running sums. *)
Definition leaf_shifts_ok (pl : PruneList) : Prop :=
  bitmap pl = ∅ \/ filled Prune.node_leaf_shift (leaf_shift_cache pl) (bm_iter (bitmap pl)).

Lemma total_gone q n l :
  (forall r, r ∈ l -> r <= q <-> n_leaves r <= n) ->
  total (filter (fun iv => iv.2 <= n) (gone_leaves <$> l)) = sumf Prune.node_leaf_shift (filter (fun y => y <= q) l).
Proof.
  induction l as [|r l IH]; intros Hq; [done|]. cbn [fmap list_fmap]. rewrite !filter_cons.
  pose proof (Hq r ltac:(by left)) as Hr. specialize (IH ltac:(intros; apply Hq; by right)).
  cbn [gone_leaves snd]. repeat case_decide; try tauto.
  rewrite sumf_cons, <- IH. unfold total. cbn [foldr gone_leaves fst snd]. lia.
Qed.

(** [get_leaf_shift] at a position counts the leaves gone before a boundary. *)
Lemma leaf_shift_count N pl q n :
  roots_ok N pl -> leaf_shifts_ok pl -> 0 <= q < 2 ^ 32 -> 0 <= n ->
  (forall r, r ∈ bitmap pl -> r <= q <-> n_leaves r <= n) ->
  (forall r, r ∈ bitmap pl -> n_leaves r <= n \/ n <= (gone_leaves r).1) ->
  Prune.get_leaf_shift pl q = Ok (gone (bm_iter (bitmap pl)) n).
Proof.
  intros [[HN Hcap] Hrange Hanti _] Hsh Hq Hn Hiff Hout.
  assert (forall r, r ∈ bm_iter (bitmap pl) -> 1 <= r < 2 ^ 63) as Hr63.
  { intros r Hr%elem_of_bm_iter. specialize (Hrange r Hr). lia. }
  pose proof (antichain_chain _ Hanti ltac:(intros r Hr; apply Hr63; by apply elem_of_bm_iter)) as Hchain.
  rewrite gone_covered by done.
  rewrite (count_in_order 0 (gone_leaves <$> bm_iter (bitmap pl)) n); [| |done|].
  - rewrite (total_gone q n) by (intros r Hr%elem_of_bm_iter; by apply Hiff).
    unfold Prune.get_leaf_shift. destruct Hsh as [E|Hf].
    + unfold Prune.cached_shift. by rewrite (proj2 (bm_is_empty_spec _) E), E.
    + by apply built_shift.
  - exact (chain_in_order 0 (bm_iter (bitmap pl)) Hchain ltac:(lia) Hr63).
  - intros iv (r & -> & Hr%elem_of_bm_iter)%list_elem_of_fmap. by apply Hout.
Qed.

(** At a leaf that is still there. *)
Lemma leaf_shift_at N pl k :
  roots_ok N pl -> leaf_shifts_ok pl -> 0 <= k -> pos_of k 0 < 2 ^ 32 ->
  ~ compacted (bm_iter (bitmap pl)) (pos_of k 0) ->
  Prune.get_leaf_shift pl (pos_of k 0) = Ok (gone (bm_iter (bitmap pl)) (k + 1)).
Proof.
  intros Hr Hs Hk Hlt Hn. pose proof (pos_of_pos k 0 (is_node_leaf k Hk)) as Hp.
  assert (forall m j, is_node m j -> pos_of m j ∈ bitmap pl -> m = k -> j = 0) as Hsame.
  { intros m j Hm Hin ->. pose proof Hm as (_ & Hj & _). destruct (Z.eq_dec j 0); [done|]. exfalso. apply Hn.
    pose proof (roots_range _ _ Hr _ Hin) as Hrr. pose proof (roots_cap _ _ Hr) as [HN0 Hcap].
    apply Exists_exists. exists (pos_of k j). split; [by apply elem_of_bm_iter|].
    apply leaf_below; [lia|done|]. unfold gone_leaves. cbn [fst snd].
    rewrite n_leaves_node, leaf_shift_node by (done || lia).
    assert (0 < 2 ^ j) by (apply Z.pow_pos_nonneg; lia). case_match; lia. }
  apply (leaf_shift_count N); [done|done|lia|lia| |]; intros r Hin;
    pose proof (roots_range _ _ Hr _ Hin) as Hrr; pose proof (roots_cap _ _ Hr) as [HN0 Hcap];
    destruct (pos_of_surj r ltac:(lia)) as (m & j & Hm & ->); pose proof Hm as (Hm0 & Hj & _);
    specialize (Hsame m j Hm Hin).
  - rewrite n_leaves_node by (done || lia). split; intros Hle.
    + destruct (Z.le_gt_cases m k); [lia|]. pose proof (mmr_size_lt k m ltac:(lia)). unfold pos_of in *. lia.
    + destruct (Z.eq_dec m k) as [->|]; [rewrite Hsame by done; lia|].
      pose proof (proj2 (pos_of_in_range m j k Hm Hk) ltac:(lia)). unfold pos_of in *. lia.
  - destruct (Z.le_gt_cases (n_leaves (pos_of m j)) (k + 1)) as [|Hgt]; [by left|right].
    rewrite n_leaves_node in Hgt by (done || lia).
    destruct (Z.le_gt_cases (k + 1) (gone_leaves (pos_of m j)).1); [done|].
    exfalso. apply Hn, Exists_exists. exists (pos_of m j). split; [by apply elem_of_bm_iter|].
    apply leaf_below; [lia|done|]. unfold gone_leaves in *. cbn [fst snd] in *.
    rewrite n_leaves_node in * by (done || lia). lia.
Qed.

(** At the end of a range that covers every root. *)
Lemma leaf_shift_end N pl q k :
  roots_ok N pl -> leaf_shifts_ok pl -> 0 <= q < 2 ^ 32 -> 0 <= k ->
  (forall r, r ∈ bitmap pl -> r <= q /\ r <= mmr_size k) ->
  Prune.get_leaf_shift pl q = Ok (gone (bm_iter (bitmap pl)) k).
Proof.
  intros Hr Hs Hq Hk Hall.
  assert (forall r, r ∈ bitmap pl -> n_leaves r <= k) as Hle.
  { intros r Hin. pose proof (roots_range _ _ Hr _ Hin). pose proof (roots_cap _ _ Hr) as [HN0 Hcap].
    destruct (pos_of_surj r ltac:(lia)) as (m & j & Hm & ->). rewrite n_leaves_node by (done || lia).
    destruct (Hall _ Hin) as [_ Hin2]. apply pos_of_in_range in Hin2; [lia|done|done]. }
  apply (leaf_shift_count N); [done|done|done|done| |].
  - intros r Hin. specialize (Hle r Hin). destruct (Hall r Hin). tauto.
  - intros r Hin. left. by apply Hle.
Qed.

(** ** The elements kept in the data file *)
Section Kept.
Context {T : Type}.
Implicit Types (l : list Z) (ts : list T).

Definition keep_at l ts (k : Z) : option T :=
  if decide (compacted l (pos_of k 0)) then None else ts !! Z.to_nat k.

Definition kept l ts : list T := omap (keep_at l ts) (seqZ 0 (leaves ts)).

Lemma omap_app {A B} (f : A -> option B) (l k : list A) : omap f (l ++ k) = omap f l ++ omap f k.
Proof. induction l as [|x l IH]; [done|]. cbn. destruct (f x); by rewrite IH. Qed.

Lemma omap_ext_in {A B} (f g : A -> option B) (l : list A) :
  (forall x, x ∈ l -> f x = g x) -> omap f l = omap g l.
Proof.
  induction l as [|x l IH]; intros He; [done|]. cbn. rewrite He by (by left).
  rewrite IH by (intros; apply He; by right). done.
Qed.

Lemma gone_S l k : 0 <= k -> gone l (k + 1) = gone l k + if decide (compacted l (pos_of k 0)) then 1 else 0.
Proof.
  intros Hk. unfold gone. rewrite seqZ_app by lia. rewrite filter_app, length_app, Z.add_0_l.
  change (seqZ k 1) with [k]. rewrite filter_cons, filter_nil. case_decide; simpl; lia.
Qed.

Lemma length_kept_upto l ts n :
  0 <= n <= leaves ts -> Z.of_nat (length (omap (keep_at l ts) (seqZ 0 n))) = n - gone l n.
Proof.
  intros [Hn Hle]. revert Hle. pattern n. apply natlike_ind; [done| |done]. clear n Hn.
  intros n Hn IH Hle. unfold Z.succ in *. rewrite gone_S, seqZ_app, omap_app, length_app, Z.add_0_l by lia.
  change (seqZ n 1) with [n]. unfold keep_at at 2. cbn [omap list_omap].
  destruct (lookup_lt_is_Some_2 ts (Z.to_nat n)) as [t Ht]; [unfold leaves in Hle; lia|].
  rewrite Ht. case_decide; cbn [length]; lia.
Qed.

Lemma gone_bounds l n : 0 <= n -> 0 <= gone l n <= n.
Proof.
  intros Hn. unfold gone. split; [lia|].
  assert (length (filter (fun k => compacted l (pos_of k 0)) (seqZ 0 n)) <= length (seqZ 0 n))%nat as Hl
    by apply length_filter.
  rewrite length_seqZ in Hl. lia.
Qed.

Lemma length_kept l ts : Z.of_nat (length (kept l ts)) = leaves ts - gone l (leaves ts).
Proof. apply length_kept_upto. unfold leaves. lia. Qed.

Lemma kept_split l ts n :
  0 <= n <= leaves ts ->
  kept l ts = omap (keep_at l ts) (seqZ 0 n) ++ omap (keep_at l ts) (seqZ n (leaves ts - n)).
Proof.
  intros Hn. unfold kept. replace (leaves ts) with (n + (leaves ts - n)) at 1 by lia.
  by rewrite seqZ_app, omap_app, Z.add_0_l by lia.
Qed.

Lemma kept_lookup l ts k :
  0 <= k < leaves ts -> ~ compacted l (pos_of k 0) ->
  kept l ts !! Z.to_nat (k - gone l k) = ts !! Z.to_nat k.
Proof.
  intros Hk Hn. rewrite (kept_split l ts k) by lia.
  pose proof (length_kept_upto l ts k ltac:(lia)) as El. pose proof (gone_bounds l k ltac:(lia)).
  rewrite lookup_app_r by lia. replace (Z.to_nat _ - _)%nat with 0%nat by lia.
  rewrite seqZ_cons by lia. cbn [omap list_omap]. unfold keep_at at 1.
  rewrite decide_False by done. by destruct (ts !! Z.to_nat k) eqn:Et;
    [|apply lookup_ge_None in Et; unfold leaves in Hk; lia].
Qed.

Lemma kept_snoc l ts t :
  ~ compacted l (pos_of (leaves ts) 0) -> kept l (ts ++ [t]) = kept l ts ++ [t].
Proof.
  intros Hn. rewrite (kept_split l (ts ++ [t]) (leaves ts)) by (rewrite leaves_snoc; unfold leaves; lia).
  rewrite leaves_snoc. replace (leaves ts + 1 - leaves ts) with 1 by lia.
  change (seqZ (leaves ts) 1) with [leaves ts]. f_equal.
  - apply omap_ext_in. intros k Hk%elem_of_seqZ. unfold keep_at. case_decide; [done|].
    rewrite lookup_app_l; [done|]. unfold leaves in Hk. lia.
  - cbn [omap list_omap]. unfold keep_at. rewrite decide_False by done. unfold leaves. rewrite Nat2Z.id.
    by rewrite list_lookup_middle.
Qed.

Lemma kept_take l ts k :
  0 <= k <= leaves ts -> kept l (take (Z.to_nat k) ts) = take (Z.to_nat (k - gone l k)) (kept l ts).
Proof.
  intros Hk. pose proof (length_kept_upto l ts k Hk) as El.
  rewrite (kept_split l ts k) by done. rewrite take_app_le, (take_ge (omap _ _)) by lia.
  unfold kept. assert (leaves (take (Z.to_nat k) ts) = k) as -> by (unfold leaves in *; rewrite length_take; lia).
  apply omap_ext_in. intros j Hj%elem_of_seqZ. unfold keep_at. case_decide; [done|].
  by rewrite lookup_take_lt by lia.
Qed.

End Kept.

(** ** Where a range starts *)
Definition empty_file (n : Z) : AppendOnlyFile := mkAOF [] (FixedSize n) None [] 0 0.
Definition empty_backend (prunable : bool) (data_file : AppendOnlyFile) : PMMRBackend :=
  mkPMMRBackend prunable (empty_file 32) data_file (Leaf.open ∅) Prune.new.

Lemma empty_small : small [].
Proof. unfold small. repeat split; try done; constructor. Qed.

Lemma empty_pending : pending 0 0 [] [] [].
Proof. unfold pending. repeat split; try done. by left. Qed.

Lemma empty_file_holds n : 0 < n -> holds (empty_file n) [] [].
Proof.
  intros Hn. apply (holds_fixed n 0 0 [] [] []); [done|constructor|constructor|..]; apply empty_small || apply empty_pending.
Qed.

Lemma empty_variable_holds : holds (mkAOF [] (VariableSize (empty_file SizeEntry_LEN)) None [] 0 0) [] [].
Proof.
  apply (holds_variable (empty_file SizeEntry_LEN) 0 0 [] [] []);
    [by apply empty_file_holds|done|done|apply empty_small|apply empty_small|apply empty_pending].
Qed.

Lemma empty_backend_ok prunable f : backend_ok (empty_backend prunable f).
Proof.
  constructor.
  - exists 0. constructor; cbn.
    + done.
    + intros r Hr. by apply not_elem_of_empty in Hr.
    + intros r1 r2 Hr. by apply not_elem_of_empty in Hr.
    + intros q. unfold pruned_by. split; [by intros ?%not_elem_of_empty|].
      by intros (r & ?%not_elem_of_empty & _).
  - by left.
  - exists [], []. split; [|done]. by apply (empty_file_holds 32).
  - done.
  - done.
Qed.

(** ** The whole state of a range *)
Section Stored.
Context {T E : Type} {IH : IndexHash T Hash}.
Context (as_elmt : T -> E) (ser_elmt : E -> list Z) (deser_elmt : list Z -> option E).
#[local] Instance stored_backend : Backend T Hash E PMMRBackend := pmmr_backend as_elmt ser_elmt deser_elmt.
#[local] Instance stored_laws : BackendLaws T Hash E PMMRBackend := pmmr_backend_laws as_elmt ser_elmt deser_elmt.
Implicit Types (p : PMMR PMMRBackend) (ts : list T) (b : PMMRBackend).

(** What is written for an element is short and reads back. *)
Definition elmt_ok (t : T) : Prop :=
  len (ser_elmt (as_elmt t)) < 2 ^ 16 /\ deser_elmt (ser_elmt (as_elmt t)) = Some (as_elmt t).

Definition unspent b : gset Z := leaf_bitmap (leaf_set b).

(** A leaf a reader may see. *)
Definition visible b (pos : Z) : Prop := prunable b = true -> pos ∈ unspent b.
#[export] Instance visible_dec b pos : Decision (visible b pos).
Proof. unfold visible. apply _. Defined.

Record stored p ts : Prop := {
  st_repr : repr p ts;
  st_shifts : leaf_shifts_ok (prune_list (backend p));
  st_data : exists disk,
    holds (data_file (backend p)) disk ((fun t => ser_elmt (as_elmt t)) <$> kept (roots (backend p)) ts);
  st_elmts : Forall elmt_ok ts;
  st_unspent : forall x, x ∈ unspent (backend p) ->
    exists k, 0 <= k < leaves ts /\ x = pos_of k 0 /\ ~ compacted (roots (backend p)) x;
  st_whole : prunable (backend p) = false ->
    bitmap (prune_list (backend p)) = ∅ /\ unspent (backend p) = ∅
}.

Section State.
Context p ts (Hst : stored p ts).

Lemma st_viewed : viewed p ts.
Proof. by destruct Hst as [[? _] _ _ _ _ _]. Qed.
Lemma st_backend_ok : backend_ok (backend p).
Proof. by destruct Hst as [(_ & ? & _) _ _ _ _ _]. Qed.
Lemma st_size : backend_size (backend p) = mmr_size (leaves ts) /\ last_pos p = mmr_size (leaves ts).
Proof.
  destruct Hst as [(Hv & _ & Hs) _ _ _ _ _]. pose proof (repr_size _ _ Hv) as E1.
  split; [|done]. rewrite <- E1. exact Hs.
Qed.
Lemma st_cap : mmr_size (leaves ts) < 2 ^ 32.
Proof. destruct st_size as [<- _]. exact (ok_cap _ st_backend_ok). Qed.

Lemma leaf_in_range k : 0 <= k < leaves ts -> 1 <= pos_of k 0 <= mmr_size (leaves ts).
Proof.
  intros Hk. split; [apply pos_of_pos, is_node_leaf; lia|].
  apply pos_of_in_range; [apply is_node_leaf; lia|lia|lia].
Qed.

Lemma leaf_is_leaf k : 0 <= k < leaves ts -> is_leaf (pos_of k 0) = true.
Proof.
  intros Hk. unfold is_leaf. pose proof (leaf_in_range k Hk). pose proof st_cap.
  by rewrite height_pos by (apply is_node_leaf || lia; lia).
Qed.

Lemma visible_kept k :
  0 <= k < leaves ts -> visible (backend p) (pos_of k 0) -> ~ compacted (roots (backend p)) (pos_of k 0).
Proof.
  intros Hk Hv. destruct (prunable (backend p)) eqn:Ep.
  - destruct (st_unspent _ _ Hst (pos_of k 0) (Hv Ep)) as (j & _ & _ & Hn). done.
  - unfold roots. rewrite (proj1 (st_whole _ _ Hst Ep)). by inversion 1.
Qed.

Lemma includes_visible k :
  0 <= k < leaves ts ->
  prunable (backend p) && negb (Leaf.includes (leaf_set (backend p)) (pos_of k 0))
  = negb (bool_decide (visible (backend p) (pos_of k 0))).
Proof.
  intros Hk. pose proof (leaf_in_range k Hk). pose proof st_cap.
  unfold Leaf.includes, bm_contains, wrap32. rewrite Z.mod_small by lia.
  destruct (prunable (backend p)) eqn:Ep; simpl.
  - f_equal. apply bool_decide_ext. unfold visible, unspent. rewrite Ep. tauto.
  - symmetry. apply negb_false_iff, bool_decide_eq_true. intros Hf. congruence.
Qed.

(** [get_data] finds exactly the elements of the visible leaves. *)
Lemma get_data_stored k :
  0 <= k < leaves ts ->
  Pmmr.get_data p (pos_of k 0) =
  if decide (visible (backend p) (pos_of k 0)) then as_elmt <$> ts !! Z.to_nat k else None.
Proof.
  intros Hk. pose proof (leaf_in_range k Hk) as Hr. pose proof st_cap as Hc. destruct st_size as [Eb El].
  unfold Pmmr.get_data. rewrite El. destruct (Z.gtb_spec (pos_of k 0) (mmr_size (leaves ts))); [lia|].
  rewrite leaf_is_leaf by done. cbn [be_get_data stored_backend pmmr_backend]. unfold get_data.
  rewrite leaf_is_leaf by done. cbn [negb]. rewrite includes_visible by done.
  destruct (decide (visible (backend p) (pos_of k 0))) as [Hv|Hv].
  2: { by rewrite bool_decide_eq_false_2. }
  rewrite bool_decide_eq_true_2 by done. cbn [negb]. unfold get_data_from_file. rewrite leaf_is_leaf by done.
  cbn [negb]. pose proof (visible_kept k Hk Hv) as Hn. pose proof st_backend_ok as Hok.
  destruct Hok as [[N Hro] Hso _ Hmax Hcap].
  destruct (is_compacted (backend p) (pos_of k 0)) eqn:Ec.
  { apply (is_compacted_spec _ N) in Ec; [done|done|lia]. }
  rewrite (leaf_shift_at N) by (done || lia || exact (st_shifts _ _ Hst)).
  fold (roots (backend p)). rewrite gone_S, decide_False, Z.add_0_r by (done || lia).
  cbn [shift_of mbind option_bind]. pose proof (gone_bounds (roots (backend p)) k ltac:(lia)).
  pose proof (repr_cap _ _ st_viewed). rewrite n_leaves_leaf by lia. unfold df_read, read_as_elmt.
  rewrite (u64_sub_small (k + 1)) by (unfold is_u64; lia). rewrite u64_sub_small by (unfold is_u64; lia).
  destruct (st_data _ _ Hst) as (disk & Hd).
  replace (k + 1 - gone (roots (backend p)) k - 1) with (Z.of_nat (Z.to_nat (k - gone (roots (backend p)) k))) by lia.
  rewrite (read_holds _ _ _ _ Hd). cbn [bind]. rewrite list_lookup_fmap, kept_lookup by done.
  destruct (ts !! Z.to_nat k) as [t|] eqn:Et.
  - cbn [fmap option_fmap option_map from_option]. unfold id.
    destruct (proj1 (Forall_lookup _ _) (st_elmts _ _ Hst) _ _ Et) as [_ ->]. done.
  - apply lookup_ge_None in Et. unfold leaves in Hk. lia.
Qed.

(** [get_hash] likewise, for the hashes. *)
Lemma get_hash_stored k t :
  0 <= k < leaves ts -> ts !! Z.to_nat k = Some t ->
  Pmmr.get_hash p (pos_of k 0) = be_get_hash (backend p) (pos_of k 0) /\
  be_get_hash (backend p) (pos_of k 0) =
  if decide (visible (backend p) (pos_of k 0)) then Some (leaf_hash t (pos_of k 0 - 1)) else None.
Proof.
  intros Hk Ht. pose proof (leaf_in_range k Hk) as Hr. pose proof st_cap as Hc. destruct st_size as [Eb El].
  unfold Pmmr.get_hash. rewrite El. destruct (Z.gtb_spec (pos_of k 0) (mmr_size (leaves ts))); [lia|].
  rewrite leaf_is_leaf by done. split; [done|].
  cbn [be_get_hash stored_backend pmmr_backend]. unfold get_hash. rewrite leaf_is_leaf, andb_true_r by done.
  rewrite includes_visible by done. destruct (decide (visible (backend p) (pos_of k 0))) as [Hv|Hv].
  2: { by rewrite bool_decide_eq_false_2. }
  rewrite bool_decide_eq_true_2 by done. cbn [negb]. pose proof (visible_kept k Hk Hv) as Hn.
  pose proof st_backend_ok as Hok. pose proof Hok as [[N Hro] Hso (disk & hs & Hh & Hi) Hmax Hcap].
  assert (is_Some (get_from_file (backend p) (pos_of k 0))) as [v Hg].
  { rewrite (get_from_file_spec _ hs disk) by (done || lia). rewrite decide_False by done.
    pose proof (place_bounds (backend p) (pos_of k 0) Hok ltac:(rewrite Eb; lia) Hn) as Hp.
    rewrite (size_unsync_holds _ _ _ Hh), length_fmap in Hp. apply lookup_lt_is_Some. lia. }
  rewrite Hg. pose proof (repr_agrees _ _ st_viewed k 0 v (is_node_leaf k ltac:(lia)) ltac:(lia) Hg) as Ha.
  change (Z.to_nat 0) with 0%nat in Ha. cbn [node_hash] in Ha. rewrite Ht in Ha. cbn in Ha. congruence.
Qed.

(** Past the end there is nothing. *)
Lemma get_past pos : last_pos p < pos -> Pmmr.get_data p pos = None /\ Pmmr.get_hash p pos = None.
Proof.
  intros Hp. unfold Pmmr.get_data, Pmmr.get_hash. by destruct (Z.gtb_spec pos (last_pos p)); [|lia].
Qed.

(** What is visible in a prunable range is a leaf. *)
Lemma unspent_leaf pos :
  pos ∈ unspent (backend p) ->
  exists k t, 0 <= k < leaves ts /\ pos = pos_of k 0 /\ ts !! Z.to_nat k = Some t.
Proof.
  intros Hu. destruct (st_unspent _ _ Hst pos Hu) as (k & Hk & -> & _).
  destruct (lookup_lt_is_Some_2 ts (Z.to_nat k)) as [t Ht]; [unfold leaves in Hk; lia|]. by exists k, t.
Qed.

Lemma be_get_hash_unspent pos :
  prunable (backend p) = true -> is_leaf pos = true -> 0 <= pos < 2 ^ 32 ->
  is_Some (be_get_hash (backend p) pos) <-> pos ∈ unspent (backend p).
Proof.
  intros Ep Hl Hp. split.
  - intros [h Hh]. cbn [be_get_hash stored_backend pmmr_backend] in Hh. unfold get_hash in Hh.
    rewrite Ep, Hl in Hh. cbn [andb] in Hh. unfold Leaf.includes, wrap32 in Hh. rewrite Z.mod_small in Hh by lia.
    destruct (bm_contains _ pos) eqn:Ec; [|done]. by apply bm_contains_spec in Ec.
  - intros Hu. destruct (unspent_leaf pos Hu) as (k & t & Hk & -> & Ht).
    destruct (get_hash_stored k t Hk Ht) as [_ ->]. rewrite decide_True by (intros _; done). eauto.
Qed.

End State.

(** ** The operations *)
Definition same_size_kind (f f' : AppendOnlyFile) : Prop := forall x, fits f' x <-> fits f x.

Lemma rewind_fits f pos : same_size_kind f (AppendOnlyFile.rewind f pos).
Proof. by destruct f as [? [] ? ? ? ?]. Qed.

Lemma flush_fits f f' : AppendOnlyFile.flush f = Ok f' -> same_size_kind f f'.
Proof.
  destruct f as [file info mmap buf start bak]. cbn [AppendOnlyFile.flush]. intros Hf x.
  apply bind_Ok_inv in Hf as (si & Hsi & Hf). apply bind_Ok_inv in Hf as (fl & _ & Hf). injection Hf as <-.
  unfold fits. cbn [size_info]. destruct info as [n|sf]; [by injection Hsi as <-|].
  by apply bind_Ok_inv in Hsi as (sf' & _ & [= <-]).
Qed.

Lemma small_elements l : Forall (fun c => len c < 2 ^ 16) l -> Z.of_nat (length l) < 2 ^ 33 -> small l.
Proof.
  intros HF Hl. split_and!; [|lia|done].
  assert (len (concat l) <= Z.of_nat (length l) * 2 ^ 16); [|lia]. clear Hl.
  induction HF as [|x l Hx _ IHl]; [done|]. cbn [concat length]. rewrite len_app. lia.
Qed.

Lemma kept_elmts l ts : Forall elmt_ok ts -> Forall (fun c => len c < 2 ^ 16) ((fun t => ser_elmt (as_elmt t)) <$> kept l ts).
Proof.
  intros HF. apply Forall_fmap, Forall_forall. intros t Ht. unfold kept in Ht.
  apply list_elem_of_omap in Ht as (k & _ & Hk). unfold keep_at in Hk. case_decide; [done|].
  by destruct (proj1 (Forall_lookup _ _) HF _ _ Hk).
Qed.

Lemma compacted_end p ts : stored p ts -> ~ compacted (roots (backend p)) (pos_of (leaves ts) 0).
Proof.
  intros Hst. apply past_max. pose proof (ok_max _ (st_backend_ok _ _ Hst)) as Hm.
  destruct (st_size _ _ Hst) as [E0 _]. unfold pos_of. lia.
Qed.

Lemma total_leaf_shift p ts :
  stored p ts -> Prune.get_total_leaf_shift (prune_list (backend p)) = Ok (gone (roots (backend p)) (leaves ts)).
Proof.
  intros Hst. pose proof (st_backend_ok _ _ Hst) as Hok. pose proof Hok as [[N Hr] _ _ Hmax _].
  destruct (st_size _ _ Hst) as [E0 _]. pose proof (max_range _ _ Hr).
  unfold Prune.get_total_leaf_shift. apply (leaf_shift_end N); [done|by apply (st_shifts _ _ Hst)|lia|unfold leaves; lia|].
  intros r Hin. pose proof (root_le_max _ _ Hin). lia.
Qed.

(** The data file takes the element and reports how many it has. *)
Lemma data_append p ts t :
  stored p ts -> elmt_ok t -> fits (data_file (backend p)) (ser_elmt (as_elmt t)) ->
  mmr_size (leaves ts + 1) < 2 ^ 32 ->
  exists f disk, df_append ser_elmt (data_file (backend p)) (as_elmt t)
    = Ok (leaves ts - gone (roots (backend p)) (leaves ts) + 1, f) /\
    holds f disk ((fun t => ser_elmt (as_elmt t)) <$> kept (roots (backend p)) (ts ++ [t])) /\
    same_size_kind (data_file (backend p)) f.
Proof.
  intros Hst Ht Hfit Hcap. destruct (st_data _ _ Hst) as (disk & Hd).
  pose proof (mmr_size_ge (leaves ts + 1) ltac:(unfold leaves; lia)).
  pose proof (length_kept (roots (backend p)) ts) as El.
  pose proof (gone_bounds (roots (backend p)) (leaves ts) ltac:(unfold leaves; lia)).
  destruct (append_holds _ _ _ (ser_elmt (as_elmt t)) Hd Hfit) as (f & Ha & Hf & Hsi & _).
  { apply small_elements; [|rewrite length_app, length_fmap; cbn [length]; lia].
    apply Forall_app. split; [apply kept_elmts, (st_elmts _ _ Hst)|]. constructor; [apply Ht|done]. }
  exists f, disk. unfold df_append, append_elmt. rewrite Ha. cbn [bind]. split_and!.
  - rewrite (size_unsync_holds _ _ _ Hf), length_app, length_fmap. cbn [length]. do 2 f_equal. lia.
  - rewrite kept_snoc by (by apply compacted_end). by rewrite fmap_app.
  - by destruct (append_undo _ _ _ Ha) as (_ & _ & Hk).
Qed.

(** The range with one more leaf: the state after the appends of [push]. *)
Lemma backend_append_stored p ts t hs :
  stored p ts -> elmt_ok t -> fits (data_file (backend p)) (ser_elmt (as_elmt t)) ->
  mmr_size (leaves ts + 1) < 2 ^ 32 -> pushed ts t hs ->
  exists b, append as_elmt ser_elmt (backend p) t hs = Ok b /\
    (exists disk, holds (data_file b) disk ((fun t => ser_elmt (as_elmt t)) <$> kept (roots (backend p)) (ts ++ [t]))) /\
    same_size_kind (data_file (backend p)) (data_file b) /\
    prunable b = prunable (backend p) /\ prune_list b = prune_list (backend p) /\
    unspent b = if prunable (backend p) then {[ pos_of (leaves ts) 0 ]} ∪ unspent (backend p) else unspent (backend p).
Proof.
  intros Hst Ht Hfit Hcap Hp. destruct (data_append p ts t Hst Ht Hfit Hcap) as (df & disk & Hd & Hh & Hk).
  pose proof (st_backend_ok _ _ Hst) as [[N Hr] _ (dk & hs0 & Hh0 & Hi0) _ _].
  destruct (st_size _ _ Hst) as [Es _]. pose proof (size_holds _ _ _ Hh0) as Es0.
  pose proof (total_shift_bounds _ _ Hr) as Hts. pose proof (pushed_length _ _ _ Hp) as Epl.
  destruct (append_hashes_holds _ _ _ hs Hh0 Hi0 ltac:(lia)) as (hf & Hah & _).
  assert (0 <= leaves ts) as Hl0 by (unfold leaves; lia).
  pose proof (gone_bounds (roots (backend p)) (leaves ts) Hl0). pose proof (mmr_size_ge (leaves ts + 1) ltac:(lia)).
  unfold append. rewrite Hd. cbn [io_msg map_err bind]. rewrite Hah. cbn [io_msg map_err bind].
  destruct (prunable (backend p)) eqn:Ep.
  - rewrite (total_leaf_shift p ts Hst). cbn [unit_msg map_err bind].
    eexists. split; [done|]. cbn [data_file prunable prune_list]. split_and!; [by exists disk|done|done|done|].
    unfold unspent. cbn [leaf_set]. unfold Leaf.add. cbn [leaf_bitmap].
    rewrite u64_add_small by (unfold is_u64; lia).
    replace (leaves ts - gone (roots (backend p)) (leaves ts) + 1 + gone (roots (backend p)) (leaves ts))
      with (leaves ts + 1) by lia.
    rewrite insertion_pos by lia. unfold wrap32.
    pose proof (mmr_size_lt (leaves ts) (leaves ts + 1) ltac:(lia)). pose proof (mmr_size_ge (leaves ts) Hl0).
    by rewrite Z.mod_small by (unfold pos_of; lia).
  - eexists. split; [done|]. cbn [data_file prunable prune_list]. split_and!; [by exists disk|done..].
Qed.

Lemma push_stored p ts t :
  stored p ts -> elmt_ok t -> fits (data_file (backend p)) (ser_elmt (as_elmt t)) ->
  mmr_size (leaves ts + 1) < 2 ^ 32 ->
  exists p', push p t = Ok (pos_of (leaves ts) 0, p') /\ stored p' (ts ++ [t]) /\
    same_size_kind (data_file (backend p)) (data_file (backend p')) /\
    prunable (backend p') = prunable (backend p) /\ prune_list (backend p') = prune_list (backend p) /\
    unspent (backend p') =
      if prunable (backend p) then {[ pos_of (leaves ts) 0 ]} ∪ unspent (backend p) else unspent (backend p).
Proof.
  intros Hst Ht Hfit Hcap. destruct (push_appends p ts t (st_repr _ _ Hst)) as (hs & Hp & Hpush).
  destruct (backend_append_stored p ts t hs Hst Ht Hfit Hcap Hp) as (b & Hb & (disk & Hd) & Hk & Ep & Epl & Hu).
  assert (0 <= leaves ts) as Hl0 by (unfold leaves; lia). pose proof (mmr_size_ge (leaves ts + 1) ltac:(lia)).
  exists (mkPMMR (mmr_size (leaves ts + 1)) b). rewrite Hpush. cbn [be_append stored_backend pmmr_backend].
  rewrite Hb. cbn [bind]. rewrite insertion_pos by lia. split_and!; [done| |done|done|done|done].
  assert (roots b = roots (backend p)) as Er by (unfold roots; by rewrite Epl).
  constructor; cbn [backend]; rewrite ?Er, ?Epl.
  - apply (append_repr p ts t hs); [exact (st_repr _ _ Hst)|lia|exact Hcap|done|exact Hb].
  - exact (st_shifts _ _ Hst).
  - by exists disk.
  - apply Forall_app. split; [exact (st_elmts _ _ Hst)|by constructor].
  - intros x Hx. rewrite leaves_snoc. rewrite Hu in Hx.
    assert (x = pos_of (leaves ts) 0 \/ x ∈ unspent (backend p)) as [->|Hx'].
    { destruct (prunable (backend p)); [|by right]. apply elem_of_union in Hx as [?%elem_of_singleton|?]; tauto. }
    + exists (leaves ts). split_and!; [lia|lia|done|by apply compacted_end].
    + destruct (st_unspent _ _ Hst x Hx') as (k & Hk0 & -> & Hn). exists k. split_and!; [lia|lia|done|done].
  - rewrite Ep. intros Ef. rewrite Hu, Ef. exact (st_whole _ _ Hst Ef).
Qed.

(** Spending a leaf. *)
Lemma prune_stored p ts pos :
  stored p ts -> prunable (backend p) = true -> pos ∈ unspent (backend p) ->
  exists p', Pmmr.prune p pos = Ok (true, p') /\ stored p' ts /\
    data_file (backend p') = data_file (backend p) /\ prunable (backend p') = true /\
    prune_list (backend p') = prune_list (backend p) /\ unspent (backend p') = unspent (backend p) ∖ {[ pos ]}.
Proof.
  intros Hst Ep Hu. destruct (unspent_leaf p ts Hst pos Hu) as (k & t & Hk & -> & Ht).
  pose proof (leaf_in_range ts k Hk). pose proof (st_cap _ _ Hst).
  unfold Pmmr.prune. rewrite (leaf_is_leaf p ts Hst k Hk). cbn [negb].
  destruct (get_hash_stored p ts Hst k t Hk Ht) as [_ Hh]. rewrite Hh, decide_True by (intros _; done).
  cbn [be_remove stored_backend pmmr_backend]. unfold remove. rewrite Ep. cbn [bind].
  eexists. split; [done|]. cbn [backend data_file prunable prune_list unspent leaf_set]. unfold unspent. cbn [leaf_set].
  unfold Leaf.remove. cbn [leaf_bitmap]. unfold wrap32. rewrite Z.mod_small by lia.
  split_and!; [|done..]. destruct Hst as [Hr Hs Hd He Hun Hw].
  constructor; cbn [backend]; [|done|done|done| |intros Ef; cbn [prunable] in Ef; congruence].
  - destruct Hr as ([Hz Hc Ha Hp] & Hok & Hbs). split_and!; [by constructor|..].
    + destruct Hok. by constructor.
    + done.
  - intros x Hx. apply Hun. unfold unspent in *. cbn [leaf_set leaf_bitmap] in Hx. by apply elem_of_difference in Hx as [Hx _].
Qed.

Lemma prune_spent p ts pos :
  stored p ts -> prunable (backend p) = true -> is_leaf pos = true -> 0 <= pos < 2 ^ 32 ->
  pos ∉ unspent (backend p) -> Pmmr.prune p pos = Ok (false, p).
Proof.
  intros Hst Ep Hl Hpos Hu. unfold Pmmr.prune. rewrite Hl. cbn [negb].
  destruct (be_get_hash (backend p) pos) eqn:Eh; [|done]. exfalso. apply Hu.
  apply (be_get_hash_unspent p ts Hst pos Ep Hl Hpos). rewrite Eh. eauto.
Qed.

Lemma leaf_iter_stored p : prunable (backend p) = true -> Pmmr.leaf_pos_iter p = bm_iter (unspent (backend p)).
Proof. intros Ep. unfold Pmmr.leaf_pos_iter. cbn [be_leaf_pos_iter stored_backend pmmr_backend]. unfold leaf_pos_iter. by rewrite Ep. Qed.


(** The peaks of the first [k] leaves are in the file when no root is past them. *)
Lemma peaks_kept_max p ts k :
  stored p ts -> 0 <= k <= leaves ts -> bm_maximum (bitmap (prune_list (backend p))) <= mmr_size k -> peaks_kept p k.
Proof.
  intros Hst Hk Hm n h Hnode Hn. pose proof (st_backend_ok _ _ Hst) as Hok.
  pose proof Hok as [[N Hr] _ (disk & hs & Hh & _) _ Hcap]. destruct (st_size _ _ Hst) as [Es _].
  pose proof (proj2 (pos_of_in_range n h k Hnode ltac:(lia)) ltac:(lia)) as Hle.
  pose proof (pos_of_pos n h Hnode). pose proof (mmr_size_le k (leaves ts) ltac:(lia)).
  assert (~ compacted (roots (backend p)) (pos_of n h)) as Hnc.
  { intros (r & Hin%elem_of_bm_iter & Hlo)%Exists_exists. pose proof (root_le_max _ _ Hin).
    destruct (under_parent n h r Hnode ltac:(lia) Hlo) as [_ Hp].
    pose proof (proj1 (pos_of_in_range _ _ k (parent_node n h Hnode) ltac:(lia)) ltac:(lia)). lia. }
  cbn [be_get_from_file stored_backend pmmr_backend].
  rewrite (get_from_file_spec _ hs disk), decide_False by (done || lia).
  pose proof (place_bounds (backend p) (pos_of n h) Hok ltac:(lia) Hnc) as Hp.
  rewrite (size_unsync_holds _ _ _ Hh), length_fmap in Hp. apply lookup_lt_is_Some. lia.
Qed.

(** Going back to the first [k] leaves, with the leaves [bm] unspent again. *)
Lemma rewind_stored p ts position bm k :
  stored p ts -> clean (hash_file (backend p)) -> clean (data_file (backend p)) ->
  0 <= position < 2 ^ 60 -> n_leaves position = k -> k <= leaves ts ->
  bm_maximum (bitmap (prune_list (backend p))) <= mmr_size k ->
  (forall x, x ∈ bm -> exists j, 0 <= j < k /\ x = pos_of j 0 /\ ~ compacted (roots (backend p)) x) ->
  exists p', Pmmr.rewind p position bm = Ok p' /\ stored p' (take (Z.to_nat k) ts) /\
    prunable (backend p') = prunable (backend p) /\ prune_list (backend p') = prune_list (backend p) /\
    (prunable (backend p) = true -> forall x, x ∈ unspent (backend p') <->
       x ∈ bm \/ (x ∈ unspent (backend p) /\ x <= mmr_size k)) /\
    (prunable (backend p) = false -> unspent (backend p') = unspent (backend p)) /\
    same_size_kind (data_file (backend p)) (data_file (backend p')).
Proof.
  intros Hst Hch Hcd Hpos Hk Hle Hm Hbm. pose proof (st_backend_ok _ _ Hst) as Hok. pose proof Hok as [[N Hr] _ _ _ Hcap].
  destruct (st_size _ _ Hst) as [Es _]. pose proof (n_leaves_nonneg position Hpos) as Hk0.
  pose proof (mmr_size_le k (leaves ts) ltac:(lia)). pose proof (mmr_size_ge k ltac:(lia)).
  destruct (st_data _ _ Hst) as (disk & Hd).
  assert (exists b', PmmrBackend.rewind (backend p) (mmr_size k) bm = Ok b' /\
    data_file b' = AppendOnlyFile.rewind (data_file (backend p)) (k - gone (roots (backend p)) k) /\
    prunable b' = prunable (backend p) /\ prune_list b' = prune_list (backend p) /\
    leaf_set b' = if prunable (backend p) then Leaf.rewind (leaf_set (backend p)) (mmr_size k) bm
                  else leaf_set (backend p)) as (b' & Hb & Edf & Ep & Epl & Els).
  { unfold PmmrBackend.rewind. rewrite shift_past_max by (done || lia). cbn [unit_msg map_err bind].
    rewrite (leaf_shift_end N _ _ k); [|done|exact (st_shifts _ _ Hst)|lia|lia|].
    2: { intros r Hin. pose proof (root_le_max _ _ Hin). lia. }
    cbn [unit_msg map_err bind]. eexists. split; [done|]. cbn. split_and!; [|done..].
    rewrite <- (Z.add_0_r (mmr_size k)), n_leaves_size by (apply is_node_leaf || lia; lia).
    cbn [Z.eqb]. pose proof (gone_bounds (roots (backend p)) k ltac:(lia)). fold (roots (backend p)).
    by rewrite u64_sub_small by (unfold is_u64; lia). }
  exists (mkPMMR (mmr_size k) b'). unfold Pmmr.rewind. rewrite rewind_pos_leaves, Hk by lia.
  cbn [be_rewind stored_backend pmmr_backend]. rewrite Hb. cbn [bind backend].
  assert (leaves (take (Z.to_nat k) ts) = k) as Elt by (unfold leaves in *; rewrite length_take; lia).
  destruct (backend_rewind (backend p) (mmr_size k) bm b' Hok ltac:(lia) (conj Hch Hm) Hb) as (Hok' & Hs' & Hq').
  assert (roots b' = roots (backend p)) as Er by (unfold roots; by rewrite Epl).
  assert (u32_set (unspent (backend p))) as H32.
  { intros x Hx. destruct (st_unspent _ _ Hst x Hx) as (j & Hj & -> & _).
    pose proof (leaf_in_range ts j Hj). lia. }
  assert (prunable (backend p) = true -> forall x, x ∈ unspent b' <->
       x ∈ bm \/ (x ∈ unspent (backend p) /\ x <= mmr_size k)) as Hun.
  { intros Et x. unfold unspent at 1. rewrite Els, Et. unfold Leaf.rewind. cbn [leaf_bitmap].
    apply elem_of_rewound; [done|lia]. }
  assert (prunable (backend p) = false -> unspent b' = unspent (backend p)) as Hun'.
  { intros Ef. unfold unspent. by rewrite Els, Ef. }
  split_and!; [done| |done|done|done|done|].
  2: { cbn [backend]. intros x. rewrite Edf. apply rewind_fits. }
  constructor; cbn [backend]; rewrite ?Er, ?Epl.
  - split; [|split; [exact Hok'|exact Hs']].
    apply (rewound_view p ts k b' (st_viewed _ _ Hst)); [lia|by eapply peaks_kept_max; [done|lia|]|exact Hq'].
  - exact (st_shifts _ _ Hst).
  - exists disk. rewrite Edf, kept_take, fmap_take by lia.
    pose proof (gone_bounds (roots (backend p)) k ltac:(lia)).
    eapply rewind_holds; [done|done|]. rewrite length_fmap, length_kept.
    assert (gone (roots (backend p)) (leaves ts) - gone (roots (backend p)) k <= leaves ts - k); [|lia].
    pose proof (length_kept_upto (roots (backend p)) ts k ltac:(lia)) as E1.
    pose proof (length_kept (roots (backend p)) ts) as E2.
    rewrite (kept_split _ ts k), length_app in E2 by lia. lia.
  - apply Forall_take. exact (st_elmts _ _ Hst).
  - rewrite Elt. intros x Hx. destruct (prunable (backend p)) eqn:Et.
    + apply Hun in Hx as [Hx|[Hx Hxk]]; [by apply Hbm| |done].
      destruct (st_unspent _ _ Hst x Hx) as (j & Hj & -> & Hn). exists j. split_and!; [lia| |done|done].
      apply (pos_of_in_range j 0 k); [apply is_node_leaf; lia|lia|done].
    + rewrite Hun', (proj2 (st_whole _ _ Hst Et)) in Hx by done. by apply not_elem_of_empty in Hx.
  - rewrite Ep. intros Ef. rewrite Hun' by done. exact (st_whole _ _ Hst Ef).
Qed.

(** The empty range. *)
Lemma empty_range_repr prunable f : repr (Pmmr.new (empty_backend prunable f)) [].
Proof.
  split; [|split; [apply empty_backend_ok|done]]. constructor; [done|done|intros n h v (Hn & _) Hlt|intros n h (Hn & _) Hlt];
    unfold leaves in Hlt; cbn [length Z.of_nat] in Hlt; lia.
Qed.

Lemma empty_stored prunable f : holds f [] [] -> stored (Pmmr.new (empty_backend prunable f)) [].
Proof.
  intros Hf. constructor; [apply empty_range_repr|by left|by exists []|constructor|..].
  - intros x Hx. by apply not_elem_of_empty in Hx.
  - done.
Qed.

(** Writing a range to disk changes nothing in it and makes it ready for a rewind. *)
Lemma sync_stored p ts :
  stored p ts -> exists b', sync (backend p) = Ok b' /\ stored (mkPMMR (last_pos p) b') ts /\
    clean (hash_file b') /\ clean (data_file b') /\ same_size_kind (data_file (backend p)) (data_file b') /\
    prunable b' = prunable (backend p) /\ prune_list b' = prune_list (backend p) /\ unspent b' = unspent (backend p).
Proof.
  intros Hst. pose proof (st_backend_ok _ _ Hst) as Hok. pose proof Hok as [_ _ (dk & hs & Hh & _) _ _].
  destruct (st_data _ _ Hst) as (disk & Hd).
  destruct (flush_holds _ _ _ Hh) as (hf & Hhf & _). destruct (flush_holds _ _ _ Hd) as (df & Hdf & Hd' & Hcd & _).
  assert (sync (backend p) = Ok (mkPMMRBackend (prunable (backend p)) hf df
    (if prunable (backend p) then Leaf.flush (leaf_set (backend p)) else leaf_set (backend p)) (prune_list (backend p)))) as Hs.
  { unfold sync. by rewrite Hhf, Hdf. }
  eexists. split; [exact Hs|]. destruct (sync_keeps _ _ Hok Hs) as (_ & Hok' & Es & Hch & Ep & Hq).
  match type of Hs with _ = Ok ?x => set (b' := x) in * end.
  assert (unspent b' = unspent (backend p)) as Eu by (unfold unspent, b'; cbn [leaf_set]; by destruct (prunable (backend p))).
  assert (roots b' = roots (backend p)) as Er by (unfold roots; by rewrite Ep).
  split_and!; [|done|done|by eapply flush_fits|done|done|done].
  destruct (st_size _ _ Hst) as [E1 E2].
  constructor; cbn [backend]; rewrite ?Er, ?Ep, ?Eu.
  - split; [|split; [exact Hok'|cbn [last_pos]; rewrite E2, <- E1; exact Es]].
    assert (take (Z.to_nat (leaves ts)) ts = ts) as Et by (unfold leaves; by rewrite Nat2Z.id, take_ge).
    pose proof (rewound_view p ts (leaves ts) b' (st_viewed _ _ Hst) ltac:(unfold leaves; lia)
      (repr_peaks _ _ (st_viewed _ _ Hst)) ltac:(intros q Hq1; apply Hq; lia)) as Hv.
    rewrite E2. by rewrite Et in Hv.
  - exact (st_shifts _ _ Hst).
  - eexists. exact Hd'.
  - exact (st_elmts _ _ Hst).
  - exact (st_unspent _ _ Hst).
  - exact (st_whole _ _ Hst).
Qed.

End Stored.
