(* ===== verification/PmmrExample.v ===== *)
(** * The range over the persistent backend, on a concrete instance

    A range of 8-byte elements over an empty [PMMRBackend], with a small
    polynomial hash in the place of BLAKE2b: the hypotheses of the theorems on
    the range hold there, and the theorems apply. *)
From S2P Require Import Prelude PmmrIndex Ser Pmmr PmmrRefine MerkleProof AppendOnlyFile PruneList PmmrBackend PmmrData.
Import Pos Node.

#[local] Instance toy_hasher : Hasher := fun content =>
  from_vec (be_bytes 32 (foldl (fun a b => Z.land (a * 257 + b + 1) (Z.ones 40)) 7 content)).

#[local] Instance toy_index : IndexHash Z Hash := index_hash write_u64.

Definition toy_deser (bs : list Z) : option Z :=
  match deserialize read_u64 bs with
  | Ok x => Some x
  | _ => None
  end.

#[local] Instance toy_backend : Backend Z Hash Z PMMRBackend := pmmr_backend id write_u64 toy_deser.
#[local] Instance toy_laws : BackendLaws Z Hash Z PMMRBackend := pmmr_backend_laws id write_u64 toy_deser.

Definition empty_range : PMMR PMMRBackend := Pmmr.new (empty_backend true (empty_file 8)).

Definition push_all (p : PMMR PMMRBackend) (ts : list Z) : PMMR PMMRBackend :=
  foldl (fun p t => match push p t with Ok (_, p) => p | _ => p end) p ts.

(** Five leaves: positions 1 to 8, peaks 7 and 8. *)
Definition range5 : PMMR PMMRBackend := push_all empty_range [11; 12; 13; 14; 15].

Fixpoint pushes_ok (p : PMMR PMMRBackend) (us : list Z) : bool :=
  match us with
  | [] => true
  | u :: us => match push p u with Ok (_, p) => pushes_ok p us | _ => false end
  end.

(** Pushing small lists keeps the representation. *)
Lemma push_all_repr p ts us :
  repr p ts -> Z.of_nat (length ts + length us) < 1000 -> pushes_ok p us = true ->
  repr (push_all p us) (ts ++ us).
Proof.
  revert p ts. induction us as [|u us IH]; intros p ts Hr Hl Hok; [by rewrite app_nil_r|].
  unfold push_all in *. cbn [foldl pushes_ok] in *.
  destruct (push p u) as [[pos p']| |] eqn:Hp; [|done..].
  assert (leaves ts + 1 < 1000) as Hlt by (unfold leaves; cbn [length] in Hl; lia).
  pose proof (mmr_size_ge (leaves ts + 1) ltac:(unfold leaves; lia)).
  destruct (push_repr p ts u pos p' Hr) as [_ Hr']; [lia|change be_cap with (2 ^ 32); lia|done|].
  replace (ts ++ u :: us) with ((ts ++ [u]) ++ us) by (by rewrite <- app_assoc).
  apply IH; [done|rewrite length_app; cbn [length] in *; lia|done].
Qed.

Lemma range5_repr : repr range5 [11; 12; 13; 14; 15].
Proof.
  apply (push_all_repr empty_range [] [11; 12; 13; 14; 15]); [apply empty_range_repr|done|].
  by vm_compute.
Qed.

(** ** The theorems on this instance *)
Lemma push_refines_witness :
  exists pos p', push range5 16 = Ok (pos, p') /\ pos = 9 /\ repr p' [11; 12; 13; 14; 15; 16].
Proof.
  assert (is_ok (push range5 16) = true) as Hok by (vm_compute; reflexivity).
  destruct (is_ok_inv _ Hok) as [[pos p'] Hp].
  destruct (push_refines range5 [11; 12; 13; 14; 15] 16 range5_repr) as [_ Hpush];
    [vm_compute; reflexivity|vm_compute; reflexivity|].
  destruct (Hpush pos p' Hp) as [Hpos Hr].
  exists pos, p'. split; [exact Hp|]. split; [exact Hpos|exact Hr].
Defined.

Lemma root_refines_witness :
  root range5 = Ok (default Pmmr.ZERO_HASH (range_root [11; 12; 13; 14; 15])) /\
  is_Some (range_root [11; 12; 13; 14; 15]).
Proof.
  destruct range5_repr as (Hv & _ & _).
  destruct (root_refines range5 [11; 12; 13; 14; 15] Hv) as (Hr & _ & Hs).
  split; [exact Hr|]. apply Hs. vm_compute. discriminate.
Defined.

Lemma validate_correct_witness : validate range5 = Ok tt.
Proof.
  destruct range5_repr as (Hv & _ & _).
  assert (0 <= last_pos range5 < 2 ^ 61) as Hl by (split; vm_compute; [discriminate|reflexivity]).
  exact (proj2 (validate_correct range5 Hl) [11; 12; 13; 14; 15] Hv).
Defined.

Lemma prune_refines_witness :
  exists d p', prune range5 4 = Ok (d, p') /\ root p' = root range5.
Proof.
  assert (is_ok (prune range5 4) = true) as Hok by (vm_compute; reflexivity).
  destruct (is_ok_inv _ Hok) as [[d p'] Hp].
  destruct (prune_refines range5 [11; 12; 13; 14; 15] 4 range5_repr) as (_ & _ & _ & Hk).
  destruct (Hk d p' Hp) as [_ Hroot]. exists d, p'. split; [exact Hp|exact Hroot].
Defined.

Lemma all_some {A C} (f : A -> option C) (l : list A) :
  forallb (fun x => match f x with Some _ => true | None => false end) l = true ->
  forall x, x ∈ l -> is_Some (f x).
Proof.
  intros Hall x Hx. rewrite forallb_forall in Hall. specialize (Hall x ltac:(by apply list_elem_of_In)).
  by destruct (f x); eauto.
Qed.

(** The proof of the second leaf (position 2) against the root of the five. *)
Lemma merkle_proof_verifies_witness :
  exists proof root,
    merkle_proof range5 2 = Ok proof /\ Some root = range_root [11; 12; 13; 14; 15] /\
    verify proof root 12 2 = Ok tt.
Proof.
  destruct range5_repr as (Hv & _ & _).
  destruct (range_root [11; 12; 13; 14; 15]) as [root|] eqn:Hroot.
  2: { exfalso. revert Hroot. vm_compute. discriminate. }
  destruct (merkle_proof_verifies range5 [11; 12; 13; 14; 15] 1 12 root Hv) as (proof & Hm & Hver).
  - lia.
  - reflexivity.
  - apply (all_some (Pmmr.get_hash range5) [insertion_to_pmmr_index (1 + 1)]);
      [vm_compute; reflexivity|by left].
  - apply (all_some (fun x => be_get_from_file (backend range5) x.2)). vm_compute. reflexivity.
  - exists proof, root. split; [exact Hm|]. split; [reflexivity|].
    rewrite Hroot in Hver. rewrite decide_True in Hver by reflexivity. exact Hver.
Defined.

(** ** A synced range *)
Lemma sync_repr (p : PMMR PMMRBackend) ts b :
  repr p ts -> sync (backend p) = Ok b ->
  repr (mkPMMR (last_pos p) b) ts /\ clean (hash_file b) /\
  prune_list b = prune_list (backend p) /\ backend_ok b /\ backend_size b = last_pos p.
Proof.
  intros ([Hs Hc Ha Hp] & Hbok & Hbs) Hb.
  destruct (sync_keeps (backend p) b Hbok Hb) as (_ & Hok' & Es & Hcl & Ep & Hq).
  change (be_size (backend p)) with (backend_size (backend p)) in Hbs.
  assert (forall n h, is_node n h -> n < leaves ts ->
    get_from_file b (pos_of n h) = get_from_file (backend p) (pos_of n h)) as Hsame.
  { intros n h Hn Hlt. apply Hq. rewrite Hbs, Hs. split; [by apply Spec.pos_of_pos|].
    apply Spec.pos_of_in_range; [done|unfold leaves; lia|done]. }
  split; [|split_and!; [done|done|done|congruence]].
  split; [constructor|split; [exact Hok'|]].
  - done.
  - done.
  - intros n h v Hn Hlt. change (be_get_from_file (backend (mkPMMR (last_pos p) b))) with (get_from_file b).
    rewrite (Hsame n h Hn Hlt). exact (Ha n h v Hn Hlt).
  - intros n h Hn Hlt. change (be_get_from_file (backend (mkPMMR (last_pos p) b))) with (get_from_file b).
    rewrite (Hsame n h Hn ltac:(lia)). exact (Hp n h Hn Hlt).
  - change (be_size (backend (mkPMMR (last_pos p) b))) with (backend_size b). cbn [last_pos]. congruence.
Qed.

Lemma range5_synced :
  exists b, sync (backend range5) = Ok b /\ repr (mkPMMR (last_pos range5) b) [11; 12; 13; 14; 15] /\
    clean (hash_file b) /\ bitmap (prune_list b) = ∅ /\ backend_ok b /\ backend_size b = 8.
Proof.
  assert (is_ok (sync (backend range5)) = true) as Hok by (vm_compute; reflexivity).
  destruct (is_ok_inv _ Hok) as [b Hb]. exists b.
  destruct (sync_repr range5 _ b range5_repr Hb) as (Hr & Hcl & Ep & Hok' & Hs).
  split; [exact Hb|]. split; [exact Hr|]. split; [exact Hcl|]. split; [|split; [exact Hok'|]].
  - rewrite Ep. vm_compute. reflexivity.
  - rewrite Hs. vm_compute. reflexivity.
Qed.

(** Rewinding it to three leaves (position 4) and to a position inside the third. *)
Lemma rewind_refines_witness :
  exists p, repr p [11; 12; 13; 14; 15] /\
    rewindable_root (rewindable_rewind p 4) = Ok (default Pmmr.ZERO_HASH (range_root [11; 12; 13])) /\
    forall p', Pmmr.rewind p 4 ∅ = Ok p' -> repr p' [11; 12; 13].
Proof.
  destruct range5_synced as (b & _ & Hr & Hcl & He & Hok & Hs).
  revert Hr. generalize (last_pos range5). intros lp Hr. exists (mkPMMR lp b).
  destruct (rewind_refines (mkPMMR lp b) [11; 12; 13; 14; 15] 4 ∅ 3 Hr) as (_ & Hrw & Hroot).
  - lia.
  - vm_compute. reflexivity.
  - vm_compute. discriminate.
  - intros n h Hn Hlt. apply unpruned_read; [exact Hok|exact He|].
    change (backend (mkPMMR lp b)) with b. rewrite Hs. split; [by apply Spec.pos_of_pos|].
    exact (proj2 (Spec.pos_of_in_range n h 5 Hn ltac:(lia)) ltac:(lia)).
  - split; [exact Hcl|]. change (backend (mkPMMR lp b)) with b. rewrite He. vm_compute. discriminate.
  - split; [exact Hr|]. split; [exact Hroot|]. intros p' Hp'. exact (proj1 (Hrw p' Hp')).
Defined.

(** Pushing a leaf on the synced range and discarding it. *)
Lemma backend_sync_discard_witness :
  exists b b', sync (backend range5) = Ok b /\ append id write_u64 b 16 [Ser.ZERO_HASH] = Ok b' /\
    backend_size (discard b') = 8 /\
    forall q, 1 <= q <= 8 -> get_from_file (discard b') q = get_from_file (backend range5) q.
Proof.
  destruct range5_synced as (b & Hb & Hr & Hcl & He & Hok & Hs).
  assert (match sync (backend range5) with
          | Ok b => is_ok (append id write_u64 b 16 [Ser.ZERO_HASH]) | _ => false end = true) as Hok'
    by (vm_compute; reflexivity).
  rewrite Hb in Hok'. destruct (is_ok_inv _ Hok') as [b' Hb'].
  destruct range5_repr as (_ & Hbok & Hbs).
  assert (backend_size (backend range5) = 8) as H8 by (vm_compute; reflexivity).
  destruct (backend_sync_discard id write_u64 (backend range5) b b' Hbok Hb) as (_ & _ & Hsz & _ & Hq).
  - apply rtc_once. eapply work_append; [exact Hok| |exact Hb']. rewrite Hs. vm_compute. reflexivity.
  - rewrite H8 in *. exists b, b'. split_and!; [exact Hb|exact Hb'|exact Hsz|exact Hq].
Defined.
