(* ===== verification/Float.v ===== *)
(** * IEEE 754 arithmetic

    The [f64] and [f32] operations the node computes with, on the Standard
    Library's [spec_float]: round to nearest even, as the hardware does. *)
From Stdlib Require Export SpecFloat.
From S2P Require Import Prelude.

Section Format.
Context (prec emax : Z).

(** [x as f64] of an integer, and a decimal literal [num / den]: the exact
    quotient, correctly rounded. *)
Definition f_of_Z (z : Z) : spec_float := binary_normalize prec emax z 0 false.
Definition f_lit (num den : Z) : spec_float := SFdiv prec emax (f_of_Z num) (f_of_Z den).
Definition f_mul : spec_float -> spec_float -> spec_float := SFmul prec emax.
Definition f_div : spec_float -> spec_float -> spec_float := SFdiv prec emax.
Definition f_sub : spec_float -> spec_float -> spec_float := SFsub prec emax.

End Format.

Definition f64_of_Z : Z -> spec_float := f_of_Z 53 1024.
Definition f64_lit : Z -> Z -> spec_float := f_lit 53 1024.
Definition f64_mul : spec_float -> spec_float -> spec_float := f_mul 53 1024.
Definition f32_of_Z : Z -> spec_float := f_of_Z 24 128.
Definition f32_div : spec_float -> spec_float -> spec_float := f_div 24 128.
Definition f32_sub : spec_float -> spec_float -> spec_float := f_sub 24 128.
Definition f32_mul : spec_float -> spec_float -> spec_float := f_mul 24 128.

(** [x as u64]: truncation toward zero, saturating; [NaN] is 0. *)
Definition trunc_u64 (x : spec_float) : Z :=
  match x with
  | S754_finite false m e =>
      Z.min u64_max (if 0 <=? e then Z.pos m * 2 ^ e else Z.pos m / 2 ^ (- e))
  | S754_infinity false => u64_max
  | _ => 0
  end.

(** [partial_cmp]: [None] on [NaN]. *)
Definition f_partial_cmp (x y : spec_float) : option comparison := SFcompare x y.
