(* ===== verification/Global.v ===== *)
(** * Chain parameters

    [core/src/global.rs]: the chain type is process-wide state that only
    [set_mining_mode] writes; here it is an argument of the functions that read
    it.  The constants are those of [core/src/consensus.rs] and [global.rs]. *)
From S2P Require Import Prelude.

Inductive ChainTypes : Type := AutomatedTesting | UserTesting | Floonet | Mainnet.
#[export] Instance ChainTypes_eq_dec : EqDecision ChainTypes.
Proof. solve_decision. Defined.

(** ** Constants *)
Definition BLOCK_TIME_SEC : Z := 60.
Definition HOUR_HEIGHT : Z := 3600 / BLOCK_TIME_SEC.
Definition DAY_HEIGHT : Z := 24 * HOUR_HEIGHT.
Definition WEEK_HEIGHT : Z := 7 * DAY_HEIGHT.
Definition YEAR_HEIGHT : Z := 52 * WEEK_HEIGHT.
Definition COINBASE_MATURITY : Z := DAY_HEIGHT.
Definition PROOFSIZE : Z := 42.
Definition DEFAULT_MIN_EDGE_BITS : Z := 19.
Definition SECOND_POW_EDGE_BITS : Z := 31.
Definition BASE_EDGE_BITS : Z := 24.
Definition CUT_THROUGH_HORIZON : Z := WEEK_HEIGHT.
Definition STATE_SYNC_THRESHOLD : Z := 2 * DAY_HEIGHT.
Definition BLOCK_INPUT_WEIGHT : Z := 1.
Definition BLOCK_OUTPUT_WEIGHT : Z := 21.
Definition BLOCK_KERNEL_WEIGHT : Z := 3.
Definition MAX_BLOCK_WEIGHT : Z := 40000.
Definition UNIT_DIFFICULTY : Z := Z.shiftl 2 (SECOND_POW_EDGE_BITS - BASE_EDGE_BITS) * SECOND_POW_EDGE_BITS.
Definition INITIAL_DIFFICULTY : Z := 1000000 * UNIT_DIFFICULTY.
Definition CURRENT_HEADER_VERSION : Z := 6.

(** ** Parameters by chain *)
Definition min_edge_bits (c : ChainTypes) : Z :=
  match c with
  | AutomatedTesting => 9
  | UserTesting => 15
  | _ => DEFAULT_MIN_EDGE_BITS
  end.

Definition base_edge_bits (c : ChainTypes) : Z :=
  match c with
  | AutomatedTesting => 9
  | UserTesting => 15
  | _ => BASE_EDGE_BITS
  end.

Definition proofsize (c : ChainTypes) : Z :=
  match c with
  | AutomatedTesting => 4
  | UserTesting => 42
  | _ => PROOFSIZE
  end.

Definition coinbase_maturity (c : ChainTypes) : Z :=
  match c with
  | AutomatedTesting => 3
  | UserTesting => 3
  | Floonet => 30
  | Mainnet => COINBASE_MATURITY
  end.

Definition initial_block_difficulty (c : ChainTypes) : Z :=
  match c with
  | AutomatedTesting | UserTesting => 1
  | Floonet | Mainnet => INITIAL_DIFFICULTY
  end.

Definition max_block_weight (c : ChainTypes) : Z :=
  match c with
  | AutomatedTesting | UserTesting => 150
  | Floonet | Mainnet => MAX_BLOCK_WEIGHT
  end.

Definition cut_through_horizon (c : ChainTypes) : Z :=
  match c with
  | AutomatedTesting | UserTesting => 70
  | _ => CUT_THROUGH_HORIZON
  end.

Definition state_sync_threshold (c : ChainTypes) : Z :=
  match c with
  | AutomatedTesting | UserTesting => 20
  | _ => STATE_SYNC_THRESHOLD
  end.

Definition is_production_mode (c : ChainTypes) : bool :=
  match c with
  | Floonet | Mainnet => true
  | _ => false
  end.

Definition is_automated_testing_mode (c : ChainTypes) : bool := bool_decide (c = AutomatedTesting).
