(* ===== verification/Reward.v ===== *)
(** * Emission

    The reward schedule of [core/src/consensus.rs]: the block reward by era, the
    foundation levy computed in [f64], the mining reward, the levy paid once per
    foundation height and the total overage the chain must carry. *)
From S2P Require Import Prelude Float Global.

Definition EPIC_BASE : Z := 100000000.

Definition BLOCK_ERA_1 : Z := DAY_HEIGHT * 334.
Definition BLOCK_ERA_2 : Z := BLOCK_ERA_1 + DAY_HEIGHT * 470.
Definition BLOCK_ERA_3 : Z := BLOCK_ERA_2 + DAY_HEIGHT * 601.
Definition BLOCK_ERA_4 : Z := BLOCK_ERA_3 + DAY_HEIGHT * 800.
Definition BLOCK_ERA_5 : Z := BLOCK_ERA_4 + DAY_HEIGHT * 1019.
Definition BLOCK_ERA_6_ONWARDS : Z := DAY_HEIGHT * 1460.
Definition BASE_REWARD_ERA_6_ONWARDS : Z :=
  trunc_u64 (f64_mul (f64_lit 15625 100000) (f64_of_Z EPIC_BASE)).

Definition block_total_reward_at_height (height : Z) : Z :=
  if height <=? BLOCK_ERA_1 then 16 * EPIC_BASE
  else if height <=? BLOCK_ERA_2 then 8 * EPIC_BASE
  else if height <=? BLOCK_ERA_3 then 4 * EPIC_BASE
  else if height <=? BLOCK_ERA_4 then 2 * EPIC_BASE
  else if height <=? BLOCK_ERA_5 then 1 * EPIC_BASE
  else
    let height_with_offset := height -! BLOCK_ERA_5 -! 1 in
    let exp := height_with_offset / BLOCK_ERA_6_ONWARDS in
    BASE_REWARD_ERA_6_ONWARDS / (1 <<! exp).

Definition foundation_height (c : ChainTypes) : Z :=
  match c with
  | AutomatedTesting => 5
  | UserTesting => DAY_HEIGHT
  | Floonet => DAY_HEIGHT
  | Mainnet => DAY_HEIGHT
  end.

Definition FOUNDATION_LEVY_ERA_1 : Z := DAY_HEIGHT * 120.
Definition FOUNDATION_LEVY_ERA_2_ONWARDS : Z := DAY_HEIGHT * 365.

Definition FOUNDATION_LEVY : list spec_float :=
  (fun n => f64_lit n 10000) <$> [888; 777; 666; 555; 444; 333; 222; 111; 111].

(** The assertion on the index panics; it needs a height beyond [2 ^ 32] levy eras. *)
Definition reward_foundation_at_height (height : Z) : outcome () Z :=
  if height <=? 0 then Ok 0
  else if height <=? FOUNDATION_LEVY_ERA_1 then
    let? levy := unwrap (FOUNDATION_LEVY !! 0%nat) in
    Ok (trunc_u64 (f64_mul (f64_of_Z (block_total_reward_at_height height)) levy))
  else
    let height_with_offset := height -! FOUNDATION_LEVY_ERA_1 -! 1 in
    let index := height_with_offset / FOUNDATION_LEVY_ERA_2_ONWARDS +! 1 in
    if negb (index <? 2 ^ 32 - 1) then Panic
    else
      match FOUNDATION_LEVY !! Z.to_nat index with
      | Some levy =>
          Ok (trunc_u64 (f64_mul (f64_of_Z (block_total_reward_at_height height)) levy))
      | None => Ok 0
      end.

Definition reward_at_height (height : Z) : outcome () Z :=
  let total_reward := block_total_reward_at_height height in
  let? levy := reward_foundation_at_height height in
  Ok (total_reward -! levy).

Definition reward (fee height : Z) : outcome () Z :=
  let? r := reward_at_height height in Ok (sat_add r fee).

Definition is_foundation_height (c : ChainTypes) (height : Z) : outcome () bool :=
  if (height >? 0) && (height mod foundation_height c =? 0) then
    let? levy := reward_foundation_at_height height in Ok (negb (levy =? 0))
  else Ok false.

Definition foundation_index (c : ChainTypes) (height : Z) : outcome () Z :=
  if height >? 0 then Ok (height / foundation_height c -! 1) else Panic.

(** The sum over [n..=height]; the caller's range is never empty. *)
Fixpoint sum_levy (count : nat) (from sum : Z) : outcome () Z :=
  match count with
  | O => Ok sum
  | S count =>
      let? levy := reward_foundation_at_height from in
      sum_levy count (from + 1) (sum +! levy)
  end.

Definition cumulative_reward_foundation (c : ChainTypes) (height : Z) : outcome () Z :=
  let? ok := is_foundation_height c height in
  if negb ok then Panic
  else
    let f_height := foundation_height c in
    let n := height -! f_height +! 1 in
    sum_levy (Z.to_nat (height - n + 1)) n 0.

Definition add_reward_foundation (c : ChainTypes) (height : Z) : outcome () Z :=
  let? ok := is_foundation_height c height in
  if ok then cumulative_reward_foundation c height else Ok 0.

Definition reward_foundation (c : ChainTypes) (fees height : Z) : outcome () Z :=
  let? r := reward fees height in
  let? f := add_reward_foundation c height in
  Ok (r +! f).

(** The loop over [1..=height] of [total_overage_at_height], on [i64]. *)
Fixpoint overage_loop (c : ChainTypes) (count : nat) (i sum : Z) : outcome () Z :=
  match count with
  | O => Ok sum
  | S count =>
      let? r := reward_at_height i in
      let? f := add_reward_foundation c i in
      overage_loop c count (i + 1) (wrap_i64 (sum + wrap_i64 (wrap_i64 r + wrap_i64 f)))
  end.

Definition total_overage_at_height (c : ChainTypes) (height : Z) (genesis_had_reward : bool)
    : outcome () Z :=
  let? sum := if genesis_had_reward
              then let? r := reward_at_height 0 in Ok (wrap_i64 (0 + wrap_i64 r))
              else Ok 0 in
  overage_loop c (Z.to_nat height) 1 sum.

(** ** The schedule in integers *)

(** The levy of a height in ten-thousandths of the block reward. *)
Definition levy_rate (height : Z) : Z :=
  if height <=? 0 then 0
  else default 0 ([888; 777; 666; 555; 444; 333; 222; 111; 111]
                    !! Z.to_nat ((height - 120 * 1440 - 1) / (365 * 1440) + 1)).

Definition levy (height : Z) : Z := levy_rate height * block_total_reward_at_height height / 10000.

(** The first height no model of the schedule has to consider: the shift count
    of the halvings reaches the width of the word. *)
Definition last_height : Z := BLOCK_ERA_5 + 64 * BLOCK_ERA_6_ONWARDS.

(** Sum of [f] over the [n] heights from [a]. *)
Fixpoint sum_range (f : Z -> Z) (a : Z) (n : nat) : Z :=
  match n with
  | O => 0
  | S n => sum_range f a n + f (a + Z.of_nat n)
  end.

Definition LEVY_DAYS : Z := DAY_HEIGHT * 3040.

Ltac schedule :=
  unfold last_height, LEVY_DAYS, FOUNDATION_LEVY_ERA_1, FOUNDATION_LEVY_ERA_2_ONWARDS,
    BLOCK_ERA_6_ONWARDS, BLOCK_ERA_5, BLOCK_ERA_4, BLOCK_ERA_3, BLOCK_ERA_2, BLOCK_ERA_1,
    DAY_HEIGHT, HOUR_HEIGHT, BLOCK_TIME_SEC, EPIC_BASE in *;
  change (3600 / 60) with 60 in *.

Lemma base_reward_era_6 : BASE_REWARD_ERA_6_ONWARDS = 15625000.
Proof. vm_compute. reflexivity. Qed.

Lemma total_reward_fixed h :
  0 <= h <= BLOCK_ERA_5 ->
  block_total_reward_at_height h ∈ [16 * EPIC_BASE; 8 * EPIC_BASE; 4 * EPIC_BASE; 2 * EPIC_BASE; 1 * EPIC_BASE].
Proof.
  intros Hh. unfold block_total_reward_at_height.
  repeat case_match; first [lia | by eauto using list_elem_of_here, list_elem_of_further].
Qed.

Lemma total_reward_halving h k :
  0 <= k < 64 ->
  BLOCK_ERA_5 + k * BLOCK_ERA_6_ONWARDS < h <= BLOCK_ERA_5 + (k + 1) * BLOCK_ERA_6_ONWARDS ->
  block_total_reward_at_height h = 15625000 / 2 ^ k.
Proof.
  intros Hk Hh. unfold block_total_reward_at_height. rewrite base_reward_era_6. schedule.
  repeat (case_match; [lia|]). rewrite (u64_sub_small h) by (unfold is_u64; lia). unwrap64.
  assert (Hq : (h - 4642560 - 1) / 2102400 = k)
    by (symmetry; apply Z.div_unique_pos with (h - 4642560 - 1 - 2102400 * k); lia).
  change (24 * 60 * 1460) with 2102400.
  match goal with |- context [(?a - ?b - 1) / 2102400] => change b with 4642560 end.
  rewrite Hq.
  rewrite u64_shl_small, Z.mul_1_l; try done.
  split; [lia|]. rewrite Z.mul_1_l. apply Z.pow_lt_mono_r; lia.
Qed.

Lemma total_reward_bounds h : 0 <= block_total_reward_at_height h <= 16 * EPIC_BASE.
Proof.
  unfold block_total_reward_at_height. rewrite base_reward_era_6.
  repeat (case_match; [unfold EPIC_BASE; lia|]).
  set (d := 1 <<! _). assert (Hd : 0 <= d) by (subst d; unfold u64_shl; apply wrap64_range).
  destruct (decide (d = 0)) as [->|Hz]; [rewrite Z.div_0_r; unfold EPIC_BASE; lia|].
  split; [apply Z.div_pos; lia|].
  apply Z.le_trans with (15625000 / 1); [apply Z.div_le_compat_l; lia|]. unfold EPIC_BASE.
  rewrite Z.div_1_r. lia.
Qed.

(** The [f64] product, truncated, is the exact decimal product in every era. *)
Lemma f64_levy_exact :
  forallb (fun t => forallb (fun '(l, n) => trunc_u64 (f64_mul (f64_of_Z t) l) =? n * t / 10000)
    (zip FOUNDATION_LEVY [888; 777; 666; 555; 444; 333; 222; 111; 111]))
    [16 * EPIC_BASE; 8 * EPIC_BASE; 4 * EPIC_BASE; 2 * EPIC_BASE; 1 * EPIC_BASE] = true.
Proof. vm_compute. reflexivity. Qed.

Lemma f64_levy_era t i l :
  t ∈ [16 * EPIC_BASE; 8 * EPIC_BASE; 4 * EPIC_BASE; 2 * EPIC_BASE; 1 * EPIC_BASE] ->
  FOUNDATION_LEVY !! i = Some l ->
  trunc_u64 (f64_mul (f64_of_Z t) l)
    = default 0 ([888; 777; 666; 555; 444; 333; 222; 111; 111] !! i) * t / 10000.
Proof.
  intros Ht Hl. pose proof f64_levy_exact as H. rewrite forallb_forall in H.
  apply list_elem_of_In in Ht. specialize (H t Ht). rewrite forallb_forall in H.
  destruct ([888; 777; 666; 555; 444; 333; 222; 111; 111] !! i) as [n|] eqn:Hn.
  - specialize (H (l, n)). apply Z.eqb_eq, H. apply list_elem_of_In.
    apply list_elem_of_lookup. exists i. apply lookup_zip_with_Some. eauto.
  - exfalso. apply lookup_lt_Some in Hl. apply lookup_ge_None in Hn. cbn in *. lia.
Qed.

Lemma levy_index_range h :
  0 < h <= LEVY_DAYS -> 0 <= (h - 172800 - 1) / 525600 + 1 <= 8.
Proof. schedule. intros Hh. Z.div_mod_to_equations. lia. Qed.

Lemma reward_foundation_levy h :
  0 <= h < 2 ^ 50 -> reward_foundation_at_height h = Ok (levy h).
Proof.
  intros Hh. unfold reward_foundation_at_height, levy, levy_rate.
  destruct (Z.leb_spec h 0); [reflexivity|].
  change (120 * 1440) with 172800. change (365 * 1440) with 525600.
  change FOUNDATION_LEVY_ERA_1 with 172800. change FOUNDATION_LEVY_ERA_2_ONWARDS with 525600.
  case_match.
  - replace ((h - 172800 - 1) / 525600) with (-1) by (Z.div_mod_to_equations; lia).
    assert (Ht := total_reward_fixed h ltac:(schedule; lia)).
    destruct (FOUNDATION_LEVY !! 0%nat) as [l|] eqn:Hl; [|discriminate Hl].
    cbn [unwrap bind]. by rewrite (f64_levy_era _ 0 l Ht Hl).
  - assert (Hi : 1 <= (h - 172800 - 1) / 525600 + 1 < 2 ^ 32 - 1) by (Z.div_mod_to_equations; lia).
    rewrite (u64_sub_small h) by (unfold is_u64; lia). unwrap64.
    set (i := (h - 172800 - 1) / 525600 + 1) in *.
    destruct (Z.ltb_spec i (2 ^ 32 - 1)); [|lia]. cbn [negb].
    destruct (FOUNDATION_LEVY !! Z.to_nat i) as [l|] eqn:Hl.
    + rewrite (f64_levy_era _ (Z.to_nat i) l); [done| |done].
      apply total_reward_fixed. apply lookup_lt_Some in Hl. cbn in Hl. subst i.
      schedule. Z.div_mod_to_equations. lia.
    + apply lookup_ge_None in Hl. cbn in Hl.
      rewrite lookup_ge_None_2 by (cbn; lia). done.
Qed.

Lemma levy_rate_bounds h : 0 <= levy_rate h <= 888.
Proof.
  unfold levy_rate. case_match; [lia|].
  destruct (_ !! _) as [n|] eqn:Hn; cbn; [|lia].
  apply list_elem_of_lookup_2 in Hn.
  repeat (apply elem_of_cons in Hn as [->|Hn]; [lia|]). by apply not_elem_of_nil in Hn.
Qed.

Lemma levy_bounds h : 0 <= levy h <= block_total_reward_at_height h.
Proof.
  pose proof (levy_rate_bounds h). pose proof (total_reward_bounds h). unfold levy.
  split; [apply Z.div_pos; nia|]. apply Z.div_le_upper_bound; nia.
Qed.

Lemma reward_at_height_levy h :
  0 <= h < 2 ^ 50 -> reward_at_height h = Ok (block_total_reward_at_height h - levy h).
Proof.
  intros Hh. unfold reward_at_height. rewrite reward_foundation_levy by done. cbn.
  pose proof (levy_bounds h). pose proof (total_reward_bounds h).
  rewrite u64_sub_small; [done|]. unfold is_u64. schedule. lia.
Qed.

(** The levy is positive on the days of the schedule and zero after them. *)
Lemma levy_positive h : 0 < h < 2 ^ 50 -> 0 < levy h <-> h <= LEVY_DAYS.
Proof.
  intros Hh. unfold levy, levy_rate. destruct (Z.leb_spec h 0); [lia|].
  change (120 * 1440) with 172800. change (365 * 1440) with 525600.
  destruct (decide (h <= LEVY_DAYS)) as [Hd|Hd].
  - split; [done|intros _].
    assert (Hi := levy_index_range h ltac:(lia)).
    assert (Ht := total_reward_fixed h ltac:(schedule; lia)).
    generalize dependent (block_total_reward_at_height h). intros t Ht.
    set (i := (h - 172800 - 1) / 525600 + 1) in *.
    assert (Hr : 111 <= default 0 ([888; 777; 666; 555; 444; 333; 222; 111; 111] !! Z.to_nat i)).
    { generalize i Hi. clear. intros i Hi.
      assert (i = 0 \/ i = 1 \/ i = 2 \/ i = 3 \/ i = 4 \/ i = 5 \/ i = 6 \/ i = 7 \/ i = 8)
        as Hc by lia.
      by repeat destruct Hc as [->|Hc]; subst. }
    apply Z.div_str_pos.
    assert (EPIC_BASE <= t).
    { repeat (apply elem_of_cons in Ht as [->|Ht]; [unfold EPIC_BASE; lia|]).
      by apply not_elem_of_nil in Ht. }
    schedule. nia.
  - split; [|done]. rewrite lookup_ge_None_2; cbn [default from_option].
    { rewrite Z.mul_0_l, Z.div_0_l by done. lia. }
    schedule. cbn [length]. Z.div_mod_to_equations. lia.
Qed.

(** ** Supply *)

Lemma sum_range_S f a n : sum_range f a (S n) = sum_range f a n + f (a + Z.of_nat n).
Proof. reflexivity. Qed.

Lemma sum_range_app f a n m :
  sum_range f a (n + m) = sum_range f a n + sum_range f (a + Z.of_nat n) m.
Proof.
  induction m as [|m IH]; [rewrite Nat.add_0_r; cbn; lia|].
  rewrite Nat.add_succ_r, !sum_range_S, IH.
  replace (a + Z.of_nat (n + m)) with (a + Z.of_nat n + Z.of_nat m) by lia. lia.
Qed.

Lemma sum_range_const f a n v :
  (forall i, a <= i < a + Z.of_nat n -> f i = v) -> sum_range f a n = Z.of_nat n * v.
Proof.
  intros Hf. induction n as [|n IH]; [done|].
  rewrite sum_range_S, IH, Hf by (intros; try apply Hf; lia). lia.
Qed.

Lemma sum_range_nonneg f a n : (forall i, 0 <= f i) -> 0 <= sum_range f a n.
Proof. intros Hf. induction n; [done|]. rewrite sum_range_S. specialize (Hf (a + Z.of_nat n)). lia. Qed.

Lemma sum_range_minus f g a n :
  sum_range (fun i => f i - g i) a n = sum_range f a n - sum_range g a n.
Proof. induction n as [|n IH]; [done|]. rewrite !sum_range_S, IH. lia. Qed.

(** The reward of the first [h] blocks after the genesis block. *)
Definition emitted (h : Z) : Z := sum_range block_total_reward_at_height 1 (Z.to_nat h).

Lemma emitted_S h : 0 <= h -> emitted (h + 1) = emitted h + block_total_reward_at_height (h + 1).
Proof.
  intros Hh. unfold emitted. rewrite Z2Nat.inj_add, Nat.add_1_r, sum_range_S by lia.
  f_equal. f_equal. lia.
Qed.

Lemma emitted_era h d v :
  0 <= h -> 0 <= d ->
  (forall i, h < i <= h + d -> block_total_reward_at_height i = v) ->
  emitted (h + d) = emitted h + d * v.
Proof.
  intros Hh Hd Hv. unfold emitted. rewrite Z2Nat.inj_add by lia.
  rewrite sum_range_app, (sum_range_const _ (1 + _) _ v) by (intros; apply Hv; lia).
  by rewrite Z2Nat.id by lia.
Qed.

Lemma emitted_five_eras : emitted BLOCK_ERA_5 = 20342880 * EPIC_BASE.
Proof.
  assert (Hera : forall (lo d : Z) v, 0 <= lo -> 0 <= d ->
    (forall i, lo < i <= lo + d -> block_total_reward_at_height i = v) ->
    emitted (lo + d) = emitted lo + d * v) by (intros; by apply emitted_era).
  assert (H1 := Hera 0 BLOCK_ERA_1 (16 * EPIC_BASE)).
  assert (H2 := Hera BLOCK_ERA_1 (DAY_HEIGHT * 470) (8 * EPIC_BASE)).
  assert (H3 := Hera BLOCK_ERA_2 (DAY_HEIGHT * 601) (4 * EPIC_BASE)).
  assert (H4 := Hera BLOCK_ERA_3 (DAY_HEIGHT * 800) (2 * EPIC_BASE)).
  assert (H5 := Hera BLOCK_ERA_4 (DAY_HEIGHT * 1019) (1 * EPIC_BASE)).
  change (emitted 0) with 0 in H1. change (0 + BLOCK_ERA_1) with BLOCK_ERA_1 in *.
  fold BLOCK_ERA_2 in H2. fold BLOCK_ERA_3 in H3. fold BLOCK_ERA_4 in H4. fold BLOCK_ERA_5 in H5.
  rewrite H5, H4, H3, H2, H1; clear.
  all: try (intros i Hi; unfold block_total_reward_at_height).
  all: schedule; first [lia | repeat case_match; first [lia|reflexivity]].
Qed.

(** What the halvings can still emit, [r] blocks into their [k]-th era. *)
Lemma emitted_halvings (n : nat) :
  Z.of_nat n < 64 * BLOCK_ERA_6_ONWARDS ->
  let k := Z.of_nat n / BLOCK_ERA_6_ONWARDS in
  let r := Z.of_nat n mod BLOCK_ERA_6_ONWARDS in
  emitted (BLOCK_ERA_5 + Z.of_nat n)
    + 15625000 / 2 ^ k * (2 * BLOCK_ERA_6_ONWARDS - r)
  <= emitted BLOCK_ERA_5 + 15625000 * (2 * BLOCK_ERA_6_ONWARDS).
Proof.
  change BLOCK_ERA_6_ONWARDS with 2102400.
  induction n as [|n IH]; intros Hn k r.
  { subst k r. change (Z.of_nat 0) with 0.
    rewrite Z.div_0_l, Z.mod_0_l, Z.pow_0_r, Z.div_1_r, Z.add_0_r by lia. lia. }
  specialize (IH ltac:(lia)). cbv zeta in IH.
  set (k' := Z.of_nat n / 2102400) in *. set (r' := Z.of_nat n mod 2102400) in *.
  assert (Hdm : Z.of_nat n = 2102400 * k' + r') by (subst k' r'; apply Z.div_mod; lia).
  assert (Hr' : 0 <= r' < 2102400) by (subst r'; apply Z.mod_pos_bound; lia).
  assert (Hk' : 0 <= k' < 64) by lia.
  replace (BLOCK_ERA_5 + Z.of_nat (S n)) with (BLOCK_ERA_5 + Z.of_nat n + 1) by lia.
  rewrite emitted_S by (schedule; lia).
  rewrite (total_reward_halving _ k') by (try change BLOCK_ERA_6_ONWARDS with 2102400; lia).
  destruct (decide (r' = 2102399)) as [Hlast|Hlast].
  - assert (k = k' + 1 /\ r = 0) as [-> ->] by (subst k r; Z.div_mod_to_equations; lia).
    rewrite Z.pow_add_r, <- Z.div_div by (try apply Z.pow_pos_nonneg; lia).
    change (2 ^ 1) with 2. set (v := 15625000 / 2 ^ k') in *.
    assert (2 * (v / 2) <= v) by (Z.div_mod_to_equations; lia). lia.
  - assert (k = k' /\ r = r' + 1) as [-> ->] by (subst k r; Z.div_mod_to_equations; lia). lia.
Qed.

Lemma emitted_cap h : 0 <= h < last_height -> emitted h <= 20999880 * EPIC_BASE.
Proof.
  intros Hh.
  assert (Hmono : forall a d, 0 <= a -> 0 <= d -> emitted a <= emitted (a + d)).
  { intros a d Ha Hd. unfold emitted. rewrite Z2Nat.inj_add, sum_range_app by lia.
    pose proof (sum_range_nonneg block_total_reward_at_height (1 + Z.of_nat (Z.to_nat a)) (Z.to_nat d)
      (fun i => proj1 (total_reward_bounds i))). lia. }
  destruct (Z.le_gt_cases h BLOCK_ERA_5) as [Hle|Hgt].
  - specialize (Hmono h (BLOCK_ERA_5 - h) ltac:(lia) ltac:(lia)).
    replace (h + (BLOCK_ERA_5 - h)) with BLOCK_ERA_5 in Hmono by lia.
    rewrite emitted_five_eras in Hmono. unfold EPIC_BASE in *. lia.
  - pose proof (emitted_halvings (Z.to_nat (h - BLOCK_ERA_5))) as H. cbv zeta in H.
    rewrite Z2Nat.id, emitted_five_eras in H by lia.
    specialize (H ltac:(unfold last_height in Hh; lia)).
    replace (BLOCK_ERA_5 + (h - BLOCK_ERA_5)) with h in H by lia.
    set (k := (h - BLOCK_ERA_5) / BLOCK_ERA_6_ONWARDS) in H. set (r := _ mod _) in H.
    assert (0 <= r < BLOCK_ERA_6_ONWARDS) by (subst r; apply Z.mod_pos_bound; schedule; lia).
    assert (0 <= 15625000 / 2 ^ k) by (apply Z.div_pos; [lia|apply Z.pow_pos_nonneg; [lia|]];
      subst k; apply Z.div_pos; schedule; lia).
    change BLOCK_ERA_6_ONWARDS with 2102400 in *. unfold EPIC_BASE in *. nia.
Qed.



(** The levy computed in floating point is the exact decimal share of the
    block reward in every era (nothing is lost to rounding), the mining reward is
    the rest and neither subtraction wraps. *)
Theorem levy_exact h :
  0 <= h < 2 ^ 50 ->
  reward_foundation_at_height h = Ok (levy h)
  /\ 10000 * levy h = levy_rate h * block_total_reward_at_height h
  /\ reward_at_height h = Ok (block_total_reward_at_height h - levy h)
  /\ 0 <= levy h <= block_total_reward_at_height h.
Proof.
  intros Hh. split; [by apply reward_foundation_levy|].
  split; [|split; [by apply reward_at_height_levy|apply levy_bounds]].
  unfold levy. destruct (decide (levy_rate h = 0)) as [->|Hr]; [done|].
  assert (Hd : (10000 | block_total_reward_at_height h)).
  { assert (Ht : block_total_reward_at_height h
       ∈ [16 * EPIC_BASE; 8 * EPIC_BASE; 4 * EPIC_BASE; 2 * EPIC_BASE; 1 * EPIC_BASE]).
    { apply total_reward_fixed. split; [lia|]. apply Z.nlt_ge. intros Hlt. apply Hr.
      unfold levy_rate. case_match; [done|].
      rewrite lookup_ge_None_2; [done|]. cbn [length]. schedule. Z.div_mod_to_equations. lia. }
    repeat (apply elem_of_cons in Ht as [->|Ht]; [apply Z.mod_divide; done|]).
    by apply not_elem_of_nil in Ht. }
  destruct Hd as [q ->]. rewrite Z.mul_assoc, Z.div_mul by lia. lia.
Qed.

Lemma levy_exact_witness : reward_at_height 1000000 = Ok 746720000.
Proof.
  destruct (levy_exact 1000000) as (_ & _ & H & _); [vm_decide|]. rewrite H. vm_compute. reflexivity.
Defined.

(** ** Foundation payments and the overage *)

Section Overage.
Context (c : ChainTypes).

#[local] Abbreviation F := (foundation_height c).

Lemma foundation_height_cases : F = 5 \/ F = 1440.
Proof. destruct c; vm_compute; auto. Qed.

Lemma levy_days_periods : LEVY_DAYS mod F = 0.
Proof. destruct c; reflexivity. Qed.

(** The levies withheld since the last foundation height. *)
Definition withheld (h : Z) : Z := sum_range levy (F * (h / F) + 1) (Z.to_nat (h mod F)).

Lemma is_foundation_height_spec h :
  0 <= h < 2 ^ 50 ->
  is_foundation_height c h = Ok (bool_decide (0 < h <= LEVY_DAYS /\ h mod F = 0)).
Proof.
  intros Hh. unfold is_foundation_height. rewrite reward_foundation_levy by done. cbn.
  pose proof (levy_bounds h). pose proof (levy_positive h) as Hp.
  destruct (Z.gtb_spec h 0); cbn; [|rewrite bool_decide_false by lia; done].
  specialize (Hp ltac:(lia)).
  destruct (Z.eqb_spec (h mod F) 0); [|rewrite bool_decide_false by lia; done].
  destruct (Z.eqb_spec (levy h) 0); cbn; f_equal; symmetry;
    [apply bool_decide_eq_false_2|apply bool_decide_eq_true_2]; lia.
Qed.

Lemma sum_levy_spec n a s :
  0 <= a -> a + Z.of_nat n <= 2 ^ 50 -> 0 <= s -> s + Z.of_nat n * (16 * EPIC_BASE) < 2 ^ 64 ->
  sum_levy n a s = Ok (s + sum_range levy a n).
Proof.
  revert a s. induction n as [|n IH]; intros a s Ha Hn Hs Hsum.
  { cbn. f_equal. lia. }
  cbn [sum_levy]. rewrite reward_foundation_levy by lia. cbn [bind].
  pose proof (levy_bounds a). pose proof (total_reward_bounds a).
  unfold EPIC_BASE in *. rewrite u64_add_small by (unfold is_u64; lia). rewrite IH by lia.
  change (S n) with (1 + n)%nat. rewrite sum_range_app. cbn [sum_range Nat.add].
  change (Z.of_nat 1) with 1. change (Z.of_nat 0) with 0. rewrite Z.add_0_r. f_equal. lia.
Qed.

Lemma add_reward_foundation_spec h :
  0 <= h < 2 ^ 50 ->
  add_reward_foundation c h =
    Ok (if bool_decide (0 < h <= LEVY_DAYS /\ h mod F = 0)
        then sum_range levy (h - F + 1) (Z.to_nat F) else 0).
Proof.
  intros Hh. unfold add_reward_foundation, cumulative_reward_foundation.
  rewrite is_foundation_height_spec by done. cbn [bind].
  case_bool_decide as Hf; [|done]. cbn [negb].
  pose proof foundation_height_cases.
  assert (F <= h) by (apply Z.divide_pos_le; [lia|]; apply Z.mod_divide; lia).
  rewrite (u64_sub_small h) by (unfold is_u64; lia). unwrap64.
  replace (h - (h - F + 1) + 1) with F by lia.
  rewrite sum_levy_spec; [f_equal; lia|lia| |lia|]; unfold EPIC_BASE; lia.
Qed.

(** One more block: the levy joins what is withheld, until a foundation height
    pays it out. *)
Lemma withheld_S h :
  0 <= h < last_height - 1 ->
  withheld (h + 1) =
    withheld h + levy (h + 1)
    - (if bool_decide (0 < h + 1 <= LEVY_DAYS /\ (h + 1) mod F = 0)
       then sum_range levy (h + 1 - F + 1) (Z.to_nat F) else 0).
Proof.
  intros Hh. pose proof foundation_height_cases as HF. unfold withheld.
  assert (Hlast : last_height < 2 ^ 50) by (schedule; lia).
  destruct (decide ((h + 1) mod F = 0)) as [Hm|Hm].
  - assert (Hmod : h mod F = F - 1) by (destruct HF as [HF|HF]; rewrite HF in *; Z.div_mod_to_equations; lia).
    assert (Hlo : F * (h / F) + 1 = h + 1 - F + 1) by (rewrite (Z.div_mod h F) at 2; lia).
    assert (Hall : sum_range levy (F * (h / F) + 1) (Z.to_nat (h mod F)) + levy (h + 1)
      = sum_range levy (h + 1 - F + 1) (Z.to_nat F)).
    { rewrite Hlo, Hmod. replace (Z.to_nat F) with (S (Z.to_nat (F - 1))) by lia.
      rewrite sum_range_S. do 2 f_equal. lia. }
    rewrite Hall, Hm. change (Z.to_nat 0) with 0%nat. cbn [sum_range].
    case_bool_decide as Hf; [lia|].
    assert (LEVY_DAYS < h + 1 - F + 1).
    { pose proof levy_days_periods as Hd. assert (LEVY_DAYS < h + 1) by lia.
      destruct HF as [HF|HF]; rewrite HF in *; Z.div_mod_to_equations; lia. }
    rewrite (sum_range_const _ _ _ 0); [lia|]. intros i Hi.
    pose proof (levy_positive i ltac:(schedule; lia)). pose proof (levy_bounds i). lia.
  - rewrite bool_decide_false by tauto.
    assert (Hmod : (h + 1) mod F = h mod F + 1 /\ (h + 1) / F = h / F)
      by (destruct HF as [HF|HF]; rewrite HF in *; Z.div_mod_to_equations; lia).
    destruct Hmod as [-> ->]. rewrite Z2Nat.inj_add, Nat.add_1_r, sum_range_S
      by (try apply Z.mod_pos_bound; lia).
    rewrite Z2Nat.id by (apply Z.mod_pos_bound; lia).
    replace (F * (h / F) + 1 + h mod F) with (h + 1) by (rewrite (Z.div_mod h F) at 1; lia). lia.
Qed.

Lemma sum_levy_le a n : sum_range levy a n <= Z.of_nat n * (16 * EPIC_BASE).
Proof.
  induction n as [|n IH]; [done|]. rewrite sum_range_S.
  pose proof (levy_bounds (a + Z.of_nat n)). pose proof (total_reward_bounds (a + Z.of_nat n)).
  unfold EPIC_BASE in *. lia.
Qed.

Lemma withheld_bounds h : 0 <= h -> 0 <= withheld h <= 1440 * (16 * EPIC_BASE).
Proof.
  intros Hh. unfold withheld. split.
  - apply sum_range_nonneg. intros i. apply levy_bounds.
  - pose proof foundation_height_cases. pose proof (Z.mod_pos_bound h F ltac:(lia)).
    etransitivity; [apply sum_levy_le|]. unfold EPIC_BASE. lia.
Qed.

Lemma overage_loop_spec n h g :
  0 <= h -> h + Z.of_nat n < last_height -> 0 <= g <= 16 * EPIC_BASE ->
  overage_loop c n (h + 1) (g + emitted h - withheld h)
    = Ok (g + emitted (h + Z.of_nat n) - withheld (h + Z.of_nat n)).
Proof.
  revert h. induction n as [|n IH]; intros h Hh Hn Hg.
  { cbn [overage_loop]. by rewrite Z.add_0_r. }
  assert (Hlast : last_height < 2 ^ 50) by (schedule; lia).
  cbn [overage_loop]. rewrite reward_at_height_levy by lia. cbn [bind].
  rewrite add_reward_foundation_spec by lia. cbn [bind].
  pose proof (withheld_S h ltac:(lia)) as Hw. set (f := if bool_decide _ then _ else _) in *.
  pose proof (emitted_S h Hh) as He.
  pose proof (emitted_cap h ltac:(lia)). pose proof (emitted_cap (h + 1) ltac:(lia)).
  pose proof (withheld_bounds h ltac:(lia)). pose proof (withheld_bounds (h + 1) ltac:(lia)).
  pose proof (total_reward_bounds (h + 1)). pose proof (levy_bounds (h + 1)).
  assert (0 <= emitted h) by (apply sum_range_nonneg; intros; apply total_reward_bounds).
  unfold EPIC_BASE in *.
  rewrite (wrap_i64_small (_ - _)), (wrap_i64_small f), (wrap_i64_small (_ - _ + f)), wrap_i64_small
    by (unfold is_i64; lia).
  replace (_ + _ - _ + _) with (g + emitted (h + 1) - withheld (h + 1)) by lia.
  rewrite IH by lia. by replace (h + 1 + Z.of_nat n) with (h + Z.of_nat (S n)) by lia.
Qed.

(** C34. Up to the end of the 64th halving of the sixth era, the total overage of a chain is the
    whole reward of its blocks, less the levies withheld since the last foundation height: each
    levy is paid out exactly once, in full, and no [i64] addition wraps. *)
Theorem total_overage_exact h (genesis_had_reward : bool) :
  0 <= h < last_height ->
  total_overage_at_height c h genesis_had_reward
    = Ok ((if genesis_had_reward then 16 * EPIC_BASE else 0) + emitted h - withheld h).
Proof.
  intros Hh. unfold total_overage_at_height.
  assert (Hg : reward_at_height 0 = Ok (16 * EPIC_BASE)) by reflexivity.
  set (g := if genesis_had_reward then 16 * EPIC_BASE else 0).
  replace (if genesis_had_reward then _ else _) with (@Ok () _ g);
    [|destruct genesis_had_reward; [rewrite Hg|]; reflexivity].
  cbn [bind]. pose proof (overage_loop_spec (Z.to_nat h) 0 g) as H.
  rewrite !Z.add_0_l, Z2Nat.id in H by lia.
  assert (H0 : withheld 0 = 0) by (destruct c; reflexivity).
  rewrite H0 in H. change (emitted 0) with 0 in H. rewrite Z.add_0_r, Z.sub_0_r in H.
  apply H; subst g; unfold EPIC_BASE; destruct genesis_had_reward; lia.
Qed.

End Overage.

Lemma total_overage_exact_witness :
  total_overage_at_height AutomatedTesting 12 true = Ok (13 * (16 * EPIC_BASE) - 2 * 142080000).
Proof. rewrite (total_overage_exact AutomatedTesting 12 true) by vm_decide. vm_compute. reflexivity. Defined.
