(* ===== verification/Pow.v ===== *)
(** * Proof of work: algorithms, difficulty, proofs

    [core/src/pow/types.rs]: [PoWType], [Difficulty] (a difficulty per
    algorithm), the four kinds of [Proof] with their packed encoding, and
    [ProofOfWork]; [graph_weight] of [core/src/consensus.rs] and
    [initial_graph_weight] of [core/src/global.rs]. *)
From S2P Require Import Prelude Ser Global.

(** ** Algorithms *)
Inductive PoWType : Type := Cuckaroo | Cuckatoo | RandomX | ProgPow.

#[export] Instance PoWType_eq_dec : EqDecision PoWType.
Proof. solve_decision. Defined.

Definition PoWType_to_u8 (t : PoWType) : Z :=
  match t with
  | Cuckaroo => 0
  | Cuckatoo => 1
  | RandomX => 2
  | ProgPow => 3
  end.

Definition PoWType_try_from (v : Z) : outcome ser_error PoWType :=
  match v with
  | 0 => Ok Cuckaroo
  | 1 => Ok Cuckatoo
  | 2 => Ok RandomX
  | 3 => Ok ProgPow
  | _ => Err CorruptedData
  end.

#[export] Instance PoWType_countable : Countable PoWType.
Proof.
  refine (inj_countable' (fun t => match t with Cuckaroo => 0 | Cuckatoo => 1 | RandomX => 2 | ProgPow => 3 end)%N
    (fun n => match n with 0 => Cuckaroo | 1 => Cuckatoo | 2 => RandomX | _ => ProgPow end)%N _).
  by intros [].
Defined.

(** ** Difficulty *)
Abbreviation DifficultyNumber := (gmap PoWType Z).

Definition number (v : Z) : DifficultyNumber :=
  <[ProgPow := v]> (<[RandomX := v]> (<[Cuckatoo := v]> (<[Cuckaroo := v]> ∅))).

Record Difficulty := mkDifficulty { num : DifficultyNumber }.
#[export] Instance Difficulty_eq_dec : EqDecision Difficulty.
Proof. solve_decision. Defined.

(** Weight of a graph of [edge_bits]: [u8] and [u64] arithmetic as written. *)
Definition graph_weight (c : ChainTypes) (height edge_bits : Z) : Z :=
  let min_bits := if min_edge_bits c =? 19 then 31 else min_edge_bits c in
  let bits_over_min := sat_sub edge_bits min_bits in
  let expiry_height :=
    if height >? 880000 then (1 <<! bits_over_min) *! (YEAR_HEIGHT *! 100)
    else (1 <<! bits_over_min) *! YEAR_HEIGHT in
  let xpr_edge_bits :=
    if height >=? expiry_height
    then sat_sub edge_bits (1 +! (height -! expiry_height) / WEEK_HEIGHT)
    else edge_bits in
  (2 <<! (if edge_bits >? base_edge_bits c then edge_bits - base_edge_bits c
          else base_edge_bits c - edge_bits)) *! xpr_edge_bits.

Definition initial_graph_weight (c : ChainTypes) : Z :=
  match c with
  | AutomatedTesting => 1
  | UserTesting => 1
  | Floonet => wrap32 (graph_weight c 0 SECOND_POW_EDGE_BITS)
  | Mainnet => wrap32 (graph_weight c 0 SECOND_POW_EDGE_BITS)
  end.

Definition MIN_DIFFICULTY : Z := 3.

Definition zero : Difficulty := mkDifficulty (number 0).
Definition min : Difficulty := mkDifficulty (number MIN_DIFFICULTY).
Definition unit_difficulty (c : ChainTypes) : Difficulty := mkDifficulty (number (initial_graph_weight c)).
Definition from_num (n : Z) : Difficulty := mkDifficulty (number (Z.max n 1)).
Definition from_dic_number (n : DifficultyNumber) : Difficulty := mkDifficulty n.

Definition to_num (d : Difficulty) (pow : PoWType) : Z := default 0 (num d !! pow).

(** The [u128] sum over the entries; four [u64] cannot overflow it. *)
Definition num_sum (d : Difficulty) : Z := map_fold (fun _ v acc => acc + v) 0 (num d).
Definition difficulty_cmp (a b : Difficulty) : comparison := Z.compare (num_sum a) (num_sum b).

(** The arithmetic loops over the entries of [self] into a map of zeros. *)
Definition zip_num (f : PoWType -> Z -> Z) (d : Difficulty) : Difficulty :=
  mkDifficulty (map_fold (fun algo v acc => <[algo := f algo v]> acc) (number 0) (num d)).

Definition difficulty_add (self other : Difficulty) : Difficulty :=
  zip_num (fun algo v => v +! default 0 (num other !! algo)) self.
Definition difficulty_sub (self other : Difficulty) : Difficulty :=
  zip_num (fun algo v => v -! default 0 (num other !! algo)) self.
Definition difficulty_mul (self other : Difficulty) : Difficulty :=
  zip_num (fun algo v => v *! default 1 (num other !! algo)) self.

(** [diff_vec.sort()]: by algorithm, then by number. *)
Definition entry_le (a b : PoWType * Z) : Prop :=
  PoWType_to_u8 a.1 < PoWType_to_u8 b.1
  \/ (PoWType_to_u8 a.1 = PoWType_to_u8 b.1 /\ a.2 <= b.2).
#[export] Instance entry_le_dec : RelDecision entry_le.
Proof. intros a b. unfold entry_le. apply _. Defined.

Definition diff_vec (d : Difficulty) : list (PoWType * Z) := merge_sort entry_le (map_to_list (num d)).

Definition write_entry (e : PoWType * Z) : list Z := write_u8 (PoWType_to_u8 e.1) ++ write_u64 e.2.
Definition write_difficulty (d : Difficulty) : list Z :=
  write_u64 (Z.of_nat (size (num d))) ++ concat (map write_entry (diff_vec d)).

(** An [outcome] inside a reader. *)
Definition lift {A} (m : outcome ser_error A) : read A := fun r => let? a := m in Ok (a, r).

Fixpoint read_entries (len : nat) (result : DifficultyNumber) : read DifficultyNumber :=
  match len with
  | O => ret result
  | S len =>
      pow <- read_u8 ;; count <- read_u64 ;; pow_type <- lift (PoWType_try_from pow) ;;
      read_entries len (<[pow_type := count]> result)
  end.

Definition read_difficulty : read Difficulty :=
  len <- read_u64 ;; result <- read_entries (Z.to_nat len) ∅ ;; ret (mkDifficulty result).

(** ** Packed bits *)
Record BitVec := mkBitVec { bits : list Z }.

Definition bytes_len (bits_len : nat) : nat := ((bits_len + 7) / 8)%nat.
Definition bitvec_new (bits_len : nat) : BitVec := mkBitVec (replicate (bytes_len bits_len) 0).

Definition set_bit_at (v : BitVec) (pos : nat) : outcome ser_error BitVec :=
  let? b := unwrap (bits v !! (pos / 8)%nat) in
  Ok (mkBitVec (<[(pos / 8)%nat := Z.lor b (Z.shiftl 1 (Z.of_nat (pos mod 8)))]> (bits v))).

Definition bit_at (v : BitVec) (pos : nat) : outcome ser_error bool :=
  let? b := unwrap (bits v !! (pos / 8)%nat) in
  Ok (negb (Z.land b (Z.shiftl 1 (Z.of_nat (pos mod 8))) =? 0)).

(** ** Proofs *)
Inductive Proof : Type :=
| CuckooProof (edge_bits : Z) (nonces : list Z)
| MD5Proof (proof : list Z) (edge_bits : Z)
| RandomXProof (hash : Hash)
| ProgPowProof (mix : Hash).

#[export] Instance Proof_eq_dec : EqDecision Proof.
Proof. solve_decision. Defined.

Definition PoWType_from (p : Proof) : PoWType :=
  match p with
  | CuckooProof edge_bits _ =>
      if (edge_bits =? 19) || (edge_bits =? 31) then Cuckatoo else Cuckaroo
  | RandomXProof _ => RandomX
  | ProgPowProof _ => ProgPow
  | MD5Proof _ _ => RandomX
  end.

Definition proof_zero (c : ChainTypes) (proof_size : nat) : Proof :=
  CuckooProof (min_edge_bits c) (replicate proof_size 0).

Definition proof_size (p : Proof) : Z :=
  match p with
  | CuckooProof _ nonces => Z.of_nat (length nonces)
  | _ => 16
  end.

(** [str::from_utf8]: the well-formed byte sequences of UTF-8. *)
Definition between (lo hi b : Z) : bool := (lo <=? b) && (b <=? hi).
Definition tail_byte : Z -> bool := between 128 191.
Fixpoint from_utf8 (l : list Z) : bool :=
  match l with
  | [] => true
  | a :: l1 =>
      if between 0 127 a then from_utf8 l1
      else match l1 with
      | [] => false
      | b :: l2 =>
          if between 194 223 a then tail_byte b && from_utf8 l2
          else match l2 with
          | [] => false
          | d :: l3 =>
              if between 224 239 a then
                (if a =? 224 then between 160 191 b
                 else if a =? 237 then between 128 159 b else tail_byte b)
                && tail_byte d && from_utf8 l3
              else match l3 with
              | [] => false
              | e :: l4 =>
                  between 240 244 a
                  && (if a =? 240 then between 144 191 b
                      else if a =? 244 then between 128 143 b else tail_byte b)
                  && tail_byte d && tail_byte e && from_utf8 l4
              end
          end
      end
  end.

(** The two loops that set, and read back, the bits of the nonces. *)
Definition write_nonce (nonce_bits : nat) (v : BitVec) (e : nat * Z) : outcome ser_error BitVec :=
  let '(n, nonce) := e in
  foldM (fun v bit => if Z.land nonce (1 <<! Z.of_nat bit) =? 0 then Ok v
                      else set_bit_at v (n * nonce_bits + bit))
    (seq 0 nonce_bits) v.

Definition write_proof (c : ChainTypes) (mode : SerializationMode) (p : Proof) : outcome ser_error (list Z) :=
  match p with
  | CuckooProof edge_bits nonces =>
      let nonce_bits := Z.to_nat edge_bits in
      let? v := foldM (write_nonce nonce_bits) (imap pair nonces)
                  (bitvec_new (nonce_bits * Z.to_nat (proofsize c))) in
      Ok (write_u8 0
          ++ match mode with HashMode => [] | Full => write_u8 edge_bits end
          ++ bits v)
  | MD5Proof proof edge_bits => Ok (write_u8 1 ++ write_u8 edge_bits ++ write_bytes proof)
  | RandomXProof hash => Ok (write_u8 2 ++ write_array hash)
  | ProgPowProof mix => Ok (write_u8 3 ++ write_array mix)
  end.

Definition read_nonce (nonce_bits : nat) (v : BitVec) (n : nat) : outcome ser_error Z :=
  foldM (fun nonce bit =>
           let? b := bit_at v (n * nonce_bits + bit) in
           Ok (if b then Z.lor nonce (1 <<! Z.of_nat bit) else nonce))
    (seq 0 nonce_bits) 0.

Definition read_nonces (nonce_bits count : nat) (v : BitVec) : outcome ser_error (list Z) :=
  foldM (fun nonces n => let? nonce := read_nonce nonce_bits v n in Ok (nonces ++ [nonce]))
    (seq 0 count) [].

(** The unused bits of the last byte must be zero. *)
Definition check_padding (v : BitVec) (from count : nat) : outcome ser_error () :=
  foldM (fun _ n => let? b := bit_at v n in if b then Err CorruptedData else Ok tt)
    (seq from count) tt.

(** [unwrap] on what a reader returns. *)
Definition unwrap_read {A} (m : read A) : read A := fun r =>
  match m r with
  | Ok x => Ok x
  | _ => Panic
  end.

Definition read_proof (c : ChainTypes) : read Proof :=
  pow_type <- read_u8 ;;
  match pow_type with
  | 0 =>
      edge_bits <- read_u8 ;;
      if (edge_bits =? 0) || (edge_bits >? 64) then fail CorruptedData
      else
        let nonce_bits := Z.to_nat edge_bits in
        let count := Z.to_nat (proofsize c) in
        let bits_len := (nonce_bits * count)%nat in
        let len := bytes_len bits_len in
        bits <- read_fixed_bytes len ;;
        let v := mkBitVec bits in
        nonces <- lift (read_nonces nonce_bits count v) ;;
        _ <- lift (check_padding v bits_len (len * 8 - bits_len)) ;;
        ret (CuckooProof edge_bits nonces)
  | 1 =>
      edge_bits <- read_u8 ;;
      proof <- read_bytes_len_prefix ;;
      if from_utf8 proof then ret (MD5Proof proof edge_bits) else lift Panic
  | 2 => hash <- unwrap_read (read_fixed_bytes 32) ;; ret (RandomXProof (from_vec hash))
  | 3 => mix <- unwrap_read (read_fixed_bytes 32) ;; ret (ProgPowProof (from_vec mix))
  | _ => lift Panic
  end.

(** ** Proof of work *)
Record ProofOfWork := mkProofOfWork {
  total_difficulty : Difficulty;
  secondary_scaling : Z;
  nonce : Z;
  proof : Proof;
  seed : Hash;
}.
#[export] Instance ProofOfWork_eq_dec : EqDecision ProofOfWork.
Proof. solve_decision. Defined.

Definition write_pre_pow (p : ProofOfWork) : list Z :=
  write_difficulty (total_difficulty p) ++ write_u32 (secondary_scaling p).

(** The inherent [write], the one method resolution picks. *)
Definition write_pow (c : ChainTypes) (mode : SerializationMode) (p : ProofOfWork) : outcome ser_error (list Z) :=
  let? pr := write_proof c mode (proof p) in
  Ok (match mode with HashMode => [] | Full => write_pre_pow p ++ write_u64 (nonce p) end
      ++ pr ++ write_array (seed p)).

(** The [Writeable] instance, which leaves the seed out. *)
Definition write_pow_trait (c : ChainTypes) (mode : SerializationMode) (p : ProofOfWork) : outcome ser_error (list Z) :=
  let? pr := write_proof c mode (proof p) in
  Ok (match mode with HashMode => [] | Full => write_pre_pow p ++ write_u64 (nonce p) end ++ pr).

Definition read_pow (c : ChainTypes) : read ProofOfWork :=
  total_difficulty <- read_difficulty ;;
  secondary_scaling <- read_u32 ;;
  nonce <- read_u64 ;;
  proof <- read_proof c ;;
  seed_bytes <- read_fixed_bytes 32 ;;
  ret (mkProofOfWork total_difficulty secondary_scaling nonce proof (from_vec seed_bytes)).

(** [U256::max_value() / d], then its low 64 bits; a zero hash divides by zero.
    The conversion of the hash is the [bigint] crate's. *)
Definition from_proof_hash (u256_from : Hash -> Z) (hash : Hash) : outcome ser_error Difficulty :=
  let d := u256_from hash in
  if d =? 0 then Panic else Ok (mkDifficulty (number (((2 ^ 256 - 1) / d) mod 2 ^ 64))).

Section Achieved.
Context `{Hasher} (c : ChainTypes).

(** The ProgPoW value of a header, from the [progpow] crate, and the reading of
    a hash as a [U256], from the [bigint] crate. *)
Context (get_progpow_value : list Z -> Z -> Z -> Hash) (u256_from : Hash -> Z).

Definition scaled_difficulty (p : Proof) (scale : Z) : outcome ser_error Z :=
  let? content := write_proof c HashMode p in
  Ok (Z.min (Z.shiftl scale 64 / Z.max 1 (to_u64 (blake2b content))) u64_max).

Definition from_proof_adjusted (height : Z) (p : Proof) : outcome ser_error Difficulty :=
  let edge_bits := match p with
                   | CuckooProof edge_bits _ => edge_bits
                   | MD5Proof _ edge_bits => edge_bits
                   | _ => 31
                   end in
  let? d := scaled_difficulty p (graph_weight c height edge_bits) in Ok (from_num d).

Definition from_proof_scaled (p : Proof) (scaling : Z) : outcome ser_error Difficulty :=
  let? d := scaled_difficulty p scaling in Ok (from_num d).

Definition to_difficulty (self : ProofOfWork) (header : list Z) (height nonce : Z)
    : outcome ser_error Difficulty :=
  match proof self with
  | CuckooProof edge_bits _ | MD5Proof _ edge_bits =>
      if edge_bits =? SECOND_POW_EDGE_BITS
      then from_proof_scaled (proof self) (secondary_scaling self)
      else from_proof_adjusted height (proof self)
  | RandomXProof hash => from_proof_hash u256_from hash
  | ProgPowProof _ => from_proof_hash u256_from (get_progpow_value header height nonce)
  end.

End Achieved.

Definition edge_bits (p : ProofOfWork) : Z :=
  match proof p with
  | CuckooProof edge_bits _ | MD5Proof _ edge_bits => edge_bits
  | _ => 16
  end.

Definition is_primary (c : ChainTypes) (p : ProofOfWork) : bool :=
  match proof p with
  | CuckooProof edge_bits _ | MD5Proof _ edge_bits =>
      negb (edge_bits =? SECOND_POW_EDGE_BITS) && (edge_bits >=? min_edge_bits c)
  | _ => true
  end.

Definition is_secondary (p : ProofOfWork) : bool :=
  match proof p with
  | CuckooProof edge_bits _ | MD5Proof _ edge_bits => edge_bits =? SECOND_POW_EDGE_BITS
  | _ => false
  end.

(** ** Difficulty: encoding and arithmetic *)

Definition difficulty_ok (d : Difficulty) : Prop := map_Forall (fun _ v => is_u64 v) (num d).

Lemma reads_lift {A} (m : outcome ser_error A) a : m = Ok a -> reads (lift m) [] a.
Proof. intros -> k rest total Ht. unfold lift. cbn [bind]. by rewrite counted_nil. Qed.

Lemma PoWType_try_from_to_u8 t : PoWType_try_from (PoWType_to_u8 t) = Ok t.
Proof. by destruct t. Qed.

Lemma PoWType_to_u8_range t : 0 <= PoWType_to_u8 t < 4.
Proof. destruct t; simpl; lia. Qed.

Lemma reads_entries l m :
  Forall (fun e => is_u64 e.2) l ->
  reads (read_entries (length l) m) (concat (map write_entry l))
    (foldl (fun m e => <[e.1 := e.2]> m) m l).
Proof.
  intros Hl. revert m. induction Hl as [|[t v] l Hv _ IH]; intros m; [apply reads_ret|].
  cbn [length read_entries map concat foldl fst snd]. unfold write_entry at 1. cbn [fst snd] in *.
  rewrite <- !app_assoc. pose proof (PoWType_to_u8_range t).
  eapply reads_bind; [apply reads_uint; change (2 ^ (8 * Z.of_nat 1)) with 256; lia|].
  eapply reads_bind; [by apply (reads_uint 8)|]. cbv beta.
  rewrite <- (app_nil_l (concat _)).
  eapply reads_bind; [apply reads_lift, PoWType_try_from_to_u8|]. apply IH.
Qed.

Lemma foldl_insert_list_to_map (l : list (PoWType * Z)) :
  foldl (fun m e => <[e.1 := e.2]> m) (∅ : DifficultyNumber) l = list_to_map (reverse l).
Proof.
  induction l as [|e l IH] using rev_ind; [done|].
  rewrite foldl_app, reverse_app, IH. destruct e. done.
Qed.

Lemma diff_vec_perm d : diff_vec d ≡ₚ map_to_list (num d).
Proof. apply merge_sort_Permutation. Qed.

Lemma diff_vec_to_map d : list_to_map (reverse (diff_vec d)) = num d.
Proof.
  transitivity (list_to_map (map_to_list (num d)) : DifficultyNumber);
    [|apply list_to_map_to_list]. apply list_to_map_proper.
  - rewrite (reverse_Permutation (diff_vec d)), diff_vec_perm. apply NoDup_fst_map_to_list.
  - by rewrite (reverse_Permutation (diff_vec d)), diff_vec_perm.
Qed.

Lemma difficulty_entries d : (size (num d) <= 4)%nat.
Proof.
  pose proof (size_dom (D := gset PoWType) (num d)) as Hs.
  pose proof (subseteq_size (dom (num d)) ({[Cuckaroo; Cuckatoo; RandomX; ProgPow]} : gset PoWType)) as Hsub.
  change (size {[Cuckaroo; Cuckatoo; RandomX; ProgPow]}) with 4%nat in Hsub.
  rewrite <- Hs. apply Hsub. intros [] _; set_solver.
Qed.

Lemma reads_difficulty d :
  difficulty_ok d -> reads read_difficulty (write_difficulty d) d.
Proof.
  intros Hd. unfold read_difficulty, write_difficulty.
  assert (Hlen : length (diff_vec d) = size (num d)).
  { rewrite (Permutation_length (diff_vec_perm d)). apply length_map_to_list. }
  eapply reads_bind; [apply (reads_uint 8)|].
  { rewrite <- Hlen. assert (Hle : (length (diff_vec d) <= 4)%nat).
    { rewrite Hlen. apply difficulty_entries. }
    change (2 ^ (8 * Z.of_nat 8)) with (2 ^ 64). lia. }
  rewrite Nat2Z.id, <- Hlen. destruct d as [m]. cbn [num] in *.
  replace (mkDifficulty m) with (mkDifficulty (foldl (fun m e => <[e.1 := e.2]> m) ∅ (diff_vec (mkDifficulty m)))) at 3.
  - apply reads_map, reads_entries. apply Forall_forall. intros [t v] Hin.
    rewrite diff_vec_perm, elem_of_map_to_list in Hin. by apply (Hd t).
  - f_equal. rewrite foldl_insert_list_to_map. apply (diff_vec_to_map (mkDifficulty m)).
Qed.

Lemma number_lookup v t : number v !! t = Some v.
Proof. by destruct t. Qed.

Lemma zip_num_lookup f d t :
  num (zip_num f d) !! t = Some (default 0 (f t <$> num d !! t)).
Proof.
  unfold zip_num. cbn [num]. generalize (num d). intros m. revert t.
  apply (map_fold_weak_ind (fun r m => forall t, r !! t = Some (default 0 (f t <$> m !! t)))).
  - intros t. by rewrite number_lookup, lookup_empty.
  - intros k v m' r Hk IH t. destruct (decide (k = t)) as [->|Hne].
    + by rewrite !lookup_insert_eq.
    + rewrite !lookup_insert_ne by done. apply IH.
Qed.

Lemma num_sum_four d :
  num_sum d = to_num d Cuckaroo + to_num d Cuckatoo + to_num d RandomX + to_num d ProgPow.
Proof.
  unfold num_sum, to_num. generalize (num d). intros m.
  apply (map_fold_weak_ind (fun r m => r = default 0 (m !! Cuckaroo) + default 0 (m !! Cuckatoo)
    + default 0 (m !! RandomX) + default 0 (m !! ProgPow))); [done|].
  intros k v m' r Hk ->.
  assert (He : forall t, default 0 (<[k := v]> m' !! t) = default 0 (m' !! t) + (if decide (k = t) then v else 0)).
  { intros t. destruct (decide (k = t)) as [<-|Hne].
    - rewrite lookup_insert_eq, Hk. done.
    - rewrite lookup_insert_ne by done. lia. }
  rewrite !He. destruct k; simpl; lia.
Qed.

(** A difficulty that has all four algorithms, as every difficulty built by a
    constructor, read from a full header or returned by the arithmetic has. *)
Definition complete (d : Difficulty) : Prop := forall t, is_Some (num d !! t).

Lemma zip_num_complete f d : complete (zip_num f d).
Proof. intros t. rewrite zip_num_lookup. eauto. Qed.

Lemma zip_num_to_num f d t : complete d -> to_num (zip_num f d) t = f t (to_num d t).
Proof. intros Hd. unfold to_num. rewrite zip_num_lookup. by destruct (Hd t) as [v ->]. Qed.

Lemma difficulty_eq a b : complete a -> complete b -> (forall t, to_num a t = to_num b t) -> a = b.
Proof.
  intros Ha Hb He. destruct a as [ma], b as [mb]. f_equal. apply map_eq. intros t.
  destruct (Ha t) as [v Hv], (Hb t) as [w Hw]. specialize (He t). unfold to_num in He.
  cbn [num] in *. rewrite Hv, Hw in *. simpl in He. by subst.
Qed.

Lemma to_num_u64 d t : difficulty_ok d -> is_u64 (to_num d t).
Proof.
  intros Hd. unfold to_num. destruct (num d !! t) as [v|] eqn:Hv; [by apply (Hd t)|].
  simpl. unfold is_u64. lia.
Qed.

(** A difficulty survives the wire: either reader decodes what
    [Difficulty::write] produced, with nothing left over. *)
Theorem difficulty_roundtrip d rest :
  difficulty_ok d ->
  reads read_difficulty (write_difficulty d) d
  /\ deserialize read_difficulty (write_difficulty d ++ rest) = Ok d.
Proof. intros Hd. split; [|apply reads_deserialize]; by apply reads_difficulty. Qed.

Lemma difficulty_roundtrip_witness :
  deserialize read_difficulty (write_difficulty (from_num 77) ++ [1; 2]) = Ok (from_num 77).
Proof. apply (difficulty_roundtrip (from_num 77) [1; 2]). vm_decide. Defined.

(** Accumulating work: on a complete total the sum is exact per algorithm
    when no counter overflows, so a block with any work makes the chain strictly
    heavier, and subtracting the parent's total gives the block's work back. *)
Theorem difficulty_accumulates a b :
  complete a -> difficulty_ok a -> complete b -> difficulty_ok b ->
  (forall t, to_num a t + to_num b t < 2 ^ 64) ->
  let s := difficulty_add a b in
  complete s
  /\ (forall t, to_num s t = to_num a t + to_num b t)
  /\ num_sum s = num_sum a + num_sum b
  /\ (0 < num_sum b -> difficulty_cmp a s = Lt)
  /\ difficulty_sub s a = b.
Proof.
  intros Ca Ua Cb Ub Hno s.
  assert (Hs : forall t, to_num s t = to_num a t + to_num b t).
  { intros t. subst s. unfold difficulty_add. rewrite zip_num_to_num by done.
    apply u64_add_small. pose proof (to_num_u64 a t Ua). pose proof (to_num_u64 b t Ub).
    specialize (Hno t). unfold is_u64, to_num in *. lia. }
  assert (Hsum : num_sum s = num_sum a + num_sum b) by (rewrite !num_sum_four, !Hs; lia).
  assert (Cs : complete s) by apply zip_num_complete.
  repeat split; try done.
  - intros Hb. unfold difficulty_cmp. rewrite Hsum. apply Z.compare_lt_iff. lia.
  - apply difficulty_eq; [apply zip_num_complete|done|]. intros t.
    unfold difficulty_sub. rewrite zip_num_to_num, Hs by done.
    pose proof (to_num_u64 b t Ub). unfold is_u64, to_num in *.
    rewrite u64_sub_small; unfold is_u64; lia.
Qed.

Lemma difficulty_accumulates_witness :
  difficulty_sub (difficulty_add (from_num 5) (from_num 9)) (from_num 5) = from_num 9.
Proof.
  apply (difficulty_accumulates (from_num 5) (from_num 9)).
  - intros t. exists 5. by destruct t.
  - vm_decide.
  - intros t. exists 9. by destruct t.
  - vm_decide.
  - intros []; reflexivity.
Defined.

(** ** Packed bits *)

Lemma land_bit_zero x k : 0 <= k -> (Z.land x (Z.shiftl 1 k) =? 0) = negb (Z.testbit x k).
Proof.
  intros Hk. assert (Hb : forall i, 0 <= i -> Z.testbit (Z.land x (Z.shiftl 1 k)) i
    = Z.testbit x k && (i =? k)).
  { intros i Hi. rewrite Z.land_spec, Z.shiftl_1_l, Z.pow2_bits_eqb by done.
    rewrite (Z.eqb_sym k i). destruct (Z.eqb_spec i k) as [->|]; by rewrite ?andb_true_r, ?andb_false_r. }
  destruct (Z.testbit x k) eqn:Hx; simpl.
  - apply Z.eqb_neq. intros H0. specialize (Hb k Hk). rewrite H0, Z.testbit_0_l, Z.eqb_refl in Hb. done.
  - apply Z.eqb_eq, Z.bits_inj'. intros i Hi. rewrite Hb by done. by rewrite Z.testbit_0_l.
Qed.

Lemma u64_bit (n : nat) : (n < 64)%nat -> 1 <<! Z.of_nat n = Z.shiftl 1 (Z.of_nat n).
Proof.
  intros Hn. rewrite u64_shl_small, Z.shiftl_1_l by
    (unfold is_u64; rewrite ?Z.mul_1_l; try split; try lia; apply Z.pow_lt_mono_r; lia). lia.
Qed.

(** The bit at a position. *)
Definition bit (v : BitVec) (p : nat) : bool :=
  Z.testbit (default 0 (bits v !! (p / 8)%nat)) (Z.of_nat (p mod 8)).

Lemma bit_at_spec v p : (p < 8 * length (bits v))%nat -> bit_at v p = Ok (bit v p).
Proof.
  intros Hp. unfold bit_at, bit.
  destruct (bits v !! (p / 8)%nat) as [b|] eqn:Hb.
  - cbn [unwrap bind default]. by rewrite land_bit_zero, negb_involutive by lia.
  - apply lookup_ge_None in Hb. pose proof (Nat.Div0.div_lt_upper_bound p 8 (length (bits v))). lia.
Qed.

Definition set_bit (v : BitVec) (p : nat) : BitVec :=
  mkBitVec (<[(p / 8)%nat := Z.lor (default 0 (bits v !! (p / 8)%nat)) (Z.shiftl 1 (Z.of_nat (p mod 8)))]> (bits v)).

(** A vector of [n] bytes. *)
Definition sized (n : nat) (v : BitVec) : Prop := array_ok n (bits v).

Lemma set_bit_at_spec n v p :
  (p < 8 * n)%nat -> sized n v -> set_bit_at v p = Ok (set_bit v p) /\ sized n (set_bit v p).
Proof.
  intros Hp [Hn Hb]. unfold set_bit_at, set_bit.
  pose proof (Nat.Div0.div_lt_upper_bound p 8 n Hp).
  destruct (bits v !! (p / 8)%nat) as [b|] eqn:He.
  - split; [done|]. change (default 0 (Some b)) with b. split; [cbn [bits]; by rewrite length_insert|].
    apply Forall_insert; [done|]. rewrite Forall_lookup in Hb. specialize (Hb _ _ He).
    pose proof (Nat.mod_upper_bound p 8). unfold is_byte in *. rewrite Z.shiftl_1_l.
    split; [apply Z.lor_nonneg; split; [lia|apply Z.pow_nonneg; lia]|].
    change 256 with (2 ^ 8). apply Z.lt_nge. intros Hge.
    assert (Hpos : 0 < Z.lor b (2 ^ Z.of_nat (p mod 8))) by lia.
    apply Z.log2_le_pow2 in Hge; [|done].
    rewrite Z.log2_lor, Z.log2_pow2 in Hge by (try apply Z.pow_nonneg; lia).
    assert (b = 0 \/ Z.log2 b < 8) as [->|] by
      (destruct (Z.eq_dec b 0); [by left|right; apply Z.log2_lt_pow2; lia]); [cbn in Hge|]; lia.
  - apply lookup_ge_None in He. lia.
Qed.

Lemma bit_set_bit n v p q :
  (p < 8 * n)%nat -> sized n v -> bit (set_bit v p) q = bit v q || (p =? q)%nat.
Proof.
  intros Hp [Hn _]. unfold bit, set_bit. cbn [bits].
  destruct (Nat.eq_dec (p / 8) (q / 8)) as [He|He].
  - rewrite He, list_lookup_insert_eq by
      (rewrite Hn, <- He; apply Nat.Div0.div_lt_upper_bound; lia).
    cbn [from_option id]. rewrite Z.lor_spec, Z.shiftl_1_l, Z.pow2_bits_eqb by lia. f_equal.
    pose proof (Nat.div_mod_eq p 8). pose proof (Nat.div_mod_eq q 8).
    destruct (Z.eqb_spec (Z.of_nat (p mod 8)) (Z.of_nat (q mod 8))), (Nat.eqb_spec p q);
      try done; [lia|subst; lia].
  - rewrite list_lookup_insert_ne by done.
    destruct (Nat.eqb_spec p q) as [->|]; [done|by rewrite orb_false_r].
Qed.

(** Setting the positions of a list. *)
Definition set_bits (v : BitVec) (ps : list nat) : BitVec := foldl set_bit v ps.

Lemma set_bits_sized n v ps :
  Forall (fun p => p < 8 * n)%nat ps -> sized n v -> sized n (set_bits v ps).
Proof.
  intros Hps. revert v. induction Hps as [|p ps Hp _ IH]; intros v Hv; [done|].
  apply IH. by eapply set_bit_at_spec.
Qed.

Lemma bit_set_bits n v ps q :
  Forall (fun p => p < 8 * n)%nat ps -> sized n v ->
  bit (set_bits v ps) q = bit v q || bool_decide (q ∈ ps).
Proof.
  intros Hps. revert v. induction Hps as [|p ps Hp _ IH]; intros v Hv.
  - cbn. by rewrite orb_false_r.
  - cbn [set_bits foldl]. unfold set_bits in IH. rewrite IH by (by eapply set_bit_at_spec).
    rewrite (bit_set_bit n) by done. rewrite <- orb_assoc. f_equal.
    destruct (Nat.eqb_spec p q) as [->|Hne]; simpl.
    + symmetry. apply bool_decide_eq_true_2. left.
    + apply bool_decide_ext. rewrite elem_of_cons. split; [by right|intros [->|]; done].
Qed.

(** The positions one nonce sets, and all of them. *)
Definition nonce_positions (nb : nat) (e : nat * Z) : list nat :=
  (fun b => e.1 * nb + b)%nat <$> filter (fun b => Z.testbit e.2 (Z.of_nat b)) (seq 0 nb).

Lemma elem_of_nonce_positions nb e q :
  q ∈ nonce_positions nb e <->
  exists b, (b < nb)%nat /\ q = (e.1 * nb + b)%nat /\ Z.testbit e.2 (Z.of_nat b) = true.
Proof.
  unfold nonce_positions. rewrite list_elem_of_fmap. split.
  - intros (b & -> & Hb). apply list_elem_of_filter in Hb as [Ht Hb]. apply elem_of_seq in Hb.
    exists b. split_and!; [lia|done|by apply Is_true_true].
  - intros (b & Hb & -> & Ht). exists b. split; [done|]. apply list_elem_of_filter.
    split; [by apply Is_true_true|]. apply elem_of_seq. lia.
Qed.

Lemma write_nonce_spec n nb v e :
  (nb <= 64)%nat -> (e.1 * nb + nb <= 8 * n)%nat -> sized n v ->
  write_nonce nb v e = Ok (set_bits v (nonce_positions nb e)) /\ sized n (set_bits v (nonce_positions nb e)).
Proof.
  intros Hnb Hn Hv. destruct e as [i x]. cbn [fst] in Hn. unfold write_nonce, nonce_positions. cbn [fst snd].
  assert (Hgen : forall bs, Forall (fun b => b < nb)%nat bs ->
    forall v, sized n v ->
    foldM (fun v b => if Z.land x (1 <<! Z.of_nat b) =? 0 then Ok v else set_bit_at v (i * nb + b)) bs v
    = Ok (set_bits v ((fun b => i * nb + b)%nat <$> filter (fun b => Z.testbit x (Z.of_nat b)) bs))
    /\ sized n (set_bits v ((fun b => i * nb + b)%nat <$> filter (fun b => Z.testbit x (Z.of_nat b)) bs))).
  { induction 1 as [|b bs Hb _ IH]; intros w Hw; [done|]. cbn [foldM].
    rewrite u64_bit, land_bit_zero, filter_cons by lia.
    destruct (Z.testbit x (Z.of_nat b)) eqn:Ht; cbn [negb].
    - destruct (set_bit_at_spec n w (i * nb + b)) as [-> Hs]; [lia|done|]. cbn [bind].
      rewrite decide_True by done. by apply IH.
    - cbn [bind]. rewrite decide_False by auto. by apply IH. }
  apply Hgen; [|done]. apply Forall_forall. intros b Hb. apply elem_of_seq in Hb. lia.
Qed.

Definition all_positions (nb : nat) (l : list (nat * Z)) : list nat := concat (nonce_positions nb <$> l).

Lemma write_nonces_spec n nb l v :
  (nb <= 64)%nat -> Forall (fun e => e.1 * nb + nb <= 8 * n)%nat l -> sized n v ->
  foldM (write_nonce nb) l v = Ok (set_bits v (all_positions nb l))
  /\ sized n (set_bits v (all_positions nb l)).
Proof.
  intros Hnb Hl. revert v. induction Hl as [|e l He _ IH]; intros v Hv; [done|].
  cbn [foldM]. destruct (write_nonce_spec n nb v e) as [-> Hs]; [done..|]. cbn [bind].
  unfold all_positions, set_bits in *. cbn [fmap list_fmap concat]. rewrite foldl_app. by apply IH.
Qed.

Lemma elem_of_all_positions nb nonces i x b :
  (b < nb)%nat -> nonces !! i = Some x ->
  (i * nb + b)%nat ∈ all_positions nb (imap pair nonces) <-> Z.testbit x (Z.of_nat b) = true.
Proof.
  intros Hb Hi. unfold all_positions. rewrite list_elem_of_In, in_concat. split.
  - intros (ps & Hps & Hin). apply list_elem_of_In, list_elem_of_fmap in Hps as ([j y] & -> & Hj).
    apply list_elem_of_In, elem_of_nonce_positions in Hin as (b' & Hb' & He & Ht). cbn [fst snd] in *.
    apply list_elem_of_lookup in Hj as (k & Hk). rewrite list_lookup_imap in Hk.
    destruct (nonces !! k) as [z|] eqn:Hz; simpl in Hk; [|done]. injection Hk as -> ->.
    destruct (Nat.div_mod_unique nb i j b b') as [-> ->]; [lia..|]. congruence.
  - intros Ht. exists (nonce_positions nb (i, x)).
    split; apply list_elem_of_In; [|apply elem_of_nonce_positions; eauto].
    apply list_elem_of_fmap_2, list_elem_of_lookup. exists i. by rewrite list_lookup_imap, Hi.
Qed.

Lemma all_positions_bound nb nonces :
  Forall (fun p => p < nb * length nonces)%nat (all_positions nb (imap pair nonces)).
Proof.
  apply Forall_forall. intros p Hp. unfold all_positions in Hp.
  apply list_elem_of_In, in_concat in Hp as (ps & Hps & Hin).
  apply list_elem_of_In, list_elem_of_fmap in Hps as ([j y] & -> & Hj).
  apply list_elem_of_In, elem_of_nonce_positions in Hin as (b & Hb & -> & _).
  apply list_elem_of_lookup in Hj as (k & Hk). rewrite list_lookup_imap in Hk.
  destruct (nonces !! k) as [z|] eqn:Hz; simpl in Hk; [|done]. injection Hk as -> ->.
  apply lookup_lt_Some in Hz. cbn [fst]. nia.
Qed.

Lemma testbit_or_loop (f : nat -> bool) a n acc k :
  0 <= k ->
  Z.testbit (foldl (fun acc b => if f b then Z.lor acc (Z.shiftl 1 (Z.of_nat b)) else acc) acc (seq a n)) k
  = Z.testbit acc k || (bool_decide (Z.of_nat a <= k < Z.of_nat (a + n)) && f (Z.to_nat k)).
Proof.
  intros Hk. revert a acc. induction n as [|n IH]; intros a acc.
  { cbn [seq foldl]. rewrite bool_decide_false by lia. by rewrite orb_false_r. }
  cbn [seq foldl]. rewrite IH.
  destruct (decide (k = Z.of_nat a)) as [->|Hne].
  - rewrite (bool_decide_false (_ <= _ < Z.of_nat (S a + n))), bool_decide_true, Nat2Z.id by lia.
    destruct (f a); cbn [andb orb]; [|by rewrite !orb_false_r].
    rewrite Z.lor_spec, Z.shiftl_1_l, Z.pow2_bits_true by lia. by rewrite !orb_true_r.
  - rewrite (bool_decide_ext (Z.of_nat a <= k < _) (Z.of_nat (S a) <= k < Z.of_nat (S a + n))) by lia.
    f_equal. destruct (f a); [|done].
    by rewrite Z.lor_spec, Z.shiftl_1_l, Z.pow2_bits_false, orb_false_r by lia.
Qed.

Lemma read_nonce_spec nb v i x :
  (nb <= 64)%nat -> (i * nb + nb <= 8 * length (bits v))%nat -> 0 <= x < 2 ^ Z.of_nat nb ->
  (forall b, (b < nb)%nat -> bit v (i * nb + b) = Z.testbit x (Z.of_nat b)) ->
  read_nonce nb v i = Ok x.
Proof.
  intros Hnb Hn Hx Hbits. unfold read_nonce.
  destruct (foldM_foldl (fun _ : Z => True) (fun nonce b => let? t := bit_at v (i * nb + b) in
      Ok (if t then Z.lor nonce (1 <<! Z.of_nat b) else nonce))
    (fun acc b => if bit v (i * nb + b) then Z.lor acc (Z.shiftl 1 (Z.of_nat b)) else acc)
    (seq 0 nb) 0) as [-> _]; [|done|].
  { intros acc b _ Hb. apply elem_of_seq in Hb. split; [|done].
    rewrite bit_at_spec, u64_bit by lia. done. }
  f_equal. apply Z.bits_inj'. intros k Hk. rewrite testbit_or_loop by done.
  rewrite Z.testbit_0_l. cbn [orb].
  case_bool_decide as Hlt; simpl.
  - rewrite Hbits by lia. by rewrite Z2Nat.id.
  - symmetry. rewrite <- (Z.mod_small x (2 ^ Z.of_nat nb)) by done.
    apply Z.mod_pow2_bits_high. lia.
Qed.

(** ** Proofs on the wire *)

(** A proof the node can produce.  The MD5 proof is a disabled test algorithm;
    its length-prefixed string is read with the streaming reader's miscount. *)
Definition proof_ok (c : ChainTypes) (p : Proof) : Prop :=
  match p with
  | CuckooProof e nonces =>
      1 <= e <= 64 /\ Z.of_nat (length nonces) = proofsize c /\ Forall (fun x => 0 <= x < 2 ^ e) nonces
  | MD5Proof _ _ => False
  | RandomXProof _ | ProgPowProof _ => True
  end.

Lemma bytes_len_bound n : (n <= 8 * bytes_len n < n + 8)%nat.
Proof.
  unfold bytes_len. pose proof (Nat.div_mod_eq (n + 7) 8). pose proof (Nat.mod_upper_bound (n + 7) 8). lia.
Qed.

Lemma read_nonces_spec nb v nonces :
  (nb <= 64)%nat -> (nb * length nonces <= 8 * length (bits v))%nat ->
  Forall (fun x => 0 <= x < 2 ^ Z.of_nat nb) nonces ->
  (forall i x b, nonces !! i = Some x -> (b < nb)%nat -> bit v (i * nb + b) = Z.testbit x (Z.of_nat b)) ->
  read_nonces nb (length nonces) v = Ok nonces.
Proof.
  intros Hnb Hn Hx Hb. unfold read_nonces.
  enough (forall k, (k <= length nonces)%nat ->
    foldM (fun l n => let? x := read_nonce nb v n in Ok (l ++ [x])) (seq 0 k) [] = Ok (take k nonces)) as He.
  { by rewrite He, firstn_all. }
  induction k as [|k IH]; intros Hk; [done|].
  rewrite seq_S, foldM_app, IH by lia. cbn [bind foldM Nat.add].
  destruct (lookup_lt_is_Some_2 nonces k) as [x Hkx]; [lia|].
  rewrite (read_nonce_spec nb v k x); [| |nia| |by intros; apply Hb].
  - cbn [bind]. by rewrite (take_S_r _ _ _ Hkx).
  - done.
  - rewrite Forall_lookup in Hx. by eapply Hx.
Qed.

Lemma check_padding_ok v from count :
  (from + count <= 8 * length (bits v))%nat ->
  (forall q, (from <= q)%nat -> bit v q = false) ->
  check_padding v from count = Ok tt.
Proof.
  intros Hlen Hq. unfold check_padding. revert from Hlen Hq.
  induction count as [|n IH]; intros from Hlen Hq; [done|].
  cbn [seq foldM]. rewrite bit_at_spec, Hq by lia. cbn [bind].
  apply IH; [lia|]. intros q Hge. apply Hq. lia.
Qed.

Lemma bitvec_new_sized n : sized (bytes_len n) (bitvec_new n).
Proof.
  split; [apply length_replicate|]. apply Forall_replicate. unfold is_byte. lia.
Qed.

Lemma bit_new n q : bit (bitvec_new n) q = false.
Proof.
  unfold bit, bitvec_new. cbn [bits]. destruct (_ !! _) as [b|] eqn:Hb; simpl; [|apply Z.testbit_0_l].
  apply lookup_replicate in Hb as [-> _]. apply Z.testbit_0_l.
Qed.

(** The vector of a cuckoo proof. *)
Definition packed (nb : nat) (nonces : list Z) : BitVec :=
  set_bits (bitvec_new (nb * length nonces)) (all_positions nb (imap pair nonces)).

Lemma packed_bits nb nonces q :
  bit (packed nb nonces) q = bool_decide (q ∈ all_positions nb (imap pair nonces)).
Proof.
  unfold packed. pose proof (bytes_len_bound (nb * length nonces)).
  rewrite (bit_set_bits (bytes_len (nb * length nonces))), bit_new; [done| |apply bitvec_new_sized].
  eapply Forall_impl; [apply all_positions_bound|]. cbv beta. intros. lia.
Qed.

Lemma write_packed nb nonces :
  (nb <= 64)%nat ->
  foldM (write_nonce nb) (imap pair nonces) (bitvec_new (nb * length nonces)) = Ok (packed nb nonces)
  /\ sized (bytes_len (nb * length nonces)) (packed nb nonces).
Proof.
  intros Hnb. apply write_nonces_spec; [done| |apply bitvec_new_sized].
  apply Forall_lookup. intros i e He. rewrite list_lookup_imap in He.
  destruct (nonces !! i) as [x|] eqn:Hx; simpl in He; [|done]. injection He as <-. cbn [fst].
  apply lookup_lt_Some in Hx. pose proof (bytes_len_bound (nb * length nonces)). nia.
Qed.

Lemma reads_hash_proof (f : Hash -> Proof) h :
  reads (v <- unwrap_read (read_fixed_bytes 32) ;; ret (f (from_vec v))) (write_array h) (f h).
Proof.
  rewrite <- (from_vec_bytes h) at 2. apply (reads_map _ (fun v => f (from_vec v))).
  intros k rest total Ht. unfold unwrap_read. unfold write_array.
  rewrite (reads_fixed 32); [done| |done|done]. by destruct (array_bytes_ok h).
Qed.

Lemma reads_proof c p :
  proof_ok c p ->
  exists bs, write_proof c Full p = Ok bs /\ reads (read_proof c) bs p.
Proof.
  intros Hp. destruct p as [e nonces| |h|h]; [|done| |].
  - destruct Hp as (He & Hlen & Hall). cbn [write_proof].
    rewrite <- Hlen, Nat2Z.id. set (nb := Z.to_nat e).
    destruct (write_packed nb nonces) as [-> [Hsz _]]; [lia|]. cbn [bind].
    eexists. split; [reflexivity|]. unfold read_proof.
    eapply reads_bind; [apply reads_uint; done|]. cbv beta.
    eapply reads_bind; [apply reads_uint; change (2 ^ (8 * Z.of_nat 1)) with 256; lia|]. cbv beta.
    destruct (Z.eqb_spec e 0); [lia|]. rewrite Z.gtb_ltb. destruct (Z.ltb_spec 64 e); [lia|]. cbn [orb].
    rewrite <- Hlen, Nat2Z.id. fold nb.
    pose proof (bytes_len_bound (nb * length nonces)) as Hbl.
    assert (Z.of_nat (length nonces) <= 42) by (rewrite Hlen; destruct c; vm_compute; congruence).
    rewrite <- (app_nil_r (bits _)). eapply reads_bind; [apply reads_fixed; [done|nia]|]. cbv beta.
    replace (mkBitVec (bits (packed nb nonces))) with (packed nb nonces) by (by destruct packed).
    rewrite <- (app_nil_l []). eapply reads_bind; [apply reads_lift|].
    + apply read_nonces_spec; [lia|lia|subst nb; by rewrite Z2Nat.id by lia|].
      intros i x b Hi Hb. rewrite packed_bits. apply Bool.eq_true_iff_eq.
      rewrite bool_decide_eq_true. by apply elem_of_all_positions.
    + cbv beta. rewrite <- (app_nil_l []). eapply reads_bind; [apply reads_lift|apply reads_ret].
      apply check_padding_ok; [lia|]. intros q Hq. rewrite packed_bits. apply bool_decide_eq_false_2.
      intros Hin. pose proof (all_positions_bound nb nonces) as Hb. rewrite Forall_forall in Hb.
      specialize (Hb q Hin). lia.
  - cbn [write_proof]. eexists. split; [reflexivity|]. unfold read_proof.
    eapply reads_bind; [apply (reads_uint 1 2); done|]. apply (reads_hash_proof RandomXProof).
  - cbn [write_proof]. eexists. split; [reflexivity|]. unfold read_proof.
    eapply reads_bind; [apply (reads_uint 1 3); done|]. apply (reads_hash_proof ProgPowProof).
Qed.

Lemma reads_pow c p :
  difficulty_ok (total_difficulty p) -> 0 <= secondary_scaling p < 2 ^ 32 -> is_u64 (nonce p) ->
  proof_ok c (proof p) ->
  exists bs, write_pow c Full p = Ok bs /\ reads (read_pow c) bs p.
Proof.
  intros Hd Hs Hn Hp. destruct p as [d s n pr sd]. cbn [total_difficulty secondary_scaling nonce proof] in *.
  destruct (reads_proof c pr Hp) as (bs & Hw & Hr). unfold write_pow. cbn [proof]. rewrite Hw. cbn [bind].
  eexists. split; [reflexivity|]. unfold read_pow, write_pre_pow.
  cbn [total_difficulty secondary_scaling nonce seed]. rewrite <- !app_assoc.
  eapply reads_bind; [by apply reads_difficulty|].
  eapply reads_bind; [by apply (reads_uint 4)|].
  eapply reads_bind; [by apply (reads_uint 8)|].
  eapply reads_bind; [done|]. cbv beta.
  rewrite <- (from_vec_bytes sd) at 2.
  apply (reads_map _ (fun v => mkProofOfWork d s n pr (from_vec v))).
  unfold write_array. apply reads_fixed; [|done]. by destruct (array_bytes_ok sd).
Qed.

(** A proof of work survives the wire: for every cuckoo proof of the
    chain's size (any nonces below [2 ^ edge_bits], packed bit by bit and padded
    with zeros), RandomX or ProgPoW proof, [ProofOfWork::write] does not panic and
    either reader decodes the same value, with nothing left over. *)
Theorem pow_roundtrip c p :
  difficulty_ok (total_difficulty p) -> 0 <= secondary_scaling p < 2 ^ 32 -> is_u64 (nonce p) ->
  proof_ok c (proof p) ->
  exists bs, write_pow c Full p = Ok bs /\ reads (read_pow c) bs p.
Proof. apply reads_pow. Qed.

Definition sample_pow : ProofOfWork :=
  mkProofOfWork (from_num 12) 7936 99 (CuckooProof 9 [3; 77; 300; 511]) (from_vec [1; 2; 3]).

Lemma pow_roundtrip_witness :
  exists bs, write_pow AutomatedTesting Full sample_pow = Ok bs
    /\ reads (read_pow AutomatedTesting) bs sample_pow.
Proof. apply (pow_roundtrip AutomatedTesting sample_pow); vm_decide. Defined.

(** The [Writeable] instance of [ProofOfWork] is not an inverse of its
    reader: it leaves the seed out, so decoding what it wrote runs out of bytes. *)
Theorem pow_trait_write_truncated c p :
  difficulty_ok (total_difficulty p) -> 0 <= secondary_scaling p < 2 ^ 32 -> is_u64 (nonce p) ->
  proof_ok c (proof p) ->
  exists bs, write_pow_trait c Full p = Ok bs /\ deserialize (read_pow c) bs = Err UnexpectedEof.
Proof.
  intros Hd Hs Hn Hp. destruct p as [d s n pr sd]. cbn [total_difficulty secondary_scaling nonce proof] in *.
  destruct (reads_proof c pr Hp) as (bs & Hw & Hr). unfold write_pow_trait. cbn [proof]. rewrite Hw. cbn [bind].
  eexists. split; [reflexivity|]. unfold deserialize, read_pow, write_pre_pow, rbind.
  cbn [total_difficulty secondary_scaling nonce]. rewrite <- !app_assoc.
  assert (Hu : is_u64 0) by (unfold is_u64; lia).
  rewrite (reads_difficulty d Hd BinReader) by done. cbn [bind counted].
  rewrite (reads_uint 4 s Hs BinReader) by done. cbn [bind counted].
  rewrite (reads_uint 8 n Hn BinReader) by done. cbn [bind counted].
  rewrite <- (app_nil_r bs), (Hr BinReader) by done. done.
Qed.

Lemma pow_trait_write_truncated_witness :
  exists bs, write_pow_trait AutomatedTesting Full sample_pow = Ok bs
    /\ deserialize (read_pow AutomatedTesting) bs = Err UnexpectedEof.
Proof. apply (pow_trait_write_truncated AutomatedTesting sample_pow); vm_decide. Defined.

(** A malformed proof does not decode to an error: an unknown kind byte, or
    a hash proof cut short, panics the reader. *)
Theorem malformed_proof_panics c k rest total :
  (forall b, 4 <= b < 256 -> read_proof c (mkReader k (b :: rest) total) = Panic)
  /\ ((length rest < 32)%nat ->
      read_proof c (mkReader k (2 :: rest) total) = Panic
      /\ read_proof c (mkReader k (3 :: rest) total) = Panic).
Proof.
  assert (Hu : forall b, exists t, read_u8 (mkReader k (b :: rest) total) = Ok (b, mkReader k rest t)).
  { intros b. destruct k; eexists; reflexivity. }
  split.
  - intros b Hb. unfold read_proof, rbind. destruct (Hu b) as [t ->]. cbn [bind].
    destruct b as [|[[]|[]|]|]; try reflexivity; lia.
  - intros Hl. split; unfold read_proof, rbind.
    + destruct (Hu 2) as [t ->]. cbn [bind]. unfold unwrap_read, read_fixed_bytes, take_bytes.
      cbn [kind source]. destruct (Nat.ltb_spec (length rest) 32); [|lia]. by destruct k.
    + destruct (Hu 3) as [t ->]. cbn [bind]. unfold unwrap_read, read_fixed_bytes, take_bytes.
      cbn [kind source]. destruct (Nat.ltb_spec (length rest) 32); [|lia]. by destruct k.
Qed.
