(* ===== verification/Retarget.v ===== *)
(** * Difficulty adjustment

    The retargeting rules of [core/src/consensus.rs] on the header data that
    [core/src/global.rs] gathers.  A cursor is the list of the headers it would
    yield, latest first. *)
From S2P Require Import Prelude Ser Global Pow.

Definition DIFFICULTY_ADJUST_WINDOW : Z := HOUR_HEIGHT.
Definition BLOCK_TIME_WINDOW : Z := DIFFICULTY_ADJUST_WINDOW * BLOCK_TIME_SEC.
Definition CLAMP_FACTOR : Z := 2.
Definition DIFFICULTY_DAMP_FACTOR : Z := 3.
Definition AR_SCALE_DAMP_FACTOR : Z := 13.
Definition RX_CLAMP_FACTOR : Z := 2.
Definition RX_DIFFICULTY_DAMP_FACTOR : Z := 3.
Definition PP_CLAMP_FACTOR : Z := 2.
Definition PP_DIFFICULTY_DAMP_FACTOR : Z := 3.
Definition MIN_DIFFICULTY_RANDOMX : Z := 4000.
Definition OLD_MIN_DIFFICULTY_RANDOMX : Z := 5000.
Definition MIN_DIFFICULTY_PROGPOW : Z := 200000.
Definition OLD_MIN_DIFFICULTY_PROGPOW : Z := 100000.
Definition BLOCK_DIFF_FACTOR_RANDOMX : Z := 64.
Definition BLOCK_DIFF_FACTOR_PROGPOW : Z := 64.
Definition MIN_AR_SCALE : Z := AR_SCALE_DAMP_FACTOR.

Record HeaderInfo := mkHeaderInfo {
  timestamp : Z;
  difficulty : Difficulty;
  info_scaling : Z;
  info_secondary : bool;
  prev_timespan : Z;
}.

Definition from_ts_diff (c : ChainTypes) (timestamp : Z) (difficulty : Difficulty) : HeaderInfo :=
  mkHeaderInfo timestamp difficulty (initial_graph_weight c) true 0.

Definition from_diff_scaling (difficulty : Difficulty) (secondary_scaling : Z) : HeaderInfo :=
  mkHeaderInfo 1 difficulty secondary_scaling true 0.

Definition with_timestamp (h : HeaderInfo) (t : Z) : HeaderInfo :=
  mkHeaderInfo t (difficulty h) (info_scaling h) (info_secondary h) (prev_timespan h).

(** ** Gathering the window *)

(** The loop over [1..last_n.len()]: each timestamp is rewritten from the entry
    before it, already rewritten. *)
Fixpoint retime (prev : HeaderInfo) (l : list HeaderInfo) : list HeaderInfo :=
  match l with
  | [] => []
  | h :: l =>
      let h := with_timestamp h (sat_sub (timestamp prev) (prev_timespan prev)) in
      h :: retime h l
  end.

(** The loop that simulates [count] blocks before the genesis block. *)
Fixpoint simulate (c : ChainTypes) (count : nat) (last_ts last_ts_delta : Z) (last_diff : Difficulty)
    : list HeaderInfo :=
  match count with
  | O => []
  | S count =>
      let last_ts := sat_sub last_ts last_ts_delta in
      from_ts_diff c last_ts last_diff :: simulate c count last_ts last_ts_delta last_diff
  end.

(** The common body: latest first.  Indexing an empty cursor panics. *)
Definition gather (c : ChainTypes) (cursor : list HeaderInfo) (needed_block_count : Z)
    : outcome () (list HeaderInfo) :=
  let needed := S (Z.to_nat needed_block_count) in
  match take needed cursor with
  | [] => Panic
  | first :: l =>
      let last_n := first :: retime first l in
      let n := length last_n in
      if (n <? needed)%nat then
        let last_ts_delta :=
          match last_n with
          | h0 :: h1 :: _ => timestamp h0 -! timestamp h1
          | _ => BLOCK_TIME_SEC
          end in
        let last_ts := timestamp (List.last last_n first) in
        Ok (last_n ++ simulate c (needed - n) last_ts last_ts_delta (difficulty first))
      else Ok last_n
  end.

Definition difficulty_data_to_vector (c : ChainTypes) (cursor : list HeaderInfo) (needed : Z)
    : outcome () (list HeaderInfo) :=
  let? last_n := gather c cursor needed in Ok (reverse last_n).

Definition ts_data_to_vector (c : ChainTypes) (cursor : list HeaderInfo) (needed : Z)
    : outcome () (list HeaderInfo) :=
  gather c cursor needed.

(** ** Dampening, clamping, secondary scaling *)
Definition damp (actual goal damp_factor : Z) : Z :=
  (actual +! (damp_factor -! 1) *! goal) / damp_factor.

Definition clamp (actual goal clamp_factor : Z) : Z :=
  Z.max (goal / clamp_factor) (Z.min actual (goal *! clamp_factor)).

Definition secondary_pow_ratio (height : Z) : Z := sat_sub 90 (height / (2 *! YEAR_HEIGHT / 90)).

Definition ar_count (diff_data : list HeaderInfo) : Z :=
  100 *! Z.of_nat (length (filter (fun n => info_secondary n) diff_data)).

(** [Iterator::sum] on [u64]. *)
Definition sum_u64 (l : list Z) : Z := foldl u64_add 0 l.

Definition secondary_pow_scaling (height : Z) (diff_data : list HeaderInfo) : Z :=
  let scale_sum := sum_u64 (map info_scaling diff_data) in
  let target_pct := secondary_pow_ratio height in
  let target_count := DIFFICULTY_ADJUST_WINDOW *! target_pct in
  let adj_count := clamp (damp (ar_count diff_data) target_count AR_SCALE_DAMP_FACTOR)
                     target_count CLAMP_FACTOR in
  let scale := scale_sum *! target_pct / Z.max 1 adj_count in
  wrap32 (Z.max MIN_AR_SCALE scale).

(** ** The rules per algorithm *)
Definition next_cuckoo_difficulty (pow : PoWType) (diff_data : list HeaderInfo) : outcome () Z :=
  let? h60 := unwrap (diff_data !! Z.to_nat DIFFICULTY_ADJUST_WINDOW) in
  let? h0 := unwrap (diff_data !! 0%nat) in
  let ts_delta := timestamp h60 -! timestamp h0 in
  let diff_sum := sum_u64 (map (fun dd => to_num (difficulty dd) pow) (drop 1 diff_data)) in
  let adj_ts := clamp (damp ts_delta BLOCK_TIME_WINDOW DIFFICULTY_DAMP_FACTOR) BLOCK_TIME_WINDOW CLAMP_FACTOR in
  Ok (Z.max MIN_DIFFICULTY (diff_sum *! BLOCK_TIME_SEC / adj_ts)).

(** The loop over [1..diff_data.len()], which looks at all entries but the last. *)
Definition era1_ts_delta (diff_data : list HeaderInfo) : Z :=
  sum_u64 (map (fun h => timestamp h -! sat_sub (timestamp h) (prev_timespan h))
             (take (length diff_data - 1) diff_data)).

Definition next_difficulty_window (min_difficulty damp_factor clamp_factor : Z) (pow : PoWType)
    (diff_data : list HeaderInfo) : Z :=
  let ts_delta := era1_ts_delta diff_data in
  let diff_sum := sum_u64 (map (fun dd => to_num (difficulty dd) pow) (drop 1 diff_data)) in
  let adj_ts := clamp (damp ts_delta BLOCK_TIME_WINDOW damp_factor) BLOCK_TIME_WINDOW clamp_factor in
  Z.max min_difficulty (diff_sum *! BLOCK_TIME_SEC / adj_ts).

Definition next_progpow_difficulty_era1 : PoWType -> list HeaderInfo -> Z :=
  next_difficulty_window MIN_DIFFICULTY_PROGPOW PP_DIFFICULTY_DAMP_FACTOR PP_CLAMP_FACTOR.
Definition next_randomx_difficulty_era1 : PoWType -> list HeaderInfo -> Z :=
  next_difficulty_window MIN_DIFFICULTY_RANDOMX RX_DIFFICULTY_DAMP_FACTOR RX_CLAMP_FACTOR.
Definition next_cuckoo_difficulty_era1 : PoWType -> list HeaderInfo -> Z :=
  next_difficulty_window MIN_DIFFICULTY DIFFICULTY_DAMP_FACTOR CLAMP_FACTOR.

(** [u64 as i64], and the [i64] division, which truncates toward zero. *)
Definition next_hash_difficulty (pow : PoWType) (diff_data : list HeaderInfo) : outcome () Z :=
  let diff_adjustment_cutoff := 60 in
  let? block_diff_factor := match pow with
                            | RandomX => Ok BLOCK_DIFF_FACTOR_RANDOMX
                            | ProgPow => Ok BLOCK_DIFF_FACTOR_PROGPOW
                            | _ => Panic
                            end in
  let? h1 := unwrap (diff_data !! 1%nat) in
  let? h0 := unwrap (diff_data !! 0%nat) in
  let current_diff := to_num (difficulty h1) pow in
  let current_timestamp := timestamp h1 in
  let prev_timestamp := timestamp h0 in
  let? min_diff := match pow with
                   | RandomX => Ok OLD_MIN_DIFFICULTY_RANDOMX
                   | ProgPow => Ok OLD_MIN_DIFFICULTY_PROGPOW
                   | _ => Panic
                   end in
  let ts_delta := current_timestamp -! prev_timestamp in
  let offset := wrap_i64 (current_diff / block_diff_factor) in
  let sign := Z.max (wrap_i64 (1 - wrap_i64 (2 * Z.quot (wrap_i64 ts_delta) diff_adjustment_cutoff))) (-99) in
  Ok (Z.max
        (wrap64 (Z.max (wrap_i64 (wrap_i64 current_diff + wrap_i64 (offset * sign))) 1))
        (Z.min current_diff min_diff)).

(** ** The next difficulty *)
Definition next_difficulty (c : ChainTypes) (height : Z) (prev_algo : PoWType) (cursor : list HeaderInfo)
    : outcome () HeaderInfo :=
  let? diff_data := match prev_algo with
                    | Cuckatoo => difficulty_data_to_vector c cursor DIFFICULTY_ADJUST_WINDOW
                    | Cuckaroo => difficulty_data_to_vector c cursor DIFFICULTY_ADJUST_WINDOW
                    | RandomX => difficulty_data_to_vector c cursor 1
                    | ProgPow => difficulty_data_to_vector c cursor 1
                    end in
  let sec_pow_scaling := secondary_pow_scaling height (drop 1 diff_data) in
  let? last := unwrap (last diff_data) in
  let diff := num (difficulty last) in
  let? next := match prev_algo with
               | Cuckatoo => next_cuckoo_difficulty Cuckatoo diff_data
               | Cuckaroo => next_cuckoo_difficulty Cuckaroo diff_data
               | RandomX => next_hash_difficulty RandomX diff_data
               | ProgPow => next_hash_difficulty ProgPow diff_data
               end in
  Ok (from_diff_scaling (from_dic_number (<[prev_algo := next]> diff)) sec_pow_scaling).

Definition next_difficulty_era1 (c : ChainTypes) (height : Z) (prev_algo : PoWType) (cursor : list HeaderInfo)
    : outcome () HeaderInfo :=
  let? diff_data := difficulty_data_to_vector c cursor DIFFICULTY_ADJUST_WINDOW in
  let sec_pow_scaling := secondary_pow_scaling height (drop 1 diff_data) in
  let? last := unwrap (last diff_data) in
  let diff := num (difficulty last) in
  let next := match prev_algo with
              | Cuckatoo => next_cuckoo_difficulty_era1 Cuckatoo diff_data
              | Cuckaroo => next_cuckoo_difficulty_era1 Cuckaroo diff_data
              | RandomX => next_randomx_difficulty_era1 RandomX diff_data
              | ProgPow => next_progpow_difficulty_era1 ProgPow diff_data
              end in
  Ok (from_diff_scaling (from_dic_number (<[prev_algo := next]> diff)) sec_pow_scaling).

(** ** Median of the timestamps *)
Definition timestamp_median (c : ChainTypes) (header_ts : Z) (cursor : list HeaderInfo) : outcome () Z :=
  let? diff_data := ts_data_to_vector c cursor 6 in
  let ts := merge_sort Z.le (map timestamp diff_data ++ [header_ts]) in
  let half := (length ts / 2)%nat in
  if (length ts mod 2 =? 0)%nat then unwrap (ts !! half)
  else
    let? a := unwrap (ts !! (half - 1)%nat) in
    let? b := unwrap (ts !! half) in
    Ok ((a +! b) / 2).

(** ** Parameters of the fork *)
Definition difficultyfix_height (c : ChainTypes) : Z :=
  match c with
  | AutomatedTesting => 50
  | UserTesting => 50
  | Floonet => 200
  | Mainnet => 501160
  end.

(** ** The window *)

Definition info_ok (h : HeaderInfo) : Prop :=
  is_u64 (timestamp h) /\ is_u64 (prev_timespan h) /\ difficulty_ok (difficulty h).

Lemma sat_sub_range x y : is_u64 x -> 0 <= y -> is_u64 (sat_sub x y) /\ sat_sub x y <= x.
Proof. unfold is_u64, sat_sub. lia. Qed.

Lemma length_retime prev l : length (retime prev l) = length l.
Proof. revert prev. induction l as [|h l IH]; intros prev; simpl; [done|]. by rewrite IH. Qed.

Lemma length_simulate c n ts delta d : length (simulate c n ts delta d) = n.
Proof. revert ts. induction n as [|n IH]; intros ts; simpl; [done|]. by rewrite IH. Qed.

Lemma simulate_ok c n ts delta d :
  is_u64 ts -> 0 <= delta -> difficulty_ok d ->
  Forall info_ok (simulate c n ts delta d)
  /\ Sorted Z.ge (ts :: map timestamp (simulate c n ts delta d)).
Proof.
  intros Hts Hd Hdiff. revert ts Hts. induction n as [|n IH]; intros ts Hts.
  { split; repeat constructor. }
  cbn [simulate map]. destruct (sat_sub_range ts delta) as [Hr Hle]; [done..|].
  destruct (IH _ Hr) as [Hall Hs]. split.
  - constructor; [|done]. split_and!; [done| |done]. cbn [prev_timespan from_ts_diff]. unfold is_u64. lia.
  - constructor; [done|]. constructor. cbn [timestamp from_ts_diff]. lia.
Qed.

(** The retimed headers followed by the simulated ones go back in time. *)
Lemma retime_simulate_ok c n prev l delta d def :
  info_ok prev -> Forall info_ok l -> 0 <= delta -> difficulty_ok d ->
  let rest := retime prev l ++ simulate c n (timestamp (List.last (prev :: retime prev l) def)) delta d in
  Forall info_ok rest /\ Sorted Z.ge (timestamp prev :: map timestamp rest).
Proof.
  intros Hp Hl Hd Hdiff. revert prev Hp. induction Hl as [|h l Hh Hl IH]; intros prev Hp rest; subst rest.
  { cbn [retime app List.last]. apply simulate_ok; [apply Hp|done|done]. }
  cbn [retime]. set (h' := with_timestamp h _).
  destruct Hp as (Hts & Hspan & Hdp). destruct (sat_sub_range (timestamp prev) (prev_timespan prev)) as [Hr Hle];
    [done|apply Hspan|].
  assert (Hh' : info_ok h') by (destruct Hh as (_ & ? & ?); done).
  destruct (IH h' Hh') as [Hall Hs].
  change (List.last (prev :: h' :: retime h' l) def) with (List.last (h' :: retime h' l) def).
  cbn [app map]. split; [by constructor|]. constructor; [done|]. constructor.
  change (timestamp h') with (sat_sub (timestamp prev) (prev_timespan prev)). lia.
Qed.

Lemma gather_spec c first cursor needed :
  info_ok first -> Forall info_ok cursor ->
  exists l, gather c (first :: cursor) needed = Ok (first :: l)
    /\ length l = Z.to_nat needed /\ Forall info_ok l
    /\ Sorted Z.ge (map timestamp (first :: l)).
Proof.
  intros Hf Hc. unfold gather. cbn [take].
  set (k := Z.to_nat needed). set (l := take k cursor).
  assert (Hl : Forall info_ok l) by (by apply Forall_take).
  assert (Hlen : (length l <= k)%nat) by (subst l; rewrite length_take; lia).
  cbn [length]. rewrite length_retime.
  destruct (Nat.ltb_spec (S (length l)) (S k)) as [Hlt|Hge].
  - set (delta := match retime first l with [] => _ | _ => _ end).
    assert (Hdelta : 0 <= delta).
    { subst delta. destruct (retime first l); [unfold BLOCK_TIME_SEC; lia|]. apply wrap64_range. }
    destruct (retime_simulate_ok c (S k - S (length l)) first l delta (difficulty first) first)
      as [Hall Hs]; [done..|apply Hf|].
    eexists. split_and!; [reflexivity| |done|done].
    rewrite length_app, length_retime, length_simulate. lia.
  - destruct (retime_simulate_ok c 0 first l 0 (difficulty first) first) as [Hall Hs]; [done..|apply Hf|].
    cbn [simulate] in *. rewrite app_nil_r in *.
    eexists. split_and!; [reflexivity| |done|done]. rewrite length_retime. lia.
Qed.

Lemma Sorted_ge_reverse l : Sorted Z.ge l -> StronglySorted Z.le (reverse l).
Proof.
  intros Hs0. assert (Ht : Transitive Z.ge) by (intros x y z; lia).
  assert (Hs := Sorted_StronglySorted Z.ge l Hs0). clear Hs0.
  induction Hs as [|x l Hs IH Hx]; [constructor|].
  rewrite reverse_cons. apply StronglySorted_app.
  split_and!; [|done|repeat constructor].
  intros y z Hy Hz. rewrite elem_of_reverse in Hy. apply list_elem_of_singleton in Hz as ->.
  rewrite Forall_forall in Hx. specialize (Hx y Hy). lia.
Qed.

Lemma data_vector_spec c first cursor needed :
  info_ok first -> Forall info_ok cursor ->
  exists v, difficulty_data_to_vector c (first :: cursor) needed = Ok v
    /\ length v = S (Z.to_nat needed) /\ Forall info_ok v
    /\ StronglySorted Z.le (map timestamp v) /\ last v = Some first.
Proof.
  intros Hf Hc. destruct (gather_spec c first cursor needed) as (l & Hg & Hlen & Hall & Hs); [done..|].
  unfold difficulty_data_to_vector. rewrite Hg. cbn [bind].
  eexists. split_and!; [reflexivity| | | |].
  - rewrite length_reverse. simpl. lia.
  - apply Forall_reverse. by constructor.
  - change (map timestamp) with (fmap (M := list) timestamp). rewrite fmap_reverse.
    by apply Sorted_ge_reverse.
  - by rewrite reverse_cons, last_snoc.
Qed.

Lemma StronglySorted_lookup_le l (i j : nat) x y :
  StronglySorted Z.le l -> (i <= j)%nat -> l !! i = Some x -> l !! j = Some y -> x <= y.
Proof.
  intros Hs. revert i j. induction Hs as [|z l Hs IH Hz]; intros i j Hij Hi Hj; [done|].
  destruct i as [|i], j as [|j]; simpl in *.
  - simplify_eq. lia.
  - simplify_eq. rewrite Forall_forall in Hz. apply Hz. by eapply list_elem_of_lookup_2.
  - lia.
  - eapply IH; [|done..]. lia.
Qed.

(** Exact sums. *)
Definition total (l : list Z) : Z := foldr Z.add 0 l.

Lemma sum_u64_exact l : Forall (Z.le 0) l -> total l < 2 ^ 64 -> sum_u64 l = total l.
Proof.
  unfold sum_u64. assert (Hgen : forall acc, 0 <= acc -> Forall (Z.le 0) l -> acc + total l < 2 ^ 64 ->
    foldl u64_add acc l = acc + total l).
  2: { intros Hl Ht. rewrite (Hgen 0) by (done || lia). lia. }
  induction l as [|x l IH]; intros acc Hacc Hl Ht.
  { unfold total. cbn [foldl foldr]. lia. }
  cbn [total foldr] in Ht. inversion Hl as [|? ? Hx Hl']; subst. fold (total l) in *.
  assert (Hn : 0 <= total l) by (clear -Hl'; unfold total; induction Hl'; cbn [foldr]; lia).
  cbn [foldl total foldr]. fold (total l). rewrite u64_add_small by (unfold is_u64; lia).
  rewrite IH; [lia|lia|done|lia].
Qed.

(** The time the window took, pulled toward an hour, kept within half and twice of it. *)
Definition adjusted (ts_delta : Z) : Z := Z.max 1800 (Z.min ((ts_delta + 7200) / 3) 7200).

Lemma adjusted_spec ts_delta damp_factor clamp_factor :
  damp_factor = 3 -> clamp_factor = 2 -> 0 <= ts_delta < 2 ^ 63 ->
  clamp (damp ts_delta BLOCK_TIME_WINDOW damp_factor) BLOCK_TIME_WINDOW clamp_factor = adjusted ts_delta.
Proof.
  intros -> -> Ht. unfold clamp, damp, adjusted.
  change BLOCK_TIME_WINDOW with 3600. change (3600 / 2) with 1800. change (3600 *! 2) with 7200.
  change ((3 -! 1) *! 3600) with 7200. rewrite u64_add_small by (unfold is_u64; lia). done.
Qed.

Lemma retarget_bounds s ts_delta min_diff :
  0 <= s -> 0 <= ts_delta ->
  s * 60 / 7200 <= Z.max min_diff (s * 60 / adjusted ts_delta) <= Z.max min_diff (s * 60 / 1800).
Proof.
  intros Hs Ht. set (a := adjusted ts_delta).
  assert (1800 <= a <= 7200) by (subst a; unfold adjusted; lia).
  assert (s * 60 / 7200 <= s * 60 / a) by (apply Z.div_le_compat_l; lia).
  assert (s * 60 / a <= s * 60 / 1800) by (apply Z.div_le_compat_l; lia). lia.
Qed.

(** The work of the window for one algorithm: all entries but the oldest. *)
Definition window_work (pow : PoWType) (v : list HeaderInfo) : Z :=
  total (map (fun dd => to_num (difficulty dd) pow) (drop 1 v)).

Lemma window_work_sum pow v :
  Forall info_ok v -> window_work pow v * 60 < 2 ^ 64 ->
  0 <= window_work pow v
  /\ sum_u64 (map (fun dd => to_num (difficulty dd) pow) (drop 1 v)) *! BLOCK_TIME_SEC
     = window_work pow v * 60.
Proof.
  intros Hv Hno. assert (Hpos : Forall (Z.le 0) (map (fun dd => to_num (difficulty dd) pow) (drop 1 v))).
  { apply Forall_map, Forall_drop. eapply Forall_impl; [exact Hv|]. intros h (_ & _ & Hd).
    by apply to_num_u64. }
  assert (Hn : 0 <= window_work pow v).
  { unfold window_work, total. clear -Hpos. induction Hpos; cbn [foldr]; lia. }
  split; [done|]. rewrite sum_u64_exact; [|done|unfold window_work in *; lia].
  apply u64_mul_small. unfold is_u64, window_work in *. change BLOCK_TIME_SEC with 60. lia.
Qed.

(** The cuckoo rule on a full window: the next difficulty is the work of
    the window scaled by the dampened, clamped time it took, so it stays between
    half and twice the average of the window (and above the minimum), and a window
    on schedule keeps the average. *)
Theorem cuckoo_retarget pow v :
  length v = 61%nat -> Forall info_ok v -> StronglySorted Z.le (map timestamp v) ->
  Forall (fun h => timestamp h < 2 ^ 63) v ->
  window_work pow v * 60 < 2 ^ 64 ->
  exists n t0 t60, next_cuckoo_difficulty pow v = Ok n
    /\ timestamp <$> v !! 0%nat = Some t0 /\ timestamp <$> v !! 60%nat = Some t60
    /\ n = Z.max MIN_DIFFICULTY (window_work pow v * 60 / adjusted (t60 - t0))
    /\ window_work pow v / 120 <= n <= Z.max MIN_DIFFICULTY (window_work pow v / 30)
    /\ (t60 - t0 = 3600 -> n = Z.max MIN_DIFFICULTY (window_work pow v / 60)).
Proof.
  intros Hlen Hv Hs Hts Hno.
  destruct (lookup_lt_is_Some_2 v 0) as [h0 H0]; [lia|].
  destruct (lookup_lt_is_Some_2 v 60) as [h60 H60]; [lia|].
  assert (Hle : timestamp h0 <= timestamp h60).
  { eapply (StronglySorted_lookup_le (map timestamp v) 0 60); [done|lia| |];
      rewrite list_lookup_fmap, ?H0, ?H60; done. }
  destruct (window_work_sum pow v Hv Hno) as [Hpos Hsum].
  rewrite Forall_lookup in Hv, Hts. pose proof (Hts _ _ H60). destruct (Hv _ _ H0) as ([? ?] & _).
  pose proof (retarget_bounds (window_work pow v) (timestamp h60 - timestamp h0) MIN_DIFFICULTY
    ltac:(lia) ltac:(lia)) as Hb.
  set (w := window_work pow v) in *.
  replace (w / 120) with (w * 60 / 7200) by (by rewrite <- (Z.div_mul_cancel_r w 120 60)).
  replace (w / 30) with (w * 60 / 1800) by (by rewrite <- (Z.div_mul_cancel_r w 30 60)).
  replace (w / 60) with (w * 60 / 3600) by (by rewrite <- (Z.div_mul_cancel_r w 60 60)).
  exists (Z.max MIN_DIFFICULTY (w * 60 / adjusted (timestamp h60 - timestamp h0))),
    (timestamp h0), (timestamp h60).
  split_and!; [|by rewrite H0|by rewrite H60|done|lia|lia|by intros ->].
  unfold next_cuckoo_difficulty. change (Z.to_nat DIFFICULTY_ADJUST_WINDOW) with 60%nat.
  rewrite H60, H0. cbn [unwrap bind]. rewrite Hsum.
  rewrite u64_sub_small, adjusted_spec by (done || unfold is_u64; lia). done.
Qed.

(** A window of [n] blocks a minute apart, at difficulty [d]. *)
Definition steady (n : nat) (d : Z) : list HeaderInfo :=
  map (fun i => mkHeaderInfo (1000000 + 60 * Z.of_nat i) (from_num d) 1 false 60) (seq 0 n).

Lemma steady_sorted n d : StronglySorted Z.le (map timestamp (steady n d)).
Proof.
  unfold steady. generalize 0%nat. induction n as [|n IH]; intros a; cbn [seq map]; constructor; [apply IH|].
  rewrite map_map. apply Forall_map, Forall_seq. intros j Hj. cbn [timestamp]. lia.
Qed.

Lemma cuckoo_retarget_witness : next_cuckoo_difficulty Cuckatoo (steady 61 1000) = Ok 1000.
Proof.
  destruct (cuckoo_retarget Cuckatoo (steady 61 1000)) as (n & t0 & t60 & -> & H0 & H60 & _ & _ & H).
  - reflexivity.
  - repeat (constructor; [split_and!; vm_decide|]); constructor.
  - apply steady_sorted.
  - vm_decide.
  - vm_decide.
  - injection H0 as <-. injection H60 as <-. by rewrite H.
Defined.

(** The hash rule (RandomX, ProgPoW): a block under the minute raises the
    difficulty by a 64th, a slower one never raises it and lowers it by at most
    99 64ths, each further minute by two 64ths more; a difficulty at or above the
    floor never falls below it. *)
Theorem hash_retarget pow floor h0 h1 rest :
  (pow = RandomX /\ floor = OLD_MIN_DIFFICULTY_RANDOMX)
  \/ (pow = ProgPow /\ floor = OLD_MIN_DIFFICULTY_PROGPOW) ->
  let cur := to_num (difficulty h1) pow in
  let delta := timestamp h1 - timestamp h0 in
  1 <= cur < 2 ^ 56 -> 0 <= delta < 2 ^ 62 ->
  exists n, next_hash_difficulty pow (h0 :: h1 :: rest) = Ok n
    /\ n = Z.max (Z.max 1 (cur + cur / 64 * Z.max (1 - 2 * (delta / 60)) (-99))) (Z.min cur floor)
    /\ (delta < 60 -> n = cur + cur / 64)
    /\ (60 <= delta -> n <= cur)
    /\ cur - 99 * (cur / 64) <= n
    /\ (floor <= cur -> floor <= n).
Proof.
  intros Hpow cur delta Hcur Hdelta.
  set (sign := Z.max (1 - 2 * (delta / 60)) (-99)).
  assert (Hq : 0 <= delta / 60 /\ delta / 60 <= 2 ^ 60) by (split; [apply Z.div_pos|apply Z.div_le_upper_bound]; lia).
  assert (Hoff : 0 <= cur / 64 /\ 64 * (cur / 64) <= cur) by (split; [apply Z.div_pos|apply Z.mul_div_le]; lia).
  assert (Hsign : -99 <= sign <= 1) by (subst sign; lia).
  assert (Hprod : -99 * (cur / 64) <= cur / 64 * sign <= cur / 64) by nia.
  assert (Hn : next_hash_difficulty pow (h0 :: h1 :: rest)
    = Ok (Z.max (Z.max 1 (cur + cur / 64 * sign)) (Z.min cur floor))).
  { unfold next_hash_difficulty. change ((h0 :: h1 :: rest) !! 1%nat) with (Some h1).
    change ((h0 :: h1 :: rest) !! 0%nat) with (Some h0).
    destruct Hpow as [[-> ->]|[-> ->]]; cbn [bind unwrap]; fold cur.
    all: change (BLOCK_DIFF_FACTOR_RANDOMX) with 64; change (BLOCK_DIFF_FACTOR_PROGPOW) with 64.
    all: rewrite u64_sub_small by (unfold is_u64; lia); fold delta.
    all: rewrite (wrap_i64_small delta), Z.quot_div_nonneg by (unfold is_i64; lia).
    all: rewrite (wrap_i64_small (2 * _)), (wrap_i64_small (1 - _)) by (unfold is_i64; lia); fold sign.
    all: rewrite (wrap_i64_small (cur / 64)), (wrap_i64_small cur) by (unfold is_i64; lia).
    all: rewrite (wrap_i64_small (_ * _)), wrap_i64_small by (unfold is_i64; lia).
    all: rewrite wrap64_small by (unfold is_u64; lia); f_equal; lia. }
  eexists. split; [exact Hn|]. split; [done|].
  assert (Hlt : delta < 60 -> sign = 1).
  { intros. subst sign. rewrite Z.div_small by lia. lia. }
  assert (Hge : 60 <= delta -> sign <= -1).
  { intros. subst sign. assert (1 <= delta / 60) by (apply Z.div_le_lower_bound; lia). lia. }
  split_and!; [intros Hd; rewrite (Hlt Hd); lia| |lia|lia].
  intros Hd. specialize (Hge Hd). nia.
Qed.

Lemma hash_retarget_witness :
  next_hash_difficulty RandomX
    [mkHeaderInfo 1000 (from_num 6400) 1 false 60; mkHeaderInfo 1030 (from_num 6400) 1 false 30] = Ok 6500.
Proof.
  destruct (hash_retarget RandomX OLD_MIN_DIFFICULTY_RANDOMX (mkHeaderInfo 1000 (from_num 6400) 1 false 60)
    (mkHeaderInfo 1030 (from_num 6400) 1 false 30) []) as (n & -> & _ & H & _); [vm_decide..|].
  rewrite H by vm_decide. reflexivity.
Defined.

(** The header data is always complete and in order: whatever the length of
    the chain, a non-empty cursor gives exactly one more entry than asked for,
    oldest first, ending with the latest header, with no time going backwards
    (the missing blocks before the genesis block are simulated). *)
Theorem difficulty_window c first cursor needed :
  info_ok first -> Forall info_ok cursor ->
  exists v, difficulty_data_to_vector c (first :: cursor) needed = Ok v
    /\ length v = S (Z.to_nat needed) /\ Forall info_ok v
    /\ StronglySorted Z.le (map timestamp v) /\ last v = Some first.
Proof. apply data_vector_spec. Qed.

Definition genesis_info : HeaderInfo := mkHeaderInfo 1000000 (from_num 5000) 1 false 60.

Lemma genesis_info_ok : info_ok genesis_info.
Proof. split_and!; vm_decide. Qed.

Lemma difficulty_window_witness :
  exists v, difficulty_data_to_vector Mainnet [genesis_info] 60 = Ok v /\ length v = 61%nat.
Proof.
  destruct (difficulty_window Mainnet genesis_info [] 60 genesis_info_ok (List.Forall_nil _))
    as (v & Hv & Hl & _).
  exists v. by split.
Defined.

Lemma next_hash_positive pow v :
  pow = RandomX \/ pow = ProgPow -> (2 <= length v)%nat ->
  exists n, next_hash_difficulty pow v = Ok n /\ 1 <= n.
Proof.
  intros Hpow Hl. destruct v as [|h0 [|h1 v]]; simpl in Hl; [lia..|].
  unfold next_hash_difficulty. change ((h0 :: h1 :: v) !! 1%nat) with (Some h1).
  change ((h0 :: h1 :: v) !! 0%nat) with (Some h0).
  destruct Hpow as [->| ->]; cbn [bind unwrap]; eexists; (split; [reflexivity|]).
  all: set (x := wrap_i64 (wrap_i64 _ + _)).
  all: assert (x < 2 ^ 63) by (subst x; unfold wrap_i64;
    match goal with |- ?a mod _ - _ < _ => pose proof (Z.mod_pos_bound a (2 ^ 64)); lia end).
  all: rewrite wrap64_small by (unfold is_u64; lia); lia.
Qed.

Lemma next_cuckoo_positive pow v :
  (60 < length v)%nat -> exists n, next_cuckoo_difficulty pow v = Ok n /\ 1 <= n.
Proof.
  intros Hl. unfold next_cuckoo_difficulty. change (Z.to_nat DIFFICULTY_ADJUST_WINDOW) with 60%nat.
  destruct (lookup_lt_is_Some_2 v 0) as [h0 ->]; [lia|].
  destruct (lookup_lt_is_Some_2 v 60) as [h60 ->]; [lia|].
  cbn [unwrap bind]. eexists. split; [reflexivity|]. unfold MIN_DIFFICULTY. lia.
Qed.

Lemma to_num_insert (m : DifficultyNumber) algo n t :
  to_num (from_dic_number (<[algo := n]> m)) t = if decide (algo = t) then n else default 0 (m !! t).
Proof.
  unfold to_num, from_dic_number. cbn [num]. case_decide as Ht.
  - subst. by rewrite lookup_insert_eq.
  - by rewrite lookup_insert_ne.
Qed.

Lemma next_difficulty_total c height algo first cursor :
  info_ok first -> Forall info_ok cursor ->
  exists h h1,
    next_difficulty c height algo (first :: cursor) = Ok h
    /\ next_difficulty_era1 c height algo (first :: cursor) = Ok h1
    /\ 1 <= to_num (difficulty h) algo /\ 1 <= to_num (difficulty h1) algo
    /\ (forall t, t <> algo ->
          to_num (difficulty h) t = to_num (difficulty first) t
          /\ to_num (difficulty h1) t = to_num (difficulty first) t).
Proof.
  intros Hf Hc.
  destruct (data_vector_spec c first cursor 1) as (v1 & Hv1 & Hl1 & _ & _ & Hlast1); [done..|].
  destruct (data_vector_spec c first cursor DIFFICULTY_ADJUST_WINDOW)
    as (v60 & Hv60 & Hl60 & _ & _ & Hlast60); [done..|].
  assert (Hnext : exists h, next_difficulty c height algo (first :: cursor) = Ok h
    /\ 1 <= to_num (difficulty h) algo
    /\ (forall t, t <> algo -> to_num (difficulty h) t = to_num (difficulty first) t)).
  { unfold next_difficulty. destruct algo; rewrite ?Hv1, ?Hv60; cbn [bind]; rewrite ?Hlast1, ?Hlast60;
      cbn [unwrap bind].
    1-2: edestruct (fun p => next_cuckoo_positive p v60) as (n & -> & Hn); [rewrite Hl60; vm_decide|].
    3: destruct (next_hash_positive RandomX v1) as (n & -> & Hn); [by left|lia|].
    4: destruct (next_hash_positive ProgPow v1) as (n & -> & Hn); [by right|lia|].
    all: cbn [bind]; eexists; split; [reflexivity|]; cbn [difficulty from_diff_scaling].
    all: split; [by rewrite to_num_insert, decide_True|].
    all: intros t Ht; by rewrite to_num_insert, decide_False. }
  destruct Hnext as (h & Hh & Hpos & Hloc). exists h. unfold next_difficulty_era1. rewrite Hv60.
  cbn [bind]. rewrite Hlast60. cbn [unwrap bind]. eexists. split_and!; [done|reflexivity|done| |].
  - cbn [difficulty from_diff_scaling]. rewrite to_num_insert, decide_True by done.
    destruct algo; unfold next_cuckoo_difficulty_era1, next_randomx_difficulty_era1,
      next_progpow_difficulty_era1, next_difficulty_window, MIN_DIFFICULTY, MIN_DIFFICULTY_RANDOMX,
      MIN_DIFFICULTY_PROGPOW; lia.
  - intros t Ht. split; [by apply Hloc|]. cbn [difficulty from_diff_scaling].
    by rewrite to_num_insert, decide_False.
Qed.

(** Retargeting is total and local, before and after the fork: on any
    non-empty chain it does not panic, the algorithm of the last block gets a new
    positive difficulty and every other algorithm keeps the one it had. *)
Theorem next_difficulty_local c height algo first cursor :
  info_ok first -> Forall info_ok cursor ->
  exists h h1,
    next_difficulty c height algo (first :: cursor) = Ok h
    /\ next_difficulty_era1 c height algo (first :: cursor) = Ok h1
    /\ 1 <= to_num (difficulty h) algo /\ 1 <= to_num (difficulty h1) algo
    /\ (forall t, t <> algo ->
          to_num (difficulty h) t = to_num (difficulty first) t
          /\ to_num (difficulty h1) t = to_num (difficulty first) t).
Proof. apply next_difficulty_total. Qed.

Lemma next_difficulty_local_witness :
  exists h, next_difficulty Mainnet 1 RandomX [genesis_info] = Ok h
    /\ to_num (difficulty h) ProgPow = 5000.
Proof.
  destruct (next_difficulty_local Mainnet 1 RandomX genesis_info [] genesis_info_ok (List.Forall_nil _))
    as (h & h1 & Hh & _ & _ & _ & Hl).
  exists h. split; [done|]. destruct (Hl ProgPow) as [-> _]; [done|]. reflexivity.
Defined.

Lemma sorted_rank (s : list Z) (i : nat) (m : Z) :
  StronglySorted Z.le s -> s !! i = Some m ->
  (S i <= length (filter (fun t => (t <= m)%Z) s))%nat
  /\ (length s - i <= length (filter (fun t => (m <= t)%Z) s))%nat.
Proof.
  intros Hs Hm. pose proof (lookup_lt_Some _ _ _ Hm) as Hi.
  assert (Hlow : Forall (fun t => t <= m) (take (S i) s)).
  { apply Forall_lookup. intros j t Hj. apply lookup_take_Some in Hj as [Hj Hlt].
    eapply (StronglySorted_lookup_le s j i); [done|lia|done|done]. }
  assert (Hhigh : Forall (fun t => m <= t) (drop i s)).
  { apply Forall_lookup. intros j t Hj. rewrite lookup_drop in Hj.
    eapply (StronglySorted_lookup_le s i (i + j)); [done|lia|done|done]. }
  split.
  - rewrite <- (take_drop (S i) s) at 1. rewrite filter_app, length_app.
    rewrite (filter_all _ (take (S i) s)) by (by apply Forall_forall). rewrite length_take. lia.
  - rewrite <- (take_drop i s) at 2. rewrite filter_app, length_app.
    rewrite (filter_all _ (drop i s)) by (by apply Forall_forall). rewrite length_drop. lia.
Qed.

(** The median is taken of eight timestamps (the header's and seven of the
    chain): it is one of them, at least five are not after it and at least four
    are not before it, so it is the upper of the two middle ones. *)
Theorem timestamp_median_rank c header_ts first cursor :
  info_ok first -> Forall info_ok cursor ->
  exists d m, ts_data_to_vector c (first :: cursor) 6 = Ok d
    /\ timestamp_median c header_ts (first :: cursor) = Ok m
    /\ let ts := map timestamp d ++ [header_ts] in
       length ts = 8%nat /\ m ∈ ts
       /\ (5 <= length (filter (fun t => (t <= m)%Z) ts))%nat
       /\ (4 <= length (filter (fun t => (m <= t)%Z) ts))%nat.
Proof.
  intros Hf Hc. destruct (gather_spec c first cursor 6) as (l & Hg & Hl & _ & _); [done..|].
  unfold timestamp_median, ts_data_to_vector. rewrite Hg. cbn [bind].
  set (ts := map timestamp (first :: l) ++ [header_ts]).
  assert (Hlen : length ts = 8%nat).
  { subst ts. rewrite length_app, length_map. simpl. rewrite Hl. reflexivity. }
  pose proof (merge_sort_Permutation Z.le ts) as Hp.
  assert (Hs : StronglySorted Z.le (merge_sort Z.le ts)) by (apply StronglySorted_merge_sort; apply _).
  set (s := merge_sort Z.le ts) in *.
  assert (Hls : length s = 8%nat) by (by rewrite (Permutation_length Hp)).
  rewrite Hls. change (8 mod 2 =? 0)%nat with true. change (8 / 2)%nat with 4%nat.
  destruct (lookup_lt_is_Some_2 s 4) as [m Hm]; [lia|]. rewrite Hm. cbn [unwrap].
  destruct (sorted_rank s 4 m Hs Hm) as [Hlo Hhi].
  exists (first :: l), m. split_and!; [done|done|done| | |].
  - fold ts. rewrite <- Hp. by eapply list_elem_of_lookup_2.
  - fold ts. by rewrite <- Hp.
  - fold ts. rewrite <- Hp. lia.
Qed.

Lemma timestamp_median_rank_witness :
  exists m, timestamp_median Mainnet 1000100 [genesis_info] = Ok m.
Proof.
  destruct (timestamp_median_rank Mainnet 1000100 genesis_info [] genesis_info_ok (List.Forall_nil _))
    as (d & m & _ & Hm & _). by exists m.
Defined.
