(* ===== verification/Feijoada.v ===== *)
(** * Feijoada: which algorithm mines the next block

    [core/src/core/block/feijoada.rs], [next_policy] of [core/src/consensus.rs] and
    the policy accessors of [core/src/global.rs].  A policy gives each algorithm
    its share of 100 blocks; the bottles of a header count the blocks mined so far
    in the current hundred.  [choose_algo] compares in [f32]. *)
From S2P Require Import Prelude Ser Float Global Pow Reward.

Abbreviation Policy := (gmap PoWType Z).

Record AllowPolicy := mkAllowPolicy { allow_height : Z; allow_value : Z }.

Record PolicyConfig := mkPolicyConfig {
  allowed_policies : list AllowPolicy;
  policies : list Policy;
}.

(** [max_by] keeps the last of the greatest. *)
Definition max_by {A} (cmp : A -> A -> comparison) (l : list A) : option A :=
  match l with
  | [] => None
  | a :: l => Some (foldl (fun best x => match cmp best x with Gt => best | _ => x end) a l)
  end.

(** [FuzzySearch::search]: the latest policy at or below the height, else the
    last of the list ([expect] on an empty one). *)
Definition search (l : list AllowPolicy) (height : Z) : outcome () Z :=
  match max_by (fun x y => Z.compare (allow_height x) (allow_height y))
          (filter (fun a => allow_height a <= height) l) with
  | Some p => Ok (allow_value p)
  | None => let? p := unwrap (last l) in Ok (allow_value p)
  end.

Definition get_bottles_default : Policy :=
  <[ProgPow := 0]> (<[RandomX := 0]> (<[Cuckatoo := 0]> (<[Cuckaroo := 0]> ∅))).

Definition policy_of (randomx progpow cuckatoo cuckaroo : Z) : Policy :=
  <[Cuckaroo := cuckaroo]> (<[Cuckatoo := cuckatoo]>
    (<[ProgPow := progpow]> (<[RandomX := randomx]> get_bottles_default))).

Definition default_config : PolicyConfig :=
  mkPolicyConfig
    [mkAllowPolicy 0 (Z.shiftl 1 0);
     mkAllowPolicy (BLOCK_ERA_1 + 1) (Z.shiftl 1 1);
     mkAllowPolicy (BLOCK_ERA_2 + 1) (Z.shiftl 1 2);
     mkAllowPolicy (BLOCK_ERA_3 + 1) (Z.shiftl 1 3);
     mkAllowPolicy (BLOCK_ERA_4 + 1) (Z.shiftl 1 4);
     mkAllowPolicy (BLOCK_ERA_5 + 1) (Z.shiftl 1 5)]
    [policy_of 60 38 2 0; policy_of 60 38 2 0; policy_of 48 48 4 0;
     policy_of 5 40 55 0; policy_of 5 20 75 0; policy_of 5 10 85 0].

(** [values().fold], on [u32]. *)
Definition sum_values (p : Policy) : Z := map_fold (fun _ x acc => wrap32 (x + acc)) 0 p.
Definition count_beans (bottles : Policy) : Z := Z.max (sum_values bottles) 1.
Definition next_should_reset (bottle : Policy) : bool := count_beans bottle =? 100.

Definition next_block_bottles (pow : PoWType) (bottle : Policy) : Policy :=
  let new_bottle := if next_should_reset bottle then get_bottles_default else bottle in
  <[pow := wrap32 (default 0 (new_bottle !! pow) + 1)]> new_bottle.

Definition is_allowed_policy (allowed : list AllowPolicy) (height policy : Z) : outcome () bool :=
  let? allow := search allowed height in
  Ok (negb (Z.land allow (1 <<! policy) =? 0)).

(** [scores[a]] panics when the bottles have no entry for the algorithm. *)
Definition score (bottles : Policy) (bean_total : Z) (algo : PoWType) : outcome () spec_float :=
  let? beans := unwrap (bottles !! algo) in
  Ok (f32_div (f32_mul (f32_of_Z 100) (f32_of_Z beans)) (f32_of_Z bean_total)).

Definition policy_vec (policy : Policy) : list (PoWType * spec_float) :=
  map (fun e => (e.1, f32_of_Z e.2))
    (merge_sort entry_le (filter (fun e => 0 < e.2) (map_to_list policy))).

(** The greatest gap between share and score; [None] of [partial_cmp] panics. *)
Definition choose_algo (policy bottles : Policy) : outcome () PoWType :=
  let bean_total := count_beans bottles in
  let? gaps := foldM (fun acc '(a, v) =>
                 let? s := score bottles bean_total a in Ok (acc ++ [(a, f32_sub v s)]))
                 (policy_vec policy) [] in
  match gaps with
  | [] => Panic
  | g :: gaps =>
      let? best := foldM (fun best x =>
                     match f_partial_cmp best.2 x.2 with
                     | None => Panic
                     | Some Gt => Ok best
                     | Some _ => Ok x
                     end) gaps g in
      Ok best.1
  end.

Definition get_policies (config : PolicyConfig) (index : Z) : option Policy :=
  policies config !! Z.to_nat index.

Definition get_emitted_policy (height : Z) : Z :=
  if height <=? BLOCK_ERA_1 then 0
  else if height <=? BLOCK_ERA_2 then 1
  else if height <=? BLOCK_ERA_3 then 2
  else if height <=? BLOCK_ERA_4 then 3
  else if height <=? BLOCK_ERA_5 then 4
  else 5.

Definition next_policy (config : PolicyConfig) (policy : Z) (cursor : list Policy)
    : outcome () (PoWType * Policy) :=
  let bottles := match cursor with
                 | p_bottles :: _ => p_bottles
                 | [] => get_bottles_default
                 end in
  let? p := unwrap (get_policies config policy) in
  let? pow_type := choose_algo p bottles in
  Ok (pow_type, next_block_bottles pow_type bottles).

(** Serialization of a policy. *)
Definition write_policy_entry (e : PoWType * Z) : list Z := write_u8 (PoWType_to_u8 e.1) ++ write_u32 e.2.
Definition write_policy (p : Policy) : list Z :=
  write_u64 (Z.of_nat (size p)) ++ concat (map write_policy_entry (merge_sort entry_le (map_to_list p))).

Fixpoint read_policy_entries (len : nat) (result : Policy) : read Policy :=
  match len with
  | O => ret result
  | S len =>
      b <- read_u8 ;; pow <- lift (PoWType_try_from b) ;; count <- read_u32 ;;
      read_policy_entries len (<[pow := count]> result)
  end.

Definition read_policy : read Policy :=
  len <- read_u64 ;; read_policy_entries (Z.to_nat len) ∅.

(** ** Runs *)

(** The bottles after [n] blocks that follow the policy, and the algorithms that
    mined them. *)
Fixpoint run (config : PolicyConfig) (policy : Z) (n : nat) (bottles : Policy)
    : outcome () (list PoWType * Policy) :=
  match n with
  | O => Ok ([], bottles)
  | S n =>
      let? '(algo, bottles) := next_policy config policy [bottles] in
      let? '(algos, bottles) := run config policy n bottles in
      Ok (algo :: algos, bottles)
  end.
Definition share (algos : list PoWType) (t : PoWType) : Z :=
  Z.of_nat (length (filter (fun a => a = t) algos)).

(** A hundred blocks from the default bottles, or from a full hundred, mine each
    algorithm exactly its share and leave the bottles full. *)
Definition fair_from (i : Z) (p bottles : Policy) : bool :=
  match run default_config i 100 bottles with
  | Ok (algos, b) =>
      bool_decide (b = p)
      && forallb (fun t => share algos t =? default 0 (p !! t)) [Cuckaroo; Cuckatoo; RandomX; ProgPow]
  | _ => false
  end.

Lemma default_policies_fair :
  forallb (fun '(i, p) => fair_from i p get_bottles_default && fair_from i p p)
    (imap (fun i p => (Z.of_nat i, p)) (policies default_config)) = true.
Proof. vm_compute. reflexivity. Qed.

Lemma fair_from_spec i p b :
  fair_from i p b = true ->
  exists algos, run default_config i 100 b = Ok (algos, p)
    /\ forall t, share algos t = default 0 (p !! t).
Proof.
  unfold fair_from. destruct (run default_config i 100 b) as [[algos b']|e|]; try done.
  intros [Hb Ht]%andb_true_iff. apply bool_decide_eq_true in Hb as ->. exists algos. split; [done|].
  intros t. rewrite forallb_forall in Ht. apply Z.eqb_eq, Ht. destruct t; simpl; tauto.
Qed.

Lemma run_add config i n m b algos b' :
  run config i n b = Ok (algos, b') ->
  run config i (n + m) b = let? '(algos2, b2) := run config i m b' in Ok (algos ++ algos2, b2).
Proof.
  revert b algos. induction n as [|n IH]; intros b algos H; cbn [run Nat.add] in *.
  - injection H as <- <-. by destruct (run config i m b) as [[]| |].
  - destruct (next_policy config i [b]) as [[a b1]| |]; cbn [bind] in *; try done.
    destruct (run config i n b1) as [[l b2]| |] eqn:Hr; cbn [bind] in *; try done.
    injection H as <- <-. rewrite (IH _ _ Hr). by destruct (run config i m b2) as [[]| |].
Qed.

Lemma share_app l1 l2 t : share (l1 ++ l2) t = share l1 t + share l2 t.
Proof. unfold share. rewrite filter_app, length_app. lia. Qed.

(** C36. The schedule is fair: under each of the six era policies, a chain that
    starts from the default bottles and always mines the chosen algorithm gives
    every algorithm exactly its share of each hundred blocks, for ever; the choice
    never panics. *)
Theorem feijoada_fair i p k :
  get_policies default_config i = Some p ->
  0 <= i ->
  exists algos b,
    run default_config i (100 * k) get_bottles_default = Ok (algos, b)
    /\ forall t, share algos t = Z.of_nat k * default 0 (p !! t).
Proof.
  intros Hp Hi.
  pose proof default_policies_fair as H. rewrite forallb_forall in H.
  specialize (H (i, p)). apply andb_true_iff in H as [Hd Hfull].
  2: { apply list_elem_of_In, list_elem_of_lookup. exists (Z.to_nat i).
       unfold get_policies in Hp. rewrite list_lookup_imap, Hp. simpl. by rewrite Z2Nat.id. }
  enough (exists algos b, run default_config i (100 * k) get_bottles_default = Ok (algos, b)
    /\ (b = get_bottles_default \/ b = p)
    /\ forall t, share algos t = Z.of_nat k * default 0 (p !! t)) as (algos & b & ? & _ & ?) by eauto.
  induction k as [|k (algos & b & Hr & Hb & Hs)].
  { exists [], get_bottles_default. split_and!; [done|by left|done]. }
  assert (Hf : fair_from i p b = true) by (by destruct Hb as [->| ->]).
  apply fair_from_spec in Hf as (l & Hl & Hsl).
  exists (algos ++ l), p. split_and!.
  - replace (100 * S k)%nat with (100 * k + 100)%nat by lia. rewrite (run_add _ _ _ _ _ _ _ Hr), Hl. done.
  - by right.
  - intros t. rewrite share_app, Hs, Hsl. lia.
Qed.

Lemma feijoada_fair_witness :
  exists algos b, run default_config 3 300 get_bottles_default = Ok (algos, b)
    /\ share algos Cuckatoo = 165.
Proof.
  destruct (feijoada_fair 3 (policy_of 5 40 55 0) 3) as (algos & b & Hr & Hs);
    [vm_compute; reflexivity|lia|].
  exists algos, b. split; [exact Hr|]. rewrite Hs. reflexivity.
Defined.

Lemma search_default height :
  0 <= height -> search (allowed_policies default_config) height = Ok (2 ^ get_emitted_policy height).
Proof.
  intros Hh. unfold search, get_emitted_policy. cbn [allowed_policies default_config].
  rewrite !filter_cons, filter_nil. cbn [allow_height]. schedule.
  repeat (case_decide; [|lia]).
  repeat (match goal with |- context [if ?a <=? ?b then _ else _] => destruct (Z.leb_spec a b) end;
    [repeat (rewrite decide_False by lia); reflexivity|rewrite decide_True by lia]).
  reflexivity.
Qed.

Lemma emitted_range height : 0 <= get_emitted_policy height < 6.
Proof. unfold get_emitted_policy. repeat case_match; lia. Qed.

(** The shift count is taken modulo 64. *)
Lemma allowed_policy_mod height policy :
  0 <= height -> 0 <= policy ->
  is_allowed_policy (allowed_policies default_config) height policy
    = Ok (bool_decide (policy mod 64 = get_emitted_policy height)).
Proof.
  intros Hh Hp. pose proof (emitted_range height) as He.
  assert (Hm : 0 <= policy mod 64 < 64) by (apply Z.mod_pos_bound; lia).
  unfold is_allowed_policy. rewrite search_default by done. cbn [bind]. f_equal.
  assert (Hs : 1 <<! policy = Z.shiftl 1 (policy mod 64)).
  { unfold u64_shl. apply wrap64_small. unfold is_u64. rewrite Z.shiftl_1_l.
    split; [apply Z.pow_nonneg; lia|apply Z.pow_lt_mono_r; lia]. }
  rewrite Hs, land_bit_zero, negb_involutive, Z.pow2_bits_eqb by lia.
  rewrite (Z.eqb_sym (get_emitted_policy height)).
  destruct (Z.eqb_spec (policy mod 64) (get_emitted_policy height));
    [by rewrite bool_decide_true|by rewrite bool_decide_false].
Qed.

Lemma allowed_is_emitted height policy :
  0 <= height -> 0 <= policy -> is_Some (get_policies default_config policy) ->
  is_allowed_policy (allowed_policies default_config) height policy = Ok true <->
  policy = get_emitted_policy height.
Proof.
  intros Hh Hp Hsome. rewrite allowed_policy_mod by done. unfold get_policies in Hsome.
  apply lookup_lt_is_Some_1 in Hsome. change (length (policies default_config)) with 6%nat in Hsome.
  rewrite Z.mod_small by lia. split; [|by intros ->; rewrite bool_decide_true].
  intros [= H]. by apply bool_decide_eq_true in H.
Qed.

(** Exactly the policy of the height's era can be used: of the policies that
    exist, [is_allowed_policy] with the default configuration admits the emitted
    one and no other.  (The shift count is taken modulo 64, so an index that names
    no policy can pass the check; it has no policy to choose from.) *)
Theorem era_policy_only height policy :
  0 <= height -> 0 <= policy ->
  is_allowed_policy (allowed_policies default_config) height policy
    = Ok (bool_decide (policy mod 64 = get_emitted_policy height))
  /\ (is_Some (get_policies default_config policy) ->
      is_allowed_policy (allowed_policies default_config) height policy = Ok true <->
      policy = get_emitted_policy height)
  /\ (get_policies default_config policy = None ->
      forall cursor, next_policy default_config policy cursor = Panic).
Proof.
  intros Hh Hp. split; [by apply allowed_policy_mod|]. split; [by apply allowed_is_emitted|].
  intros Hn cursor. unfold next_policy. by rewrite Hn.
Qed.

Lemma era_policy_only_witness :
  is_allowed_policy (allowed_policies default_config) 1000000 1 = Ok true.
Proof. apply (era_policy_only 1000000 1); [lia|lia|eexists; reflexivity|reflexivity]. Defined.

Lemma foldM_panics {E S A} (body : S -> A -> outcome E S) l a s :
  a ∈ l -> (forall s, body s a = Panic) -> (forall s x e, body s x <> Err e) ->
  foldM body l s = Panic.
Proof.
  intros Ha Hp He. revert s. induction l as [|x l IH]; intros s; [by apply not_elem_of_nil in Ha|].
  cbn [foldM]. apply elem_of_cons in Ha as [<-|Ha]; [by rewrite Hp|].
  destruct (body s x) eqn:Hx; cbn [bind]; [by apply IH|by apply He in Hx|done].
Qed.

(** The bottles of a header are trusted: if they lack an entry for an
    algorithm of the policy, choosing the algorithm of the next block panics. *)
Lemma missing_bottle_panics (policy bottles : Policy) t n :
  policy !! t = Some n -> 0 < n -> bottles !! t = None ->
  choose_algo policy bottles = Panic.
Proof.
  intros Ht Hn Hb. unfold choose_algo.
  rewrite (foldM_panics _ (policy_vec policy) (t, f32_of_Z n) []); [done| | |].
  - unfold policy_vec. apply (list_elem_of_fmap_2 (fun e : PoWType * Z => (e.1, f32_of_Z e.2)) _ (t, n)).
    rewrite merge_sort_Permutation. apply list_elem_of_filter. split; [done|].
    by apply elem_of_map_to_list.
  - intros s. unfold score. by rewrite Hb.
  - intros s [a v] e. unfold score. destruct (bottles !! a); done.
Qed.

Lemma missing_bottle_panics_witness : choose_algo (policy_of 60 38 2 0) ∅ = Panic.
Proof. apply (missing_bottle_panics (policy_of 60 38 2 0) ∅ RandomX 60); [reflexivity|lia|reflexivity]. Defined.
