(* ===== verification/Committed.v ===== *)
(** * Commitments

    [core/src/core/committed.rs]: summing Pedersen commitments and kernel offsets,
    and the balance check.  The curve operations belong to the [secp256k1] library;
    they are the class [Secp], and what its documentation promises of them is
    [SecpLaws]. *)
From S2P Require Import Prelude Ser.

Abbreviation Commitment := (array 33).
Abbreviation Signature := (array 64).
Abbreviation SecretKey := (array 32).
Abbreviation BlindingFactor := (array 32).

(** ** The curve library *)
Record RangeProof := mkRangeProof { rp_proof : list Z; plen : nat }.
#[export] Instance RangeProof_eq_dec : EqDecision RangeProof.
Proof. solve_decision. Defined.

Class Secp := {
  PublicKey : Type;
  to_pubkey : Commitment -> option PublicKey;
  verify_single : Signature -> Hash -> PublicKey -> bool;
  verify_bullet_proof_multi : list Commitment -> list RangeProof -> bool;
  secret_key_from_slice : array 32 -> option SecretKey;
  commit : Z -> SecretKey -> option Commitment;
  commit_value : Z -> option Commitment;
  commit_sum : list Commitment -> list Commitment -> option Commitment;
  blind_sum : list SecretKey -> list SecretKey -> option SecretKey;
  MAX_PROOF_SIZE : nat;
}.

(** ** Errors *)
Inductive committed_error : Type := Keychain | CommittedSecp | KernelSumMismatch | InvalidValue.

(** ** Blinding factors ([keychain/src/types.rs]) *)
Definition ZERO_KEY : SecretKey := from_vec [].
Definition blinding_zero : BlindingFactor := ZERO_KEY.
Definition commit_to_zero_value : Commitment := from_vec [0].

Section Sums.
Context `{Secp}.

Definition secret_key (b : BlindingFactor) : option SecretKey :=
  if decide (b = blinding_zero) then Some ZERO_KEY else secret_key_from_slice b.

Definition to_secrets (bf : list BlindingFactor) : list SecretKey :=
  omap secret_key (filter (fun x => x <> blinding_zero) bf).

Definition sum_commits (positive negative : list Commitment) : outcome committed_error Commitment :=
  let positive := filter (fun x => x <> commit_to_zero_value) positive in
  let negative := filter (fun x => x <> commit_to_zero_value) negative in
  ok_or (commit_sum positive negative) CommittedSecp.

Definition sum_kernel_offsets (positive negative : list BlindingFactor)
    : outcome committed_error BlindingFactor :=
  let positive := to_secrets positive in
  let negative := to_secrets negative in
  match positive with
  | [] => Ok blinding_zero
  | _ => ok_or (blind_sum positive negative) CommittedSecp
  end.

(** ** The [Committed] trait *)
Class Committed (T : Type) := {
  inputs_committed : T -> list Commitment;
  outputs_committed : T -> list Commitment;
  kernels_committed : T -> list Commitment;
}.

Context {T : Type} `{Committed T}.

Definition sum_kernel_excesses (self : T) (offset : BlindingFactor)
    : outcome committed_error (Commitment * Commitment) :=
  let? kernel_sum := sum_commits (kernels_committed self) [] in
  let? commits := if decide (offset <> blinding_zero) then
                    let? key := ok_or (secret_key offset) Keychain in
                    let? offset_commit := ok_or (commit 0 key) CommittedSecp in
                    Ok [kernel_sum; offset_commit]
                  else Ok [kernel_sum] in
  let? kernel_sum_plus_offset := ok_or (commit_sum commits []) CommittedSecp in
  Ok (kernel_sum, kernel_sum_plus_offset).

(** [checked_abs] fails on the least [i64]; [commit_value] is unwrapped. *)
Definition sum_commitments (self : T) (overage : Z) : outcome committed_error Commitment :=
  let input_commits := inputs_committed self in
  let output_commits := outputs_committed self in
  if overage =? 0 then sum_commits output_commits input_commits
  else if overage =? - 2 ^ 63 then Err InvalidValue
  else
    let? over_commit := unwrap (commit_value (Z.abs overage)) in
    if overage <? 0 then sum_commits output_commits (input_commits ++ [over_commit])
    else sum_commits (output_commits ++ [over_commit]) input_commits.

Definition verify_kernel_sums (self : T) (overage : Z) (kernel_offset : BlindingFactor)
    : outcome committed_error (Commitment * Commitment) :=
  let? utxo_sum := sum_commitments self overage in
  let? '(kernel_sum, kernel_sum_plus_offset) := sum_kernel_excesses self kernel_offset in
  if decide (utxo_sum <> kernel_sum_plus_offset) then Err KernelSumMismatch
  else Ok (utxo_sum, kernel_sum).

End Sums.

(** ** What the curve promises

    Commitments and keys stand for points of an abelian group [G]: sums of
    commitments and of keys are sums of points, a commitment is determined by its
    point, committing to a value or to a key is additive. *)
Class SecpLaws `{Secp} (G : Type) := {
  g0 : G;
  gadd : G -> G -> G;
  gopp : G -> G;
  gadd_comm : forall a b, gadd a b = gadd b a;
  gadd_assoc : forall a b c, gadd a (gadd b c) = gadd (gadd a b) c;
  gadd_0 : forall a, gadd a g0 = a;
  gadd_opp : forall a, gadd a (gopp a) = g0;

  point : Commitment -> G;
  key_point : SecretKey -> G;
  point_zero : point commit_to_zero_value = g0;
  key_point_zero : key_point ZERO_KEY = g0;

  commit_sum_point : forall ps ns c, commit_sum ps ns = Some c ->
    gadd (point c) (foldr (fun x acc => gadd (point x) acc) g0 ns)
    = foldr (fun x acc => gadd (point x) acc) g0 ps;
  commit_sum_canonical : forall ps ns ps' ns' c c',
    commit_sum ps ns = Some c -> commit_sum ps' ns' = Some c' -> point c = point c' -> c = c';
  value_point : Z -> G;
  value_point_add : forall a b, value_point (a + b) = gadd (value_point a) (value_point b);
  commit_value_point : forall v c, commit_value v = Some c -> point c = value_point v;
  commit_key_point : forall k c, commit 0 k = Some c -> point c = key_point k;
  blind_sum_point : forall ps ns k, blind_sum ps ns = Some k ->
    gadd (key_point k) (foldr (fun x acc => gadd (key_point x) acc) g0 ns)
    = foldr (fun x acc => gadd (key_point x) acc) g0 ps;
  secret_key_bytes : forall b k, secret_key_from_slice b = Some k -> k = b;
}.
