(* ===== verification/Transaction.v ===== *)
(** * Transactions

    [core/src/core/transaction.rs]: inputs, outputs, kernels, the transaction body
    with its sorting, weight and cut-through rules, cut-through itself (the
    in-place index loop), aggregation and deaggregation, and the binary encoding.
    Inputs, outputs and kernels are ordered and compared by their hash
    ([hashable_ord!]). *)
From S2P Require Import Prelude Ser Global Committed.

(** ** Features *)
Inductive KernelFeatures : Type := KernelPlain | KernelCoinbase | HeightLocked.
Inductive OutputFeatures : Type := Plain | Coinbase.
#[export] Instance KernelFeatures_eq_dec : EqDecision KernelFeatures.
Proof. solve_decision. Defined.
#[export] Instance OutputFeatures_eq_dec : EqDecision OutputFeatures.
Proof. solve_decision. Defined.

Definition kernel_features_u8 (f : KernelFeatures) : Z :=
  match f with KernelPlain => 0 | KernelCoinbase => 1 | HeightLocked => 2 end.
Definition write_kernel_features (f : KernelFeatures) : list Z := write_u8 (kernel_features_u8 f).
Definition read_kernel_features : read KernelFeatures :=
  b <- read_u8 ;;
  match b with
  | 0 => ret KernelPlain
  | 1 => ret KernelCoinbase
  | 2 => ret HeightLocked
  | _ => fail CorruptedData
  end.

Definition output_features_u8 (f : OutputFeatures) : Z := match f with Plain => 0 | Coinbase => 1 end.
Definition write_output_features (f : OutputFeatures) : list Z := write_u8 (output_features_u8 f).
Definition read_output_features : read OutputFeatures :=
  b <- read_u8 ;;
  match b with
  | 0 => ret Plain
  | 1 => ret Coinbase
  | _ => fail CorruptedData
  end.

(** ** Inputs, outputs, kernels *)
Record Input := mkInput { in_features : OutputFeatures; in_commit : Commitment }.
Record Output := mkOutput { out_features : OutputFeatures; out_commit : Commitment; out_proof : RangeProof }.
Record OutputIdentifier := mkOutputIdentifier { id_features : OutputFeatures; id_commit : Commitment }.
Record TxKernel := mkTxKernel {
  features : KernelFeatures;
  fee : Z;
  lock_height : Z;
  excess : Commitment;
  excess_sig : Signature;
}.

Definition from_output (o : Output) : OutputIdentifier := mkOutputIdentifier (out_features o) (out_commit o).
Definition from_input (i : Input) : OutputIdentifier := mkOutputIdentifier (in_features i) (in_commit i).
Definition into_output (d : OutputIdentifier) (p : RangeProof) : Output :=
  mkOutput (id_features d) (id_commit d) p.

Definition write_input (i : Input) : list Z := write_output_features (in_features i) ++ write_array (in_commit i).
Definition read_input : read Input :=
  f <- read_output_features ;; c <- read_array 33 ;; ret (mkInput f c).

Definition write_range_proof (p : RangeProof) : list Z := write_bytes (take (plen p) (rp_proof p)).

(** Only the hash leaves the range proof out. *)
Definition write_output (mode : SerializationMode) (o : Output) : list Z :=
  write_output_features (out_features o) ++ write_array (out_commit o)
  ++ match mode with HashMode => [] | Full => write_range_proof (out_proof o) end.

Definition write_output_id (d : OutputIdentifier) : list Z :=
  write_output_features (id_features d) ++ write_array (id_commit d).
Definition read_output_id : read OutputIdentifier :=
  f <- read_output_features ;; c <- read_array 33 ;; ret (mkOutputIdentifier f c).

Definition write_kernel (k : TxKernel) : list Z :=
  write_kernel_features (features k) ++ write_u64 (fee k) ++ write_u64 (lock_height k)
  ++ write_array (excess k) ++ write_array (excess_sig k).
Definition read_kernel : read TxKernel :=
  f <- read_kernel_features ;; fee <- read_u64 ;; lock_height <- read_u64 ;;
  excess <- read_array 33 ;; sig <- read_array 64 ;; ret (mkTxKernel f fee lock_height excess sig).

Definition kernel_features (lock_height : Z) : KernelFeatures :=
  if lock_height >? 0 then HeightLocked else KernelPlain.
Definition with_fee (k : TxKernel) (fee : Z) : TxKernel :=
  mkTxKernel (features k) fee (lock_height k) (excess k) (excess_sig k).
Definition with_lock_height (k : TxKernel) (lock_height : Z) : TxKernel :=
  mkTxKernel (kernel_features lock_height) (fee k) lock_height (excess k) (excess_sig k).

(** ** Bodies and transactions *)
Record TransactionBody := mkBody {
  inputs : list Input;
  outputs : list Output;
  kernels : list TxKernel;
}.
Record Transaction := mkTransaction { offset : BlindingFactor; body : TransactionBody }.

Inductive Weighting : Type := AsTransaction | AsLimitedTransaction (max_weight : Z) | AsBlock | NoLimit.

Inductive tx_error : Type :=
| TxSecp
| TooHeavy
| TxCommitted (e : committed_error)
| AggregationError
| CutThrough
| InvalidOutputFeatures
| InvalidKernelFeatures
| IncorrectSignature
| TxSerialization (e : ser_error).

#[export] Instance committed_body : Committed TransactionBody := {
  inputs_committed b := map in_commit (inputs b);
  outputs_committed b := map out_commit (outputs b);
  kernels_committed b := map excess (kernels b);
}.
#[export] Instance committed_tx : Committed Transaction := {
  inputs_committed t := inputs_committed (body t);
  outputs_committed t := outputs_committed (body t);
  kernels_committed t := kernels_committed (body t);
}.

Definition body_empty : TransactionBody := mkBody [] [] [].
Definition tx_empty : Transaction := mkTransaction blinding_zero body_empty.

Definition body_fee (b : TransactionBody) : Z := foldl (fun acc k => sat_add acc (fee k)) 0 (kernels b).
Definition body_overage (b : TransactionBody) : Z := wrap_i64 (body_fee b).

Definition weight (input_len output_len kernel_len : Z) : Z :=
  Z.max (sat_sub (sat_add (sat_mul output_len 4) kernel_len) input_len) 1.

Definition weight_as_block (input_len output_len kernel_len : Z) : Z :=
  sat_add (sat_add (sat_mul input_len BLOCK_INPUT_WEIGHT) (sat_mul output_len BLOCK_OUTPUT_WEIGHT))
    (sat_mul kernel_len BLOCK_KERNEL_WEIGHT).

Definition len {A} (l : list A) : Z := Z.of_nat (length l).

Definition body_weight (b : TransactionBody) : Z :=
  weight (len (inputs b)) (len (outputs b)) (len (kernels b)).
Definition body_weight_as_block (b : TransactionBody) : Z :=
  weight_as_block (len (inputs b)) (len (outputs b)) (len (kernels b)).

(** The greatest lock height of the kernels. *)
Definition body_lock_height (b : TransactionBody) : Z := foldr (fun k m => Z.max (lock_height k) m) 0 (kernels b).

Definition fee_to_weight (t : Transaction) : Z := body_fee (body t) *! 1000 / body_weight (body t).

Definition verify_weight (c : ChainTypes) (weighting : Weighting) (b : TransactionBody) : outcome tx_error () :=
  let coinbase_weight := BLOCK_OUTPUT_WEIGHT + BLOCK_KERNEL_WEIGHT in
  let check max_weight := if body_weight_as_block b >? max_weight then Err TooHeavy else Ok tt in
  match weighting with
  | AsTransaction => check (sat_sub (max_block_weight c) coinbase_weight)
  | AsLimitedTransaction max_weight => check (sat_sub (Z.min (max_block_weight c) max_weight) coinbase_weight)
  | AsBlock => check (max_block_weight c)
  | NoLimit => Ok tt
  end.

Definition verify_output_features (b : TransactionBody) : outcome tx_error () :=
  if existsb (fun o => bool_decide (out_features o = Coinbase)) (outputs b)
  then Err InvalidOutputFeatures else Ok tt.
Definition verify_kernel_features (b : TransactionBody) : outcome tx_error () :=
  if existsb (fun k => bool_decide (features k = KernelCoinbase)) (kernels b)
  then Err InvalidKernelFeatures else Ok tt.
Definition verify_features (b : TransactionBody) : outcome tx_error () :=
  try? verify_output_features b then verify_kernel_features b.

Section Hashing.
Context `{Hasher}.

Definition input_hash (i : Input) : Hash := blake2b (write_input i).
Definition output_hash (o : Output) : Hash := blake2b (write_output HashMode o).
Definition kernel_hash (k : TxKernel) : Hash := blake2b (write_kernel k).

(** [sort_unstable] by hash; elements with the same hash are equal to it. *)
Definition hash_sorted_le {A} (h : A -> Hash) (a b : A) : Prop := hash_le (h a) (h b).
#[export] Instance hash_sorted_le_dec {A} (h : A -> Hash) : RelDecision (hash_sorted_le h).
Proof. intros a b. unfold hash_sorted_le. apply _. Defined.
Definition sort_by_hash {A} (h : A -> Hash) (l : list A) : list A := merge_sort (hash_sorted_le h) l.

Definition sort_body (b : TransactionBody) : TransactionBody :=
  mkBody (sort_by_hash input_hash (inputs b)) (sort_by_hash output_hash (outputs b))
    (sort_by_hash kernel_hash (kernels b)).

Definition verify_sorted (b : TransactionBody) : outcome tx_error () :=
  map_err TxSerialization
    (try? verify_sorted_and_unique (map input_hash (inputs b)) then
     try? verify_sorted_and_unique (map output_hash (outputs b)) then
     verify_sorted_and_unique (map kernel_hash (kernels b))).

Definition body_init (inputs : list Input) (outputs : list Output) (kernels : list TxKernel)
    (check_sorted : bool) : outcome tx_error TransactionBody :=
  let body := mkBody inputs outputs kernels in
  if check_sorted then try? verify_sorted body then Ok body
  else Ok (sort_body body).

(** Insertion where the binary search ends, unless the element is there. *)
Definition insert_sorted {A} (h : A -> Hash) (l : list A) (x : A) : list A :=
  match binary_search_by (fun y => hash_cmp (h y) (h x)) l with
  | Err e => take e l ++ x :: drop e l
  | _ => l
  end.
Definition with_input (b : TransactionBody) (i : Input) : TransactionBody :=
  mkBody (insert_sorted input_hash (inputs b) i) (outputs b) (kernels b).
Definition with_output (b : TransactionBody) (o : Output) : TransactionBody :=
  mkBody (inputs b) (insert_sorted output_hash (outputs b) o) (kernels b).
Definition with_kernel (b : TransactionBody) (k : TxKernel) : TransactionBody :=
  mkBody (inputs b) (outputs b) (insert_sorted kernel_hash (kernels b) k).

(** The two peekable iterators of [verify_cut_through], on hashes. *)
Fixpoint cut_through_scan (fuel : nat) (ins outs : list Hash) : outcome tx_error () :=
  match fuel with
  | O => Ok tt
  | S fuel =>
      match ins, outs with
      | ih :: ins', oh :: outs' =>
          match hash_cmp ih oh with
          | Lt => cut_through_scan fuel ins' outs
          | Gt => cut_through_scan fuel ins outs'
          | Eq => Err CutThrough
          end
      | _, _ => Ok tt
      end
  end.
Definition verify_cut_through (b : TransactionBody) : outcome tx_error () :=
  cut_through_scan (length (inputs b) + length (outputs b))
    (map input_hash (inputs b)) (map output_hash (outputs b)).

Definition body_validate_read (c : ChainTypes) (weighting : Weighting) (b : TransactionBody)
    : outcome tx_error () :=
  try? verify_weight c weighting b then
  try? verify_sorted b then
  verify_cut_through b.

Definition validate_read (c : ChainTypes) (t : Transaction) : outcome tx_error () :=
  try? body_validate_read c AsTransaction (body t) then verify_features (body t).

Definition tx_new (inputs : list Input) (outputs : list Output) (kernels : list TxKernel) : Transaction :=
  mkTransaction blinding_zero (sort_body (mkBody inputs outputs kernels)).
Definition with_offset (t : Transaction) (o : BlindingFactor) : Transaction := mkTransaction o (body t).

(** ** Cut-through

    The state of the loop: both vectors, overwritten in place, the two indices and
    the number of pairs cut. *)
Record cut_state := mkCut { c_ins : list Input; c_outs : list Output; i_idx : nat; o_idx : nat; ncut : nat }.

Definition cut_cond (s : cut_state) : bool :=
  (i_idx s <? length (c_ins s))%nat && (o_idx s <? length (c_outs s))%nat.

Definition cut_body (s : cut_state) : cut_state :=
  match c_ins s !! i_idx s, c_outs s !! o_idx s with
  | Some i, Some o =>
      match hash_cmp (input_hash i) (output_hash o) with
      | Lt => mkCut (<[(i_idx s - ncut s)%nat := i]> (c_ins s)) (c_outs s) (S (i_idx s)) (o_idx s) (ncut s)
      | Gt => mkCut (c_ins s) (<[(o_idx s - ncut s)%nat := o]> (c_outs s)) (i_idx s) (S (o_idx s)) (ncut s)
      | Eq => mkCut (c_ins s) (c_outs s) (S (i_idx s)) (S (o_idx s)) (S (ncut s))
      end
  | _, _ => s
  end.

(** [Vec::drain] of a range, dropped. *)
Definition drain {A} (a b : nat) (l : list A) : list A := take a l ++ drop b l.

Fixpoint has_adjacent_equal (hs : list Hash) : bool :=
  match hs with
  | a :: ((b :: _) as l) => bool_decide (a = b) || has_adjacent_equal l
  | _ => false
  end.

Definition cut_through (ins : list Input) (outs : list Output)
    : outcome tx_error (list Input * list Output) :=
  let outs := sort_by_hash output_hash outs in
  if has_adjacent_equal (map output_hash outs) then Err AggregationError
  else
    let ins := sort_by_hash input_hash ins in
    let s := while (length ins + length outs) cut_cond cut_body (mkCut ins outs 0 0 0) in
    Ok (drain (i_idx s - ncut s) (i_idx s) (c_ins s), drain (o_idx s - ncut s) (o_idx s) (c_outs s)).

(** ** Aggregation *)
Section Curve.
Context `{Secp}.

Definition aggregate (txs : list Transaction) : outcome tx_error Transaction :=
  match txs with
  | [] => Ok tx_empty
  | [tx] => Ok tx
  | _ =>
      let kernel_offsets := map offset txs in
      let ins := concat (map (fun t => inputs (body t)) txs) in
      let outs := concat (map (fun t => outputs (body t)) txs) in
      let kers := concat (map (fun t => kernels (body t)) txs) in
      let? '(ins, outs) := cut_through ins outs in
      let kers := sort_by_hash kernel_hash kers in
      let? total_kernel_offset := map_err TxCommitted (sum_kernel_offsets kernel_offsets []) in
      Ok (with_offset (tx_new ins outs kers) total_kernel_offset)
  end.

(** The elements of [l] that are neither in [known] nor already kept, by hash. *)
Definition not_in {A} (h : A -> Hash) (known l : list A) : list A :=
  foldl (fun acc x =>
           if existsb (fun y => bool_decide (h y = h x)) known
              || existsb (fun y => bool_decide (h y = h x)) acc
           then acc else acc ++ [x]) [] l.

Definition deaggregate (mk_tx : Transaction) (txs : list Transaction) : outcome tx_error Transaction :=
  let? tx := aggregate txs in
  let ins := not_in input_hash (inputs (body tx)) (inputs (body mk_tx)) in
  let outs := not_in output_hash (outputs (body tx)) (outputs (body mk_tx)) in
  let kers := not_in kernel_hash (kernels (body tx)) (kernels (body mk_tx)) in
  let positive_key := to_secrets [offset mk_tx] in
  let negative_keys := to_secrets [offset tx] in
  let? total_kernel_offset :=
    match positive_key, negative_keys with
    | [], [] => Ok blinding_zero
    | _, _ => ok_or (blind_sum positive_key negative_keys) TxSecp
    end in
  Ok (with_offset (tx_new (sort_by_hash input_hash ins) (sort_by_hash output_hash outs)
                     (sort_by_hash kernel_hash kers)) total_kernel_offset).

(** ** Signatures and full validation *)
Definition kernel_sig_msg (fee lock_height : Z) (features : KernelFeatures) : outcome tx_error Hash :=
  let valid_features := match features with
                        | KernelCoinbase => (fee =? 0) && (lock_height =? 0)
                        | KernelPlain => lock_height =? 0
                        | HeightLocked => true
                        end in
  if negb valid_features then Err InvalidKernelFeatures
  else Ok (blake2b match features with
                   | KernelCoinbase => write_kernel_features features
                   | KernelPlain => write_kernel_features features ++ write_u64 fee
                   | HeightLocked => write_kernel_features features ++ write_u64 fee ++ write_u64 lock_height
                   end).

Definition kernel_verify (k : TxKernel) : outcome tx_error () :=
  if (bool_decide (features k = KernelCoinbase) && negb (fee k =? 0))
     || (negb (bool_decide (features k = HeightLocked)) && negb (lock_height k =? 0))
  then Err InvalidKernelFeatures
  else
    let? pubkey := ok_or (to_pubkey (excess k)) TxSecp in
    let? msg := kernel_sig_msg (fee k) (lock_height k) (features k) in
    if negb (verify_single (excess_sig k) msg pubkey) then Err IncorrectSignature else Ok tt.

Definition batch_verify_proofs (commits : list Commitment) (proofs : list RangeProof) : outcome tx_error () :=
  if verify_bullet_proof_multi commits proofs then Ok tt else Err TxSecp.

Definition body_validate (c : ChainTypes) (weighting : Weighting) (b : TransactionBody) : outcome tx_error () :=
  try? body_validate_read c weighting b then
  try? (match outputs b with
        | [] => Ok tt
        | _ => batch_verify_proofs (map out_commit (outputs b)) (map out_proof (outputs b))
        end) then
  foldM (fun _ k => kernel_verify k) (kernels b) tt.

Definition tx_validate (c : ChainTypes) (weighting : Weighting) (t : Transaction) : outcome tx_error () :=
  try? body_validate c weighting (body t) then
  try? verify_features (body t) then
  try? map_err TxCommitted (verify_kernel_sums t (body_overage (body t)) (offset t)) then Ok tt.

(** ** Encoding *)
Definition read_range_proof : read RangeProof :=
  n <- read_u64 ;;
  p <- read_fixed_bytes (Z.to_nat (Z.min n (Z.of_nat MAX_PROOF_SIZE))) ;;
  ret (mkRangeProof (p ++ replicate (MAX_PROOF_SIZE - length p) 0) MAX_PROOF_SIZE).

Definition read_output : read Output :=
  f <- read_output_features ;; c <- read_array 33 ;; p <- read_range_proof ;; ret (mkOutput f c p).

Definition write_body (mode : SerializationMode) (b : TransactionBody) : list Z :=
  write_u64 (len (inputs b)) ++ write_u64 (len (outputs b)) ++ write_u64 (len (kernels b))
  ++ concat (map write_input (inputs b)) ++ concat (map (write_output mode) (outputs b))
  ++ concat (map write_kernel (kernels b)).

Definition read_body (c : ChainTypes) : read TransactionBody :=
  input_len <- read_u64 ;; output_len <- read_u64 ;; kernel_len <- read_u64 ;;
  if weight_as_block input_len output_len kernel_len >? max_block_weight c then fail TooLargeReadErr
  else
    inputs <- read_multi read_input input_len ;;
    outputs <- read_multi read_output output_len ;;
    kernels <- read_multi read_kernel kernel_len ;;
    fun r =>
      match body_init inputs outputs kernels true with
      | Ok body => Ok (body, r)
      | Err _ => Err CorruptedData
      | Panic => Panic
      end.

Definition write_tx (mode : SerializationMode) (t : Transaction) : list Z :=
  write_array (offset t) ++ write_body mode (body t).

Definition read_tx (c : ChainTypes) : read Transaction :=
  offset <- read_array 32 ;; body <- read_body c ;;
  fun r =>
    match validate_read c (mkTransaction offset body) with
    | Ok _ => Ok (mkTransaction offset body, r)
    | Err _ => Err CorruptedData
    | Panic => Panic
    end.

End Curve.
End Hashing.
