(* ===== verification/CutThrough.v ===== *)
(** * Cut-through and aggregation: what they compute

    The in-place loop of [cut_through] is a merge of the two sorted vectors that
    drops matching pairs; the scan of [verify_cut_through] decides disjointness;
    aggregating balanced transactions gives a balanced transaction. *)
From S2P Require Import Prelude Ser Global Committed Transaction.

Section CutThrough.
Context `{Hasher}.

Abbreviation ih := input_hash.
Abbreviation oh := output_hash.

(** ** The merge *)
Fixpoint cut_ref (ins : list Input) : list Output -> list Input * list Output :=
  fix go outs :=
    match ins, outs with
    | i :: ins', o :: outs' =>
        match hash_cmp (ih i) (oh o) with
        | Lt => let '(a, b) := cut_ref ins' outs in (i :: a, b)
        | Gt => let '(a, b) := go outs' in (a, o :: b)
        | Eq => cut_ref ins' outs'
        end
    | _, _ => (ins, outs)
    end.

Lemma cut_ref_nil_l outs : cut_ref [] outs = ([], outs).
Proof. by destruct outs. Qed.
Lemma cut_ref_nil_r ins : cut_ref ins [] = (ins, []).
Proof. by destruct ins. Qed.

Lemma cut_ref_cons i ins o outs :
  cut_ref (i :: ins) (o :: outs) =
  match hash_cmp (ih i) (oh o) with
  | Lt => let '(a, b) := cut_ref ins (o :: outs) in (i :: a, b)
  | Gt => let '(a, b) := cut_ref (i :: ins) outs in (a, o :: b)
  | Eq => cut_ref ins outs
  end.
Proof. reflexivity. Qed.

(** ** The loop is the merge *)
Lemma copy_back {A} (l : list A) (i n : nat) x :
  (n <= i)%nat -> l !! i = Some x ->
  take (S i - n) (<[(i - n)%nat := x]> l) = take (i - n) l ++ [x]
  /\ drop (S i) (<[(i - n)%nat := x]> l) = drop (S i) l.
Proof.
  intros Hn Hi. pose proof (lookup_lt_Some _ _ _ Hi). split.
  - replace (S i - n)%nat with (S (i - n)) by lia.
    rewrite (take_S_r _ _ x) by (by rewrite list_lookup_insert_eq by lia).
    by rewrite take_insert_ge by lia.
  - by rewrite drop_insert_lt by lia.
Qed.

Lemma cut_loop fuel s :
  (ncut s <= i_idx s <= length (c_ins s))%nat -> (ncut s <= o_idx s <= length (c_outs s))%nat ->
  (length (c_ins s) - i_idx s + (length (c_outs s) - o_idx s) <= fuel)%nat ->
  let f := while fuel cut_cond cut_body s in
  let r := cut_ref (drop (i_idx s) (c_ins s)) (drop (o_idx s) (c_outs s)) in
  drain (i_idx f - ncut f) (i_idx f) (c_ins f) = take (i_idx s - ncut s) (c_ins s) ++ r.1
  /\ drain (o_idx f - ncut f) (o_idx f) (c_outs f) = take (o_idx s - ncut s) (c_outs s) ++ r.2.
Proof.
  revert s. induction fuel as [|fuel IH]; intros s Hi Ho Hf f r; subst f r; cbn [while].
  { rewrite (drop_ge (c_ins s)), cut_ref_nil_l by lia. unfold drain.
    rewrite (drop_ge (c_ins s)) by lia. done. }
  destruct (cut_cond s) eqn:Hc.
  2: { unfold cut_cond in Hc. unfold drain.
       destruct (Nat.ltb_spec (i_idx s) (length (c_ins s))); cbn [andb] in Hc.
       - destruct (Nat.ltb_spec (o_idx s) (length (c_outs s))); [done|].
         by rewrite (drop_ge (c_outs s)), cut_ref_nil_r by lia.
       - by rewrite (drop_ge (c_ins s)), cut_ref_nil_l by lia. }
  unfold cut_cond in Hc. apply andb_true_iff in Hc as [Hil%Nat.ltb_lt Hol%Nat.ltb_lt].
  destruct (lookup_lt_is_Some_2 _ _ Hil) as [i Hii], (lookup_lt_is_Some_2 _ _ Hol) as [o Hoo].
  rewrite (drop_S _ _ _ Hii), (drop_S _ _ _ Hoo), cut_ref_cons.
  set (s' := cut_body s). assert (Hs' : s' = cut_body s) by done. clearbody s'.
  unfold cut_body in Hs'. rewrite Hii, Hoo in Hs'.
  destruct (hash_cmp (ih i) (oh o)); subst s'.
  - edestruct (IH (mkCut (c_ins s) (c_outs s) (S (i_idx s)) (S (o_idx s)) (S (ncut s)))) as [E1 E2];
      cbn [c_ins c_outs i_idx o_idx ncut]; [lia..|]. cbn [c_ins c_outs i_idx o_idx ncut Nat.sub] in E1, E2.
    done.
  - destruct (copy_back (c_ins s) (i_idx s) (ncut s) i ltac:(lia) Hii) as [Ht Hd].
    edestruct (IH (mkCut (<[(i_idx s - ncut s)%nat := i]> (c_ins s)) (c_outs s) (S (i_idx s)) (o_idx s) (ncut s)))
      as [E1 E2]; cbn [c_ins c_outs i_idx o_idx ncut]; rewrite ?length_insert; [lia..|].
    cbn [c_ins c_outs i_idx o_idx ncut] in E1, E2. rewrite Hd in E1, E2. rewrite Ht in E1.
    rewrite (drop_S _ _ _ Hoo) in E1, E2.
    destruct (cut_ref (drop (S (i_idx s)) (c_ins s)) _) as [a b]. cbn [fst snd] in *.
    rewrite E1, E2, <- app_assoc. done.
  - destruct (copy_back (c_outs s) (o_idx s) (ncut s) o ltac:(lia) Hoo) as [Ht Hd].
    edestruct (IH (mkCut (c_ins s) (<[(o_idx s - ncut s)%nat := o]> (c_outs s)) (i_idx s) (S (o_idx s)) (ncut s)))
      as [E1 E2]; cbn [c_ins c_outs i_idx o_idx ncut]; rewrite ?length_insert; [lia..|].
    cbn [c_ins c_outs i_idx o_idx ncut] in E1, E2. rewrite Hd in E1, E2. rewrite Ht in E2.
    rewrite (drop_S _ _ _ Hii) in E1, E2.
    destruct (cut_ref (i :: drop (S (i_idx s)) (c_ins s)) _) as [a b]. cbn [fst snd] in *.
    rewrite E1, E2, <- app_assoc. done.
Qed.

(** ** What the merge keeps and drops *)
Definition sorted_by {A} (R : Hash -> Hash -> Prop) (h : A -> Hash) (l : list A) : Prop :=
  StronglySorted R (map h l).

Lemma sorted_by_cons {A} R (h : A -> Hash) x l :
  sorted_by R h (x :: l) <-> (forall y, y ∈ l -> R (h x) (h y)) /\ sorted_by R h l.
Proof.
  unfold sorted_by. cbn [map]. rewrite StronglySorted_cons, Forall_map, Forall_forall. done.
Qed.

Lemma hash_lt_le_trans a b c : hash_lt a b -> hash_le b c -> hash_lt a c.
Proof.
  intros Hab Hbc. unfold hash_le in Hbc. destruct (hash_cmp b c) eqn:E; [|by etrans|done].
  apply hash_cmp_eq in E as ->. done.
Qed.

Lemma sublist_in {A} (l k : list A) x : sublist l k -> x ∈ l -> x ∈ k.
Proof. intros Hs Hx. by eapply elem_of_submseteq; [|apply sublist_submseteq]. Qed.

Lemma hash_lt_neq a b : hash_lt a b -> a <> b.
Proof. intros Hl ->. by apply hash_lt_irrefl in Hl. Qed.

Lemma hash_lt_le a b : hash_lt a b -> hash_le a b.
Proof. unfold hash_lt, hash_le. intros ->. done. Qed.

(** Everything the merge of sorted vectors guarantees. *)
Definition cut_spec (ins : list Input) (outs : list Output) (a : list Input) (b : list Output) : Prop :=
  exists ci co,
    ins ≡ₚ a ++ ci /\ outs ≡ₚ b ++ co /\ map ih ci = map oh co
    /\ (forall i o, i ∈ a -> o ∈ b -> ih i <> oh o).

Lemma cut_ref_spec ins outs :
  sorted_by hash_le ih ins -> sorted_by hash_lt oh outs ->
  let '(a, b) := cut_ref ins outs in cut_spec ins outs a b /\ sublist a ins /\ sublist b outs.
Proof.
  revert outs. induction ins as [|i ins IHi]; intros outs.
  { intros _ _. rewrite cut_ref_nil_l. split_and!; [|done..].
    exists [], []. rewrite !app_nil_r. split_and!; try done. intros i o Hi. by apply not_elem_of_nil in Hi. }
  induction outs as [|o outs IHo]; intros Hi Ho.
  { rewrite cut_ref_nil_r. split_and!; [|done..].
    exists [], []. rewrite !app_nil_r. split_and!; try done. intros i' o' _ Ho'. by apply not_elem_of_nil in Ho'. }
  rewrite cut_ref_cons. apply sorted_by_cons in Hi as [Hmin Hi'].
  pose proof Ho as [Hmino Ho']%sorted_by_cons.
  destruct (hash_cmp (ih i) (oh o)) eqn:Hc.
  - apply hash_cmp_eq in Hc. specialize (IHi outs Hi' Ho'). destruct (cut_ref ins outs) as [a b].
    destruct IHi as ((ci & co & Hp1 & Hp2 & Hh & Hd) & Hs1 & Hs2).
    split; [|split; first [done|by apply sublist_skip|by apply sublist_cons]].
    exists (i :: ci), (o :: co). split_and!; [| | |done].
    + by rewrite Hp1, Permutation_middle.
    + by rewrite Hp2, Permutation_middle.
    + cbn [map]. by rewrite Hh, Hc.
  - specialize (IHi (o :: outs) Hi' Ho). destruct (cut_ref ins (o :: outs)) as [a b].
    destruct IHi as ((ci & co & Hp1 & Hp2 & Hh & Hd) & Hs1 & Hs2).
    split; [|split; first [done|by apply sublist_skip|by apply sublist_cons]].
    exists ci, co. split_and!; [by rewrite Hp1|done|done|].
    intros i' o' [->|Hin]%elem_of_cons Ho''; [|by apply Hd].
    apply (sublist_in _ _ _ Hs2), elem_of_cons in Ho'' as [->|Ho'']; apply hash_lt_neq; [done|].
    etrans; [exact Hc|]. by apply Hmino.
  - apply hash_cmp_gt in Hc. specialize (IHo ltac:(by apply sorted_by_cons) Ho').
    destruct (cut_ref (i :: ins) outs) as [a b].
    destruct IHo as ((ci & co & Hp1 & Hp2 & Hh & Hd) & Hs1 & Hs2).
    split; [|split; first [done|by apply sublist_skip|by apply sublist_cons]].
    exists ci, co. split_and!; [done|by rewrite Hp2|done|].
    intros i' o' Hi'' [->|Hin]%elem_of_cons; [|by apply Hd].
    apply (sublist_in _ _ _ Hs1), elem_of_cons in Hi'' as [->|Hi''];
      apply not_eq_sym, hash_lt_neq; [done|].
    eapply hash_lt_le_trans; [exact Hc|]. by apply Hmin.
Qed.

(** ** Sorting *)
Lemma sort_by_hash_perm {A} (h : A -> Hash) l : sort_by_hash h l ≡ₚ l.
Proof. apply merge_sort_Permutation. Qed.

Lemma sort_by_hash_sorted {A} (h : A -> Hash) l : sorted_by hash_le h (sort_by_hash h l).
Proof.
  unfold sorted_by. apply (StronglySorted_fmap h (hash_sorted_le h) hash_le); [done|].
  apply StronglySorted_merge_sort.
  - intros x y z. apply hash_le_trans.
  - intros x y. apply hash_le_total.
Qed.

Lemma adjacent_equal_sorted hs :
  StronglySorted hash_le hs -> has_adjacent_equal hs = false <-> NoDup hs.
Proof.
  intros Hs. induction Hs as [|x hs Hs IH Hx]; [split; [constructor|done]|].
  destruct hs as [|y hs].
  { split; [intros _; repeat constructor; apply not_elem_of_nil|done]. }
  cbn [has_adjacent_equal] in *. rewrite orb_false_iff, bool_decide_eq_false, NoDup_cons, IH.
  split; intros [Hne Hn]; (split; [|done]).
  - intros [He|Hin]%elem_of_cons; [done|]. rewrite Forall_forall in Hx.
    assert (Hle : hash_le x y) by (apply Hx; left). inversion Hs as [|? ? _ Hy]; subst.
    rewrite Forall_forall in Hy. assert (Hyx : hash_le y x) by (by apply Hy).
    apply Hne. unfold hash_le in Hle, Hyx. destruct (hash_cmp x y) eqn:E; [by apply hash_cmp_eq| |done].
    by apply (proj2 (hash_cmp_gt y x)) in E.
  - intros ->. apply Hne. left.
Qed.

Lemma sorted_nodup_lt {A} (h : A -> Hash) l :
  sorted_by hash_le h l -> NoDup (map h l) -> sorted_by hash_lt h l.
Proof.
  induction l as [|x l IH]; intros Hs Hn; [constructor|].
  apply sorted_by_cons in Hs as [Hx Hs]. cbn [map] in Hn. apply NoDup_cons in Hn as [Hnx Hn].
  apply sorted_by_cons. split; [|by apply IH]. intros y Hy. specialize (Hx y Hy).
  unfold hash_le in Hx. unfold hash_lt. destruct (hash_cmp (h x) (h y)) eqn:E; [|done|done].
  apply hash_cmp_eq in E. exfalso. apply Hnx. rewrite E. by apply list_elem_of_fmap_2.
Qed.

Lemma sublist_sorted_by {A} R (h : A -> Hash) (l k : list A) :
  sublist l k -> sorted_by R h k -> sorted_by R h l.
Proof.
  induction 1 as [|x l k Hsub IH|x l k Hsub IH]; intros Hs; [done| |].
  - apply sorted_by_cons in Hs as [Hx Hs]. apply sorted_by_cons. split; [|by apply IH].
    intros y Hy. apply Hx. by eapply sublist_in.
  - apply sorted_by_cons in Hs as [_ Hs]. by apply IH.
Qed.

Lemma cut_through_ref ins outs :
  NoDup (map oh outs) ->
  cut_through ins outs = Ok (cut_ref (sort_by_hash ih ins) (sort_by_hash oh outs)).
Proof.
  intros Hn. unfold cut_through.
  assert (Hns : NoDup (map oh (sort_by_hash oh outs))) by (by rewrite sort_by_hash_perm).
  rewrite (proj2 (adjacent_equal_sorted _ (sort_by_hash_sorted oh outs)) Hns).
  set (a := sort_by_hash ih ins). set (b := sort_by_hash oh outs).
  destruct (cut_loop (length a + length b) (mkCut a b 0 0 0)) as [E1 E2]; cbn; [lia..|].
  cbn [c_ins c_outs i_idx o_idx ncut Nat.sub take app] in E1, E2. rewrite !drop_0 in E1, E2.
  rewrite E1, E2. by destruct (cut_ref a b).
Qed.

Lemma cut_through_ok ins outs a b :
  cut_through ins outs = Ok (a, b) ->
  NoDup (map oh outs) /\ cut_spec ins outs a b /\ sorted_by hash_le ih a /\ sorted_by hash_lt oh b.
Proof.
  intros Hok.
  assert (Hn : NoDup (map oh outs)).
  { unfold cut_through in Hok. destruct (has_adjacent_equal _) eqn:He; [done|].
    apply adjacent_equal_sorted in He; [|apply sort_by_hash_sorted]. by rewrite sort_by_hash_perm in He. }
  split; [done|]. rewrite cut_through_ref in Hok by done. injection Hok as Hok.
  assert (Ho : sorted_by hash_lt oh (sort_by_hash oh outs)).
  { apply sorted_nodup_lt; [apply sort_by_hash_sorted|]. by rewrite sort_by_hash_perm. }
  pose proof (cut_ref_spec _ _ (sort_by_hash_sorted ih ins) Ho) as Hspec. rewrite Hok in Hspec.
  destruct Hspec as ((ci & co & Hp1 & Hp2 & Hh & Hd) & Hs1 & Hs2). split_and!.
  - exists ci, co. split_and!; [by rewrite <- Hp1, sort_by_hash_perm|by rewrite <- Hp2, sort_by_hash_perm|done|done].
  - eapply sublist_sorted_by; [done|apply sort_by_hash_sorted].
  - eapply sublist_sorted_by; [done|done].
Qed.

(** Cut-through is exact: outputs with a duplicate are refused; otherwise
    the in-place loop removes pairs of an input and an output with the same hash
    and nothing else, leaves no such pair behind, and returns both vectors sorted. *)
Theorem cut_through_correct ins outs :
  (NoDup (map oh outs) ->
   exists a b, cut_through ins outs = Ok (a, b) /\ cut_spec ins outs a b
     /\ sorted_by hash_le ih a /\ sorted_by hash_lt oh b)
  /\ (~ NoDup (map oh outs) -> cut_through ins outs = Err AggregationError).
Proof.
  split; intros Hn.
  - pose proof (cut_through_ref ins outs Hn) as Hr.
    destruct (cut_ref (sort_by_hash ih ins) (sort_by_hash oh outs)) as [a b].
    exists a, b. split; [done|]. by apply cut_through_ok in Hr as [_ Hr].
  - unfold cut_through. destruct (has_adjacent_equal _) eqn:He; [done|].
    apply adjacent_equal_sorted in He; [|apply sort_by_hash_sorted].
    rewrite sort_by_hash_perm in He. done.
Qed.

(** ** The scan *)
Lemma cut_through_scan_spec fuel ins outs :
  StronglySorted hash_lt ins -> StronglySorted hash_lt outs ->
  (length ins + length outs <= fuel)%nat ->
  cut_through_scan fuel ins outs
  = if bool_decide (Exists (fun h => h ∈ outs) ins) then Err CutThrough else Ok tt.
Proof.
  revert ins outs. induction fuel as [|fuel IH]; intros ins outs Hi Ho Hf; cbn [cut_through_scan].
  { destruct ins; [|simpl in Hf; lia]. rewrite bool_decide_false; [done|]. by intros Hx%Exists_nil. }
  destruct ins as [|i ins]; [rewrite bool_decide_false; [done|by intros Hx%Exists_nil]|].
  destruct outs as [|o outs].
  { rewrite bool_decide_false; [done|]. intros (x & _ & Hx)%Exists_exists. by apply not_elem_of_nil in Hx. }
  inversion Hi as [|? ? Hi' Hmin]; inversion Ho as [|? ? Ho' Hmino]; subst.
  rewrite Forall_forall in Hmin, Hmino. simpl in Hf.
  destruct (hash_cmp i o) eqn:Hc.
  - apply hash_cmp_eq in Hc as ->. rewrite bool_decide_true; [done|]. left. left.
  - rewrite IH by (done || simpl; lia).
    rewrite (bool_decide_ext (Exists (fun h => h ∈ o :: outs) ins)
      (Exists (fun h => h ∈ o :: outs) (i :: ins))); [done|].
    rewrite Exists_cons. split; [by right|]. intros [Hin|]; [|done]. exfalso.
    apply elem_of_cons in Hin as [->|Hin]; [by apply hash_lt_irrefl in Hc|].
    apply (hash_lt_irrefl i). etrans; [exact Hc|]. by apply Hmino.
  - apply hash_cmp_gt in Hc. rewrite IH by (done || simpl; lia).
    rewrite (bool_decide_ext (Exists (fun h => h ∈ outs) (i :: ins))
      (Exists (fun h => h ∈ o :: outs) (i :: ins))); [done|].
    rewrite !Exists_exists. split; intros (x & Hx & Hin); exists x; (split; [done|]); [by right|].
    apply elem_of_cons in Hin as [->|Hin]; [|done]. exfalso.
    apply (hash_lt_irrefl o). eapply (hash_lt_le_trans o i); [done|].
    apply elem_of_cons in Hx as [->|Hx]; [by apply hash_lt_le|]. by apply hash_lt_le, Hmin.
Qed.

(** The validation of a body accepts exactly the well-formed ones: within
    the weight limit, inputs, outputs and kernels strictly sorted by hash, and no
    input spending an output of the same body. *)
Theorem body_validate_read_exact c weighting b :
  body_validate_read c weighting b = Ok tt <->
  verify_weight c weighting b = Ok tt
  /\ sorted_by hash_lt ih (inputs b) /\ sorted_by hash_lt oh (outputs b)
  /\ sorted_by hash_lt kernel_hash (kernels b)
  /\ (forall i o, i ∈ inputs b -> o ∈ outputs b -> ih i <> oh o).
Proof.
  assert (Hsort : verify_sorted b = Ok tt <-> sorted_by hash_lt ih (inputs b)
    /\ sorted_by hash_lt oh (outputs b) /\ sorted_by hash_lt kernel_hash (kernels b)).
  { unfold verify_sorted, sorted_by. rewrite <- !verify_sorted_spec.
    destruct (verify_sorted_and_unique (map ih _)) as [[]| |]; cbn; [|split; [done|by intros [? _]]..].
    destruct (verify_sorted_and_unique (map oh _)) as [[]| |]; cbn; [|split; [done|by intros (_ & ? & _)]..].
    destruct (verify_sorted_and_unique (map kernel_hash _)) as [[]| |]; cbn;
      (split; [done|by intros (_ & _ & ?)]). }
  assert (Hcut : sorted_by hash_lt ih (inputs b) -> sorted_by hash_lt oh (outputs b) ->
    verify_cut_through b = Ok tt <-> forall i o, i ∈ inputs b -> o ∈ outputs b -> ih i <> oh o).
  { intros Hi Ho. unfold verify_cut_through.
    rewrite cut_through_scan_spec by (done || rewrite !length_map; lia).
    case_bool_decide as He; (split; [intros Hok|intros Hd]); try done.
    - exfalso. apply Exists_exists in He as (h & Hh & Hin).
      apply list_elem_of_fmap in Hh as (i & -> & Hi'). apply list_elem_of_fmap in Hin as (o & Heq & Ho').
      by eapply Hd.
    - intros i o Hi' Ho' Heq. apply He, Exists_exists. exists (ih i).
      split; [by apply list_elem_of_fmap_2|]. rewrite Heq. by apply list_elem_of_fmap_2. }
  unfold body_validate_read. split.
  - intros Hok. inv_ok. apply Hsort in Hok1 as (? & ? & ?). split_and!; try done. by apply Hcut.
  - intros (Hw & Hi & Ho & Hk & Hd). rewrite Hw, (proj2 Hsort) by done. cbn [bind]. by apply Hcut.
Qed.

End CutThrough.

(** A toy hash for examples: the first bytes of the content. *)
Definition prefix_hasher : Hasher := fun l => from_vec l.

Definition sample_input (n : Z) : Input := mkInput Plain (from_vec [n]).
Definition sample_output (n : Z) : Output := mkOutput Plain (from_vec [n]) (mkRangeProof [] 0).

Lemma cut_through_correct_witness :
  exists a b, @cut_through prefix_hasher (map sample_input [5; 2; 9]) (map sample_output [9; 4; 5]) = Ok (a, b)
    /\ @cut_spec prefix_hasher (map sample_input [5; 2; 9]) (map sample_output [9; 4; 5]) a b.
Proof.
  destruct (proj1 (@cut_through_correct prefix_hasher (map sample_input [5; 2; 9]) (map sample_output [9; 4; 5])))
    as (a & b & Hc & Hs & _); [vm_decide|].
  exists a, b. exact (conj Hc Hs).
Defined.

(** ** Aggregation keeps the balance *)
Section Aggregation.
Context `{Hasher} `{Secp} {G : Type} `{!SecpLaws G}.

Lemma ok_or_Ok {E A} (o : option A) (e : E) a : ok_or o e = Ok a -> o = Some a.
Proof. destruct o; cbn; congruence. Qed.

Lemma gadd_0_l (a : G) : gadd g0 a = a.
Proof. by rewrite gadd_comm, gadd_0. Qed.

Lemma gadd_swap (a b c d : G) : gadd (gadd a b) (gadd c d) = gadd (gadd a c) (gadd b d).
Proof. rewrite <- !gadd_assoc. f_equal. rewrite !gadd_assoc. f_equal. apply gadd_comm. Qed.

Lemma gadd_right_comm (a b c : G) : gadd (gadd a b) c = gadd (gadd a c) b.
Proof. by rewrite <- !gadd_assoc, (gadd_comm b). Qed.

Lemma gadd_cancel (a b c : G) : gadd a c = gadd b c -> a = b.
Proof.
  intros Heq. rewrite <- (gadd_0 a), <- (gadd_0 b), <- (gadd_opp c), !gadd_assoc. by rewrite Heq.
Qed.

Lemma value_point_0 : value_point 0 = g0.
Proof.
  apply (gadd_cancel _ _ (value_point 0)). rewrite <- value_point_add, gadd_0_l. done.
Qed.

(** Sums of points. *)
Definition psum (l : list Commitment) : G := foldr (fun x acc => gadd (point x) acc) g0 l.
Definition ksum (l : list SecretKey) : G := foldr (fun x acc => gadd (key_point x) acc) g0 l.

Lemma psum_app l k : psum (l ++ k) = gadd (psum l) (psum k).
Proof.
  unfold psum. induction l as [|x l IH]; cbn [foldr app]; [by rewrite gadd_0_l|].
  by rewrite IH, gadd_assoc.
Qed.

Lemma psum_perm l k : l ≡ₚ k -> psum l = psum k.
Proof.
  unfold psum. induction 1 as [|x l k _ IH|x y l|l k m _ IH1 _ IH2]; cbn [foldr]; [done|by rewrite IH| |congruence].
  rewrite !gadd_assoc. f_equal. apply gadd_comm.
Qed.

Lemma psum_filter l : psum (filter (fun x => x <> commit_to_zero_value) l) = psum l.
Proof.
  induction l as [|x l IH]; [done|]. rewrite filter_cons. case_decide as Hx.
  - unfold psum in *. cbn [foldr]. by rewrite IH.
  - subst x. unfold psum in *. cbn [foldr]. by rewrite IH, point_zero, gadd_0_l.
Qed.

Lemma sum_commits_point ps ns c : sum_commits ps ns = Ok c -> gadd (point c) (psum ns) = psum ps.
Proof.
  unfold sum_commits. intros Hok. destruct (commit_sum _ _) as [c'|] eqn:Hc; cbn in Hok; [|done].
  injection Hok as ->. apply commit_sum_point in Hc. fold (psum (filter (fun x => x <> commit_to_zero_value) ns)) in Hc.
  fold (psum (filter (fun x => x <> commit_to_zero_value) ps)) in Hc. by rewrite !psum_filter in Hc.
Qed.

(** ** One transaction *)

(** Outputs and fee against inputs, excesses and offset. *)
Definition balance (t : Transaction) (fee : Z) : Prop :=
  gadd (psum (outputs_committed t)) (value_point fee)
  = gadd (psum (inputs_committed t)) (gadd (psum (kernels_committed t)) (key_point (offset t))).

Definition offset_ok (o : BlindingFactor) : Prop := o = blinding_zero \/ secret_key o = Some o.

Lemma sum_commitments_point {T} `{Committed T} (t : T) v u :
  0 <= v < 2 ^ 63 -> sum_commitments t v = Ok u ->
  gadd (point u) (psum (inputs_committed t)) = gadd (psum (outputs_committed t)) (value_point v).
Proof.
  intros Hv. unfold sum_commitments. destruct (Z.eqb_spec v 0) as [->|Hne].
  { intros Hs. by rewrite (sum_commits_point _ _ _ Hs), value_point_0, gadd_0. }
  destruct (Z.eqb_spec v (- 2 ^ 63)); [lia|].
  destruct (commit_value (Z.abs v)) as [oc|] eqn:Hc; cbn [unwrap bind]; [|done].
  destruct (Z.ltb_spec v 0); [lia|]. intros Hs. apply sum_commits_point in Hs. rewrite Hs, psum_app.
  f_equal. unfold psum. cbn [foldr]. rewrite gadd_0. apply commit_value_point in Hc.
  by rewrite Hc, Z.abs_eq by lia.
Qed.

(** A negative overage is an input. *)
Lemma sum_commitments_point_neg {T} `{Committed T} (t : T) v u :
  0 <= v < 2 ^ 63 -> sum_commitments t (- v) = Ok u ->
  gadd (point u) (gadd (psum (inputs_committed t)) (value_point v)) = psum (outputs_committed t).
Proof.
  intros Hv. unfold sum_commitments. destruct (Z.eqb_spec (- v) 0) as [Hz|Hne].
  { assert (v = 0) as -> by lia. intros Hs. by rewrite value_point_0, gadd_0, (sum_commits_point _ _ _ Hs). }
  destruct (Z.eqb_spec (- v) (- 2 ^ 63)); [lia|].
  destruct (commit_value (Z.abs (- v))) as [oc|] eqn:Hc; cbn [unwrap bind]; [|done].
  destruct (Z.ltb_spec (- v) 0); [|lia]. intros Hs. apply sum_commits_point in Hs. rewrite <- Hs, psum_app.
  do 2 f_equal. unfold psum. cbn [foldr]. rewrite gadd_0. apply commit_value_point in Hc.
  by rewrite Hc, Z.abs_neq, Z.opp_involutive by lia.
Qed.

Lemma sum_kernel_excesses_point {T} `{Committed T} (t : T) o k k' :
  sum_kernel_excesses t o = Ok (k, k') ->
  offset_ok o /\ point k' = gadd (psum (kernels_committed t)) (key_point o)
  /\ exists l, commit_sum l [] = Some k'.
Proof.
  unfold sum_kernel_excesses. intros Hok. inv_ok. subst a a1.
  apply ok_or_Ok in Hok2 as Hx.
  apply sum_commits_point in Hok0. unfold psum in Hok0 at 1. cbn [foldr] in Hok0. rewrite gadd_0 in Hok0.
  pose proof (commit_sum_point _ _ _ Hx) as Hp. cbn [foldr] in Hp. rewrite gadd_0 in Hp.
  destruct (decide (o <> blinding_zero)) as [Hne|He].
  - apply bind_Ok_inv in Hok1 as (key & Hkey%ok_or_Ok & Hok1).
    apply bind_Ok_inv in Hok1 as (oc & Hoc%ok_or_Ok & Hok1). injection Hok1 as <-.
    assert (Hko : key = o).
    { unfold secret_key in Hkey. rewrite decide_False in Hkey by done. by apply secret_key_bytes. }
    subst key. split_and!; [by right| |by eexists].
    rewrite Hp. cbn [foldr]. by rewrite (commit_key_point _ _ Hoc), gadd_0, Hok0.
  - apply dec_stable in He as ->. injection Hok1 as <-. split_and!; [by left| |by eexists].
    rewrite Hp. cbn [foldr]. unfold blinding_zero. by rewrite key_point_zero, Hok0.
Qed.

(** The check passes exactly when the points balance, once the sums exist. *)
Lemma verify_kernel_sums_balance (t : Transaction) v u k k' :
  0 <= v < 2 ^ 63 ->
  sum_commitments t v = Ok u -> sum_kernel_excesses t (offset t) = Ok (k, k') ->
  verify_kernel_sums t v (offset t) = Ok (u, k) <-> balance t v.
Proof.
  intros Hv Hu Hk. pose proof (sum_commitments_point _ _ _ Hv Hu) as Hpu.
  destruct (sum_kernel_excesses_point _ _ _ _ Hk) as (_ & Hpk & l & Hl).
  unfold verify_kernel_sums. rewrite Hu, Hk. cbn [bind]. unfold balance. rewrite <- Hpu, <- Hpk.
  split.
  - case_decide as Hd; [done|]. subst k'. intros _. apply gadd_comm.
  - intros Hb. rewrite decide_False; [done|]. intros Hne. apply Hne.
    rewrite (gadd_comm (psum _)) in Hb. apply gadd_cancel in Hb.
    assert (exists ps ns, commit_sum ps ns = Some u) as (ps & ns & Hc).
    { unfold sum_commitments, sum_commits in Hu. repeat case_match; inv_ok; try done;
        match goal with Hx : ok_or ?c _ = Ok u |- _ => destruct c eqn:?; [|done]; injection Hx as ->; eauto end. }
    by eapply commit_sum_canonical.
Qed.

(** ** Fees *)
Definition kernel_fees (ks : list TxKernel) : Z := foldr (fun k acc => fee k + acc) 0 ks.
Definition fees_ok (ks : list TxKernel) : Prop := Forall (fun k => 0 <= fee k) ks.

Lemma kernel_fees_app ks ls : kernel_fees (ks ++ ls) = kernel_fees ks + kernel_fees ls.
Proof. unfold kernel_fees. induction ks as [|k ks IH]; cbn [foldr app]; lia. Qed.

Lemma kernel_fees_nonneg ks : fees_ok ks -> 0 <= kernel_fees ks.
Proof. unfold kernel_fees. induction 1; cbn [foldr]; lia. Qed.

Lemma kernel_fees_perm ks ls : ks ≡ₚ ls -> kernel_fees ks = kernel_fees ls.
Proof. unfold kernel_fees. induction 1; cbn [foldr]; lia. Qed.

Lemma body_fee_exact b :
  fees_ok (kernels b) -> kernel_fees (kernels b) < 2 ^ 63 -> body_fee b = kernel_fees (kernels b).
Proof.
  intros Hf Hlt. unfold body_fee.
  enough (Hgen : forall acc, 0 <= acc -> acc + kernel_fees (kernels b) < 2 ^ 63 ->
    foldl (fun acc k => sat_add acc (fee k)) acc (kernels b) = acc + kernel_fees (kernels b))
    by (rewrite Hgen; lia).
  clear Hlt. induction Hf as [|k ks Hk Hks IH]; intros acc Ha Hl; cbn [foldl].
  - unfold kernel_fees. cbn [foldr]. lia.
  - unfold kernel_fees in *. cbn [foldr] in *. fold (kernel_fees ks) in *.
    pose proof (kernel_fees_nonneg _ Hks). unfold sat_add at 2, u64_max. rewrite Z.min_r by lia.
    rewrite IH by lia. lia.
Qed.

Lemma body_overage_exact b :
  fees_ok (kernels b) -> kernel_fees (kernels b) < 2 ^ 63 -> body_overage b = kernel_fees (kernels b).
Proof.
  intros Hf Hlt. unfold body_overage. rewrite body_fee_exact by done. apply wrap_i64_small.
  unfold is_i64. pose proof (kernel_fees_nonneg _ Hf). lia.
Qed.

(** ** Many transactions *)
Lemma ksum_to_secrets offs : Forall offset_ok offs -> ksum (to_secrets offs) = ksum offs.
Proof.
  unfold to_secrets, ksum. induction 1 as [|o offs Ho _ IH]; [done|].
  rewrite filter_cons. cbn [foldr]. case_decide as Hz.
  - destruct Ho as [->|Ho]; [done|]. cbn [omap list_omap]. rewrite Ho. cbn [foldr].
    f_equal. exact IH.
  - subst o. unfold blinding_zero. by rewrite key_point_zero, gadd_0_l.
Qed.

Lemma sum_kernel_offsets_point offs o :
  Forall offset_ok offs -> sum_kernel_offsets offs [] = Ok o -> key_point o = ksum offs.
Proof.
  intros Hoffs. unfold sum_kernel_offsets. rewrite <- (ksum_to_secrets offs Hoffs).
  destruct (to_secrets offs) as [|k ks] eqn:Hs.
  - intros [= <-]. apply key_point_zero.
  - intros Hb%ok_or_Ok. apply blind_sum_point in Hb. change (to_secrets []) with (@nil SecretKey) in Hb.
    cbn [foldr] in Hb. rewrite gadd_0 in Hb. exact Hb.
Qed.

Abbreviation all_inputs txs := (concat (map (fun t => inputs (body t)) txs)).
Abbreviation all_outputs txs := (concat (map (fun t => outputs (body t)) txs)).
Abbreviation all_kernels txs := (concat (map (fun t => kernels (body t)) txs)).

Lemma balance_all txs :
  Forall (fun t => balance t (kernel_fees (kernels (body t)))) txs ->
  gadd (psum (map out_commit (all_outputs txs))) (value_point (kernel_fees (all_kernels txs)))
  = gadd (psum (map in_commit (all_inputs txs)))
      (gadd (psum (map excess (all_kernels txs))) (ksum (map offset txs))).
Proof.
  induction 1 as [|t txs Ht _ IH]; cbn [map concat].
  { unfold psum, ksum, kernel_fees. cbn [foldr map]. by rewrite value_point_0, !gadd_0. }
  unfold balance in Ht. cbn [inputs_committed outputs_committed kernels_committed committed_tx committed_body] in Ht.
  rewrite !map_app, !psum_app, kernel_fees_app, value_point_add.
  unfold ksum in *. cbn [foldr]. rewrite gadd_swap, Ht, IH.
  rewrite (gadd_swap (psum (map excess (kernels (body t))))). by rewrite gadd_swap.
Qed.

Lemma cut_commits ci co :
  map input_hash ci = map output_hash co ->
  (forall i o, i ∈ ci -> o ∈ co -> input_hash i = output_hash o -> in_commit i = out_commit o) ->
  map in_commit ci = map out_commit co.
Proof.
  revert co. induction ci as [|i ci IH]; intros [|o co] Hh Hc; try done.
  cbn [map] in *. injection Hh as Hio Hh. f_equal.
  - apply Hc; [left|left|done].
  - apply IH; [done|]. intros i' o' Hi Ho. apply Hc; by right.
Qed.

(** No two different outputs of the transactions share a hash with an input. *)
Definition no_collision (txs : list Transaction) : Prop :=
  forall i o, i ∈ all_inputs txs -> o ∈ all_outputs txs ->
    input_hash i = output_hash o -> in_commit i = out_commit o.

Lemma aggregate_balance txs t :
  aggregate txs = Ok t ->
  Forall (fun x => balance x (kernel_fees (kernels (body x))) /\ offset_ok (offset x)) txs ->
  no_collision txs ->
  kernels (body t) ≡ₚ all_kernels txs /\ balance t (kernel_fees (kernels (body t))).
Proof.
  intros Hagg Hall Hcol.
  assert (Hbal : Forall (fun x => balance x (kernel_fees (kernels (body x)))) txs)
    by (eapply Forall_impl; [exact Hall|]; by intros ? [? _]).
  assert (Hoff : Forall offset_ok (map offset txs))
    by (apply Forall_map; eapply Forall_impl; [exact Hall|]; by intros ? [_ ?]).
  destruct txs as [|t1 [|t2 txs]].
  - injection Hagg as <-. split; [done|]. unfold balance, psum, kernel_fees. cbn.
    change (offset tx_empty) with ZERO_KEY. by rewrite value_point_0, key_point_zero, !gadd_0.
  - injection Hagg as <-. cbn [map concat]. rewrite app_nil_r. split; [done|]. by inversion Hbal.
  - set (l := t1 :: t2 :: txs) in *. unfold aggregate in Hagg. subst l. cbv beta iota zeta in Hagg.
    set (l := t1 :: t2 :: txs) in *.
    apply bind_Ok_inv in Hagg as ([a b] & Hcut & Hagg).
    apply bind_Ok_inv in Hagg as (o & Ho%map_err_Ok_inv & Hagg). injection Hagg as <-.
    apply cut_through_ok in Hcut as (_ & (ci & co & Hi & Hout & Hh & _) & _).
    apply (sum_kernel_offsets_point _ _ Hoff) in Ho.
    assert (Hci : map in_commit ci = map out_commit co).
    { apply cut_commits; [done|]. intros i x Hin Hxn. apply Hcol; [rewrite Hi|rewrite Hout]; set_solver. }
    unfold tx_new, with_offset, sort_body. cbn [body kernels].
    assert (Hk : sort_by_hash kernel_hash (sort_by_hash kernel_hash (all_kernels l)) ≡ₚ all_kernels l)
      by (by rewrite !sort_by_hash_perm).
    split; [done|]. unfold balance.
    cbn [inputs_committed outputs_committed kernels_committed committed_tx committed_body body inputs
      outputs kernels offset].
    change (kernels (body t1) ++ kernels (body t2) ++ all_kernels txs) with (all_kernels l).
    rewrite (kernel_fees_perm _ _ Hk), Ho.
    rewrite (psum_perm (map excess _) (map excess (all_kernels l))) by (by rewrite Hk).
    rewrite (psum_perm (map out_commit (sort_by_hash output_hash b)) (map out_commit b)) by (by rewrite sort_by_hash_perm).
    rewrite (psum_perm (map in_commit (sort_by_hash input_hash a)) (map in_commit a)) by (by rewrite sort_by_hash_perm).
    pose proof (balance_all l Hbal) as Hb.
    rewrite (psum_perm (map out_commit (all_outputs l)) (map out_commit b ++ map out_commit co)) in Hb
      by (by rewrite Hout, map_app).
    rewrite (psum_perm (map in_commit (all_inputs l)) (map in_commit a ++ map in_commit ci)) in Hb
      by (by rewrite Hi, map_app).
    rewrite !psum_app, Hci in Hb. apply (gadd_cancel _ _ (psum (map out_commit co))).
    by rewrite !(gadd_right_comm _ _ (psum (map out_commit co))).
Qed.

Lemma verify_kernel_sums_inv (t : Transaction) v sums :
  verify_kernel_sums t v (offset t) = Ok sums ->
  exists k', sum_commitments t v = Ok sums.1 /\ sum_kernel_excesses t (offset t) = Ok (sums.2, k').
Proof.
  unfold verify_kernel_sums. intros Hv.
  apply bind_Ok_inv in Hv as (u & Hu & Hv). apply bind_Ok_inv in Hv as ([k k'] & Hk & Hv).
  case_decide; [done|]. injection Hv as <-. eauto.
Qed.

(** C29. Aggregation conserves value: if every transaction's kernel sums verify,
    the fees do not overflow and no two commitments share a hash, the transaction
    that [aggregate] builds, after cut-through and with the summed offset, never
    fails its own kernel sum check: whenever the curve can compute both sides, they
    are equal. *)
Theorem aggregate_verifies txs t u k k' :
  aggregate txs = Ok t ->
  Forall (fun x => fees_ok (kernels (body x))) txs ->
  kernel_fees (all_kernels txs) < 2 ^ 63 ->
  no_collision txs ->
  Forall (fun x => exists sums,
    verify_kernel_sums x (body_overage (body x)) (offset x) = Ok sums) txs ->
  sum_commitments t (body_overage (body t)) = Ok u ->
  sum_kernel_excesses t (offset t) = Ok (k, k') ->
  verify_kernel_sums t (body_overage (body t)) (offset t) = Ok (u, k).
Proof.
  intros Hagg Hfees Htot Hcol Hver Hu Hk.
  assert (Hallf : fees_ok (all_kernels txs)).
  { apply Forall_concat. by apply Forall_map. }
  assert (Hle : Forall (fun x => kernel_fees (kernels (body x)) < 2 ^ 63) txs).
  { clear -Hfees Htot Hallf. induction Hfees as [|x l Hx Hl IH]; constructor; cbn [map concat] in *.
    - rewrite kernel_fees_app in Htot. apply Forall_app in Hallf as [_ Hl'].
      pose proof (kernel_fees_nonneg _ Hl'). lia.
    - rewrite kernel_fees_app in Htot. apply Forall_app in Hallf as [Hx' Hl'].
      pose proof (kernel_fees_nonneg _ Hx'). apply IH; [lia|done]. }
  assert (Hall : Forall (fun x => balance x (kernel_fees (kernels (body x))) /\ offset_ok (offset x)) txs).
  { rewrite Forall_forall in *. intros x Hx. destruct (Hver x Hx) as (s & Hs).
    rewrite body_overage_exact in Hs by auto.
    destruct (verify_kernel_sums_inv _ _ _ Hs) as (k1 & Hu1 & Hk1).
    split; [|by apply sum_kernel_excesses_point in Hk1 as [? _]].
    eapply verify_kernel_sums_balance; [split; [apply kernel_fees_nonneg; auto|auto]|done|done|].
    rewrite Hs. by destruct s. }
  destruct (aggregate_balance txs t Hagg Hall Hcol) as [Hperm Hbal].
  assert (Hf : fees_ok (kernels (body t))) by (unfold fees_ok; rewrite Hperm; exact Hallf).
  pose proof (kernel_fees_perm _ _ Hperm) as Hfe.
  pose proof (kernel_fees_nonneg _ Hf) as Hnn.
  rewrite body_overage_exact in Hu |- * by (done || lia).
  eapply verify_kernel_sums_balance; [lia|done|done|done].
Qed.

End Aggregation.

(** ** A model of the curve: integers

    Commitments and keys are big-endian integers and add up as such; it satisfies
    every law, so the theorem's hypotheses can hold together. *)
Definition encode (w : nat) (v : Z) : array w := from_vec (be_bytes w v).
Definition value {w} (a : array w) : Z := be_value (bytes a).
Definition values {w} (l : list (array w)) : Z := foldr (fun x acc => value x + acc) 0 l.
Definition encode_checked (w : nat) (v : Z) : option (array w) :=
  if (0 <=? v) && (v <? 2 ^ (8 * Z.of_nat w)) then Some (encode w v) else None.

Lemma value_encode w v : 0 <= v < 2 ^ (8 * Z.of_nat w) -> value (encode w v) = v.
Proof.
  intros Hv. unfold value, encode. cbn [bytes from_vec].
  rewrite fit_array by apply be_bytes_ok. by apply be_value_bytes.
Qed.

Lemma encode_checked_value w v a : encode_checked w v = Some a -> value a = v /\ a = encode w v.
Proof.
  unfold encode_checked. destruct (Z.leb_spec 0 v), (Z.ltb_spec v (2 ^ (8 * Z.of_nat w))); cbn; try done.
  intros [= <-]. split; [|done]. by apply value_encode.
Qed.

Definition integer_secp : Secp := {|
  PublicKey := ();
  to_pubkey _ := Some ();
  verify_single _ _ _ := true;
  verify_bullet_proof_multi _ _ := true;
  secret_key_from_slice b := Some b;
  commit v k := encode_checked 33 (v + value k);
  commit_value v := encode_checked 33 v;
  commit_sum ps ns := encode_checked 33 (values ps - values ns);
  blind_sum ps ns := encode_checked 32 (values ps - values ns);
  MAX_PROOF_SIZE := 8;
|}.

Definition integer_secp_laws : @SecpLaws integer_secp Z.
Proof.
  refine (@Build_SecpLaws integer_secp Z 0 Z.add Z.opp Z.add_comm Z.add_assoc Z.add_0_r Z.add_opp_diag_r
    value value eq_refl eq_refl _ _ (fun v => v) (fun a b => eq_refl) _ _ _ _).
  - intros ps ns c Hc. apply encode_checked_value in Hc as [Hc _].
    fold (values ns) (values ps). lia.
  - intros ps ns ps' ns' c c' Hc Hc' He. apply encode_checked_value in Hc as [Hc ->], Hc' as [Hc' ->].
    f_equal. lia.
  - intros v c Hc. by apply encode_checked_value in Hc as [Hc _].
  - intros k c Hc. by apply encode_checked_value in Hc as [Hc _].
  - intros ps ns k Hk. apply encode_checked_value in Hk as [Hk _]. fold (values ns) (values ps). lia.
  - intros b k [= ->]. done.
Defined.

(** Two transactions, the second spending the output of the first. *)
Definition suffix_hasher : Hasher := fun l => from_vec (rev l).
Definition plain_input (v : Z) : Input := mkInput Plain (encode 33 v).
Definition plain_output (v : Z) : Output := mkOutput Plain (encode 33 v) (mkRangeProof [] 0).
Definition plain_kernel (fee v : Z) : TxKernel := mkTxKernel KernelPlain fee 0 (encode 33 v) (from_vec []).
Definition tx_a : Transaction :=
  mkTransaction (encode 32 1) (mkBody [plain_input 10] [plain_output 12] [plain_kernel 3 4]).
Definition tx_b : Transaction :=
  mkTransaction (encode 32 3) (mkBody [plain_input 12] [plain_output 20] [plain_kernel 2 7]).

Definition tx_ab : Transaction :=
  match @aggregate suffix_hasher integer_secp [tx_a; tx_b] with Ok t => t | _ => tx_empty end.

Lemma aggregate_verifies_witness :
  @verify_kernel_sums integer_secp _ _ tx_ab (body_overage (body tx_ab)) (offset tx_ab)
    = Ok (encode 33 15, encode 33 11).
Proof.
  apply (@aggregate_verifies suffix_hasher integer_secp Z integer_secp_laws [tx_a; tx_b] tx_ab
    (encode 33 15) (encode 33 11) (encode 33 15)).
  - vm_compute. reflexivity.
  - vm_decide.
  - vm_decide.
  - enough (He : Forall (fun i => Forall (fun o => @input_hash suffix_hasher i = @output_hash suffix_hasher o ->
        in_commit i = out_commit o) (concat (map (fun t => outputs (body t)) [tx_a; tx_b])))
        (concat (map (fun t => inputs (body t)) [tx_a; tx_b]))).
    { intros i o Hi Ho. rewrite Forall_forall in He. specialize (He i Hi).
      rewrite Forall_forall in He. by apply He. }
    vm_decide.
  - repeat constructor; eexists; vm_compute; reflexivity.
  - vm_compute. reflexivity.
  - vm_compute. reflexivity.
Defined.
