(* ===== verification/Block.v ===== *)
(** * Block headers and blocks

    [core/src/core/block.rs], [compact_block.rs], [block_sums.rs] and the short
    identifiers of [id.rs].  The clock, the date range of the [chrono] crate, the
    foundation outputs (read from a JSON file), the SipHash function and the random
    nonce of a compact block are parameters. *)
From S2P Require Import Prelude Ser Global Pow Reward Feijoada Committed Transaction.

(** ** Headers *)
Record BlockHeader := mkBlockHeader {
  version : Z;
  height : Z;
  prev_hash : Hash;
  prev_root : Hash;
  h_timestamp : Z;
  output_root : Hash;
  range_proof_root : Hash;
  kernel_root : Hash;
  total_kernel_offset : BlindingFactor;
  output_mmr_size : Z;
  kernel_mmr_size : Z;
  pow : ProofOfWork;
  policy : Z;
  bottles : Policy;
}.
#[export] Instance BlockHeader_eq_dec : EqDecision BlockHeader.
Proof. solve_decision. Defined.

Definition valid_header_version (height version : Z) : bool := version =? CURRENT_HEADER_VERSION.

Definition pow_default (c : ChainTypes) : ProofOfWork :=
  mkProofOfWork (from_num 1) 1 0 (proof_zero c (Z.to_nat (proofsize c))) (from_vec []).

Definition header_default (c : ChainTypes) : BlockHeader :=
  mkBlockHeader CURRENT_HEADER_VERSION 0 ZERO_HASH ZERO_HASH 0 ZERO_HASH ZERO_HASH ZERO_HASH
    blinding_zero 0 0 (pow_default c) 0 get_bottles_default.

(** The portion before the proof of work. *)
Definition header_write_pre_pow (h : BlockHeader) : list Z :=
  write_u64 (height h) ++ write_i64 (h_timestamp h)
  ++ write_array (prev_hash h) ++ write_array (prev_root h)
  ++ write_array (output_root h) ++ write_array (range_proof_root h) ++ write_array (kernel_root h)
  ++ write_array (total_kernel_offset h)
  ++ write_u64 (output_mmr_size h) ++ write_u64 (kernel_mmr_size h).

Definition write_header (c : ChainTypes) (mode : SerializationMode) (h : BlockHeader)
    : outcome ser_error (list Z) :=
  let? p := write_pow c mode (pow h) in
  Ok (write_u16 (version h)
      ++ match mode with HashMode => [] | Full => header_write_pre_pow h end
      ++ p ++ write_u8 (policy h) ++ write_policy (bottles h)).

(** What the miner hashes. *)
Definition pre_pow (h : BlockHeader) : list Z :=
  write_u16 (version h) ++ header_write_pre_pow h ++ write_pre_pow (pow h) ++ write_u64 (nonce (pow h)).

Definition pre_pow_hash (keccak_256 : list Z -> Hash) (h : BlockHeader) : Hash :=
  keccak_256 (write_u16 (version h) ++ header_write_pre_pow h ++ write_pre_pow (pow h)).

Definition h_total_difficulty (h : BlockHeader) : Difficulty := total_difficulty (pow h).

(** [x.checked_neg().unwrap_or(0)] on [i64]. *)
Definition neg_or_zero (x : Z) : Z := if x =? - 2 ^ 63 then 0 else - x.

Definition overage (c : ChainTypes) (h : BlockHeader) : outcome () Z :=
  let? r := reward_at_height (height h) in
  let? f := add_reward_foundation c (height h) in
  Ok (neg_or_zero (wrap_i64 (r +! f))).

Definition total_overage (c : ChainTypes) (h : BlockHeader) (genesis_had_reward : bool) : outcome () Z :=
  let? x := total_overage_at_height c (height h) genesis_had_reward in Ok (neg_or_zero x).

(** The element of the header MMR. *)
Record HeaderEntry := mkHeaderEntry {
  e_hash : Hash;
  e_timestamp : Z;
  e_total_difficulty : Difficulty;
  e_secondary_scaling : Z;
  e_is_secondary : bool;
}.

Definition write_header_entry (e : HeaderEntry) : list Z :=
  write_array (e_hash e) ++ write_u64 (e_timestamp e) ++ write_difficulty (e_total_difficulty e)
  ++ write_u32 (e_secondary_scaling e) ++ (if e_is_secondary e then write_u8 1 else write_u8 0).

Definition read_header_entry : read HeaderEntry :=
  hash <- read_hash ;; timestamp <- read_u64 ;; total_difficulty <- read_difficulty ;;
  secondary_scaling <- read_u32 ;; b <- read_u8 ;;
  ret (mkHeaderEntry hash timestamp total_difficulty secondary_scaling (negb (b =? 0))).

Section Dates.
(** [MIN_DATE] and [MAX_DATE] of the [chrono] crate, as timestamps. *)
Context (c : ChainTypes) (min_date max_date : Z).

Definition read_header : read BlockHeader :=
  version <- read_u16 ;;
  height <- read_u64 ;; timestamp <- read_i64 ;;
  prev_hash <- read_hash ;; prev_root <- read_hash ;;
  output_root <- read_hash ;; range_proof_root <- read_hash ;; kernel_root <- read_hash ;;
  total_kernel_offset <- read_array 32 ;;
  output_mmr_size <- read_u64 ;; kernel_mmr_size <- read_u64 ;;
  pow <- read_pow c ;;
  policy <- read_u8 ;; bottles <- read_policy ;;
  if (timestamp >? max_date) || (timestamp <? min_date) then fail CorruptedData
  else if negb (valid_header_version height version) then fail InvalidBlockVersion
  else ret (mkBlockHeader version height prev_hash prev_root timestamp output_root range_proof_root
              kernel_root total_kernel_offset output_mmr_size kernel_mmr_size pow policy bottles).

End Dates.

(** ** Blocks *)
Record Block := mkBlock { header : BlockHeader; b_body : TransactionBody }.

#[export] Instance committed_block : Committed Block := {
  inputs_committed b := inputs_committed (b_body b);
  outputs_committed b := outputs_committed (b_body b);
  kernels_committed b := kernels_committed (b_body b);
}.

Inductive block_error : Type :=
| CoinbaseSumMismatch
| InvalidFoundationOutput
| KernelLockHeight (h : Z)
| BlockTransaction (e : tx_error)
| BlockSecp
| BlockCommitted (e : committed_error)
| BlockOther.

(** Running totals of a chain. *)
Record BlockSums := mkBlockSums { utxo_sum : Commitment; kernel_sum : Commitment }.
#[export] Instance BlockSums_eq_dec : EqDecision BlockSums.
Proof. solve_decision. Defined.
Definition block_sums_default : BlockSums := mkBlockSums commit_to_zero_value commit_to_zero_value.

#[export] Instance committed_sums {T} `{Committed T} : Committed (BlockSums * T) := {
  inputs_committed p := inputs_committed p.2;
  outputs_committed p := utxo_sum p.1 :: outputs_committed p.2;
  kernels_committed p := kernel_sum p.1 :: kernels_committed p.2;
}.

Definition write_block_sums (s : BlockSums) : list Z := write_array (utxo_sum s) ++ write_array (kernel_sum s).
Definition read_block_sums : read BlockSums :=
  u <- read_array 33 ;; k <- read_array 33 ;; ret (mkBlockSums u k).

Definition total_fees (b : Block) : Z := foldl (fun acc k => sat_add acc (fee k)) 0 (kernels (b_body b)).

Definition with_header (h : BlockHeader) : Block := mkBlock h body_empty.
Definition with_reward (b : Block) (reward_out : Output) (reward_kern : TxKernel) : Block :=
  mkBlock (header b) (mkBody (inputs (b_body b)) [reward_out] [reward_kern]).
Definition with_coinbase (b : Block) (reward foundation : Output * TxKernel) : Block :=
  mkBlock (header b) (mkBody (inputs (b_body b)) [reward.1; foundation.1] [reward.2; foundation.2]).

Definition verify_kernel_lock_heights (b : Block) : outcome block_error () :=
  foldM (fun _ k => if lock_height k >? height (header b) then Err (KernelLockHeight (lock_height k)) else Ok tt)
    (kernels (b_body b)) tt.

(** A panic of the reward functions stays a panic. *)
Definition no_err {E A} (m : outcome () A) : outcome E A :=
  match m with
  | Ok a => Ok a
  | _ => Panic
  end.

Section Blocks.
Context `{Hasher} `{Secp} (c : ChainTypes).
Context (load_foundation_output : Z -> Output * TxKernel).

Definition header_hash (h : BlockHeader) : outcome ser_error Hash :=
  let? content := write_header c HashMode h in Ok (blake2b content).

Definition as_elmt (h : BlockHeader) : outcome ser_error HeaderEntry :=
  let? hash := header_hash h in
  Ok (mkHeaderEntry hash (wrap64 (h_timestamp h)) (h_total_difficulty h)
        (secondary_scaling (pow h)) (is_secondary (pow h))).

Definition block_cut_through (b : Block) : outcome block_error Block :=
  let? '(ins, outs) := map_err BlockTransaction (cut_through (inputs (b_body b)) (outputs (b_body b))) in
  Ok (mkBlock (header b) (sort_body (mkBody ins outs (kernels (b_body b))))).

(** The header of the next block; the [..Default::default()] fields. *)
Definition next_header (prev : BlockHeader) (prev_header_hash : Hash) (now : Z)
    (total_kernel_offset : BlindingFactor) (difficulty : Difficulty) : BlockHeader :=
  mkBlockHeader CURRENT_HEADER_VERSION (height prev +! 1) prev_header_hash ZERO_HASH now
    ZERO_HASH ZERO_HASH ZERO_HASH total_kernel_offset 0 0
    (mkProofOfWork (difficulty_add difficulty (h_total_difficulty prev)) 1 0
       (proof_zero c (Z.to_nat (proofsize c))) (from_vec []))
    0 get_bottles_default.

(** The common end of [from_reward] and [from_coinbases]. *)
Definition build_block (prev : BlockHeader) (now : Z) (difficulty : Difficulty)
    (agg_offset : BlindingFactor) (body : TransactionBody) : outcome block_error Block :=
  let? offset := map_err BlockCommitted
                   (sum_kernel_offsets [agg_offset; total_kernel_offset prev] []) in
  let? prev_header_hash := match header_hash prev with Ok h => Ok h | _ => Panic end in
  block_cut_through (mkBlock (next_header prev prev_header_hash now offset difficulty) body).

Definition from_reward (now : Z) (prev : BlockHeader) (txs : list Transaction) (reward_out : Output)
    (reward_kern : TxKernel) (difficulty : Difficulty) : outcome block_error Block :=
  let? agg_tx := map_err BlockTransaction (aggregate txs) in
  build_block prev now difficulty (offset agg_tx)
    (with_kernel (with_output (body agg_tx) reward_out) reward_kern).

Definition from_coinbases (now : Z) (prev : BlockHeader) (txs : list Transaction)
    (reward foundation : Output * TxKernel) (difficulty : Difficulty) : outcome block_error Block :=
  let? agg_tx := map_err BlockTransaction (aggregate txs) in
  build_block prev now difficulty (offset agg_tx)
    (with_kernel (with_output (with_kernel (with_output (body agg_tx) reward.1) reward.2)
       foundation.1) foundation.2).

(** [Block::new] without the random proof it sets last. *)
Definition block_new (now : Z) (prev : BlockHeader) (txs : list Transaction) (difficulty : Difficulty)
    (reward_output : Output * TxKernel) : outcome block_error Block :=
  let next_height := height prev +! 1 in
  let? f := no_err (is_foundation_height c next_height) in
  if f then from_coinbases now prev txs reward_output (load_foundation_output next_height) difficulty
  else from_reward now prev txs reward_output.1 reward_output.2 difficulty.

(** ** Validation *)
Definition block_validate_read (b : Block) : outcome block_error () :=
  try? map_err BlockTransaction (body_validate_read c AsBlock (b_body b)) then
  verify_kernel_lock_heights b.

Definition block_kernel_offset (b : Block) (prev_kernel_offset : BlindingFactor)
    : outcome block_error BlindingFactor :=
  if decide (total_kernel_offset (header b) = prev_kernel_offset) then Ok blinding_zero
  else map_err BlockCommitted (sum_kernel_offsets [total_kernel_offset (header b)] [prev_kernel_offset]).

Definition cb_outs (b : Block) : list Output := filter (fun o => out_features o = Coinbase) (outputs (b_body b)).
Definition cb_kerns (b : Block) : list TxKernel := filter (fun k => features k = KernelCoinbase) (kernels (b_body b)).

Definition verify_coinbase (b : Block) : outcome block_error () :=
  let? foundation := no_err (is_foundation_height c (height (header b))) in
  if foundation && negb (existsb (fun x => bool_decide
       (out_commit x = out_commit (load_foundation_output (height (header b))).1)) (cb_outs b))
  then Err InvalidFoundationOutput
  else
    let? r := no_err (reward_foundation c (total_fees b) (height (header b))) in
    let? over_commit := ok_or (commit_value r) BlockSecp in
    let? out_adjust_sum := ok_or (commit_sum (map out_commit (cb_outs b)) [over_commit]) BlockSecp in
    let? kerns_sum := ok_or (commit_sum (map excess (cb_kerns b)) []) BlockSecp in
    if decide (kerns_sum <> out_adjust_sum) then Err CoinbaseSumMismatch else Ok tt.

Definition block_validate (b : Block) (prev_kernel_offset : BlindingFactor) : outcome block_error Commitment :=
  try? map_err BlockTransaction (body_validate c AsBlock (b_body b)) then
  try? verify_kernel_lock_heights b then
  try? verify_coinbase b then
  let? ov := no_err (overage c (header b)) in
  let? off := block_kernel_offset b prev_kernel_offset in
  let? '(_, kernel_sum) := map_err BlockCommitted (verify_kernel_sums b ov off) in
  Ok kernel_sum.

(** ** Encoding *)
Definition write_block (mode : SerializationMode) (b : Block) : outcome ser_error (list Z) :=
  let? h := write_header c mode (header b) in
  Ok (h ++ match mode with HashMode => [] | Full => write_body mode (b_body b) end).

Definition read_block (min_date max_date : Z) : read Block :=
  header <- read_header c min_date max_date ;;
  body <- read_body c ;;
  fun r =>
    match body_validate_read c AsBlock body with
    | Ok _ => Ok (mkBlock header body, r)
    | Err _ => Err CorruptedData
    | Panic => Panic
    end.

(** ** Compact blocks *)
Abbreviation ShortId := (array 6).

Record CompactBlockBody := mkCompactBody {
  out_full : list Output;
  kern_full : list TxKernel;
  kern_ids : list ShortId;
}.
Record CompactBlock := mkCompactBlock { cb_header : BlockHeader; cb_nonce : Z; cb_body : CompactBlockBody }.

Definition short_id_hash (s : ShortId) : Hash := blake2b (write_array s).

(** SipHash-2-4 with its two keys, from the [siphasher] crate. *)
Context (siphash24 : Z -> Z -> list Z -> Z).

Definition le_value (bs : list Z) : Z := be_value (reverse bs).
Definition le_bytes (w : nat) (x : Z) : list Z := reverse (be_bytes w x).

Definition short_id (self_hash : Hash) (hash : Hash) (nonce : Z) : ShortId :=
  let hash_with_nonce := blake2b (write_array hash ++ write_u64 nonce) in
  let k0 := le_value (take 8 (bytes hash_with_nonce)) in
  let k1 := le_value (take 8 (drop 8 (bytes hash_with_nonce))) in
  let res := siphash24 k0 k1 (bytes self_hash) in
  from_vec (take 6 (le_bytes 8 res)).

Definition compact_verify_sorted (b : CompactBlockBody) : outcome ser_error () :=
  try? verify_sorted_and_unique (map output_hash (out_full b)) then
  try? verify_sorted_and_unique (map kernel_hash (kern_full b)) then
  verify_sorted_and_unique (map short_id_hash (kern_ids b)).

Definition compact_sort (b : CompactBlockBody) : CompactBlockBody :=
  mkCompactBody (sort_by_hash output_hash (out_full b)) (sort_by_hash kernel_hash (kern_full b))
    (sort_by_hash short_id_hash (kern_ids b)).

(** [From<Block> for CompactBlock], with the random nonce as an argument. *)
Definition compact_from_block (nonce : Z) (b : Block) : outcome ser_error CompactBlock :=
  let? h := header_hash (header b) in
  let kern_full := filter (fun k => features k = KernelCoinbase) (kernels (b_body b)) in
  let kern_ids := map (fun k => short_id (kernel_hash k) h nonce)
                    (filter (fun k => features k <> KernelCoinbase) (kernels (b_body b))) in
  Ok (mkCompactBlock (header b) nonce (compact_sort (mkCompactBody (cb_outs b) kern_full kern_ids))).

Definition write_compact_body (b : CompactBlockBody) : list Z :=
  write_u64 (len (out_full b)) ++ write_u64 (len (kern_full b)) ++ write_u64 (len (kern_ids b))
  ++ concat (map (write_output Full) (out_full b)) ++ concat (map write_kernel (kern_full b))
  ++ concat (map write_array (kern_ids b)).

Definition read_compact_body : read CompactBlockBody :=
  out_full_len <- read_u64 ;; kern_full_len <- read_u64 ;; kern_id_len <- read_u64 ;;
  out_full <- read_multi read_output out_full_len ;;
  kern_full <- read_multi read_kernel kern_full_len ;;
  kern_ids <- read_multi (read_array 6) kern_id_len ;;
  fun r =>
    let b := mkCompactBody out_full kern_full kern_ids in
    match compact_verify_sorted b with
    | Ok _ => Ok (b, r)
    | Err _ => Err CorruptedData
    | Panic => Panic
    end.

Definition write_compact_block (mode : SerializationMode) (cb : CompactBlock) : outcome ser_error (list Z) :=
  let? h := write_header c mode (cb_header cb) in
  Ok (h ++ match mode with
           | HashMode => []
           | Full => write_u64 (cb_nonce cb) ++ write_compact_body (cb_body cb)
           end).

Definition read_compact_block (min_date max_date : Z) : read CompactBlock :=
  header <- read_header c min_date max_date ;; nonce <- read_u64 ;; body <- read_compact_body ;;
  fun r =>
    match compact_verify_sorted body with
    | Ok _ => Ok (mkCompactBlock header nonce body, r)
    | Err _ => Err CorruptedData
    | Panic => Panic
    end.

(** A [HashSet]: one element per serialization. *)
Definition dedup {A} (wr : A -> list Z) (l : list A) : list A :=
  foldl (fun acc x => if existsb (fun y => bool_decide (wr y = wr x)) acc then acc else acc ++ [x]) [] l.

Definition hydrate_from (cb : CompactBlock) (txs : list Transaction) : outcome block_error Block :=
  let ins := dedup write_input (concat (map (fun t => inputs (body t)) txs)) in
  let outs := dedup (write_output Full)
                (concat (map (fun t => outputs (body t)) txs) ++ out_full (cb_body cb)) in
  let kers := dedup write_kernel
                (concat (map (fun t => kernels (body t)) txs) ++ kern_full (cb_body cb)) in
  block_cut_through (mkBlock (cb_header cb) (sort_body (mkBody ins outs kers))).

End Blocks.
