(* ===== verification/BlockTheory.v ===== *)
(** * Blocks: encoding and conservation

    A block that its writer produced and that satisfies the structural checks is
    read back unchanged; a block that validates creates exactly the reward of its
    height. *)
From S2P Require Import Prelude Ser Global Pow Reward Feijoada Committed Transaction CutThrough Block.

(** ** Policies on the wire *)
Definition policy_ok (p : Policy) : Prop := map_Forall (fun _ v => 0 <= v < 2 ^ 32) p.

Lemma reads_policy_entries l m :
  Forall (fun e => 0 <= e.2 < 2 ^ 32) l ->
  reads (read_policy_entries (length l) m) (concat (map write_policy_entry l))
    (foldl (fun m e => <[e.1 := e.2]> m) m l).
Proof.
  intros Hl. revert m. induction Hl as [|[t v] l Hv _ IH]; intros m; [apply reads_ret|].
  cbn [length read_policy_entries map concat foldl fst snd]. unfold write_policy_entry at 1. cbn [fst snd] in *.
  rewrite <- !app_assoc. pose proof (PoWType_to_u8_range t).
  eapply reads_bind; [apply reads_uint; change (2 ^ (8 * Z.of_nat 1)) with 256; lia|]. cbv beta.
  rewrite <- (app_nil_l (_ ++ concat _)).
  eapply reads_bind; [apply reads_lift, PoWType_try_from_to_u8|].
  eapply reads_bind; [by apply (reads_uint 4)|]. apply IH.
Qed.

Lemma reads_policy p : policy_ok p -> reads read_policy (write_policy p) p.
Proof.
  intros Hp. unfold read_policy, write_policy.
  pose proof (diff_vec_perm (mkDifficulty p)) as Hperm. pose proof (diff_vec_to_map (mkDifficulty p)) as Hmap.
  unfold diff_vec in *. cbn [num] in *. set (l := merge_sort entry_le (map_to_list p)) in *.
  assert (Hlen : length l = size p) by (rewrite (Permutation_length Hperm); apply length_map_to_list).
  eapply reads_bind; [apply (reads_uint 8)|].
  { pose proof (difficulty_entries (mkDifficulty p)) as Hle. cbn [num] in Hle.
    change (2 ^ (8 * Z.of_nat 8)) with (2 ^ 64). lia. }
  rewrite Nat2Z.id, <- Hlen.
  assert (Hp' : foldl (fun m e => <[e.1 := e.2]> m) ∅ l = p) by (by rewrite foldl_insert_list_to_map).
  assert (Hr : reads (read_policy_entries (length l) ∅) (concat (map write_policy_entry l))
    (foldl (fun m e => <[e.1 := e.2]> m) ∅ l)); [|by rewrite Hp' in Hr].
  apply reads_policy_entries. apply Forall_forall. intros [t v] Hin.
  rewrite Hperm, elem_of_map_to_list in Hin. by apply (Hp t).
Qed.

(** ** Headers *)
Definition pow_ok (c : ChainTypes) (p : ProofOfWork) : Prop :=
  difficulty_ok (total_difficulty p) /\ 0 <= secondary_scaling p < 2 ^ 32 /\ is_u64 (nonce p)
  /\ proof_ok c (Pow.proof p).

Definition header_ok (c : ChainTypes) (min_date max_date : Z) (h : BlockHeader) : Prop :=
  version h = CURRENT_HEADER_VERSION /\ is_u64 (height h)
  /\ is_i64 (h_timestamp h) /\ min_date <= h_timestamp h <= max_date
  /\ is_u64 (output_mmr_size h) /\ is_u64 (kernel_mmr_size h)
  /\ pow_ok c (pow h) /\ 0 <= policy h < 256 /\ policy_ok (bottles h).

Lemma reads_header c min_date max_date h :
  header_ok c min_date max_date h ->
  exists bs, write_header c Full h = Ok bs /\ reads (read_header c min_date max_date) bs h.
Proof.
  destruct h as [v ht ph pr ts orr rr kr tko oms kms pw po bo]. unfold header_ok, pow_ok. cbn [version height prev_hash prev_root h_timestamp output_root
    range_proof_root kernel_root total_kernel_offset output_mmr_size kernel_mmr_size pow policy bottles].
  intros (-> & Hh & Hts & Hd & Ho & Hk & (Hp1 & Hp2 & Hp3 & Hp4) & Hpo & Hbo).
  destruct (reads_pow c pw Hp1 Hp2 Hp3 Hp4) as (pbs & Hw & Hr).
  unfold write_header. cbn [pow]. rewrite Hw. cbn [bind]. eexists. split; [reflexivity|].
  unfold header_write_pre_pow, read_header. cbn [version height prev_hash prev_root h_timestamp output_root
    range_proof_root kernel_root total_kernel_offset output_mmr_size kernel_mmr_size pow policy bottles]. rewrite <- !app_assoc.
  eapply reads_bind; [by apply (reads_uint 2)|].
  eapply reads_bind; [by apply (reads_uint 8)|].
  eapply reads_bind; [by apply reads_i64|].
  do 6 (eapply reads_bind; [by apply reads_array|]).
  do 2 (eapply reads_bind; [by apply (reads_uint 8)|]).
  eapply reads_bind; [done|].
  eapply reads_bind; [by apply (reads_uint 1)|]. cbv beta.
  rewrite <- (app_nil_r (write_policy bo)). eapply reads_bind; [by apply reads_policy|]. cbv beta.
  rewrite Z.gtb_ltb. destruct (Z.ltb_spec max_date ts); [lia|]. destruct (Z.ltb_spec ts min_date); [lia|].
  apply reads_ret.
Qed.

(** ** Bodies *)
Section Bodies.
Context `{Hasher} `{Secp}.

Definition output_ok (o : Output) : Prop :=
  length (rp_proof (out_proof o)) = MAX_PROOF_SIZE /\ plen (out_proof o) = MAX_PROOF_SIZE.
Definition kernel_ok (k : TxKernel) : Prop := is_u64 (fee k) /\ is_u64 (lock_height k).

Lemma reads_output_features f : reads read_output_features (write_output_features f) f.
Proof.
  unfold read_output_features, write_output_features. rewrite <- (app_nil_r (write_u8 _)).
  eapply reads_bind; [by apply (reads_uint 1); destruct f|]. destruct f; apply reads_ret.
Qed.

Lemma reads_kernel_features f : reads read_kernel_features (write_kernel_features f) f.
Proof.
  unfold read_kernel_features, write_kernel_features. rewrite <- (app_nil_r (write_u8 _)).
  eapply reads_bind; [by apply (reads_uint 1); destruct f|]. destruct f; apply reads_ret.
Qed.

Lemma reads_input i : reads read_input (write_input i) i.
Proof.
  destruct i as [f x]. unfold read_input, write_input. cbn [in_features in_commit].
  eapply reads_bind; [apply reads_output_features|].
  apply (reads_map _ (fun x => mkInput f x)). by apply reads_array.
Qed.

Lemma reads_kernel k : kernel_ok k -> reads read_kernel (write_kernel k) k.
Proof.
  destruct k as [f fe l e s]. intros [Hf Hl]. unfold read_kernel, write_kernel. cbn [features fee lock_height excess excess_sig] in *.
  eapply reads_bind; [apply reads_kernel_features|].
  eapply reads_bind; [by apply (reads_uint 8)|].
  eapply reads_bind; [by apply (reads_uint 8)|].
  eapply reads_bind; [by apply reads_array|].
  apply (reads_map _ (fun s => mkTxKernel f fe l e s)). by apply reads_array.
Qed.

Hypothesis MAX_PROOF_SIZE_small : Z.of_nat MAX_PROOF_SIZE <= 100000.

Lemma reads_range_proof p :
  length (rp_proof p) = MAX_PROOF_SIZE -> plen p = MAX_PROOF_SIZE ->
  reads read_range_proof (write_range_proof p) p.
Proof.
  destruct p as [p n]. cbn [rp_proof plen]. intros Hl ->. unfold write_range_proof, write_bytes, read_range_proof.
  cbn [rp_proof plen]. rewrite take_ge by lia. rewrite Hl.
  eapply reads_bind; [apply (reads_uint 8); change (2 ^ (8 * Z.of_nat 8)) with (2 ^ 64); lia|]. cbv beta.
  rewrite Z.min_id, Nat2Z.id.
  replace (mkRangeProof p MAX_PROOF_SIZE)
    with (mkRangeProof (p ++ replicate (MAX_PROOF_SIZE - length p) 0) MAX_PROOF_SIZE)
    by (by rewrite Hl, Nat.sub_diag, app_nil_r).
  apply (reads_map _ (fun p => mkRangeProof (p ++ replicate (MAX_PROOF_SIZE - length p) 0) MAX_PROOF_SIZE)).
  by apply reads_fixed.
Qed.

Lemma reads_output o : output_ok o -> reads read_output (write_output Full o) o.
Proof.
  destruct o as [f x p]. intros [Hl Hn]. unfold read_output, write_output. cbn [out_features out_commit out_proof] in *.
  eapply reads_bind; [apply reads_output_features|].
  eapply reads_bind; [by apply reads_array|]. cbv beta.
  apply (reads_map _ (fun p => mkOutput f x p)). by apply reads_range_proof.
Qed.

Definition body_ok (c : ChainTypes) (b : TransactionBody) : Prop :=
  Forall output_ok (outputs b) /\ Forall kernel_ok (kernels b)
  /\ body_weight_as_block b <= max_block_weight c /\ verify_sorted b = Ok tt.

Lemma body_counts c b :
  body_weight_as_block b <= max_block_weight c ->
  len (inputs b) <= 40000 /\ len (outputs b) <= 40000 /\ len (kernels b) <= 40000.
Proof.
  unfold body_weight_as_block, weight_as_block, sat_add, sat_mul, len, u64_max,
    BLOCK_INPUT_WEIGHT, BLOCK_OUTPUT_WEIGHT, BLOCK_KERNEL_WEIGHT.
  assert (max_block_weight c <= 40000) by (destruct c; vm_compute; congruence). lia.
Qed.

Lemma reads_body c b : body_ok c b -> reads (read_body c) (write_body Full b) b.
Proof.
  intros (Ho & Hk & Hw & Hs). destruct (body_counts c b Hw) as (Li & Lo & Lk).
  destruct b as [ins outs kers]. unfold len in *. cbn [inputs outputs kernels] in *.
  unfold read_body, write_body, len. cbn [inputs outputs kernels].
  do 3 (eapply reads_bind; [apply (reads_uint 8); change (2 ^ (8 * Z.of_nat 8)) with (2 ^ 64); lia|]; cbv beta).
  unfold body_weight_as_block, len in Hw. cbn [inputs outputs kernels] in Hw.
  rewrite Z.gtb_ltb. destruct (Z.ltb_spec (max_block_weight c)
    (weight_as_block (Z.of_nat (length ins)) (Z.of_nat (length outs)) (Z.of_nat (length kers)))); [lia|].
  rewrite Forall_forall in Ho. rewrite Forall_forall in Hk.
  eapply reads_bind; [apply (reads_multi _ write_input); [by intros; apply reads_input|lia]|].
  eapply reads_bind; [apply (reads_multi _ (write_output Full)); [by intros; apply reads_output, Ho|lia]|].
  cbv beta. rewrite <- (app_nil_r (concat (map write_kernel kers))).
  eapply reads_bind; [apply (reads_multi _ write_kernel); [by intros; apply reads_kernel, Hk|lia]|].
  cbv beta. unfold body_init. rewrite Hs. cbn [bind].
  intros k rest total Ht. by rewrite counted_nil.
Qed.

Lemma reads_tx c t :
  body_ok c (body t) -> validate_read c t = Ok tt -> reads (read_tx c) (write_tx Full t) t.
Proof.
  intros Hb Hv. destruct t as [o b]. unfold read_tx, write_tx. cbn [offset body] in *.
  eapply reads_bind; [by apply reads_array|]. rewrite <- (app_nil_r (write_body Full b)).
  eapply reads_bind; [by apply reads_body|]. cbv beta. rewrite Hv.
  intros k rest total Ht. by rewrite counted_nil.
Qed.

Lemma reads_block c min_date max_date b :
  header_ok c min_date max_date (header b) -> body_ok c (b_body b) ->
  body_validate_read c AsBlock (b_body b) = Ok tt ->
  exists bs, write_block c Full b = Ok bs /\ reads (read_block c min_date max_date) bs b.
Proof.
  intros Hh Hb Hv. destruct b as [h b]. cbn [header b_body] in *.
  destruct (reads_header c min_date max_date h Hh) as (hbs & Hw & Hr).
  unfold write_block. cbn [header b_body]. rewrite Hw. cbn [bind]. eexists. split; [reflexivity|].
  unfold read_block. eapply reads_bind; [done|]. rewrite <- (app_nil_r (write_body Full b)).
  eapply reads_bind; [by apply reads_body|]. cbv beta. rewrite Hv.
  intros k rest total Ht. by rewrite counted_nil.
Qed.

(** What passes the validation of a body can be written. *)
Lemma validated_body_ok c w x :
  w = AsBlock \/ w = AsTransaction ->
  Forall output_ok (outputs x) -> Forall kernel_ok (kernels x) ->
  body_validate_read c w x = Ok tt -> body_ok c x.
Proof.
  intros Hw Ho Hk Hv. unfold body_validate_read in Hv. inv_ok.
  split_and!; [done|done| |done].
  destruct Hw as [->| ->]; unfold verify_weight in Hok; rewrite Z.gtb_ltb in Hok.
  - destruct (Z.ltb_spec (max_block_weight c) (body_weight_as_block x)); [done|lia].
  - destruct (Z.ltb_spec (sat_sub (max_block_weight c) (BLOCK_OUTPUT_WEIGHT + BLOCK_KERNEL_WEIGHT))
      (body_weight_as_block x)) as [|Hle]; [done|].
    unfold sat_sub, BLOCK_OUTPUT_WEIGHT, BLOCK_KERNEL_WEIGHT in Hle.
    assert (24 <= max_block_weight c) by (destruct c; vm_compute; congruence). lia.
Qed.

(** C37. Blocks and transactions survive the wire: what passes the structural
    checks (and has fields within their widths) is written without a panic and read
    back unchanged by either reader, with nothing left over. *)
Theorem block_roundtrip c min_date max_date b t :
  header_ok c min_date max_date (header b) ->
  Forall output_ok (outputs (b_body b)) -> Forall kernel_ok (kernels (b_body b)) ->
  body_validate_read c AsBlock (b_body b) = Ok tt ->
  Forall output_ok (outputs (body t)) -> Forall kernel_ok (kernels (body t)) ->
  validate_read c t = Ok tt ->
  (exists bs, write_block c Full b = Ok bs /\ reads (read_block c min_date max_date) bs b)
  /\ reads (read_tx c) (write_tx Full t) t.
Proof.
  intros Hh Ho Hk Hv Hto Htk Htv. split.
  - apply reads_block; [done|by eapply (validated_body_ok c AsBlock); auto|done].
  - apply reads_tx; [|done]. unfold validate_read in Htv. apply bind_Ok_inv in Htv as ([] & Htv & _).
    eapply (validated_body_ok c AsTransaction); auto.
Qed.

End Bodies.

(** ** Conservation *)
Section Conservation.
Context `{Hasher} `{Secp} {G : Type} `{!SecpLaws G} (c : ChainTypes).
Context (load_foundation_output : Z -> Output * TxKernel).

Lemma no_err_Ok {E A} (m : outcome () A) (a : A) : @no_err E A m = Ok a -> m = Ok a.
Proof. destruct m; cbn; congruence. Qed.

(** What a block of height [h] may create: the mining reward and, at a foundation
    height, the levies withheld since the last one. *)
Definition creates (h : Z) : Z :=
  block_total_reward_at_height h - levy h
  + (if bool_decide (0 < h <= LEVY_DAYS /\ h mod foundation_height c = 0)
     then sum_range levy (h - foundation_height c + 1) (Z.to_nat (foundation_height c)) else 0).

Lemma creates_bounds h : 0 <= h < last_height -> 0 <= creates h < 2 ^ 62.
Proof.
  intros Hh. unfold creates. pose proof (levy_bounds h). pose proof (total_reward_bounds h).
  assert (Hr : 0 <= sum_range levy (h - foundation_height c + 1) (Z.to_nat (foundation_height c))
    <= 1440 * (16 * EPIC_BASE)).
  { split; [apply sum_range_nonneg; intros i; apply levy_bounds|].
    etransitivity; [apply sum_levy_le|]. pose proof (foundation_height_cases c). unfold EPIC_BASE. lia. }
  unfold EPIC_BASE in *. case_bool_decide; lia.
Qed.

Lemma header_overage h :
  0 <= height h < last_height -> overage c h = Ok (- creates (height h)).
Proof.
  intros Hh. pose proof (creates_bounds (height h) Hh) as Hb. unfold overage.
  assert (last_height < 2 ^ 50) by (schedule; lia).
  rewrite reward_at_height_levy, add_reward_foundation_spec by lia. cbn [bind].
  unfold creates in Hb. rewrite u64_add_small by (unfold is_u64; lia).
  rewrite wrap_i64_small by (unfold is_i64; lia). unfold neg_or_zero.
  fold (creates (height h)) in *. destruct (Z.eqb_spec (creates (height h)) (- 2 ^ 63)); [lia|done].
Qed.

Lemma coinbase_reward fees h :
  0 <= h < last_height -> 0 <= fees < 2 ^ 63 ->
  reward_foundation c fees h = Ok (creates h + fees).
Proof.
  intros Hh Hf. pose proof (creates_bounds h Hh) as Hb. unfold reward_foundation, reward.
  assert (last_height < 2 ^ 50) by (schedule; lia).
  pose proof (levy_bounds h). pose proof (total_reward_bounds h). unfold EPIC_BASE in *.
  rewrite reward_at_height_levy by lia. cbn [bind]. rewrite add_reward_foundation_spec by lia. cbn [bind].
  unfold creates in *. unfold sat_add, u64_max. rewrite Z.min_r by lia.
  rewrite u64_add_small by (unfold is_u64; lia). f_equal. lia.
Qed.

Lemma total_fees_exact b :
  fees_ok (kernels (b_body b)) -> kernel_fees (kernels (b_body b)) < 2 ^ 63 ->
  total_fees b = kernel_fees (kernels (b_body b)).
Proof. intros Hf Hl. apply (body_fee_exact (b_body b)); done. Qed.

(** C27. A valid block creates exactly what its height allows: the points of its
    outputs are those of its inputs, plus the reward and the foundation payment of
    the height, plus the kernel excesses and the block's offset; its coinbase
    outputs carry that reward and the fees over its coinbase excesses; and no
    kernel is mined before its lock height.  The fees are below [2 ^ 63], and the height is
    one before the shift count of the reward wraps. *)
Theorem block_conserves_value b prev_offset ks :
  block_validate c load_foundation_output b prev_offset = Ok ks ->
  0 <= height (header b) < last_height ->
  fees_ok (kernels (b_body b)) -> kernel_fees (kernels (b_body b)) < 2 ^ 63 ->
  exists off, block_kernel_offset b prev_offset = Ok off
    /\ psum (outputs_committed b)
       = gadd (gadd (psum (inputs_committed b)) (value_point (creates (height (header b)))))
           (gadd (psum (kernels_committed b)) (key_point off))
    /\ psum (map out_commit (cb_outs b))
       = gadd (psum (map excess (cb_kerns b)))
           (value_point (creates (height (header b)) + kernel_fees (kernels (b_body b))))
    /\ Forall (fun k => lock_height k <= height (header b)) (kernels (b_body b)).
Proof.
  intros Hv Hh Hf Hfl. unfold block_validate in Hv.
  apply bind_Ok_inv in Hv as ([] & Hbody & Hv). apply bind_Ok_inv in Hv as ([] & Hlock & Hv).
  apply bind_Ok_inv in Hv as ([] & Hcb & Hv). apply bind_Ok_inv in Hv as (ov & Hov%no_err_Ok & Hv).
  apply bind_Ok_inv in Hv as (off & Hoff & Hv).
  apply bind_Ok_inv in Hv as ([u k] & Hsums%map_err_Ok_inv & Hv). injection Hv as ->.
  rewrite header_overage in Hov by done. injection Hov as <-.
  exists off. split_and!; [done| | |].
  - unfold verify_kernel_sums in Hsums. apply bind_Ok_inv in Hsums as (u' & Hu & Hsums).
    apply bind_Ok_inv in Hsums as ([k1 k2] & Hk & Hsums). case_decide as Hd; [done|]. subst u'.
    pose proof (creates_bounds _ Hh). apply sum_commitments_point_neg in Hu; [|lia].
    apply sum_kernel_excesses_point in Hk as (_ & Hk & _). rewrite <- Hu, Hk. apply gadd_comm.
  - unfold verify_coinbase in Hcb. apply bind_Ok_inv in Hcb as (fd & _ & Hcb).
    destruct (fd && _); [done|].
    apply bind_Ok_inv in Hcb as (r & Hr%no_err_Ok & Hcb). apply bind_Ok_inv in Hcb as (oc & Hoc%ok_or_Ok & Hcb).
    apply bind_Ok_inv in Hcb as (os & Hos%ok_or_Ok & Hcb). apply bind_Ok_inv in Hcb as (kss & Hks%ok_or_Ok & Hcb).
    case_decide as Hd; [done|]. subst kss.
    rewrite total_fees_exact in Hr by done. pose proof (kernel_fees_nonneg _ Hf).
    rewrite coinbase_reward in Hr by (done || lia).
    injection Hr as <-. apply commit_value_point in Hoc.
    apply commit_sum_point in Hos, Hks. cbn [foldr] in Hos, Hks. rewrite gadd_0 in Hos, Hks.
    unfold psum. rewrite <- Hos, <- Hks, Hoc. done.
  - unfold verify_kernel_lock_heights in Hlock. clear -Hlock.
    induction (kernels (b_body b)) as [|k l IH]; [constructor|]. cbn [foldM] in Hlock.
    rewrite Z.gtb_ltb in Hlock. destruct (Z.ltb_spec (height (header b)) (lock_height k)); [done|].
    cbn [bind] in Hlock. constructor; [lia|by apply IH].
Qed.

End Conservation.

(** ** Examples, on the integer model of the curve *)
Definition rp8 : RangeProof := mkRangeProof (replicate 8 0) 8.
Definition sample_header : BlockHeader :=
  let d := header_default AutomatedTesting in
  mkBlockHeader (version d) 1 (prev_hash d) (prev_root d) 1600000000 (output_root d) (range_proof_root d)
    (kernel_root d) (total_kernel_offset d) 1 1 (pow d) 0 (bottles d).
Definition sample_block : Block :=
  mkBlock sample_header
    (mkBody [] [mkOutput Coinbase (encode 33 1457920007) rp8]
       [mkTxKernel KernelCoinbase 0 0 (encode 33 7) (from_vec [])]).
Definition sample_tx : Transaction :=
  mkTransaction (encode 32 1)
    (mkBody [plain_input 10] [mkOutput Plain (encode 33 12) rp8] [plain_kernel 3 4]).
Definition no_foundation (_ : Z) : Output * TxKernel := (mkOutput Coinbase (encode 33 0) rp8, plain_kernel 0 0).

Lemma block_conserves_value_witness :
  exists off, @block_kernel_offset integer_secp sample_block blinding_zero = Ok off
    /\ Forall (fun k => lock_height k <= 1) (kernels (b_body sample_block)).
Proof.
  destruct (@block_conserves_value suffix_hasher integer_secp Z integer_secp_laws AutomatedTesting no_foundation
    sample_block blinding_zero (encode 33 7)) as (off & Hoff & _ & _ & Hl).
  - vm_compute. reflexivity.
  - vm_decide.
  - vm_decide.
  - vm_decide.
  - exists off. exact (conj Hoff Hl).
Defined.

Lemma block_roundtrip_witness :
  reads (@read_tx suffix_hasher integer_secp AutomatedTesting) (write_tx Full sample_tx) sample_tx.
Proof.
  apply (@block_roundtrip suffix_hasher integer_secp ltac:(vm_decide) AutomatedTesting 0 (2 ^ 40) sample_block sample_tx).
  - unfold header_ok, pow_ok. split_and!; vm_decide.
  - vm_decide.
  - vm_decide.
  - vm_compute. reflexivity.
  - vm_decide.
  - vm_decide.
  - vm_compute. reflexivity.
Defined.
