(* ===== verification/ChainStore.v ===== *)
(** * The chain store

    [store/src/lmdb.rs], the keys of [store/src/lib.rs], [chain/src/store.rs] and
    the tips of [chain/src/types.rs].  The database is LMDB, a map from byte
    strings to byte strings with write transactions: a transaction reads its own
    writes, a child transaction is merged into its parent when it commits, and
    nothing else is visible before the commit.  Failures of the disk are not
    modelled.  Values are stored in their serialized form. *)
From S2P Require Import Prelude Ser Global Pow Reward Retarget Feijoada Committed Transaction Block.

(** ** Key-value store *)
Inductive store_error : Type := NotFoundErr | LmdbErr | StoreSerErr.
#[export] Instance store_error_eq_dec : EqDecision store_error.
Proof. solve_decision. Defined.

Abbreviation kv := (gmap (list Z) (list Z)).

Record Store := mkStore { db : kv }.

(** A batch: what is committed, and what its own transaction sees. *)
Record Batch := mkBatch { committed : kv; tx : kv }.

Definition batch (s : Store) : Batch := mkBatch (db s) (db s).
Definition commit (b : Batch) : Store := mkStore (tx b).
Definition child (b : Batch) : Batch := mkBatch (committed b) (tx b).
Definition commit_child (parent b : Batch) : Batch := mkBatch (committed parent) (tx b).

Definition get_ser_access {A} (rd : read A) (access : kv) (key : list Z) : outcome store_error (option A) :=
  match access !! key with
  | Some res =>
      match deserialize rd res with
      | Ok res => Ok (Some res)
      | Err _ => Err StoreSerErr
      | Panic => Panic
      end
  | None => Ok None
  end.

Definition get_ser {A} (rd : read A) (b : Batch) (key : list Z) : outcome store_error (option A) :=
  get_ser_access rd (tx b) key.

(** [get] and [exists] of a batch go to the store, not to the transaction. *)
Definition get (b : Batch) (key : list Z) : outcome store_error (option (list Z)) := Ok (committed b !! key).
Definition exists_ (b : Batch) (key : list Z) : outcome store_error bool :=
  Ok (bool_decide (is_Some (committed b !! key))).

Definition put (b : Batch) (key value : list Z) : outcome store_error Batch :=
  Ok (mkBatch (committed b) (<[key := value]> (tx b))).

Definition put_ser (b : Batch) (key : list Z) (ser_value : outcome ser_error (list Z)) : outcome store_error Batch :=
  match ser_value with
  | Ok data => put b key data
  | Err _ => Err StoreSerErr
  | Panic => Panic
  end.

(** Deleting an absent key is an error of LMDB. *)
Definition delete_key (b : Batch) (key : list Z) : outcome store_error Batch :=
  match tx b !! key with
  | Some _ => Ok (mkBatch (committed b) (delete key (tx b)))
  | None => Err LmdbErr
  end.

Definition key_le (a b : list Z) : Prop := lex_cmp a b <> Gt.
#[export] Instance key_le_dec : RelDecision key_le.
Proof. intros a b. unfold key_le. apply _. Defined.

(** [key[0..plen]] panics on a key shorter than the prefix. *)
Fixpoint deser_while_prefix {A} (rd : read A) (prefix : list Z) (l : list (list Z * list Z))
    : outcome store_error (list (list Z * A)) :=
  match l with
  | [] => Ok []
  | (key, value) :: l =>
      let plen := length prefix in
      if (negb (plen =? 0)%nat) && (length key <? plen)%nat then Panic
      else if (plen =? 0)%nat || bool_decide (take plen key = prefix) then
        match deserialize rd value with
        | Ok value => let? rest := deser_while_prefix rd prefix l in Ok ((key, value) :: rest)
        | Err _ => Ok []
        | Panic => Panic
        end
      else Ok []
  end.

(** The items of [SerIterator], over the committed store, in key order. *)
Definition ser_iter {A} (rd : read A) (access : kv) (from : list Z) : outcome store_error (list (list Z * A)) :=
  let keys := merge_sort key_le (filter (fun k => key_le from k) (elements (dom access))) in
  deser_while_prefix rd from (omap (fun k => (fun v => (k, v)) <$> access !! k) keys).

Definition option_to_not_found {A} (res : outcome store_error (option A)) : outcome store_error A :=
  match res with
  | Ok None => Err NotFoundErr
  | Ok (Some o) => Ok o
  | Err e => Err e
  | Panic => Panic
  end.

Definition SEP : Z := 58.
Definition to_key (prefix : Z) (k : list Z) : list Z := prefix :: SEP :: k.
Definition to_key_u64 (prefix : Z) (k : list Z) (val : Z) : list Z := prefix :: SEP :: k ++ be_bytes 8 val.
Definition u64_to_key (prefix val : Z) : list Z := prefix :: SEP :: be_bytes 8 val.

(** ** Tips *)
Record Tip := mkTip {
  tip_height : Z;
  last_block_h : Hash;
  prev_block_h : Hash;
  tip_difficulty : Difficulty;
}.

Definition tip_default : Tip := mkTip 0 ZERO_HASH ZERO_HASH Pow.min.

Definition write_tip (t : Tip) : list Z :=
  write_u64 (tip_height t) ++ write_array (last_block_h t) ++ write_array (prev_block_h t)
  ++ write_difficulty (tip_difficulty t).

Definition read_tip : read Tip :=
  height <- read_u64 ;; last <- read_hash ;; prev <- read_hash ;; diff <- read_difficulty ;;
  ret (mkTip height last prev diff).

(** ** Chain store *)
Definition BLOCK_HEADER_PREFIX : Z := 104.
Definition BLOCK_PREFIX : Z := 98.
Definition HEAD_PREFIX : Z := 72.
Definition TAIL_PREFIX : Z := 84.
Definition HEADER_HEAD_PREFIX : Z := 73.
Definition SYNC_HEAD_PREFIX : Z := 115.
Definition COMMIT_POS_PREFIX : Z := 99.
Definition BLOCK_INPUT_BITMAP_PREFIX : Z := 66.
Definition BLOCK_SUMS_PREFIX : Z := 77.

Definition head (b : Batch) : outcome store_error Tip := option_to_not_found (get_ser read_tip b [HEAD_PREFIX]).
Definition tail (b : Batch) : outcome store_error Tip := option_to_not_found (get_ser read_tip b [TAIL_PREFIX]).
Definition header_head (b : Batch) : outcome store_error Tip :=
  option_to_not_found (get_ser read_tip b [HEADER_HEAD_PREFIX]).
Definition get_sync_head (b : Batch) : outcome store_error Tip :=
  option_to_not_found (get_ser read_tip b [SYNC_HEAD_PREFIX]).

Definition save_body_head (b : Batch) (t : Tip) : outcome store_error Batch :=
  put_ser b [HEAD_PREFIX] (Ok (write_tip t)).
Definition save_body_tail (b : Batch) (t : Tip) : outcome store_error Batch :=
  put_ser b [TAIL_PREFIX] (Ok (write_tip t)).
Definition save_header_head (b : Batch) (t : Tip) : outcome store_error Batch :=
  put_ser b [HEADER_HEAD_PREFIX] (Ok (write_tip t)).
Definition save_sync_head (b : Batch) (t : Tip) : outcome store_error Batch :=
  put_ser b [SYNC_HEAD_PREFIX] (Ok (write_tip t)).
Definition save_head (b : Batch) (t : Tip) : outcome store_error Batch :=
  let? b := put_ser b [HEAD_PREFIX] (Ok (write_tip t)) in
  put_ser b [HEADER_HEAD_PREFIX] (Ok (write_tip t)).
Definition reset_sync_head (b : Batch) : outcome store_error Batch :=
  let? head := header_head b in save_sync_head b head.
Definition reset_header_head (b : Batch) : outcome store_error Batch :=
  let? tip := head b in save_header_head b tip.

Definition save_output_pos (b : Batch) (commit : Commitment) (pos : Z) : outcome store_error Batch :=
  put_ser b (to_key COMMIT_POS_PREFIX (bytes commit)) (Ok (write_u64 pos)).
Definition get_output_pos (b : Batch) (commit : Commitment) : outcome store_error Z :=
  option_to_not_found (get_ser read_u64 b (to_key COMMIT_POS_PREFIX (bytes commit))).
Definition clear_output_pos (b : Batch) : outcome store_error Batch :=
  let? entries := ser_iter read_u64 (committed b) (to_key COMMIT_POS_PREFIX []) in
  foldM (fun b e => delete_key b e.1) entries b.

Definition save_block_sums (b : Batch) (h : Hash) (sums : BlockSums) : outcome store_error Batch :=
  put_ser b (to_key BLOCK_SUMS_PREFIX (bytes h)) (Ok (write_block_sums sums)).
Definition get_block_sums (b : Batch) (h : Hash) : outcome store_error BlockSums :=
  option_to_not_found (get_ser read_block_sums b (to_key BLOCK_SUMS_PREFIX (bytes h))).
Definition delete_block_sums (b : Batch) (bh : Hash) : outcome store_error Batch :=
  delete_key b (to_key BLOCK_SUMS_PREFIX (bytes bh)).

Definition block_exists (b : Batch) (h : Hash) : outcome store_error bool :=
  exists_ b (to_key BLOCK_PREFIX (bytes h)).

Section ChainStore.
Context `{Hasher} `{Secp} (c : ChainTypes) (min_date max_date : Z).

(** The serialization of a bitmap, from the [croaring] crate. *)
Context (bitmap_serialize : gset Z -> list Z) (bitmap_deserialize : list Z -> gset Z).

(** [hash()] unwraps what the writer returns. *)
Definition hash_of {E} (h : BlockHeader) : outcome E Hash :=
  match header_hash c h with
  | Ok x => Ok x
  | _ => Panic
  end.

Definition get_block_header (b : Batch) (h : Hash) : outcome store_error BlockHeader :=
  option_to_not_found (get_ser (read_header c min_date max_date) b (to_key BLOCK_HEADER_PREFIX (bytes h))).
Definition get_previous_header (b : Batch) (h : BlockHeader) : outcome store_error BlockHeader :=
  get_block_header b (prev_hash h).
Definition head_header (b : Batch) : outcome store_error BlockHeader :=
  let? t := head b in get_block_header b (last_block_h t).

Definition save_block_header (b : Batch) (h : BlockHeader) : outcome store_error Batch :=
  let? hash := hash_of h in
  put_ser b (to_key BLOCK_HEADER_PREFIX (bytes hash)) (write_header c Full h).

Definition get_block (b : Batch) (h : Hash) : outcome store_error Block :=
  option_to_not_found (get_ser (read_block c min_date max_date) b (to_key BLOCK_PREFIX (bytes h))).

Definition save_block_input_bitmap (b : Batch) (bh : Hash) (bm : gset Z) : outcome store_error Batch :=
  put b (to_key BLOCK_INPUT_BITMAP_PREFIX (bytes bh)) (bitmap_serialize bm).
Definition delete_block_input_bitmap (b : Batch) (bh : Hash) : outcome store_error Batch :=
  delete_key b (to_key BLOCK_INPUT_BITMAP_PREFIX (bytes bh)).

(** The positions found, cut to 32 bits; a panic of the lookup stays one. *)
Definition build_block_input_bitmap (b : Batch) (block : Block) : outcome store_error (gset Z) :=
  foldM (fun bm x =>
           match get_output_pos b (in_commit x) with
           | Ok pos => Ok ({[wrap32 pos]} ∪ bm)
           | Err _ => Ok bm
           | Panic => Panic
           end) (inputs (b_body block)) ∅.

Definition build_and_store_block_input_bitmap (b : Batch) (block : Block) : outcome store_error (gset Z * Batch) :=
  let? bitmap := build_block_input_bitmap b block in
  let? hash := hash_of (header block) in
  let? b := save_block_input_bitmap b hash bitmap in
  Ok (bitmap, b).

Definition get_block_input_bitmap (b : Batch) (bh : Hash) : outcome store_error (gset Z * Batch) :=
  let? found := get b (to_key BLOCK_INPUT_BITMAP_PREFIX (bytes bh)) in
  match found with
  | Some bs => Ok (bitmap_deserialize bs, b)
  | None => let? block := get_block b bh in build_and_store_block_input_bitmap b block
  end.

Definition save_block (b : Batch) (block : Block) : outcome store_error Batch :=
  let? '(_, b) := build_and_store_block_input_bitmap b block in
  let? hash := hash_of (header block) in
  put_ser b (to_key BLOCK_PREFIX (bytes hash)) (write_block c Full block).

(** [let _ = ...]: a failed deletion of the associated data is ignored. *)
Definition ignore_err {E A} (b : A) (m : outcome E A) : outcome E A :=
  match m with
  | Err _ => Ok b
  | m => m
  end.

Definition delete_block (b : Batch) (bh : Hash) : outcome store_error Batch :=
  let? b := delete_key b (to_key BLOCK_PREFIX (bytes bh)) in
  let? b := ignore_err b (delete_block_sums b bh) in
  ignore_err b (delete_block_input_bitmap b bh).

Definition tip_from_header {E} (h : BlockHeader) : outcome E Tip :=
  let? hash := hash_of h in
  Ok (mkTip (height h) hash (prev_hash h) (h_total_difficulty h)).

(** ** Iterators over the headers *)

(** [.ok()]. *)
Definition ok_opt {A} (m : outcome store_error A) : outcome () (option A) :=
  match m with
  | Ok a => Ok (Some a)
  | Err _ => Ok None
  | Panic => Panic
  end.

Definition i64_sat_sub (x y : Z) : Z := Z.max (- 2 ^ 63) (Z.min (x - y) (2 ^ 63 - 1)).

(** Both iterators keep the header they return next to last and the one ahead. *)
Record HeaderIter := mkIter { start : Hash; it_header : option BlockHeader; it_prev : option BlockHeader }.

Definition iter_from (start : Hash) : HeaderIter := mkIter start None None.

Definition iter_advance (b : Batch) (it : HeaderIter) : outcome () (option BlockHeader) :=
  match it_header it with
  | None => ok_opt (get_block_header b (start it))
  | Some _ => Ok (it_prev it)
  end.

(** The inner [loop] of [DifficultyIter]: back to the last header of the same
    algorithm; [first] is set until the parent of [header] has been seen.  Running
    out of fuel stands for not returning. *)
Fixpoint same_algo (fuel : nat) (b : Batch) (header hd : BlockHeader) (first : bool)
    (prev_difficulty : Difficulty) (prev_timespan : Z)
    : outcome () (option BlockHeader * Difficulty * Z * Z) :=
  match fuel with
  | O => Panic
  | S fuel =>
      let? prev_header := ok_opt (get_previous_header b hd) in
      match prev_header with
      | Some prev =>
          let prev_difficulty := if first
                                 then difficulty_sub (h_total_difficulty header) (h_total_difficulty prev)
                                 else prev_difficulty in
          let prev_timespan := if first
                               then i64_sat_sub (h_timestamp header) (h_timestamp prev)
                               else prev_timespan in
          if decide (PoWType_from (Pow.proof (pow header)) = PoWType_from (Pow.proof (pow prev)))
          then Ok (Some prev, prev_difficulty, prev_timespan, secondary_scaling (pow hd))
          else same_algo fuel b header prev false prev_difficulty prev_timespan
      | None => Ok (None, prev_difficulty, prev_timespan, secondary_scaling (pow hd))
      end
  end.

(** Enough fuel where every header is one above its parent. *)
Definition chain_fuel (h : BlockHeader) : nat := S (Z.to_nat (height h)).

Definition difficulty_next (b : Batch) (it : HeaderIter) : outcome () (option HeaderInfo * HeaderIter) :=
  let? cur := iter_advance b it in
  match cur with
  | Some header =>
      let? '(prev_head_iter, difficulty, prev_timespan, scaling) :=
        same_algo (chain_fuel header) b header header true (h_total_difficulty header) 60 in
      Ok (Some (mkHeaderInfo (wrap64 (h_timestamp header)) difficulty scaling (is_secondary (pow header))
                  (wrap64 prev_timespan)),
          mkIter (start it) (Some header) prev_head_iter)
  | None => Ok (None, mkIter (start it) None (it_prev it))
  end.

Definition difficulty_all_next (b : Batch) (it : HeaderIter) : outcome () (option HeaderInfo * HeaderIter) :=
  let? cur := iter_advance b it in
  match cur with
  | Some header =>
      let? prev_header := ok_opt (get_previous_header b header) in
      let prev_difficulty := match prev_header with
                             | Some x => h_total_difficulty x
                             | None => Pow.zero
                             end in
      let timespan := match prev_header with
                      | Some p => wrap64 (i64_sat_sub (h_timestamp header) (h_timestamp p))
                      | None => 60
                      end in
      Ok (Some (mkHeaderInfo (wrap64 (h_timestamp header))
                  (difficulty_sub (h_total_difficulty header) prev_difficulty)
                  (secondary_scaling (pow header)) (is_secondary (pow header)) timespan),
          mkIter (start it) (Some header) prev_header)
  | None => Ok (None, mkIter (start it) None (it_prev it))
  end.

(** The inner [loop] of [BottleIter]: [None] when the search limit is reached. *)
Fixpoint same_policy (n : nat) (b : Batch) (search_policy : Z) (hd : BlockHeader)
    : outcome () (option (option BlockHeader)) :=
  match n with
  | O => Ok None
  | S n =>
      let? prev_header := ok_opt (get_previous_header b hd) in
      match prev_header with
      | Some prev =>
          if search_policy =? policy prev then Ok (Some (Some prev)) else same_policy n b search_policy prev
      | None => Ok (Some None)
      end
  end.

Definition limit_search : nat := 200.

Definition bottle_next (b : Batch) (search_policy : Z) (it : HeaderIter) : outcome () (option Policy * HeaderIter) :=
  let? cur := iter_advance b it in
  match cur with
  | Some header =>
      let? found := same_policy limit_search b search_policy header in
      match found with
      | None => Ok (None, mkIter (start it) (Some header) (it_prev it))
      | Some prev_header =>
          let it := mkIter (start it) (Some header) prev_header in
          if policy header =? search_policy then Ok (Some (bottles header), it)
          else Ok (bottles <$> prev_header, it)
      end
  | None => Ok (None, mkIter (start it) None (it_prev it))
  end.

(** The items of an iterator up to the first [None], at most [n] of them: what
    [take] and [collect] see. *)
Fixpoint collect {A} (next : HeaderIter -> outcome () (option A * HeaderIter)) (n : nat) (it : HeaderIter)
    : outcome () (list A) :=
  match n with
  | O => Ok []
  | S n =>
      let? '(item, it) := next it in
      match item with
      | Some a => let? rest := collect next n it in Ok (a :: rest)
      | None => Ok []
      end
  end.

End ChainStore.
