(* ===== verification/ChainStoreTheory.v ===== *)
(** * The chain store: reading back what was saved

    Every record is read back as it was written, saving one record changes no
    other, and a batch shows nothing outside before its commit. *)
From S2P Require Import Prelude Ser Global Pow Reward Retarget Feijoada Committed Transaction CutThrough Block BlockTheory ChainStore.

(** ** Keys *)
Lemma to_key_inj p q k l : to_key p k = to_key q l -> p = q /\ k = l.
Proof. unfold to_key. by intros [= -> ->]. Qed.

Lemma bytes_inj {n} (a b : array n) : bytes a = bytes b -> a = b.
Proof. apply array_eq. Qed.

Ltac key_ne :=
  let E := fresh in
  intros E; first
    [ discriminate E
    | apply to_key_inj in E as [? E]; first [discriminate | apply bytes_inj in E; congruence] ].

(** ** Access *)
Lemma get_put_eq {A} (rd : read A) (b b' : Batch) key data a :
  put_ser b key (Ok data) = Ok b' -> deserialize rd data = Ok a ->
  option_to_not_found (get_ser rd b' key) = Ok a.
Proof.
  unfold put_ser, put, get_ser, get_ser_access. intros [= <-] Ha. cbn [tx].
  by rewrite lookup_insert_eq, Ha.
Qed.

Lemma get_put_ne {A} (rd : read A) (b b' : Batch) key key' data :
  put_ser b key (Ok data) = Ok b' -> key <> key' -> get_ser rd b' key' = get_ser rd b key'.
Proof.
  unfold put_ser, put, get_ser, get_ser_access. intros [= <-] Hne. cbn [tx].
  by rewrite lookup_insert_ne.
Qed.

Lemma put_committed (b b' : Batch) key data : put_ser b key (Ok data) = Ok b' -> committed b' = committed b.
Proof. by intros [= <-]. Qed.

Definition tip_ok (t : Tip) : Prop := is_u64 (tip_height t) /\ difficulty_ok (tip_difficulty t).

Lemma reads_tip t : tip_ok t -> reads read_tip (write_tip t) t.
Proof.
  destruct t as [h l p d]. intros [Hh Hd]. unfold read_tip, write_tip.
  cbn [tip_height last_block_h prev_block_h tip_difficulty] in *.
  eapply reads_bind; [by apply (reads_uint 8)|].
  do 2 (eapply reads_bind; [by apply reads_array|]). cbv beta.
  apply (reads_map _ (fun d => mkTip h l p d)). by apply reads_difficulty.
Qed.

Lemma deserialize_tip t : tip_ok t -> deserialize read_tip (write_tip t) = Ok t.
Proof.
  intros Ht. rewrite <- (app_nil_r (write_tip t)). by apply reads_deserialize, reads_tip.
Qed.

Section Laws.
Context `{Hasher} `{Secp} (c : ChainTypes) (min_date max_date : Z).
Context (bitmap_serialize : gset Z -> list Z).
Hypothesis MAX_PROOF_SIZE_small : Z.of_nat MAX_PROOF_SIZE <= 100000.

#[local] Abbreviation get_block_header := (get_block_header c min_date max_date).
#[local] Abbreviation get_block := (get_block c min_date max_date).
#[local] Abbreviation save_block := (save_block c bitmap_serialize).

(** A header that can be written can be hashed. *)
Lemma hash_of_written (h : BlockHeader) bs :
  write_header c Full h = Ok bs -> exists x, header_hash c h = Ok x.
Proof.
  unfold header_hash, write_header, write_pow, write_proof.
  destruct (Pow.proof (pow h)) as [eb ns| | |]; [|by eauto..].
  destruct (foldM _ _ _); cbn [bind]; by eauto.
Qed.

Lemma header_writes h :
  header_ok c min_date max_date h ->
  exists hash bs, header_hash c h = Ok hash /\ write_header c Full h = Ok bs
    /\ deserialize (read_header c min_date max_date) bs = Ok h.
Proof.
  intros Hh. destruct (reads_header c min_date max_date h Hh) as (bs & Hw & Hr).
  destruct (hash_of_written h bs Hw) as [hash Hx]. exists hash, bs. split_and!; [done..|].
  rewrite <- (app_nil_r bs). by apply reads_deserialize.
Qed.

(** Saving a header. *)
Lemma save_header_spec b h :
  header_ok c min_date max_date h ->
  exists hash b', header_hash c h = Ok hash /\ save_block_header c b h = Ok b'
    /\ get_block_header b' hash = Ok h
    /\ (forall k, k <> hash -> get_block_header b' k = get_block_header b k)
    /\ head b' = head b /\ header_head b' = header_head b.
Proof.
  intros Hh. destruct (header_writes h Hh) as (hash & bs & Hx & Hw & Hd).
  exists hash. unfold save_block_header, hash_of. rewrite Hx, Hw. cbn [bind].
  eexists. split_and!; [done|reflexivity|..].
  - by eapply get_put_eq.
  - intros k Hk. unfold ChainStore.get_block_header. f_equal. eapply get_put_ne; [done|key_ne].
  - unfold head. f_equal. eapply get_put_ne; [done|key_ne].
  - unfold header_head. f_equal. eapply get_put_ne; [done|key_ne].
Qed.

Lemma save_header_blocks b h b' k : save_block_header c b h = Ok b' -> get_block b' k = get_block b k.
Proof.
  unfold save_block_header. intros Hs. apply bind_Ok_inv in Hs as (hash & _ & Hs).
  destruct (write_header c Full h) as [bs| |]; [|done..].
  unfold ChainStore.get_block. f_equal. eapply get_put_ne; [exact Hs|key_ne].
Qed.

(** Building the input bitmap only reads, and reading a position cannot panic. *)
Lemma get_output_pos_no_panic b x : get_output_pos b x <> Panic.
Proof.
  unfold get_output_pos, get_ser, get_ser_access, deserialize.
  destruct (tx b !! _) as [bs|]; [|done]. unfold read_u64, read_uint.
  destruct (take_bytes 8 (mkReader BinReader bs 0)) as [[v r]| |] eqn:Ht; [done|done|].
  unfold take_bytes in Ht. by destruct (_ <? _)%nat in Ht.
Qed.

Lemma build_bitmap_ok b blk : exists bm, build_block_input_bitmap b blk = Ok bm.
Proof.
  unfold build_block_input_bitmap. generalize (∅ : gset Z).
  induction (inputs (b_body blk)) as [|i l IH]; intros bm; cbn [foldM]; [by eauto|].
  pose proof (get_output_pos_no_panic b (in_commit i)) as Hp.
  destruct (get_output_pos b (in_commit i)); cbn [bind]; [apply IH|apply IH|done].
Qed.

(** Blocks with a valid header and body. *)
Definition block_ok (blk : Block) : Prop :=
  header_ok c min_date max_date (header blk)
  /\ Forall output_ok (outputs (b_body blk)) /\ Forall kernel_ok (kernels (b_body blk))
  /\ body_validate_read c AsBlock (b_body blk) = Ok tt.

Lemma save_block_spec b blk :
  block_ok blk ->
  exists hash b', header_hash c (header blk) = Ok hash /\ save_block b blk = Ok b'
    /\ get_block b' hash = Ok blk
    /\ (forall k, k <> hash -> get_block b' k = get_block b k)
    /\ (forall k, get_block_header b' k = get_block_header b k)
    /\ committed b' = committed b
    /\ is_Some (tx b' !! to_key BLOCK_PREFIX (bytes hash)).
Proof.
  intros (Hh & Ho & Hk & Hv).
  destruct (header_writes _ Hh) as (hash & _ & Hx & _).
  destruct (reads_block MAX_PROOF_SIZE_small c min_date max_date blk Hh) as (bs & Hw & Hr);
    [by eapply (validated_body_ok c AsBlock); auto|done|].
  destruct (build_bitmap_ok b blk) as [bm Hbm]. exists hash.
  unfold ChainStore.save_block, build_and_store_block_input_bitmap, save_block_input_bitmap, hash_of.
  rewrite Hbm, Hx. cbn [bind put]. rewrite Hw. eexists. split_and!; [done|reflexivity|..].
  - eapply get_put_eq; [done|]. rewrite <- (app_nil_r bs). by apply reads_deserialize.
  - intros k Hne. unfold ChainStore.get_block. f_equal. etrans; (eapply get_put_ne; [reflexivity|key_ne]).
  - intros k. unfold ChainStore.get_block_header. f_equal. etrans; (eapply get_put_ne; [reflexivity|key_ne]).
  - done.
  - cbn [tx]. rewrite lookup_insert_eq. eauto.
Qed.

(** Deleting. *)
Lemma best_effort_delete (b : Batch) key k :
  exists b', ignore_err b (delete_key b key) = Ok b' /\ (tx b !! k = None -> tx b' !! k = None).
Proof.
  unfold delete_key. destruct (tx b !! key); eexists; (split; [reflexivity|]); [|done].
  intros Hk. cbn [tx]. by rewrite lookup_delete_None; auto.
Qed.

Lemma delete_block_spec b hash :
  is_Some (tx b !! to_key BLOCK_PREFIX (bytes hash)) ->
  exists b', delete_block b hash = Ok b' /\ get_block b' hash = Err NotFoundErr.
Proof.
  intros [v Hv]. unfold delete_block. unfold delete_key at 1. rewrite Hv. cbn [bind].
  set (b1 := mkBatch _ _). set (key := to_key BLOCK_PREFIX (bytes hash)).
  assert (H1 : tx b1 !! key = None) by apply lookup_delete_eq.
  destruct (best_effort_delete b1 (to_key BLOCK_SUMS_PREFIX (bytes hash)) key) as (b2 & H2 & N2).
  unfold delete_block_sums. rewrite H2. cbn [bind].
  destruct (best_effort_delete b2 (to_key BLOCK_INPUT_BITMAP_PREFIX (bytes hash)) key) as (b3 & H3 & N3).
  unfold delete_block_input_bitmap. rewrite H3. exists b3. split; [done|].
  unfold ChainStore.get_block, get_ser, get_ser_access. fold key. by rewrite N3 by auto.
Qed.

(** The store gives back what it was given: a header, a block or a tip is
    read back as it was saved and saving it changes no other record; a block is
    seen by [block_exists] only once the batch is committed; a deleted block is
    gone. *)
Theorem store_roundtrip b h blk t :
  header_ok c min_date max_date h -> block_ok blk -> tip_ok t ->
  (exists hash b', header_hash c h = Ok hash /\ save_block_header c b h = Ok b'
     /\ get_block_header b' hash = Ok h
     /\ (forall k, k <> hash -> get_block_header b' k = get_block_header b k)
     /\ (forall k, get_block b' k = get_block b k)
     /\ head b' = head b /\ header_head b' = header_head b)
  /\ (exists hash b', header_hash c (header blk) = Ok hash /\ save_block b blk = Ok b'
     /\ get_block b' hash = Ok blk
     /\ (forall k, k <> hash -> get_block b' k = get_block b k)
     /\ (forall k, get_block_header b' k = get_block_header b k)
     /\ block_exists b' hash = block_exists b hash
     /\ block_exists (batch (commit b')) hash = Ok true
     /\ exists b'', delete_block b' hash = Ok b'' /\ get_block b'' hash = Err NotFoundErr)
  /\ (exists b', save_header_head b t = Ok b' /\ header_head b' = Ok t /\ head b' = head b
     /\ (forall k, get_block_header b' k = get_block_header b k)).
Proof.
  intros Hh Hb Ht. split_and!.
  - destruct (save_header_spec b h Hh) as (hash & b' & Hx & Hs & Hg & Hf & H1 & H2).
    exists hash, b'. split_and!; try done. intros k. by apply (save_header_blocks b h).
  - destruct (save_block_spec b blk Hb) as (hash & b' & Hx & Hs & Hg & Hf & Hfh & Hc & Hin).
    exists hash, b'. split_and!; try done.
    + unfold block_exists, exists_. by rewrite Hc.
    + unfold block_exists, exists_. cbn [committed batch commit db]. by rewrite bool_decide_true.
    + by apply delete_block_spec.
  - eexists. split; [reflexivity|]. split_and!.
    + eapply get_put_eq; [reflexivity|]. by apply deserialize_tip.
    + unfold head. f_equal. eapply get_put_ne; [reflexivity|key_ne].
    + intros k. unfold ChainStore.get_block_header. f_equal. eapply get_put_ne; [reflexivity|key_ne].
Qed.

End Laws.

Definition empty_store : Batch := batch (mkStore ∅).

Lemma store_roundtrip_witness :
  exists hash b', @header_hash suffix_hasher AutomatedTesting sample_header = Ok hash
    /\ @save_block_header suffix_hasher AutomatedTesting empty_store sample_header = Ok b'
    /\ get_block_header AutomatedTesting 0 (2 ^ 40) b' hash = Ok sample_header.
Proof.
  destruct (@store_roundtrip suffix_hasher integer_secp AutomatedTesting 0 (2 ^ 40) (fun _ => [])
    ltac:(vm_decide) empty_store sample_header sample_block tip_default)
    as ((hash & b' & Hx & Hs & Hg & _) & _ & _).
  - unfold header_ok, pow_ok. split_and!; vm_decide.
  - split_and!; [unfold header_ok, pow_ok; split_and!; vm_decide|vm_decide..|vm_compute; reflexivity].
  - split; vm_decide.
  - exists hash, b'. exact (conj Hx (conj Hs Hg)).
Defined.
