(* ===== verification/Orphans.v ===== *)
(** * The orphan pool

    [OrphanBlockPool] of [chain/src/chain.rs]: the blocks whose parent is not known
    yet, by hash, with an index of the hashes by height.  The clock is an argument, in
    nanoseconds; all the ages of one eviction are taken at one instant.  The maps of
    the code are [gmap]s, the hash a list of bytes. *)
From S2P Require Import Prelude Ser Global Pow Feijoada Committed Transaction Block ChainStore.

Definition MAX_ORPHAN_SIZE : Z := 200.
Definition MAX_ORPHAN_AGE_SECS : Z := 300.

Record Orphan := mkOrphan { o_block : Block; o_opts : Z; o_added : Z }.

Record OrphanBlockPool := mkOrphanPool {
  orphans : gmap (list Z) Orphan;
  height_idx : gmap Z (list (list Z));
  evicted : Z
}.

Definition orphan_pool_new : OrphanBlockPool := mkOrphanPool ∅ ∅ 0.

Definition orphan_len (p : OrphanBlockPool) : Z := Z.of_nat (size (orphans p)).
Definition len_evicted (p : OrphanBlockPool) : Z := evicted p.
Definition orphan_contains (p : OrphanBlockPool) (hash : Hash) : bool := bool_decide (is_Some (orphans p !! bytes hash)).

(** The two maps the loops change. *)
Definition maps : Type := gmap (list Z) Orphan * gmap Z (list (list Z)).

Definition too_old (now : Z) (o : Orphan) : Prop := now - o_added o >= MAX_ORPHAN_AGE_SECS * 10 ^ 9.
#[export] Instance too_old_dec now o : Decision (too_old now o).
Proof. unfold too_old. apply _. Defined.

Definition remove_hashes (hs : list (list Z)) (m : gmap (list Z) Orphan) : gmap (list Z) Orphan :=
  foldl (fun m h => delete h m) m hs.

(** The heights from the greatest down, until there is room. *)
Fixpoint evict_far (heights : list Z) (m : maps) : maps :=
  match heights with
  | [] => m
  | h :: heights =>
      let m := match m.2 !! h with
               | Some hs => (remove_hashes hs m.1, delete h m.2)
               | None => m
               end in
      if Z.of_nat (size m.1) <? MAX_ORPHAN_SIZE then m else evict_far heights m
  end.

Definition heights_down (idx : gmap Z (list (list Z))) : list Z := reverse (merge_sort Z.le (elements (dom idx))).

Definition cleanup_index (m : maps) : gmap Z (list (list Z)) :=
  filter (fun e => Exists (fun x => is_Some (m.1 !! x)) e.2) m.2.

Definition evict (now : Z) (p : OrphanBlockPool) : OrphanBlockPool :=
  let old_len := Z.of_nat (size (orphans p)) in
  let kept := filter (fun e => ~ too_old now e.2) (orphans p) in
  let m := evict_far (heights_down (height_idx p)) (kept, height_idx p) in
  mkOrphanPool m.1 (cleanup_index m) (evicted p +! (old_len -! Z.of_nat (size m.1))).

Definition insert_orphan (hash : list Z) (orphan : Orphan) (p : OrphanBlockPool) : OrphanBlockPool :=
  let h := height (header (o_block orphan)) in
  mkOrphanPool (<[hash := orphan]> (orphans p))
    (<[h := default [] (height_idx p !! h) ++ [hash]]> (height_idx p)) (evicted p).

Section OrphanPool.
Context `{Hasher} (c : ChainTypes).

Definition orphan_add {E} (now : Z) (orphan : Orphan) (p : OrphanBlockPool) : outcome E OrphanBlockPool :=
  let? hash := hash_of c (header (o_block orphan)) in
  let p := insert_orphan (bytes hash) orphan p in
  Ok (if orphan_len p >? MAX_ORPHAN_SIZE then evict now p else p).

End OrphanPool.

(** [hs.iter().filter_map(|h| orphans.remove(h))]. *)
Fixpoint take_hashes (hs : list (list Z)) (m : gmap (list Z) Orphan) : list Orphan * gmap (list Z) Orphan :=
  match hs with
  | [] => ([], m)
  | h :: hs =>
      let '(l, m') := take_hashes hs (delete h m) in
      (option_list (m !! h) ++ l, m')
  end.

Definition remove_by_height (p : OrphanBlockPool) (height : Z) : option (list Orphan) * OrphanBlockPool :=
  match height_idx p !! height with
  | Some hs =>
      let '(l, m) := take_hashes hs (orphans p) in
      (Some l, mkOrphanPool m (delete height (height_idx p)) (evicted p))
  | None => (None, p)
  end.

(** ** The pool as a set of orphans *)

Lemma lookup_remove_hashes hs m k : remove_hashes hs m !! k = if decide (k ∈ hs) then None else m !! k.
Proof.
  unfold remove_hashes. revert m. induction hs as [|h hs IH]; intros m; cbn [foldl]; [by rewrite decide_False by set_solver|].
  rewrite IH, lookup_delete. repeat case_decide; set_solver.
Qed.

Lemma take_hashes_spec hs m l m' :
  take_hashes hs m = (l, m') ->
  m' = filter (fun e => e.1 ∉ hs) m /\ l ≡ₚ (map_to_list (filter (fun e => e.1 ∈ hs) m)).*2.
Proof.
  revert m l m'. induction hs as [|h hs IH]; intros m l m' He; cbn in He.
  - injection He as <- <-. split; [symmetry; apply map_filter_id; set_solver|].
    assert (filter (fun e => e.1 ∈ []) m = ∅) as ->; [|by rewrite map_to_list_empty].
    apply map_empty. intros k. apply map_lookup_filter_None. right. set_solver.
  - destruct (take_hashes hs (delete h m)) as [l1 m1] eqn:E1. injection He as <- <-.
    destruct (IH _ _ _ E1) as [-> ->]. split.
    { apply map_eq. intros k. rewrite !map_lookup_filter, lookup_delete. case_decide as Hk.
      - subst k. destruct (m !! h); cbn; [|done]. by rewrite option_guard_False by set_solver.
      - destruct (m !! k); cbn; [|done]. repeat case_guard; set_solver. }
    assert (filter (fun e => e.1 ∈ hs) (delete h m) = delete h (filter (fun e => e.1 ∈ h :: hs) m)) as ->.
    { apply map_eq. intros k. rewrite map_lookup_filter, !lookup_delete, map_lookup_filter. case_decide as Hk; [done|].
      destruct (m !! k); cbn; [|done]. repeat case_guard; set_solver. }
    destruct (m !! h) as [o|] eqn:Em; cbn.
    + assert (filter (fun e => e.1 ∈ h :: hs) m !! h = Some o) as Hf by (apply map_lookup_filter_Some; set_solver).
      rewrite <- (map_to_list_delete _ _ _ Hf). done.
    + rewrite delete_id; [done|]. apply map_lookup_filter_None. by left.
Qed.

(** No two blocks of different heights with the same hash: [hgt] is the height of the
    block with a hash. *)
Section Theory.
Context `{Hasher} (c : ChainTypes) (hgt : list Z -> Z).

Definition o_height (o : Orphan) : Z := height (header (o_block o)).
Definition files (k : list Z) (o : Orphan) : Prop :=
  exists hash, header_hash c (header (o_block o)) = Ok hash /\ bytes hash = k.

Record indexed (m : maps) : Prop := {
  ix_all k : is_Some (m.1 !! k) -> exists hs, m.2 !! hgt k = Some hs /\ k ∈ hs;
  ix_height h hs k : m.2 !! h = Some hs -> k ∈ hs -> hgt k = h;
}.

Record pool_ok (p : OrphanBlockPool) : Prop := {
  ok_filed k o : orphans p !! k = Some o -> files k o /\ hgt k = o_height o;
  ok_indexed : indexed (orphans p, height_idx p);
}.

(** The removal of one height. *)
Lemma remove_height h m hs :
  indexed m -> m.2 !! h = Some hs ->
  remove_hashes hs m.1 = filter (fun e => hgt e.1 <> h) m.1.
Proof.
  intros [Hall Hh] Hs. apply map_eq. intros k. rewrite lookup_remove_hashes, map_lookup_filter.
  destruct (m.1 !! k) as [o|] eqn:E; [|by case_decide]. cbn. case_decide as Hk.
  - by rewrite option_guard_False by (intros Hn; apply Hn; eauto).
  - rewrite option_guard_True; [done|]. intros <-. destruct (Hall k) as (hs' & Hs' & Hin); [eauto|]. congruence.
Qed.

Lemma indexed_filter P Q `{!forall e, Decision (P e)} `{!forall e, Decision (Q e)} m :
  indexed m -> (forall k o hs, m.1 !! k = Some o -> m.2 !! hgt k = Some hs -> k ∈ hs -> P (k, o) -> Q (hgt k, hs)) ->
  indexed (filter P m.1, filter Q m.2).
Proof.
  intros [Hall Hh] HPQ. split; cbn.
  - intros k [o Ho]. apply map_lookup_filter_Some in Ho as [Ho HP].
    destruct (Hall k) as (hs & Hs & Hin); [eauto|]. exists hs. split; [|done].
    apply map_lookup_filter_Some. eauto.
  - intros h hs k Hs. apply map_lookup_filter_Some in Hs as [Hs _]. eauto.
Qed.

Lemma evict_far_exact heights m :
  indexed m -> StronglySorted (flip Z.le) heights -> NoDup heights -> (forall h, is_Some (m.2 !! h) <-> h ∈ heights) ->
  exists cut, evict_far heights m = (filter (fun e => hgt e.1 < cut) m.1, filter (fun e => e.1 < cut) m.2) /\
    Z.of_nat (size (evict_far heights m).1) < MAX_ORPHAN_SIZE.
Proof.
  revert m. induction heights as [|h heights IH]; intros m Hm Hs Hn Hd; cbn [evict_far].
  - assert (m.2 = ∅) as H2.
    { apply map_empty. intros h. destruct (m.2 !! h) eqn:E; [|done]. exfalso.
      apply (not_elem_of_nil h), Hd. eauto. }
    assert (m.1 = ∅) as H1.
    { apply map_empty. intros k. destruct (m.1 !! k) eqn:E; [|done].
      destruct (ix_all _ Hm k) as (hs & Hk & _); [eauto|]. by rewrite H2 in Hk. }
    destruct m as [m1 m2]. cbn [fst snd] in *. subst. exists 0. by rewrite !map_filter_empty, map_size_empty.
  - apply StronglySorted_inv in Hs as [Hs Hle]. apply NoDup_cons in Hn as [Hnh Hn].
    destruct (m.2 !! h) as [hs|] eqn:Eh; [|by destruct (proj2 (Hd h) ltac:(by left)); congruence].
    assert (forall x, is_Some (m.2 !! x) -> x <= h) as Htop.
    { intros x Hx. apply Hd in Hx. apply elem_of_cons in Hx as [->|Hx]; [lia|].
      rewrite Forall_forall in Hle. specialize (Hle _ Hx). unfold flip in Hle. lia. }
    assert (remove_hashes hs m.1 = filter (fun e => hgt e.1 < h) m.1) as H1.
    { rewrite (remove_height h m hs Hm Eh). apply map_filter_strong_ext. intros k o. cbn. split; intros [Hk Ho]; split; [|done|lia|done].
      destruct (ix_all _ Hm k) as (hs' & Hk' & _); [eauto|]. specialize (Htop (hgt k) ltac:(eauto)). lia. }
    assert (delete h m.2 = filter (fun e => e.1 < h) m.2) as H2.
    { apply map_eq. intros x. rewrite lookup_delete, map_lookup_filter. destruct (m.2 !! x) eqn:Ex; [|by case_decide].
      specialize (Htop x ltac:(eauto)). cbn. case_decide; [by rewrite option_guard_False by lia|by rewrite option_guard_True by lia]. }
    rewrite H1, H2. cbn [fst]. case_match eqn:Elt; [exists h; split; [done|cbn [fst]; lia]|].
    destruct (IH (filter (fun e => hgt e.1 < h) m.1, filter (fun e => e.1 < h) m.2)) as (cut & Hc & Hl); [|done|done| |].
    { by apply indexed_filter. }
    { intros x. cbn [snd]. rewrite <- H2, lookup_delete_is_Some, Hd, elem_of_cons. naive_solver. }
    exists (Z.min cut h). split; [|done]. rewrite Hc. cbn [fst snd]. rewrite !map_filter_filter. f_equal.
    + apply map_filter_ext. cbn. lia.
    + apply map_filter_ext. cbn. lia.
Qed.

Lemma heights_down_spec idx :
  StronglySorted (flip Z.le) (heights_down idx) /\ NoDup (heights_down idx) /\ (forall h, is_Some (idx !! h) <-> h ∈ heights_down idx).
Proof.
  unfold heights_down. split_and!.
  - apply Sorted_StronglySorted; [intros ??? ? ?; unfold flip in *; lia|].
    apply Sorted_reverse, (Sorted_merge_sort Z.le).
  - rewrite reverse_Permutation, merge_sort_Permutation. apply NoDup_elements.
  - intros h. rewrite reverse_Permutation, merge_sort_Permutation, elem_of_elements, elem_of_dom. done.
Qed.

Lemma indexed_sub P `{!forall e, Decision (P e)} m : indexed m -> indexed (filter P m.1, m.2).
Proof.
  intros [Hall Hh]. split; cbn; [|done]. intros k [o Ho]. apply map_lookup_filter_Some in Ho as [Ho _]. eauto.
Qed.

Lemma cleanup_indexed m : indexed m -> indexed (m.1, cleanup_index m).
Proof.
  intros [Hall Hh]. unfold cleanup_index. split; cbn.
  - intros k Hk. destruct (Hall k Hk) as (hs & Hs & Hin). exists hs. split; [|done].
    apply map_lookup_filter_Some. split; [done|]. apply Exists_exists. eauto.
  - intros h hs k Hs. apply map_lookup_filter_Some in Hs as [Hs _]. eauto.
Qed.

Definition survives (now cut : Z) (e : list Z * Orphan) : Prop := ~ too_old now e.2 /\ o_height e.2 < cut.
#[local] Instance survives_dec now cut e : Decision (survives now cut e).
Proof. unfold survives. apply _. Defined.

Lemma pool_ok_filter P `{!forall e, Decision (P e)} p m idx n :
  pool_ok p -> m = filter P (orphans p) -> indexed (m, idx) -> pool_ok (mkOrphanPool m idx n).
Proof.
  intros [Hf _] -> Hi. split; [|done]. cbn. intros k o Ho. apply map_lookup_filter_Some in Ho as [Ho _]. eauto.
Qed.

Lemma evict_exact now p :
  pool_ok p -> exists cut,
    orphans (evict now p) = filter (survives now cut) (orphans p) /\
    pool_ok (evict now p) /\ orphan_len (evict now p) < MAX_ORPHAN_SIZE.
Proof.
  intros Hp. destruct (heights_down_spec (height_idx p)) as (Hs & Hn & Hd).
  pose (kept := filter (fun e => ~ too_old now e.2) (orphans p)).
  assert (indexed (kept, height_idx p)) as Hk by exact (indexed_sub _ (_, _) (ok_indexed _ Hp)).
  destruct (evict_far_exact _ (kept, height_idx p) Hk Hs Hn Hd) as (cut & He & Hl).
  assert (orphans (evict now p) = filter (survives now cut) (orphans p)) as Ho.
  { unfold evict. fold kept. cbn [orphans]. rewrite He. cbn [fst]. unfold kept. rewrite map_filter_filter.
    apply map_filter_strong_ext. intros k o. unfold survives. cbn.
    split; intros [[H1 H2] H3]; destruct (ok_filed _ Hp k o H3) as [_ Hg]; (split; [split|]); (done || lia). }
  exists cut. split; [done|]. split; [|done]. unfold evict in *. fold kept in Ho |- *. cbn [orphans] in Ho.
  eapply pool_ok_filter; [done|exact Ho|]. apply cleanup_indexed. rewrite He.
  apply (indexed_filter (fun e => hgt e.1 < cut) (fun e => e.1 < cut) (kept, height_idx p)); [done|]. intros. done.
Qed.

Lemma insert_orphan_ok p hash o : pool_ok p -> files hash o -> hgt hash = o_height o -> pool_ok (insert_orphan hash o p).
Proof.
  intros [Hf [Hall Hh]] Hk Hg. unfold insert_orphan. fold (o_height o). cbn in Hall, Hh. split; [|split]; cbn.
  - intros k o'. rewrite lookup_insert_Some. naive_solver.
  - intros k. rewrite lookup_insert_is_Some. rewrite lookup_insert.
    intros Hs. case_decide as Hd.
    + exists (default [] (height_idx p !! o_height o) ++ [hash]). split; [done|].
      destruct (decide (hash = k)) as [<-|Hne]; [set_solver|].
      destruct Hs as [?|[_ Hs]]; [done|]. destruct (Hall k Hs) as (hs & Hhs & Hin). rewrite Hd, Hhs. set_solver.
    + destruct Hs as [<-|[_ Hs]]; [by rewrite Hg in Hd|]. exact (Hall k Hs).
  - intros h hs k. rewrite lookup_insert. case_decide as Hd; [|apply Hh]. intros [= <-] Hin.
    apply elem_of_app in Hin as [Hin|Hin]; [|set_solver].
    destruct (height_idx p !! o_height o) as [hs|] eqn:E; [rewrite <- Hd; exact (Hh _ _ _ E Hin)|set_solver].
Qed.

(** Adding an orphan never fails, and never leaves more than 200.  Nothing is lost while
    there is room; when there is none, exactly the orphans are dropped that are five
    minutes old or at or above some height, the new one not excepted. *)
Lemma orphan_add_exact {E} now o hash p :
  pool_ok p -> orphan_len p <= MAX_ORPHAN_SIZE ->
  header_hash c (header (o_block o)) = Ok hash -> hgt (bytes hash) = o_height o ->
  let all := <[bytes hash := o]> (orphans p) in
  exists p', orphan_add (E := E) c now o p = Ok p' /\ pool_ok p' /\ orphan_len p' <= MAX_ORPHAN_SIZE /\
    (orphans p' = all \/
     Z.of_nat (size all) > MAX_ORPHAN_SIZE /\ exists cut, orphans p' = filter (survives now cut) all).
Proof.
  intros Hp Hl Hh Hg all. unfold orphan_add, hash_of. rewrite Hh. cbn [bind].
  pose proof (insert_orphan_ok p (bytes hash) o Hp ltac:(by exists hash) Hg) as Hi.
  eexists. split; [done|]. case_match eqn:E1; [|split_and!; [done|lia|by left]].
  destruct (evict_exact now _ Hi) as (cut & He & Ho & Hs). split_and!; [done|lia|]. right.
  split; [unfold orphan_len in E1; cbn in E1; fold all in E1; lia|]. exists cut. exact He.
Qed.

(** [remove_by_height] takes out exactly the orphans of the height. *)
Lemma remove_by_height_exact p h r p' :
  pool_ok p -> remove_by_height p h = (r, p') ->
  Permutation (default [] r) (map_to_list (filter (fun e => o_height e.2 = h) (orphans p))).*2 /\
  orphans p' = filter (fun e => o_height e.2 <> h) (orphans p) /\ pool_ok p'.
Proof.
  intros Hp. pose proof Hp as [Hf [Hall Hh]]. cbn in Hall, Hh. unfold remove_by_height.
  destruct (height_idx p !! h) as [hs|] eqn:Ei.
  - destruct (take_hashes hs (orphans p)) as [l m] eqn:Et. intros [= <- <-]. cbn [default from_option orphans].
    destruct (take_hashes_spec _ _ _ _ Et) as [-> ->].
    assert (forall k o, orphans p !! k = Some o -> k ∈ hs <-> o_height o = h) as Hiff.
    { intros k o Ho. destruct (Hf k o Ho) as [_ <-]. split; [by apply Hh|]. intros <-.
      destruct (Hall k) as (hs' & Hs' & Hin); [eauto|]. congruence. }
    split_and!.
    + assert (filter (fun e => e.1 ∈ hs) (orphans p) = filter (fun e => o_height e.2 = h) (orphans p)) as ->; [|done].
      apply map_filter_strong_ext. intros k o. cbn. naive_solver.
    + apply map_filter_strong_ext. intros k o. cbn. naive_solver.
    + eapply pool_ok_filter; [done|done|]. split; cbn.
      * intros k [o Ho]. apply map_lookup_filter_Some in Ho as [Ho Hn]. destruct (Hall k) as (hs' & Hs' & Hin); [eauto|].
        exists hs'. rewrite lookup_delete_ne; [done|]. intros He. apply Hn. cbn. congruence.
      * intros x hs' k Hx. rewrite lookup_delete_Some in Hx. apply Hh, Hx.
  - intros [= <- <-].
    assert (forall k o, orphans p !! k = Some o -> o_height o <> h) as Hno.
    { intros k o Ho He. destruct (Hf k o Ho) as [_ Hg]. destruct (Hall k) as (hs' & Hs' & _); [eauto|]. congruence. }
    split_and!; [|symmetry; by apply map_filter_id|done].
    assert (filter (fun e => o_height e.2 = h) (orphans p) = ∅) as ->; [|by rewrite map_to_list_empty].
    apply map_empty. intros k. apply map_lookup_filter_None. right. exact (Hno k).
Qed.

(** The pools of a node. *)
Inductive pool_reached : OrphanBlockPool -> Prop :=
| reached_new : pool_reached orphan_pool_new
| reached_add now o hash p p' :
    pool_reached p -> header_hash c (header (o_block o)) = Ok hash -> hgt (bytes hash) = o_height o ->
    orphan_add (E := ()) c now o p = Ok p' -> pool_reached p'
| reached_remove h p : pool_reached p -> pool_reached (remove_by_height p h).2.

(** C6. Whatever is added and taken, the pool never holds more than 200 blocks, every block
    in it is filed under its hash, and the blocks that [remove_by_height] hands out are
    all those of the height and no others; the rest stays. *)
Theorem orphan_pool_invariant p :
  pool_reached p ->
  orphan_len p <= MAX_ORPHAN_SIZE /\
  (forall k o, orphans p !! k = Some o -> files k o) /\
  forall h, let '(r, p') := remove_by_height p h in
    Permutation (default [] r) (map_to_list (filter (fun e => o_height e.2 = h) (orphans p))).*2 /\
    orphans p' = filter (fun e => o_height e.2 <> h) (orphans p).
Proof.
  intros Hr. assert (pool_ok p /\ orphan_len p <= MAX_ORPHAN_SIZE) as [Hp Hl].
  { induction Hr as [|now o hash p p' _ [Hp Hl] Hh Hg Ha|h p _ [Hp Hl]].
    - split; [|done]. split; [|split].
      + intros k o Ho. discriminate Ho.
      + intros k [o Ho]. discriminate Ho.
      + intros h hs k Ho. discriminate Ho.
    - destruct (orphan_add_exact (E := ()) now o hash p Hp Hl Hh Hg) as (q & Hq & Hq' & Hl' & _).
      assert (p' = q) as -> by congruence. done.
    - destruct (remove_by_height p h) as [r p'] eqn:E. destruct (remove_by_height_exact _ _ _ _ Hp E) as (_ & Ho & Hp').
      split; [done|]. unfold orphan_len in *. cbn [snd]. rewrite Ho.
      pose proof (map_size_filter (fun e : list Z * Orphan => o_height e.2 <> h) (orphans p)). lia. }
  split_and!; [done|intros k o Ho; exact (proj1 (ok_filed _ Hp k o Ho))|]. intros h.
  destruct (remove_by_height p h) as [r p'] eqn:E. destruct (remove_by_height_exact _ _ _ _ Hp E) as (H1 & H2 & _). done.
Qed.

End Theory.
