(* ===== verification/Pipe.v ===== *)
(** * The block acceptance pipeline: headers

    [chain/src/pipe.rs], the errors of [chain/src/error.rs], the seed heights of
    [core/src/pow/randomx.rs] and [verify_size] of [core/src/pow.rs].  The solvers
    behind [PoWContext], the clock and the ProgPoW value are parameters. *)
From S2P Require Import Prelude Ser Global Pow Reward Retarget Feijoada Committed Transaction Block ChainStore.

(** ** RandomX seeds *)
Definition SEEDHASH_EPOCH_BLOCKS : Z := 1000.
Definition SEEDHASH_EPOCH_LAG : Z := 60.

Definition rx_epoch_start (epoch_height : Z) : Z :=
  if epoch_height =? 0 then 0 else epoch_height +! SEEDHASH_EPOCH_LAG.

Definition rx_epoch_end (epoch_height : Z) : Z :=
  if epoch_height =? 0 then SEEDHASH_EPOCH_BLOCKS + SEEDHASH_EPOCH_LAG
  else epoch_height +! SEEDHASH_EPOCH_LAG +! SEEDHASH_EPOCH_BLOCKS.

Definition rx_next_seed_height (height : Z) : option Z :=
  let next_height := height -! height mod SEEDHASH_EPOCH_BLOCKS in
  if height <=? SEEDHASH_EPOCH_BLOCKS then None
  else if (height -! 1) mod SEEDHASH_EPOCH_BLOCKS <=? SEEDHASH_EPOCH_LAG then Some next_height
  else None.

Definition rx_current_seed_height (height : Z) : Z :=
  if height <=? SEEDHASH_EPOCH_LAG + SEEDHASH_EPOCH_BLOCKS then 0
  else if height mod SEEDHASH_EPOCH_BLOCKS <=? SEEDHASH_EPOCH_LAG
  then height -! height mod SEEDHASH_EPOCH_BLOCKS -! SEEDHASH_EPOCH_BLOCKS
  else height -! height mod SEEDHASH_EPOCH_BLOCKS.

(** ** Verification of a proof *)

(** What a context is created with, and whether one of the solvers accepts a
    proof for a header and nonce ([PoWContext::verify]). *)
Inductive PoWParams : Type :=
| ProgPowCtx
| RandomXCtx (seed : Hash)
| MD5Ctx (edge_bits proof_size : Z)
| CuckooCtx (height edge_bits proof_size : Z).

Class PoWContext := pow_context_verify : PoWParams -> list Z -> option Z -> Z -> Proof -> bool.

Definition verify_size `{PoWContext} (c : ChainTypes) (bh : BlockHeader) : bool :=
  let params := match proof (pow bh) with
                | ProgPowProof _ => ProgPowCtx
                | RandomXProof _ => RandomXCtx (seed (pow bh))
                | MD5Proof _ _ => MD5Ctx (edge_bits (pow bh)) (proofsize c)
                | CuckooProof _ nonces => CuckooCtx (height bh) (edge_bits (pow bh)) (Z.of_nat (length nonces))
                end in
  let header_nonce := match proof (pow bh) with
                      | CuckooProof _ _ => None
                      | _ => Some (nonce (pow bh))
                      end in
  pow_context_verify params (pre_pow bh) header_nonce (height bh) (proof (pow bh)).

(** ** Errors

    The kinds that the functions below return, without their messages. *)
Inductive chain_error : Type :=
| UnfitHeaderKnown
| UnfitKnownHead
| UnfitKnownOrphans
| UnfitKnownStore
| Orphan
| DifficultyTooLow
| WrongTotalDifficulty
| LowEdgebits
| InvalidScaling
| InvalidPow
| OldBlock
| InvalidBlockProof (e : block_error)
| InvalidBlockTime
| InvalidBlockHeight
| ChainBlockVersion (v : Z)
| StoreErr (e : store_error)
| ChainCommitted (e : committed_error)
| InvalidSortAlgo
| ThereIsNotPolicy
| PolicyIsNotAllowed
| InvalidSeed
| InvalidRoot
| InvalidMMRSize
| AlreadySpent (c : Commitment)
| DuplicateCommitment (c : Commitment)
| ImmatureCoinbase
| MerkleProofErr
| OutputNotFound
| RangeproofNotFound
| TxKernelNotFound
| InvalidTxHashSet
| TxHashSetErr
| ChainTransaction (e : tx_error)
| Bitmap
| TxLockHeight
| ChainOther.

(** Whether the block was intrinsically wrong. *)
Definition is_bad_data (e : chain_error) : bool :=
  match e with
  | UnfitHeaderKnown | UnfitKnownHead | UnfitKnownOrphans | UnfitKnownStore
  | Orphan | StoreErr _ | TxHashSetErr | ChainOther => false
  | _ => true
  end.

Definition bad_hashes : list Hash :=
  [from_vec (be_bytes 32 0x840cdf3ad968bd6895b07e4e3235ee704226f85c3163d2da2e6764c7e2b81ea2);
   from_vec (be_bytes 32 0xa98bbc899892d2553c52ef17cab6d708f9eaf7d575b3d62ca49bbf9d50ae55a7)].

(** ** Options *)
Definition SKIP_POW : Z := 1.
Definition SYNC : Z := 2.
Definition MINE : Z := 4.
Definition contains (opts flag : Z) : bool := Z.land opts flag =? flag.

(** Whether the total work of a header is above that of a tip. *)
Definition has_more_work (h : BlockHeader) (head : Tip) : bool :=
  match difficulty_cmp (h_total_difficulty h) (tip_difficulty head) with
  | Gt => true
  | _ => false
  end.

Section Pipe.
Context `{Hasher} `{Secp} (c : ChainTypes) (min_date max_date : Z).
Context (get_progpow_value : list Z -> Z -> Z -> Hash) (u256_from : Hash -> Z).

(** The policies of the node, the options and verifier of the context, the known
    orphans, and the clock in nanoseconds. *)
Context (config : PolicyConfig) (opts : Z) (pow_verifier : BlockHeader -> bool)
  (orphans : gset (list Z)) (now : Z).

Definition check_bad_header (h : BlockHeader) : outcome chain_error () :=
  let? hash := hash_of c h in
  if decide (hash ∈ bad_hashes) then Err (InvalidBlockProof BlockOther) else Ok tt.

Definition check_header_known (b : Batch) (h : BlockHeader) : outcome chain_error () :=
  let? header_head := map_err StoreErr (header_head b) in
  let? hash := hash_of c h in
  if decide (hash = last_block_h header_head \/ hash = prev_block_h header_head)
  then Err UnfitHeaderKnown else Ok tt.

Definition check_known_head (b : Batch) (h : BlockHeader) : outcome chain_error () :=
  let? head := map_err StoreErr (head b) in
  let? bh := hash_of c h in
  if decide (bh = last_block_h head \/ bh = prev_block_h head) then Err UnfitKnownHead else Ok tt.

Definition check_known_orphans (h : BlockHeader) : outcome chain_error () :=
  let? hash := hash_of c h in
  if decide (bytes hash ∈ orphans) then Err UnfitKnownOrphans else Ok tt.

Definition check_known_store (b : Batch) (h : BlockHeader) : outcome chain_error () :=
  let? hash := hash_of c h in
  let? known := map_err StoreErr (block_exists b hash) in
  if known then
    let? head := map_err StoreErr (head b) in
    if height h <? sat_sub (tip_height head) 50 then Err OldBlock else Err UnfitKnownStore
  else Ok tt.

Definition check_known (b : Batch) (block : Block) : outcome chain_error () :=
  try? check_known_head b (header block) then
  try? check_known_orphans (header block) then
  check_known_store b (header block).

Definition prev_header_store (b : Batch) (h : BlockHeader) : outcome chain_error BlockHeader :=
  map_err (fun e => match e with NotFoundErr => Orphan | e => StoreErr e end)
    (get_previous_header c min_date max_date b h).

Definition seed_header_store (b : Batch) (s : Hash) : outcome chain_error BlockHeader :=
  map_err StoreErr (get_block_header c min_date max_date b (from_vec (bytes s))).

(** The two branches that only log are left out. *)
Definition too_far_ahead (h : BlockHeader) : bool :=
  (h_timestamp h * 10 ^ 9 >? now + 6 * BLOCK_TIME_SEC * 10 ^ 9) && negb (is_automated_testing_mode c).

Definition check_proof (h : BlockHeader) : outcome chain_error () :=
  if contains opts SKIP_POW then Ok tt
  else if negb (is_primary c (pow h)) && negb (is_secondary (pow h)) then Err LowEdgebits
  else if negb (pow_verifier h) then Err InvalidPow
  else Ok tt.

(** The algorithm a proof counts as here. *)
Definition proof_algo (p : Proof) : option PoWType :=
  match p with
  | CuckooProof edge_bits _ => Some (if edge_bits =? 29 then Cuckaroo else Cuckatoo)
  | RandomXProof _ => Some RandomX
  | ProgPowProof _ => Some ProgPow
  | MD5Proof _ _ => None
  end.

Definition check_policy (b : Batch) (prev h : BlockHeader) : outcome chain_error () :=
  let? allowed := no_err (is_allowed_policy (allowed_policies config) (height h) (policy h)) in
  if negb allowed then Err PolicyIsNotAllowed
  else
    match get_policies config (policy h) with
    | None => Err ThereIsNotPolicy
    | Some _ =>
        let? prev_h := hash_of c prev in
        let? cursor := no_err (collect (bottle_next c min_date max_date b (policy h)) 1 (iter_from prev_h)) in
        let? '(algo, _) := no_err (next_policy config (policy h) cursor) in
        if decide (proof_algo (proof (pow h)) = Some algo) then Ok tt else Err InvalidSortAlgo
    end.

(** The difficulty the next block of a chain that ends with [prev] must have. *)
Definition required_difficulty (b : Batch) (prev : BlockHeader) (height : Z) : outcome chain_error HeaderInfo :=
  let? prev_h := hash_of c prev in
  let? diff_iter := no_err (collect (difficulty_next c min_date max_date b) (chain_fuel prev) (iter_from prev_h)) in
  no_err (if height <? difficultyfix_height c
          then next_difficulty c height (PoWType_from (proof (pow prev))) diff_iter
          else next_difficulty_era1 c height (PoWType_from (proof (pow prev))) diff_iter).

Definition check_difficulty (b : Batch) (prev h : BlockHeader) : outcome chain_error () :=
  if contains opts SKIP_POW then Ok tt
  else
    let target_difficulty := difficulty_sub (h_total_difficulty h) (h_total_difficulty prev) in
    let algo := PoWType_from (proof (pow h)) in
    let? diff := match to_difficulty c get_progpow_value u256_from (pow h) (pre_pow h) (height h) (nonce (pow h)) with
                 | Ok d => Ok d
                 | _ => Panic
                 end in
    if to_num diff algo <? to_num target_difficulty algo then Err DifficultyTooLow
    else
      let? next_header_info := required_difficulty b prev (height h) in
      if decide (num target_difficulty <> num (difficulty next_header_info)) then Err WrongTotalDifficulty
      else
        match proof (pow h) with
        | CuckooProof _ _ =>
            if negb (secondary_scaling (pow h) =? info_scaling next_header_info) then Err InvalidScaling
            else Ok tt
        | _ => Ok tt
        end.

Definition validate_header (b : Batch) (h : BlockHeader) : outcome chain_error () :=
  if negb (valid_header_version (height h) (version h)) then Err (ChainBlockVersion (version h))
  else if too_far_ahead h then Err InvalidBlockTime
  else
    try? check_bad_header h then
    try? check_proof h then
    let? prev := prev_header_store b h in
    let? header_seed := map_err (fun _ => InvalidSeed) (seed_header_store b (seed (pow h))) in
    if negb (height header_seed =? rx_current_seed_height (height h)) then Err InvalidSeed
    else
      try? check_policy b prev h then
      if negb (height h =? height prev +! 1) then Err InvalidBlockHeight
      else if (h_timestamp h <=? h_timestamp prev) && negb (is_automated_testing_mode c)
      then Err InvalidBlockTime
      else check_difficulty b prev h.

(** Headers announced before their block. *)
Definition process_block_header (b : Batch) (h : BlockHeader) : outcome chain_error () :=
  try? check_header_known b h then validate_header b h.

(** ** Changing the store *)
Definition add_block_header (b : Batch) (h : BlockHeader) : outcome chain_error Batch :=
  map_err StoreErr (save_block_header c b h).

Definition update_header_head (b : Batch) (h : BlockHeader) : outcome chain_error (option Tip * Batch) :=
  let? header_head := map_err StoreErr (header_head b) in
  if has_more_work h header_head then
    let? tip := tip_from_header c h in
    let? b := map_err StoreErr (save_header_head b tip) in Ok (Some tip, b)
  else Ok (None, b).

Definition update_sync_head (b : Batch) (h : BlockHeader) : outcome chain_error Batch :=
  let? tip := tip_from_header c h in map_err StoreErr (save_sync_head b tip).

Definition update_body_tail (b : Batch) (h : BlockHeader) : outcome chain_error Batch :=
  let? tip := tip_from_header c h in map_err StoreErr (save_body_tail b tip).

Definition update_head (b : Batch) (block : Block) : outcome chain_error (option Tip * Batch) :=
  let? head := map_err StoreErr (head b) in
  if has_more_work (header block) head then
    let? tip := tip_from_header c (header block) in
    let? b := map_err StoreErr (save_body_head b tip) in Ok (Some tip, b)
  else Ok (None, b).

Context (bitmap_serialize : gset Z -> list Z).
Definition add_block (b : Batch) (block : Block) : outcome chain_error Batch :=
  map_err StoreErr (save_block c bitmap_serialize b block).

Context (load_foundation_output : Z -> Output * TxKernel).
Definition validate_block (b : Batch) (block : Block) : outcome chain_error () :=
  let? prev := map_err StoreErr (get_previous_header c min_date max_date b (header block)) in
  let? _ks := map_err InvalidBlockProof
                (block_validate c load_foundation_output block (total_kernel_offset prev)) in
  Ok tt.

Definition verify_block_sums (b : Batch) (block : Block) : outcome chain_error Batch :=
  let? prev := map_err StoreErr (get_previous_header c min_date max_date b (header block)) in
  let? prev_h := hash_of c prev in
  let? block_sums := map_err StoreErr (get_block_sums b prev_h) in
  let? overage := no_err (overage c (header block)) in
  let? '(utxo_sum, kernel_sum) :=
    map_err ChainCommitted
      (verify_kernel_sums (block_sums, block) overage (total_kernel_offset (header block))) in
  let? hash := hash_of c (header block) in
  map_err StoreErr (save_block_sums b hash (mkBlockSums utxo_sum kernel_sum)).

End Pipe.
