(* ===== verification/Cuckoo.v ===== *)
(** * Cuckoo cycles

    [core/src/pow/siphash.rs], [common.rs], [cuckaroo.rs], [cuckatoo.rs] and [lean.rs]:
    SipHash, the parameters of a graph, the verification of a proof, the search for
    cycles and the trimming of edges; and the contexts of [md5.rs], [progpow.rs] and
    [randomx.rs], whose hashes are parameters.  An edge type [T] is the width [w] of an
    unsigned integer, 32 or 64. *)
From S2P Require Import Prelude Ser Global Pow Block Pipe.

Inductive pow_error : Type :=
| Verification
| IntegerCast
| EdgeAddition
| NoSolution.

(** ** SipHash *)
Definition SIPHASH_BLOCK_BITS : Z := 6.
Definition SIPHASH_BLOCK_SIZE : Z := 1 <<! SIPHASH_BLOCK_BITS.
Definition SIPHASH_BLOCK_MASK : Z := SIPHASH_BLOCK_SIZE - 1.

Definition rotl (num shift : Z) : Z := Z.lor (num <<! shift) (num >>! (64 - shift)).

Record SipHash24 := mkSip { s0 : Z; s1 : Z; s2 : Z; s3 : Z }.

Definition sip_new (v : list Z) : SipHash24 :=
  mkSip (v !!! 0%nat) (v !!! 1%nat) (v !!! 2%nat) (v !!! 3%nat).

Definition round (s : SipHash24) : SipHash24 :=
  let a := s0 s +! s1 s in
  let c := s2 s +! s3 s in
  let b := Z.lxor (rotl (s1 s) 13) a in
  let d := Z.lxor (rotl (s3 s) 16) c in
  let a := rotl a 32 in
  let c := c +! b in
  let a := a +! d in
  let b := Z.lxor (rotl b 17) c in
  let d := Z.lxor (rotl d 21) a in
  mkSip a b (rotl c 32) d.

Definition sip_hash (s : SipHash24) (nonce : Z) : SipHash24 :=
  let s := mkSip (s0 s) (s1 s) (s2 s) (Z.lxor (s3 s) nonce) in
  let s := round (round s) in
  let s := mkSip (Z.lxor (s0 s) nonce) (s1 s) (Z.lxor (s2 s) 255) (s3 s) in
  Nat.iter 4 round s.

Definition digest (s : SipHash24) : Z := Z.lxor (Z.lxor (s0 s) (s1 s)) (Z.lxor (s2 s) (s3 s)).

Definition siphash24 (v : list Z) (nonce : Z) : Z := digest (sip_hash (sip_new v) nonce).

Definition siphash_block (v : list Z) (nonce : Z) : Z :=
  let nonce0 := Z.land nonce (Z.lxor SIPHASH_BLOCK_MASK u64_max) in
  let '(siphash, nonce_hash) :=
    foldl (fun st n =>
             let siphash := sip_hash st.1 n in
             (siphash, if n =? nonce then digest siphash else st.2))
      (sip_new v, 0) (seqZ nonce0 (nonce0 +! SIPHASH_BLOCK_SIZE - nonce0)) in
  if nonce =? nonce0 +! SIPHASH_BLOCK_MASK then digest siphash
  else Z.lxor nonce_hash (digest siphash).

(** The test vectors of the source. *)
Example siphash24_vectors :
  siphash24 [1; 2; 3; 4] 10 = 928382149599306901 /\ siphash24 [1; 2; 3; 4] 111 = 10524991083049122233 /\
  siphash24 [9; 7; 6; 7] 12 = 1305683875471634734 /\ siphash24 [9; 7; 6; 7] 10 = 11589833042187638814.
Proof. vm_compute. done. Qed.
Example siphash_block_vectors :
  siphash_block [1; 2; 3; 4] 10 = 1182162244994096396 /\ siphash_block [1; 2; 3; 4] 123 = 11303676240481718781 /\
  siphash_block [9; 7; 6; 7] 12 = 4886136884237259030.
Proof. vm_compute. done. Qed.

(** ** Parameters of a graph *)
Definition to_edge (w : Z) (n : Z) : outcome pow_error Z := if n <? 2 ^ w then Ok n else Err IntegerCast.

Record CuckooParams := mkParams {
  p_edge_bits : Z;
  p_proof_size : Z;
  num_edges : Z;
  siphash_keys : list Z;
  edge_mask : Z
}.

Definition params_new (w edge_bits proof_size : Z) : outcome pow_error CuckooParams :=
  let num_edges := 1 <<! edge_bits in
  let? edge_mask := to_edge w (num_edges -! 1) in
  Ok (mkParams edge_bits proof_size num_edges [0; 0; 0; 0] edge_mask).

Section Keys.
Context `{Hasher}.

Definition create_siphash_keys (header : list Z) : list Z :=
  let hb := bytes (blake2b header) in
  map (fun i => le_value (take 8 (drop (8 * i) hb))) [0; 1; 2; 3]%nat.

(** The nonce replaces the last four bytes of the header. *)
Definition set_header_nonce (header : list Z) (nonce : option Z) : list Z :=
  match nonce with
  | Some n => create_siphash_keys (take (Z.to_nat (Z.of_nat (length header) -! 4)) header ++ le_bytes 4 (wrap32 n))
  | None => create_siphash_keys header
  end.

Definition reset_header_nonce (header : list Z) (nonce : option Z) (p : CuckooParams) : CuckooParams :=
  mkParams (p_edge_bits p) (p_proof_size p) (num_edges p) (set_header_nonce header nonce) (edge_mask p).
End Keys.

Definition sipnode (w : Z) (p : CuckooParams) (edge uorv : Z) (shift : bool) : outcome pow_error Z :=
  let hash_u64 := siphash24 (siphash_keys p) (2 *! edge +! uorv) in
  let masked := Z.land hash_u64 (edge_mask p) in
  let masked := if shift then Z.lor (masked <<! 1) uorv else masked in
  to_edge w masked.

(** ** Verification *)

(** The first loop: the edges ascend and fit, their endpoints [uvs] and the two sums. *)
Record ends := mkEnds { uvs : list Z; xor0 : Z; xor1 : Z; previous : option Z }.

Definition ends_step (mask : Z) (endpoints : Z -> outcome pow_error (Z * Z)) (s : ends) (nonce : Z)
    : outcome pow_error ends :=
  if nonce >? mask then Err Verification
  else if match previous s with Some p => nonce <=? p | None => false end then Err Verification
  else
    let? '(u, v) := endpoints nonce in
    Ok (mkEnds (uvs s ++ [u; v]) (Z.lxor (xor0 s) u) (Z.lxor (xor1 s) v) (Some nonce)).

(** The inner loop: the other endpoint on the side of [i] whose node matches. *)
Fixpoint find_match (fuel : nat) (node : Z -> Z) (uvs : list Z) (size i j k : Z) : outcome pow_error Z :=
  match fuel with
  | O => Panic
  | S fuel =>
      let k := (k + 2) mod (2 * size) in
      if k =? i then Ok j
      else
        match uvs !! Z.to_nat k, uvs !! Z.to_nat i with
        | Some a, Some b =>
            if node a =? node b then
              if negb (j =? i) then Err Verification else find_match fuel node uvs size i k k
            else find_match fuel node uvs size i j k
        | _, _ => Panic
        end
  end.

(** The outer loop; [n] steps so far. *)
Fixpoint follow (fuel : nat) (node : Z -> Z) (dead_end : Z -> Z -> bool) (uvs : list Z) (size i n : Z)
    : outcome pow_error Z :=
  match fuel with
  | O => Panic
  | S fuel =>
      let? j := find_match (S (Z.to_nat size)) node uvs size i i i in
      if j =? i then Err Verification
      else
        match uvs !! Z.to_nat j, uvs !! Z.to_nat i with
        | Some a, Some b =>
            if dead_end a b then Err Verification
            else
              let i := Z.lxor j 1 in
              let n := n + 1 in
              if i =? 0 then Ok n else follow fuel node dead_end uvs size i n
        | _, _ => Panic
        end
  end.

(** A remainder by zero panics; the loops take at most two steps per edge. *)
Definition verify_with (mask size start : Z) (endpoints : Z -> outcome pow_error (Z * Z)) (node : Z -> Z)
    (dead_end : Z -> Z -> bool) (proof : Proof) : outcome pow_error () :=
  match proof with
  | CuckooProof _ nonces =>
      let? e := foldM (ends_step mask endpoints) nonces (mkEnds [] start start None) in
      if negb (Z.lor (xor0 e) (xor1 e) =? 0) then Err Verification
      else if size =? 0 then Panic
      else
        let? n := follow (S (2 * Z.to_nat size)) node dead_end (uvs e) size 0 0 in
        if n =? size then Ok tt else Err Verification
  | _ => Err Verification
  end.

(** [CuckarooContext::verify]. *)
Definition cuckaroo_endpoints (w : Z) (p : CuckooParams) (nonce : Z) : outcome pow_error (Z * Z) :=
  let? edge := to_edge w (siphash_block (siphash_keys p) nonce) in
  Ok (Z.land edge (edge_mask p), Z.land (Z.shiftr edge (32 mod w)) (edge_mask p)).

Definition cuckaroo_verify (w : Z) (p : CuckooParams) (proof : Proof) : outcome pow_error () :=
  verify_with (edge_mask p) (p_proof_size p) 0 (cuckaroo_endpoints w p) id (fun _ _ => false) proof.

(** [CuckatooContext::verify_impl]. *)
Definition cuckatoo_endpoints (w : Z) (p : CuckooParams) (nonce : Z) : outcome pow_error (Z * Z) :=
  let? edge := to_edge w nonce in
  let? u := sipnode w p edge 0 false in
  let? v := sipnode w p edge 1 false in
  Ok (u, v).

Definition cuckatoo_verify (w : Z) (p : CuckooParams) (proof : Proof) : outcome pow_error () :=
  let start := Z.land (p_proof_size p / 2) 1 in
  verify_with (edge_mask p) (p_proof_size p) start (cuckatoo_endpoints w p) (fun x => x >>! 1) (fun a b => a =? b) proof.

(** ** The graph of the solver *)
Record Link := mkLink { next : Z; to : Z }.

Record Graph := mkGraph {
  max_edges : Z;
  max_nodes : Z;
  links : list Link;
  adj_list : list Z;
  visited : gset Z;
  max_sols : Z;
  solutions : list Proof;
  g_proof_size : Z;
  nil : Z
}.

Section Solver.
Context (c : ChainTypes) (w : Z).

Definition graph_new (max_edges max_sols proof_size : Z) : Graph :=
  mkGraph max_edges (2 *! max_edges) [] [] ∅ max_sols [] proof_size (2 ^ w - 1).

Definition graph_reset (g : Graph) : Graph :=
  mkGraph (max_edges g) (max_nodes g) [] (replicate (Z.to_nat (2 *! max_nodes g)) (2 ^ w - 1)) ∅ (max_sols g)
    [proof_zero c (Z.to_nat (g_proof_size g))] (g_proof_size g) (nil g).

Definition set_visited (v : gset Z) (g : Graph) : Graph :=
  mkGraph (max_edges g) (max_nodes g) (links g) (adj_list g) v (max_sols g) (solutions g) (g_proof_size g) (nil g).
Definition set_solutions (s : list Proof) (g : Graph) : Graph :=
  mkGraph (max_edges g) (max_nodes g) (links g) (adj_list g) (visited g) (max_sols g) s (g_proof_size g) (nil g).
Definition set_links (l : list Link) (a : list Z) (g : Graph) : Graph :=
  mkGraph (max_edges g) (max_nodes g) l a (visited g) (max_sols g) (solutions g) (g_proof_size g) (nil g).

Definition test_bit (g : Graph) (u : Z) : bool := bool_decide (wrap32 u ∈ visited g).

(** [v[i]], which panics out of range. *)
Definition index {A} (v : list A) (i : Z) : outcome pow_error A := unwrap (v !! Z.to_nat i).

(** [nonces[at] = x] in the last solution. *)
Definition set_nonce (at_ x : Z) : trans Graph pow_error () := fun g =>
  match last (solutions g) with
  | None => (Panic, g)
  | Some (CuckooProof eb nonces) =>
      if Z.of_nat (length nonces) <=? at_ then (Panic, g)
      else (Ok tt, set_solutions (<[ (length (solutions g) - 1)%nat :=
                                     CuckooProof eb (<[ Z.to_nat at_ := x ]> nonces) ]> (solutions g)) g)
  | Some _ => (Ok tt, g)
  end.

(** [cycles_with_link], with the loop over the links of [u ^ 1]: [depth] bounds the
    recursion, which stops at [proof_size], and the number of links bounds the loop. *)
Fixpoint cycles_with_link (depth : nat) (len u dest : Z) : trans Graph pow_error () := fun g =>
  match depth with
  | O => (Panic, g)
  | S depth =>
      if test_bit g (u >>! 1) then (Ok tt, g)
      else if (Z.lxor u 1 =? dest) && (len =? wrap32 (g_proof_size g)) then
        (Ok tt, if Z.of_nat (length (solutions g)) <? max_sols g
                then set_solutions (solutions g ++ [proof_zero c (Z.to_nat (g_proof_size g))]) g else g)
      else if negb (Z.lxor u 1 =? dest) && (len =? wrap32 (g_proof_size g)) then (Ok tt, g)
      else
        tbind (tread (fun g => index (adj_list g) (Z.lxor u 1))) (fun au1 g =>
        if au1 =? nil g then (Ok tt, g)
        else
          tbind (tmodify (fun g => set_visited ({[ wrap32 (u >>! 1) ]} ∪ visited g) g)) (fun _ =>
          tbind ((fix over (fuel : nat) (au1 : Z) : trans Graph pow_error () := fun g =>
             match fuel with
             | O => (Panic, g)
             | S fuel =>
                 if au1 =? nil g then (Ok tt, g)
                 else
                   tbind (set_nonce len (au1 / 2)) (fun _ =>
                   tbind (tread (fun g => let? l := index (links g) (Z.lxor au1 1) in Ok (to l))) (fun link =>
                   tbind (fun g => if link =? nil g then (Ok tt, g)
                                   else cycles_with_link depth (wrap32 (len + 1)) link dest g) (fun _ =>
                   tbind (tread (fun g => let? l := index (links g) au1 in Ok (next l))) (over fuel)))) g
             end) (S (length (links g))) au1) (fun _ =>
          tmodify (fun g => set_visited (visited g ∖ {[ wrap32 (u >>! 1) ]}) g))) g) g
  end.

Definition add_edge (u v : Z) : trans Graph pow_error () := fun g =>
  match to_edge w (max_nodes g) with
  | Err e => (Err e, g)
  | Panic => (Panic, g)
  | Ok max_nodes_t =>
      if (u >=? max_nodes_t) || (v >=? max_nodes_t) then (Err EdgeAddition, g)
      else
        let v := (v + max_nodes_t) mod 2 ^ w in
        tbind (tread (fun g => index (adj_list g) (Z.lxor u 1))) (fun adj_u =>
        tbind (tread (fun g => index (adj_list g) (Z.lxor v 1))) (fun adj_v =>
        tbind (fun g =>
          if negb (adj_u =? nil g) && negb (adj_v =? nil g) then
            tbind (fun g => set_nonce 0 (Z.of_nat (length (links g)) / 2) g) (fun _ g =>
              cycles_with_link (S (Z.to_nat (g_proof_size g))) 1 u v g) g
          else (Ok tt, g)) (fun _ g =>
        let ulink := Z.of_nat (length (links g)) in
        let vlink := ulink + 1 in
        tbind (tread (fun _ => to_edge w vlink)) (fun vlink_t g =>
        if vlink_t =? nil g then (Err EdgeAddition, g)
        else
          tbind (tread (fun g => index (adj_list g) u)) (fun next_u =>
          tbind (tread (fun g => index (adj_list g) v)) (fun next_v =>
          tmodify (fun g => set_links (links g ++ [mkLink next_u u; mkLink next_v v])
                              (<[ Z.to_nat v := vlink ]> (<[ Z.to_nat u := ulink ]> (adj_list g))) g))) g) g))) g
  end.

Definition insertion_sort : list Z -> list Z := merge_sort Z.le.

(** [find_cycles_iter]: the solutions found, with the edges they stand for, sorted and
    verified. *)
Definition find_cycles_iter (p : CuckooParams) (iter : list Z) : trans Graph pow_error (list Proof) := fun g =>
  tbind (tfor (fun n g =>
    match (let? e := to_edge w n in let? u := sipnode w p e 0 false in let? v := sipnode w p e 1 false in Ok (u, v)) with
    | Ok (u, v) => add_edge u v g
    | Err e => (Err e, g)
    | Panic => (Panic, g)
    end) iter) (fun _ =>
  tbind (tmodify (fun g => set_solutions (removelast (solutions g)) g)) (fun _ =>
  tbind (tzoom solutions set_solutions (fun sols =>
    let? sols := foldM (fun acc s =>
      match s with
      | CuckooProof eb nonces =>
          let? nonces := foldM (fun acc n => let? x := index iter n in Ok (acc ++ [x])) nonces [] in
          Ok (acc ++ [CuckooProof eb (insertion_sort nonces)])
      | s => Ok (acc ++ [s])
      end) sols [] in
    Ok (tt, sols))) (fun _ =>
  tread (fun g =>
    try? foldM (fun _ s => cuckatoo_verify w p s) (solutions g) tt then
    match solutions g with
    | [] => Err NoSolution
    | s => Ok s
    end)))) g.

Record CuckatooContext := mkCuckatoo { ct_params : CuckooParams; ct_graph : Graph }.

Definition cuckatoo_new (edge_bits proof_size max_sols : Z) : outcome pow_error CuckatooContext :=
  let? params := params_new w edge_bits proof_size in
  let? num_edges := to_edge w (num_edges params) in
  Ok (mkCuckatoo params (graph_new num_edges max_sols proof_size)).

Definition cuckatoo_set_header_nonce `{Hasher} (header : list Z) (nonce : option Z) (solve : bool)
    (ctx : CuckatooContext) : CuckatooContext :=
  mkCuckatoo (reset_header_nonce header nonce (ct_params ctx))
    (if solve then graph_reset (ct_graph ctx) else ct_graph ctx).

Definition pow_solve (ctx : CuckatooContext) : outcome pow_error (list Proof) :=
  (find_cycles_iter (ct_params ctx) (seqZ 0 (num_edges (ct_params ctx))) (ct_graph ctx)).1.

End Solver.

(** ** The lean miner, on [u32] *)
Record Lean := mkLean { l_params : CuckooParams; l_edges : gset Z }.

Definition lean_new (edge_bits : Z) : outcome pow_error Lean :=
  match params_new 32 edge_bits 42 with
  | Ok params => Ok (mkLean params (list_to_set (seqZ 0 (num_edges params))))
  | _ => Panic
  end.

Definition lean_set_header_nonce `{Hasher} (header : list Z) (nonce : Z) (l : Lean) : Lean :=
  mkLean (reset_header_nonce header (Some nonce) (l_params l)) (l_edges l).

(** [.unwrap()] of the node of an edge. *)
Definition lean_node (p : CuckooParams) (uorv e : Z) : outcome pow_error Z :=
  match sipnode 32 p e uorv false with
  | Ok n => Ok n
  | _ => Panic
  end.

Definition kill_side (p : CuckooParams) (edges : gset Z) (uorv : Z) : outcome pow_error (gset Z) :=
  let? nodes := foldM (fun nodes e => let? n := lean_node p uorv e in Ok ({[ n ]} ∪ nodes)) (elements edges) (∅ : gset Z) in
  let? to_kill := foldM (fun dead e =>
                    let? n := lean_node p uorv e in
                    Ok (if decide (Z.lxor n 1 ∈ nodes) then dead else {[ e ]} ∪ dead)) (elements edges) (∅ : gset Z) in
  Ok (edges ∖ to_kill).

Definition count_and_kill (l : Lean) : outcome pow_error Lean :=
  let? edges := foldM (kill_side (l_params l)) [0; 1] (l_edges l) in
  Ok (mkLean (l_params l) edges).

(** [trim] ends when few enough edges are left; the fuel bounds the rounds. *)
Definition trim_target (l : Lean) : Z := 7 *! (num_edges (l_params l) >>! 8) / 8.

Fixpoint trim (fuel : nat) (l : Lean) : outcome pow_error Lean :=
  match fuel with
  | O => Panic
  | S fuel =>
      if Z.of_nat (size (l_edges l)) >? trim_target l then
        let? l := count_and_kill l in trim fuel l
      else Ok l
  end.

Definition lean_find_cycles (c : ChainTypes) (l : Lean) (ctx : CuckatooContext) : outcome pow_error (list Proof) :=
  (find_cycles_iter c 32 (ct_params ctx) (merge_sort Z.le (elements (l_edges l))) (ct_graph ctx)).1.

(** ** The contexts of the other algorithms *)
Section Contexts.
Context `{Hasher} (c : ChainTypes).

(** The hexadecimal MD5 digest, Keccak-256, the ProgPoW value and mix of a header hash
    at a height and nonce, and the RandomX hash of a header under a seed. *)
Context (md5_hex : list Z -> list Z) (keccak_256 : list Z -> Hash)
  (progpow_verify : Hash -> Z -> Z -> option (Hash * Hash)) (slow_hash : list Z -> Hash -> Hash).

Definition md5_verify (edge_bits proof_size : Z) (header : list Z) (proof : Proof) : outcome pow_error () :=
  let result := md5_hex (replicate (Z.to_nat proof_size) edge_bits ++ header) in
  match proof with
  | MD5Proof p _ => if decide (result = p) then Ok tt else Err EdgeAddition
  | _ => Err EdgeAddition
  end.

Definition randomx_verify (seed : Hash) (header : list Z) (proof : Proof) : outcome pow_error () :=
  let hash := slow_hash header seed in
  match proof with
  | RandomXProof h => if decide (hash = h) then Ok tt else Err Verification
  | _ => Err Verification
  end.

(** [&header[0..(header.len() - 8)]]. *)
Definition transform_header (header : list Z) : outcome pow_error Hash :=
  if Z.of_nat (length header) <? 8 then Panic
  else Ok (keccak_256 (take (length header - 8) header)).

Definition progpow_context_verify (header : list Z) (height nonce : Z) (proof : Proof) : outcome pow_error () :=
  let? h := transform_header header in
  let? '(_, tm) := unwrap (progpow_verify h height nonce) in
  match proof with
  | ProgPowProof mix => if decide (mix = tm) then Ok tt else Err Verification
  | _ => Err Verification
  end.

(** [create_pow_context]: Cuckatoo on every chain. *)
Definition MAX_SOLS : Z := 10.
Definition create_pow_context (w edge_bits proof_size max_sols : Z) : outcome pow_error CuckatooContext :=
  cuckatoo_new w edge_bits proof_size max_sols.

(** What [verify_size] runs on the context it creates. *)
Definition run_context (params : PoWParams) (header : list Z) (nonce : option Z) (height : Z) (proof : Proof)
    : outcome pow_error () :=
  match params with
  | ProgPowCtx => progpow_context_verify header height (default 0 nonce) proof
  | RandomXCtx seed => randomx_verify seed header proof
  | MD5Ctx edge_bits proof_size => md5_verify edge_bits proof_size header proof
  | CuckooCtx _ edge_bits proof_size =>
      let? ctx := create_pow_context 64 edge_bits proof_size MAX_SOLS in
      cuckatoo_verify 64 (ct_params (cuckatoo_set_header_nonce c 64 header nonce false ctx)) proof
  end.

#[export] Instance node_contexts : PoWContext := fun params header nonce height proof =>
  is_ok (run_context params header nonce height proof).

End Contexts.
