(* ===== verification/CuckooTheory.v ===== *)
(** * What the verification of a cuckoo cycle accepts

    The two loops of [verify] on the endpoints [uvs] of the edges of a proof: the inner
    one finds the only other edge at an endpoint, the outer one walks a path that never
    meets an edge twice, so both end; they accept exactly the proofs whose edges form one
    cycle through all of them.  The trimming of the lean miner keeps the edges of every
    such cycle. *)
From S2P Require Import Prelude Ser Global Pow Block Pipe Cuckoo.

Ltac divmod := Z.to_euclidean_division_equations; lia.

(** The two endpoints of an edge differ in their lowest bit. *)
Lemma lxor_1 i : Z.lxor i 1 = i + 1 - 2 * (i mod 2).
Proof.
  assert (Z.div2 (Z.lxor i 1) = Z.div2 i) as Hd.
  { rewrite !Z.div2_spec, Z.shiftr_lxor. apply Z.lxor_0_r. }
  assert (Z.odd (Z.lxor i 1) = negb (Z.odd i)) as Ho.
  { rewrite <- !Z.bit0_odd, Z.lxor_spec. destruct (Z.testbit i 0); done. }
  rewrite (Z.div2_odd (Z.lxor i 1)), Hd, Ho, Zmod_odd. pose proof (Z.div2_odd i) as Hi.
  destruct (Z.odd i); cbn [negb Z.b2z] in *; lia.
Qed.

Lemma lxor_1_invol i : Z.lxor (Z.lxor i 1) 1 = i.
Proof. by rewrite Z.lxor_assoc, Z.lxor_nilpotent, Z.lxor_0_r. Qed.

Lemma lxor_1_inj i j : Z.lxor i 1 = Z.lxor j 1 -> i = j.
Proof. intros H. by rewrite <- (lxor_1_invol i), H, lxor_1_invol. Qed.

Lemma lxor_1_edge i j : i / 2 = j / 2 -> i = j \/ i = Z.lxor j 1.
Proof. rewrite lxor_1. intros. divmod. Qed.

Section Walk.
Context (node : Z -> Z) (dead_end : Z -> Z -> bool) (uvs : list Z) (L : Z).
Context (HL : 0 < L) (Hlen : Z.of_nat (length uvs) = 2 * L).

Definition value (i : Z) : Z := uvs !!! Z.to_nat i.
Definition key (i : Z) : Z := node (value i).

(** Endpoint [2 e + s] is the one of edge [e] on side [s].  [k] is another endpoint on
    the side of [i], at the same node. *)
Definition meets (i k : Z) : Prop := 0 <= k < 2 * L /\ k <> i /\ k mod 2 = i mod 2 /\ key k = key i.
Definition mate (i j : Z) : Prop := meets i j /\ forall k, meets i k -> k = j.

Lemma value_lookup i : 0 <= i < 2 * L -> uvs !! Z.to_nat i = Some (value i).
Proof. intros Hi. apply list_lookup_lookup_total_lt. lia. Qed.

(** The candidates of the inner loop, in its order. *)
Definition cand (i s : Z) : Z := (i + 2 * s) mod (2 * L).

Lemma cand_next i s : (cand i s + 2) mod (2 * L) = cand i (s + 1).
Proof. unfold cand. rewrite Zplus_mod_idemp_l. f_equal. lia. Qed.

Lemma cand_range i s : 0 <= cand i s < 2 * L.
Proof. apply Z.mod_pos_bound. lia. Qed.

Lemma cand_inj i s t : 0 <= s < L -> 0 <= t < L -> cand i s = cand i t -> s = t.
Proof.
  unfold cand. intros Hs Ht He.
  pose proof (Z.div_mod (i + 2 * s) (2 * L) ltac:(lia)) as Ds. pose proof (Z.div_mod (i + 2 * t) (2 * L) ltac:(lia)) as Dt.
  rewrite He in Ds. generalize dependent ((i + 2 * s) / (2 * L)). generalize dependent ((i + 2 * t) / (2 * L)).
  generalize ((i + 2 * t) mod (2 * L)). intros m a Dt b Ds.
  assert (s - t = L * (b - a)) by nia. assert (b - a = 0) by nia. nia.
Qed.

Lemma cand_0 i : 0 <= i < 2 * L -> cand i 0 = i.
Proof. intros. unfold cand. rewrite Z.mul_0_r, Z.add_0_r. by apply Z.mod_small. Qed.

Lemma cand_L i : 0 <= i < 2 * L -> cand i L = i.
Proof.
  intros Hi. unfold cand. replace (i + 2 * L) with (i + 1 * (2 * L)) by lia.
  rewrite Z.mod_add by lia. by apply Z.mod_small.
Qed.

Lemma mod_double x : (x mod (2 * L)) mod 2 = x mod 2.
Proof. apply Z.mod_mod_divide. exists L. lia. Qed.

Lemma cand_meets i k :
  0 <= i < 2 * L -> (exists s, 1 <= s < L /\ k = cand i s /\ key k = key i) <-> meets i k.
Proof.
  intros Hi. split.
  - intros (s & Hs & -> & Hk). split_and!; [apply cand_range..| | |done].
    + intros He. rewrite <- (cand_0 i Hi) in He at 2. apply cand_inj in He; lia.
    + unfold cand. rewrite mod_double. rewrite (Z.mul_comm 2), Z.mod_add; lia.
  - intros ((Hk0 & Hk1) & Hne & Hpar & Hkey). exists (((k - i) / 2) mod L).
    assert (k - i = 2 * ((k - i) / 2)) as Hd.
    { apply Z_div_exact_full_2; [lia|]. rewrite Zminus_mod, Hpar, Z.sub_diag. done. }
    pose proof (Z.mod_pos_bound ((k - i) / 2) L ltac:(lia)).
    pose proof (Z.div_mod ((k - i) / 2) L ltac:(lia)).
    assert (k = cand i (((k - i) / 2) mod L)) as Hc.
    { unfold cand. symmetry. set (d := (k - i) / 2) in *.
      replace (i + 2 * (d mod L)) with (k + (- (d / L)) * (2 * L)) by lia.
      rewrite Z.mod_add by lia. apply Z.mod_small. lia. }
    split_and!; [|lia|done|done].
    destruct (decide (((k - i) / 2) mod L = 0)) as [E|]; [|lia].
    rewrite E, cand_0 in Hc by lia. lia.
Qed.

(** After [t] candidates, [j] is [i] when none met [i], else the only one that did. *)
Definition found (i t j : Z) : Prop :=
  (j = i /\ forall s, 1 <= s <= t -> key (cand i s) <> key i) \/
  exists s, 1 <= s <= t /\ j = cand i s /\ key j = key i /\
    forall r, 1 <= r <= t -> key (cand i r) = key i -> r = s.

Lemma find_match_from fuel i t j :
  0 <= i < 2 * L -> 0 <= t < L -> L - t <= Z.of_nat fuel -> found i t j ->
  match find_match fuel node uvs L i j (cand i t) with
  | Ok j' => found i (L - 1) j'
  | Err e => e = Verification /\ exists k k', k <> k' /\ meets i k /\ meets i k'
  | Panic => False
  end.
Proof.
  intros Hi. revert t j. induction fuel as [|fuel IH]; intros t j Ht Hf Hj; [lia|].
  cbn [find_match]. rewrite cand_next.
  destruct (Z.eqb_spec (cand i (t + 1)) i) as [E|E].
  { replace (L - 1) with t; [done|]. destruct (decide (t + 1 = L)); [lia|].
    rewrite <- (cand_0 i Hi) in E at 2. apply cand_inj in E; lia. }
  assert (t + 1 < L) by (destruct (decide (t + 1 = L)) as [e|]; [by rewrite e, cand_L in E|lia]).
  rewrite (value_lookup _ (cand_range i (t + 1))), (value_lookup i Hi).
  change (node (value (cand i (t + 1)))) with (key (cand i (t + 1))). change (node (value i)) with (key i).
  destruct (Z.eqb_spec (key (cand i (t + 1))) (key i)) as [K|K].
  - destruct (Z.eqb_spec j i) as [->|J]; cbn [negb].
    + apply IH; [lia..|]. right. exists (t + 1). split_and!; [lia..|done|done|].
      intros r Hr Kr. destruct (decide (r = t + 1)) as [|]; [done|].
      destruct Hj as [[_ Hn]|(s & Hs & Es & _)]; [by destruct (Hn r ltac:(lia))|].
      symmetry in Es. rewrite <- (cand_0 i Hi) in Es at 2. apply cand_inj in Es; lia.
    + destruct Hj as [[-> _]|(s & Hs & -> & Ks & _)]; [done|].
      split; [done|]. exists (cand i s), (cand i (t + 1)). split_and!.
      * intros He. apply cand_inj in He; lia.
      * apply cand_meets; [done|]. exists s. split_and!; [lia..|done|done].
      * apply cand_meets; [done|]. exists (t + 1). split_and!; [lia..|done|done].
  - apply IH; [lia..|]. destruct Hj as [[-> Hn]|(s & Hs & -> & Ks & Hu)]; [left|right].
    + split; [done|]. intros s Hs. destruct (decide (s = t + 1)) as [->|]; [done|]. apply Hn. lia.
    + exists s. split_and!; [lia..|done|done|]. intros r Hr Kr.
      destruct (decide (r = t + 1)) as [->|]; [done|]. apply Hu; [lia|done].
Qed.

(** The inner loop returns [i] when [i] is alone at its node, the other endpoint when
    there is one, and an error when there are more. *)
Lemma find_match_spec i :
  0 <= i < 2 * L ->
  match find_match (S (Z.to_nat L)) node uvs L i i i with
  | Ok j => (j = i /\ forall k, ~ meets i k) \/ mate i j
  | Err e => e = Verification /\ exists k k', k <> k' /\ meets i k /\ meets i k'
  | Panic => False
  end.
Proof.
  intros Hi. pose proof (find_match_from (S (Z.to_nat L)) i 0 i Hi) as H. rewrite cand_0 in H by done.
  ospecialize* H; [lia..| |]. { left. split; [done|]. intros; lia. }
  destruct (find_match _ _ _ _ _ _ _) as [j|e|]; [|done..].
  destruct H as [[-> Hn]|(s & Hs & -> & Ks & Hu)]; [left|right].
  - split; [done|]. intros k (s & Hs & -> & Hk)%cand_meets; [|done]. by apply (Hn s ltac:(lia)).
  - split; [apply cand_meets; [done|]; exists s; split_and!; [lia..|done|done]|].
    intros k (r & Hr & -> & Hk)%cand_meets; [|done]. by rewrite (Hu r ltac:(lia)).
Qed.

(** ** The walk

    From [a], over its mate, to the other end of the mate's edge. *)
Definition joins (a b : Z) : Prop := exists j, mate a j /\ dead_end (value j) (value a) = false /\ b = Z.lxor j 1.

Lemma mate_sym a j : 0 <= a < 2 * L -> mate a j -> mate j a.
Proof.
  intros Ha ((Hj & Hne & Hp & Hk) & Hu). split; [split_and!; [lia..|congruence|done|done]|].
  intros b (Hb & Hbj & Hbp & Hbk). destruct (decide (b = a)) as [|N]; [done|].
  destruct Hbj. apply Hu. split_and!; [lia..|done|congruence|congruence].
Qed.

Lemma mate_fun a j j' : mate a j -> mate a j' -> j = j'.
Proof. intros [Hm _] [_ Hu]. by apply Hu. Qed.

Lemma joins_range a b : joins a b -> 0 <= b < 2 * L.
Proof. intros (j & (((Hj & _) & _) & _ & ->)). rewrite lxor_1. divmod. Qed.

Lemma joins_parity a b : joins a b -> b mod 2 = 1 - a mod 2.
Proof. intros (j & (((_ & _ & Hp & _) & _) & _ & ->)). rewrite lxor_1. divmod. Qed.

Lemma joins_inj a b c : 0 <= a < 2 * L -> 0 <= b < 2 * L -> joins a c -> joins b c -> a = b.
Proof.
  intros Ha Hb (j & Hj & _ & ->) (k & Hk & _ & <-%lxor_1_inj).
  eapply mate_fun; by apply mate_sym.
Qed.

(** What the outer loop has walked: from endpoint 0, not back to it yet. *)
Record path (p : list Z) : Prop := {
  path_start : p !! 0%nat = Some 0;
  path_step t a b : p !! t = Some a -> p !! S t = Some b -> joins a b;
  path_open t a : p !! S t = Some a -> a <> 0
}.

Lemma path_single : path [0].
Proof. split; [done| |]; intros t ?; by destruct t. Qed.

Lemma path_snoc p i j : path p -> last p = Some i -> joins i j -> j <> 0 -> path (p ++ [j]).
Proof.
  rewrite last_lookup. intros [Hs Hstep Ho] Hi Hj H0.
  assert (0 < length p)%nat by (apply lookup_lt_Some in Hs; lia). split.
  - by rewrite lookup_app_l.
  - intros t a b Ha Hb. apply lookup_snoc_Some in Hb as [[Ht Hb]|[Ht <-]].
    + rewrite lookup_app_l in Ha by lia. by eapply Hstep.
    + rewrite lookup_app_l in Ha by lia. replace t with (pred (length p)) in Ha by lia. congruence.
  - intros t a [[_ Ha]|[_ <-]]%lookup_snoc_Some; [by eapply Ho|done].
Qed.

Section Path.
Context (p : list Z) (Hp : path p).

Lemma path_pred t b : p !! S t = Some b -> exists a, p !! t = Some a /\ joins a b.
Proof.
  intros Hb. destruct (lookup_lt_is_Some_2 p t) as [a Ha]; [apply lookup_lt_Some in Hb; lia|].
  exists a. split; [done|]. by eapply path_step.
Qed.

Lemma path_range t a : p !! t = Some a -> 0 <= a < 2 * L.
Proof.
  destruct t; [rewrite (path_start _ Hp); intros [= <-]; lia|].
  intros (b & _ & Hj)%path_pred. by eapply joins_range.
Qed.

Lemma path_parity t a : p !! t = Some a -> a mod 2 = Z.of_nat t mod 2.
Proof.
  revert a. induction t as [|t IH]; intros a; [rewrite (path_start _ Hp); by intros [= <-]|].
  intros (b & Hb & Hj)%path_pred. rewrite (joins_parity _ _ Hj), (IH _ Hb). divmod.
Qed.

Lemma path_distinct s t a : p !! s = Some a -> p !! t = Some a -> s = t.
Proof.
  revert t a. induction s as [|s IH]; intros t a.
  - rewrite (path_start _ Hp). intros [= <-]. destruct t; [done|]. by intros ?%(path_open _ Hp).
  - intros Hs Ht. destruct t as [|t].
    { rewrite (path_start _ Hp) in Ht. injection Ht as <-. by apply (path_open _ Hp) in Hs. }
    apply path_pred in Hs as (b & Hb & Jb), Ht as (c & Hc & Jc). f_equal. apply (IH t b Hb).
    by rewrite (joins_inj b c a) by eauto using path_range.
Qed.

(** A path does not come back over an edge: it would have come back over the one before,
    and so on down to an edge that turns around. *)
Lemma path_no_return s t x y : p !! s = Some x -> p !! t = Some y -> (s < t)%nat -> y <> Z.lxor x 1.
Proof.
  remember (t - s)%nat as d eqn:Hd. revert s t x y Hd.
  induction (lt_wf d) as [d _ IH]. intros s [|t] x y -> Hx Hy Hlt E; [lia|].
  apply path_pred in Hy as (y1 & Hy1 & (j & Hj & _ & Ey)). rewrite Ey in E. apply lxor_1_inj in E as ->.
  destruct (decide (t = s)) as [->|]. { assert (y1 = x) as -> by congruence. by destruct Hj as [(_ & ? & _) _]. }
  apply mate_sym in Hj; [|by eapply path_range].
  destruct (lookup_lt_is_Some_2 p (S s)) as [x1 Hx1]; [apply lookup_lt_Some in Hy1; lia|].
  destruct (path_step _ Hp _ _ _ Hx Hx1) as (j & Hj' & _ & ->).
  rewrite (mate_fun _ _ _ Hj' Hj) in Hx1.
  destruct (decide (t = S s)) as [->|].
  { assert (Z.lxor y1 1 = y1) as E by congruence. rewrite lxor_1 in E. divmod. }
  by apply (IH (t - S s)%nat ltac:(lia) (S s) t _ y1 eq_refl Hx1 Hy1 ltac:(lia)); rewrite lxor_1_invol.
Qed.

(** The edges of a path are distinct, so there are at most [L] of them. *)
Lemma path_edges_NoDup : NoDup ((fun i => i / 2) <$> p).
Proof.
  apply NoDup_alt. intros s t e. rewrite !list_lookup_fmap.
  destruct (p !! s) as [x|] eqn:Hx; [|done]. destruct (p !! t) as [y|] eqn:Hy; [|done]. intros [= <-] [= E].
  apply lxor_1_edge in E as [->|E]; [by eapply path_distinct|].
  destruct (lt_eq_lt_dec s t) as [[Hl|]|Hl]; [|done|].
  - by destruct (path_no_return s t x y Hx Hy Hl).
  - destruct (path_no_return t s y x Hy Hx Hl). by rewrite E, lxor_1_invol.
Qed.

Lemma path_edges_range : (fun i => i / 2) <$> p ⊆ seqZ 0 L.
Proof.
  intros e (i & -> & (t & Hi%path_range)%list_elem_of_lookup)%list_elem_of_fmap.
  apply elem_of_seqZ. divmod.
Qed.

Lemma path_length : Z.of_nat (length p) <= L.
Proof.
  pose proof (submseteq_length _ _ (NoDup_submseteq _ _ path_edges_NoDup path_edges_range)) as H.
  rewrite length_fmap, length_seqZ in H. lia.
Qed.

End Path.

(** The outer loop returns, and with a number only when its path has closed. *)
Definition closes (p : list Z) : Prop := path p /\ exists i, last p = Some i /\ joins i 0.

Lemma follow_spec fuel p i :
  path p -> last p = Some i -> L - Z.of_nat (length p) < Z.of_nat fuel ->
  match follow fuel node dead_end uvs L i (Z.of_nat (length p) - 1) with
  | Ok n => exists p', closes p' /\ Z.of_nat (length p') = n
  | Err e => e = Verification
  | Panic => False
  end.
Proof.
  revert p i. induction fuel as [|fuel IH]; intros p i Hp Hi Hf.
  { pose proof (path_length p Hp). lia. }
  assert (0 <= i < 2 * L) as Hr by (rewrite last_lookup in Hi; by eapply path_range).
  cbn [follow]. pose proof (find_match_spec i Hr) as Hm.
  destruct (find_match _ _ _ _ _ _ _) as [j|e|]; cbn [bind]; [|by destruct Hm|done].
  destruct (Z.eqb_spec j i) as [|Hne]; [done|]. destruct Hm as [[? _]|Hm]; [done|].
  assert (0 <= j < 2 * L) as Hj by apply Hm.
  rewrite (value_lookup j Hj), (value_lookup i Hr).
  destruct (dead_end (value j) (value i)) eqn:Hd; [done|].
  assert (joins i (Z.lxor j 1)) as Hjoin by (by exists j).
  destruct (Z.eqb_spec (Z.lxor j 1) 0) as [E|E].
  { exists p. rewrite E in Hjoin. split; [|lia]. split; [done|]. by exists i. }
  assert (Hl : Z.of_nat (length (p ++ [Z.lxor j 1])) = Z.of_nat (length p) + 1) by (rewrite length_app; simpl; lia).
  replace (Z.of_nat (length p) - 1 + 1) with (Z.of_nat (length (p ++ [Z.lxor j 1])) - 1) by lia.
  apply IH; [by apply path_snoc with i|apply last_snoc|lia].
Qed.

(** ** Cycles

    A cycle through all the edges, from edge 0: consecutive edges are the only two that
    meet at a node, on either side in turn. *)
Definition cycle_at (es : list Z) : Prop :=
  es ≡ₚ seqZ 0 L /\ es !! 0%nat = Some 0 /\ L mod 2 = 0 /\
  forall t a b, es !! t = Some a -> es !! (S t mod length es)%nat = Some b ->
    let s := Z.of_nat t mod 2 in
    mate (2 * a + s) (2 * b + s) /\ dead_end (value (2 * b + s)) (value (2 * a + s)) = false.

Lemma joins_edges x y s :
  joins x y -> x mod 2 = s ->
  mate (2 * (x / 2) + s) (2 * (y / 2) + s) /\ dead_end (value (2 * (y / 2) + s)) (value (2 * (x / 2) + s)) = false.
Proof.
  intros (j & Hm & Hd & ->) Hs.
  assert (j mod 2 = x mod 2) by apply Hm.
  replace (2 * (x / 2) + s) with x by divmod.
  replace (2 * (Z.lxor j 1 / 2) + s) with j by (rewrite lxor_1; divmod). done.
Qed.

Lemma closes_cycle p : closes p -> Z.of_nat (length p) = L -> cycle_at ((fun i => i / 2) <$> p).
Proof.
  intros [Hp (z & Hz & Hclose)] Hn. rewrite last_lookup in Hz. split_and!.
  - apply submseteq_length_Permutation; [apply NoDup_submseteq|].
    + by apply path_edges_NoDup.
    + by apply path_edges_range.
    + rewrite length_fmap, length_seqZ. lia.
  - rewrite list_lookup_fmap, (path_start _ Hp). done.
  - pose proof (joins_parity _ _ Hclose). pose proof (path_parity p Hp _ _ Hz).
    pose proof (lookup_lt_Some _ _ _ Hz). rewrite Nat2Z.inj_pred in * by lia. divmod.
  - intros t a b Ha Hb. rewrite list_lookup_fmap in Ha. destruct (p !! t) as [x|] eqn:Hx; [|done].
    injection Ha as <-. rewrite length_fmap, list_lookup_fmap in Hb.
    pose proof (lookup_lt_Some _ _ _ Hx). intros s.
    assert (exists y, joins x y /\ y / 2 = b) as (y & Hj & <-).
    { destruct (decide (S t = length p)) as [E|].
      - rewrite E, Nat.Div0.mod_same, (path_start _ Hp) in Hb. injection Hb as <-.
        replace (pred (length p)) with t in Hz by lia. exists 0. split; [|done]. congruence.
      - rewrite Nat.mod_small in Hb by lia. destruct (p !! S t) as [y|] eqn:Hy; [|done].
        injection Hb as <-. exists y. split; [|done]. by eapply path_step. }
    apply joins_edges; [done|]. by apply (path_parity p Hp).
Qed.

Section Cycle.
Context (es : list Z) (Hc : cycle_at es).

Lemma cycle_length : Z.of_nat (length es) = L.
Proof. destruct Hc as [Hperm _]. rewrite Hperm, length_seqZ. lia. Qed.

Lemma cycle_range t a : es !! t = Some a -> 0 <= a < L.
Proof.
  intros Ha%list_elem_of_lookup_2. destruct Hc as [Hperm _]. rewrite Hperm in Ha. apply elem_of_seqZ in Ha. lia.
Qed.

Lemma cycle_NoDup : NoDup es.
Proof. destruct Hc as [Hperm _]. rewrite Hperm. apply NoDup_seqZ. Qed.

(** From the edge at [t] the outer loop goes round to edge 0. *)
Lemma follow_cycle fuel t a :
  es !! t = Some a -> L - Z.of_nat t <= Z.of_nat fuel ->
  follow fuel node dead_end uvs L (2 * a + Z.of_nat t mod 2) (Z.of_nat t) = Ok L.
Proof.
  pose proof cycle_length as Hl. destruct Hc as (_ & H0 & Heven & Hstep).
  revert t a. induction fuel as [|fuel IH]; intros t a Ha Hf.
  { pose proof (lookup_lt_Some _ _ _ Ha). lia. }
  pose proof (lookup_lt_Some _ _ _ Ha) as Ht. pose proof (cycle_range _ _ Ha).
  destruct (lookup_lt_is_Some_2 es (S t mod length es)) as [b Hb]; [apply Nat.mod_upper_bound; lia|].
  destruct (Hstep t a b Ha Hb) as [Hm Hd]. pose proof (cycle_range _ _ Hb). cbn [follow].
  assert (0 <= 2 * a + Z.of_nat t mod 2 < 2 * L) as Hi by divmod.
  assert (0 <= 2 * b + Z.of_nat t mod 2 < 2 * L) as Hj by divmod.
  pose proof (find_match_spec _ Hi) as Hfm. destruct (find_match _ _ _ _ _ _ _) as [j|e|]; [| |done]; last first.
  { destruct Hfm as (_ & k & k' & Hne & Hk & Hk'). destruct Hne, Hm as [_ Hu]. by rewrite (Hu k Hk), (Hu k' Hk'). }
  destruct Hfm as [[_ Hn]|Hj']; [by destruct Hm as [Hm _]; apply Hn in Hm|].
  cbn [bind]. rewrite (mate_fun _ _ _ Hj' Hm), (value_lookup _ Hj), (value_lookup _ Hi), Hd.
  destruct (Z.eqb_spec (2 * b + Z.of_nat t mod 2) (2 * a + Z.of_nat t mod 2)) as [E|_]; [by destruct Hm as [(_ & ? & _) _]|].
  rewrite lxor_1. destruct (decide (S t = length es)) as [E|].
  - rewrite E, Nat.Div0.mod_same, H0 in Hb. injection Hb as <-.
    rewrite (proj2 (Z.eqb_eq _ _)) by divmod. f_equal. lia.
  - rewrite Nat.mod_small in Hb by lia.
    assert (b <> 0) by (intros ->; by pose proof (NoDup_lookup _ _ _ _ cycle_NoDup H0 Hb)).
    rewrite (proj2 (Z.eqb_neq _ _)) by divmod.
    rewrite <- (IH (S t) b Hb ltac:(lia)) at 1. f_equal; divmod.
Qed.

End Cycle.

(** The walk of [verify] accepts exactly the cycles. *)
Lemma follow_exact :
  match follow (S (2 * Z.to_nat L)) node dead_end uvs L 0 0 with
  | Ok n => n = L <-> exists es, cycle_at es
  | Err e => e = Verification /\ forall es, ~ cycle_at es
  | Panic => False
  end.
Proof.
  pose proof (follow_spec (S (2 * Z.to_nat L)) [0] 0 path_single eq_refl) as Hs.
  change (Z.of_nat (length [0]) - 1) with 0 in Hs.
  assert (forall es, cycle_at es -> follow (S (2 * Z.to_nat L)) node dead_end uvs L 0 0 = Ok L) as Hcomp.
  { intros es He. pose proof He as (_ & H0 & _). apply (follow_cycle es He _ 0 0 H0). lia. }
  destruct (follow _ _ _ _ _ _ _) as [n|e|]; [|split|].
  - destruct Hs as (p & Hp & <-); [simpl; lia|]. split; [intros Hn; eexists; by apply closes_cycle|].
    intros [es He%Hcomp]. by injection He.
  - apply Hs. simpl; lia.
  - intros es He%Hcomp. done.
  - apply Hs. simpl; lia.
Qed.

End Walk.

(** ** A proof as a cycle of its edges *)

(** [at_ n s] is the endpoint of edge [n] on side [s].  The edges [es], from the first of
    the proof, meet in turn on either side, two at a node and no more. *)
Definition cycle (at_ : Z -> Z -> Z) (node : Z -> Z) (dead_end : Z -> Z -> bool) (nonces : list Z) : Prop :=
  exists es, es ≡ₚ nonces /\ head es = head nonces /\ Nat.Even (length es) /\
    forall t a b, es !! t = Some a -> es !! (S t mod length es)%nat = Some b ->
      let s := Z.of_nat t mod 2 in
      a <> b /\ dead_end (at_ b s) (at_ a s) = false /\
      forall e, e ∈ nonces -> node (at_ e s) = node (at_ a s) <-> e = a \/ e = b.

Definition endpoints_of (at_ : Z -> Z -> Z) (nonces : list Z) : list Z :=
  nonces ≫= (fun n => [at_ n 0; at_ n 1]).

Lemma length_endpoints_of at_ nonces : length (endpoints_of at_ nonces) = (2 * length nonces)%nat.
Proof. unfold endpoints_of. induction nonces as [|n l IH]; [done|]. csimpl. rewrite IH. lia. Qed.

Lemma endpoints_of_lookup at_ nonces e n s :
  nonces !! e = Some n -> 0 <= s < 2 -> value (endpoints_of at_ nonces) (2 * Z.of_nat e + s) = at_ n s.
Proof.
  intros Hn Hs. unfold value. apply list_lookup_total_correct. unfold endpoints_of.
  revert e Hn. induction nonces as [|m l IH]; intros [|e] Hn; [done..| |].
  - injection Hn as ->. assert (s = 0 \/ s = 1) as [-> | ->] by lia; done.
  - replace (Z.to_nat (2 * Z.of_nat (S e) + s)) with (S (S (Z.to_nat (2 * Z.of_nat e + s)))) by lia.
    csimpl. by apply IH.
Qed.

Section Edges.
Context (at_ : Z -> Z -> Z) (node : Z -> Z) (dead_end : Z -> Z -> bool) (nonces : list Z) (HN : NoDup nonces).
Context (Hne : nonces <> []).
Let uvs := endpoints_of at_ nonces.
Let L := Z.of_nat (length nonces).

Definition nonce_at (e : Z) : Z := nonces !!! Z.to_nat e.

Lemma nonces_nonce_at : nonces = nonce_at <$> seqZ 0 L.
Proof.
  apply list_eq_same_length with (length nonces); [rewrite length_fmap, length_seqZ; lia|done|].
  intros i x y Hi Hx Hy. rewrite list_lookup_fmap, lookup_seqZ_lt in Hy by (unfold L; lia).
  injection Hy as <-. unfold nonce_at. rewrite Z.add_0_l, Nat2Z.id.
  symmetry. by apply list_lookup_total_correct.
Qed.

Lemma nonce_at_inj a b : 0 <= a < L -> 0 <= b < L -> nonce_at a = nonce_at b -> a = b.
Proof.
  unfold nonce_at, L. intros Ha Hb E.
  destruct (lookup_lt_is_Some_2 nonces (Z.to_nat a)) as [x Hx]; [lia|].
  destruct (lookup_lt_is_Some_2 nonces (Z.to_nat b)) as [y Hy]; [lia|].
  rewrite (list_lookup_total_correct _ _ _ Hx), (list_lookup_total_correct _ _ _ Hy) in E. subst y.
  pose proof (NoDup_lookup _ _ _ _ HN Hx Hy). lia.
Qed.

Lemma value_at e s : 0 <= e < L -> 0 <= s < 2 -> value uvs (2 * e + s) = at_ (nonce_at e) s.
Proof.
  unfold nonce_at, L, uvs. intros He Hs. rewrite <- (Z2Nat.id e) at 1 by lia.
  apply endpoints_of_lookup; [|done]. apply list_lookup_lookup_total_lt. lia.
Qed.

Lemma meets_edges a s k :
  0 <= a < L -> 0 <= s < 2 ->
  meets node uvs L (2 * a + s) k <->
  exists e, 0 <= e < L /\ k = 2 * e + s /\ e <> a /\ node (at_ (nonce_at e) s) = node (at_ (nonce_at a) s).
Proof.
  intros Ha Hs. unfold meets, key. rewrite (value_at a s) by done. split.
  - intros (Hk & Hka & Hp & E). exists (k / 2). assert (k = 2 * (k / 2) + s) as Hk2 by divmod.
    split_and!; [divmod..|]. rewrite Hk2, value_at in E by divmod. done.
  - intros (e & He & -> & Hea & E). rewrite value_at by done. split_and!; [lia..|divmod|done].
Qed.

Lemma mate_edges a b s :
  0 <= a < L -> 0 <= b < L -> 0 <= s < 2 ->
  mate node uvs L (2 * a + s) (2 * b + s) <->
  nonce_at a <> nonce_at b /\
  forall e, e ∈ nonces -> node (at_ e s) = node (at_ (nonce_at a) s) <-> e = nonce_at a \/ e = nonce_at b.
Proof.
  intros Ha Hb Hs. unfold mate. setoid_rewrite meets_edges; [|done..]. rewrite nonces_nonce_at. split.
  - intros [(b' & Hb' & Eb & Hba & Kb) Hu]. assert (b' = b) as -> by lia.
    split; [intros E%nonce_at_inj; [congruence|done..]|].
    intros x (e & -> & He%elem_of_seqZ)%list_elem_of_fmap. split; [|intros [-> | ->]; done].
    intros Ke. destruct (decide (e = a)) as [->|]; [by left|right]. f_equal.
    enough (2 * e + s = 2 * b + s) by lia. apply Hu. exists e. split_and!; [lia..|done|done].
  - intros [Hab Hiff]. split.
    + exists b. split_and!; [lia..|congruence|]. apply Hiff; [|by right].
      apply list_elem_of_fmap. exists b. split; [done|]. apply elem_of_seqZ. lia.
    + intros k (e & He & -> & Hea & Ke).
      apply Hiff in Ke as [E%nonce_at_inj|E%nonce_at_inj]; [done|lia|lia|lia|lia|lia|].
      apply list_elem_of_fmap. exists e. split; [done|]. apply elem_of_seqZ. lia.
Qed.

Lemma cycle_at_cycle :
  (exists es, cycle_at node dead_end uvs L es) <-> cycle at_ node dead_end nonces.
Proof.
  assert (0 < L) as HL by (destruct nonces; [done|]; unfold L; simpl; lia).
  assert (forall t, 0 <= Z.of_nat t mod 2 < 2) as Hpar by (intros; divmod).
  split.
  - intros [es Hc]. pose proof (cycle_length _ _ _ L HL es Hc) as Hl. pose proof (cycle_range _ _ _ L es Hc) as Hr.
    destruct Hc as (Hperm & H0 & Heven & Hstep). exists (nonce_at <$> es). split_and!.
    + rewrite Hperm. by rewrite <- nonces_nonce_at.
    + destruct es; [done|]. injection H0 as ->. simpl. rewrite nonces_nonce_at, (seqZ_cons 0 L HL). done.
    + rewrite length_fmap. exists (Z.to_nat (L / 2)). divmod.
    + intros t a b. rewrite length_fmap, !list_lookup_fmap.
      destruct (es !! t) as [a'|] eqn:Ha; [|done]. destruct (es !! (S t mod length es)%nat) as [b'|] eqn:Hb; [|done].
      intros [= <-] [= <-] s. destruct (Hstep t a' b' Ha Hb) as [Hm Hd].
      rewrite !value_at in Hd by eauto. apply mate_edges in Hm as [Hab Hiff]; eauto.
  - intros (es & Hperm & Hhead & [h Hh] & Hstep).
    rewrite nonces_nonce_at in Hperm. apply Permutation_map_inv in Hperm as (is_ & -> & Hperm).
    exists is_. assert (forall t i, is_ !! t = Some i -> 0 <= i < L) as Hr.
    { intros t i Hi%list_elem_of_lookup_2. rewrite <- Hperm in Hi. apply elem_of_seqZ in Hi. lia. }
    split_and!; [done| | |].
    + destruct is_ as [|i l]; [apply Permutation_length in Hperm; rewrite length_seqZ in Hperm; simpl in Hperm; lia|].
      rewrite nonces_nonce_at, (seqZ_cons 0 L HL) in Hhead. injection Hhead as Hi. simpl. f_equal.
      apply nonce_at_inj; [apply (Hr 0%nat); done|lia|done].
    + rewrite length_map in Hh. apply Permutation_length in Hperm. rewrite length_seqZ in Hperm. divmod.
    + intros t a b Ha Hb s. destruct (Hstep t (nonce_at a) (nonce_at b)) as (Hab & Hd & Hiff).
      { by rewrite list_lookup_fmap, Ha. } { by rewrite length_map, list_lookup_fmap, Hb. }
      split; [apply mate_edges; eauto|]. rewrite !value_at; eauto.
Qed.

End Edges.

(** ** The sums over the endpoints *)
Definition xor_all (l : list Z) : Z := foldr Z.lxor 0 l.

#[export] Instance xor_all_perm : Proper ((≡ₚ) ==> (=)) xor_all.
Proof.
  induction 1 as [|x l l' _ IH|x y l|]; simpl; [done|by rewrite IH| |congruence].
  by rewrite <- !Z.lxor_assoc, (Z.lxor_comm x y).
Qed.

Lemma foldl_lxor l x : foldl Z.lxor x l = Z.lxor x (xor_all l).
Proof.
  revert x. induction l as [|y l IH]; intros x; simpl; [by rewrite Z.lxor_0_r|].
  by rewrite IH, Z.lxor_assoc.
Qed.

(** Pairs that each sum to [c]. *)
Lemma xor_pairs (f : Z -> Z) c h l :
  length l = (2 * h)%nat ->
  (forall t a b, Nat.Even t -> l !! t = Some a -> l !! S t = Some b -> Z.lxor (f a) (f b) = c) ->
  xor_all (f <$> l) = if Nat.odd h then c else 0.
Proof.
  revert l. induction h as [|h IH]; intros [|a [|b l]] Hl Hp; try (simpl in Hl; lia); [done|].
  csimpl. rewrite IH; [|simpl in Hl; lia|].
  - rewrite <- Z.lxor_assoc, (Hp 0%nat a b (ex_intro _ 0%nat eq_refl) eq_refl eq_refl).
    rewrite Nat.odd_succ, <- Nat.negb_odd. destruct (Nat.odd h); [apply Z.lxor_nilpotent|apply Z.lxor_0_r].
  - intros t x y Ht Hx Hy. apply (Hp (S (S t))); [by apply Nat.Even_Even_add with (n := 2%nat) (m := t); [exists 1%nat|]|done|done].
Qed.

(** Around a cycle the edges pair up on either side. *)
Lemma cycle_xor at_ node dead_end nonces c s :
  cycle at_ node dead_end nonces ->
  (forall a b, node a = node b -> dead_end b a = false -> Z.lxor a b = c) -> s = 0 \/ s = 1 ->
  xor_all ((fun n => at_ n s) <$> nonces) = if Nat.odd (length nonces / 2) then c else 0.
Proof.
  intros (es & Hperm & _ & [h Hh] & Hstep) Hc Hs. rewrite <- Hperm, Hh, (Nat.mul_comm 2), Nat.div_mul by done.
  assert (forall t a b, Z.of_nat t mod 2 = s -> es !! t = Some a -> es !! (S t mod length es)%nat = Some b ->
                        Z.lxor (at_ a s) (at_ b s) = c) as Hpair.
  { intros t a b Ht Ha Hb. destruct (Hstep t a b Ha Hb) as (_ & Hd & Hiff). rewrite Ht in *. apply Hc; [|done].
    symmetry. apply Hiff; [|by right]. rewrite <- Hperm. by eapply list_elem_of_lookup_2. }
  assert (forall t a, es !! t = Some a -> (S t < length es)%nat -> (S t mod length es = S t)%nat) as Hsmall
    by (intros; by apply Nat.mod_small).
  destruct Hs as [-> | ->].
  - apply xor_pairs; [done|]. intros t a b [k ->] Ha Hb. apply (Hpair (2 * k)%nat a b); [divmod|done|].
    by rewrite (Hsmall _ _ Ha) by (by eapply lookup_lt_Some).
  - destruct es as [|x l]; [destruct h; [done|simpl in Hh; lia]|].
    rewrite (Permutation_cons_append l x). apply xor_pairs; [rewrite length_app; simpl in *; lia|].
    intros t a b [k ->] Ha Hb. apply (Hpair (S (2 * k)) a b); [divmod| |].
    + change ((x :: l) !! S (2 * k)) with (l !! (2 * k)%nat).
      apply lookup_snoc_Some in Ha as [[_ Ha]|[E _]]; [done|]. apply lookup_lt_Some in Hb. rewrite length_app in Hb.
      simpl in *. lia.
    + apply lookup_snoc_Some in Hb as [[Hlt Hb]|[E <-]].
      * rewrite Nat.mod_small by (simpl; lia). done.
      * simpl length. rewrite <- E, Nat.Div0.mod_same. done.
Qed.

(** ** The verification *)
Section Verify.
Context (mask start : Z) (endpoints : Z -> outcome pow_error (Z * Z)) (at_ : Z -> Z -> Z).
Context (node : Z -> Z) (dead_end : Z -> Z -> bool).
Context (typed : Z -> Prop) (Hends : forall n, typed n -> n <= mask -> endpoints n = Ok (at_ n 0, at_ n 1)).

(** The first loop accepts the edges that fit and ascend, and gathers their endpoints. *)
Definition fits (prev : option Z) (nonces : list Z) : Prop :=
  Forall (fun n => n <= mask) nonces /\ Sorted Z.lt (from_option (fun p => [p]) [] prev ++ nonces).

Lemma fits_cons prev n l :
  fits prev (n :: l) <-> n <= mask /\ match prev with Some p => p < n | None => True end /\ fits (Some n) l.
Proof.
  unfold fits. rewrite Forall_cons. split.
  - intros [[Hn Hl] Hs]. destruct prev as [p|]; simpl in Hs; [|done]. split; [done|].
    inversion Hs as [|? ? Hs' Hd]; subst. inversion Hd. done.
  - intros (Hn & Hp & Hl & Hs). split; [done|]. destruct prev as [p|]; simpl; [|done].
    constructor; [done|]. by constructor.
Qed.

Lemma ends_step_cases us x0 x1 prev n :
  typed n ->
  (n <= mask /\ match prev with Some p => p < n | None => True end /\
   ends_step mask endpoints (mkEnds us x0 x1 prev) n =
   Ok (mkEnds (us ++ [at_ n 0; at_ n 1]) (Z.lxor x0 (at_ n 0)) (Z.lxor x1 (at_ n 1)) (Some n))) \/
  (~ (n <= mask /\ match prev with Some p => p < n | None => True end) /\
   ends_step mask endpoints (mkEnds us x0 x1 prev) n = Err Verification).
Proof.
  intros Hty. unfold ends_step. cbn [previous Cuckoo.uvs xor0 xor1].
  destruct (Z.gtb_spec n mask) as [|Hn]; [right; split; [lia|done]|].
  destruct prev as [q|]; [destruct (Z.leb_spec n q); [right; split; [lia|done]|]|]; rewrite (Hends n Hty) by lia; by left.
Qed.

Lemma ends_loop nonces us x0 x1 prev :
  Forall typed nonces ->
  let r := foldM (ends_step mask endpoints) nonces (mkEnds us x0 x1 prev) in
  (fits prev nonces /\ exists prev',
     r = Ok (mkEnds (us ++ endpoints_of at_ nonces) (foldl Z.lxor x0 ((fun n => at_ n 0) <$> nonces))
               (foldl Z.lxor x1 ((fun n => at_ n 1) <$> nonces)) prev')) \/
  (~ fits prev nonces /\ r = Err Verification).
Proof.
  intros Hty. revert us x0 x1 prev. induction Hty as [|n l Hn0 _ IH]; intros us x0 x1 prev.
  { left. split; [split; [done|]; destruct prev; repeat constructor|]. exists prev. by rewrite app_nil_r. }
  cbv zeta. rewrite !fits_cons. cbn [foldM].
  destruct (ends_step_cases us x0 x1 prev n Hn0) as [(Hn & Hp & ->)|[Hf ->]]; cbn [bind].
  - destruct (IH (us ++ [at_ n 0; at_ n 1]) (Z.lxor x0 (at_ n 0)) (Z.lxor x1 (at_ n 1)) (Some n))
      as [[Hf (prev' & ->)]|[Hf ->]]; [left|right].
    + split; [done|]. exists prev'. by rewrite <- app_assoc.
    + split; [|done]. by intros (_ & _ & ?).
  - right. split; [|done]. tauto.
Qed.

Lemma ascending_NoDup (l : list Z) : StronglySorted Z.lt l -> NoDup l.
Proof.
  induction l as [|x l IH]; [constructor|]. intros [Hx Hl]%StronglySorted_cons. constructor; [|by apply IH].
  intros Hin. rewrite Forall_forall in Hx. specialize (Hx x Hin). lia.
Qed.

(** [verify] accepts the ascending edges that fit and form one cycle, and nothing else;
    the equality of the sums follows from the cycle. *)
Lemma verify_with_exact c eb nonces :
  Forall typed nonces -> nonces <> [] -> start = (if Nat.odd (length nonces / 2) then c else 0) ->
  (forall a b, node a = node b -> dead_end b a = false -> Z.lxor a b = c) ->
  let r := verify_with mask (Z.of_nat (length nonces)) start endpoints node dead_end (CuckooProof eb nonces) in
  (r = Ok tt <-> Forall (fun n => n <= mask) nonces /\ StronglySorted Z.lt nonces /\ cycle at_ node dead_end nonces) /\
  (r = Ok tt \/ r = Err Verification).
Proof.
  intros Hty Hne Hst Hc r. subst r. unfold verify_with. destruct (ends_loop nonces [] start start None Hty) as [[[Hm Hs] (prev' & ->)]|[Hf ->]]; last first.
  { cbn [bind]. split; [|by right]. split; [done|]. intros (Hm & Hs & _). destruct Hf. split; [done|].
    by apply StronglySorted_Sorted. }
  apply Sorted_StronglySorted in Hs; [|exact Z.lt_trans]. cbn [bind Cuckoo.uvs xor0 xor1 app]. rewrite !foldl_lxor.
  pose proof (ascending_NoDup _ Hs) as HN.
  assert (0 < Z.of_nat (length nonces)) as HL by (destruct nonces; [done|simpl; lia]).
  pose proof (follow_exact node dead_end (endpoints_of at_ nonces) _ HL ltac:(rewrite length_endpoints_of; lia)) as Hfe.
  pose proof (cycle_at_cycle at_ node dead_end nonces HN Hne) as Hiff.
  rewrite (proj2 (Z.eqb_neq (Z.of_nat (length nonces)) 0)) by lia.
  destruct (Z.eqb_spec (Z.lor (Z.lxor start (xor_all ((fun n => at_ n 0) <$> nonces)))
                              (Z.lxor start (xor_all ((fun n => at_ n 1) <$> nonces)))) 0) as [E|E]; cbn [negb]; last first.
  { split; [|by right]. split; [done|]. intros (_ & _ & Hcyc). destruct E.
    rewrite !(cycle_xor _ _ _ _ c _ Hcyc Hc), <- Hst, Z.lxor_nilpotent by auto. done. }
  destruct (follow _ _ _ _ _ _ _) as [n|e|]; cbn [bind].
  - destruct (Z.eqb_spec n (Z.of_nat (length nonces))) as [En|En]; [|split; [|by right]].
    + split; [|by left]. split; [|done]. intros _. split; [done|]. split; [done|]. apply Hiff. by apply Hfe.
    + split; [done|]. intros (_ & _ & Hcyc). by apply Hiff, Hfe in Hcyc.
  - destruct Hfe as [-> Hno]. split; [|by right]. split; [done|]. intros (_ & _ & Hcyc).
    apply Hiff in Hcyc as [es Hes]. by apply Hno in Hes.
  - done.
Qed.
End Verify.

(** ** Cuckatoo *)

(** The endpoint of edge [n] on side [s]; two of them share a node when they differ in at
    most the lowest bit. *)
Definition cuckatoo_node (p : CuckooParams) (n s : Z) : Z := Z.land (siphash24 (siphash_keys p) (2 *! n +! s)) (edge_mask p).
Definition cuckatoo_cycle (p : CuckooParams) (nonces : list Z) : Prop :=
  cycle (cuckatoo_node p) (fun x => x >>! 1) Z.eqb nonces.

Lemma land_range x m : 0 <= m -> 0 <= Z.land x m <= m.
Proof.
  intros Hm. split; [apply Z.land_nonneg; by right|].
  assert (Z.ldiff (Z.land x m) m = 0) as H0.
  { apply Z.bits_inj'. intros i Hi. rewrite Z.ldiff_spec, Z.land_spec, Z.bits_0.
    by destruct (Z.testbit x i), (Z.testbit m i). }
  apply Z.sub_nocarry_ldiff in H0.
  assert (0 <= Z.ldiff m (Z.land x m)) by (apply Z.ldiff_nonneg; by left). lia.
Qed.

Lemma shiftr_1_flip a b : a >>! 1 = b >>! 1 -> a <> b -> b = Z.lxor a 1.
Proof.
  rewrite !u64_shr_div by lia. change (2 ^ 1) with 2. intros Hd Hne.
  destruct (lxor_1_edge b a) as [->|]; done.
Qed.

Lemma sipnode_node w p n s :
  0 <= edge_mask p < 2 ^ w -> sipnode w p n s false = Ok (cuckatoo_node p n s).
Proof.
  intros Hm. unfold sipnode, cuckatoo_node. cbv beta iota zeta.
  pose proof (land_range (siphash24 (siphash_keys p) (2 *! n +! s)) (edge_mask p) ltac:(lia)) as Hr.
  generalize dependent (Z.land (siphash24 (siphash_keys p) (2 *! n +! s)) (edge_mask p)). intros x Hr.
  unfold to_edge. by rewrite (proj2 (Z.ltb_lt x _)) by lia.
Qed.

Lemma cuckatoo_endpoints_node w p n :
  0 <= edge_mask p < 2 ^ w -> n <= edge_mask p ->
  cuckatoo_endpoints w p n = Ok (cuckatoo_node p n 0, cuckatoo_node p n 1).
Proof.
  intros Hm Hn. unfold cuckatoo_endpoints, to_edge. rewrite (proj2 (Z.ltb_lt n _)) by lia.
  cbn [bind]. by rewrite !sipnode_node.
Qed.

Lemma of_nat_mod_2 k : Z.of_nat k mod 2 = if Nat.odd k then 1 else 0.
Proof.
  destruct (Nat.odd k) eqn:E; [apply Nat.odd_spec in E as [m ->]; divmod|].
  rewrite <- Nat.negb_even in E. apply negb_false_iff, Nat.even_spec in E as [m ->]. divmod.
Qed.

Lemma cuckatoo_verify_cases w p eb nonces :
  0 <= edge_mask p < 2 ^ w -> p_proof_size p = Z.of_nat (length nonces) -> nonces <> [] ->
  (cuckatoo_verify w p (CuckooProof eb nonces) = Ok tt <->
   Forall (fun n => n <= edge_mask p) nonces /\ StronglySorted Z.lt nonces /\ cuckatoo_cycle p nonces) /\
  (cuckatoo_verify w p (CuckooProof eb nonces) = Ok tt \/ cuckatoo_verify w p (CuckooProof eb nonces) = Err Verification).
Proof.
  intros Hm Hs Hne. unfold cuckatoo_verify. rewrite Hs.
  apply (verify_with_exact (edge_mask p) _ _ (cuckatoo_node p) _ _
           (fun _ => True) (fun n _ Hn => cuckatoo_endpoints_node w p n Hm Hn) 1); [by apply Forall_true|done| |].
  - change 1 with (Z.ones 1) at 1. rewrite Z.land_ones by lia. change (2 ^ 1) with 2.
    rewrite <- (Nat2Z.inj_div _ 2). apply of_nat_mod_2.
  - intros a b Hk Hd%Z.eqb_neq. rewrite (shiftr_1_flip a b) by (done || congruence).
    by rewrite <- Z.lxor_assoc, Z.lxor_nilpotent.
Qed.

(** ** Cuckaroo

    The hash of a block of edges is a 64-bit value. *)
Lemma lor_u64 a b : is_u64 a -> is_u64 b -> is_u64 (Z.lor a b).
Proof.
  unfold is_u64. intros Ha Hb. split; [apply Z.lor_nonneg; lia|].
  destruct (decide (Z.lor a b = 0)) as [->|]; [lia|]. assert (0 <= Z.lor a b) by (apply Z.lor_nonneg; lia).
  apply Z.log2_lt_pow2; [lia|]. rewrite Z.log2_lor by lia.
  destruct (decide (a = 0)) as [->|], (decide (b = 0)) as [->|]; [done|..];
    apply Z.max_lub_lt; try (apply Z.log2_lt_pow2; lia); done.
Qed.

Lemma lxor_u64 a b : is_u64 a -> is_u64 b -> is_u64 (Z.lxor a b).
Proof.
  unfold is_u64. intros Ha Hb. split; [apply Z.lxor_nonneg; lia|].
  pose proof (lor_u64 a b Ha Hb) as [_ Ho]. rewrite <- Z.sub_lor_land.
  assert (0 <= Z.land a b) by (apply Z.land_nonneg; lia). lia.
Qed.

Definition sip_u64 (s : SipHash24) : Prop := is_u64 (s0 s) /\ is_u64 (s1 s) /\ is_u64 (s2 s) /\ is_u64 (s3 s).

Lemma rotl_u64 x n : is_u64 x -> is_u64 (rotl x n).
Proof.
  intros Hx. apply lor_u64; [apply wrap64_range|]. unfold u64_shr, is_u64 in *.
  pose proof (Z.mod_pos_bound (64 - n) 64 ltac:(lia)) as Hk. rewrite Z.shiftr_div_pow2 by lia.
  assert (0 < 2 ^ ((64 - n) mod 64)) by (apply Z.pow_pos_nonneg; lia).
  split; [apply Z.div_pos; lia|]. apply Z.div_lt_upper_bound; nia.
Qed.

Create HintDb sip discriminated.
#[local] Hint Resolve wrap64_range lxor_u64 rotl_u64 : sip.
#[local] Hint Extern 0 (is_u64 (_ +! _)) => apply wrap64_range : sip.

Lemma round_u64 s : sip_u64 s -> sip_u64 (round s).
Proof. intros (H0 & H1 & H2 & H3). unfold round, sip_u64. cbn [s0 s1 s2 s3]. auto 10 with sip. Qed.

Lemma rounds_u64 k s : sip_u64 s -> sip_u64 (Nat.iter k round s).
Proof. intros Hs. induction k as [|k IH]; [done|]. by apply round_u64. Qed.

Lemma sip_hash_u64 s n : is_u64 n -> sip_u64 s -> sip_u64 (sip_hash s n).
Proof.
  intros Hn (H0 & H1 & H2 & H3). apply rounds_u64.
  assert (sip_u64 (mkSip (s0 s) (s1 s) (s2 s) (Z.lxor (s3 s) n))) as Hs by (unfold sip_u64; cbn [s0 s1 s2 s3]; auto with sip).
  apply round_u64, round_u64 in Hs.
  generalize dependent (round (round (mkSip (s0 s) (s1 s) (s2 s) (Z.lxor (s3 s) n)))).
  intros r (G0 & G1 & G2 & G3). unfold sip_u64. cbn [s0 s1 s2 s3].
  assert (is_u64 255) by done. auto with sip.
Qed.

Lemma digest_u64 s : sip_u64 s -> is_u64 (digest s).
Proof. intros (H0 & H1 & H2 & H3). unfold digest. auto 10 with sip. Qed.

Lemma siphash_block_u64 v n : sip_u64 (sip_new v) -> 0 <= n < 2 ^ 63 -> is_u64 (siphash_block v n).
Proof.
  intros Hv Hn. unfold siphash_block. cbv zeta.
  set (n0 := Z.land n (Z.lxor SIPHASH_BLOCK_MASK u64_max)).
  assert (0 <= n0 < 2 ^ 63) as Hn0.
  { unfold n0. rewrite Z.land_comm. pose proof (land_range (Z.lxor SIPHASH_BLOCK_MASK u64_max) n ltac:(lia)). lia. }
  assert (n0 +! SIPHASH_BLOCK_SIZE = n0 + 64) as ->.
  { change SIPHASH_BLOCK_SIZE with 64. apply u64_add_small. unfold is_u64. lia. }
  set (body := fun (st : SipHash24 * Z) k => _).
  assert (forall l st, Forall is_u64 l -> sip_u64 st.1 -> is_u64 st.2 ->
            sip_u64 (foldl body st l).1 /\ is_u64 (foldl body st l).2) as Hloop.
  { induction l as [|k l IH]; intros st Hl H1 H2; [done|]. apply Forall_cons in Hl as [Hk Hl]. cbn [foldl].
    apply IH; [done|by apply sip_hash_u64|]. unfold body. cbn [snd].
    destruct (k =? n); [by apply digest_u64, sip_hash_u64|done]. }
  specialize (Hloop (seqZ n0 (n0 + 64 - n0)) (sip_new v, 0)).
  destruct (foldl body _ _) as [st h]. destruct Hloop as [H1 H2]; [|done|done|].
  - apply Forall_forall. intros k Hk%elem_of_seqZ. unfold is_u64. lia.
  - destruct (n =? _); [by apply digest_u64|]. apply lxor_u64; [done|by apply digest_u64].
Qed.

Definition cuckaroo_node (p : CuckooParams) (n s : Z) : Z :=
  Z.land (Z.shiftr (siphash_block (siphash_keys p) n) (32 * s)) (edge_mask p).

Lemma cuckaroo_endpoints_node p n :
  sip_u64 (sip_new (siphash_keys p)) -> 0 <= n < 2 ^ 63 ->
  cuckaroo_endpoints 64 p n = Ok (cuckaroo_node p n 0, cuckaroo_node p n 1).
Proof.
  intros Hk Hn. unfold cuckaroo_endpoints, cuckaroo_node.
  destruct (siphash_block_u64 _ n Hk Hn) as [Hb0 Hb1].
  generalize dependent (siphash_block (siphash_keys p) n). intros x Hb0 Hb1.
  unfold to_edge. by rewrite (proj2 (Z.ltb_lt x _)) by lia.
Qed.

(** On 64-bit edges, and with keys of 64 bits, [CuckarooContext::verify] accepts exactly
    the cycles of its graph. *)
Theorem cuckaroo_verify_exact p eb nonces :
  sip_u64 (sip_new (siphash_keys p)) -> 0 <= edge_mask p < 2 ^ 63 -> Forall (fun n => 0 <= n) nonces ->
  p_proof_size p = Z.of_nat (length nonces) -> nonces <> [] ->
  (cuckaroo_verify 64 p (CuckooProof eb nonces) = Ok tt <->
   Forall (fun n => n <= edge_mask p) nonces /\ StronglySorted Z.lt nonces /\
   cycle (cuckaroo_node p) id (fun _ _ => false) nonces) /\
  (cuckaroo_verify 64 p (CuckooProof eb nonces) = Ok tt \/ cuckaroo_verify 64 p (CuckooProof eb nonces) = Err Verification).
Proof.
  intros Hk Hm Hty Hs Hne. unfold cuckaroo_verify. rewrite Hs.
  apply (verify_with_exact (edge_mask p) 0 _ (cuckaroo_node p) id _ (fun n => 0 <= n)
           (fun n H0 Hn => cuckaroo_endpoints_node p n Hk (conj H0 (Z.le_lt_trans _ _ _ Hn (proj2 Hm)))) 0); [done|done|by destruct (Nat.odd _)|].
  intros a b [= ->] _. apply Z.lxor_nilpotent.
Qed.

(** What the node runs on a Cuckoo proof: Cuckatoo on [2 ^ edge_bits] edges, keyed by the
    header. *)
Definition header_params `{Hasher} (header : list Z) (nonce : option Z) (edge_bits size : Z) : CuckooParams :=
  mkParams edge_bits size (2 ^ edge_bits) (set_header_nonce header nonce) (2 ^ edge_bits - 1).

Section Context.
Context `{Hasher} (c : ChainTypes) (md5_hex : list Z -> list Z) (keccak_256 : list Z -> Hash)
  (progpow_verify : Hash -> Z -> Z -> option (Hash * Hash)) (slow_hash : list Z -> Hash -> Hash).
Context (header : list Z) (nonce : option Z) (height edge_bits : Z) (Hbits : 0 <= edge_bits < 64).

Lemma run_context_cuckoo size proof :
  run_context c md5_hex keccak_256 progpow_verify slow_hash (CuckooCtx height edge_bits size) header nonce height proof =
  cuckatoo_verify 64 (header_params header nonce edge_bits size) proof.
Proof.
  unfold run_context, create_pow_context, cuckatoo_new, params_new, header_params.
  assert (2 ^ 0 <= 2 ^ edge_bits <= 2 ^ 63) as Hp by (split; apply Z.pow_le_mono_r; lia).
  rewrite u64_shl_small by (unfold is_u64; lia). rewrite Z.mul_1_l, u64_sub_small by (unfold is_u64; lia).
  unfold to_edge. rewrite (proj2 (Z.ltb_lt (2 ^ edge_bits - 1) _)) by lia. cbn [bind num_edges].
  by rewrite (proj2 (Z.ltb_lt (2 ^ edge_bits) _)) by lia.
Qed.

Lemma header_params_mask size : 0 <= edge_mask (header_params header nonce edge_bits size) < 2 ^ 64.
Proof.
  assert (2 ^ 0 <= 2 ^ edge_bits <= 2 ^ 63) as Hp by (split; apply Z.pow_le_mono_r; lia).
  cbn [edge_mask header_params]. lia.
Qed.

(** C17. A Cuckoo proof is accepted exactly when its edges are in range, ascend, and form one
    cycle, through all of them and without a chord, of the graph that the header and
    nonce key. *)
Theorem cuckoo_context_exact eb nonces :
  nonces <> [] ->
  let p := header_params header nonce edge_bits (Z.of_nat (length nonces)) in
  run_context c md5_hex keccak_256 progpow_verify slow_hash
    (CuckooCtx height edge_bits (Z.of_nat (length nonces))) header nonce height (CuckooProof eb nonces) = Ok tt <->
  Forall (fun n => n < 2 ^ edge_bits) nonces /\ StronglySorted Z.lt nonces /\ cuckatoo_cycle p nonces.
Proof.
  intros Hne p. rewrite run_context_cuckoo.
  rewrite (proj1 (cuckatoo_verify_cases 64 _ eb nonces (header_params_mask _) eq_refl Hne)).
  fold p. rewrite (Forall_iff (fun n => n <= edge_mask p) nonces (fun n => n < 2 ^ edge_bits)); [done|].
  intros n. cbn [edge_mask p header_params]. lia.
Qed.

(** The verification of a Cuckoo proof returns, with success or a verification error,
    whatever its edges: no index is out of range and the walk ends. *)
Theorem cuckoo_context_returns eb nonces :
  nonces <> [] ->
  let r := run_context c md5_hex keccak_256 progpow_verify slow_hash
             (CuckooCtx height edge_bits (Z.of_nat (length nonces))) header nonce height (CuckooProof eb nonces) in
  r = Ok tt \/ r = Err Verification.
Proof.
  intros Hne. rewrite run_context_cuckoo.
  apply (cuckatoo_verify_cases 64 _ eb nonces (header_params_mask _) eq_refl Hne).
Qed.
End Context.

(** ** Trimming *)

(** An edge stays when some edge ends at the other endpoint of its node. *)
Definition stays (p : CuckooParams) (edges : gset Z) (s e : Z) : Prop :=
  exists e', e' ∈ edges /\ cuckatoo_node p e' s = Z.lxor (cuckatoo_node p e s) 1.

Section Trim.
Context (p : CuckooParams) (Hm : 0 <= edge_mask p < 2 ^ 32).

Lemma lean_node_ok s e : lean_node p s e = Ok (cuckatoo_node p e s).
Proof. unfold lean_node. by rewrite sipnode_node. Qed.

Lemma collect_nodes s l (acc : gset Z) :
  foldM (fun nodes e => let? n := lean_node p s e in Ok ({[ n ]} ∪ nodes)) l acc =
  Ok (list_to_set ((fun e => cuckatoo_node p e s) <$> l) ∪ acc).
Proof.
  revert acc. induction l as [|e l IH]; intros acc; [cbn [foldM fmap list_fmap list_to_set]; by rewrite union_empty_l_L|].
  cbn [foldM]. rewrite lean_node_ok. cbn [bind]. rewrite IH, fmap_cons, list_to_set_cons. f_equal.
  by rewrite (assoc_L (∪)), (comm_L (∪) (list_to_set _)).
Qed.

Lemma collect_dead s (nodes : gset Z) l (acc : gset Z) :
  foldM (fun dead e =>
           let? n := lean_node p s e in
           Ok (if decide (Z.lxor n 1 ∈ nodes) then dead else {[ e ]} ∪ dead)) l acc =
  Ok (list_to_set (filter (fun e => Z.lxor (cuckatoo_node p e s) 1 ∉ nodes) l) ∪ acc).
Proof.
  revert acc. induction l as [|e l IH]; intros acc; [cbn [foldM]; by rewrite filter_nil, list_to_set_nil, union_empty_l_L|].
  cbn [foldM]. rewrite lean_node_ok. cbn [bind]. rewrite IH, filter_cons. f_equal.
  destruct (decide (Z.lxor (cuckatoo_node p e s) 1 ∈ nodes)) as [Hin|Hin].
  - rewrite decide_False by tauto. done.
  - rewrite decide_True by done. by rewrite list_to_set_cons, (assoc_L (∪)), (comm_L (∪) (list_to_set _)).
Qed.

Lemma kill_side_exact edges s :
  exists edges', kill_side p edges s = Ok edges' /\ forall e, e ∈ edges' <-> e ∈ edges /\ stays p edges s e.
Proof.
  unfold kill_side. rewrite collect_nodes. cbn [bind]. rewrite collect_dead. cbn [bind].
  eexists. split; [done|]. intros e. rewrite union_empty_r_L.
  set (nodes := list_to_set ((fun e => cuckatoo_node p e s) <$> elements edges) ∪ ∅ : gset Z).
  assert (stays p edges s e <-> Z.lxor (cuckatoo_node p e s) 1 ∈ nodes) as ->.
  { unfold stays, nodes. rewrite union_empty_r_L, elem_of_list_to_set, list_elem_of_fmap.
    setoid_rewrite elem_of_elements. by split; intros (y & ? & ?); exists y. }
  rewrite elem_of_difference, elem_of_list_to_set, list_elem_of_filter, elem_of_elements.
  destruct (decide (Z.lxor (cuckatoo_node p e s) 1 ∈ nodes)); tauto.
Qed.

(** A set of edges that stay by themselves survives a round. *)
Definition core (es : list Z) : Prop :=
  forall e s, e ∈ es -> s = 0 \/ s = 1 -> exists e', e' ∈ es /\ cuckatoo_node p e' s = Z.lxor (cuckatoo_node p e s) 1.

Lemma cycle_core nonces : cuckatoo_cycle p nonces -> core nonces.
Proof.
  clear Hm. intros (es & Hperm & _ & [h Hh] & Hstep) e s He Hs. rewrite <- Hperm in He.
  apply list_elem_of_lookup in He as [t Ht]. pose proof (lookup_lt_Some _ _ _ Ht) as Hlt.
  assert (forall t a b, es !! t = Some a -> es !! (S t mod length es)%nat = Some b ->
            cuckatoo_node p b (Z.of_nat t mod 2) = Z.lxor (cuckatoo_node p a (Z.of_nat t mod 2)) 1) as Hflip.
  { intros i a b Ha Hb. destruct (Hstep i a b Ha Hb) as (_ & Hd%Z.eqb_neq & Hiff).
    apply shiftr_1_flip; [|congruence]. symmetry. apply Hiff; [|by right].
    rewrite <- Hperm. by eapply list_elem_of_lookup_2. }
  destruct (decide (Z.of_nat t mod 2 = s)) as [<-|Hpar].
  - destruct (lookup_lt_is_Some_2 es (S t mod length es)) as [b Hb]; [apply Nat.mod_upper_bound; lia|].
    exists b. split; [rewrite <- Hperm; by eapply list_elem_of_lookup_2|]. by apply Hflip.
  - set (t' := match t with O => pred (length es) | S t' => t' end).
    assert (S t' mod length es = t)%nat as Hnext.
    { unfold t'. destruct t as [|t]; [rewrite Nat.succ_pred, Nat.Div0.mod_same by lia; done|by apply Nat.mod_small]. }
    assert (Z.of_nat t' mod 2 = s) as Hs'.
    { unfold t'. destruct t as [|t]; [|divmod]. rewrite Nat2Z.inj_pred by lia. divmod. }
    destruct (lookup_lt_is_Some_2 es t') as [a Ha]; [unfold t'; destruct t; lia|].
    exists a. split; [rewrite <- Hperm; by eapply list_elem_of_lookup_2|].
    specialize (Hflip t' a e Ha). rewrite Hnext, Hs' in Hflip. by rewrite (Hflip Ht), lxor_1_invol.
Qed.

Lemma kill_side_core edges s es :
  core es -> s = 0 \/ s = 1 -> list_to_set es ⊆ edges ->
  exists edges', kill_side p edges s = Ok edges' /\ list_to_set es ⊆ edges' /\ edges' ⊆ edges.
Proof.
  intros Hc Hs Hin. destruct (kill_side_exact edges s) as (edges' & Hk & He). exists edges'. split; [done|]. split.
  - intros e Hes%elem_of_list_to_set. apply He. split; [by apply Hin, elem_of_list_to_set|].
    destruct (Hc e s Hes Hs) as (e' & He' & Heq). exists e'. split; [by apply Hin, elem_of_list_to_set|done].
  - intros e [? _]%He. done.
Qed.

Lemma count_and_kill_core edges es :
  core es -> list_to_set es ⊆ edges ->
  exists edges', count_and_kill (mkLean p edges) = Ok (mkLean p edges') /\ list_to_set es ⊆ edges' /\ edges' ⊆ edges.
Proof.
  intros Hc Hin. unfold count_and_kill. cbn [foldM l_params l_edges].
  destruct (kill_side_core edges 0 es Hc ltac:(auto) Hin) as (e1 & -> & H1 & H1'). cbn [bind].
  destruct (kill_side_core e1 1 es Hc ltac:(auto) H1) as (e2 & -> & H2 & H2'). cbn [bind].
  exists e2. split_and!; [done..|by transitivity e1].
Qed.

Lemma trim_core fuel edges es :
  core es -> list_to_set es ⊆ edges ->
  match trim fuel (mkLean p edges) with
  | Ok l => l_params l = p /\ list_to_set es ⊆ l_edges l /\ l_edges l ⊆ edges /\
            Z.of_nat (size (l_edges l)) <= trim_target (mkLean p edges)
  | Err _ => False
  | Panic => True
  end.
Proof.
  intros Hc. revert edges. induction fuel as [|fuel IH]; intros edges Hin; [done|]. cbn [trim l_edges].
  destruct (Z.gtb_spec (Z.of_nat (size edges)) (trim_target (mkLean p edges))); [|done].
  destruct (count_and_kill_core edges es Hc Hin) as (edges' & -> & H1 & H2). cbn [bind].
  specialize (IH edges' H1). destruct (trim fuel (mkLean p edges')) as [l|e|]; [|done..].
  destruct IH as (? & ? & ? & ?). split; [done|]. split; [done|]. split; [by transitivity edges'|done].
Qed.

End Trim.

Lemma solution_core w p eb nonces :
  0 <= edge_mask p < 2 ^ w -> p_proof_size p = Z.of_nat (length nonces) -> nonces <> [] ->
  cuckatoo_verify w p (CuckooProof eb nonces) = Ok tt -> core p nonces /\ NoDup nonces.
Proof.
  intros Hm Hs Hne (_ & Hsort & Hc)%(cuckatoo_verify_cases w p eb nonces Hm Hs Hne).
  split; [exact (cycle_core p nonces Hc)|exact (ascending_NoDup _ Hsort)].
Qed.

(** Trimming never loses a solution: a round of [count_and_kill] returns and keeps every
    edge of each proof that verifies, and so does [trim] whenever it ends. *)
Theorem trimming_keeps_solutions l eb nonces :
  0 <= edge_mask (l_params l) < 2 ^ 32 -> p_proof_size (l_params l) = Z.of_nat (length nonces) -> nonces <> [] ->
  cuckatoo_verify 32 (l_params l) (CuckooProof eb nonces) = Ok tt -> list_to_set nonces ⊆ l_edges l ->
  (exists l', count_and_kill l = Ok l' /\ l_params l' = l_params l /\ list_to_set nonces ⊆ l_edges l' /\ l_edges l' ⊆ l_edges l) /\
  forall fuel l', trim fuel l = Ok l' -> list_to_set nonces ⊆ l_edges l'.
Proof.
  intros Hm Hs Hne Hv Hin. destruct (solution_core _ _ _ _ Hm Hs Hne Hv) as [Hc _]. destruct l as [p edges]. split.
  - destruct (count_and_kill_core p Hm edges nonces Hc Hin) as (e & -> & H1 & H2). by exists (mkLean p e).
  - intros fuel l' Ht. pose proof (trim_core p Hm fuel edges nonces Hc Hin) as H. rewrite Ht in H. apply H.
Qed.

(** [trim] does not end on a graph with a solution longer than its target, as every
    graph of less than 14 bits has that has a 42-cycle. *)
Theorem trim_never_ends l eb nonces :
  0 <= edge_mask (l_params l) < 2 ^ 32 -> p_proof_size (l_params l) = Z.of_nat (length nonces) ->
  cuckatoo_verify 32 (l_params l) (CuckooProof eb nonces) = Ok tt -> list_to_set nonces ⊆ l_edges l ->
  0 <= trim_target l < Z.of_nat (length nonces) -> forall fuel, trim fuel l = Panic.
Proof.
  intros Hm Hs Hv Hin Ht fuel. assert (nonces <> []) as Hne by (intros ->; simpl in Ht; lia).
  destruct (solution_core _ _ _ _ Hm Hs Hne Hv) as [Hc HN]. destruct l as [p edges].
  pose proof (trim_core p Hm fuel edges nonces Hc Hin) as H.
  destruct (trim fuel (mkLean p edges)) as [l'|e|]; [|done..]. destruct H as (_ & Hsub & _ & Hsize).
  apply subseteq_size in Hsub. rewrite size_list_to_set in Hsub by done. lia.
Qed.

(** ** The solver *)
Lemma foldM_verify w p sols :
  foldM (fun _ s => cuckatoo_verify w p s) sols tt = Ok tt -> Forall (fun s => cuckatoo_verify w p s = Ok tt) sols.
Proof.
  induction sols as [|s l IH]; cbn [foldM]; [constructor|]. intros ([] & Hs & Hl)%bind_Ok_inv. by constructor; [|apply IH].
Qed.

(** Every solution that the solver returns verifies, and it returns at least one. *)
Theorem pow_solve_sound c w ctx sols :
  pow_solve c w ctx = Ok sols ->
  sols <> [] /\ Forall (fun s => cuckatoo_verify w (ct_params ctx) s = Ok tt) sols.
Proof.
  unfold pow_solve, find_cycles_iter. set (m := tbind _ _). destruct (m _) as [r g'] eqn:E. cbn [fst]. intros ->.
  subst m. apply tbind_Ok_inv in E as (? & g1 & _ & E). apply tbind_Ok_inv in E as (? & g2 & _ & E).
  apply tbind_Ok_inv in E as (? & g3 & _ & E). apply tread_Ok_inv in E as [E _].
  apply bind_Ok_inv in E as ([] & Hv & E). apply foldM_verify in Hv.
  destruct (solutions g3); [done|]. injection E as <-. done.
Qed.
