(* ===== verification/CuckooExample.v ===== *)
(** * Cuckoo cycles on concrete graphs

    The 42-cycle that the tests of [cuckatoo.rs] verify, a proof they reject, and small
    graphs on which the theorems about the verification and the trimming apply. *)
From S2P Require Import Prelude Ser Global Pow Block Pipe Cuckoo CuckooTheory.

(** The keys are the BLAKE2b digest of 76 zero bytes and the nonce 20. *)
Definition v29_params : CuckooParams :=
  mkParams 29 42 (2 ^ 29) [2835021974058107255; 18008376622573741934; 1613186471630964367; 13296941332084296974] (2 ^ 29 - 1).

Definition v29_tail : list Z :=
  [10285123; 22399536; 26167171; 38336620; 40016484; 96130898; 120468841; 155039584; 159202103; 165697136; 171007322;
   171274657; 172546886; 175609526; 180631057; 191140143; 196527902; 197954529; 205038650; 223324825; 234981990; 238544028;
   262764026; 293101621; 306427402; 310980000; 337335379; 344179616; 352670302; 369571116; 370679779; 400794074; 403399966;
   412735096; 422686907; 425747528; 453252693; 455876781; 467118140; 470144432; 470523050].

Example v29_accepted : cuckatoo_verify 32 v29_params (CuckooProof 29 (4762082 :: v29_tail)) = Ok tt.
Proof. vm_compute. reflexivity. Qed.

Example v29_rejected : cuckatoo_verify 32 v29_params (CuckooProof 29 (4762081 :: v29_tail)) = Err Verification.
Proof. vm_compute. reflexivity. Qed.

(** A hash that hands back its argument, so that a header is its own keys. *)
#[local] Instance identity_hasher : Hasher := from_vec.

Definition blank_hash : Hash := from_vec [].

Lemma cuckoo_context_exact_witness :
  let p := header_params [5] None 4 6 in
  run_context Mainnet id from_vec (fun _ _ _ => None) (fun _ _ => blank_hash) (CuckooCtx 0 4 6) [5] None 0
    (CuckooProof 4 [0; 2; 5; 7; 12; 14]) = Ok tt /\
  cuckatoo_cycle p [0; 2; 5; 7; 12; 14].
Proof.
  intros p. assert (run_context Mainnet id from_vec (fun _ _ _ => None) (fun _ _ => blank_hash) (CuckooCtx 0 4 6) [5] None 0
    (CuckooProof 4 [0; 2; 5; 7; 12; 14]) = Ok tt) as Hr by (vm_compute; reflexivity).
  split; [exact Hr|].
  destruct (proj1 (cuckoo_context_exact Mainnet id from_vec (fun _ _ _ => None) (fun _ _ => blank_hash) [5] None 0 4
    ltac:(lia) 4 [0; 2; 5; 7; 12; 14] ltac:(discriminate)) Hr) as (_ & _ & Hc).
  exact Hc.
Defined.

Lemma cuckoo_context_returns_witness :
  let r := run_context Mainnet id from_vec (fun _ _ _ => None) (fun _ _ => blank_hash) (CuckooCtx 0 4 6) [5] None 0
             (CuckooProof 4 [0; 2; 5; 7; 12; 13]) in
  r = Ok tt \/ r = Err Verification.
Proof.
  exact (cuckoo_context_returns Mainnet id from_vec (fun _ _ _ => None) (fun _ _ => blank_hash) [5] None 0 4
    ltac:(lia) 4 [0; 2; 5; 7; 12; 13] ltac:(discriminate)).
Defined.

(** Eight edges of a graph of 11 bits, four of them a cycle: a round of trimming. *)
Definition lean11 : Lean := mkLean (mkParams 11 4 (2 ^ 11) [3; 0; 0; 0] (2 ^ 11 - 1)) (list_to_set [1; 2; 3; 4; 669; 1308; 1424; 1796]).

Example lean11_trims : (let? l := trim 5 lean11 in Ok (elements (l_edges l))) = Ok [669; 1308; 1796; 1424].
Proof. vm_compute. reflexivity. Qed.

Lemma trimming_keeps_solutions_witness :
  cuckatoo_verify 32 (l_params lean11) (CuckooProof 11 [669; 1308; 1424; 1796]) = Ok tt /\
  forall fuel l', trim fuel lean11 = Ok l' -> list_to_set [669; 1308; 1424; 1796] ⊆ l_edges l'.
Proof.
  assert (cuckatoo_verify 32 (l_params lean11) (CuckooProof 11 [669; 1308; 1424; 1796]) = Ok tt) as Hv by (vm_compute; reflexivity).
  split; [exact Hv|].
  apply (proj2 (trimming_keeps_solutions lean11 11 [669; 1308; 1424; 1796] ltac:(cbn; lia) eq_refl ltac:(discriminate) Hv ltac:(vm_decide))).
Defined.

(** The small graph again, with 16 edges: no round of trimming is the last. *)
Definition lean4 : Lean := mkLean (header_params [5] None 4 6) (list_to_set (seqZ 0 16)).

Lemma trim_never_ends_witness : forall fuel, trim fuel lean4 = Panic.
Proof.
  apply (trim_never_ends lean4 4 [0; 2; 5; 7; 12; 14] ltac:(cbn; lia) eq_refl ltac:(vm_compute; reflexivity) ltac:(vm_decide)).
  split; vm_compute; [discriminate|reflexivity].
Defined.

(** ** The solver on small graphs

    It finds the only 4-cycle of one graph.  In the other two 6-cycles close with the same
    edge: the second is recorded in a proof that lacks the edges they share, so the search
    ends in a verification error, with neither. *)
Definition solve (header : list Z) (edge_bits size : Z) : outcome pow_error (list Proof) :=
  let? ctx := cuckatoo_new 32 edge_bits size 10 in
  pow_solve Mainnet 32 (cuckatoo_set_header_nonce Mainnet 32 header None true ctx).

Example solver_finds : solve [24] 4 4 = Ok [CuckooProof 19 [0; 6; 9; 15]].
Proof. vm_compute. reflexivity. Qed.

Theorem solver_loses_solutions :
  cuckatoo_verify 32 (header_params [5] None 4 6) (CuckooProof 19 [0; 2; 5; 7; 12; 14]) = Ok tt /\
  cuckatoo_verify 32 (header_params [5] None 4 6) (CuckooProof 19 [2; 5; 7; 8; 12; 14]) = Ok tt /\
  solve [5] 4 6 = Err Verification.
Proof. split; [|split]; vm_compute; reflexivity. Qed.
