(* ===== verification/PipeTheory.v ===== *)
(** * The pipeline: what an accepted header guarantees

    The invariant of the header store, the iterators over it, the rules every
    accepted header obeys, the header head as the heaviest header, and the
    conservation of value along a chain of blocks. *)
From S2P Require Import Prelude Ser Global Pow Reward Retarget Feijoada Committed Transaction CutThrough Block BlockTheory ChainStore ChainStoreTheory Pipe.

(** ** Difficulties *)
Definition positive (d : Difficulty) : Prop := forall t, 1 <= to_num d t.

Lemma zip_num_ok (f : PoWType -> Z -> Z) d :
  (forall t v, is_u64 (f t v)) -> difficulty_ok (zip_num f d).
Proof.
  intros Hf t v. rewrite zip_num_lookup. intros [= <-]. destruct (num d !! t) as [w|]; [apply (Hf t w)|].
  change (is_u64 0). unfold is_u64. lia.
Qed.

Lemma difficulty_sub_ok a b : difficulty_ok (difficulty_sub a b).
Proof. apply zip_num_ok. intros t v. apply wrap64_range. Qed.

Lemma difficulty_sub_complete a b : complete (difficulty_sub a b).
Proof. apply zip_num_complete. Qed.

(** Where the difference has work for an algorithm, the total has an entry for it. *)
Lemma positive_sub_complete a b : positive (difficulty_sub a b) -> complete a.
Proof.
  intros Hp t. specialize (Hp t). unfold to_num, difficulty_sub in Hp.
  rewrite zip_num_lookup in Hp. destruct (num a !! t) eqn:E; [by eauto|]. cbn in Hp. lia.
Qed.

Lemma sub_to_num a b t : complete a -> to_num (difficulty_sub a b) t = to_num a t -! to_num b t.
Proof. intros Ha. unfold difficulty_sub. by rewrite zip_num_to_num. Qed.

(** Each header names the one before it as its parent. *)
Fixpoint linked `{Hasher} (c : ChainTypes) (l : list BlockHeader) : Prop :=
  match l with
  | x :: (y :: _) as l' => header_hash c x = Ok (prev_hash y) /\ linked c l'
  | _ => True
  end.

Section Headers.
Context `{Hasher} `{Secp} (c : ChainTypes) (min_date max_date : Z).
Context (get_progpow_value : list Z -> Z -> Z -> Hash) (u256_from : Hash -> Z).
Context (config : PolicyConfig) (opts : Z) (pow_verifier : BlockHeader -> bool) (now : Z).
Context (genesis : BlockHeader).

#[local] Abbreviation hdr := (get_block_header c min_date max_date).
#[local] Abbreviation header_ok := (header_ok c min_date max_date).

(** ** The header store *)

(** One header above its parent, with work for every algorithm. *)
Definition extends (p h : BlockHeader) : Prop :=
  height h = height p + 1
  /\ positive (difficulty_sub (h_total_difficulty h) (h_total_difficulty p)).

(** Every header is stored under its hash, and is the genesis header or extends
    its parent, which is stored. *)
Record chain_ok (b : Batch) : Prop := {
  stored_ok : forall k h, hdr b k = Ok h -> header_ok h /\ header_hash c h = Ok k;
  parent_ok : forall k h, hdr b k = Ok h ->
    (h = genesis /\ hdr b (prev_hash h) = Err NotFoundErr)
    \/ exists p, hdr b (prev_hash h) = Ok p /\ extends p h;
  genesis_ok : positive (h_total_difficulty genesis);
}.

Definition stored (b : Batch) (h : BlockHeader) : Prop := exists k, hdr b k = Ok h.

(** The work of a stored header. *)
Definition work_of (b : Batch) (h : BlockHeader) : Difficulty :=
  match hdr b (prev_hash h) with
  | Ok p => difficulty_sub (h_total_difficulty h) (h_total_difficulty p)
  | _ => h_total_difficulty h
  end.

(** A set of stored headers that has the parents of its members. *)
Record closed (b : Batch) (P : BlockHeader -> Prop) : Prop := {
  closed_ok : forall h, P h -> header_ok h /\ exists k, header_hash c h = Ok k /\ hdr b k = Ok h;
  closed_parent : forall h, P h ->
    (h = genesis /\ hdr b (prev_hash h) = Err NotFoundErr)
    \/ exists p, hdr b (prev_hash h) = Ok p /\ P p /\ extends p h;
  closed_genesis : positive (h_total_difficulty genesis);
}.

Lemma chain_ok_closed b : chain_ok b -> closed b (stored b).
Proof.
  intros [Hs Hp Hg]. split; [| |done]; intros h [k Hk].
  - destruct (Hs k h Hk). eauto.
  - destruct (Hp k h Hk) as [?|(p & Hpp & ?)]; [by left|right]. exists p. split_and!; [done|by exists (prev_hash h)|done].
Qed.

Section Closed.
Context (b : Batch) (P : BlockHeader -> Prop) (HP : closed b P).

Lemma closed_height h : P h -> 0 <= height h.
Proof. intros Hh. destruct (closed_ok b P HP h Hh) as [(_ & Hu & _) _]. unfold is_u64 in Hu. lia. Qed.

(** The parent of a header of the set, as the iterators look it up. *)
Lemma parent_lookup h :
  P h ->
  ok_opt (get_previous_header c min_date max_date b h) = Ok None \/
  exists p, ok_opt (get_previous_header c min_date max_date b h) = Ok (Some p)
    /\ P p /\ height p < height h.
Proof.
  intros Hh. unfold get_previous_header.
  destruct (closed_parent b P HP h Hh) as [[_ ->]|(p & Hp & HPp & [Hx _])]; [by left|right].
  exists p. rewrite Hp. split_and!; [done|done|lia].
Qed.

Lemma closed_work h : P h -> difficulty_ok (work_of b h) /\ positive (work_of b h).
Proof.
  intros Hh. unfold work_of.
  destruct (closed_parent b P HP h Hh) as [[-> ->]|(p & -> & _ & [_ Hp])].
  - split; [|by apply (closed_genesis b P HP)].
    destruct (closed_ok b P HP genesis Hh) as [(_ & _ & _ & _ & _ & _ & (Hd & _) & _) _]. done.
  - split; [apply difficulty_sub_ok|done].
Qed.

(** The search of [DifficultyIter] ends, at an earlier header if any, and reports
    the work of the header it started from. *)
Lemma same_algo_ends fuel header hd first pd ts :
  P hd -> (Z.to_nat (height hd) < fuel)%nat ->
  exists o d ts' sc, same_algo c min_date max_date fuel b header hd first pd ts = Ok (o, d, ts', sc)
    /\ (forall p, o = Some p -> P p /\ height p < height hd)
    /\ (first = false -> d = pd)
    /\ (first = true -> header = hd -> pd = h_total_difficulty header -> d = work_of b header).
Proof.
  revert hd first pd ts. induction fuel as [|fuel IH]; intros hd first pd ts Hs Hf; [lia|].
  cbn [same_algo]. destruct (parent_lookup hd Hs) as [Hp|(p & Hp & Hps & Hlt)]; rewrite Hp; cbn [bind].
  - do 4 eexists. split; [reflexivity|]. split_and!; [by intros ? [=]|done|].
    intros _ -> ->. unfold work_of. unfold get_previous_header in Hp. by destruct (hdr b (prev_hash hd)).
  - assert (Hw : header = hd -> difficulty_sub (h_total_difficulty header) (h_total_difficulty p)
      = work_of b header).
    { intros ->. unfold work_of. unfold get_previous_header in Hp.
      by destruct (hdr b (prev_hash hd)); simplify_eq/=. }
    case_decide as Ha.
    + do 4 eexists. split; [reflexivity|]. split_and!; [by intros ? [= <-]|by intros ->|by intros -> ? _; auto].
    + pose proof (closed_height p Hps).
      destruct (IH p false (if first then difficulty_sub (h_total_difficulty header) (h_total_difficulty p) else pd)
        (if first then i64_sat_sub (h_timestamp header) (h_timestamp p) else ts)) as
        (o & d & ts' & sc & -> & Ho & Hd & _); [done|lia|].
      exists o, d, ts', sc. split_and!; [done| | |].
      * intros q Hq. destruct (Ho q Hq) as [? ?]. split; [done|lia].
      * intros ->. by apply Hd.
      * intros -> He _. rewrite Hd by done. auto.
Qed.

(** One step of the iterator at a header of the set. *)
Lemma difficulty_next_closed it h :
  iter_advance c min_date max_date b it = Ok (Some h) -> P h ->
  exists info it', difficulty_next c min_date max_date b it = Ok (Some info, it')
    /\ info_ok info /\ difficulty info = work_of b h
    /\ (iter_advance c min_date max_date b it' = Ok None
        \/ exists p, iter_advance c min_date max_date b it' = Ok (Some p) /\ P p /\ height p < height h).
Proof.
  intros Ha Hs. unfold difficulty_next. rewrite Ha. cbn [bind].
  destruct (same_algo_ends (chain_fuel h) h h true (h_total_difficulty h) 60) as
    (o & d & ts & sc & -> & Ho & _ & Hd); [done|unfold chain_fuel; lia|].
  cbn [bind]. do 2 eexists. split; [reflexivity|]. split_and!.
  - split_and!; [apply wrap64_range..|]. cbn [difficulty]. rewrite Hd by done. by apply closed_work.
  - cbn [difficulty]. by apply Hd.
  - unfold iter_advance. cbn [it_header it_prev]. destruct o as [p|]; [right|by left].
    exists p. split; [done|by apply Ho].
Qed.

(** What [collect] sees from a header of the set: its work first; [chain_fuel] items
    are all there are. *)
Lemma collect_closed n it h :
  iter_advance c min_date max_date b it = Ok (Some h) -> P h ->
  exists info l, collect (difficulty_next c min_date max_date b) (S n) it = Ok (info :: l)
    /\ info_ok info /\ difficulty info = work_of b h /\ Forall info_ok l
    /\ ((Z.to_nat (height h) <= n)%nat -> forall m, (n <= m)%nat ->
        collect (difficulty_next c min_date max_date b) (S m) it = Ok (info :: l)).
Proof.
  revert it h. induction n as [|n IH]; intros it h Ha Hs;
    destruct (difficulty_next_closed it h Ha Hs) as (info & it' & Hn & Hi & Hd & Hrest);
    cbn [collect]; rewrite Hn; cbn [bind]; exists info.
  - exists []. split_and!; try done. intros Hh m _.
    destruct Hrest as [Hend|(p & Hp & Hps & Hlt)]; [|pose proof (closed_height p Hps); lia].
    destruct m as [|m]; cbn [collect bind]; [done|]. unfold difficulty_next. by rewrite Hend.
  - destruct Hrest as [Hend|(p & Hp & Hps & Hlt)].
    + assert (Hstop : forall m, collect (difficulty_next c min_date max_date b) m it' = Ok []).
      { intros [|m]; cbn [collect]; [done|]. unfold difficulty_next. by rewrite Hend. }
      exists []. cbn [bind]. unfold difficulty_next at 1. rewrite Hend. cbn [bind]. split_and!; try done.
      intros _ m _. by rewrite Hstop.
    + destruct (IH it' p Hp Hps) as (info' & l & Hc & Hi' & _ & Hl & Hall).
      cbn [collect] in Hc. rewrite Hc. cbn [bind]. exists (info' :: l). split_and!; try done.
      * by constructor.
      * intros Hh m Hm. pose proof (closed_height p Hps). destruct m as [|m]; [lia|].
        rewrite Hall by lia. done.
Qed.

(** The difficulty required after a header of the set: work for every algorithm. *)
Lemma required_positive prev ht :
  P prev ->
  exists next, required_difficulty c min_date max_date b prev ht = Ok next /\ positive (difficulty next).
Proof.
  intros Hs. destruct (closed_ok b P HP prev Hs) as (_ & k & Hk & Hg).
  unfold required_difficulty, hash_of. rewrite Hk. cbn [bind].
  destruct (collect_closed (Z.to_nat (height prev)) (iter_from k) prev) as (info & l & Hc & Hi & Hd & Hl & _);
    [by unfold iter_advance, iter_from; cbn [it_header start]; rewrite Hg|done|].
  unfold chain_fuel. rewrite Hc. cbn [no_err bind].
  destruct (closed_work prev Hs) as [_ Hpos]. rewrite <- Hd in Hpos.
  destruct (next_difficulty_total c ht (PoWType_from (Pow.proof (pow prev))) info l Hi Hl)
    as (h1 & h2 & -> & -> & P1 & P2 & Hloc).
  destruct (ht <? difficultyfix_height c); cbn [no_err]; eexists; (split; [reflexivity|]); intros t;
    (destruct (decide (t = PoWType_from (Pow.proof (pow prev)))) as [->|Hne]; [done|]);
    destruct (Hloc t Hne) as [E1 E2]; rewrite ?E1, ?E2; apply Hpos.
Qed.

End Closed.

Section Store.
Context (b : Batch) (Hb : chain_ok b).

Lemma stored_height h : stored b h -> 0 <= height h.
Proof. exact (closed_height b _ (chain_ok_closed b Hb) h). Qed.

Lemma stored_hash h : stored b h -> exists k, header_hash c h = Ok k /\ hdr b k = Ok h.
Proof. intros [k Hk]. exists k. split; [by apply (stored_ok b Hb)|done]. Qed.

Lemma work_of_ok h : stored b h -> difficulty_ok (work_of b h) /\ positive (work_of b h).
Proof. exact (closed_work b _ (chain_ok_closed b Hb) h). Qed.

Lemma collect_stored n it h :
  iter_advance c min_date max_date b it = Ok (Some h) -> stored b h ->
  exists info l, collect (difficulty_next c min_date max_date b) (S n) it = Ok (info :: l)
    /\ info_ok info /\ difficulty info = work_of b h /\ Forall info_ok l
    /\ ((Z.to_nat (height h) <= n)%nat -> forall m, (n <= m)%nat ->
        collect (difficulty_next c min_date max_date b) (S m) it = Ok (info :: l)).
Proof. exact (collect_closed b _ (chain_ok_closed b Hb) n it h). Qed.

Lemma required_difficulty_positive prev ht :
  stored b prev ->
  exists next, required_difficulty c min_date max_date b prev ht = Ok next /\ positive (difficulty next).
Proof. exact (required_positive b _ (chain_ok_closed b Hb) prev ht). Qed.

End Store.

(** ** Accepted headers *)
#[local] Abbreviation validate_header :=
  (validate_header c min_date max_date get_progpow_value u256_from config opts pow_verifier now).
#[local] Abbreviation check_difficulty :=
  (check_difficulty c min_date max_date get_progpow_value u256_from opts).
#[local] Abbreviation achieved h :=
  (to_difficulty c get_progpow_value u256_from (pow h) (pre_pow h) (height h) (nonce (pow h))).

Lemma check_policy_allowed b prev h :
  check_policy c min_date max_date config b prev h = Ok tt ->
  is_allowed_policy (allowed_policies config) (height h) (policy h) = Ok true
  /\ is_Some (get_policies config (policy h)).
Proof.
  unfold check_policy. intros Hc. apply bind_Ok_inv in Hc as ([] & Ha & Hc); [|done].
  apply no_err_Ok in Ha. split; [done|]. cbn [negb] in Hc. by destruct (get_policies config (policy h)).
Qed.

Lemma check_difficulty_exact b prev h :
  contains opts SKIP_POW = false -> check_difficulty b prev h = Ok tt ->
  exists next d, required_difficulty c min_date max_date b prev (height h) = Ok next
    /\ difficulty_sub (h_total_difficulty h) (h_total_difficulty prev) = difficulty next
    /\ achieved h = Ok d
    /\ to_num (difficulty next) (PoWType_from (Pow.proof (pow h))) <= to_num d (PoWType_from (Pow.proof (pow h))).
Proof.
  unfold Pipe.check_difficulty. intros ->. set (target := difficulty_sub _ _). intros Hc.
  apply bind_Ok_inv in Hc as (d & Hd & Hc).
  assert (Hach : achieved h = Ok d).
  { destruct (to_difficulty _ _ _ _ _ _ _); by simplify_eq/=. }
  destruct (Z.ltb_spec (to_num d (PoWType_from (Pow.proof (pow h))))
    (to_num target (PoWType_from (Pow.proof (pow h))))) as [|Hle]; [done|].
  apply bind_Ok_inv in Hc as (next & Hn & Hc). case_decide as He; [done|].
  assert (Ht : target = difficulty next).
  { destruct target as [m], (difficulty next) as [m']. cbn in He. by subst. }
  exists next, d. rewrite <- Ht. done.
Qed.

(** The total of a header from that of its parent. *)
Lemma total_after h prev d :
  difficulty_ok (h_total_difficulty h) -> difficulty_ok (h_total_difficulty prev) ->
  difficulty_sub (h_total_difficulty h) (h_total_difficulty prev) = d -> positive d ->
  (forall t, to_num (h_total_difficulty h) t = to_num (h_total_difficulty prev) t +! to_num d t)
  /\ ((forall t, to_num (h_total_difficulty prev) t + to_num d t < 2 ^ 64) ->
      difficulty_cmp (h_total_difficulty prev) (h_total_difficulty h) = Lt).
Proof.
  intros Uh Up Hs Hd. rewrite <- Hs in Hd. pose proof (positive_sub_complete _ _ Hd) as Ch.
  assert (Ht : forall t, to_num (h_total_difficulty h) t = to_num (h_total_difficulty prev) t +! to_num d t).
  { intros t. rewrite <- Hs, sub_to_num by done.
    pose proof (to_num_u64 _ t Uh) as H1. pose proof (to_num_u64 _ t Up) as H2.
    unfold u64_add, u64_sub, wrap64, is_u64 in *. rewrite Zplus_mod_idemp_r.
    replace (_ + (_ - _)) with (to_num (h_total_difficulty h) t) by lia. by rewrite Z.mod_small. }
  split; [done|]. intros Hno. unfold difficulty_cmp. apply Z.compare_lt_iff. rewrite !num_sum_four, !Ht.
  assert (Hadd : forall t, to_num (h_total_difficulty prev) t +! to_num d t
    = to_num (h_total_difficulty prev) t + to_num d t /\ 1 <= to_num d t).
  { intros t. specialize (Hno t). specialize (Hd t). rewrite Hs in Hd.
    pose proof (to_num_u64 _ t Up) as H2. unfold is_u64 in H2. split; [|done].
    apply u64_add_small. unfold is_u64. lia. }
  destruct (Hadd Cuckaroo) as [-> ?], (Hadd Cuckatoo) as [-> ?], (Hadd RandomX) as [-> ?],
    (Hadd ProgPow) as [-> ?]. lia.
Qed.

(** The steps of [validate_header]. *)
Lemma validate_header_inv b h :
  validate_header b h = Ok tt ->
  version h = CURRENT_HEADER_VERSION /\ too_far_ahead c now h = false
  /\ check_proof c opts pow_verifier h = Ok tt
  /\ exists prev s, hdr b (prev_hash h) = Ok prev /\ hdr b (seed (pow h)) = Ok s
    /\ height s = rx_current_seed_height (height h)
    /\ check_policy c min_date max_date config b prev h = Ok tt
    /\ height h = height prev +! 1
    /\ (is_automated_testing_mode c = false -> h_timestamp prev < h_timestamp h)
    /\ check_difficulty b prev h = Ok tt.
Proof.
  unfold Pipe.validate_header. intros Hv.
  destruct (valid_header_version (height h) (version h)) eqn:Hver; [|done]. cbn [negb] in Hv.
  destruct (too_far_ahead c now h) eqn:Hfar; [done|].
  apply bind_Ok_inv in Hv as ([] & _ & Hv). apply bind_Ok_inv in Hv as ([] & Hproof & Hv).
  apply bind_Ok_inv in Hv as (prev & Hp & Hv). apply map_err_Ok_inv in Hp.
  apply bind_Ok_inv in Hv as (s & Hs & Hv). do 2 apply map_err_Ok_inv in Hs. rewrite from_vec_bytes in Hs.
  destruct (Z.eqb_spec (height s) (rx_current_seed_height (height h))) as [Hseed|]; [|done]. cbn [negb] in Hv.
  apply bind_Ok_inv in Hv as ([] & Hpol & Hv).
  destruct (Z.eqb_spec (height h) (height prev +! 1)) as [Hht|]; [|done]. cbn [negb] in Hv.
  destruct ((h_timestamp h <=? h_timestamp prev) && negb (is_automated_testing_mode c)) eqn:Htime; [done|].
  apply Z.eqb_eq in Hver. split_and!; try done. exists prev, s. split_and!; try done.
  intros Hauto. rewrite Hauto, andb_true_r in Htime. apply Z.leb_gt in Htime. done.
Qed.

Lemma header_difficulty_ok h : header_ok h -> difficulty_ok (h_total_difficulty h).
Proof. by intros (_ & _ & _ & _ & _ & _ & (Hd & _) & _). Qed.

(** An accepted header extends its parent, when that has its own parents back to the genesis. *)
Lemma accepted_extends_closed b P h :
  closed b P -> contains opts SKIP_POW = false -> 0 < height h -> validate_header b h = Ok tt ->
  (forall p, hdr b (prev_hash h) = Ok p -> header_ok p /\ (height p < height h -> P p)) ->
  exists prev next, hdr b (prev_hash h) = Ok prev
    /\ required_difficulty c min_date max_date b prev (height h) = Ok next
    /\ difficulty_sub (h_total_difficulty h) (h_total_difficulty prev) = difficulty next
    /\ extends prev h.
Proof.
  intros Hb Hsk Hpos Hv Hin.
  destruct (validate_header_inv b h Hv) as (_ & _ & _ & prev & s & Hp & _ & _ & _ & Hht & _ & Hd).
  destruct (Hin prev Hp) as [(_ & Hup & _) HPp]. unfold is_u64 in Hup.
  assert (height h = height prev + 1) as He.
  { rewrite Hht. apply u64_add_small. unfold is_u64. split; [lia|].
    destruct (decide (height prev + 1 = 2 ^ 64)) as [He|]; [|lia].
    unfold u64_add, wrap64 in Hht. rewrite He, Z.mod_same in Hht by lia. lia. }
  destruct (check_difficulty_exact b prev h Hsk Hd) as (next & d & Hn & Hsub & _).
  destruct (required_positive b P Hb prev (height h)) as (next' & Hn' & Hnp); [apply HPp; lia|].
  assert (next' = next) as -> by congruence. exists prev, next. split_and!; [done..|]. split; [done|by rewrite Hsub].
Qed.

Lemma accepted_extends b h :
  chain_ok b -> contains opts SKIP_POW = false -> 0 < height h ->
  validate_header b h = Ok tt ->
  exists prev next, hdr b (prev_hash h) = Ok prev
    /\ required_difficulty c min_date max_date b prev (height h) = Ok next
    /\ difficulty_sub (h_total_difficulty h) (h_total_difficulty prev) = difficulty next
    /\ extends prev h.
Proof.
  intros Hb Hsk Hpos Hv. apply (accepted_extends_closed b (stored b)); [by apply chain_ok_closed|done..|].
  intros p Hp. destruct (stored_ok b Hb _ p Hp). split; [done|]. intros _. by exists (prev_hash h).
Qed.

(** C25. What an accepted header guarantees (proofs of work checked): its parent
    is stored one height below; the version is current; it is later than its parent
    and at most six minutes ahead of the clock; its RandomX seed is a stored header
    of the height prescribed; under the default policies it uses the policy of its
    era; its proof was verified and reaches the difficulty required of its
    algorithm; and for every algorithm its total is that of its parent plus exactly
    the positive difficulty required, so it has strictly more work as long as no
    total overflows. *)
Theorem accepted_header b h :
  chain_ok b -> header_ok h -> contains opts SKIP_POW = false -> 0 < height h ->
  validate_header b h = Ok tt ->
  exists prev s next d, hdr b (prev_hash h) = Ok prev /\ height h = height prev + 1
    /\ version h = CURRENT_HEADER_VERSION
    /\ (is_automated_testing_mode c = false ->
        h_timestamp prev < h_timestamp h /\ h_timestamp h * 10 ^ 9 <= now + 360 * 10 ^ 9)
    /\ hdr b (seed (pow h)) = Ok s /\ height s = rx_current_seed_height (height h)
    /\ (config = default_config -> policy h = get_emitted_policy (height h))
    /\ pow_verifier h = true
    /\ required_difficulty c min_date max_date b prev (height h) = Ok next
    /\ achieved h = Ok d
    /\ to_num (difficulty next) (PoWType_from (Pow.proof (pow h))) <= to_num d (PoWType_from (Pow.proof (pow h)))
    /\ (forall t, 1 <= to_num (difficulty next) t
        /\ to_num (h_total_difficulty h) t
           = to_num (h_total_difficulty prev) t +! to_num (difficulty next) t)
    /\ ((forall t, to_num (h_total_difficulty prev) t + to_num (difficulty next) t < 2 ^ 64) ->
        difficulty_cmp (h_total_difficulty prev) (h_total_difficulty h) = Lt).
Proof.
  intros Hb Hh Hsk Hpos Hv.
  destruct (accepted_extends b h Hb Hsk Hpos Hv) as (prev & next & Hp & Hn & Hsub & Hht & Hinc).
  destruct (validate_header_inv b h Hv) as (Hver & Hfar & Hproof & p & s & Hp' & Hs & Hseed & Hpol & _ & Hts & Hd).
  assert (p = prev) as -> by congruence.
  destruct (check_difficulty_exact b prev h Hsk Hd) as (n & d & Hn' & _ & Hach & Hle).
  assert (n = next) as -> by congruence. rewrite Hsub in Hinc.
  destruct (total_after h prev (difficulty next)) as [Htot Hmore]; try done;
    [by apply header_difficulty_ok|by eapply header_difficulty_ok, (stored_ok b Hb)|].
  destruct (check_policy_allowed b prev h Hpol) as [Hall Hsome].
  exists prev, s, next, d. split_and!; try done.
  - intros Hauto. split; [by apply Hts|]. unfold too_far_ahead in Hfar.
    rewrite Hauto, andb_true_r, Z.gtb_ltb in Hfar. apply Z.ltb_ge in Hfar. unfold BLOCK_TIME_SEC in Hfar. lia.
  - intros Hc. rewrite Hc in Hall, Hsome. destruct Hh as (_ & Hu & _ & _ & _ & _ & _ & Hpo & _).
    unfold is_u64 in Hu. apply allowed_is_emitted; [lia|lia|done|done].
  - unfold check_proof in Hproof. rewrite Hsk in Hproof.
    destruct (negb (is_primary c (pow h)) && negb (is_secondary (pow h))); [done|].
    by destruct (pow_verifier h).
Qed.

(** ** The header head *)

(** The header head is a stored header, and no stored header has more work. *)
Definition head_ok (b : Batch) : Prop :=
  exists t h, header_head b = Ok t /\ hdr b (last_block_h t) = Ok h
    /\ tip_height t = height h /\ tip_difficulty t = h_total_difficulty h
    /\ (forall k h', hdr b k = Ok h' -> num_sum (h_total_difficulty h') <= num_sum (tip_difficulty t)).

Lemma chain_ok_ext b b' : (forall k, hdr b' k = hdr b k) -> chain_ok b -> chain_ok b'.
Proof.
  intros He [Hs Hp Hg]. split; [| |done].
  - intros k h. rewrite He. apply Hs.
  - intros k h. rewrite !He. intros Hk. destruct (Hp k h Hk) as [?|(p & Hpp & ?)]; [by left|right].
    by exists p.
Qed.

Lemma chain_ok_add b b1 h hash :
  chain_ok b -> header_ok h -> header_hash c h = Ok hash ->
  (forall h', hdr b hash = Ok h' -> h' = h) -> hash <> prev_hash genesis ->
  (exists p, hdr b (prev_hash h) = Ok p /\ extends p h) ->
  hdr b1 hash = Ok h -> (forall k, k <> hash -> hdr b1 k = hdr b k) ->
  chain_ok b1.
Proof.
  intros Hb Hh Hx Hnew Hgen (p & Hp & Hext) Hsame Hother.
  assert (Hkeep : forall k x, hdr b k = Ok x -> hdr b1 k = Ok x).
  { intros k x Hk. destruct (decide (k = hash)) as [->|]; [|by rewrite Hother].
    by rewrite Hsame, (Hnew x Hk). }
  split; [| |by apply (genesis_ok b Hb)]; intros k x Hk;
    destruct (decide (k = hash)) as [->|Hne]; try (rewrite Hother in Hk by done).
  - assert (x = h) as -> by congruence. done.
  - by apply (stored_ok b Hb).
  - assert (x = h) as -> by congruence. right. exists p. split; [by apply Hkeep|done].
  - destruct (parent_ok b Hb k x Hk) as [[-> Hnone]|(q & Hq & Hqx)]; [left|right].
    + split; [done|]. by rewrite Hother.
    + exists q. split; [by apply Hkeep|done].
Qed.

Lemma update_header_head_spec b h hash t :
  header_ok h -> header_hash c h = Ok hash -> header_head b = Ok t ->
  exists o b', update_header_head c b h = Ok (o, b')
    /\ (forall k, hdr b' k = hdr b k)
    /\ header_head b' = Ok (if num_sum (tip_difficulty t) <? num_sum (h_total_difficulty h)
                            then mkTip (height h) hash (prev_hash h) (h_total_difficulty h) else t).
Proof.
  intros Hh Hx Ht. unfold update_header_head. rewrite Ht. cbn [map_err bind].
  unfold has_more_work, difficulty_cmp, tip_from_header, hash_of. rewrite Hx. cbn [bind].
  rewrite Z.compare_antisym. unfold Z.ltb. destruct (num_sum (tip_difficulty t) ?= _); cbn [CompOpp].
  1,3: do 2 eexists; by split.
  do 2 eexists. split; [reflexivity|]. split.
  - intros k. unfold get_block_header. f_equal. eapply get_put_ne; [reflexivity|key_ne].
  - eapply get_put_eq; [reflexivity|]. apply deserialize_tip.
    split; [|by apply header_difficulty_ok]. by destruct Hh as (_ & Hu & _).
Qed.

(** The head after an update with the stored header [h], when that or the old head is heaviest. *)
Lemma head_updated b h hash t ht :
  header_ok h -> header_hash c h = Ok hash -> hdr b hash = Ok h ->
  header_head b = Ok t -> hdr b (last_block_h t) = Ok ht -> tip_height t = height ht -> tip_difficulty t = h_total_difficulty ht ->
  (forall k x, hdr b k = Ok x -> num_sum (h_total_difficulty x) <= num_sum (tip_difficulty t)
     \/ num_sum (h_total_difficulty x) <= num_sum (h_total_difficulty h)) ->
  forall o b', update_header_head c b h = Ok (o, b') -> (forall k, hdr b' k = hdr b k) /\ head_ok b'.
Proof.
  intros Hh Hx Hk Ht Hht Hth Htd Hmax o b' Hu.
  destruct (update_header_head_spec b h hash t Hh Hx Ht) as (o' & b2 & Hu' & He & Hd). rewrite Hu in Hu'. injection Hu' as <- <-.
  split; [done|]. unfold head_ok. rewrite Hd. destruct (Z.ltb_spec (num_sum (tip_difficulty t)) (num_sum (h_total_difficulty h))).
  - eexists _, h. split; [reflexivity|]. cbn [last_block_h tip_height tip_difficulty]. rewrite He.
    split_and!; try done. intros k x. rewrite He. intros Hkx. destruct (Hmax k x Hkx); lia.
  - exists t, ht. rewrite He. split_and!; try done. intros k x. rewrite He. intros Hkx. destruct (Hmax k x Hkx); lia.
Qed.

(** ** The headers there are *)

(** [U] has the headers that are ever offered.  They are well formed and above the genesis
    header; no two of them, and none and the genesis header, have one hash; and adding the
    work of one of them to the total of its parent does not overflow. *)
Record admissible (U : BlockHeader -> Prop) : Prop := {
  adm_ok : forall h, U h -> header_ok h /\ 0 < height h;
  adm_unique : forall h h' k, U h -> U h' \/ h' = genesis -> header_hash c h = Ok k -> header_hash c h' = Ok k -> h' = h;
  adm_genesis : forall h k, U h -> header_hash c h = Ok k -> k <> prev_hash genesis;
  adm_room : forall p h, U p -> U h -> header_hash c p = Ok (prev_hash h) -> forall t,
    to_num (h_total_difficulty p) t + to_num (difficulty_sub (h_total_difficulty h) (h_total_difficulty p)) t < 2 ^ 64
}.

(** One header alone. *)
Lemma single_admissible h k g :
  header_ok h -> 0 < height h -> header_hash c h = Ok k -> header_hash c genesis = Ok g ->
  k <> g -> k <> prev_hash genesis -> k <> prev_hash h -> admissible (eq h).
Proof.
  intros Hh Hp Hk Hg N1 N2 N3. split.
  - by intros ? <-.
  - intros ? h' x <- [<-| ->] Hx Hx'; [done|congruence].
  - intros ? x <- Hx. congruence.
  - intros ? ? <- <- Hx. congruence.
Qed.

Record header_chain (U : BlockHeader -> Prop) (b : Batch) : Prop := {
  hc_chain : chain_ok b;
  hc_head : head_ok b;
  hc_known : forall k h, hdr b k = Ok h -> U h \/ h = genesis
}.

Section Offered.
Context (U : BlockHeader -> Prop) (HU : admissible U).

(** What the store has under the hash of an offered header is that header. *)
Lemma offered_unique b h hash x :
  chain_ok b -> (forall k h, hdr b k = Ok h -> U h \/ h = genesis) -> U h -> header_hash c h = Ok hash -> hdr b hash = Ok x -> x = h.
Proof. intros Hb Hk Hh Hx Hs. destruct (stored_ok b Hb _ _ Hs) as [_ Hx']. eapply (adm_unique U HU); [done|by eapply Hk|done|done]. Qed.

(** The header of a block: checked, saved, and the head updated. *)
Lemma header_of_block b h b1 o b' :
  contains opts SKIP_POW = false -> header_chain U b -> U h -> validate_header b h = Ok tt ->
  add_block_header c b h = Ok b1 -> update_header_head c b1 h = Ok (o, b') -> header_chain U b'.
Proof.
  intros Hsk [Hb (t & ht & Ht & Hht & Hth & Htd & Hmax) Hkn] Hh Hv Hadd Hupd. destruct (adm_ok U HU h Hh) as [Hok Hpos].
  destruct (save_header_spec c min_date max_date b h Hok) as (hash & b1' & Hx & Hs & Hsame & Hother & _ & Hhead).
  unfold add_block_header in Hadd. rewrite Hs in Hadd. simplify_eq/=.
  pose proof (offered_unique b h hash) as Hnew.
  destruct (accepted_extends b h Hb Hsk Hpos Hv) as (prev & next & Hp & _ & _ & Hext).
  assert (Hb1 : chain_ok b1).
  { apply (chain_ok_add b b1 h hash); try done; [by intros ? ?; apply Hnew|by apply (adm_genesis U HU h)|by exists prev]. }
  assert (Hold : forall k x, hdr b1 k = Ok x -> x = h \/ hdr b k = Ok x).
  { intros k x. destruct (decide (k = hash)) as [->|Hne]; [rewrite Hsame; intros [= <-]; by left|]. rewrite Hother by done. by right. }
  destruct (head_updated b1 h hash t ht) with (o := o) (b' := b') as [He Hd]; try done.
  - by rewrite Hhead.
  - destruct (decide (last_block_h t = hash)) as [Heq|]; [|by rewrite Hother].
    rewrite Heq in *. by rewrite Hsame, (Hnew ht Hb Hkn Hh Hx Hht).
  - intros k x Hk. destruct (Hold k x Hk) as [->|Hk']; [right; lia|left; by eapply Hmax].
  - split; [by eapply chain_ok_ext|done|]. intros k x. rewrite He. intros Hk. destruct (Hold k x Hk) as [->|Hk']; [by left|by eapply Hkn].
Qed.

(** A run of headers, saved one after the other. *)
Lemma run_saved hs : forall b b1,
  Forall U hs -> foldM (add_block_header c) hs b = Ok b1 ->
  header_head b1 = header_head b
  /\ (forall h, h ∈ hs -> exists k, header_hash c h = Ok k /\ hdr b1 k = Ok h)
  /\ (forall k, (forall h, h ∈ hs -> header_hash c h <> Ok k) -> hdr b1 k = hdr b k).
Proof.
  induction hs as [|h hs IH] using rev_ind; intros b b1 HF Hf; cbn [foldM] in Hf.
  { injection Hf as <-. split_and!; [done| |done]. by intros h ?%not_elem_of_nil. }
  rewrite foldM_app in Hf. apply bind_Ok_inv in Hf as (b0 & Hf & Ha). cbn [foldM] in Ha. apply bind_Ok_inv in Ha as (b1' & Ha & [= <-]).
  apply Forall_app in HF as [HF Hh]. apply (proj1 (Forall_singleton _ _)) in Hh. destruct (IH b b0 HF Hf) as (I1 & I2 & I3).
  destruct (save_header_spec c min_date max_date b0 h (proj1 (adm_ok U HU h Hh))) as (hash & b2 & Hx & Hs & Hsame & Hother & _ & Hhead).
  unfold add_block_header in Ha. rewrite Hs in Ha. simplify_eq/=. split_and!; [by rewrite Hhead| |].
  - intros x [Hin| ->%list_elem_of_singleton]%elem_of_app; [|by exists hash]. destruct (I2 x Hin) as (k & Hk & Hg). exists k. split; [done|].
    destruct (decide (k = hash)) as [->|]; [|by rewrite Hother]. rewrite Hsame. f_equal.
    eapply (adm_unique U HU x h); [|by left|done|done]. by eapply Forall_forall in HF.
  - intros k Hk. rewrite Hother; [apply I3; intros x Hin; apply Hk, elem_of_app; by left|].
    intros ->. apply (Hk h); [apply elem_of_app; right; by left|done].
Qed.

Lemma some_hash_or_none (hs : list BlockHeader) k :
  (exists x, x ∈ hs /\ header_hash c x = Ok k) \/ forall x, x ∈ hs -> header_hash c x <> Ok k.
Proof.
  induction hs as [|h hs [(x & Hin & Hx)|IH]]; [right; by intros x ?%not_elem_of_nil|left; exists x; by split; [right|]|].
  destruct (header_hash c h) as [k'|e|] eqn:Eh; [destruct (decide (k' = k)) as [->|Hne]; [left; exists h; by split; [left|]|]|..];
    right; intros x [->|Hin]%elem_of_cons; [congruence|by apply IH|congruence|by apply IH|congruence|by apply IH].
Qed.

Section Run.
Context (Hsk : contains opts SKIP_POW = false) (b b1 : Batch) (hs : list BlockHeader).
Context (Hb : header_chain U b) (HF : Forall U hs) (Hrun : foldM (add_block_header c) hs b = Ok b1).
Context (Hval : Forall (fun h => validate_header b1 h = Ok tt) hs).

Lemma run_old_or_new k h : hdr b1 k = Ok h -> header_hash c h = Ok k /\ (h ∈ hs \/ hdr b k = Ok h).
Proof.
  destruct (run_saved hs b b1 HF Hrun) as (_ & I2 & I3). intros Hk.
  destruct (some_hash_or_none hs k) as [(x & Hin & Hx)|Hno].
  - destruct (I2 x Hin) as (k' & Hx' & Hg). assert (k' = k) as -> by congruence. assert (x = h) as -> by congruence. auto.
  - rewrite I3 in Hk by done.
    split; [by apply (stored_ok b (hc_chain U b Hb))|by right].
Qed.

Lemma run_keeps k h : hdr b k = Ok h -> hdr b1 k = Ok h.
Proof.
  intros Hk. destruct (run_saved hs b b1 HF Hrun) as (_ & I2 & I3).
  destruct (some_hash_or_none hs k) as [(x & Hin & Hx)|Hno].
  - destruct (I2 x Hin) as (k' & Hx' & Hg). assert (k' = k) as -> by congruence.
    by rewrite (offered_unique b x k h (hc_chain U b Hb) (hc_known U b Hb) (proj1 (Forall_forall _ _) HF x Hin) Hx Hk).
  - by rewrite I3.
Qed.

Lemma run_stored_ok k h : hdr b1 k = Ok h -> header_ok h.
Proof.
  intros Hk. destruct (run_old_or_new k h Hk) as [_ [Hin|Hold]]; [|by eapply (stored_ok b (hc_chain U b Hb))].
  eapply (adm_ok U HU). by eapply Forall_forall in HF.
Qed.

(** By height: the parent of a header is lower, and the difficulty that was required of a
    header only depends on those below. *)
Lemma run_parent n : forall k h, hdr b1 k = Ok h -> height h < Z.of_nat n ->
  (h = genesis /\ hdr b1 (prev_hash h) = Err NotFoundErr) \/ exists p, hdr b1 (prev_hash h) = Ok p /\ extends p h.
Proof.
  destruct (run_saved hs b b1 HF Hrun) as (_ & I2 & I3).
  induction n as [|n IH]; intros k h Hk Hn.
  { pose proof (run_stored_ok k h Hk) as (_ & Hu & _). unfold is_u64 in Hu. lia. }
  destruct (run_old_or_new k h Hk) as [Hx [Hin|Hold]].
  - right. pose proof (proj1 (Forall_forall _ _) HF h Hin) as Hh. pose proof (proj1 (Forall_forall _ _) Hval h Hin) as Hv.
    destruct (accepted_extends_closed b1 (fun x => stored b1 x /\ height x < Z.of_nat n) h) as (p & next & Hp & _ & _ & He);
      [|done|by apply (adm_ok U HU)|done| |by exists p].
    + split.
      * intros x [[q Hq] _]. split; [by eapply run_stored_ok|]. exists q. split; [by apply run_old_or_new|done].
      * intros x [[q Hq] Hlt]. destruct (IH q x Hq Hlt) as [?|(p & Hp & He)]; [by left|right]. exists p.
        pose proof (proj1 He). split_and!; [done|by exists (prev_hash x)|lia|done].
      * apply (genesis_ok b (hc_chain U b Hb)).
    + intros p Hp. split; [by eapply run_stored_ok|]. intros Hlt. split; [by exists (prev_hash h)|lia].
  - destruct (parent_ok b (hc_chain U b Hb) k h Hold) as [[-> Hno]|(p & Hp & He)]; [left|right].
    + split; [done|]. rewrite I3; [done|]. intros x Hin Hx'. eapply (adm_genesis U HU x); [by eapply Forall_forall in HF|exact Hx'|done].
    + exists p. split; [by apply run_keeps|done].
Qed.

Lemma run_chain_ok : chain_ok b1.
Proof.
  split; [| |apply (genesis_ok b (hc_chain U b Hb))]; intros k h Hk.
  - split; [by eapply run_stored_ok|by apply run_old_or_new].
  - apply (run_parent (S (Z.to_nat (height h))) k h Hk). lia.
Qed.

(** When each header of the run names the one before as its parent, the last one has the
    most work. *)
Lemma linked_heaviest l : forall z,
  (forall h, h ∈ l -> h ∈ hs) -> linked c l -> last l = Some z ->
  forall h, h ∈ l -> num_sum (h_total_difficulty h) <= num_sum (h_total_difficulty z).
Proof.
  induction l as [|x [|y l] IH]; intros z Hsub Hl Hz h Hin; [by apply not_elem_of_nil in Hin|..].
  { apply list_elem_of_singleton in Hin as ->. injection Hz as ->. lia. }
  destruct Hl as [Hxy Hl]. specialize (IH z (fun h Hh => Hsub h (list_elem_of_further _ _ _ Hh)) Hl Hz).
  apply elem_of_cons in Hin as [->|Hin]; [|by apply IH].
  enough (num_sum (h_total_difficulty x) < num_sum (h_total_difficulty y)) by (specialize (IH y ltac:(by left)); lia).
  destruct (run_saved hs b b1 HF Hrun) as (_ & I2 & _).
  assert (U x /\ U y) as [Ux Uy] by (split; eapply Forall_forall; try exact HF; apply Hsub; [by left|right; by left]).
  destruct (I2 x (Hsub x ltac:(by left))) as (k & Hk & Hg). destruct (I2 y (Hsub y ltac:(right; by left))) as (ky & Hky & Hgy).
  assert (k = prev_hash y) as -> by congruence.
  destruct (parent_ok b1 run_chain_ok ky y Hgy) as [[-> _]|(p & Hp & [_ He])].
  { destruct (adm_genesis U HU x _ Ux Hk). done. }
  assert (p = x) as -> by congruence.
  destruct (total_after y x _ ltac:(by apply header_difficulty_ok, (adm_ok U HU)) ltac:(by apply header_difficulty_ok, (adm_ok U HU)) eq_refl He) as [_ Hlt].
  by apply Z.compare_lt_iff, Hlt, (adm_room U HU).
Qed.
End Run.

(** A run of headers, saved and checked, or known already: the head is updated with the
    last, on a batch [b2] that has the headers of [b1]. *)
Lemma header_chain_updated b b1 b2 hs z o b' :
  contains opts SKIP_POW = false -> header_chain U b -> Forall U hs -> linked c hs -> last hs = Some z ->
  (b1 = b /\ (exists hash x, header_hash c z = Ok hash /\ hdr b hash = Ok x)
   \/ foldM (add_block_header c) hs b = Ok b1 /\ Forall (fun h => validate_header b1 h = Ok tt) hs) ->
  (forall k, hdr b2 k = hdr b1 k) -> header_head b2 = header_head b1 ->
  update_header_head c b2 z = Ok (o, b') -> header_chain U b'.
Proof.
  intros Hsk Hc HF Hl Hz Hb1 E2 Eh Hupd. pose proof Hc as [Hb (t & ht & Ht & Hht & Hth & Htd & Hmax) Hkn].
  pose proof (proj1 (Forall_forall _ _) HF z (last_Some_elem_of _ _ Hz)) as Uz. destruct (adm_ok U HU z Uz) as [Hok _].
  assert (chain_ok b1 /\ header_head b1 = header_head b /\ hdr b1 (last_block_h t) = Ok ht
    /\ (exists hash, header_hash c z = Ok hash /\ hdr b1 hash = Ok z)
    /\ (forall k y, hdr b1 k = Ok y -> (U y \/ y = genesis) /\ (num_sum (h_total_difficulty y) <= num_sum (tip_difficulty t)
         \/ num_sum (h_total_difficulty y) <= num_sum (h_total_difficulty z)))) as (C1 & C2 & C3 & (hash & Hx & Hk) & C4).
  { destruct Hb1 as [[-> (hash & x & Hx & Hk)]|[Hrun Hval]].
    - assert (x = z) as -> by (by eapply offered_unique). split_and!; [done|done|done|by exists hash|].
      intros k y Hy. split; [by eapply Hkn|left; by eapply Hmax].
    - destruct (run_saved hs b b1 HF Hrun) as (I1 & I2 & _).
      split_and!; [by eapply run_chain_ok|done|by eapply run_keeps|by apply I2, last_Some_elem_of|].
      intros k y Hy. destruct (run_old_or_new b b1 hs Hc HF Hrun k y Hy) as [_ [Hin|Hold]].
      + split; [left; by eapply Forall_forall in HF|right]. by apply (linked_heaviest Hsk b b1 hs Hc HF Hrun Hval hs z).
      + split; [by eapply Hkn|left; by eapply Hmax]. }
  destruct (head_updated b2 z hash t ht Hok Hx) with (o := o) (b' := b') as [He Hd]; try done.
  - by rewrite E2.
  - by rewrite Eh, C2.
  - by rewrite E2.
  - intros k y. rewrite E2. apply C4.
  - assert (forall k, hdr b' k = hdr b1 k) as E' by (intros k; by rewrite He, E2).
    split; [by eapply chain_ok_ext|done|]. intros k y. rewrite E'. apply C4.
Qed.
End Offered.

(** A store that holds the genesis header alone. *)
Lemma genesis_store_ok b k :
  header_ok genesis -> positive (h_total_difficulty genesis) ->
  header_hash c genesis = Ok k -> k <> prev_hash genesis ->
  (let? b := save_block_header c (batch (mkStore ∅)) genesis in
   let? t := tip_from_header c genesis in save_header_head b t) = Ok b ->
  forall U, header_chain U b.
Proof.
  intros Hg Hpos Hx Hne Hb U.
  destruct (save_header_spec c min_date max_date (batch (mkStore ∅)) genesis Hg)
    as (k' & b1 & Hx' & Hs & Hsame & Hother & _).
  assert (k' = k) as -> by congruence. rewrite Hs in Hb. cbn [bind] in Hb.
  unfold tip_from_header, hash_of in Hb. rewrite Hx in Hb. cbn [bind] in Hb.
  assert (He : forall x, hdr b x = hdr b1 x).
  { intros x. unfold get_block_header. f_equal. eapply get_put_ne; [exact Hb|key_ne]. }
  assert (Hx1 : forall x h, hdr b x = Ok h -> x = k /\ h = genesis).
  { intros x h. rewrite He. destruct (decide (x = k)) as [->|Hn]; [rewrite Hsame; by intros [= <-]|].
    rewrite Hother by done. by intros. }
  split; [..|intros x h Hh; right; by eapply Hx1].
  - split; [| |done]; intros x h Hh; destruct (Hx1 x h Hh) as [-> ->]; [done|left].
    split; [done|]. rewrite He, Hother by done. done.
  - eexists _, genesis. split.
    { eapply get_put_eq; [exact Hb|]. apply deserialize_tip.
      split; [by destruct Hg as (_ & Hu & _)|by apply header_difficulty_ok]. }
    cbn [last_block_h tip_height tip_difficulty]. rewrite He. split_and!; try done.
    intros x h Hh. by destruct (Hx1 x h Hh) as [_ ->].
Qed.

(** The chain of parents of a stored header ends at the genesis header. *)
Definition descends (b : Batch) (h : BlockHeader) : Prop :=
  rtc (fun x y => hdr b (prev_hash x) = Ok y) h genesis.

Lemma stored_descends b h : chain_ok b -> stored b h -> descends b h.
Proof.
  intros Hb. remember (Z.to_nat (height h)) as n eqn:Hn. revert h Hn.
  induction n as [n IH] using lt_wf_ind. intros h -> [k Hk].
  destruct (parent_ok b Hb k h Hk) as [[-> _]|(p & Hp & [Hht _])]; [apply rtc_refl|].
  pose proof (stored_height b Hb p ltac:(by exists (prev_hash h))).
  eapply rtc_l; [exact Hp|]. eapply (IH (Z.to_nat (height p))); [lia|done|by exists (prev_hash h)].
Qed.

End Headers.

(** ** Bottles *)
Definition with_bottles (h : BlockHeader) (bo : Policy) : BlockHeader :=
  mkBlockHeader (version h) (height h) (prev_hash h) (prev_root h) (h_timestamp h) (output_root h)
    (range_proof_root h) (kernel_root h) (total_kernel_offset h) (output_mmr_size h) (kernel_mmr_size h)
    (pow h) (policy h) bo.

Section Bottles.
Context `{Hasher} `{Secp} `{PoWContext} (c : ChainTypes) (min_date max_date : Z).
Context (get_progpow_value : list Z -> Z -> Z -> Hash) (u256_from : Hash -> Z).
Context (config : PolicyConfig) (opts : Z) (now : Z).

#[local] Abbreviation hdr := (get_block_header c min_date max_date).
#[local] Abbreviation validate_header :=
  (validate_header c min_date max_date get_progpow_value u256_from config opts (verify_size c) now).

(** The bottles of the parent decide the algorithm when its own parent has the
    same policy. *)
Lemma bottles_of_parent b k prev g :
  hdr b k = Ok prev -> hdr b (prev_hash prev) = Ok g -> policy g = policy prev ->
  collect (bottle_next c min_date max_date b (policy prev)) 1 (iter_from k) = Ok [bottles prev].
Proof.
  intros Hk Hg Hpol. cbn [collect]. unfold bottle_next, iter_advance, iter_from. cbn [it_header start].
  rewrite Hk. cbn [ok_opt bind]. unfold limit_search. cbn [same_policy]. unfold get_previous_header.
  rewrite Hg. cbn [ok_opt bind]. rewrite Hpol, !Z.eqb_refl. done.
Qed.

Lemma missing_bottle_check_panics b prev g h k p t n :
  header_hash c prev = Ok k -> hdr b k = Ok prev ->
  hdr b (prev_hash prev) = Ok g -> policy g = policy prev -> policy h = policy prev ->
  is_allowed_policy (allowed_policies config) (height h) (policy h) = Ok true ->
  get_policies config (policy h) = Some p -> p !! t = Some n -> 0 < n -> bottles prev !! t = None ->
  check_policy c min_date max_date config b prev h = Panic.
Proof.
  intros Hx Hk Hg Hpg Hph Ha Hp Ht Hn Hmiss. unfold check_policy. rewrite Ha. cbn [no_err bind negb].
  rewrite Hp. unfold hash_of. rewrite Hx. cbn [bind]. rewrite Hph.
  rewrite (bottles_of_parent b k prev g Hk Hg Hpg). cbn [no_err bind].
  unfold next_policy. rewrite <- Hph, Hp. cbn [unwrap bind].
  by rewrite (missing_bottle_panics p (bottles prev) t n Ht Hn Hmiss).
Qed.

(** The bottles of a header are not checked and not covered by its proof of
    work: replace them in an accepted header by any others, and (unless its new hash
    is one of the two banned ones) it is accepted just as well.  If the new bottles
    lack an algorithm of the policy, validating any later header on top of it, once
    it passes the checks before the choice of the algorithm, panics. *)
Theorem unchecked_bottles b h bo hash :
  validate_header b h = Ok tt ->
  header_hash c (with_bottles h bo) = Ok hash -> hash ∉ bad_hashes ->
  validate_header b (with_bottles h bo) = Ok tt
  /\ forall b2 g h2 s p t n,
      hdr b2 hash = Ok (with_bottles h bo) -> hdr b2 (prev_hash h) = Ok g -> policy g = policy h ->
      prev_hash h2 = hash -> policy h2 = policy h ->
      version h2 = CURRENT_HEADER_VERSION -> too_far_ahead c now h2 = false ->
      check_bad_header c h2 = Ok tt -> check_proof c opts (verify_size c) h2 = Ok tt ->
      hdr b2 (seed (pow h2)) = Ok s -> height s = rx_current_seed_height (height h2) ->
      is_allowed_policy (allowed_policies config) (height h2) (policy h2) = Ok true ->
      get_policies config (policy h2) = Some p -> p !! t = Some n -> 0 < n -> bo !! t = None ->
      validate_header b2 h2 = Panic.
Proof.
  intros Hv Hx Hbad. split.
  - assert (Hc : check_bad_header c (with_bottles h bo) = Ok tt).
    { unfold check_bad_header, hash_of. rewrite Hx. cbn [bind]. by rewrite decide_False. }
    revert Hv. unfold Pipe.validate_header. rewrite Hc. cbn [bind].
    destruct (negb (valid_header_version (height h) (version h))) eqn:E1; [done|].
    destruct (too_far_ahead c now h) eqn:E2; [done|].
    change (too_far_ahead c now (with_bottles h bo)) with (too_far_ahead c now h). rewrite E2.
    cbn [height version with_bottles]. rewrite E1.
    intros Hv. apply bind_Ok_inv in Hv as (_ & _ & Hv). exact Hv.
  - intros b2 g h2 s p t n Hk Hg Hpg Hph Hpol Hver Hfar Hb Hp Hs Hseed Ha Hget Ht Hn Hmiss.
    unfold Pipe.validate_header, valid_header_version. rewrite Hver, Z.eqb_refl. cbn [negb].
    rewrite Hfar, Hb. cbn [bind]. rewrite Hp. cbn [bind].
    unfold prev_header_store, get_previous_header. rewrite Hph, Hk. cbn [map_err bind].
    unfold seed_header_store. rewrite from_vec_bytes, Hs. cbn [map_err bind]. rewrite Hseed, Z.eqb_refl.
    cbn [negb]. erewrite missing_bottle_check_panics; [done|exact Hx|exact Hk|exact Hg|done|done|done|done|done|done|done].
Qed.

End Bottles.
