(* ===== verification/ChainSums.v ===== *)
(** * Conservation of value along a chain

    [verify_block_sums] of [chain/src/pipe.rs], block after block. *)
From S2P Require Import Prelude Ser Global Pow Reward Retarget Feijoada Committed Transaction CutThrough Block BlockTheory ChainStore ChainStoreTheory Pipe.

Section Sums.
Context `{Hasher} `{Secp} {G : Type} `{!SecpLaws G} (c : ChainTypes) (min_date max_date : Z).

#[local] Abbreviation hdr := (get_block_header c min_date max_date).
#[local] Abbreviation verify_block_sums := (verify_block_sums c min_date max_date).

Lemma excesses_kernel_point {T} `{Committed T} (t : T) o k k' :
  sum_kernel_excesses t o = Ok (k, k') -> point k = psum (kernels_committed t).
Proof.
  unfold sum_kernel_excesses. intros Hok. apply bind_Ok_inv in Hok as (ks & Hks & Hok).
  apply bind_Ok_inv in Hok as (l & _ & Hok). apply bind_Ok_inv in Hok as (x & _ & Hok). injection Hok as <- _.
  apply sum_commits_point in Hks. unfold psum in Hks at 1. cbn [foldr] in Hks. by rewrite gadd_0 in Hks.
Qed.

Lemma reads_block_sums s : reads read_block_sums (write_block_sums s) s.
Proof.
  destruct s as [u k]. unfold read_block_sums, write_block_sums. cbn [utxo_sum kernel_sum].
  eapply reads_bind; [by apply reads_array|]. cbv beta.
  apply (reads_map _ (fun k => mkBlockSums u k)). by apply reads_array.
Qed.

(** The sums of a block from those of its parent. *)
Definition sums_step (s s' : BlockSums) (blk : Block) : Prop :=
  gadd (point (utxo_sum s')) (gadd (psum (inputs_committed blk)) (value_point (creates c (height (header blk)))))
    = gadd (point (utxo_sum s)) (psum (outputs_committed blk))
  /\ point (kernel_sum s') = gadd (point (kernel_sum s)) (psum (kernels_committed blk))
  /\ point (utxo_sum s') = gadd (point (kernel_sum s')) (key_point (total_kernel_offset (header blk))).

Lemma verify_block_sums_step b blk prev k s b' :
  hdr b (prev_hash (header blk)) = Ok prev -> header_hash c prev = Ok k -> get_block_sums b k = Ok s ->
  0 <= height (header blk) < last_height ->
  verify_block_sums b blk = Ok b' ->
  exists k' s', header_hash c (header blk) = Ok k' /\ get_block_sums b' k' = Ok s'
    /\ (forall x, hdr b' x = hdr b x) /\ sums_step s s' blk.
Proof.
  intros Hp Hk Hs Hh Hv. unfold Pipe.verify_block_sums, get_previous_header, hash_of in Hv.
  rewrite Hp in Hv. cbn [map_err bind] in Hv. rewrite Hk in Hv. cbn [bind] in Hv. rewrite Hs in Hv.
  cbn [map_err bind] in Hv. rewrite header_overage in Hv by done. cbn [no_err bind] in Hv.
  apply bind_Ok_inv in Hv as ([u ks] & Hsum%map_err_Ok_inv & Hv).
  destruct (header_hash c (header blk)) as [k'| |] eqn:Hk'; cbn [bind] in Hv; [|done..].
  apply map_err_Ok_inv in Hv. exists k', (mkBlockSums u ks). split; [done|]. split_and!.
  - eapply get_put_eq; [exact Hv|]. rewrite <- (app_nil_r (write_block_sums _)).
    apply reads_deserialize, reads_block_sums.
  - intros x. unfold get_block_header. f_equal. eapply get_put_ne; [exact Hv|key_ne].
  - unfold verify_kernel_sums in Hsum. apply bind_Ok_inv in Hsum as (u' & Hu & Hsum).
    apply bind_Ok_inv in Hsum as ([k1 k2] & Hx & Hsum). case_decide as Hd; [done|]. subst u'.
    injection Hsum as -> ->. pose proof (creates_bounds c _ Hh).
    apply sum_commitments_point_neg in Hu; [|lia].
    pose proof (excesses_kernel_point _ _ _ _ Hx) as Hkp.
    apply sum_kernel_excesses_point in Hx as (_ & Hx & _). rewrite <- Hkp in Hx.
    split_and!; [exact Hu|exact Hkp|exact Hx].
Qed.

(** Blocks one after the other on top of a header. *)
Inductive chained (b : Batch) : BlockHeader -> list Block -> Prop :=
| ChainedNil prev : chained b prev []
| ChainedCons prev blk blocks :
    hdr b (prev_hash (header blk)) = Ok prev -> chained b (header blk) blocks ->
    chained b prev (blk :: blocks).

Lemma chained_ext b b' prev blocks :
  (forall x, hdr b' x = hdr b x) -> chained b prev blocks -> chained b' prev blocks.
Proof. intros He. induction 1; constructor; [by rewrite He|done]. Qed.

Definition all_inputs (blocks : list Block) : list Commitment := concat (map inputs_committed blocks).
Definition all_outputs (blocks : list Block) : list Commitment := concat (map outputs_committed blocks).
Definition all_excesses (blocks : list Block) : list Commitment := concat (map kernels_committed blocks).
Definition all_created (blocks : list Block) : Z :=
  foldr (fun blk acc => creates c (height (header blk)) + acc) 0 blocks.
Definition tip_header (prev : BlockHeader) (blocks : list Block) : BlockHeader :=
  List.last (map header blocks) prev.

Lemma tip_header_cons prev blk blocks : tip_header prev (blk :: blocks) = tip_header (header blk) blocks.
Proof.
  unfold tip_header. cbn [map]. destruct (map header blocks) as [|h l]; [done|].
  change (List.last (h :: l) prev = List.last (h :: l) (header blk)).
  revert h. induction l as [|x l IH]; intros h; [done|]. apply (IH x).
Qed.

Lemma sums_telescope (u u' u'' i1 i2 v1 v2 o1 o2 : G) :
  gadd u' (gadd i1 v1) = gadd u o1 -> gadd u'' (gadd i2 v2) = gadd u' o2 ->
  gadd u'' (gadd (gadd i1 i2) (gadd v1 v2)) = gadd u (gadd o1 o2).
Proof.
  intros H1 H2. rewrite (gadd_swap i1 i2 v1 v2), (gadd_comm (gadd i1 v1)), gadd_assoc, H2.
  by rewrite gadd_right_comm, H1, gadd_assoc.
Qed.

Lemma chain_sums b prev k s blocks b' :
  chained b prev blocks -> header_hash c prev = Ok k -> get_block_sums b k = Ok s ->
  point (utxo_sum s) = gadd (point (kernel_sum s)) (key_point (total_kernel_offset prev)) ->
  Forall (fun blk => 0 <= height (header blk) < last_height) blocks ->
  foldM verify_block_sums blocks b = Ok b' ->
  exists k' s', header_hash c (tip_header prev blocks) = Ok k' /\ get_block_sums b' k' = Ok s'
    /\ gadd (point (utxo_sum s')) (gadd (psum (all_inputs blocks)) (value_point (all_created blocks)))
       = gadd (point (utxo_sum s)) (psum (all_outputs blocks))
    /\ point (kernel_sum s') = gadd (point (kernel_sum s)) (psum (all_excesses blocks))
    /\ point (utxo_sum s')
       = gadd (point (kernel_sum s')) (key_point (total_kernel_offset (tip_header prev blocks))).
Proof.
  revert b prev k s. induction blocks as [|blk blocks IH]; intros b prev k s Hch Hk Hs Hinv Hh Hf.
  - cbn [foldM] in Hf. injection Hf as <-. exists k, s. split_and!; try done.
    + unfold psum. cbn [all_inputs all_outputs map concat foldr all_created].
      by rewrite value_point_0, !gadd_0.
    + unfold psum. cbn [all_excesses map concat foldr]. by rewrite gadd_0.
  - inversion Hch as [|? ? ? Hp Hrest]; subst. inversion Hh as [|? ? Hblk Hall]; subst.
    cbn [foldM] in Hf. apply bind_Ok_inv in Hf as (b1 & Hv & Hf).
    destruct (verify_block_sums_step b blk prev k s b1 Hp Hk Hs Hblk Hv)
      as (k1 & s1 & Hk1 & Hs1 & Hext & Hu & Hks & Hoff).
    destruct (IH b1 (header blk) k1 s1) as (k' & s' & Hk' & Hs' & Hu' & Hks' & Hoff'); try done.
    { by eapply chained_ext. }
    exists k', s'. rewrite tip_header_cons. split_and!; try done.
    + unfold all_inputs, all_outputs. cbn [map concat all_created foldr].
      rewrite !psum_app, value_point_add. by apply (sums_telescope _ (point (utxo_sum s1))).
    + unfold all_excesses. cbn [map concat]. by rewrite psum_app, Hks', Hks, gadd_assoc.
Qed.

(** No inflation along a chain: if every block of a chain passes
    [verify_block_sums], the points of all outputs created on top of the first
    balance are those of all inputs spent, plus exactly the rewards and foundation
    payments of the heights, plus all the kernel excesses and the final offset; the
    sums stored for the last block are those of the whole chain. *)
Theorem chain_conserves_value b prev k s blocks b' :
  chained b prev blocks -> header_hash c prev = Ok k -> get_block_sums b k = Ok s ->
  point (utxo_sum s) = gadd (point (kernel_sum s)) (key_point (total_kernel_offset prev)) ->
  Forall (fun blk => 0 <= height (header blk) < last_height) blocks ->
  foldM verify_block_sums blocks b = Ok b' ->
  gadd (point (utxo_sum s)) (psum (all_outputs blocks))
    = gadd (gadd (psum (all_inputs blocks)) (value_point (all_created blocks)))
        (gadd (gadd (point (kernel_sum s)) (psum (all_excesses blocks)))
           (key_point (total_kernel_offset (tip_header prev blocks))))
  /\ exists k' s', header_hash c (tip_header prev blocks) = Ok k' /\ get_block_sums b' k' = Ok s'
     /\ point (kernel_sum s') = gadd (point (kernel_sum s)) (psum (all_excesses blocks))
     /\ point (utxo_sum s')
        = gadd (point (kernel_sum s')) (key_point (total_kernel_offset (tip_header prev blocks))).
Proof.
  intros Hch Hk Hs Hinv Hh Hf.
  destruct (chain_sums b prev k s blocks b' Hch Hk Hs Hinv Hh Hf) as (k' & s' & Hk' & Hs' & Hu & Hks & Hoff).
  split; [|by exists k', s']. rewrite <- Hu, Hoff, Hks. apply gadd_comm.
Qed.

End Sums.
