(* ===== verification/PipeExample.v ===== *)
(** * A chain of two headers

    Concrete headers, blocks and stores on which the theorems about the store and
    the pipeline apply: a toy hash (the first bytes of the content), the integer
    model of the curve, the main network and its policies. *)
From S2P Require Import Prelude Ser Global Pow Reward Retarget Feijoada Committed Transaction CutThrough Block BlockTheory ChainStore ChainStoreTheory Pipe PipeTheory ChainSums.

#[local] Existing Instance prefix_hasher.

Definition far_date : Z := 2 ^ 40.
Definition no_progpow (_ : list Z) (_ _ : Z) : Hash := ZERO_HASH.
Definition hash_value (h : Hash) : Z := be_value (bytes h).
Definition trusting (_ : BlockHeader) : bool := true.
#[local] Instance trusting_context : PoWContext := fun _ _ _ _ _ => true.
Definition noon : Z := 1600000060 * 10 ^ 9.

Definition rx_header (ht ts : Z) (prev : Hash) (total : Difficulty) (rx : Z) (seed : Hash) : BlockHeader :=
  mkBlockHeader CURRENT_HEADER_VERSION ht prev ZERO_HASH ts ZERO_HASH ZERO_HASH ZERO_HASH blinding_zero 0 0
    (mkProofOfWork total 1 0 (RandomXProof (from_vec (be_bytes 32 rx))) seed) 0 get_bottles_default.

Definition or_else {E A} (d : A) (m : outcome E A) : A := match m with Ok a => a | _ => d end.

Definition genesis : BlockHeader := rx_header 0 1600000000 ZERO_HASH (from_num 6000) (2 ^ 200) ZERO_HASH.
Definition genesis_hash : Hash := or_else ZERO_HASH (header_hash Mainnet genesis).
Definition genesis_store : Batch :=
  or_else empty_store
    (let? b := save_block_header Mainnet (batch (mkStore ∅)) genesis in
     let? t := tip_from_header Mainnet genesis in save_header_head b t).

(** The difficulty [required_difficulty] gives after the genesis header. *)
Definition first_work : Difficulty :=
  mkDifficulty (<[RandomX := 5907]> (number 6000)).
Definition first_header : BlockHeader :=
  rx_header 1 1600000060 genesis_hash (difficulty_add (from_num 6000) first_work) (2 ^ 201) genesis_hash.

Lemma genesis_header_ok : header_ok Mainnet 0 far_date genesis.
Proof. unfold header_ok, pow_ok. split_and!; vm_decide. Qed.
Lemma first_header_ok : header_ok Mainnet 0 far_date first_header.
Proof. unfold header_ok, pow_ok. split_and!; vm_decide. Qed.

Lemma genesis_positive : positive (h_total_difficulty genesis).
Proof. intros t. destruct t; vm_compute; congruence. Qed.

Lemma genesis_store_good U : header_chain Mainnet 0 far_date genesis U genesis_store.
Proof.
  apply (genesis_store_ok Mainnet 0 far_date genesis genesis_store genesis_hash genesis_header_ok genesis_positive).
  - vm_compute. reflexivity.
  - vm_decide.
  - vm_compute. reflexivity.
Qed.

#[local] Abbreviation validate :=
  (validate_header Mainnet 0 far_date no_progpow hash_value default_config 0 trusting noon).

Lemma accepted_header_witness :
  exists prev, get_block_header Mainnet 0 far_date genesis_store (prev_hash first_header) = Ok prev
    /\ height first_header = height prev + 1.
Proof.
  destruct (accepted_header Mainnet 0 far_date no_progpow hash_value default_config 0 trusting noon
    genesis genesis_store first_header) as (prev & s & next & d & Hp & Hh & _).
  - exact (hc_chain _ _ _ _ _ _ (genesis_store_good (eq first_header))).
  - exact first_header_ok.
  - reflexivity.
  - vm_compute. reflexivity.
  - vm_compute. reflexivity.
  - exists prev. exact (conj Hp Hh).
Defined.

(** The header head after one accepted header. *)
Definition first_hash : Hash := or_else ZERO_HASH (header_hash Mainnet first_header).
Definition stored_first : Batch := or_else empty_store (add_block_header Mainnet genesis_store first_header).
Definition first_update : option Tip * Batch :=
  or_else (None, empty_store) (update_header_head Mainnet stored_first first_header).

Lemma first_admissible : admissible Mainnet 0 far_date genesis (eq first_header).
Proof.
  apply (single_admissible Mainnet 0 far_date genesis first_header first_hash genesis_hash first_header_ok);
    first [vm_decide | vm_compute; reflexivity].
Qed.

Lemma first_chain : header_chain Mainnet 0 far_date genesis (eq first_header) first_update.2.
Proof.
  apply (header_of_block Mainnet 0 far_date no_progpow hash_value default_config 0 trusting noon genesis
    (eq first_header) first_admissible genesis_store first_header stored_first first_update.1).
  - reflexivity.
  - apply genesis_store_good.
  - reflexivity.
  - vm_compute. reflexivity.
  - vm_compute. reflexivity.
  - vm_compute. reflexivity.
Qed.

(** A header with empty bottles is accepted, and the next one panics. *)
Definition bad_first : BlockHeader := with_bottles first_header ∅.
Definition bad_hash : Hash := or_else ZERO_HASH (header_hash Mainnet bad_first).
Definition bad_store : Batch := or_else empty_store (save_block_header Mainnet genesis_store bad_first).
Definition second_header : BlockHeader :=
  rx_header 2 1600000120 bad_hash (from_num 1) (2 ^ 202) genesis_hash.

#[local] Abbreviation validate_size :=
  (validate_header Mainnet 0 far_date no_progpow hash_value default_config 0 (verify_size Mainnet) noon).

Lemma unchecked_bottles_witness :
  validate_size genesis_store bad_first = Ok tt /\ validate_size bad_store second_header = Panic.
Proof.
  destruct (unchecked_bottles Mainnet 0 far_date no_progpow hash_value default_config 0 noon genesis_store
    first_header ∅ bad_hash) as [Hok Hpanic].
  - vm_compute. reflexivity.
  - vm_compute. reflexivity.
  - vm_decide.
  - split; [exact Hok|].
    apply (Hpanic bad_store genesis second_header genesis (policy_of 60 38 2 0) RandomX 60);
      first [vm_decide | vm_compute; reflexivity].
Defined.

(** A block on top of an empty balance. *)
Definition empty_sums_store : Batch := or_else empty_store (save_block_sums genesis_store genesis_hash block_sums_default).
Definition first_block : Block :=
  mkBlock first_header
    (mkBody [] [mkOutput Coinbase (encode 33 1457920007) rp8]
       [mkTxKernel KernelCoinbase 0 0 (encode 33 7) (from_vec [])]).
Definition summed_store : Batch :=
  or_else empty_store
    (foldM (@verify_block_sums _ integer_secp Mainnet 0 far_date) [first_block] empty_sums_store).

Lemma chain_conserves_value_witness :
  exists k' s', header_hash Mainnet first_header = Ok k' /\ get_block_sums summed_store k' = Ok s'.
Proof.
  destruct (@chain_conserves_value _ integer_secp Z integer_secp_laws Mainnet 0 far_date empty_sums_store
    genesis genesis_hash block_sums_default [first_block] summed_store) as (_ & k' & s' & Hk & Hs & _).
  - constructor; [vm_decide|constructor].
  - vm_compute. reflexivity.
  - vm_decide.
  - change (total_kernel_offset genesis) with blinding_zero. unfold blinding_zero, block_sums_default.
    rewrite key_point_zero, gadd_0. reflexivity.
  - constructor; [|constructor]. vm_decide.
  - vm_compute. reflexivity.
  - exists k', s'. exact (conj Hk Hs).
Defined.
