(* ===== verification/TxHashSet.v ===== *)
(** * The transaction hash set

    [chain/src/txhashset/txhashset.rs], [utxo_view.rs] and
    [rewindable_kernel_view.rs]: the header, output, range proof and kernel ranges
    with the index of output positions, the units of work on them ([Extension],
    [HeaderExtension]) and the functions that run a unit of work and commit or undo
    it.  A unit of work is a [trans]: its state is there on every exit.  An
    operation of a range that fails leaves the range as it was; what the code had
    already put in its write buffers is dropped by the [discard] that follows every
    error.  The chain store that the set shares with the rest of the node is an
    argument of the methods that read it.  Progress callbacks, snapshots, dumps and
    the packing of the files into an archive are not modelled. *)
From S2P Require Import Prelude PmmrIndex Pmmr AppendOnlyFile PruneList PmmrBackend Ser Global Pow Reward Committed Transaction Block ChainStore Pipe.
Import Pos.

Abbreviation Range := (PMMR PMMRBackend).

(** ** State *)

(** [TxKernelEntry], the element of the kernel range. *)
Record TxKernelEntry := mkTxKernelEntry { kernel : TxKernel }.
Definition from_kernel (k : TxKernel) : TxKernelEntry := mkTxKernelEntry k.
Definition write_kernel_entry (e : TxKernelEntry) : list Z := write_kernel (kernel e).
Definition read_kernel_entry : read TxKernelEntry := k <- read_kernel ;; ret (mkTxKernelEntry k).

Record PMMRHandle := mkHandle { h_backend : PMMRBackend; h_last_pos : Z }.

Record TxHashSet := mkTxHashSet {
  header_pmmr_h : PMMRHandle;
  sync_pmmr_h : PMMRHandle;
  output_pmmr_h : PMMRHandle;
  rproof_pmmr_h : PMMRHandle;
  kernel_pmmr_h : PMMRHandle
}.

Record TxHashSetRoots := mkRoots {
  r_header_root : Hash;
  r_output_root : Hash;
  r_rproof_root : Hash;
  r_kernel_root : Hash
}.

(** The work on the header range alone, and on all four ranges. *)
Record HeaderExtension := mkHeaderExtension {
  hx_header : BlockHeader;
  hx_pmmr : Range;
  hx_rollback : bool;
  hx_batch : Batch
}.

Record Extension := mkExtension {
  ext_header : BlockHeader;
  header_pmmr : Range;
  output_pmmr : Range;
  rproof_pmmr : Range;
  kernel_pmmr : Range;
  rollback : bool;
  ext_batch : Batch
}.

Record UTXOView := mkUTXOView { uv_output_pmmr : Range; uv_header_pmmr : Range; uv_batch : Batch }.

Record RewindableKernelView := mkKernelView { kv_pmmr : Range; kv_batch : Batch; kv_header : BlockHeader }.

(** ** Setting one field *)
Definition hx_set_header (h : BlockHeader) (e : HeaderExtension) : HeaderExtension :=
  mkHeaderExtension h (hx_pmmr e) (hx_rollback e) (hx_batch e).
Definition hx_set_pmmr (p : Range) (e : HeaderExtension) : HeaderExtension :=
  mkHeaderExtension (hx_header e) p (hx_rollback e) (hx_batch e).
Definition hx_set_batch (b : Batch) (e : HeaderExtension) : HeaderExtension :=
  mkHeaderExtension (hx_header e) (hx_pmmr e) (hx_rollback e) b.

Definition set_header (h : BlockHeader) (e : Extension) : Extension :=
  mkExtension h (header_pmmr e) (output_pmmr e) (rproof_pmmr e) (kernel_pmmr e) (rollback e) (ext_batch e).
Definition set_header_pmmr (p : Range) (e : Extension) : Extension :=
  mkExtension (ext_header e) p (output_pmmr e) (rproof_pmmr e) (kernel_pmmr e) (rollback e) (ext_batch e).
Definition set_output_pmmr (p : Range) (e : Extension) : Extension :=
  mkExtension (ext_header e) (header_pmmr e) p (rproof_pmmr e) (kernel_pmmr e) (rollback e) (ext_batch e).
Definition set_rproof_pmmr (p : Range) (e : Extension) : Extension :=
  mkExtension (ext_header e) (header_pmmr e) (output_pmmr e) p (kernel_pmmr e) (rollback e) (ext_batch e).
Definition set_kernel_pmmr (p : Range) (e : Extension) : Extension :=
  mkExtension (ext_header e) (header_pmmr e) (output_pmmr e) (rproof_pmmr e) p (rollback e) (ext_batch e).
Definition set_batch (b : Batch) (e : Extension) : Extension :=
  mkExtension (ext_header e) (header_pmmr e) (output_pmmr e) (rproof_pmmr e) (kernel_pmmr e) (rollback e) b.

(** [force_rollback]. *)
Definition hx_force_rollback {E} : trans HeaderExtension E () :=
  tmodify (fun e => mkHeaderExtension (hx_header e) (hx_pmmr e) true (hx_batch e)).
Definition force_rollback {E} : trans Extension E () :=
  tmodify (fun e => mkExtension (ext_header e) (header_pmmr e) (output_pmmr e) (rproof_pmmr e)
                      (kernel_pmmr e) true (ext_batch e)).

(** The errors of a range and of the store, as the chain reports them. *)
Definition txhashset_err {A} (m : outcome pmmr_error A) : outcome chain_error A := map_err (fun _ => TxHashSetErr) m.
Definition no_result {A} (m : outcome pmmr_error A) : outcome pmmr_error (() * A) := let? a := m in Ok (tt, a).
Definition store_err {A} (m : outcome store_error A) : outcome chain_error A := map_err StoreErr m.

(** The readers of the elements of a range do not panic. *)
Definition deser {A} (rd : read A) (bs : list Z) : option A :=
  match deserialize rd bs with
  | Ok a => Some a
  | _ => None
  end.

Definition backend_of (h : PMMRHandle) : Range := at_ (h_backend h) (h_last_pos h).

Section TxHashSet.
Context `{Hasher} `{Secp} (c : ChainTypes) (min_date max_date : Z).
Context (bitmap_serialize : gset Z -> list Z) (bitmap_deserialize : list Z -> gset Z).

(** ** The elements of the ranges

    What a header hashes and stores, where [write] and [hash] succeed; [push_header]
    has the panic of the others. *)
Definition header_content (h : BlockHeader) : list Z :=
  match write_header c HashMode h with
  | Ok content => content
  | _ => []
  end.
Definition header_elmt (h : BlockHeader) : HeaderEntry :=
  match as_elmt c h with
  | Ok e => e
  | _ => mkHeaderEntry ZERO_HASH 0 Pow.zero 0 false
  end.

Definition header_backend : Backend BlockHeader Hash HeaderEntry PMMRBackend :=
  pmmr_backend header_elmt write_header_entry (deser read_header_entry).
Definition output_backend : Backend Output Hash OutputIdentifier PMMRBackend :=
  pmmr_backend from_output write_output_id (deser read_output_id).
Definition rproof_backend : Backend RangeProof Hash RangeProof PMMRBackend :=
  pmmr_backend id write_range_proof (deser read_range_proof).
Definition kernel_backend : Backend TxKernel Hash TxKernelEntry PMMRBackend :=
  pmmr_backend from_kernel write_kernel_entry (deser read_kernel_entry).

Definition header_index : IndexHash BlockHeader Hash := index_hash header_content.
Definition output_index : IndexHash Output Hash := index_hash (write_output HashMode).
Definition rproof_index : IndexHash RangeProof Hash := index_hash write_range_proof.
Definition kernel_index : IndexHash TxKernel Hash := index_hash write_kernel.

Definition push_header (p : Range) (h : BlockHeader) : outcome pmmr_error (Z * Range) :=
  let? _hash := hash_of c h in Pmmr.push (IH := header_index) (BE := header_backend) p h.
Definition push_output : Range -> Output -> outcome pmmr_error (Z * Range) :=
  Pmmr.push (IH := output_index) (BE := output_backend).
Definition push_rproof : Range -> RangeProof -> outcome pmmr_error (Z * Range) :=
  Pmmr.push (IH := rproof_index) (BE := rproof_backend).
Definition push_kernel : Range -> TxKernel -> outcome pmmr_error (Z * Range) :=
  Pmmr.push (IH := kernel_index) (BE := kernel_backend).

Definition header_data : Range -> Z -> option HeaderEntry := Pmmr.get_data (BE := header_backend).
Definition output_data : Range -> Z -> option OutputIdentifier := Pmmr.get_data (BE := output_backend).
Definition rproof_data : Range -> Z -> option RangeProof := Pmmr.get_data (BE := rproof_backend).
Definition kernel_data : Range -> Z -> option TxKernelEntry := Pmmr.get_data (BE := kernel_backend).
Definition output_hash_at : Range -> Z -> option Hash := Pmmr.get_hash (BE := output_backend).

(** [root] has no error result; it panics on a range without its peaks. *)
Definition header_root_of (p : Range) : outcome chain_error Hash :=
  txhashset_err (Pmmr.root (IH := header_index) (BE := header_backend) p).
Definition output_root_of (p : Range) : outcome chain_error Hash :=
  txhashset_err (Pmmr.root (IH := output_index) (BE := output_backend) p).
Definition rproof_root_of (p : Range) : outcome chain_error Hash :=
  txhashset_err (Pmmr.root (IH := rproof_index) (BE := rproof_backend) p).
Definition kernel_root_of (p : Range) : outcome chain_error Hash :=
  txhashset_err (Pmmr.root (IH := kernel_index) (BE := kernel_backend) p).

(** ** Opening the files *)
Record range_files := mkRangeFiles {
  f_hashes : list Z; f_data : list Z; f_sizes : list Z; f_leaves : gset Z; f_prunes : gset Z
}.

Definition handle_new {E} (prunable fixed_size : bool) (elmt_len : Z) (f : range_files)
    (stream_hash : list Z -> option (Hash * list Z * Z)) (stream_elmt : list Z -> option (E * list Z * Z))
    : outcome () PMMRHandle :=
  let? backend := PmmrBackend.new prunable fixed_size elmt_len (f_hashes f) (f_data f) (f_sizes f)
                    (f_leaves f) (f_prunes f) stream_hash stream_elmt in
  let? last_pos := PmmrBackend.unpruned_size backend in
  Ok (mkHandle backend last_pos).

Definition Difficulty_LEN : Z := 8 + 4 * 9.
Definition HeaderEntry_LEN : Z := 32 + 8 + Difficulty_LEN + 4 + 1.
Definition OutputIdentifier_LEN : Z := 1 + 33.
Definition RangeProof_LEN : Z := 8 + Z.of_nat MAX_PROOF_SIZE.
Definition TxKernelEntry_LEN : Z := 17 + 33 + 64.

Definition open (header_f sync_f output_f rproof_f kernel_f : range_files)
    (stream_hash : list Z -> option (Hash * list Z * Z))
    (stream_header : list Z -> option (HeaderEntry * list Z * Z))
    (stream_output : list Z -> option (OutputIdentifier * list Z * Z))
    (stream_rproof : list Z -> option (RangeProof * list Z * Z))
    (stream_kernel : list Z -> option (TxKernelEntry * list Z * Z)) : outcome () TxHashSet :=
  let? header_pmmr_h := handle_new false true HeaderEntry_LEN header_f stream_hash stream_header in
  let? sync_pmmr_h := handle_new false true HeaderEntry_LEN sync_f stream_hash stream_header in
  let? output_pmmr_h := handle_new true true OutputIdentifier_LEN output_f stream_hash stream_output in
  let? rproof_pmmr_h := handle_new true true RangeProof_LEN rproof_f stream_hash stream_rproof in
  let? kernel_pmmr_h := handle_new false false TxKernelEntry_LEN kernel_f stream_hash stream_kernel in
  Ok (mkTxHashSet header_pmmr_h sync_pmmr_h output_pmmr_h rproof_pmmr_h kernel_pmmr_h).

Definition release_backend_files (t : TxHashSet) : TxHashSet :=
  let release h := mkHandle (release_files (h_backend h)) (h_last_pos h) in
  mkTxHashSet (release (header_pmmr_h t)) (release (sync_pmmr_h t)) (release (output_pmmr_h t))
    (release (rproof_pmmr_h t)) (release (kernel_pmmr_h t)).

(** ** Reading the set *)
Definition is_unspent (t : TxHashSet) (commit_index : Store) (output_id : OutputIdentifier)
    : outcome chain_error (Hash * Z) :=
  match get_output_pos (batch commit_index) (id_commit output_id) with
  | Ok pos =>
      match output_hash_at (backend_of (output_pmmr_h t)) pos with
      | Some hash =>
          if decide (hash = hash_with_index (pos -! 1) (write_output_id output_id))
          then Ok (hash, pos) else Err TxHashSetErr
      | None => Err OutputNotFound
      end
  | Err NotFoundErr => Err OutputNotFound
  | Err e => Err (StoreErr e)
  | Panic => Panic
  end.

Definition last_n_output (t : TxHashSet) (distance : Z) : list (Hash * OutputIdentifier) :=
  Pmmr.get_last_n_insertions (BE := output_backend) (backend_of (output_pmmr_h t)) distance.
Definition last_n_rangeproof (t : TxHashSet) (distance : Z) : list (Hash * RangeProof) :=
  Pmmr.get_last_n_insertions (BE := rproof_backend) (backend_of (rproof_pmmr_h t)) distance.
Definition last_n_kernel (t : TxHashSet) (distance : Z) : list (Hash * TxKernelEntry) :=
  Pmmr.get_last_n_insertions (BE := kernel_backend) (backend_of (kernel_pmmr_h t)) distance.

Definition get_header_hash_by_height (t : TxHashSet) (height : Z) : outcome chain_error Hash :=
  let pos := insertion_to_pmmr_index (height +! 1) in
  match header_data (backend_of (header_pmmr_h t)) pos with
  | Some entry => Ok (e_hash entry)
  | None => Err ChainOther
  end.

Definition set_header_by_height (t : TxHashSet) (commit_index : Store) (height : Z) : outcome chain_error BlockHeader :=
  let? hash := get_header_hash_by_height t height in
  store_err (get_block_header c min_date max_date (batch commit_index) hash).

Definition outputs_by_insertion_index (t : TxHashSet) (start_index max_count : Z) : Z * list OutputIdentifier :=
  Pmmr.elements_from_insertion_index (BE := output_backend) (backend_of (output_pmmr_h t)) start_index max_count.
Definition highest_output_insertion_index (t : TxHashSet) : Z := n_leaves (h_last_pos (output_pmmr_h t)).
Definition rangeproofs_by_insertion_index (t : TxHashSet) (start_index max_count : Z) : Z * list RangeProof :=
  Pmmr.elements_from_insertion_index (BE := rproof_backend) (backend_of (rproof_pmmr_h t)) start_index max_count.

Definition roots_of (header output rproof kernel : Range) : outcome chain_error TxHashSetRoots :=
  let? header_root := header_root_of header in
  let? output_root := output_root_of output in
  let? rproof_root := rproof_root_of rproof in
  let? kernel_root := kernel_root_of kernel in
  Ok (mkRoots header_root output_root rproof_root kernel_root).

Definition set_roots (t : TxHashSet) : outcome chain_error TxHashSetRoots :=
  roots_of (backend_of (header_pmmr_h t)) (backend_of (output_pmmr_h t))
    (backend_of (rproof_pmmr_h t)) (backend_of (kernel_pmmr_h t)).

Definition set_output_position (commit_index : Store) (commit : Commitment) : outcome chain_error Z :=
  store_err (get_output_pos (batch commit_index) commit).

Definition set_merkle_proof (t : TxHashSet) (commit_index : Store) (commit : Commitment)
    : outcome chain_error (MerkleProof Hash) :=
  let? pos := store_err (get_output_pos (batch commit_index) commit) in
  map_err (fun _ => MerkleProofErr)
    (Pmmr.merkle_proof (IH := output_index) (BE := output_backend) (backend_of (output_pmmr_h t)) pos).

(** ** The inputs to restore on a rewind

    The bitmaps are merged whenever 256 of them have been collected; [fast_or] of
    no bitmap is the empty one. *)
Definition fast_or (bitmaps : list (gset Z)) : gset Z := ⋃ bitmaps.

Definition bitmap_fast_or (b_res : option (gset Z)) (block_input_bitmaps : list (gset Z))
    : option (gset Z) * list (gset Z) :=
  let merge l := let bitmap := fast_or l in (Some bitmap, [bitmap]) in
  match b_res with
  | Some b =>
      let l := block_input_bitmaps ++ [b] in
      if (length l <? 256)%nat then (None, l) else merge l
  | None => merge block_input_bitmaps
  end.

(** The [while] loop, from [current] back to [block_header]; out of fuel stands for
    not returning. *)
Fixpoint collect_inputs (fuel : nat) (b : Batch) (target : Hash) (current : BlockHeader)
    (block_input_bitmaps : list (gset Z)) : outcome chain_error (list (gset Z) * Batch) :=
  match fuel with
  | O => Panic
  | S fuel =>
      let? current_h := hash_of c current in
      if decide (current_h = target) then Ok (block_input_bitmaps, b)
      else if height current <? 1 then Ok (block_input_bitmaps, b)
      else
        let? '(block_input_bitmaps, b) :=
          match get_block_input_bitmap c min_date max_date bitmap_serialize bitmap_deserialize b current_h with
          | Ok (b_res, b) => Ok ((bitmap_fast_or (Some b_res) block_input_bitmaps).2, b)
          | Err _ => Ok (block_input_bitmaps, b)
          | Panic => Panic
          end in
        let? current := store_err (get_previous_header c min_date max_date b current) in
        collect_inputs fuel b target current block_input_bitmaps
  end.

Definition input_pos_to_rewind (block_header head_header : BlockHeader) (b : Batch)
    : outcome chain_error (gset Z * Batch) :=
  if height head_header <? height block_header then Ok (∅, b)
  else
    let? target := hash_of c block_header in
    let? '(block_input_bitmaps, b) := collect_inputs (chain_fuel head_header) b target head_header [] in
    let? bitmap := ok_or (bitmap_fast_or None block_input_bitmaps).1 Bitmap in
    Ok (bitmap, b).

Definition compact (stream_hash : list Z -> option (Hash * list Z * Z))
    (stream_output : list Z -> option (OutputIdentifier * list Z * Z))
    (stream_rproof : list Z -> option (RangeProof * list Z * Z))
    (t : TxHashSet) (b : Batch) : outcome chain_error (TxHashSet * Batch) :=
  let? head_header := store_err (head_header c min_date max_date b) in
  let current_height := height head_header in
  let horizon_height := sat_sub current_height (cut_through_horizon c) in
  let? horizon_hash := get_header_hash_by_height t horizon_height in
  let? horizon_header := store_err (get_block_header c min_date max_date b horizon_hash) in
  let? '(rewind_rm_pos, b) := input_pos_to_rewind horizon_header head_header b in
  let? output := map_err (fun _ => TxHashSetErr)
    (check_compact write_output_id stream_hash stream_output (h_backend (output_pmmr_h t))
       (output_mmr_size horizon_header) rewind_rm_pos) in
  let? rproof := map_err (fun _ => TxHashSetErr)
    (check_compact write_range_proof stream_hash stream_rproof (h_backend (rproof_pmmr_h t))
       (output_mmr_size horizon_header) rewind_rm_pos) in
  Ok (mkTxHashSet (header_pmmr_h t) (sync_pmmr_h t)
        (mkHandle output (h_last_pos (output_pmmr_h t))) (mkHandle rproof (h_last_pos (rproof_pmmr_h t)))
        (kernel_pmmr_h t), b).

(** ** Work on a header range *)
Definition header_at (p : Range) (b : Batch) (height : Z) : outcome chain_error BlockHeader :=
  let pos := insertion_to_pmmr_index (height +! 1) in
  match e_hash <$> header_data p pos with
  | Some hash => store_err (get_block_header c min_date max_date b hash)
  | None => Err ChainOther
  end.

Definition on_current_chain (p : Range) (b : Batch) (header : BlockHeader) : outcome chain_error () :=
  let? chain_header := header_at p b (height header) in
  let? chain_hash := hash_of c chain_header in
  let? hash := hash_of c header in
  if decide (chain_hash = hash) then Ok tt else Err ChainOther.

Definition hx_get_header_by_height (e : HeaderExtension) (height : Z) : outcome chain_error BlockHeader :=
  header_at (hx_pmmr e) (hx_batch e) height.
Definition hx_is_on_current_chain (e : HeaderExtension) (header : BlockHeader) : outcome chain_error () :=
  on_current_chain (hx_pmmr e) (hx_batch e) header.

Definition hx_root (e : HeaderExtension) : outcome chain_error Hash := header_root_of (hx_pmmr e).
Definition hx_size (e : HeaderExtension) : Z := Pmmr.unpruned_size (hx_pmmr e).

Definition hx_apply_header (header : BlockHeader) : trans HeaderExtension chain_error Hash :=
  do! tzoom hx_pmmr hx_set_pmmr (fun p => txhashset_err (push_header p header)) then
  do! tmodify (hx_set_header header) then
  tread hx_root.

Definition hx_rewind (header : BlockHeader) : trans HeaderExtension chain_error () :=
  let header_pos := insertion_to_pmmr_index (height header +! 1) in
  do! tzoom hx_pmmr hx_set_pmmr (fun p => txhashset_err (no_result
        (Pmmr.rewind (BE := header_backend) p header_pos ∅))) then
  tmodify (hx_set_header header).

Definition hx_truncate : trans HeaderExtension chain_error () :=
  tzoom hx_pmmr hx_set_pmmr (fun p => txhashset_err (no_result (Pmmr.truncate (BE := header_backend) p))).

Definition hx_validate_root (header : BlockHeader) (e : HeaderExtension) : outcome chain_error () :=
  if height header =? 0 then Ok tt
  else
    let? root := hx_root e in
    if decide (root <> prev_root header) then Err InvalidRoot else Ok tt.

(** The hashes of the headers above the genesis, latest first. *)
Fixpoint hashes_back (fuel : nat) (b : Batch) (current : BlockHeader) : outcome chain_error (list Hash) :=
  match fuel with
  | O => Panic
  | S fuel =>
      if height current >? 0 then
        let? h := hash_of c current in
        let? prev := store_err (get_previous_header c min_date max_date b current) in
        let? rest := hashes_back fuel b prev in
        Ok (h :: rest)
      else Ok []
  end.

Definition hx_rebuild (head : Tip) (genesis : BlockHeader) : trans HeaderExtension chain_error () :=
  let! header_hashes := tread (fun e =>
    let? current := store_err (get_block_header c min_date max_date (hx_batch e) (last_block_h head)) in
    hashes_back (chain_fuel current) (hx_batch e) current) in
  do! hx_truncate then
  do! hx_apply_header genesis then
  tfor (fun h =>
    let! header := tread (fun e => store_err (get_block_header c min_date max_date (hx_batch e) h)) in
    do! tread (hx_validate_root header) then
    do! hx_apply_header header then tret tt) (rev header_hashes).

(** ** The view of the unspent outputs *)
Definition validate_input (v : UTXOView) (input : Input) : outcome chain_error () :=
  match get_output_pos (uv_batch v) (in_commit input) with
  | Ok pos =>
      match output_hash_at (uv_output_pmmr v) pos with
      | Some hash =>
          if decide (hash = hash_with_index (pos -! 1) (write_input input))
          then Ok tt else Err (AlreadySpent (in_commit input))
      | None => Err (AlreadySpent (in_commit input))
      end
  | Err _ => Err (AlreadySpent (in_commit input))
  | Panic => Panic
  end.

(** Whether the index and the range already have this commitment. *)
Definition check_duplicate (b : Batch) (p : Range) (commit : Commitment) : outcome chain_error () :=
  match get_output_pos b commit with
  | Ok pos =>
      match output_data p pos with
      | Some out_mmr => if decide (id_commit out_mmr = commit) then Err (DuplicateCommitment commit) else Ok tt
      | None => Ok tt
      end
  | Err _ => Ok tt
  | Panic => Panic
  end.

Definition validate_output (v : UTXOView) (output : Output) : outcome chain_error () :=
  check_duplicate (uv_batch v) (uv_output_pmmr v) (out_commit output).

Definition view_validate_body (v : UTXOView) (b : TransactionBody) : outcome chain_error () :=
  try? foldM (fun _ output => validate_output v output) (outputs b) tt then
  foldM (fun _ input => validate_input v input) (inputs b) tt.
Definition view_validate_block (v : UTXOView) (block : Block) : outcome chain_error () :=
  view_validate_body v (b_body block).
Definition view_validate_tx (v : UTXOView) (tx : Transaction) : outcome chain_error () :=
  view_validate_body v (body tx).

(** The greatest position of the coinbase outputs that [inputs] spend. *)
Definition coinbase_pos (b : Batch) (inputs : list Input) : outcome chain_error Z :=
  foldM (fun m x =>
    match get_output_pos b (in_commit x) with
    | Ok pos => Ok (Z.max m pos)
    | Err _ => Ok m
    | Panic => Panic
    end) (filter (fun x => in_features x = Coinbase) inputs) 0.

Definition view_header_by_height (v : UTXOView) (height : Z) : outcome chain_error BlockHeader :=
  header_at (uv_header_pmmr v) (uv_batch v) height.

Definition view_coinbase_maturity (v : UTXOView) (inputs : list Input) (height : Z) : outcome chain_error () :=
  let? pos := coinbase_pos (uv_batch v) inputs in
  if pos >? 0 then
    if height <? coinbase_maturity c then Err ImmatureCoinbase
    else
      let cutoff_height := sat_sub height (coinbase_maturity c) in
      let? cutoff_header := view_header_by_height v cutoff_height in
      let cutoff_pos := output_mmr_size cutoff_header in
      if pos >? cutoff_pos then Err ImmatureCoinbase else Ok tt
  else Ok tt.

(** ** The view of the kernels *)
Definition kv_rewind (header : BlockHeader) (v : RewindableKernelView) : RewindableKernelView :=
  mkKernelView (rewindable_rewind (kv_pmmr v) (kernel_mmr_size header)) (kv_batch v) header.

Definition kv_validate_root (v : RewindableKernelView) : outcome chain_error () :=
  let? root := map_err (fun _ => InvalidRoot)
                 (rewindable_root (IH := kernel_index) (BE := kernel_backend) (kv_pmmr v)) in
  if decide (root <> kernel_root (kv_header v)) then Err InvalidTxHashSet else Ok tt.

(** ** Work on all the ranges *)
Definition new_extension (t : TxHashSet) (b : Batch) (header : BlockHeader) : Extension :=
  mkExtension header (backend_of (header_pmmr_h t)) (backend_of (output_pmmr_h t))
    (backend_of (rproof_pmmr_h t)) (backend_of (kernel_pmmr_h t)) false b.

#[export] Instance committed_extension : Committed Extension := {
  inputs_committed _ := [];
  outputs_committed e :=
    omap (fun pos => id_commit <$> output_data (output_pmmr e) pos)
      (Pmmr.leaf_pos_iter (BE := output_backend) (output_pmmr e));
  kernels_committed e :=
    omap (fun n => if is_leaf n then (fun k => excess (kernel k)) <$> kernel_data (kernel_pmmr e) n else None)
      (seqZ 1 (Pmmr.unpruned_size (kernel_pmmr e) +! 1 - 1));
}.

Definition utxo_view (e : Extension) : UTXOView :=
  mkUTXOView (readonly_pmmr (output_pmmr e)) (readonly_pmmr (header_pmmr e)) (ext_batch e).

Definition apply_header (header : BlockHeader) : trans Extension chain_error () :=
  do! tzoom header_pmmr set_header_pmmr (fun p => txhashset_err (push_header p header)) then tret tt.

Definition apply_kernel (k : TxKernel) : trans Extension chain_error () :=
  do! tzoom kernel_pmmr set_kernel_pmmr (fun p => txhashset_err (push_kernel p k)) then tret tt.

Definition apply_output (out : Output) : trans Extension chain_error Z :=
  let commit := out_commit out in
  do! tread (fun e => check_duplicate (ext_batch e) (output_pmmr e) commit) then
  let! output_pos := tzoom output_pmmr set_output_pmmr (fun p => txhashset_err (push_output p out)) in
  let! rproof_pos := tzoom rproof_pmmr set_rproof_pmmr (fun p => txhashset_err (push_rproof p (out_proof out))) in
  do! tread (fun e =>
    if negb (Pmmr.unpruned_size (output_pmmr e) =? Pmmr.unpruned_size (rproof_pmmr e)) then Err ChainOther
    else if negb (output_pos =? rproof_pos) then Err ChainOther
    else Ok tt) then
  tret output_pos.

(** The leaf the index gives for the input, when it is there, must be the input's output. *)
Definition check_input (e : Extension) (input : Input) : outcome chain_error Z :=
  match get_output_pos (ext_batch e) (in_commit input) with
  | Ok pos =>
      match output_hash_at (output_pmmr e) pos with
      | Some hash =>
          if decide (hash <> hash_with_index (pos -! 1) (write_input input)) then Err TxHashSetErr else Ok pos
      | None => Ok pos
      end
  | Err _ => Err (AlreadySpent (in_commit input))
  | Panic => Panic
  end.

Definition apply_input (input : Input) : trans Extension chain_error () :=
  let! pos := tread (fun e => check_input e input) in
  let! pruned := tzoom output_pmmr set_output_pmmr (fun p =>
                   txhashset_err (Pmmr.prune (BE := output_backend) p pos)) in
  if (pruned : bool) then
    do! tzoom rproof_pmmr set_rproof_pmmr (fun p =>
          txhashset_err (Pmmr.prune (BE := rproof_backend) p pos)) then tret tt
  else tfail (AlreadySpent (in_commit input)).

Definition apply_output_indexed (out : Output) : trans Extension chain_error () :=
  let! pos := apply_output out in
  tzoom ext_batch set_batch (fun b => let? b := store_err (save_output_pos b (out_commit out) pos) in Ok (tt, b)).

Definition apply_block (b : Block) : trans Extension chain_error () :=
  do! apply_header (header b) then
  do! tfor apply_output_indexed (outputs (b_body b)) then
  do! tfor apply_input (inputs (b_body b)) then
  do! tfor apply_kernel (kernels (b_body b)) then
  tmodify (set_header (header b)).

Definition get_header_by_height (e : Extension) (height : Z) : outcome chain_error BlockHeader :=
  header_at (header_pmmr e) (ext_batch e) height.
Definition is_on_current_chain (e : Extension) (header : BlockHeader) : outcome chain_error () :=
  on_current_chain (header_pmmr e) (ext_batch e) header.

Definition ext_merkle_proof (e : Extension) (output : OutputIdentifier) : outcome chain_error (MerkleProof Hash) :=
  let? pos := store_err (get_output_pos (ext_batch e) (id_commit output)) in
  txhashset_err (Pmmr.merkle_proof (IH := output_index) (BE := output_backend) (output_pmmr e) pos).

Definition rewind_to_pos (header_pos output_pos kernel_pos : Z) (rewind_rm_pos : gset Z)
    : trans Extension chain_error () :=
  do! tzoom header_pmmr set_header_pmmr (fun p => txhashset_err (no_result
        (Pmmr.rewind (BE := header_backend) p header_pos ∅))) then
  do! tzoom output_pmmr set_output_pmmr (fun p => txhashset_err (no_result
        (Pmmr.rewind (BE := output_backend) p output_pos rewind_rm_pos))) then
  do! tzoom rproof_pmmr set_rproof_pmmr (fun p => txhashset_err (no_result
        (Pmmr.rewind (BE := rproof_backend) p output_pos rewind_rm_pos))) then
  tzoom kernel_pmmr set_kernel_pmmr (fun p => txhashset_err (no_result
        (Pmmr.rewind (BE := kernel_backend) p kernel_pos ∅))).

Definition rewind (header : BlockHeader) : trans Extension chain_error () :=
  let! head := tread (fun e => Ok (ext_header e)) in
  let! rewind_rm_pos := tzoom ext_batch set_batch (input_pos_to_rewind header head) in
  let header_pos := insertion_to_pmmr_index (height header +! 1) in
  do! rewind_to_pos header_pos (output_mmr_size header) (kernel_mmr_size header) rewind_rm_pos then
  tmodify (set_header header).

Definition roots (e : Extension) : outcome chain_error TxHashSetRoots :=
  roots_of (header_pmmr e) (output_pmmr e) (rproof_pmmr e) (kernel_pmmr e).
Definition header_root (e : Extension) : outcome chain_error Hash := header_root_of (header_pmmr e).

Definition sizes (e : Extension) : Z * Z * Z * Z :=
  (Pmmr.unpruned_size (header_pmmr e), Pmmr.unpruned_size (output_pmmr e),
   Pmmr.unpruned_size (rproof_pmmr e), Pmmr.unpruned_size (kernel_pmmr e)).

Definition validate_roots (e : Extension) : outcome chain_error () :=
  if height (ext_header e) =? 0 then Ok tt
  else
    let? roots := roots e in
    if decide (r_output_root roots <> output_root (ext_header e)
               \/ r_rproof_root roots <> range_proof_root (ext_header e)
               \/ r_kernel_root roots <> kernel_root (ext_header e))
    then Err InvalidRoot else Ok tt.

Definition validate_header_root (header : BlockHeader) (e : Extension) : outcome chain_error () :=
  if height header =? 0 then Ok tt
  else
    let? roots := roots e in
    if decide (r_header_root roots <> prev_root header) then Err InvalidRoot else Ok tt.

Definition validate_sizes (e : Extension) : outcome chain_error () :=
  if height (ext_header e) =? 0 then Ok tt
  else
    let '(header_mmr_size, output_size, rproof_mmr_size, kernel_size) := sizes e in
    let expected_header_mmr_size := insertion_to_pmmr_index (height (ext_header e) +! 2) -! 1 in
    if negb (header_mmr_size =? expected_header_mmr_size) then Err InvalidMMRSize
    else if negb (output_size =? output_mmr_size (ext_header e)) then Err InvalidMMRSize
    else if negb (kernel_size =? kernel_mmr_size (ext_header e)) then Err InvalidMMRSize
    else if negb (output_size =? rproof_mmr_size) then Err InvalidMMRSize
    else Ok tt.

Definition invalid_set {A} (m : outcome pmmr_error A) : outcome chain_error A := map_err (fun _ => InvalidTxHashSet) m.

Definition validate_mmrs (e : Extension) : outcome chain_error () :=
  try? invalid_set (Pmmr.validate (IH := header_index) (BE := header_backend) (header_pmmr e)) then
  try? invalid_set (Pmmr.validate (IH := output_index) (BE := output_backend) (output_pmmr e)) then
  try? invalid_set (Pmmr.validate (IH := rproof_index) (BE := rproof_backend) (rproof_pmmr e)) then
  invalid_set (Pmmr.validate (IH := kernel_index) (BE := kernel_backend) (kernel_pmmr e)).

Definition validate_kernel_sums (e : Extension) : outcome chain_error (Commitment * Commitment) :=
  let? genesis := get_header_by_height e 0 in
  let? overage := no_err (total_overage c (ext_header e) (kernel_mmr_size genesis >? 0)) in
  map_err ChainCommitted (verify_kernel_sums e overage (total_kernel_offset (ext_header e))).

Definition verify_kernel_signatures (e : Extension) : outcome chain_error () :=
  foldM (fun _ n =>
    if is_leaf n then
      let? k := ok_or (kernel_data (kernel_pmmr e) n) TxKernelNotFound in
      map_err ChainTransaction (kernel_verify (kernel k))
    else Ok tt) (seqZ 1 (Pmmr.unpruned_size (kernel_pmmr e) +! 1 - 1)) tt.

Definition rangeproof_batch : nat := 1000.

(** One iteration of [verify_rangeproofs]: a full batch is verified at once. *)
Definition rangeproof_step (e : Extension) (acc : list Commitment * list RangeProof) (pos : Z)
    : outcome chain_error (list Commitment * list RangeProof) :=
  match output_data (output_pmmr e) pos, rproof_data (rproof_pmmr e) pos with
  | None, _ => Err OutputNotFound
  | _, None => Err RangeproofNotFound
  | Some output, Some proof =>
      let commits := acc.1 ++ [id_commit output] in
      let proofs := acc.2 ++ [proof] in
      if (rangeproof_batch <=? length proofs)%nat then
        try? map_err ChainTransaction (batch_verify_proofs commits proofs) then Ok ([], [])
      else Ok (commits, proofs)
  end.

Definition verify_rangeproofs (e : Extension) : outcome chain_error () :=
  let? '(commits, proofs) :=
    foldM (rangeproof_step e) (Pmmr.leaf_pos_iter (BE := output_backend) (output_pmmr e)) ([], []) in
  if (0 <? length proofs)%nat
  then map_err ChainTransaction (batch_verify_proofs commits proofs)
  else Ok tt.

Definition validate (fast_validation : bool) (e : Extension) : outcome chain_error (Commitment * Commitment) :=
  try? validate_mmrs e then
  try? validate_roots e then
  try? validate_sizes e then
  if height (ext_header e) =? 0 then Ok (commit_to_zero_value, commit_to_zero_value)
  else
    let? '(output_sum, kernel_sum) := validate_kernel_sums e in
    try? (if negb fast_validation then
            try? verify_rangeproofs e then verify_kernel_signatures e
          else Ok tt) then
    Ok (output_sum, kernel_sum).

Definition rebuild_index : trans Extension chain_error () :=
  do! tzoom ext_batch set_batch (fun b => let? b := store_err (clear_output_pos b) in Ok (tt, b)) then
  let! leaves := tread (fun e => Ok (Pmmr.leaf_pos_iter (BE := output_backend) (output_pmmr e))) in
  tfor (fun pos e =>
    match output_data (output_pmmr e) pos with
    | Some out => tzoom ext_batch set_batch (fun b =>
        let? b := store_err (save_output_pos b (id_commit out) pos) in Ok (tt, b)) e
    | None => (Ok tt, e)
    end) leaves.

(** ** Units of work *)
Definition map_backend (f : PMMRBackend -> PMMRBackend) (h : PMMRHandle) : PMMRHandle :=
  mkHandle (f (h_backend h)) (h_last_pos h).

(** The backends an extension borrowed, back in their handles. *)
Definition returned (e : Extension) (t : TxHashSet) : TxHashSet :=
  mkTxHashSet (mkHandle (backend (header_pmmr e)) (h_last_pos (header_pmmr_h t))) (sync_pmmr_h t)
    (mkHandle (backend (output_pmmr e)) (h_last_pos (output_pmmr_h t)))
    (mkHandle (backend (rproof_pmmr e)) (h_last_pos (rproof_pmmr_h t)))
    (mkHandle (backend (kernel_pmmr e)) (h_last_pos (kernel_pmmr_h t))).

Definition discard_all (t : TxHashSet) : TxHashSet :=
  mkTxHashSet (map_backend discard (header_pmmr_h t)) (sync_pmmr_h t) (map_backend discard (output_pmmr_h t))
    (map_backend discard (rproof_pmmr_h t)) (map_backend discard (kernel_pmmr_h t)).

Definition extending_readonly {A} (commit_index : Store) (inner : trans Extension chain_error A)
    : trans TxHashSet chain_error A := fun t =>
  let b := batch commit_index in
  match store_err (head_header c min_date max_date b) with
  | Ok header =>
      let '(res, e) := tbind force_rollback (fun _ => inner) (new_extension t b header) in
      (res, discard_all (returned e t))
  | Err err => (Err err, t)
  | Panic => (Panic, t)
  end.

(** [sync] of one backend; an I/O error of it leaves the function. *)
Definition sync_handle (h : PMMRHandle) : outcome chain_error (() * PMMRHandle) :=
  let? b := map_err (fun _ => TxHashSetErr) (sync (h_backend h)) in Ok (tt, mkHandle b (h_last_pos h)).

Definition on_header_h (h : PMMRHandle) (s : TxHashSet * Batch) : TxHashSet * Batch :=
  let t := s.1 in
  (mkTxHashSet h (sync_pmmr_h t) (output_pmmr_h t) (rproof_pmmr_h t) (kernel_pmmr_h t), s.2).
Definition on_sync_h (h : PMMRHandle) (s : TxHashSet * Batch) : TxHashSet * Batch :=
  let t := s.1 in
  (mkTxHashSet (header_pmmr_h t) h (output_pmmr_h t) (rproof_pmmr_h t) (kernel_pmmr_h t), s.2).
Definition on_output_h (h : PMMRHandle) (s : TxHashSet * Batch) : TxHashSet * Batch :=
  let t := s.1 in
  (mkTxHashSet (header_pmmr_h t) (sync_pmmr_h t) h (rproof_pmmr_h t) (kernel_pmmr_h t), s.2).
Definition on_rproof_h (h : PMMRHandle) (s : TxHashSet * Batch) : TxHashSet * Batch :=
  let t := s.1 in
  (mkTxHashSet (header_pmmr_h t) (sync_pmmr_h t) (output_pmmr_h t) h (kernel_pmmr_h t), s.2).
Definition on_kernel_h (h : PMMRHandle) (s : TxHashSet * Batch) : TxHashSet * Batch :=
  let t := s.1 in
  (mkTxHashSet (header_pmmr_h t) (sync_pmmr_h t) (output_pmmr_h t) (rproof_pmmr_h t) h, s.2).

Definition set_last_pos (n : Z * Z * Z * Z) (s : TxHashSet * Batch) : TxHashSet * Batch :=
  let '(h, o, r, k) := n in
  let t := s.1 in
  (mkTxHashSet (mkHandle (h_backend (header_pmmr_h t)) h) (sync_pmmr_h t)
     (mkHandle (h_backend (output_pmmr_h t)) o) (mkHandle (h_backend (rproof_pmmr_h t)) r)
     (mkHandle (h_backend (kernel_pmmr_h t)) k), s.2).

(** The commit of a unit of work: the child batch first, then the files. *)
Definition commit_extension (child : Batch) (n : Z * Z * Z * Z) : trans (TxHashSet * Batch) chain_error () :=
  do! tmodify (fun s => (s.1, commit_child s.2 child)) then
  do! tzoom (fun s => header_pmmr_h s.1) on_header_h sync_handle then
  do! tzoom (fun s => output_pmmr_h s.1) on_output_h sync_handle then
  do! tzoom (fun s => rproof_pmmr_h s.1) on_rproof_h sync_handle then
  do! tzoom (fun s => kernel_pmmr_h s.1) on_kernel_h sync_handle then
  tmodify (set_last_pos n).

Definition extending {A} (inner : trans Extension chain_error A) : trans (TxHashSet * Batch) chain_error A :=
  fun s =>
  let '(t, b) := s in
  match store_err (head_header c min_date max_date b) with
  | Ok header =>
      let '(res, e) := inner (new_extension t (child b) header) in
      match res with
      | Err err => (Err err, (discard_all (returned e t), b))
      | Ok r =>
          if rollback e then (Ok r, (discard_all (returned e t), b))
          else tbind (commit_extension (ext_batch e) (sizes e)) (fun _ => tret r) (returned e t, b)
      | Panic => (Panic, (returned e t, b))
      end
  | Err err => (Err err, s)
  | Panic => (Panic, s)
  end.

(** The two variants that extend one header range. *)
Definition range_extending {A} (part : TxHashSet * Batch -> PMMRHandle)
    (set : PMMRHandle -> TxHashSet * Batch -> TxHashSet * Batch)
    (head : Batch -> outcome store_error Tip) (inner : trans HeaderExtension chain_error A)
    : trans (TxHashSet * Batch) chain_error A := fun s =>
  let b := s.2 in
  match store_err (let? tip := head b in get_block_header c min_date max_date b (last_block_h tip)) with
  | Ok header =>
      let '(res, e) := inner (mkHeaderExtension header (backend_of (part s)) false (child b)) in
      let s := set (mkHandle (backend (hx_pmmr e)) (h_last_pos (part s))) s in
      match res with
      | Err err => (Err err, set (map_backend discard (part s)) s)
      | Ok r =>
          if hx_rollback e then (Ok r, set (map_backend discard (part s)) s)
          else
            tbind (tmodify (fun s => (s.1, commit_child s.2 (hx_batch e)))) (fun _ =>
            tbind (tzoom part set sync_handle) (fun _ =>
            tbind (tmodify (fun s => set (mkHandle (h_backend (part s)) (hx_size e)) s)) (fun _ =>
            tret r))) s
      | Panic => (Panic, s)
      end
  | Err err => (Err err, s)
  | Panic => (Panic, s)
  end.

Definition sync_extending {A} (inner : trans HeaderExtension chain_error A)
    : trans (TxHashSet * Batch) chain_error A :=
  range_extending (fun s => sync_pmmr_h s.1) on_sync_h get_sync_head inner.
Definition header_extending {A} (inner : trans HeaderExtension chain_error A)
    : trans (TxHashSet * Batch) chain_error A :=
  range_extending (fun s => header_pmmr_h s.1) on_header_h head inner.

(** Views that change nothing. *)
Definition with_utxo_view {A} (t : TxHashSet) (commit_index : Store) (inner : UTXOView -> outcome chain_error A)
    : outcome chain_error A :=
  inner (mkUTXOView (backend_of (output_pmmr_h t)) (backend_of (header_pmmr_h t)) (batch commit_index)).

Definition rewindable_kernel_view {A} (t : TxHashSet) (commit_index : Store)
    (inner : trans RewindableKernelView chain_error A) : outcome chain_error A :=
  let b := batch commit_index in
  let? header := store_err (head_header c min_date max_date b) in
  (inner (mkKernelView (backend_of (kernel_pmmr_h t)) b header)).1.

End TxHashSet.
