(* ===== verification/ProcessBlock.v ===== *)
(** * The block acceptance pipeline: blocks

    The rest of [chain/src/pipe.rs]: processing a full block and a run of headers
    against the transaction hash set, with the rewinding to a fork.  The state is the
    set with the batch of the context. *)
From S2P Require Import Prelude PmmrIndex Pmmr PruneList PmmrBackend Ser Global Pow Reward Retarget Feijoada Committed Transaction Block ChainStore Pipe TxHashSet.

Section ProcessBlock.
Context `{Hasher} `{Secp} (c : ChainTypes) (min_date max_date : Z).
Context (get_progpow_value : list Z -> Z -> Z -> Hash) (u256_from : Hash -> Z).
Context (config : PolicyConfig) (opts : Z) (pow_verifier : BlockHeader -> bool)
  (orphans : gset (list Z)) (now : Z).
Context (bitmap_serialize : gset Z -> list Z) (bitmap_deserialize : list Z -> gset Z).
Context (load_foundation_output : Z -> Output * TxKernel).

(** ** Forks *)

(** The loop both fork functions start with: back from [current] to the last header
    on the current chain, with the hashes of the headers left behind, latest last. *)
Fixpoint fork_point (fuel : nat) (b : Batch) (on_chain : BlockHeader -> outcome chain_error ())
    (current : BlockHeader) (fork_hashes : list Hash) : outcome chain_error (list Hash * BlockHeader) :=
  match fuel with
  | O => Panic
  | S fuel =>
      let step :=
        let? h := hash_of c current in
        let? prev := store_err (get_previous_header c min_date max_date b current) in
        fork_point fuel b on_chain prev (h :: fork_hashes) in
      if height current >? 0 then
        match on_chain current with
        | Ok _ => Ok (fork_hashes, current)
        | Err _ => step
        | Panic => Panic
        end
      else Ok (fork_hashes, current)
  end.

(** [fork_point] from the parent of a header. *)
Definition fork_of (b : Batch) (on_chain : BlockHeader -> outcome chain_error ()) (h : BlockHeader)
    : outcome chain_error (list Hash * BlockHeader) :=
  let? current := store_err (get_previous_header c min_date max_date b h) in
  fork_point (chain_fuel current) b on_chain current [].

Definition rewind_and_apply_header_fork (header : BlockHeader) : trans HeaderExtension chain_error () :=
  let! fork := tread (fun e => fork_of (hx_batch e) (hx_is_on_current_chain c min_date max_date e) header) in
  let '(fork_hashes, forked_header) := fork in
  do! hx_rewind c forked_header then
  tfor (fun h =>
    let! header := tread (fun e => store_err (get_block_header c min_date max_date (hx_batch e) h)) in
    do! hx_apply_header c header then tret tt) fork_hashes.

Definition verify_coinbase_maturity (block : Block) (e : Extension) : outcome chain_error () :=
  view_coinbase_maturity c min_date max_date (utxo_view e) (inputs (b_body block)) (height (header block)).

Definition validate_utxo (block : Block) (e : Extension) : outcome chain_error () :=
  view_validate_block (utxo_view e) block.

Definition ext_verify_block_sums (block : Block) : trans Extension chain_error () :=
  tzoom ext_batch set_batch (fun b => let? b := verify_block_sums c min_date max_date b block in Ok (tt, b)).

Definition apply_block_to_txhashset (block : Block) : trans Extension chain_error () :=
  do! tread (validate_header_root c (header block)) then
  do! apply_block c block then
  do! tread (validate_roots c) then
  tread validate_sizes.

(** The steps a block goes through on the extension, on a fork or at the head. *)
Definition apply_checked (block : Block) : trans Extension chain_error () :=
  do! tread (verify_coinbase_maturity block) then
  do! tread (validate_utxo block) then
  do! ext_verify_block_sums block then
  apply_block_to_txhashset block.

Definition rewind_and_apply_fork (b : Block) : trans Extension chain_error () :=
  let! fork := tread (fun e => fork_of (ext_batch e) (is_on_current_chain c min_date max_date e) (header b)) in
  let '(fork_hashes, forked_header) := fork in
  do! TxHashSet.rewind c min_date max_date bitmap_serialize bitmap_deserialize forked_header then
  tfor (fun h =>
    let! fb := tread (fun e => store_err (get_block c min_date max_date (ext_batch e) h)) in
    apply_checked fb) fork_hashes.

(** ** The context: the set and the batch *)
Definition ctx_batch {A} (f : Batch -> outcome chain_error (A * Batch)) : trans (TxHashSet * Batch) chain_error A :=
  tzoom snd (fun b s => (s.1, b)) f.
Definition ctx_put (f : Batch -> outcome chain_error Batch) : trans (TxHashSet * Batch) chain_error () :=
  ctx_batch (fun b => let? b := f b in Ok (tt, b)).
Definition ctx_validate_header (h : BlockHeader) : trans (TxHashSet * Batch) chain_error () :=
  tread (fun s => validate_header c min_date max_date get_progpow_value u256_from config opts pow_verifier
                    now s.2 h).

Definition process_header_for_block (header : BlockHeader) (is_fork : bool)
    : trans (TxHashSet * Batch) chain_error () :=
  do! header_extending c min_date max_date (
        do! hx_force_rollback then
        do! (if is_fork then rewind_and_apply_header_fork header else tret tt) then
        do! tread (hx_validate_root c header) then
        do! hx_apply_header c header then tret tt) then
  do! ctx_validate_header header then
  do! ctx_put (fun b => add_block_header c b header) then
  do! ctx_batch (fun b => update_header_head c b header) then
  tret tt.

(** The unit of work of [process_block]. *)
Definition block_work (b : Block) (is_fork : bool) : trans Extension chain_error () :=
  do! (if is_fork then rewind_and_apply_fork b else tret tt) then
  do! apply_checked b then
  let! head := tread (fun e => store_err (head (ext_batch e))) in
  if negb (has_more_work (header b) head) then force_rollback else tret tt.

Definition process_block (b : Block) : trans (TxHashSet * Batch) chain_error (option Tip) :=
  do! tread (fun s => check_known c orphans s.2 b) then
  let! head := tread (fun s => store_err (head s.2)) in
  let is_next := bool_decide (prev_hash (header b) = last_block_h head) in
  do! tread (fun s =>
    let? prev := prev_header_store c min_date max_date s.2 (header b) in
    if negb is_next then
      let? prev_h := hash_of c prev in
      let? known := store_err (block_exists s.2 prev_h) in
      if known then Ok tt else Err Orphan
    else Ok tt) then
  let is_fork := negb is_next in
  do! process_header_for_block (header b) is_fork then
  do! tread (fun s => validate_block c min_date max_date load_foundation_output s.2 b) then
  do! extending c min_date max_date (block_work b is_fork) then
  do! ctx_put (fun bt => add_block c bitmap_serialize bt b) then
  do! ctx_put (fun bt => match tail bt with
                         | Ok _ => Ok bt
                         | Err _ => update_body_tail c bt (header b)
                         | Panic => Panic
                         end) then
  ctx_batch (fun bt => update_head c bt b).

(** ** Header sync *)
Definition sync_work (prev_header : BlockHeader) (headers : list BlockHeader) : trans HeaderExtension chain_error () :=
  do! hx_rewind c prev_header then
  tfor (fun header =>
    do! tread (hx_validate_root c header) then
    do! hx_apply_header c header then
    tzoom hx_batch hx_set_batch (fun b => let? b := add_block_header c b header in Ok (tt, b))) headers.

Definition sync_block_headers (headers : list BlockHeader) : trans (TxHashSet * Batch) chain_error (option Tip) :=
  match headers, last headers with
  | first_header :: _, Some last_header =>
      do! tread (fun _ => foldM (fun _ h => check_bad_header c h) headers tt) then
      let! all_known := tread (fun s =>
        let? last_h := hash_of c last_header in
        match get_block_header c min_date max_date s.2 last_h with
        | Ok _ => Ok true
        | Err _ => Ok false
        | Panic => Panic
        end) in
      do! (if negb all_known then
             let! prev_header := tread (fun s => store_err (get_previous_header c min_date max_date s.2 first_header)) in
             do! sync_extending c min_date max_date (sync_work prev_header headers) then
             tfor ctx_validate_header headers
           else tret tt) then
      do! ctx_put (fun b => update_sync_head c b last_header) then
      ctx_batch (fun b => update_header_head c b last_header)
  | _, _ => tret None
  end.

End ProcessBlock.
