(* ===== verification/ChainFacade.v ===== *)
(** * The chain facade

    [chain/src/chain.rs]: the store, the transaction hash set and the orphans of a node
    behind one object, as module [Chain].  The locks serialize the operations, so each is
    a function of the state; the clock is read once per operation.  The calls of the
    adapter are a log.  The archive of a fast sync is what it opens to. *)
From S2P Require Import Prelude PmmrIndex Pmmr PruneList PmmrBackend Ser Global Pow Reward Retarget Feijoada Committed Transaction Block ChainStore Pipe TxHashSet ProcessBlock Orphans.

Inductive BlockStatus : Type := Next | Fork | Reorg.
#[export] Instance block_status_eq_dec : EqDecision BlockStatus.
Proof. solve_decision. Defined.

Module Chain.

(** A call of [block_accepted], with the chain as the adapter sees it then. *)
Record notice := mkNotice {
  n_block : Block;
  n_status : BlockStatus;
  n_opts : Z;
  n_store : Store;
  n_txhashset : TxHashSet
}.

Record Chain := mkChain {
  store : Store;
  txhashset : TxHashSet;
  orphans : OrphanBlockPool;
  archive_mode : bool;
  genesis : BlockHeader;
  notices : list notice
}.

Definition set_store (x : Store) (s : Chain) : Chain :=
  mkChain x (txhashset s) (orphans s) (archive_mode s) (genesis s) (notices s).
Definition set_txhashset (t : TxHashSet) (s : Chain) : Chain :=
  mkChain (store s) t (orphans s) (archive_mode s) (genesis s) (notices s).
Definition set_orphans (p : OrphanBlockPool) (s : Chain) : Chain :=
  mkChain (store s) (txhashset s) p (archive_mode s) (genesis s) (notices s).
Definition block_accepted (b : Block) (status : BlockStatus) (opts : Z) (s : Chain) : Chain :=
  mkChain (store s) (txhashset s) (orphans s) (archive_mode s) (genesis s)
    (notices s ++ [mkNotice b status opts (store s) (txhashset s)]).

(** A store outside a batch. *)
Definition view (s : Chain) : Batch := batch (store s).

(** Work on the set that leaves the store alone, and work on both with a batch that is
    committed when the work succeeds. *)
Definition on_set {A} (m : Store -> trans TxHashSet chain_error A) : trans Chain chain_error A := fun s =>
  let '(r, t) := m (store s) (txhashset s) in (r, set_txhashset t s).
Definition in_batch {A} (m : trans (TxHashSet * Batch) chain_error A) : trans Chain chain_error A := fun s =>
  let '(r, (t, bt)) := m (txhashset s, view s) in
  let s := set_txhashset t s in
  (r, if is_ok r then set_store (commit bt) s else s).

(** ** Reading *)
Definition head (s : Chain) : outcome chain_error Tip := store_err (ChainStore.head (view s)).
Definition tail (s : Chain) : outcome chain_error Tip := store_err (ChainStore.tail (view s)).
Definition header_head (s : Chain) : outcome chain_error Tip := store_err (ChainStore.header_head (view s)).
Definition get_sync_head (s : Chain) : outcome chain_error Tip := store_err (ChainStore.get_sync_head (view s)).
Definition get_block_sums (s : Chain) (h : Hash) : outcome chain_error BlockSums :=
  store_err (ChainStore.get_block_sums (view s) h).
Definition block_exists (s : Chain) (h : Hash) : outcome chain_error bool :=
  store_err (ChainStore.block_exists (view s) h).
Definition is_orphan (s : Chain) (hash : Hash) : bool := orphan_contains (orphans s) hash.
Definition orphans_evicted_len (s : Chain) : Z := len_evicted (orphans s).
Definition orphans_len (s : Chain) : Z := orphan_len (orphans s).

Definition log_heads (s : Chain) : outcome chain_error () :=
  let? _head := store_err (ChainStore.head (view s)) in
  let? _header_head := store_err (ChainStore.header_head (view s)) in
  let? _sync_head := store_err (ChainStore.get_sync_head (view s)) in
  Ok tt.

Definition reset_sync_head : trans Chain chain_error Tip :=
  in_batch (ctx_batch (fun b =>
    let? b := store_err (ChainStore.reset_sync_head b) in
    let? head := store_err (ChainStore.get_sync_head b) in
    Ok (head, b))).

Section Chain.
Context `{Hasher} `{Secp} (c : ChainTypes) (min_date max_date : Z).
Context (get_progpow_value : list Z -> Z -> Z -> Hash) (u256_from : Hash -> Z).
Context (config : PolicyConfig) (pow_verifier : BlockHeader -> bool) (now : Z).
Context (bitmap_serialize : gset Z -> list Z) (bitmap_deserialize : list Z -> gset Z).
Context (load_foundation_output : Z -> Output * TxKernel).

Definition head_header (s : Chain) : outcome chain_error BlockHeader :=
  store_err (ChainStore.head_header c min_date max_date (view s)).
Definition get_block (s : Chain) (h : Hash) : outcome chain_error Block :=
  store_err (ChainStore.get_block c min_date max_date (view s) h).
Definition get_block_header (s : Chain) (h : Hash) : outcome chain_error BlockHeader :=
  store_err (ChainStore.get_block_header c min_date max_date (view s) h).
Definition get_previous_header (s : Chain) (header : BlockHeader) : outcome chain_error BlockHeader :=
  store_err (ChainStore.get_previous_header c min_date max_date (view s) header).
Definition get_header_hash_by_height (s : Chain) (height : Z) : outcome chain_error Hash :=
  TxHashSet.get_header_hash_by_height c (txhashset s) height.
Definition get_header_by_height (s : Chain) (height : Z) : outcome chain_error BlockHeader :=
  let? hash := get_header_hash_by_height s height in get_block_header s hash.

Definition is_on_current_chain (s : Chain) (header : BlockHeader) : outcome chain_error () :=
  let? chain_header := get_header_by_height s (height header) in
  let? chain_hash := hash_of c chain_header in
  let? hash := hash_of c header in
  if decide (chain_hash = hash) then Ok tt else Err ChainOther.

Definition is_unspent (s : Chain) (output_ref : OutputIdentifier) : outcome chain_error Hash :=
  let? '(h, _) := TxHashSet.is_unspent (txhashset s) (store s) output_ref in Ok h.

Definition validate_tx (s : Chain) (tx : Transaction) : outcome chain_error () :=
  with_utxo_view (txhashset s) (store s) (fun utxo => view_validate_tx utxo tx).

Definition next_block_height (s : Chain) : outcome chain_error Z :=
  let? bh := head_header s in Ok (height bh +! 1).

Definition verify_coinbase_maturity (s : Chain) (tx : Transaction) : outcome chain_error () :=
  let? height := next_block_height s in
  with_utxo_view (txhashset s) (store s) (fun utxo =>
    view_coinbase_maturity c min_date max_date utxo (inputs (body tx)) height).

Definition verify_tx_lock_height (s : Chain) (tx : Transaction) : outcome chain_error () :=
  let? height := next_block_height s in
  if body_lock_height (body tx) <=? height then Ok tt else Err TxLockHeight.

(** ** Processing blocks *)
Definition determine_status (head : option Tip) (prev_head : Tip) : BlockStatus :=
  let is_more_work := bool_decide (is_Some head) in
  let is_next_block := match head with
                       | Some head => bool_decide (prev_block_h head = last_block_h prev_head)
                       | None => false
                       end in
  match is_more_work, is_next_block with
  | true, true => Next
  | true, false => Reorg
  | false, _ => Fork
  end.

Definition pipe_process_block (opts : Z) (pool : OrphanBlockPool) (b : Block)
    : trans (TxHashSet * Batch) chain_error (option Tip) :=
  ProcessBlock.process_block c min_date max_date get_progpow_value u256_from config opts pow_verifier
    (dom (Orphans.orphans pool)) now bitmap_serialize bitmap_deserialize load_foundation_output b.

Definition is_unfit (e : chain_error) : bool :=
  match e with
  | UnfitHeaderKnown | UnfitKnownHead | UnfitKnownOrphans | UnfitKnownStore => true
  | _ => false
  end.

Definition process_block_single (b : Block) (opts : Z) : trans Chain chain_error (option Tip) :=
  let! prev_head := tread (fun s => store_err (ChainStore.head (view s))) in
  fun s =>
  match in_batch (pipe_process_block opts (orphans s) b) s with
  | (Ok head, s) => (Ok head, block_accepted b (determine_status head prev_head) opts s)
  | (Err e, s) =>
      match e with
      | Pipe.Orphan =>
          match orphan_add c now (mkOrphan b opts now) (orphans s) with
          | Ok pool => (Err Pipe.Orphan, set_orphans pool s)
          | Err err => (Err err, s)
          | Panic => (Panic, s)
          end
      | _ => (Err (if is_unfit e then e else ChainOther), s)
      end
  | (Panic, s) => (Panic, s)
  end.

(** The orphans of one height in turn: the height of the last one accepted. *)
Fixpoint try_orphans (l : list Orphan) (height_accepted : option Z) : trans Chain chain_error (option Z) :=
  match l with
  | [] => tret height_accepted
  | o :: l => fun s =>
      match process_block_single (o_block o) (o_opts o) s with
      | (Ok _, s) => try_orphans l (Some (height (header (o_block o)))) s
      | (Err _, s) => try_orphans l height_accepted s
      | (Panic, s) => (Panic, s)
      end
  end.

Fixpoint orphan_loop (fuel : nat) (height : Z) : trans Chain chain_error () := fun s =>
  match fuel with
  | O => (Panic, s)
  | S fuel =>
      let '(r, pool) := remove_by_height (orphans s) height in
      match r with
      | Some l =>
          tbind (try_orphans l None) (fun accepted =>
            match accepted with
            | Some height_accepted => orphan_loop fuel (height_accepted +! 1)
            | None => tret tt
            end) (set_orphans pool s)
      | None => (Ok tt, set_orphans pool s)
      end
  end.

(** One round more than there are heights in the index. *)
Definition check_orphans (height : Z) : trans Chain chain_error () := fun s =>
  orphan_loop (S (size (height_idx (orphans s)))) height s.

Definition process_block (b : Block) (opts : Z) : trans Chain chain_error (option Tip) :=
  let! res := process_block_single b opts in
  do! check_orphans (height (header b) +! 1) then
  tret res.

(** The batch is dropped: only reads. *)
Definition process_block_header (bh : BlockHeader) (opts : Z) (s : Chain) : outcome chain_error () :=
  Pipe.process_block_header c min_date max_date get_progpow_value u256_from config opts pow_verifier now (view s) bh.

Definition sync_block_headers (headers : list BlockHeader) (opts : Z) : trans Chain chain_error () :=
  do! in_batch (ProcessBlock.sync_block_headers c min_date max_date get_progpow_value u256_from config opts
                  pow_verifier now headers) then
  tret tt.

(** ** Units of work on the set *)
#[local] Abbreviation readonly inner := (on_set (fun st => extending_readonly c min_date max_date st inner)).
#[local] Abbreviation rewind := (TxHashSet.rewind c min_date max_date bitmap_serialize bitmap_deserialize).

Definition validate (fast_validation : bool) : trans Chain chain_error () :=
  let! header := tread (fun s => store_err (ChainStore.head_header c min_date max_date (view s))) in
  if height header =? 0 then tret tt
  else readonly (
    do! rewind header then
    do! tread (TxHashSet.validate c min_date max_date fast_validation) then
    tret tt).

(** The header root before a block, the roots and the sizes after it. *)
Definition roots_after (b : Block) : trans Extension chain_error (Hash * TxHashSetRoots * (Z * Z * Z * Z)) :=
  let! prev_root := tread (header_root c) in
  do! apply_block c b then
  let! roots := tread (roots c) in
  let! sizes := tread (fun e => Ok (sizes e)) in
  tret (prev_root, roots, sizes).

Definition with_roots (b : Block) (r : Hash * TxHashSetRoots * (Z * Z * Z * Z)) : Block :=
  let '(prev_root, roots, (_, output_mmr_size, _, kernel_mmr_size)) := r in
  let h := header b in
  mkBlock (mkBlockHeader (version h) (height h) (prev_hash h) prev_root (h_timestamp h)
             (r_output_root roots) (r_rproof_root roots) (r_kernel_root roots) (total_kernel_offset h)
             output_mmr_size kernel_mmr_size (pow h) (policy h) (bottles h)) (b_body b).

Definition set_txhashset_roots (b : Block) : trans Chain chain_error Block :=
  let! r := readonly (roots_after b) in tret (with_roots b r).

Definition set_txhashset_roots_forked (b : Block) (prev : BlockHeader) : trans Chain chain_error Block :=
  let! prev_h := tread (fun _ => hash_of c prev) in
  let! prev_block := tread (fun s => get_block s prev_h) in
  let! r := readonly (
    do! rewind_and_apply_fork c min_date max_date bitmap_serialize bitmap_deserialize prev_block then
    do! apply_block c prev_block then
    roots_after b) in
  tret (with_roots b r).

Definition get_merkle_proof (output : OutputIdentifier) (block_header : BlockHeader)
    : trans Chain chain_error (MerkleProof Hash) :=
  readonly (
    do! rewind block_header then
    tread (fun e => ext_merkle_proof e output)).

Definition get_merkle_proof_for_pos (s : Chain) (commit : Commitment) : outcome chain_error (MerkleProof Hash) :=
  set_merkle_proof (txhashset s) (store s) commit.

Definition get_txhashset_roots (s : Chain) : outcome chain_error TxHashSetRoots := set_roots c (txhashset s).

(** The kernel root of every header from [current] back, each on the range cut to the
    size the header gives. *)
Fixpoint kernel_history (fuel : nat) (current : BlockHeader) : trans RewindableKernelView chain_error () :=
  match fuel with
  | O => fun v => (Panic, v)
  | S fuel =>
      if height current >? 0 then
        do! tmodify (kv_rewind current) then
        do! tread kv_validate_root then
        let! current := tread (fun v => store_err (ChainStore.get_previous_header c min_date max_date (kv_batch v) current)) in
        kernel_history fuel current
      else tret tt
  end.

Definition validate_kernel_history (header : BlockHeader) (t : TxHashSet) (st : Store) : outcome chain_error () :=
  rewindable_kernel_view c min_date max_date t st (kernel_history (chain_fuel header) header).

Definition rebuild_sync_mmr (head : Tip) : trans Chain chain_error () := fun s =>
  in_batch (sync_extending c min_date max_date (hx_rebuild c min_date max_date head (genesis s))) s.

(** On a set that is not yet the one of the chain. *)
Definition in_sandbox {A} (t : TxHashSet) (m : trans (TxHashSet * Batch) chain_error A)
    : trans Chain chain_error (A * TxHashSet) := fun s =>
  let '(r, (t, bt)) := m (t, view s) in
  match r with
  | Ok a => (Ok (a, t), set_store (commit bt) s)
  | Err e => (Err e, s)
  | Panic => (Panic, s)
  end.

Definition rebuild_header_mmr (head : Tip) (t : TxHashSet) : trans Chain chain_error TxHashSet := fun s =>
  (let! r := in_sandbox t (header_extending c min_date max_date (hx_rebuild c min_date max_date head (genesis s))) in
   tret r.2) s.

(** ** Fast sync *)

(** The [while let] loop: the height of the last header that is not on the chain of the
    blocks, and the hashes on the way when they are asked for. *)
Fixpoint not_on_chain (fuel : nat) (s : Chain) (body_head : Tip) (current : outcome chain_error BlockHeader)
    (oldest_height : Z) (hashes : option (list Hash)) : outcome chain_error (Z * option (list Hash)) :=
  match fuel with
  | O => Panic
  | S fuel =>
      match current with
      | Err _ => Ok (oldest_height, hashes)
      | Panic => Panic
      | Ok header =>
          let? common :=
            if height header <=? tip_height body_head then
              match is_on_current_chain s header with
              | Ok _ => Ok true
              | Err _ => Ok false
              | Panic => Panic
              end
            else Ok false in
          if (common : bool) then Ok (oldest_height, hashes)
          else
            let? oldest_hash := hash_of c header in
            not_on_chain fuel s body_head (get_previous_header s header) (height header)
              (option_map (fun hs => hs ++ [oldest_hash]) hashes)
      end
  end.

Definition check_txhashset_needed (s : Chain) (hashes : option (list Hash))
    : outcome chain_error (bool * option (list Hash)) :=
  let horizon := cut_through_horizon c in
  let? body_head := head s in
  let? header_head := header_head s in
  let? _sync_head := get_sync_head s in
  if decide (difficulty_cmp (tip_difficulty body_head) (tip_difficulty header_head) <> Lt) then Ok (false, hashes)
  else
    match get_block_header s (last_block_h header_head) with
    | Err _ => Ok (false, hashes)
    | Panic => Panic
    | Ok current =>
        let? '(oldest_height, hashes) := not_on_chain (S (chain_fuel current)) s body_head (Ok current) 0 hashes in
        Ok (oldest_height <? sat_sub (tip_height header_head) horizon, hashes)
    end.

(** What the archive opens to in the sandbox, and what the set opens to when its files
    have been moved in place. *)
Context (sandbox : BlockHeader -> outcome chain_error TxHashSet) (reopen : BlockHeader -> TxHashSet -> outcome chain_error TxHashSet).

(** The writeable rewind: validation, sums and index. *)
Definition write_work (header : BlockHeader) : trans Extension chain_error () :=
  do! rewind header then
  let! sums := tread (TxHashSet.validate c min_date max_date false) in
  do! tzoom ext_batch set_batch (fun b =>
        let? h := hash_of c header in
        let? b := store_err (save_block_sums b h (mkBlockSums sums.1 sums.2)) in Ok (tt, b)) then
  rebuild_index.

Definition txhashset_write (h : Hash) : trans Chain chain_error () :=
  let! needed := tread (fun s => check_txhashset_needed s None) in
  if negb needed.1 then tfail InvalidTxHashSet
  else
    let! header := tread (fun s => get_block_header s h) in
    let! t := tread (fun _ => sandbox header) in
    let! tip := tread (fun _ => tip_from_header c header) in
    let! t := rebuild_header_mmr tip t in
    do! tread (fun s => validate_kernel_history header t (store s)) then
    let! r := in_sandbox t (
      do! extending c min_date max_date (write_work header) then
      do! ctx_put (fun b => store_err (save_body_head b tip)) then
      ctx_put (fun b => store_err (save_body_tail b tip))) in
    let! t := tread (fun _ => reopen header (release_backend_files r.2)) in
    let! t := rebuild_header_mmr tip t in
    do! tmodify (set_txhashset t) then
    check_orphans (height header +! 1).

(** ** Compaction *)

(** A failed deletion is ignored. *)
Definition delete_old (tail : BlockHeader) (b : Batch) (e : list Z * Block) : outcome store_error Batch :=
  if height (header e.2) <? height tail then
    let? hash := hash_of c (header e.2) in ignore_err b (delete_block b hash)
  else Ok b.

Definition blocks_iter (b : Batch) : outcome store_error (list (list Z * Block)) :=
  ser_iter (read_block c min_date max_date) (committed b) (to_key BLOCK_PREFIX []).

Definition remove_historical_blocks (archive_mode : bool) (t : TxHashSet) (b : Batch) : outcome chain_error Batch :=
  if archive_mode then Ok b
  else
    let horizon := cut_through_horizon c in
    let? head := store_err (ChainStore.head b) in
    let cutoff := sat_sub (tip_height head) horizon in
    if cutoff =? 0 then Ok b
    else
      let? tail_hash := TxHashSet.get_header_hash_by_height c t (tip_height head -! horizon) in
      let? tail := store_err (ChainStore.get_block_header c min_date max_date b tail_hash) in
      let? blocks := store_err (blocks_iter b) in
      let? b := store_err (foldM (delete_old tail) blocks b) in
      let? tip := tip_from_header c tail in
      store_err (save_body_tail b tip).

Context (stream_hash : list Z -> option (Hash * list Z * Z))
  (stream_output : list Z -> option (OutputIdentifier * list Z * Z))
  (stream_rproof : list Z -> option (RangeProof * list Z * Z)).

Definition compacting (archive_mode : bool) : trans (TxHashSet * Batch) chain_error () :=
  do! tzoom id (fun s _ => s) (fun s =>
        let? s := TxHashSet.compact c min_date max_date bitmap_serialize bitmap_deserialize
                    stream_hash stream_output stream_rproof s.1 s.2 in Ok (tt, s)) then
  do! extending c min_date max_date (rebuild_index) then
  if negb archive_mode then
    fun s => ctx_put (remove_historical_blocks archive_mode s.1) s
  else tret tt.

(** Whether the chain has grown by 60 blocks beyond the horizon since the last time. *)
Definition too_early (s : Chain) : outcome chain_error bool :=
  match tail s, head s with
  | Panic, _ | _, Panic => Panic
  | Ok tail, Ok head =>
      let threshold := sat_add (cut_through_horizon c) 60 in
      Ok (sat_add (tip_height tail) threshold >? tip_height head)
  | _, _ => Ok false
  end.

Definition compact : trans Chain chain_error () :=
  let! early := tread too_early in
  if (early : bool) then tret tt else fun s => in_batch (compacting (archive_mode s)) s.

(** ** Outputs *)
Definition get_output_pos (s : Chain) (commit : Commitment) : outcome chain_error Z := set_output_position (store s) commit.
Definition get_last_n_output (s : Chain) (distance : Z) : list (Hash * OutputIdentifier) :=
  last_n_output (txhashset s) distance.
Definition get_last_n_rangeproof (s : Chain) (distance : Z) : list (Hash * RangeProof) :=
  last_n_rangeproof (txhashset s) distance.
Definition get_last_n_kernel (s : Chain) (distance : Z) : list (Hash * TxKernelEntry) :=
  last_n_kernel (txhashset s) distance.

Definition unspent_outputs_by_insertion_index (s : Chain) (start_index max : Z)
    : outcome chain_error (Z * Z * list Output) :=
  let max_index := highest_output_insertion_index (txhashset s) in
  let outputs := outputs_by_insertion_index (txhashset s) start_index max in
  let rangeproofs := rangeproofs_by_insertion_index (txhashset s) start_index max in
  if negb (outputs.1 =? rangeproofs.1) || negb (length outputs.2 =? length rangeproofs.2)%nat
  then Err TxHashSetErr
  else Ok (outputs.1, max_index,
           zip_with (fun x y => mkOutput (id_features x) (id_commit x) y) outputs.2 rangeproofs.2).

(** The search for the block that an output is in; out of fuel stands for not
    returning. *)
Fixpoint search_output (fuel : nat) (by_height : Z -> outcome chain_error BlockHeader) (pos min max : Z)
    : outcome chain_error BlockHeader :=
  match fuel with
  | O => Panic
  | S fuel =>
      let search_height := max -! (max -! min) / 2 in
      let? h := by_height search_height in
      if search_height =? 0 then Ok h
      else
        let? h_prev := by_height (search_height -! 1) in
        if pos >? output_mmr_size h then search_output fuel by_height pos search_height max
        else if pos <? output_mmr_size h_prev then search_output fuel by_height pos min search_height
        else if pos =? output_mmr_size h_prev then Ok h_prev
        else Ok h
  end.

(** 64 halvings, and the round that returns. *)
Definition search_fuel : nat := 65.

Definition get_header_for_output (s : Chain) (output_ref : OutputIdentifier) : outcome chain_error BlockHeader :=
  let? '(_, pos) := TxHashSet.is_unspent (txhashset s) (store s) output_ref in
  let? head := head s in
  search_output search_fuel (set_header_by_height c min_date max_date (txhashset s) (store s)) pos 0 (tip_height head).

(** ** Start *)

(** Back from the head in the store to the first block the files agree with. *)
Definition start_work (header : BlockHeader) : trans Extension chain_error () :=
  do! rewind header then
  do! tread (validate_roots c) then
  let! missing := tread (fun e =>
    if height header >? 0 then
      let? h := hash_of c header in
      match ChainStore.get_block_sums (ext_batch e) h with
      | Ok _ => Ok false
      | Err _ => Ok true
      | Panic => Panic
      end
    else Ok false) in
  if (missing : bool) then
    let! sums := tread (validate_kernel_sums c min_date max_date) in
    tzoom ext_batch set_batch (fun b =>
      let? h := hash_of c header in
      let? b := store_err (save_block_sums b h (mkBlockSums sums.1 sums.2)) in Ok (tt, b))
  else tret tt.

Definition rebuild_if_needed (genesis_header : BlockHeader) (head : Tip) : trans HeaderExtension chain_error () :=
  let! needs_rebuild := tread (fun e =>
    match hx_get_header_by_height c min_date max_date e (tip_height head) with
    | Ok header => let? h := hash_of c header in Ok (negb (bool_decide (h = last_block_h head)))
    | Err _ => Ok true
    | Panic => Panic
    end) in
  if (needs_rebuild : bool) then hx_rebuild c min_date max_date head genesis_header else tret tt.

Fixpoint revert_head (fuel : nat) (genesis_header : BlockHeader) (head : Tip)
    : trans (TxHashSet * Batch) chain_error () :=
  match fuel with
  | O => fun s => (Panic, s)
  | S fuel =>
      let! header := tread (fun s => store_err (ChainStore.get_block_header c min_date max_date s.2 (last_block_h head))) in
      do! header_extending c min_date max_date (rebuild_if_needed genesis_header head) then
      fun s =>
      match extending c min_date max_date (start_work header) s with
      | (Ok _, s) => (Ok tt, s)
      | (Err _, s) =>
          (let! prev_header := tread (fun s =>
             store_err (ChainStore.get_block_header c min_date max_date s.2 (prev_block_h head))) in
           do! ctx_put (fun b => let? h := hash_of c header in store_err (ignore_err b (delete_block b h))) then
           let! head := tread (fun _ => tip_from_header c prev_header) in
           do! ctx_put (fun b => store_err (save_head b head)) then
           revert_head fuel genesis_header head) s
      | (Panic, s) => (Panic, s)
      end
  end.

(** A store without a head takes the genesis block. *)
Definition save_genesis (g : Block) : trans (TxHashSet * Batch) chain_error () :=
  do! ctx_put (fun b => store_err (save_block_header c b (header g))) then
  do! ctx_put (fun b => store_err (save_block c bitmap_serialize b g)) then
  let! tip := tread (fun _ => tip_from_header c (header g)) in
  do! ctx_put (fun b => store_err (save_head b tip)) then
  let! sums := tread (fun _ =>
    if (0 <? length (kernels (b_body g)))%nat then
      let? overage := no_err (overage c (header g)) in
      let? '(utxo_sum, kernel_sum) :=
        map_err ChainCommitted
          (verify_kernel_sums (block_sums_default, g) overage (total_kernel_offset (header g))) in
      Ok (mkBlockSums utxo_sum kernel_sum)
    else Ok block_sums_default) in
  do! extending c min_date max_date (
        do! apply_block c g then
        do! tread (validate_roots c) then
        tread validate_sizes) then
  ctx_put (fun b => let? h := hash_of c (header g) in store_err (save_block_sums b h sums)).

(** The heads of the headers, made to agree with what is stored. *)
Definition reset_heads : trans (TxHashSet * Batch) chain_error () :=
  do! tread (fun s => store_err (ChainStore.head s.2)) then
  let! header_head := tread (fun s => store_err (ChainStore.header_head s.2)) in
  fun s =>
  match ChainStore.get_block_header c min_date max_date s.2 (last_block_h header_head) with
  | Ok _ => ctx_put (fun b => store_err (ChainStore.reset_sync_head b)) s
  | Err _ =>
      (do! ctx_put (fun b => store_err (reset_header_head b)) then
       ctx_put (fun b => store_err (ChainStore.reset_sync_head b))) s
  | Panic => (Panic, s)
  end.

Definition setup_head (g : Block) : trans (TxHashSet * Batch) chain_error () :=
  do! (fun s =>
    match ChainStore.head s.2 with
    | Ok head => revert_head (S (Z.to_nat (tip_height head))) (header g) head s
    | Err NotFoundErr => save_genesis g s
    | Err e => (Err (StoreErr e), s)
    | Panic => (Panic, s)
    end) then
  reset_heads.

(** The chain on a store and the set that [TxHashSet::open] gave. *)
Definition init (archive_mode : bool) (g : Block) (st : Store) (t : TxHashSet) : outcome chain_error Chain :=
  let s := mkChain st t orphan_pool_new archive_mode (header g) [] in
  match in_batch (setup_head g) s with
  | (Ok _, s) => let? _ := log_heads s in Ok s
  | (Err e, _) => Err e
  | (Panic, _) => Panic
  end.

End Chain.
End Chain.
