(* ===== verification/TxHashSetUndo.v ===== *)
(** * Units of work on the transaction hash set are atomic

    Everything an [Extension] can do is undone by the [discard] of its four backends,
    so [extending] leaves the set and the batch exactly as they were unless it
    commits. *)
From S2P Require Import Prelude PmmrIndex Pmmr AppendOnlyFile PruneList PmmrBackend PmmrData Ser Global Pow Reward Committed Transaction Block ChainStore Pipe TxHashSet.

(** ** What an extension keeps for [discard] *)
Definition ext_anchored (e : Extension) : Prop :=
  backend_anchored (backend (header_pmmr e)) /\ backend_anchored (backend (output_pmmr e)) /\
  backend_anchored (backend (rproof_pmmr e)) /\ backend_anchored (backend (kernel_pmmr e)).

Record ext_undo (e e' : Extension) : Prop := {
  undo_header : undoable (backend (header_pmmr e)) (backend (header_pmmr e'));
  undo_output : undoable (backend (output_pmmr e)) (backend (output_pmmr e'));
  undo_rproof : undoable (backend (rproof_pmmr e)) (backend (rproof_pmmr e'));
  undo_kernel : undoable (backend (kernel_pmmr e)) (backend (kernel_pmmr e'))
}.

#[export] Instance ext_undo_pre : PreOrder ext_undo.
Proof.
  split; [by constructor|]. intros x y z [] []. constructor; by etransitivity.
Qed.

Lemma ext_undo_anchored e e' : ext_undo e e' -> ext_anchored e -> ext_anchored e'.
Proof. intros [[_ ?] [_ ?] [_ ?] [_ ?]] (? & ? & ? & ?). by split_and!; auto. Qed.

(** A computation that [discard] undoes. *)
Definition undo_from (e e' : Extension) : Prop := ext_anchored e -> ext_undo e e'.

#[export] Instance undo_from_pre : PreOrder undo_from.
Proof.
  split; [by intros e|]. intros x y z H1 H2 Ha. etransitivity; [by apply H1|].
  apply H2. by eapply ext_undo_anchored; [apply H1|].
Qed.

Abbreviation undoes m := (tkeeps (E := chain_error) undo_from m).
Create HintDb undo discriminated.

(** Changes that touch no range. *)
Lemma undoes_tmodify (f : Extension -> Extension) :
  (forall e, header_pmmr (f e) = header_pmmr e /\ output_pmmr (f e) = output_pmmr e /\
             rproof_pmmr (f e) = rproof_pmmr e /\ kernel_pmmr (f e) = kernel_pmmr e) -> undoes (tmodify f).
Proof.
  intros Hf. apply tkeeps_tmodify. intros e _. destruct (Hf e) as (E1 & E2 & E3 & E4). constructor; by rewrite ?E1, ?E2, ?E3, ?E4.
Qed.

Lemma undoes_batch {A} (f : Batch -> outcome chain_error (A * Batch)) : undoes (tzoom ext_batch set_batch f).
Proof.
  apply (tkeeps_tzoom undo_from). by intros e a b.
Qed.

(** An operation on one range. *)
Lemma undoes_range {A} (part : Extension -> Range) set (f : Range -> outcome chain_error (A * Range)) :
  (forall e p, ext_anchored e -> undoable (backend (part e)) (backend p) -> ext_undo e (set p e)) ->
  (forall e a p, ext_anchored e -> f (part e) = Ok (a, p) -> undoable (backend (part e)) (backend p)) ->
  undoes (tzoom part set f).
Proof.
  intros Hset Hf. apply (tkeeps_tzoom undo_from). intros e a p Hp Ha. apply Hset; [done|]. by eapply Hf.
Qed.

Lemma set_header_undo e p : ext_anchored e -> undoable (backend (header_pmmr e)) (backend p) -> ext_undo e (set_header_pmmr p e).
Proof. by constructor. Qed.
Lemma set_output_undo e p : ext_anchored e -> undoable (backend (output_pmmr e)) (backend p) -> ext_undo e (set_output_pmmr p e).
Proof. by constructor. Qed.
Lemma set_rproof_undo e p : ext_anchored e -> undoable (backend (rproof_pmmr e)) (backend p) -> ext_undo e (set_rproof_pmmr p e).
Proof. by constructor. Qed.
Lemma set_kernel_undo e p : ext_anchored e -> undoable (backend (kernel_pmmr e)) (backend p) -> ext_undo e (set_kernel_pmmr p e).
Proof. by constructor. Qed.

#[export] Hint Resolve undoes_batch
  set_header_undo set_output_undo set_rproof_undo set_kernel_undo : undo.
#[export] Hint Extern 2 (tkeeps undo_from (tmodify _)) => (apply undoes_tmodify; by intros) : undo.
#[export] Hint Extern 2 (tkeeps undo_from force_rollback) => (apply undoes_tmodify; by intros) : undo.

Lemma txhashset_err_Ok {A} (m : outcome pmmr_error A) a : txhashset_err m = Ok a -> m = Ok a.
Proof. apply map_err_Ok_inv. Qed.

Lemma no_result_Ok {A} (m : outcome pmmr_error A) u a : no_result m = Ok (u, a) -> m = Ok a.
Proof. unfold no_result. intros He. apply bind_Ok_inv in He as (a' & -> & [= _ <-]). done. Qed.

Section Undo.
Context `{Hasher} `{Secp} (c : ChainTypes) (min_date max_date : Z).
Context (bitmap_serialize : gset Z -> list Z) (bitmap_deserialize : list Z -> gset Z).

Lemma apply_header_undoes h : undoes (apply_header c h).
Proof.
  unfold apply_header. keeps_seq; [|eauto with undo keeps..].
  apply undoes_range; [eauto with undo keeps|]. intros e a p _ Hp%txhashset_err_Ok. unfold push_header in Hp.
  apply bind_Ok_inv in Hp as (? & _ & Hp). by eapply push_undo.
Qed.

Lemma apply_kernel_undoes k : undoes (apply_kernel k).
Proof.
  unfold apply_kernel. keeps_seq; [|eauto with undo keeps..].
  apply undoes_range; [eauto with undo keeps|]. intros e a p _ Hp%txhashset_err_Ok. by eapply push_undo.
Qed.

Lemma apply_output_undoes o : undoes (apply_output_indexed o).
Proof.
  unfold apply_output_indexed, apply_output. keeps_seq; eauto with undo keeps.
  - apply undoes_range; [eauto with undo keeps|]. intros e z p _ Hp%txhashset_err_Ok. by eapply push_undo.
  - apply undoes_range; [eauto with undo keeps|]. intros e a' p _ Hp%txhashset_err_Ok. by eapply push_undo.
Qed.

Lemma apply_input_undoes i : undoes (apply_input i).
Proof.
  unfold apply_input. keeps_seq; eauto with undo keeps.
  - apply undoes_range; [eauto with undo keeps|]. intros e a' p _ Hp%txhashset_err_Ok. by eapply prune_undo.
  - case_match; [|eauto with undo keeps]. keeps_seq; [|eauto with undo keeps..].
    apply undoes_range; [eauto with undo keeps|]. intros e a' p _ Hp%txhashset_err_Ok. by eapply prune_undo.
Qed.
#[local] Hint Resolve apply_header_undoes apply_kernel_undoes apply_output_undoes apply_input_undoes : undo.

Lemma apply_block_undoes b : undoes (apply_block c b).
Proof. unfold apply_block. keeps_seq; eauto with undo keeps. Qed.

Lemma rewind_undoes h : undoes (TxHashSet.rewind c min_date max_date bitmap_serialize bitmap_deserialize h).
Proof.
  unfold TxHashSet.rewind, rewind_to_pos. keeps_seq; eauto with undo keeps;
    apply undoes_range; eauto with undo keeps; intros e u p (? & ? & ? & ?) Hp%txhashset_err_Ok%no_result_Ok;
    by eapply rewind_range_undo.
Qed.

Lemma rebuild_index_undoes : undoes rebuild_index.
Proof.
  unfold rebuild_index. keeps_seq; eauto with undo keeps.
  apply (tkeeps_tfor undo_from). intros pos e r e' He. destruct (output_data (output_pmmr e) pos).
  - by eapply undoes_batch.
  - by injection He as _ <-.
Qed.

(** ** [extending] *)
Definition handles_synced (t : TxHashSet) : Prop :=
  synced (h_backend (header_pmmr_h t)) /\ synced (h_backend (output_pmmr_h t)) /\
  synced (h_backend (rproof_pmmr_h t)) /\ synced (h_backend (kernel_pmmr_h t)).

Lemma discard_returned t b h e :
  handles_synced t -> ext_undo (new_extension t b h) e -> discard_all (returned e t) = t.
Proof.
  intros (S1 & S2 & S3 & S4) [[E1 _] [E2 _] [E3 _] [E4 _]]. unfold synced in *.
  cbn [new_extension header_pmmr output_pmmr rproof_pmmr kernel_pmmr backend_of at_ backend] in *.
  unfold discard_all, returned, map_backend.
  cbn [header_pmmr_h sync_pmmr_h output_pmmr_h rproof_pmmr_h kernel_pmmr_h h_backend h_last_pos].
  rewrite E1, E2, E3, E4, S1, S2, S3, S4.
  destruct t as [[] [] [] [] []]. done.
Qed.

Definition set_anchored (t : TxHashSet) : Prop :=
  backend_anchored (h_backend (header_pmmr_h t)) /\ backend_anchored (h_backend (output_pmmr_h t)) /\
  backend_anchored (h_backend (rproof_pmmr_h t)) /\ backend_anchored (h_backend (kernel_pmmr_h t)).

Lemma extending_spec {A} (inner : trans Extension chain_error A) t b header res e :
  undoes inner -> handles_synced t -> set_anchored t ->
  head_header c min_date max_date b = Ok header ->
  inner (new_extension t (child b) header) = (res, e) ->
  match res with
  | Err err => extending c min_date max_date inner (t, b) = (Err err, (t, b))
  | Ok r =>
      if rollback e then extending c min_date max_date inner (t, b) = (Ok r, (t, b))
      else forall hb ob rb kb,
        sync (backend (header_pmmr e)) = Ok hb -> sync (backend (output_pmmr e)) = Ok ob ->
        sync (backend (rproof_pmmr e)) = Ok rb -> sync (backend (kernel_pmmr e)) = Ok kb ->
        extending c min_date max_date inner (t, b) =
          (Ok r, (mkTxHashSet (mkHandle hb (last_pos (header_pmmr e))) (sync_pmmr_h t)
                    (mkHandle ob (last_pos (output_pmmr e))) (mkHandle rb (last_pos (rproof_pmmr e)))
                    (mkHandle kb (last_pos (kernel_pmmr e))),
                  mkBatch (committed b) (tx (ext_batch e))))
  | Panic => True
  end.
Proof.
  intros Hin Hs Ha Hh He. unfold extending. rewrite Hh. cbn [store_err map_err]. rewrite He.
  assert (ext_undo (new_extension t (child b) header) e) as Hu by (by eapply Hin).
  pose proof (discard_returned _ _ _ _ Hs Hu) as Hd. destruct res as [r|err|]; [|by rewrite Hd|done].
  destruct (rollback e); [by rewrite Hd|]. intros hb ob rb kb S1 S2 S3 S4.
  unfold commit_extension, tbind, tmodify, tzoom, sync_handle, sizes.
  cbn -[sync]. rewrite S1. cbn -[sync]. rewrite S2. cbn -[sync]. rewrite S3. cbn -[sync]. by rewrite S4.
Qed.

End Undo.
#[export] Hint Resolve apply_header_undoes apply_kernel_undoes apply_output_undoes apply_input_undoes
  apply_block_undoes rewind_undoes rebuild_index_undoes : undo.
