(* ===== verification/TxHashSetUtxo.v ===== *)
(** * The unspent outputs

    The output range, the range proof range, the leaf sets and the index of positions
    of an [Extension], together, are a set of unspent outputs: [utxo_state] relates
    them to the list of all outputs ever added and the positions still unspent, and
    the operations of [txhashset.rs] and [utxo_view.rs] act on that set. *)
From S2P Require Import Prelude PmmrIndex Pmmr PmmrRefine AppendOnlyFile PruneList PmmrBackend PmmrData Ser Global Pow Reward Committed Transaction CutThrough Block BlockTheory ChainStore ChainStoreTheory Pipe TxHashSet TxHashSetUndo.
Import Pos Node Spec Theorems.

(** ** The index *)
Lemma save_output_pos_spec b x pos :
  is_u64 pos ->
  exists b', save_output_pos b x pos = Ok b' /\ get_output_pos b' x = Ok pos /\
    (forall y, y <> x -> get_output_pos b' y = get_output_pos b y) /\ committed b' = committed b.
Proof.
  intros Hpos. eexists. split; [done|]. split_and!; [|intros y Hy|done].
  - eapply get_put_eq; [done|]. rewrite <- (app_nil_r (write_u64 pos)).
    apply reads_deserialize. by apply (reads_uint 8).
  - unfold get_output_pos. f_equal. eapply get_put_ne; [done|key_ne].
Qed.

(** A leaf position inside the range. *)
Lemma leaf_position n pos :
  0 <= n -> mmr_size n < 2 ^ 32 -> 1 <= pos <= mmr_size n -> is_leaf pos = true -> exists k, 0 <= k < n /\ pos = pos_of k 0.
Proof.
  intros Hn Hcap Hpos Hl. destruct (pos_of_surj pos ltac:(lia)) as (k & h & Hnode & ->).
  pose proof Hnode as (Hk & _). unfold is_leaf in Hl. rewrite height_pos in Hl by (done || lia).
  apply Z.eqb_eq in Hl as ->. exists k. split; [|done]. split; [done|].
  by apply (pos_of_in_range k 0 n); [| |lia].
Qed.

Lemma leaf_pos_inj a b : 0 <= a -> 0 <= b -> pos_of a 0 = pos_of b 0 -> a = b.
Proof.
  intros Ha Hb E. pose proof (leaf_pos_lt a b Ha Hb). pose proof (leaf_pos_lt b a Hb Ha). lia.
Qed.

Section Utxo.
Context `{Hasher} `{Secp}.
(** 675 bytes in the curve library. *)
Hypothesis MAX_PROOF_SIZE_small : Z.of_nat MAX_PROOF_SIZE <= 60000.

#[local] Abbreviation out_stored := (stored (IH := output_index) from_output write_output_id (deser read_output_id)).
#[local] Abbreviation rp_stored := (stored (IH := rproof_index) id write_range_proof (deser read_range_proof)).

Definition proof_full (p : RangeProof) : Prop := length (rp_proof p) = MAX_PROOF_SIZE /\ plen p = MAX_PROOF_SIZE.

Lemma len_output_id d : AppendOnlyFile.len (write_output_id d) = 34.
Proof.
  unfold write_output_id, AppendOnlyFile.len, write_array. rewrite length_app.
  destruct (array_bytes_ok (id_commit d)) as [-> _]. by destruct (id_features d).
Qed.

Lemma output_elmt_ok o : elmt_ok from_output write_output_id (deser read_output_id) o.
Proof.
  split; [rewrite len_output_id; done|]. unfold deser. rewrite <- (app_nil_r (write_output_id _)).
  rewrite (reads_deserialize read_output_id (write_output_id (from_output o)) (from_output o) []); [done|].
  destruct (from_output o) as [f x]. unfold read_output_id, write_output_id. cbn [id_features id_commit].
  eapply reads_bind; [apply reads_output_features|].
  apply (reads_map _ (fun x => mkOutputIdentifier f x)). by apply reads_array.
Qed.

Lemma len_range_proof p : proof_full p -> AppendOnlyFile.len (write_range_proof p) = RangeProof_LEN.
Proof.
  intros [Hl Hp]. unfold write_range_proof, write_bytes, AppendOnlyFile.len, write_u64, RangeProof_LEN.
  rewrite length_app, length_be_bytes, Hp, take_ge by lia. lia.
Qed.

Lemma rproof_elmt_ok p : proof_full p -> elmt_ok id write_range_proof (deser read_range_proof) p.
Proof.
  intros Hp. unfold elmt_ok, id. rewrite len_range_proof by done. split; [unfold RangeProof_LEN; lia|].
  unfold deser. rewrite <- (app_nil_r (write_range_proof _)).
  rewrite (reads_deserialize read_range_proof (write_range_proof p) p []); [done|].
  destruct Hp. apply reads_range_proof; [lia|done|done].
Qed.

(** ** The state *)
Definition unspent_of (e : Extension) : gset Z := unspent (backend (output_pmmr e)).

Record utxo_state (e : Extension) (os : list Output) : Prop := {
  us_output : out_stored (output_pmmr e) os;
  us_rproof : rp_stored (rproof_pmmr e) (out_proof <$> os);
  us_prunable : prunable (backend (output_pmmr e)) = true /\ prunable (backend (rproof_pmmr e)) = true;
  us_same : unspent (backend (rproof_pmmr e)) = unspent_of e;
  us_fits : (forall d, fits (data_file (backend (output_pmmr e))) (write_output_id d)) /\
            (forall p, proof_full p -> fits (data_file (backend (rproof_pmmr e))) (write_range_proof p));
  us_index : forall k o, os !! Z.to_nat k = Some o -> 0 <= k -> pos_of k 0 ∈ unspent_of e ->
    get_output_pos (ext_batch e) (out_commit o) = Ok (pos_of k 0);
  us_range : forall x pos, get_output_pos (ext_batch e) x = Ok pos -> 1 <= pos < 2 ^ 32 /\ is_leaf pos = true
}.

Lemma us_cap e os : utxo_state e os -> mmr_size (leaves os) < 2 ^ 32.
Proof. intros Hus. exact (st_cap _ _ _ _ _ (us_output _ _ Hus)). Qed.

(** The output at an unspent position. *)
Definition unspent_output (e : Extension) (os : list Output) (k : Z) (o : Output) : Prop :=
  0 <= k < leaves os /\ os !! Z.to_nat k = Some o /\ pos_of k 0 ∈ unspent_of e.

Lemma unspent_output_at e os pos :
  utxo_state e os -> pos ∈ unspent_of e -> exists k o, pos = pos_of k 0 /\ unspent_output e os k o.
Proof.
  intros Hus Hu. destruct (unspent_leaf _ _ _ _ _ (us_output _ _ Hus) pos Hu) as (k & o & Hk & -> & Ho).
  by exists k, o.
Qed.

(** What the data of a leaf position is. *)
Lemma output_data_at e os k o :
  utxo_state e os -> 0 <= k < leaves os -> os !! Z.to_nat k = Some o ->
  output_data (output_pmmr e) (pos_of k 0) =
    if decide (pos_of k 0 ∈ unspent_of e) then Some (from_output o) else None.
Proof.
  intros Hus Hk Ho. unfold output_data.
  etransitivity; [exact (get_data_stored _ _ _ _ _ (us_output _ _ Hus) k Hk)|].
  destruct (us_prunable _ _ Hus) as [Ep _]. rewrite Ho. unfold visible, unspent_of.
  repeat case_decide; try done; exfalso; tauto.
Qed.

Lemma output_hash_leaf e os k o :
  utxo_state e os -> 0 <= k < leaves os -> os !! Z.to_nat k = Some o ->
  output_hash_at (output_pmmr e) (pos_of k 0) =
    if decide (pos_of k 0 ∈ unspent_of e)
    then Some (hash_with_index (pos_of k 0 - 1) (write_output HashMode o)) else None.
Proof.
  intros Hus Hk Ho. unfold output_hash_at.
  destruct (get_hash_stored _ _ _ _ _ (us_output _ _ Hus) k o Hk Ho) as [E1 E2].
  etransitivity; [exact E1|]. etransitivity; [exact E2|].
  destruct (us_prunable _ _ Hus) as [Ep _]. unfold visible, unspent_of.
  repeat case_decide; try done; exfalso; tauto.
Qed.

(** Where the index points: an unspent output, a spent one, or past the end. *)
Lemma index_points e os x pos :
  utxo_state e os -> get_output_pos (ext_batch e) x = Ok pos ->
  (exists k o, pos = pos_of k 0 /\ 0 <= k < leaves os /\ os !! Z.to_nat k = Some o) \/
  (last_pos (output_pmmr e) < pos /\ pos ∉ unspent_of e).
Proof.
  intros Hus Hx. destruct (us_range _ _ Hus _ _ Hx) as [Hr Hl]. pose proof (us_cap _ _ Hus) as Hcap.
  destruct (st_size _ _ _ _ _ (us_output _ _ Hus)) as [_ Es]. rewrite Es.
  destruct (Z.le_gt_cases pos (mmr_size (leaves os))) as [Hle|Hgt].
  - left. destruct (leaf_position (leaves os) pos ltac:(unfold leaves; lia) Hcap ltac:(lia) Hl) as (k & Hk & ->).
    destruct (lookup_lt_is_Some_2 os (Z.to_nat k)) as [o Ho]; [unfold leaves in Hk; lia|]. by exists k, o.
  - right. split; [done|]. intros Hu. destruct (unspent_output_at _ _ _ Hus Hu) as (k & o & -> & Hk & _).
    pose proof (leaf_in_range os k Hk). lia.
Qed.

Definition commit_unspent (e : Extension) (os : list Output) (x : Commitment) : Prop :=
  exists k o, unspent_output e os k o /\ out_commit o = x.

(** The duplicate check is exact. *)
Lemma check_duplicate_spec e os x :
  utxo_state e os ->
  (commit_unspent e os x -> check_duplicate (ext_batch e) (output_pmmr e) x = Err (DuplicateCommitment x)) /\
  (~ commit_unspent e os x -> check_duplicate (ext_batch e) (output_pmmr e) x = Ok tt).
Proof.
  intros Hus. unfold check_duplicate. split.
  - intros (k & o & (Hk & Ho & Hu) & <-). rewrite (us_index _ _ Hus k o Ho ltac:(lia) Hu).
    rewrite (output_data_at e os k o Hus Hk Ho), decide_True by done. cbn [from_output id_commit].
    by rewrite decide_True.
  - intros Hn. pose proof (get_output_pos_no_panic (ext_batch e) x) as Hp.
    destruct (get_output_pos (ext_batch e) x) as [pos|err|] eqn:Hx; [|done|done].
    destruct (index_points e os x pos Hus Hx) as [(k & o & -> & Hk & Ho)|[Hpast _]].
    + rewrite (output_data_at e os k o Hus Hk Ho). case_decide as Hu; [|done]. cbn [from_output id_commit].
      case_decide as Hc; [|done]. exfalso. apply Hn. exists k, o. by split_and!.
    + by assert (output_data (output_pmmr e) pos = None) as -> by exact (proj1 (get_past _ _ _ _ pos Hpast)).
Qed.

(** What a step leaves alone. *)
Record ext_frame (e e' : Extension) : Prop := {
  fr_header : ext_header e' = ext_header e;
  fr_headers : header_pmmr e' = header_pmmr e;
  fr_kernels : kernel_pmmr e' = kernel_pmmr e;
  fr_rollback : rollback e' = rollback e;
  fr_store : forall A (rd : read A) key, (forall x, key <> to_key COMMIT_POS_PREFIX x) ->
    get_ser rd (ext_batch e') key = get_ser rd (ext_batch e) key
}.
#[export] Instance ext_frame_pre : PreOrder ext_frame.
Proof.
  split; [by constructor|]. intros x y z [? ? ? ? F1] [? ? ? ? F2]. constructor; try congruence.
  intros A rd key Hk. by rewrite F2, F1.
Qed.

(** Adding an output. *)
Lemma apply_output_ok e os o :
  utxo_state e os -> proof_full (out_proof o) -> mmr_size (leaves os + 1) < 2 ^ 32 ->
  ~ commit_unspent e os (out_commit o) ->
  exists e', apply_output_indexed o e = (Ok tt, e') /\ utxo_state e' (os ++ [o]) /\
    unspent_of e' = {[ pos_of (leaves os) 0 ]} ∪ unspent_of e /\ ext_frame e e'.
Proof.
  intros Hus Hp Hcap Hn. pose proof Hus as [Ho Hr [Ep1 Ep2] Hsm [Hf1 Hf2] Hix Hrg].
  assert (leaves (out_proof <$> os) = leaves os) as El by (unfold leaves; by rewrite length_fmap).
  destruct (push_stored _ _ _ _ os o Ho (output_elmt_ok o) (Hf1 _) Hcap) as (p1 & Hp1 & Hs1 & Hk1 & Hq1 & _ & Hu1).
  destruct (push_stored _ _ _ _ _ (out_proof o) Hr (rproof_elmt_ok _ Hp) (Hf2 _ Hp) ltac:(by rewrite El))
    as (p2 & Hp2 & Hs2 & Hk2 & Hq2 & _ & Hu2). rewrite El in Hp2, Hu2. rewrite Ep1 in Hu1, Hq1. rewrite Ep2 in Hu2, Hq2.
  assert (0 <= leaves os) as Hl0 by (unfold leaves; lia). pose proof (mmr_size_ge (leaves os) Hl0).
  pose proof (mmr_size_lt (leaves os) (leaves os + 1) ltac:(lia)).
  assert (is_u64 (pos_of (leaves os) 0)) as Hpu by (unfold is_u64, pos_of; lia).
  destruct (save_output_pos_spec (ext_batch e) (out_commit o) _ Hpu) as (b' & Hb & Hg & Hg' & _).
  exists (set_batch b' (set_rproof_pmmr p2 (set_output_pmmr p1 e))).
  assert (pos_of (leaves os) 0 ∉ unspent_of e) as Hfresh.
  { intros Hu. destruct (unspent_output_at _ _ _ Hus Hu) as (k & o' & E1 & Hk & _).
    pose proof (proj2 (leaf_pos_lt k (leaves os) ltac:(lia) ltac:(lia)) ltac:(lia)). lia. }
  split_and!.
  - unfold apply_output_indexed, apply_output, tbind, tread, tzoom, tret.
    rewrite (proj2 (check_duplicate_spec e os (out_commit o) Hus) Hn).
    assert (push_output (output_pmmr e) o = Ok (pos_of (leaves os) 0, p1)) as -> by exact Hp1.
    unfold txhashset_err. cbn [map_err rproof_pmmr set_output_pmmr output_pmmr].
    assert (push_rproof (rproof_pmmr e) (out_proof o) = Ok (pos_of (leaves os) 0, p2)) as -> by exact Hp2.
    cbn [map_err set_rproof_pmmr output_pmmr rproof_pmmr set_output_pmmr ext_batch].
    destruct (st_size _ _ _ _ _ Hs1) as [_ E1]. destruct (st_size _ _ _ _ _ Hs2) as [_ E2].
    unfold Pmmr.unpruned_size. rewrite E1, E2, !leaves_snoc, El, !Z.eqb_refl. cbn [negb].
    change (ext_batch (set_rproof_pmmr p2 (set_output_pmmr p1 e))) with (ext_batch e). by rewrite Hb.
  - constructor; cbn [set_batch set_rproof_pmmr set_output_pmmr output_pmmr rproof_pmmr ext_batch].
    + exact Hs1.
    + rewrite fmap_app. exact Hs2.
    + done.
    + unfold unspent_of. cbn [output_pmmr set_batch set_rproof_pmmr set_output_pmmr].
      rewrite Hu1, Hu2. unfold unspent_of in Hsm. by rewrite Hsm.
    + split; intros; [by apply Hk1, Hf1|by apply Hk2, Hf2].
    + unfold unspent_of. cbn [output_pmmr set_batch set_rproof_pmmr set_output_pmmr]. rewrite Hu1.
      intros k o' Hlo Hk [Ek%elem_of_singleton|Hu]%elem_of_union.
      * apply leaf_pos_inj in Ek as ->; [|done|done].
        unfold leaves in Hlo at 1. rewrite Nat2Z.id, list_lookup_middle in Hlo by done. by injection Hlo as <-.
      * destruct (unspent_output_at _ _ _ Hus Hu) as (k1 & o1 & E1 & (Hk1' & Ho1 & _)).
        apply leaf_pos_inj in E1 as ->; [|done|lia].
        rewrite lookup_app_l in Hlo by (by eapply lookup_lt_Some). rewrite Ho1 in Hlo. injection Hlo as <-.
        destruct (decide (out_commit o1 = out_commit o)) as [Ec|Nc].
        { exfalso. apply Hn. exists k1, o1. by split_and!. }
        rewrite Hg' by done. by apply Hix.
    + intros x pos Hx. destruct (decide (x = out_commit o)) as [->|Nx].
      * rewrite Hg in Hx. injection Hx as <-. split; [unfold pos_of; lia|]. unfold is_leaf.
        by rewrite height_pos by (apply is_node_leaf || unfold pos_of; lia).
      * rewrite Hg' in Hx by done. by apply (Hrg x).
  - unfold unspent_of. cbn [output_pmmr set_batch set_rproof_pmmr set_output_pmmr]. by rewrite Hu1.
  - constructor; try done. intros A rd key Hk. cbn [set_batch ext_batch].
    unfold save_output_pos in Hb. eapply get_put_ne; [exact Hb|]. intros E1. by apply (Hk (bytes (out_commit o))).
Qed.


(** Spending an output. *)
Definition input_matches (e : Extension) (os : list Output) (i : Input) (k : Z) (o : Output) : Prop :=
  unspent_output e os k o /\ get_output_pos (ext_batch e) (in_commit i) = Ok (pos_of k 0) /\
  hash_with_index (pos_of k 0 - 1) (write_output HashMode o) = hash_with_index (pos_of k 0 - 1) (write_input i).

Lemma pos_minus_one k : 0 <= k -> pos_of k 0 < 2 ^ 64 -> pos_of k 0 -! 1 = pos_of k 0 - 1.
Proof. intros Hk Hlt. pose proof (mmr_size_ge k Hk). apply u64_sub_small. unfold is_u64, pos_of in *. lia. Qed.

Lemma apply_input_ok e os i k o :
  utxo_state e os -> input_matches e os i k o ->
  exists e', apply_input i e = (Ok tt, e') /\ utxo_state e' os /\
    unspent_of e' = unspent_of e ∖ {[ pos_of k 0 ]} /\ ext_frame e e' /\ ext_batch e' = ext_batch e.
Proof.
  intros Hus ((Hk & Ho & Hu) & Hix & Hh). pose proof Hus as [Hso Hsr [Ep1 Ep2] Hsm [Hf1 Hf2] Hidx Hrg].
  pose proof (leaf_in_range os k Hk) as Hlr. pose proof (us_cap _ _ Hus) as Hcap.
  destruct (prune_stored _ _ _ _ _ _ Hso Ep1 Hu) as (p1 & Hp1 & Hs1 & Hd1 & Hq1 & _ & Hu1).
  destruct (prune_stored _ _ _ _ _ (pos_of k 0) Hsr Ep2 ltac:(by rewrite Hsm)) as (p2 & Hp2 & Hs2 & Hd2 & Hq2 & _ & Hu2).
  exists (set_rproof_pmmr p2 (set_output_pmmr p1 e)). split_and!.
  - unfold apply_input, tbind, tread, tzoom, tret, check_input. rewrite Hix, (output_hash_leaf e os k o) by done.
    rewrite decide_True by done. rewrite pos_minus_one, Hh by lia. rewrite decide_False by tauto.
    assert (Pmmr.prune (BE := output_backend) (output_pmmr e) (pos_of k 0) = Ok (true, p1)) as -> by exact Hp1.
    unfold txhashset_err. cbn [map_err rproof_pmmr set_output_pmmr].
    by assert (Pmmr.prune (BE := rproof_backend) (rproof_pmmr e) (pos_of k 0) = Ok (true, p2)) as -> by exact Hp2.
  - unfold unspent_of in *. constructor; cbn [set_rproof_pmmr set_output_pmmr output_pmmr rproof_pmmr ext_batch];
      unfold unspent_of; cbn [set_rproof_pmmr set_output_pmmr output_pmmr]; [exact Hs1|exact Hs2|done|congruence| | |done].
    + by rewrite Hd1, Hd2.
    + intros k' o' Ho' Hk'. rewrite Hu1. intros [Hin _]%elem_of_difference. by apply Hidx.
  - unfold unspent_of. cbn [set_rproof_pmmr set_output_pmmr output_pmmr]. exact Hu1.
  - by constructor.
  - done.
Qed.

(** An input that does not match an unspent output is refused, and nothing changes. *)
Lemma apply_input_refused e os i :
  utxo_state e os -> (forall k o, ~ input_matches e os i k o) ->
  exists err, apply_input i e = (Err err, e) /\ (err = AlreadySpent (in_commit i) \/ err = TxHashSetErr).
Proof.
  intros Hus Hn. pose proof (us_cap _ _ Hus) as Hcap. destruct (us_prunable _ _ Hus) as [Ep _].
  unfold apply_input, tbind, tread, check_input.
  pose proof (get_output_pos_no_panic (ext_batch e) (in_commit i)) as Hp.
  destruct (get_output_pos (ext_batch e) (in_commit i)) as [pos|err|] eqn:Hx; [|eauto|done].
  assert (pos ∉ unspent_of e -> tzoom output_pmmr set_output_pmmr (fun p =>
            txhashset_err (Pmmr.prune (BE := output_backend) p pos)) e = (Ok false, e)) as Hspent.
  { intros Hu. destruct (us_range _ _ Hus _ _ Hx) as [Hr Hl]. unfold tzoom.
    assert (Pmmr.prune (BE := output_backend) (output_pmmr e) pos = Ok (false, output_pmmr e)) as ->
      by exact (prune_spent _ _ _ _ _ pos (us_output _ _ Hus) Ep Hl ltac:(lia) Hu).
    by destruct e. }
  destruct (index_points e os _ pos Hus Hx) as [(k & o & -> & Hk & Ho)|[Hpast Hu]].
  - rewrite (output_hash_leaf e os k o) by done. case_decide as Hu.
    + pose proof (leaf_in_range os k Hk). rewrite pos_minus_one by lia. case_decide as Hh; [eauto|].
      exfalso. apply (Hn k o). by split_and!.
    + rewrite Hspent by done. eauto.
  - assert (output_hash_at (output_pmmr e) pos = None) as -> by exact (proj2 (get_past _ _ _ _ pos Hpast)).
    rewrite Hspent by done. eauto.
Qed.

Lemma input_cases e os i :
  utxo_state e os -> (exists k o, input_matches e os i k o) \/ (forall k o, ~ input_matches e os i k o).
Proof.
  intros Hus. destruct (get_output_pos (ext_batch e) (in_commit i)) as [pos|err|] eqn:Hx.
  2, 3: right; intros k o (_ & Hix & _); congruence.
  destruct (index_points e os _ pos Hus Hx) as [(k & o & -> & Hk & Ho)|[_ Hu]].
  2: { right. intros k o ((_ & _ & Hin) & Hix & _). rewrite Hx in Hix. by injection Hix as ->. }
  destruct (decide (pos_of k 0 ∈ unspent_of e /\ hash_with_index (pos_of k 0 - 1) (write_output HashMode o)
    = hash_with_index (pos_of k 0 - 1) (write_input i))) as [[Hu Hh]|Hno].
  - left. exists k, o. by split_and!.
  - right. intros k' o' ((Hk' & Ho' & Hu) & Hix & Hh). rewrite Hx in Hix. injection Hix as Ek.
    apply leaf_pos_inj in Ek as ->; [|lia|lia]. apply Hno. rewrite Ho in Ho'. by injection Ho' as ->.
Qed.

Lemma apply_input_inv e os i e' :
  utxo_state e os -> apply_input i e = (Ok tt, e') ->
  exists k o, input_matches e os i k o /\ utxo_state e' os /\
    unspent_of e' = unspent_of e ∖ {[ pos_of k 0 ]} /\ ext_frame e e' /\ ext_batch e' = ext_batch e.
Proof.
  intros Hus Ha. destruct (input_cases e os i Hus) as [(k & o & Hm)|Hno].
  - exists k, o. split; [done|]. destruct (apply_input_ok e os i k o Hus Hm) as (e1 & H1 & H2 & H3 & H4 & H5).
    rewrite Ha in H1. injection H1 as <-. done.
  - destruct (apply_input_refused e os i Hus Hno) as (err & Hr & _). rewrite Ha in Hr. discriminate.
Qed.


(** ** The outputs and the inputs of a block *)
Lemma apply_output_inv e os o e' :
  utxo_state e os -> proof_full (out_proof o) -> mmr_size (leaves os + 1) < 2 ^ 32 ->
  apply_output_indexed o e = (Ok tt, e') ->
  ~ commit_unspent e os (out_commit o) /\ utxo_state e' (os ++ [o]) /\
  unspent_of e' = {[ pos_of (leaves os) 0 ]} ∪ unspent_of e /\ ext_frame e e'.
Proof.
  intros Hus Hp Hcap Ha. assert (~ commit_unspent e os (out_commit o)) as Hn.
  { intros Hc. apply (proj1 (check_duplicate_spec e os _ Hus)) in Hc.
    unfold apply_output_indexed, apply_output, tbind, tread in Ha. rewrite Hc in Ha. discriminate. }
  split; [done|]. destruct (apply_output_ok e os o Hus Hp Hcap Hn) as (e1 & H1 & H2).
  rewrite Ha in H1. by injection H1 as <-.
Qed.

Definition new_leaves (n m : Z) : gset Z := list_to_set ((fun k => pos_of k 0) <$> seqZ n m).

Lemma new_leaves_S n m : 0 <= m -> new_leaves n (Z.succ m) = {[ pos_of n 0 ]} ∪ new_leaves (n + 1) m.
Proof. intros Hm. unfold new_leaves. rewrite seqZ_cons by lia. cbn. by rewrite Z.pred_succ. Qed.

Lemma apply_outputs_inv outs : forall e os e',
  utxo_state e os -> Forall (fun o => proof_full (out_proof o)) outs ->
  mmr_size (leaves os + Z.of_nat (length outs)) < 2 ^ 32 ->
  tfor apply_output_indexed outs e = (Ok tt, e') ->
  utxo_state e' (os ++ outs) /\
  unspent_of e' = unspent_of e ∪ new_leaves (leaves os) (Z.of_nat (length outs)) /\ ext_frame e e'.
Proof.
  induction outs as [|o outs IH]; intros e os e' Hus HF Hcap Ha; cbn [tfor] in Ha.
  { injection Ha as <-. rewrite app_nil_r. split_and!; [done| |done]. unfold new_leaves. cbn. set_solver. }
  apply tbind_Ok_inv in Ha as ([] & e1 & H1 & Ha). inversion HF as [|? ? Hp HF']; subst.
  assert (0 <= leaves os) as Hl0 by (unfold leaves; lia). cbn [length] in Hcap.
  pose proof (mmr_size_le (leaves os + 1) (leaves os + Z.of_nat (S (length outs))) ltac:(lia)).
  destruct (apply_output_inv e os o e1 Hus Hp ltac:(lia) H1) as (_ & Hus1 & Hu1 & Hf1).
  destruct (IH e1 (os ++ [o]) e' Hus1 HF') as (Hus' & Hu' & Hf'); [|done|].
  { rewrite leaves_snoc. by replace (leaves os + 1 + Z.of_nat (length outs)) with (leaves os + Z.of_nat (S (length outs))) by lia. }
  rewrite <- app_assoc in Hus'. split_and!; [done| |by etransitivity].
  rewrite Hu', Hu1, leaves_snoc. cbn [length]. rewrite Nat2Z.inj_succ, new_leaves_S by lia.
  rewrite (assoc_L union). f_equal. apply (comm_L union).
Qed.

(** Input [i] spends the output of index [k]. *)
Definition spends (os : list Output) (U : gset Z) (i : Input) (k : Z) : Prop :=
  0 <= k < leaves os /\ pos_of k 0 ∈ U /\ exists o, os !! Z.to_nat k = Some o /\
  hash_with_index (pos_of k 0 - 1) (write_output HashMode o) = hash_with_index (pos_of k 0 - 1) (write_input i).

Definition leaf_set_of (ks : list Z) : gset Z := list_to_set ((fun k => pos_of k 0) <$> ks).

Lemma elem_of_leaf_set_of ks k :
  0 <= k -> Forall (fun k => 0 <= k) ks -> pos_of k 0 ∈ leaf_set_of ks -> k ∈ ks.
Proof.
  intros Hk HF Hin. unfold leaf_set_of in Hin. apply elem_of_list_to_set, list_elem_of_fmap in Hin as (k' & E & Hk').
  rewrite Forall_forall in HF. apply leaf_pos_inj in E as ->; [done|done|by apply HF].
Qed.

(** The index leads from input [i] to the output of index [k]. *)
Definition indexed_at (b : Batch) (i : Input) (k : Z) : Prop := get_output_pos b (in_commit i) = Ok (pos_of k 0).

Lemma apply_inputs_inv ins : forall e os e',
  utxo_state e os -> tfor apply_input ins e = (Ok tt, e') ->
  exists spent, Forall2 (spends os (unspent_of e)) ins spent /\ NoDup spent /\ utxo_state e' os /\
    unspent_of e' = unspent_of e ∖ leaf_set_of spent /\ ext_frame e e' /\ ext_batch e' = ext_batch e /\
    Forall2 (indexed_at (ext_batch e)) ins spent.
Proof.
  induction ins as [|i ins IH]; intros e os e' Hus Ha; cbn [tfor] in Ha.
  { injection Ha as <-. exists []. split_and!; [done|constructor|done| |done|done|constructor].
    unfold leaf_set_of. cbn. set_solver. }
  apply tbind_Ok_inv in Ha as ([] & e1 & H1 & Ha).
  destruct (apply_input_inv e os i e1 Hus H1) as (k & o & ((Hk & Ho & Hu) & Hix & Hh) & Hus1 & Hu1 & Hf1 & Hb1).
  destruct (IH e1 os e' Hus1 Ha) as (spent & HF & Hnd & Hus' & Hu' & Hf' & Hb' & Hi'). rewrite Hb1 in Hi', Hb'. exists (k :: spent). split_and!.
  - constructor; [split_and!; [lia|lia|done|by exists o]|].
    eapply Forall2_impl; [exact HF|]. intros j q (Hq & Hqu & Hqo). split_and!; [lia|lia| |done].
    rewrite Hu1 in Hqu. by apply elem_of_difference in Hqu as [? _].
  - constructor; [|done]. intros Hin. apply list_elem_of_lookup in Hin as (n & Hn).
    destruct (Forall2_lookup_r _ _ _ _ _ HF Hn) as (j & _ & (_ & Hqu & _)).
    rewrite Hu1 in Hqu. apply elem_of_difference in Hqu as [_ Hqn]. by apply Hqn, elem_of_singleton.
  - done.
  - rewrite Hu', Hu1. unfold leaf_set_of. cbn [fmap list_fmap list_to_set]. set_solver.
  - by etransitivity.
  - done.
  - by constructor.
Qed.

(** The state of the unspent outputs does not depend on the other ranges. *)
Lemma utxo_state_ext e e' os :
  output_pmmr e' = output_pmmr e -> rproof_pmmr e' = rproof_pmmr e -> ext_batch e' = ext_batch e ->
  utxo_state e os -> utxo_state e' os.
Proof.
  intros E1 E2 E3 [A B Cc D F I R]. unfold unspent_of in *.
  constructor; unfold unspent_of in *; rewrite ?E1, ?E2, ?E3; done.
Qed.

(** Nor on anything in the store but the index. *)
Lemma utxo_state_batch e b os :
  (forall x, get_output_pos b x = get_output_pos (ext_batch e) x) -> utxo_state e os -> utxo_state (set_batch b e) os.
Proof.
  intros Hb [A B Cc D F I R]. constructor; cbn [set_batch output_pmmr rproof_pmmr ext_batch]; try done.
  - intros k o Ho Hk Hu. rewrite Hb. by apply I.
  - intros x pos Hx. rewrite Hb in Hx. by apply (R x).
Qed.

Lemma write_input_inj i o : write_input i = write_output HashMode o -> from_input i = from_output o.
Proof.
  unfold write_input, write_output, write_output_features, write_array. rewrite app_nil_r. intros E.
  apply app_inj_1 in E as [Ef Ec]; [|done]. apply array_eq in Ec.
  unfold from_input, from_output. f_equal; [|done]. by destruct (in_features i), (out_features o).
Qed.

(** No two of these contents hash to the same value. *)
Definition no_collision (os : list Output) (ins : list Input) : Prop :=
  forall i k o, i ∈ ins -> os !! Z.to_nat k = Some o -> 0 <= k ->
    hash_with_index (pos_of k 0 - 1) (write_output HashMode o) = hash_with_index (pos_of k 0 - 1) (write_input i) ->
    write_input i = write_output HashMode o.


Context (c : ChainTypes).

Lemma apply_kernels_frame ks : forall e e' r,
  tfor apply_kernel ks e = (r, e') ->
  output_pmmr e' = output_pmmr e /\ rproof_pmmr e' = rproof_pmmr e /\ ext_batch e' = ext_batch e /\
  header_pmmr e' = header_pmmr e /\ ext_header e' = ext_header e /\ rollback e' = rollback e.
Proof.
  intros e e' r Ha.
  pattern e'. eapply tfor_inv; [|by split_and!|exact Ha]. clear e' r Ha.
  intros k e1 r e2 _ (E1 & E2 & E3 & E4 & E5 & E6) Hk. unfold apply_kernel, tbind, tzoom, tret in Hk.
  destruct (txhashset_err _) as [[pos p]| |]; injection Hk as _ <-; cbn; by split_and!.
Qed.

Lemma apply_header_frame h e e' r :
  apply_header c h e = (r, e') ->
  output_pmmr e' = output_pmmr e /\ rproof_pmmr e' = rproof_pmmr e /\ ext_batch e' = ext_batch e /\
  kernel_pmmr e' = kernel_pmmr e /\ ext_header e' = ext_header e /\ rollback e' = rollback e.
Proof.
  intros Hk. unfold apply_header, tbind, tzoom, tret in Hk.
  destruct (txhashset_err _) as [[pos p]| |]; injection Hk as _ <-; by split_and!.
Qed.

(** What applying a block does to the unspent outputs. *)
Record block_applied (b : Block) (e : Extension) (os : list Output) (e' : Extension) (spent : list Z) : Prop := {
  ba_state : utxo_state e' (os ++ outputs (b_body b));
  ba_spends : Forall2 (spends (os ++ outputs (b_body b))
                (unspent_of e ∪ new_leaves (leaves os) (Z.of_nat (length (outputs (b_body b))))))
                (inputs (b_body b)) spent;
  ba_nodup : NoDup spent;
  ba_unspent : unspent_of e' =
    (unspent_of e ∪ new_leaves (leaves os) (Z.of_nat (length (outputs (b_body b))))) ∖ leaf_set_of spent;
  ba_indexed : Forall2 (indexed_at (ext_batch e')) (inputs (b_body b)) spent;
  ba_index : forall k o, (os ++ outputs (b_body b)) !! Z.to_nat k = Some o -> 0 <= k ->
    pos_of k 0 ∈ unspent_of e ∪ new_leaves (leaves os) (Z.of_nat (length (outputs (b_body b)))) ->
    get_output_pos (ext_batch e') (out_commit o) = Ok (pos_of k 0);
  ba_header : ext_header e' = header b;
  ba_rollback : rollback e' = rollback e;
  ba_store : forall A (rd : read A) key, (forall x, key <> to_key COMMIT_POS_PREFIX x) ->
    get_ser rd (ext_batch e') key = get_ser rd (ext_batch e) key
}.

Lemma apply_block_utxo b e os e' :
  utxo_state e os -> Forall (fun o => proof_full (out_proof o)) (outputs (b_body b)) ->
  mmr_size (leaves os + Z.of_nat (length (outputs (b_body b)))) < 2 ^ 32 ->
  apply_block c b e = (Ok tt, e') -> exists spent, block_applied b e os e' spent.
Proof.
  intros Hus HF Hcap Ha. unfold apply_block in Ha.
  apply tbind_Ok_inv in Ha as ([] & e1 & H1 & Ha). apply tbind_Ok_inv in Ha as ([] & e2 & H2 & Ha).
  apply tbind_Ok_inv in Ha as ([] & e3 & H3 & Ha). apply tbind_Ok_inv in Ha as ([] & e4 & H4 & Ha).
  injection Ha as <-.
  destruct (apply_header_frame _ _ _ _ H1) as (E1 & E2 & E3 & _ & _ & E4).
  assert (utxo_state e1 os) as Hus1 by (by eapply utxo_state_ext).
  assert (unspent_of e1 = unspent_of e) as Hu1 by (unfold unspent_of; by rewrite E1).
  destruct (apply_outputs_inv _ _ _ _ Hus1 HF Hcap H2) as (Hus2 & Hu2 & Hf2).
  destruct (apply_inputs_inv _ _ _ _ Hus2 H3) as (spent & Hsp & Hnd & Hus3 & Hu3 & Hf3 & Hb3 & Hi3).
  destruct (apply_kernels_frame _ _ _ _ H4) as (G1 & G2 & G3 & _ & _ & G4).
  exists spent. rewrite Hu2, Hu1 in Hsp. rewrite Hu2, Hu1 in Hu3. constructor; try done.
  - by apply (utxo_state_ext e3).
  - rewrite <- Hu3. unfold unspent_of. cbn [set_header output_pmmr]. by rewrite G1.
  - cbn [set_header ext_batch]. by rewrite G3, Hb3.
  - intros k o Ho Hk Hu. cbn [set_header ext_batch]. rewrite G3, Hb3. apply (us_index _ _ Hus2 k o Ho Hk). by rewrite Hu2, Hu1.
  - cbn [set_header rollback]. rewrite G4, (fr_rollback _ _ Hf3), (fr_rollback _ _ Hf2). done.
  - intros A rd key Hk. cbn [set_header ext_batch].
    rewrite G3, (fr_store _ _ Hf3) by done. rewrite (fr_store _ _ Hf2) by done. by rewrite E3.
Qed.


(** C8. Applying a block refines an update of the set of unspent outputs: when
    [apply_block] succeeds, every input has consumed an output with its own features and
    commitment that was unspent before the block or created by it, no two inputs consumed
    the same one, the unspent positions are the old ones and the new outputs less the
    consumed ones, and no two unspent outputs have the same commitment. *)
Theorem apply_block_refines b e os e' :
  utxo_state e os -> Forall (fun o => proof_full (out_proof o)) (outputs (b_body b)) ->
  mmr_size (leaves os + Z.of_nat (length (outputs (b_body b)))) < 2 ^ 32 ->
  no_collision (os ++ outputs (b_body b)) (inputs (b_body b)) ->
  apply_block c b e = (Ok tt, e') ->
  exists spent,
    let before := unspent_of e ∪ new_leaves (leaves os) (Z.of_nat (length (outputs (b_body b)))) in
    utxo_state e' (os ++ outputs (b_body b)) /\ NoDup spent /\
    Forall2 (fun i k => pos_of k 0 ∈ before /\
               exists o, (os ++ outputs (b_body b)) !! Z.to_nat k = Some o /\ from_output o = from_input i)
      (inputs (b_body b)) spent /\
    unspent_of e' = before ∖ leaf_set_of spent /\
    (forall k1 o1 k2 o2, unspent_output e' (os ++ outputs (b_body b)) k1 o1 ->
       unspent_output e' (os ++ outputs (b_body b)) k2 o2 -> out_commit o1 = out_commit o2 -> k1 = k2).
Proof.
  intros Hus HF Hcap Hnc Ha. destruct (apply_block_utxo b e os e' Hus HF Hcap Ha) as (spent & [Hst Hsp Hnd Hun _ _ _ _ _]).
  exists spent. cbv zeta. split_and!; [done|done| |done|].
  - apply Forall2_same_length_lookup_2; [by eapply Forall2_length|]. intros n i k Hi Hk.
    destruct (Forall2_lookup_lr _ _ _ _ _ _ Hsp Hi Hk) as (Hkr & Hku & o & Ho & Hh). split; [done|].
    exists o. split; [done|]. symmetry. apply write_input_inj.
    apply (Hnc i k o); [by eapply list_elem_of_lookup_2|done|lia|done].
  - intros k1 o1 k2 o2 (Hk1 & Ho1 & Hu1) (Hk2 & Ho2 & Hu2) Hc.
    pose proof (us_index _ _ Hst k1 o1 Ho1 ltac:(lia) Hu1) as E1.
    pose proof (us_index _ _ Hst k2 o2 Ho2 ltac:(lia) Hu2) as E2.
    rewrite Hc, E2 in E1. injection E1 as E1. symmetry. apply leaf_pos_inj; [lia|lia|done].
Qed.

(** ** A valid block is never refused *)
Lemma commit_unspent_step e os o e' x :
  utxo_state e os -> utxo_state e' (os ++ [o]) -> unspent_of e' = {[ pos_of (leaves os) 0 ]} ∪ unspent_of e ->
  commit_unspent e' (os ++ [o]) x -> x = out_commit o \/ commit_unspent e os x.
Proof.
  intros Hus Hus' Hu (k & o' & (Hk & Ho & Hin) & <-). rewrite leaves_snoc in Hk. rewrite Hu in Hin.
  destruct (Z.eq_dec k (leaves os)) as [->|Hne].
  - left. unfold leaves in Ho. rewrite Nat2Z.id, list_lookup_middle in Ho by done. by injection Ho as <-.
  - right. rewrite lookup_app_l in Ho by (unfold leaves in *; lia). exists k, o'. split; [|done].
    split_and!; [lia|lia|done|]. apply elem_of_union in Hin as [E%elem_of_singleton|?]; [|done].
    apply leaf_pos_inj in E; [done|lia|unfold leaves; lia].
Qed.

Lemma apply_outputs_ok outs : forall e os,
  utxo_state e os -> Forall (fun o => proof_full (out_proof o)) outs ->
  mmr_size (leaves os + Z.of_nat (length outs)) < 2 ^ 32 ->
  NoDup (map out_commit outs) -> (forall o, o ∈ outs -> ~ commit_unspent e os (out_commit o)) ->
  exists e', tfor apply_output_indexed outs e = (Ok tt, e').
Proof.
  induction outs as [|o outs IH]; intros e os Hus HF Hcap Hnd Hn; cbn [tfor]; [by eexists|].
  inversion HF as [|? ? Hp HF']; subst. inversion Hnd as [|? ? Ho Hnd']; subst. cbn [length] in Hcap.
  assert (0 <= leaves os) by (unfold leaves; lia).
  pose proof (mmr_size_le (leaves os + 1) (leaves os + Z.of_nat (S (length outs))) ltac:(lia)).
  destruct (apply_output_ok e os o Hus Hp ltac:(lia) (Hn o ltac:(by left))) as (e1 & Hap & Hus1 & Hu1 & _).
  unfold tbind. rewrite Hap. apply (IH e1 (os ++ [o])); [done|done| |done|].
  - rewrite leaves_snoc. by replace (leaves os + 1 + Z.of_nat (length outs)) with (leaves os + Z.of_nat (S (length outs))) by lia.
  - intros o' Ho' Hc. apply (commit_unspent_step e os o e1 _ Hus Hus1 Hu1) in Hc as [Ec|Hc].
    + apply Ho. rewrite <- Ec. by apply list_elem_of_fmap_2.
    + by apply (Hn o'); [right|].
Qed.

Definition spends_unspent (e : Extension) (os : list Output) (i : Input) (k : Z) : Prop :=
  exists o, unspent_output e os k o /\ from_output o = from_input i.

Lemma write_same i o : from_output o = from_input i -> write_output HashMode o = write_input i.
Proof.
  unfold from_output, from_input, write_output, write_input. intros [= -> ->]. by rewrite app_nil_r.
Qed.

Lemma apply_inputs_ok ins : forall e os spent,
  utxo_state e os -> Forall2 (spends_unspent e os) ins spent -> NoDup spent ->
  exists e', tfor apply_input ins e = (Ok tt, e') /\ unspent_of e' = unspent_of e ∖ leaf_set_of spent.
Proof.
  induction ins as [|i ins IH]; intros e os spent Hus HF Hnd; inversion HF as [|? k ? spent' Hk HF']; subst; cbn [tfor].
  { eexists. split; [done|]. change (leaf_set_of []) with (∅ : gset Z). by rewrite difference_empty_L. }
  inversion Hnd as [|? ? Hk' Hnd']; subst. destruct Hk as (o & (Hkr & Ho & Hku) & Ef).
  assert (out_commit o = in_commit i) as Ec by (unfold from_output, from_input in Ef; congruence).
  destruct (apply_input_ok e os i k o Hus) as (e1 & Hap & Hus1 & Hu1 & _ & _).
  { unfold input_matches, unspent_output. split; [done|]. split.
    - rewrite <- Ec. apply (us_index _ _ Hus k o Ho); [lia|done].
    - rewrite (write_same i o Ef). done. }
  destruct (IH e1 os spent' Hus1) as (e' & H' & Hu'); [|done|].
  - apply Forall2_same_length_lookup_2; [by eapply Forall2_length|]. intros n j q Hj Hq.
    destruct (Forall2_lookup_lr _ _ _ _ _ _ HF' Hj Hq) as (o' & (Hqr & Ho' & Hqu) & Eq').
    exists o'. split; [|done]. split_and!; [lia|lia|done|]. rewrite Hu1. apply elem_of_difference. split; [done|].
    intros E%elem_of_singleton. apply leaf_pos_inj in E as ->; [|lia|lia]. apply Hk'. by eapply list_elem_of_lookup_2.
  - exists e'. unfold tbind. rewrite Hap. split; [done|]. rewrite Hu', Hu1. unfold leaf_set_of.
    cbn [fmap list_fmap list_to_set]. by rewrite difference_difference_l_L.
Qed.

(** The other two ranges. *)
#[local] Abbreviation headers_stored :=
  (stored (IH := header_index c) (header_elmt c) write_header_entry (deser read_header_entry)).
#[local] Abbreviation kernels_stored :=
  (stored (IH := kernel_index) from_kernel write_kernel_entry (deser read_kernel_entry)).

Lemma len_kernel k : AppendOnlyFile.len (write_kernel k) = TxKernelEntry_LEN.
Proof.
  unfold write_kernel, AppendOnlyFile.len, write_array, write_u64. rewrite !length_app, !length_be_bytes.
  destruct (array_bytes_ok (excess k)) as [-> _]. destruct (array_bytes_ok (excess_sig k)) as [-> _].
  by destruct (features k).
Qed.

Lemma kernel_elmt_ok k : kernel_ok k -> elmt_ok from_kernel write_kernel_entry (deser read_kernel_entry) k.
Proof.
  intros Hk. unfold elmt_ok, write_kernel_entry, from_kernel. cbn [kernel]. rewrite len_kernel. split; [done|].
  unfold deser. rewrite <- (app_nil_r (write_kernel k)).
  rewrite (reads_deserialize read_kernel_entry (write_kernel k) (mkTxKernelEntry k) []); [done|].
  unfold read_kernel_entry. apply (reads_map _ mkTxKernelEntry). by apply reads_kernel.
Qed.

Lemma apply_kernels_ok kerns : forall e ks,
  kernels_stored (kernel_pmmr e) ks -> Forall kernel_ok kerns ->
  (forall k, fits (data_file (backend (kernel_pmmr e))) (write_kernel k)) ->
  mmr_size (leaves ks + Z.of_nat (length kerns)) < 2 ^ 32 ->
  exists e', tfor apply_kernel kerns e = (Ok tt, e').
Proof.
  induction kerns as [|k kerns IH]; intros e ks Hst HF Hfit Hcap; cbn [tfor]; [by eexists|].
  inversion HF as [|? ? Hk HF']; subst. cbn [length] in Hcap. assert (0 <= leaves ks) by (unfold leaves; lia).
  pose proof (mmr_size_le (leaves ks + 1) (leaves ks + Z.of_nat (S (length kerns))) ltac:(lia)).
  destruct (push_stored _ _ _ _ ks k Hst (kernel_elmt_ok k Hk) (Hfit k) ltac:(lia)) as (p' & Hp & Hst' & Hsk & _).
  unfold tbind, apply_kernel, tzoom, tret at 1. unfold tbind.
  assert (push_kernel (kernel_pmmr e) k = Ok (pos_of (leaves ks) 0, p')) as -> by exact Hp.
  cbn [txhashset_err map_err]. apply (IH _ (ks ++ [k])); cbn [set_kernel_pmmr kernel_pmmr]; [done|done| |].
  - intros x. by apply Hsk.
  - rewrite leaves_snoc. by replace (leaves ks + 1 + Z.of_nat (length kerns)) with (leaves ks + Z.of_nat (S (length kerns))) by lia.
Qed.

(** C9. A valid block is never refused: if the ranges have room, the header can be
    hashed and stored, the new commitments are distinct and none of them is unspent, and
    the inputs name distinct unspent outputs, then [apply_block] succeeds and the unspent
    positions are the old ones and the new outputs less the ones named. *)
Theorem valid_block_applies b e os hs ks spent x :
  utxo_state e os -> headers_stored (header_pmmr e) hs -> kernels_stored (kernel_pmmr e) ks ->
  mmr_size (leaves os + Z.of_nat (length (outputs (b_body b)))) < 2 ^ 32 ->
  mmr_size (leaves hs + 1) < 2 ^ 32 -> mmr_size (leaves ks + Z.of_nat (length (kernels (b_body b)))) < 2 ^ 32 ->
  header_hash c (header b) = Ok x ->
  elmt_ok (header_elmt c) write_header_entry (deser read_header_entry) (header b) ->
  fits (data_file (backend (header_pmmr e))) (write_header_entry (header_elmt c (header b))) ->
  Forall kernel_ok (kernels (b_body b)) ->
  (forall k, fits (data_file (backend (kernel_pmmr e))) (write_kernel k)) ->
  Forall (fun o => proof_full (out_proof o)) (outputs (b_body b)) ->
  NoDup (map out_commit (outputs (b_body b))) ->
  (forall o, o ∈ outputs (b_body b) -> ~ commit_unspent e os (out_commit o)) ->
  Forall2 (spends_unspent e os) (inputs (b_body b)) spent -> NoDup spent ->
  exists e', apply_block c b e = (Ok tt, e') /\
    unspent_of e' = (unspent_of e ∪ new_leaves (leaves os) (Z.of_nat (length (outputs (b_body b))))) ∖ leaf_set_of spent.
Proof.
  intros Hus Hhs Hks Hcap Hhc Hkc Hhash Hhe Hhf Hkok Hkf HF Hnd Hn Hsp Hsn.
  destruct (push_stored _ _ _ _ hs (header b) Hhs Hhe Hhf Hhc) as (hp & Hhp & _).
  assert (apply_header c (header b) e = (Ok tt, set_header_pmmr hp e)) as H1.
  { unfold apply_header, tbind, tzoom, push_header, hash_of. rewrite Hhash. cbn [bind].
    by assert (Pmmr.push (IH := header_index c) (BE := header_backend c) (header_pmmr e) (header b)
      = Ok (pos_of (leaves hs) 0, hp)) as -> by exact Hhp. }
  set (e1 := set_header_pmmr hp e) in *.
  assert (utxo_state e1 os) as Hus1 by (by apply (utxo_state_ext e)).
  destruct (apply_outputs_ok _ e1 os Hus1 HF Hcap Hnd Hn) as (e2 & H2).
  destruct (apply_outputs_inv _ _ _ _ Hus1 HF Hcap H2) as (Hus2 & Hu2 & Hf2).
  destruct (apply_inputs_ok (inputs (b_body b)) e2 _ spent Hus2) as (e3 & H3 & Hu3); [|done|].
  { eapply Forall2_impl; [exact Hsp|]. intros i k (o & (Hk & Ho & Hin) & Ef). exists o. split; [|done].
    split_and!; [lia|unfold leaves in *; rewrite length_app; lia|by apply lookup_app_l_Some|].
    rewrite Hu2. apply elem_of_union. by left. }
  destruct (apply_inputs_inv _ _ _ _ Hus2 H3) as (_ & _ & _ & _ & _ & Hf3 & _).
  assert (kernel_pmmr e3 = kernel_pmmr e) as Ek by (by rewrite (fr_kernels _ _ Hf3), (fr_kernels _ _ Hf2)).
  destruct (apply_kernels_ok _ e3 ks ltac:(by rewrite Ek) Hkok ltac:(by rewrite Ek) Hkc) as (e4 & H4).
  destruct (apply_kernels_frame _ _ _ _ H4) as (G1 & _).
  exists (set_header (header b) e4). split.
  - unfold apply_block, tbind. rewrite H1, H2, H3, H4. done.
  - unfold unspent_of at 1. cbn [set_header output_pmmr]. rewrite G1. fold (unspent_of e3). by rewrite Hu3, Hu2.
Qed.

End Utxo.
