(* ===== verification/UtxoSums.v ===== *)
(** * The unspent outputs add up to the emission

    The commitments of the unspent outputs of an [Extension] against the sums that
    [verify_block_sums] keeps for its header: block after block, the whole set commits
    to exactly what has been emitted, the excesses of all kernels and the offset. *)
From S2P Require Import Prelude PmmrIndex Pmmr PmmrRefine AppendOnlyFile PruneList PmmrBackend PmmrData Ser Global Pow Reward Retarget Feijoada Committed Transaction CutThrough Block BlockTheory ChainStore ChainStoreTheory Pipe ChainSums TxHashSet TxHashSetUndo TxHashSetUtxo ProcessBlock.
Import Pos Node Spec Theorems.

(** ** The commitments at a set of positions *)
Definition commit_at (os : list Output) (pos : Z) : option Commitment :=
  out_commit <$> os !! Z.to_nat (n_leaves pos - 1).

Definition commits_of (os : list Output) (U : gset Z) : list Commitment := omap (commit_at os) (elements U).

Lemma commit_at_leaf os k o :
  0 <= k < 2 ^ 61 -> os !! Z.to_nat k = Some o -> commit_at os (pos_of k 0) = Some (out_commit o).
Proof.
  intros Hk Ho. unfold commit_at. rewrite n_leaves_leaf by done. replace (k + 1 - 1) with k by lia. by rewrite Ho.
Qed.

Lemma omap_perm {A B} (f : A -> option B) (l l' : list A) : l ≡ₚ l' -> omap f l ≡ₚ omap f l'.
Proof. by intros ->. Qed.

Lemma commits_of_add os U x y :
  x ∉ U -> commit_at os x = Some y -> commits_of os ({[ x ]} ∪ U) ≡ₚ y :: commits_of os U.
Proof.
  intros Hx Hy. unfold commits_of. etransitivity; [apply omap_perm, elements_union_singleton, Hx|].
  cbn [omap list_omap]. by rewrite Hy.
Qed.

Lemma commits_of_remove os U x y :
  x ∈ U -> commit_at os x = Some y -> commits_of os U ≡ₚ y :: commits_of os (U ∖ {[ x ]}).
Proof.
  intros Hx Hy. rewrite <- (commits_of_add os (U ∖ {[ x ]}) x y); [|set_solver|done].
  by rewrite <- union_difference_singleton_L.
Qed.

Lemma commits_of_app os os' U :
  (forall x, x ∈ U -> exists k, 0 <= k < leaves os /\ k < 2 ^ 61 /\ x = pos_of k 0) ->
  commits_of (os ++ os') U = commits_of os U.
Proof.
  intros HU. unfold commits_of. apply omap_ext_in. intros x Hx%elem_of_elements.
  destruct (HU x Hx) as (k & Hk & Hk' & ->). unfold commit_at. rewrite n_leaves_leaf by lia.
  rewrite lookup_app_l; [done|]. unfold leaves in Hk. lia.
Qed.

Section Sums.
Context `{Hasher} `{Secp} {G : Type} `{!SecpLaws G} (c : ChainTypes) (min_date max_date : Z).
Hypothesis MAX_PROOF_SIZE_small : Z.of_nat MAX_PROOF_SIZE <= 60000.

(** The commitments an extension sums are those of the unspent outputs. *)
Lemma outputs_committed_utxo e os :
  utxo_state e os -> outputs_committed e ≡ₚ commits_of os (unspent_of e).
Proof.
  intros Hus. cbn [outputs_committed committed_extension]. unfold commits_of.
  destruct (us_prunable _ _ Hus) as [Ep _].
  assert (Pmmr.leaf_pos_iter (BE := output_backend) (output_pmmr e) = bm_iter (unspent_of e)) as ->
    by exact (leaf_iter_stored _ _ _ _ Ep).
  pose proof (us_cap _ _ Hus) as Hcap. pose proof (mmr_size_ge (leaves os) ltac:(unfold leaves; lia)).
  etransitivity; [apply omap_perm; unfold bm_iter; apply merge_sort_Permutation|].
  apply Permutation_refl', omap_ext_in. intros x Hx%elem_of_elements.
  destruct (unspent_output_at _ _ _ Hus Hx) as (k & o & -> & Hk & Ho & _).
  rewrite (output_data_at e os k o), decide_True by done. rewrite (commit_at_leaf os k o) by (done || lia). done.
Qed.

Definition usum (os : list Output) (U : gset Z) : G := psum (commits_of os U).

Lemma usum_add os U k o :
  0 <= k < 2 ^ 61 -> os !! Z.to_nat k = Some o -> pos_of k 0 ∉ U ->
  usum os ({[ pos_of k 0 ]} ∪ U) = gadd (point (out_commit o)) (usum os U).
Proof.
  intros Hk Ho Hn. unfold usum. rewrite (psum_perm _ _ (commits_of_add os U _ _ Hn (commit_at_leaf os k o Hk Ho))). done.
Qed.

Lemma usum_remove os U k o :
  0 <= k < 2 ^ 61 -> os !! Z.to_nat k = Some o -> pos_of k 0 ∈ U ->
  usum os U = gadd (point (out_commit o)) (usum os (U ∖ {[ pos_of k 0 ]})).
Proof.
  intros Hk Ho Hu. unfold usum. rewrite (psum_perm _ _ (commits_of_remove os U _ _ Hu (commit_at_leaf os k o Hk Ho))). done.
Qed.

(** The new outputs, added one by one. *)
Lemma usum_outputs outs : forall os U,
  leaves os + Z.of_nat (length outs) < 2 ^ 61 ->
  (forall x, x ∈ U -> exists k, 0 <= k < leaves os /\ x = pos_of k 0) ->
  usum (os ++ outs) (U ∪ new_leaves (leaves os) (Z.of_nat (length outs)))
  = gadd (usum os U) (psum (map out_commit outs)).
Proof.
  induction outs as [|o outs IH]; intros os U Hl HU.
  { rewrite app_nil_r. change (new_leaves _ _) with (∅ : gset Z). rewrite union_empty_r_L.
    unfold psum. cbn [map foldr]. by rewrite gadd_0. }
  cbn [length] in *. rewrite Nat2Z.inj_succ, new_leaves_S by lia. assert (0 <= leaves os) by (unfold leaves; lia).
  replace (os ++ o :: outs) with ((os ++ [o]) ++ outs) by (by rewrite <- app_assoc).
  rewrite (assoc_L union), <- (leaves_snoc os o).
  rewrite IH; [|rewrite leaves_snoc; lia|].
  2: { intros x [Hx|Hx%elem_of_singleton]%elem_of_union; rewrite leaves_snoc; [|subst x].
       - destruct (HU x Hx) as (k & Hk & ->). exists k. split; [lia|done].
       - exists (leaves os). split; [lia|done]. }
  rewrite (comm_L union U), (usum_add (os ++ [o]) U (leaves os) o); [|lia| |].
  - unfold usum at 1. rewrite commits_of_app.
    2: { intros x Hx. destruct (HU x Hx) as (k & Hk & ->). exists k. split_and!; [lia..|done]. }
    fold (usum os U). cbn [map]. unfold psum at 2. cbn [foldr]. fold (psum (map out_commit outs)).
    by rewrite (gadd_comm (point _)), <- gadd_assoc.
  - unfold leaves. by rewrite Nat2Z.id, list_lookup_middle.
  - intros Hin. destruct (HU _ Hin) as (k & Hk & E). apply leaf_pos_inj in E; lia.
Qed.

(** The inputs, removed one by one. *)
Lemma usum_inputs ins : forall os U spent,
  leaves os < 2 ^ 61 -> no_collision os ins -> Forall2 (spends os U) ins spent -> NoDup spent ->
  gadd (usum os (U ∖ leaf_set_of spent)) (psum (map in_commit ins)) = usum os U.
Proof.
  induction ins as [|i ins IH]; intros os U spent Hl Hnc HF Hnd; inversion HF as [|? k ? spent' Hk HF']; subst.
  { change (leaf_set_of []) with (∅ : gset Z). rewrite difference_empty_L.
    unfold psum. cbn [map foldr]. by rewrite gadd_0. }
  inversion Hnd as [|? ? Hk' Hnd']; subst. destruct Hk as (Hkr & Hku & o & Ho & Hh).
  assert (Forall2 (spends os (U ∖ {[ pos_of k 0 ]})) ins spent') as HF1.
  { apply Forall2_same_length_lookup_2; [by eapply Forall2_length|]. intros n j q Hj Hq.
    destruct (Forall2_lookup_lr _ _ _ _ _ _ HF' Hj Hq) as (H1 & H2 & H3). split_and!; [lia|lia| |done].
    apply elem_of_difference. split; [done|]. intros E%elem_of_singleton. apply leaf_pos_inj in E as ->; [|lia|lia].
    apply Hk'. by eapply list_elem_of_lookup_2. }
  rewrite (usum_remove os U k o) by (done || lia).
  rewrite <- (IH os (U ∖ {[ pos_of k 0 ]}) spent' Hl ltac:(intros j q o' Hj; apply Hnc; by right) HF1 Hnd').
  assert (U ∖ {[ pos_of k 0 ]} ∖ leaf_set_of spent' = U ∖ leaf_set_of (k :: spent')) as ->.
  { unfold leaf_set_of. cbn [fmap list_fmap list_to_set]. by rewrite difference_difference_l_L. }
  assert (in_commit i = out_commit o) as Ec.
  { pose proof (write_input_inj i o (Hnc i k o ltac:(by left) Ho ltac:(lia) Hh)) as E.
    by injection E as _ ?. }
  cbn [map]. unfold psum at 1. cbn [foldr]. fold (psum (map in_commit ins)). rewrite Ec.
  by rewrite !gadd_assoc, (gadd_comm (point _)).
Qed.

(** Applying a block moves the sum of the unspent outputs by its outputs and inputs. *)
Lemma block_usum b e os e' spent :
  utxo_state e os -> block_applied b e os e' spent -> no_collision (os ++ outputs (b_body b)) (inputs (b_body b)) ->
  gadd (usum (os ++ outputs (b_body b)) (unspent_of e')) (psum (inputs_committed b))
  = gadd (usum os (unspent_of e)) (psum (outputs_committed b)).
Proof.
  intros Hus [Hst Hsp Hnd Hun _ _ _] Hnc. pose proof (us_cap _ _ Hst) as Hcap.
  pose proof (mmr_size_ge (leaves (os ++ outputs (b_body b))) ltac:(unfold leaves; lia)) as Hg.
  assert (leaves (os ++ outputs (b_body b)) = leaves os + Z.of_nat (length (outputs (b_body b)))) as El
    by (unfold leaves; rewrite length_app; lia).
  rewrite Hun. cbn [inputs_committed outputs_committed committed_block committed_body].
  rewrite usum_inputs by (done || lia). apply usum_outputs; [lia|].
  intros x Hx. destruct (unspent_output_at _ _ _ Hus Hx) as (k & o & -> & Hk & _). by exists k.
Qed.


(** ** Along a chain *)
#[local] Abbreviation hdr := (get_block_header c min_date max_date).

(** The stored sums of the extension's header are those of its unspent outputs. *)
Definition sums_hold (e : Extension) (os : list Output) (emitted : Z) (s : BlockSums) : Prop :=
  (exists k, header_hash c (ext_header e) = Ok k /\ get_block_sums (ext_batch e) k = Ok s) /\
  gadd (point (utxo_sum s)) (value_point emitted) = usum os (unspent_of e) /\
  point (utxo_sum s) = gadd (point (kernel_sum s)) (key_point (total_kernel_offset (ext_header e))).

Lemma verify_sums_index b blk b' x :
  verify_block_sums c min_date max_date b blk = Ok b' -> get_output_pos b' x = get_output_pos b x.
Proof.
  unfold verify_block_sums. intros Hv. apply bind_Ok_inv in Hv as (prev & _ & Hv).
  apply bind_Ok_inv in Hv as (prev_h & _ & Hv). apply bind_Ok_inv in Hv as (s & _ & Hv).
  apply bind_Ok_inv in Hv as (ov & _ & Hv). apply bind_Ok_inv in Hv as ([u k] & _ & Hv).
  apply bind_Ok_inv in Hv as (h & _ & Hv). apply map_err_Ok_inv in Hv.
  unfold get_output_pos. f_equal. eapply get_put_ne; [exact Hv|key_ne].
Qed.

Lemma sums_cancel (u u' t' t i o cr w w' : G) :
  gadd u' (gadd i cr) = gadd u o -> gadd u t = w -> gadd w' i = gadd w o -> t' = gadd t cr -> gadd u' t' = w'.
Proof.
  intros H1 <- H2 ->. apply (gadd_cancel _ _ i). rewrite H2, (gadd_right_comm u t o), <- H1.
  rewrite <- !gadd_assoc. f_equal. rewrite (gadd_comm t), (gadd_assoc i cr t), (gadd_comm i cr), <- gadd_assoc.
  by rewrite (gadd_comm i t).
Qed.

Definition block_fits (os : list Output) (b : Block) : Prop :=
  Forall (fun o => proof_full (out_proof o)) (outputs (b_body b)) /\
  mmr_size (leaves os + Z.of_nat (length (outputs (b_body b)))) < 2 ^ 32 /\
  no_collision (os ++ outputs (b_body b)) (inputs (b_body b)) /\ 0 <= height (header b) < last_height.

Lemma apply_checked_sums b e os e' emitted s :
  utxo_state e os -> sums_hold e os emitted s -> hdr (ext_batch e) (prev_hash (header b)) = Ok (ext_header e) ->
  block_fits os b -> apply_checked c min_date max_date b e = (Ok tt, e') ->
  utxo_state e' (os ++ outputs (b_body b)) /\ (forall x, hdr (ext_batch e') x = hdr (ext_batch e) x) /\
  ext_header e' = header b /\
  exists s', sums_hold e' (os ++ outputs (b_body b)) (emitted + creates c (height (header b))) s' /\
    point (kernel_sum s') = gadd (point (kernel_sum s)) (psum (kernels_committed b)).
Proof.
  intros Hus ((k & Hk & Hs) & Hu & Hoff) Hp (HF & Hcap & Hnc & Hh) Ha. unfold apply_checked in Ha.
  apply tbind_Ok_inv in Ha as ([] & ea & H1 & Ha). apply tread_Ok_inv in H1 as [_ ->].
  apply tbind_Ok_inv in Ha as ([] & ea & H1 & Ha). apply tread_Ok_inv in H1 as [_ ->].
  apply tbind_Ok_inv in Ha as ([] & e1 & H1 & Ha). unfold ext_verify_block_sums in H1.
  apply tzoom_Ok_inv in H1 as (b1 & H1 & ->). apply bind_Ok_inv in H1 as (b1' & Hv & [= ->]).
  destruct (verify_block_sums_step c min_date max_date _ b _ k s _ Hp Hk Hs Hh Hv) as (k' & s' & Hk' & Hs' & Hext & Hst).
  assert (utxo_state (set_batch b1 e) os) as Hus1 by (apply utxo_state_batch; [intros x; by eapply verify_sums_index|done]).
  unfold apply_block_to_txhashset in Ha. apply tbind_Ok_inv in Ha as ([] & ea & H1 & Ha). apply tread_Ok_inv in H1 as [_ ->].
  apply tbind_Ok_inv in Ha as ([] & e2 & H2 & Ha).
  apply tbind_Ok_inv in Ha as ([] & ea & H1 & Ha). apply tread_Ok_inv in H1 as [_ ->].
  apply tread_Ok_inv in Ha as [_ ->].
  destruct (apply_block_utxo MAX_PROOF_SIZE_small c b _ os e2 Hus1 HF Hcap H2) as (spent & Hba).
  pose proof (block_usum b _ os e2 spent Hus1 Hba Hnc) as Hbs. destruct Hba as [Hus2 _ _ _ _ _ Hhd _ Hstore].
  cbn [set_batch ext_batch] in Hstore.
  split_and!; [done| |done|].
  - intros x. transitivity (hdr b1 x); [|apply Hext]. unfold get_block_header. by rewrite Hstore by (intros y; key_ne).
  - destruct Hst as (Hsu & Hsk & Hso). exists s'. split; [|exact Hsk]. split_and!.
    + exists k'. rewrite Hhd. split; [done|]. unfold get_block_sums. rewrite Hstore by (intros y; key_ne). exact Hs'.
    + apply (sums_cancel (point (utxo_sum s)) _ _ (value_point emitted) (psum (inputs_committed b))
        (psum (outputs_committed b)) (value_point (creates c (height (header b)))) (usum os (unspent_of e)));
        [exact Hsu|exact Hu|exact Hbs|apply value_point_add].
    + rewrite Hhd. exact Hso.
Qed.

(** Each block fits on top of the outputs of those before it. *)
Fixpoint blocks_fit (os : list Output) (blocks : list Block) : Prop :=
  match blocks with
  | [] => True
  | b :: blocks => block_fits os b /\ blocks_fit (os ++ outputs (b_body b)) blocks
  end.

Definition outputs_of (blocks : list Block) : list Output := concat (map (fun b => outputs (b_body b)) blocks).

Lemma apply_chain_sums blocks : forall e os e' emitted s,
  utxo_state e os -> sums_hold e os emitted s ->
  chained c min_date max_date (ext_batch e) (ext_header e) blocks ->
  blocks_fit os blocks -> tfor (apply_checked c min_date max_date) blocks e = (Ok tt, e') ->
  utxo_state e' (os ++ outputs_of blocks) /\ ext_header e' = tip_header (ext_header e) blocks /\
  exists s', sums_hold e' (os ++ outputs_of blocks) (emitted + all_created c blocks) s' /\
    point (kernel_sum s') = gadd (point (kernel_sum s)) (psum (all_excesses blocks)).
Proof.
  induction blocks as [|b blocks IH]; intros e os e' emitted s Hus Hsh Hch Hfit Ha; cbn [tfor] in Ha.
  { injection Ha as <-. unfold outputs_of, all_excesses. cbn [map concat all_created foldr].
    rewrite app_nil_r, Z.add_0_r. split_and!; [done|done|]. exists s. split; [done|].
    unfold psum. cbn [foldr]. by rewrite gadd_0. }
  apply tbind_Ok_inv in Ha as ([] & e1 & H1 & Ha). destruct Hfit as [Hf Hfs].
  inversion Hch as [|? ? ? Hp Hrest]; subst.
  destruct (apply_checked_sums b e os e1 emitted s Hus Hsh Hp Hf H1) as (Hus1 & Hext & Hhd & s1 & Hsh1 & Hk1).
  destruct (IH e1 (os ++ outputs (b_body b)) e' _ s1 Hus1 Hsh1) as (Hus' & Htip & s' & Hsh' & Hk'); [|done|done|].
  { rewrite Hhd. by eapply chained_ext. }
  unfold outputs_of, all_excesses in *. cbn [map concat all_created foldr].
  rewrite <- app_assoc in Hus', Hsh'. split_and!; [done|by rewrite tip_header_cons, Htip, Hhd|].
  exists s'. split; [by rewrite Z.add_assoc|]. rewrite Hk', Hk1, psum_app. by rewrite gadd_assoc.
Qed.

(** C1. The unspent outputs add up to the emission: start from a set whose unspent
    outputs match the sums stored for its header, and let any chain of blocks pass the
    checks of the pipeline one after the other (coinbase maturity, unspent inputs, block
    sums, the application to the ranges with the roots and sizes).  Then the commitments
    of the outputs that the set still holds unspent are, as points, exactly the total
    emission so far, plus the excesses of all the kernels, plus the offset of the last
    header: no output is counted twice, none is lost and none is spent twice. *)
Theorem utxo_set_commits_to_emission blocks e os e' emitted s :
  utxo_state e os -> sums_hold e os emitted s ->
  chained c min_date max_date (ext_batch e) (ext_header e) blocks ->
  blocks_fit os blocks -> tfor (apply_checked c min_date max_date) blocks e = (Ok tt, e') ->
  psum (outputs_committed e')
  = gadd (value_point (emitted + all_created c blocks))
      (gadd (gadd (point (kernel_sum s)) (psum (all_excesses blocks)))
         (key_point (total_kernel_offset (tip_header (ext_header e) blocks)))).
Proof.
  intros Hus Hsh Hch Hfit Ha.
  destruct (apply_chain_sums blocks e os e' emitted s Hus Hsh Hch Hfit Ha) as (Hus' & Htip & s' & (_ & Hu & Ho) & Hk).
  rewrite (psum_perm _ _ (outputs_committed_utxo e' _ Hus')). fold (usum (os ++ outputs_of blocks) (unspent_of e')).
  rewrite <- Hu, Ho, Hk, Htip. apply gadd_comm.
Qed.

End Sums.
