(* ===== verification/ProcessBlockTheory.v ===== *)
(** * Processing a block is atomic on the transaction hash set

    [process_block] checks a header on a copy of the header range that is always
    undone, then runs the block in a unit of work.  Whatever fails, the set is left
    as it was; when nothing fails, the set moves exactly when the block has more
    work than the head, and so does the head. *)
From S2P Require Import Prelude PmmrIndex Pmmr AppendOnlyFile PruneList PmmrBackend PmmrData Ser Global Pow Reward Retarget Feijoada Committed Transaction CutThrough Block BlockTheory ChainStore ChainStoreTheory Pipe TxHashSet ProcessBlock TxHashSetUndo.

(** ** Files of elements of one size always reach the disk *)
Definition fixed_file (f : AppendOnlyFile) : Prop :=
  match size_info f with
  | FixedSize _ => True
  | VariableSize _ => False
  end.

Lemma flush_fixed f : fixed_file f -> exists f', flush f = Ok f'.
Proof.
  destruct f as [file [n|sf] mmap buf start bak]; cbn; [|done]. intros _.
  destruct (bak >? 0); [destruct (start =? 0)|]; cbn; by eauto.
Qed.

Lemma discard_fixed f f' : AppendOnlyFile.discard f' = AppendOnlyFile.discard f -> fixed_file f -> fixed_file f'.
Proof.
  destruct f as [? [n|sf] ? ? ? bak], f' as [? [n'|sf'] ? ? ? bak']; cbn; try done.
  by destruct (bak >? 0), (bak' >? 0).
Qed.

Definition backend_fixed (b : PMMRBackend) : Prop := fixed_file (hash_file b) /\ fixed_file (data_file b).

Lemma sync_fixed b0 b : undoable b0 b -> backend_fixed b0 -> exists b', sync b = Ok b'.
Proof.
  intros [Hd _] [H1 H2]. unfold discard in Hd. injection Hd as _ Eh Ed _ _.
  destruct (flush_fixed _ (discard_fixed _ _ Eh H1)) as [hf Hhf].
  destruct (flush_fixed _ (discard_fixed _ _ Ed H2)) as [df Hdf].
  unfold sync. rewrite Hhf, Hdf. cbn [bind]. eauto.
Qed.

(** The header, output and range proof files are of that kind. *)
Definition set_fixed (t : TxHashSet) : Prop :=
  backend_fixed (h_backend (header_pmmr_h t)) /\ backend_fixed (h_backend (output_pmmr_h t)) /\
  backend_fixed (h_backend (rproof_pmmr_h t)).

(** ** A unit of work on the headers that is always undone *)
Record hx_undone (e e' : HeaderExtension) : Prop := {
  hx_undo : backend_anchored (backend (hx_pmmr e)) -> undoable (backend (hx_pmmr e)) (backend (hx_pmmr e'));
  hx_stays : hx_rollback e = true -> hx_rollback e' = true
}.

#[export] Instance hx_undone_pre : PreOrder hx_undone.
Proof.
  split; [by constructor|]. intros x y z [U1 S1] [U2 S2]. constructor; [|auto].
  intros Ha. pose proof (U1 Ha) as U. etransitivity; [done|]. apply U2. by apply U.
Qed.

Abbreviation hx_undoes m := (tkeeps (E := chain_error) hx_undone m).

Lemma hx_range_undoes {A} (f : Range -> outcome chain_error (A * Range)) :
  (forall p a p', backend_anchored (backend p) -> f p = Ok (a, p') -> undoable (backend p) (backend p')) ->
  hx_undoes (tzoom hx_pmmr hx_set_pmmr f).
Proof. intros Hf. apply (tkeeps_tzoom hx_undone). intros e a p Hp. constructor; [|done]. intros Ha. by eapply Hf. Qed.

(** ** What a unit of work leaves alone: the head, the store and its own flag *)
Definition quiet (b b' : Batch) : Prop := head b' = head b /\ committed b' = committed b.

#[export] Instance quiet_pre : PreOrder quiet.
Proof. split; [done|]. intros x y z [] []. split; congruence. Qed.

Lemma quiet_put p k data b b' : put b (to_key p k) data = Ok b' -> quiet b b'.
Proof.
  intros Hp. split; [|by injection Hp as <-]. unfold head. f_equal. eapply get_put_ne; [exact Hp|]. key_ne.
Qed.

Lemma quiet_put_ser p k data b b' : put_ser b (to_key p k) data = Ok b' -> quiet b b'.
Proof. destruct data; [apply quiet_put|done|done]. Qed.

(** The headers and their head too. *)
Record still (b b' : Batch) : Prop := {
  still_quiet : quiet b b';
  still_headers : forall k, tx b' !! to_key BLOCK_HEADER_PREFIX k = tx b !! to_key BLOCK_HEADER_PREFIX k;
  still_header_head : tx b' !! [HEADER_HEAD_PREFIX] = tx b !! [HEADER_HEAD_PREFIX]
}.

#[export] Instance still_pre : PreOrder still.
Proof.
  split; [by intros b|]. intros x y z [] []. constructor; [by etransitivity|intros k|]; etransitivity; eauto.
Qed.

Lemma still_put p k data b b' : p <> BLOCK_HEADER_PREFIX -> put b (to_key p k) data = Ok b' -> still b b'.
Proof.
  intros Hp Hb. constructor; [by eapply quiet_put|intros k'|]; injection Hb as <-; apply lookup_insert_ne; [|done]. by intros [= ].
Qed.

Lemma still_put_ser p k data b b' : p <> BLOCK_HEADER_PREFIX -> put_ser b (to_key p k) data = Ok b' -> still b b'.
Proof. destruct data; [apply still_put|done|done]. Qed.

Definition ext_quiet (e e' : Extension) : Prop := rollback e' = rollback e /\ still (ext_batch e) (ext_batch e').

#[export] Instance ext_quiet_pre : PreOrder ext_quiet.
Proof. split; [done|]. intros x y z [? ?] [? ?]. split; [congruence|]. by etransitivity. Qed.

Abbreviation quietly m := (tkeeps (E := chain_error) ext_quiet m).
Create HintDb quiet discriminated.

Lemma quietly_batch {A} (f : Batch -> outcome chain_error (A * Batch)) :
  (forall b a b', f b = Ok (a, b') -> still b b') -> quietly (tzoom ext_batch set_batch f).
Proof. intros Hf. apply (tkeeps_tzoom ext_quiet). intros e a b Hb. split; [done|]. by eapply Hf. Qed.
#[export] Hint Extern 1 (tkeeps ext_quiet (tzoom header_pmmr _ _)) => (apply (tkeeps_tzoom ext_quiet); by intros) : quiet.
#[export] Hint Extern 1 (tkeeps ext_quiet (tzoom output_pmmr _ _)) => (apply (tkeeps_tzoom ext_quiet); by intros) : quiet.
#[export] Hint Extern 1 (tkeeps ext_quiet (tzoom rproof_pmmr _ _)) => (apply (tkeeps_tzoom ext_quiet); by intros) : quiet.
#[export] Hint Extern 1 (tkeeps ext_quiet (tzoom kernel_pmmr _ _)) => (apply (tkeeps_tzoom ext_quiet); by intros) : quiet.
#[export] Hint Extern 1 (tkeeps ext_quiet (tmodify (set_header _))) => (by apply tkeeps_tmodify) : quiet.

Section Theory.
Context `{Hasher} `{Secp} (c : ChainTypes) (min_date max_date : Z).
Context (get_progpow_value : list Z -> Z -> Z -> Hash) (u256_from : Hash -> Z).
Context (config : PolicyConfig) (opts : Z) (pow_verifier : BlockHeader -> bool)
  (orphans : gset (list Z)) (now : Z).
Context (bitmap_serialize : gset Z -> list Z) (bitmap_deserialize : list Z -> gset Z).
Context (load_foundation_output : Z -> Output * TxKernel).

Lemma hx_apply_header_undoes h : hx_undoes (hx_apply_header c h).
Proof.
  unfold hx_apply_header. keeps_seq; [|by apply tkeeps_tmodify|eauto with keeps].
  apply hx_range_undoes. intros p a p' _ Hp%txhashset_err_Ok. unfold push_header in Hp.
  apply bind_Ok_inv in Hp as (? & _ & Hp). by eapply push_undo.
Qed.

Lemma hx_rewind_undoes h : hx_undoes (hx_rewind c h).
Proof.
  unfold hx_rewind. keeps_seq; [|by apply tkeeps_tmodify].
  apply hx_range_undoes. intros p a p' Ha Hp%txhashset_err_Ok%no_result_Ok. by eapply rewind_range_undo.
Qed.
#[local] Hint Resolve hx_apply_header_undoes hx_rewind_undoes : keeps.

Lemma header_fork_undoes h : hx_undoes (rewind_and_apply_header_fork c min_date max_date h).
Proof. unfold rewind_and_apply_header_fork. keeps_seq; [eauto with keeps|]. case_match. eauto 9 with keeps. Qed.

Lemma header_extending_undone {A} (inner : trans HeaderExtension chain_error A) s r s' :
  hx_undoes inner -> synced (h_backend (header_pmmr_h s.1)) -> backend_anchored (h_backend (header_pmmr_h s.1)) ->
  header_extending c min_date max_date (tbind hx_force_rollback (fun _ => inner)) s = (r, s') ->
  r = Panic \/ s' = s.
Proof.
  intros Hin Hs Ha He. unfold header_extending, range_extending in He. destruct (store_err _) as [h|err|].
  2, 3: right; by injection He as _ <-.
  unfold tbind, hx_force_rollback, tmodify in He. cbn [hx_header hx_pmmr hx_batch] in He.
  destruct (inner _) as [res e] eqn:Ei. destruct (Hin _ _ _ Ei) as [Hu Hr]. specialize (Hr eq_refl).
  destruct (Hu Ha) as [Hd _]. cbn [hx_pmmr backend_of at_ backend] in Hd. unfold synced in Hs. rewrite Hs in Hd.
  destruct s as [[[b1 l1] h2 h3 h4 h5] bt]. cbn [fst snd header_pmmr_h h_backend] in Hd.
  unfold on_header_h, map_backend in He. cbn [fst snd header_pmmr_h sync_pmmr_h output_pmmr_h rproof_pmmr_h kernel_pmmr_h
    h_backend h_last_pos] in He. rewrite Hr, Hd in He. destruct res; injection He as <- <-; eauto.
Qed.

(** The block's unit of work. *)
Lemma apply_block_quietly b : quietly (apply_block c b).
Proof.
  unfold apply_block, apply_header, apply_output_indexed, apply_output, apply_input, apply_kernel.
  keeps_seq; eauto with quiet keeps.
  - apply (tkeeps_tfor ext_quiet). intros o. keeps_seq; eauto with quiet keeps.
    apply quietly_batch. intros b1 u b2 Hb. apply bind_Ok_inv in Hb as (b' & Hb%map_err_Ok_inv & [= _ <-]).
    by refine (still_put_ser _ _ _ _ _ _ Hb).
  - apply (tkeeps_tfor ext_quiet). intros i. keeps_seq; eauto with quiet keeps. case_match; [|eauto with keeps].
    keeps_seq; eauto with quiet keeps.
Qed.

Lemma input_bitmap_still b h bm b' :
  get_block_input_bitmap c min_date max_date bitmap_serialize bitmap_deserialize b h = Ok (bm, b') -> still b b'.
Proof.
  unfold get_block_input_bitmap, get. cbn [bind]. destruct (committed b !! _); [by intros [= _ <-]|].
  intros Hb. apply bind_Ok_inv in Hb as (blk & _ & Hb). unfold build_and_store_block_input_bitmap in Hb.
  apply bind_Ok_inv in Hb as (? & _ & Hb). apply bind_Ok_inv in Hb as (? & _ & Hb).
  apply bind_Ok_inv in Hb as (b1 & Hb & [= _ <-]). by refine (still_put _ _ _ _ _ _ Hb).
Qed.

Lemma collect_inputs_still fuel : forall b target h l l' b',
  collect_inputs c min_date max_date bitmap_serialize bitmap_deserialize fuel b target h l = Ok (l', b') -> still b b'.
Proof.
  induction fuel as [|fuel IH]; intros b target h l l' b'; cbn [collect_inputs]; [done|]. intros He.
  apply bind_Ok_inv in He as (x & _ & He). destruct (decide _); [by injection He as _ <-|].
  destruct (_ <? 1); [by injection He as _ <-|]. apply bind_Ok_inv in He as ([l1 b1] & Hb & He).
  apply bind_Ok_inv in He as (h1 & _ & He). etransitivity; [|by eapply IH].
  destruct (get_block_input_bitmap _ _ _ _ _ _ _) as [[bm b2]| |] eqn:Eb; [|by injection Hb as _ <-|done]. injection Hb as _ <-.
  by eapply input_bitmap_still.
Qed.

Lemma rewind_quietly h : quietly (TxHashSet.rewind c min_date max_date bitmap_serialize bitmap_deserialize h).
Proof.
  unfold TxHashSet.rewind, rewind_to_pos. keeps_seq; eauto with quiet keeps.
  apply quietly_batch. intros b bm b' He. unfold input_pos_to_rewind in He.
  destruct (_ <? _); [by injection He as _ <-|]. apply bind_Ok_inv in He as (t & _ & He).
  apply bind_Ok_inv in He as ([l b1] & Hc & He). apply bind_Ok_inv in He as (? & _ & He). injection He as _ <-.
  by eapply collect_inputs_still.
Qed.

Lemma block_sums_quietly b : quietly (ext_verify_block_sums c min_date max_date b).
Proof.
  apply quietly_batch. intros b1 u b2 Hb. apply bind_Ok_inv in Hb as (b' & Hb & [= _ <-]). unfold verify_block_sums in Hb.
  do 4 (apply bind_Ok_inv in Hb as (? & _ & Hb)). apply bind_Ok_inv in Hb as ([? ?] & _ & Hb).
  apply bind_Ok_inv in Hb as (? & _ & Hb%map_err_Ok_inv). by refine (still_put_ser _ _ _ _ _ _ Hb).
Qed.
#[local] Hint Resolve apply_block_quietly rewind_quietly block_sums_quietly : quiet.

Lemma apply_checked_quietly b : quietly (apply_checked c min_date max_date b).
Proof. unfold apply_checked, apply_block_to_txhashset. keeps_seq; eauto with quiet keeps. Qed.
#[local] Hint Resolve apply_checked_quietly : quiet.

Lemma fork_quietly b :
  quietly (rewind_and_apply_fork c min_date max_date bitmap_serialize bitmap_deserialize b).
Proof.
  unfold rewind_and_apply_fork. keeps_seq; [eauto with keeps|]. case_match. keeps_seq; [eauto with quiet|].
  apply (tkeeps_tfor ext_quiet). intros h. keeps_seq; eauto with quiet keeps.
Qed.

Lemma apply_checked_undoes b : undoes (apply_checked c min_date max_date b).
Proof. unfold apply_checked, apply_block_to_txhashset. keeps_seq; eauto with undo keeps. Qed.
#[local] Hint Resolve apply_checked_undoes : undo.

#[local] Abbreviation block_work := (block_work c min_date max_date bitmap_serialize bitmap_deserialize).

Lemma block_work_undoes b is_fork : undoes (block_work b is_fork).
Proof.
  unfold ProcessBlock.block_work, rewind_and_apply_fork. keeps_seq; [|eauto with undo keeps..|].
  - destruct is_fork; [|eauto with keeps]. keeps_seq; [eauto with keeps|]. case_match. keeps_seq; [eauto with undo|].
    apply (tkeeps_tfor undo_from). intros h. keeps_seq; eauto with undo keeps.
  - destruct (negb _); eauto with undo keeps.
Qed.

(** It asks for a rollback exactly when the block has no more work than the head. *)
Lemma block_work_decides b is_fork e e' :
  rollback e = false -> block_work b is_fork e = (Ok tt, e') ->
  exists tip, head (ext_batch e) = Ok tip /\ rollback e' = negb (has_more_work (header b) tip) /\
    quiet (ext_batch e) (ext_batch e').
Proof.
  intros Hr He. unfold ProcessBlock.block_work in He.
  apply tbind_Ok_inv in He as ([] & e1 & H1 & He). apply tbind_Ok_inv in He as ([] & e2 & H2 & He).
  apply tbind_Ok_inv in He as (tip & e3 & H3 & He). apply tread_Ok_inv in H3 as [H3%map_err_Ok_inv ->].
  assert (ext_quiet e e1) as Q1 by (destruct is_fork; [by eapply fork_quietly|by injection H1 as <-]).
  assert (ext_quiet e e2) as [Q2 Q3] by (etransitivity; [done|]; by eapply apply_checked_quietly).
  exists tip. destruct (still_quiet _ _ Q3) as [Q4 Q5]. split; [congruence|].
  destruct (has_more_work (header b) tip); injection He as <-; cbn [negb rollback ext_batch]; by split; [congruence|].
Qed.

(** ** The commit of the unit of work *)

(** The ranges of [e] on disk. *)
Definition advanced (t : TxHashSet) (e : Extension) (t' : TxHashSet) : Prop :=
  exists hb ob rb kb,
    sync (backend (header_pmmr e)) = Ok hb /\ sync (backend (output_pmmr e)) = Ok ob /\
    sync (backend (rproof_pmmr e)) = Ok rb /\ sync (backend (kernel_pmmr e)) = Ok kb /\
    t' = mkTxHashSet (mkHandle hb (last_pos (header_pmmr e))) (sync_pmmr_h t)
           (mkHandle ob (last_pos (output_pmmr e))) (mkHandle rb (last_pos (rproof_pmmr e)))
           (mkHandle kb (last_pos (kernel_pmmr e))).

Lemma commit_spec e0 e t bt r s' :
  ext_undo e0 e ->
  backend_fixed (backend (header_pmmr e0)) -> backend_fixed (backend (output_pmmr e0)) ->
  backend_fixed (backend (rproof_pmmr e0)) ->
  commit_extension (ext_batch e) (sizes e) (returned e t, bt) = (r, s') ->
  match r with
  | Ok _ => advanced t e s'.1 /\ s'.2 = commit_child bt (ext_batch e)
  | Err _ => exists err, sync (backend (kernel_pmmr e)) = Err err
  | Panic => True
  end /\ committed s'.2 = committed bt.
Proof.
  intros [U1 U2 U3 _] F1 F2 F3.
  destruct (sync_fixed _ _ U1 F1) as [hb S1]. destruct (sync_fixed _ _ U2 F2) as [ob S2].
  destruct (sync_fixed _ _ U3 F3) as [rb S3].
  unfold commit_extension, tbind, tmodify, tzoom, sync_handle, sizes.
  cbn -[sync]. rewrite S1. cbn -[sync]. rewrite S2. cbn -[sync]. rewrite S3. cbn -[sync].
  destruct (sync (backend (kernel_pmmr e))) as [kb|err|] eqn:S4; cbn -[sync]; intros [= <- <-]; cbn; [|by eauto|done].
  split; [|done]. split; [|done]. by exists hb, ob, rb, kb.
Qed.

Definition block_ran (b : Block) (is_fork : bool) (t : TxHashSet) (bt : Batch) (e : Extension) : Prop :=
  exists h, head_header c min_date max_date bt = Ok h /\
    block_work b is_fork (new_extension t (child bt) h) = (Ok tt, e).

(** What [extending] does with a block. *)
Lemma block_extending b is_fork t bt r t' bt' :
  handles_synced t -> set_anchored t -> set_fixed t ->
  extending c min_date max_date (block_work b is_fork) (t, bt) = (r, (t', bt')) ->
  committed bt' = committed bt /\
  match r with
  | Ok _ => exists e tip, block_ran b is_fork t bt e /\ head bt = Ok tip /\ head bt' = Ok tip /\
      if has_more_work (header b) tip then advanced t e t' else t' = t
  | Err _ => t' = t \/ exists e err, block_ran b is_fork t bt e /\ sync (backend (kernel_pmmr e)) = Err err
  | Panic => True
  end.
Proof.
  intros Hs Ha (F1 & F2 & F3) He. unfold extending in He.
  destruct (store_err _) as [h|err|] eqn:Hh; [|injection He as <- <- <-; by eauto..].
  apply map_err_Ok_inv in Hh. destruct (block_work _ _ _) as [res e] eqn:Hw.
  assert (ext_undo (new_extension t (child bt) h) e) as Hu by (by eapply block_work_undoes).
  pose proof (discard_returned _ _ _ _ Hs Hu) as Hd.
  destruct res as [[]|err|]; [|injection He as <- <- <-; rewrite ?Hd; by eauto..].
  destruct (block_work_decides b is_fork (new_extension t (child bt) h) e eq_refl Hw) as (tip & Ht & Hr & Hq).
  assert (block_ran b is_fork t bt e) as Hran by (exists h; by split).
  change (head (ext_batch (new_extension t (child bt) h))) with (head bt) in Ht. destruct Hq as [Hq1 Hq2].
  destruct (rollback e) eqn:Er.
  - injection He as <- <- <-. split; [done|]. exists e, tip. rewrite Hd.
    destruct (has_more_work (header b) tip); by split_and!.
  - unfold tbind in He. destruct (commit_extension _ _ _) as [rc [t1 b1]] eqn:Hc.
    destruct (commit_spec _ _ _ _ _ _ Hu F1 F2 F3 Hc) as [Hsp Hcm]. cbn [fst snd] in *.
    destruct rc as [[]|err|].
    + destruct Hsp as [Hadv ->]. injection He as <- <- <-. split; [done|]. exists e, tip.
      destruct (has_more_work (header b) tip); [|done]. split_and!; [done|done| |done]. by rewrite <- Ht.
    + injection He as <- <- <-. split; [done|]. right. destruct Hsp as [err' He]. eauto.
    + by injection He as <- <- <-.
Qed.

(** ** The header of a block *)
#[local] Abbreviation process_header_for_block :=
  (process_header_for_block c min_date max_date get_progpow_value u256_from config opts pow_verifier now).

Lemma header_work_undoes h (is_fork : bool) :
  hx_undoes (tbind (if is_fork then rewind_and_apply_header_fork c min_date max_date h else tret tt) (fun _ =>
             tbind (tread (hx_validate_root c h)) (fun _ =>
             tbind (hx_apply_header c h) (fun _ => tret tt)))).
Proof.
  keeps_seq; eauto with keeps. destruct is_fork; [apply header_fork_undoes|eauto with keeps].
Qed.

Lemma put_single_head (p : Z) data b b' : p <> HEAD_PREFIX -> put_ser b [p] (Ok data) = Ok b' -> quiet b b'.
Proof.
  intros Hp Hb. split; [|by eapply put_committed]. unfold head. f_equal. eapply get_put_ne; [exact Hb|]. congruence.
Qed.

Lemma update_header_head_quiet b h r b' : update_header_head c b h = Ok (r, b') -> quiet b b'.
Proof.
  unfold update_header_head. intros Hu. apply bind_Ok_inv in Hu as (t & _ & Hu).
  destruct (has_more_work h t); [|by injection Hu as _ <-]. apply bind_Ok_inv in Hu as (tip & _ & Hu).
  apply bind_Ok_inv in Hu as (b1 & Hb%map_err_Ok_inv & [= _ <-]). by apply (put_single_head HEADER_HEAD_PREFIX) in Hb.
Qed.

Lemma ctx_put_inv f (s s' : TxHashSet * Batch) r :
  ctx_put f s = (r, s') ->
  s'.1 = s.1 /\ match r with Ok _ => f s.2 = Ok s'.2 | Err e => f s.2 = Err e /\ s' = s | Panic => s' = s end.
Proof.
  unfold ctx_put, ctx_batch, tzoom. destruct (f s.2) as [b|e|] eqn:Ef; cbn [bind]; intros [= <- <-]; by rewrite ?Ef.
Qed.

(** The set is never changed by it, and a header it accepts can be written. *)
Lemma process_header_spec h is_fork t bt r t' bt' :
  synced (h_backend (header_pmmr_h t)) -> backend_anchored (h_backend (header_pmmr_h t)) ->
  process_header_for_block h is_fork (t, bt) = (r, (t', bt')) ->
  r = Panic \/
  t' = t /\ quiet bt bt' /\ (r = Ok tt -> exists bs, write_header c Full h = Ok bs).
Proof.
  intros Hs Ha. unfold ProcessBlock.process_header_for_block. unfold tbind at 1.
  destruct (header_extending _ _ _ _ _) as [r1 s1] eqn:E1.
  apply (header_extending_undone _ (t, bt) _ _ (header_work_undoes h is_fork) Hs Ha) in E1 as E2.
  destruct E2 as [->| ->]; [intros [= <- _]; by left|].
  destruct r1 as [[]|e|]; [|intros [= <- <- <-]; by right|intros [= <- _ _]; by left].
  unfold tbind at 1, ctx_validate_header, tread at 1.
  destruct (validate_header _ _ _ _ _ _ _ _ _ _ _) as [[]|e|]; [|intros [= <- <- <-]; by right|intros [= <- _ _]; by left].
  unfold tbind at 1. destruct (ctx_put _ _) as [r2 [t2 b2]] eqn:E2.
  apply ctx_put_inv in E2 as [Et E2]. cbn [fst snd] in Et, E2. subst t2. destruct r2 as [[]|e|].
  2: { destruct E2 as [_ [= ->]]. intros [= <- <- <-]. by right. }
  2: { intros [= <- _ _]. by left. }
  unfold add_block_header, save_block_header in E2. apply map_err_Ok_inv in E2. apply bind_Ok_inv in E2 as (x & _ & E2).
  pose proof (quiet_put_ser _ _ _ _ _ E2) as Q1. destruct (write_header c Full h) as [bs| |]; [|done..].
  unfold tbind, ctx_batch, tzoom. cbn [snd fst]. destruct (update_header_head c b2 h) as [[o b3]|e|] eqn:E3; intros [= <- <- <-].
  - right. split; [done|]. split; [|by eauto]. etransitivity; [done|]. by eapply update_header_head_quiet.
  - by right.
  - by left.
Qed.

(** ** The block *)
Lemma add_block_spec b bt bs :
  write_header c Full (header b) = Ok bs ->
  match add_block c bitmap_serialize bt b with
  | Ok bt' => quiet bt bt'
  | Err _ => False
  | Panic => True
  end.
Proof.
  intros Hw. unfold add_block, save_block, build_and_store_block_input_bitmap.
  destruct (build_bitmap_ok bt b) as [bm ->]. cbn [bind].
  destruct (hash_of_written c _ _ Hw) as [x Hx]. unfold hash_of. rewrite Hx. cbn [bind].
  unfold save_block_input_bitmap. cbn [put bind]. unfold write_block. rewrite Hw. cbn [bind put_ser map_err put].
  etransitivity; [by eapply (quiet_put BLOCK_INPUT_BITMAP_PREFIX)|]. by eapply (quiet_put BLOCK_PREFIX).
Qed.

Lemma update_tail_spec bt h :
  match update_body_tail c bt h with
  | Ok bt' => quiet bt bt'
  | Err _ => False
  | Panic => True
  end.
Proof.
  unfold update_body_tail, tip_from_header, hash_of. destruct (header_hash c h); cbn [bind]; [|done..].
  by eapply (put_single_head TAIL_PREFIX).
Qed.

Lemma update_head_spec bt b t :
  head bt = Ok t ->
  match update_head c bt b with
  | Ok (Some tip, bt') => has_more_work (header b) t = true /\ tip_from_header (E := chain_error) c (header b) = Ok tip /\
      save_body_head bt tip = Ok bt'
  | Ok (None, bt') => has_more_work (header b) t = false /\ bt' = bt
  | Err _ => False
  | Panic => True
  end.
Proof.
  intros Ht. unfold update_head. rewrite Ht. cbn [map_err bind]. destruct (has_more_work _ _); [|done].
  unfold tip_from_header, hash_of. destruct (header_hash c (header b)); cbn [bind]; [by split_and!|done|done].
Qed.

(** What is left once the unit of work is done: nothing can fail, and the head moves
    when the block has more work. *)
Definition finish (b : Block) : trans (TxHashSet * Batch) chain_error (option Tip) :=
  tbind (ctx_put (fun bt => add_block c bitmap_serialize bt b)) (fun _ =>
  tbind (ctx_put (fun bt => match tail bt with
                            | Ok _ => Ok bt
                            | Err _ => update_body_tail c bt (header b)
                            | Panic => Panic
                            end)) (fun _ =>
  ctx_batch (fun bt => update_head c bt b))).

Lemma finish_spec b t bt bs tip r t' bt' :
  write_header c Full (header b) = Ok bs -> head bt = Ok tip ->
  finish b (t, bt) = (r, (t', bt')) ->
  r = Panic \/
  t' = t /\ committed bt' = committed bt /\
  match r with
  | Ok None => has_more_work (header b) tip = false /\ head bt' = Ok tip
  | Ok (Some new) => has_more_work (header b) tip = true /\ tip_from_header (E := chain_error) c (header b) = Ok new /\
      tx bt' !! [HEAD_PREFIX] = Some (write_tip new)
  | _ => False
  end.
Proof.
  intros Hw Ht. unfold finish, ctx_put, ctx_batch, tbind, tzoom. cbn [fst snd].
  pose proof (add_block_spec b bt bs Hw) as Hab. destruct (add_block _ _ _ _) as [b1|e|]; cbn [bind fst snd].
  2: done. 2: { intros [= <- _ _]. by left. }
  assert (match match tail b1 with Ok _ => Ok b1 | Err _ => update_body_tail c b1 (header b) | Panic => Panic end with
          | Ok b2 => quiet bt b2 | Err _ => False | Panic => True end) as Htl.
  { destruct (tail b1); [done| |done]. pose proof (update_tail_spec b1 (header b)) as Hu.
    destruct (update_body_tail _ _ _); [by etransitivity|done|done]. }
  destruct (match tail b1 with Ok _ => _ | _ => _ end) as [b2|e|]; cbn [bind fst snd].
  2: done. 2: { intros [= <- _ _]. by left. }
  destruct Htl as [Hh Hc]. assert (head b2 = Ok tip) as Ht2 by congruence.
  pose proof (update_head_spec b2 b tip Ht2) as Hu.
  destruct (update_head c b2 b) as [[[new|] b3]|e|]; intros [= <- <- <-]; [right..|done|by left].
  - destruct Hu as (Hm & Hn & [= <-]). split_and!; [done|done|done|done|]. cbn [tx]. by rewrite lookup_insert_eq.
  - destruct Hu as [Hm ->]. by split_and!.
Qed.

#[local] Abbreviation process_block :=
  (process_block c min_date max_date get_progpow_value u256_from config opts pow_verifier orphans now
     bitmap_serialize bitmap_deserialize load_foundation_output).

(** Processing a block is atomic on the transaction hash set.  An error leaves the
    set as it was (short of an I/O error in the last of the four files to be written);
    without one, a block with no more work than the head is stored and the set and the
    head stay, and a block with more work becomes the head and the set is the one its
    unit of work built.  The store outside the batch never changes. *)
Theorem process_block_atomic b t bt r t' bt' :
  handles_synced t -> set_anchored t -> set_fixed t ->
  process_block b (t, bt) = (r, (t', bt')) ->
  match r with
  | Ok None => t' = t /\ head bt' = head bt /\ committed bt' = committed bt /\
      exists tip, head bt = Ok tip /\ has_more_work (header b) tip = false
  | Ok (Some new) => tx bt' !! [HEAD_PREFIX] = Some (write_tip new) /\ committed bt' = committed bt /\
      tip_from_header (E := chain_error) c (header b) = Ok new /\
      exists tip is_fork b1 e, head bt = Ok tip /\ has_more_work (header b) tip = true /\
        block_ran b is_fork t b1 e /\ advanced t e t'
  | Err _ => committed bt' = committed bt /\
      (t' = t \/ exists is_fork b1 e err, block_ran b is_fork t b1 e /\ sync (backend (kernel_pmmr e)) = Err err)
  | Panic => True
  end.
Proof.
  intros Hs Ha Hf. unfold ProcessBlock.process_block. unfold tbind at 1, tread at 1.
  destruct (check_known _ _ _ _) as [[]|e|]; [|intros [= <- <- <-]; by eauto|by intros [= <- _ _]].
  unfold tbind at 1, tread at 1. cbn [snd].
  destruct (store_err (head bt)) as [tip|e|] eqn:Ht; [|intros [= <- <- <-]; by eauto|by intros [= <- _ _]].
  apply map_err_Ok_inv in Ht. set (is_fork := negb (bool_decide _)). unfold tbind at 1, tread at 1.
  destruct (let? prev := _ in _) as [[]|e|]; [|intros [= <- <- <-]; by eauto|by intros [= <- _ _]].
  unfold tbind at 1. destruct (ProcessBlock.process_header_for_block _ _ _ _ _ _ _ _ _ _ _ _) as [r1 [t1 b1]] eqn:E1.
  destruct (process_header_spec _ _ _ _ _ _ _ ltac:(apply Hs) ltac:(apply Ha) E1) as [->|(-> & [Qh Qc] & Hw)].
  { by intros [= <- _ _]. }
  destruct r1 as [[]|e|]; [|intros [= <- <- <-]; by eauto|by intros [= <- _ _]].
  destruct (Hw eq_refl) as [bs Hbs]. unfold tbind at 1, tread at 1. cbn [snd].
  destruct (validate_block _ _ _ _ _ _) as [[]|e|]; [|intros [= <- <- <-]; by eauto|by intros [= <- _ _]].
  unfold tbind at 1. destruct (extending _ _ _ _ _) as [r2 [t2 b2]] eqn:E2.
  destruct (block_extending _ _ _ _ _ _ _ Hs Ha Hf E2) as [Hc2 Hx].
  destruct r2 as [[]|e|]; [|intros [= <- <- <-]|by intros [= <- _ _]].
  2: { split; [congruence|]. destruct Hx as [->|(e' & err & Hran & He')]; eauto 9. }
  destruct Hx as (e & tip' & Hran & Ht1 & Ht2 & Hadv). assert (tip' = tip) as -> by congruence.
  intros Hfin. destruct (finish_spec b t2 b2 bs tip r t' bt' Hbs Ht2 Hfin) as [->|(-> & Hc3 & Hr)]; [done|].
  destruct r as [[new|]|e'|]; [..|done|done].
  - destruct Hr as (Hm & Hn & Htx). rewrite Hm in Hadv. split_and!; [done|congruence|done|]. by exists tip, is_fork, b1, e.
  - destruct Hr as (Hm & Hh). rewrite Hm in Hadv. split_and!; [done|congruence|congruence|]. eauto.
Qed.

End Theory.
