(* ===== verification/ForkTheory.v ===== *)
(** * Going back to a fork

    The two walks of the code over the ancestors of a header: [fork_point] looks for
    the last header on the current chain, [input_pos_to_rewind] gathers the outputs
    spent since a header.  On a store where every header extends its parent both
    end, within the fuel of one step per height, and they compute what they should. *)
From S2P Require Import Prelude PmmrIndex Pmmr AppendOnlyFile PruneList PmmrBackend PmmrData Ser Global Pow Reward Retarget Feijoada Committed Transaction CutThrough Block BlockTheory ChainStore ChainStoreTheory Pipe PipeTheory TxHashSet ProcessBlock TxHashSetUndo ProcessBlockTheory.

Section Fork.
Context `{Hasher} `{Secp} (c : ChainTypes) (min_date max_date : Z).
Context (bitmap_serialize : gset Z -> list Z) (bitmap_deserialize : list Z -> gset Z).
Context (genesis : BlockHeader).
Hypothesis genesis_height : height genesis = 0.

#[local] Abbreviation hdr := (get_block_header c min_date max_date).
#[local] Abbreviation chain_ok := (chain_ok c min_date max_date genesis).
#[local] Abbreviation stored := (PipeTheory.stored c min_date max_date).

(** The headers from the first one back to the last, which is not among them. *)
Inductive between (b : Batch) : BlockHeader -> list BlockHeader -> BlockHeader -> Prop :=
  | between_refl h : between b h [] h
  | between_step h p l a : hdr b (prev_hash h) = Ok p -> between b p l a -> between b h (h :: l) a.

Lemma parent_above b h :
  chain_ok b -> stored b h -> 0 < height h ->
  exists p, hdr b (prev_hash h) = Ok p /\ stored b p /\ height h = height p + 1 /\ 0 <= height p.
Proof.
  intros Hb [k Hk] Hh. destruct (parent_ok _ _ _ _ b Hb k h Hk) as [[-> _]|(p & Hp & [Hx _])]; [lia|].
  exists p. split_and!; [done|by exists (prev_hash h)|done|]. eapply stored_height; [done|by exists (prev_hash h)].
Qed.

(** ** The fork point *)
Section Point.
Context (b : Batch) (on_chain : BlockHeader -> outcome chain_error ()).
Hypothesis Hb : chain_ok b.
Hypothesis on_chain_no_panic : forall h, stored b h -> on_chain h <> Panic.

(** [a] is where the walk stops: on the chain, or at height zero. *)
Definition stops_at (a : BlockHeader) : Prop := height a = 0 \/ on_chain a = Ok tt.

Definition fork_found (current : BlockHeader) (l : list BlockHeader) (hs : list Hash) (a : BlockHeader) : Prop :=
  between b current l a /\ stops_at a /\ Forall (fun h => ~ stops_at h) l /\
  Forall2 (fun h x => header_hash c h = Ok x) l hs.

Lemma fork_point_ends fuel : forall current acc,
  stored b current -> (Z.to_nat (height current) < fuel)%nat ->
  exists l hs a, fork_found current l hs a /\
    fork_point c min_date max_date fuel b on_chain current acc = Ok (rev hs ++ acc, a).
Proof.
  induction fuel as [|fuel IH]; intros current acc Hs Hf; [lia|]. cbn [fork_point].
  assert (stops_at current -> exists l hs a, fork_found current l hs a /\ Ok (acc, current) = Ok (E := chain_error) (rev hs ++ acc, a)) as Hstop.
  { intros Hst. exists [], [], current. split; [|done]. split_and!; [constructor|done|constructor|constructor]. }
  pose proof (stored_height _ _ _ _ b Hb current Hs) as H0h.
  destruct (Z.gtb_spec (height current) 0); [|apply Hstop; left; lia].
  pose proof (on_chain_no_panic current Hs) as Hnp. destruct (on_chain current) as [[]|e|] eqn:Ec; [by apply Hstop; right| |done].
  destruct (stored_hash _ _ _ _ b Hb current Hs) as (x & Hx & _). unfold hash_of, get_previous_header. rewrite Hx. cbn [bind].
  destruct (parent_above b current Hb Hs ltac:(lia)) as (p & Hp & Hps & Hh & Hp0). rewrite Hp. cbn [store_err map_err bind].
  destruct (IH p (x :: acc) Hps ltac:(lia)) as (l & hs & a & (Hl & Ha & Hn & Hhs) & ->).
  exists (current :: l), (x :: hs), a. split; [|cbn [rev]; by rewrite <- app_assoc].
  split_and!; [by econstructor|done| |by constructor]. constructor; [|done]. intros [?|?]; [lia|congruence].
Qed.

End Point.

(** The search for a fork terminates: from the parent of a header it goes back to
    the last ancestor on the chain, or to height zero, and returns the hashes of the
    headers left behind, oldest first, none of which is on the chain. *)
Theorem fork_of_terminates b on_chain h :
  chain_ok b -> (forall h, stored b h -> on_chain h <> Panic) -> stored b h -> 0 < height h ->
  exists p l hs a, hdr b (prev_hash h) = Ok p /\ fork_found b on_chain p l hs a /\
    fork_of c min_date max_date b on_chain h = Ok (rev hs, a).
Proof.
  intros Hb Hp Hs Hh. destruct (parent_above b h Hb Hs Hh) as (p & Hpp & Hps & _ & Hp0).
  destruct (fork_point_ends b on_chain Hb Hp (chain_fuel p) p [] Hps ltac:(unfold chain_fuel; lia)) as (l & hs & a & Hf & E).
  exists p, l, hs, a. split_and!; [done|done|]. unfold fork_of, get_previous_header. rewrite Hpp.
  cbn [store_err map_err bind]. by rewrite E, app_nil_r.
Qed.

(** ** The outputs spent since a header *)

(** Batches that read the same. *)
Record same_reads (b b' : Batch) : Prop := {
  same_committed : committed b' = committed b;
  same_headers : forall k, hdr b' k = hdr b k;
  same_blocks : forall k, get_block c min_date max_date b' k = get_block c min_date max_date b k;
  same_positions : forall x, get_output_pos b' x = get_output_pos b x
}.

#[local] Instance same_reads_pre : PreOrder same_reads.
Proof. split; [by constructor|]. intros x y z [] []. constructor; intros; congruence. Qed.

#[local] Abbreviation input_bitmap := (get_block_input_bitmap c min_date max_date bitmap_serialize bitmap_deserialize).

Definition bitmap_of (b : Batch) (x : Hash) : outcome store_error (gset Z) :=
  let? '(bm, _) := input_bitmap b x in Ok bm.

Lemma input_bitmap_reads b x bm b' : input_bitmap b x = Ok (bm, b') -> same_reads b b'.
Proof.
  unfold get_block_input_bitmap, get. cbn [bind]. destruct (committed b !! _); [by intros [= _ <-]|].
  intros Hb. apply bind_Ok_inv in Hb as (blk & _ & Hb). unfold build_and_store_block_input_bitmap in Hb.
  apply bind_Ok_inv in Hb as (? & _ & Hb). apply bind_Ok_inv in Hb as (? & _ & Hb).
  apply bind_Ok_inv in Hb as (b1 & Hb & [= _ <-]). unfold save_block_input_bitmap in Hb.
  constructor; [by injection Hb as <-|..]; intros k.
  - unfold get_block_header. f_equal. eapply get_put_ne; [exact Hb|key_ne].
  - unfold get_block. f_equal. eapply get_put_ne; [exact Hb|key_ne].
  - unfold get_output_pos. f_equal. eapply get_put_ne; [exact Hb|key_ne].
Qed.

Lemma bitmap_of_same b b' x : same_reads b b' -> bitmap_of b' x = bitmap_of b x.
Proof.
  intros [Ec _ Eb Ep]. unfold bitmap_of, get_block_input_bitmap, get. rewrite Ec. cbn [bind].
  destruct (committed b !! _); [done|]. rewrite Eb. destruct (get_block _ _ _ b x) as [blk| |]; [|done..]. cbn [bind].
  unfold build_and_store_block_input_bitmap.
  assert (build_block_input_bitmap b' blk = build_block_input_bitmap b blk) as ->.
  { unfold build_block_input_bitmap. generalize (∅ : gset Z). induction (inputs (b_body blk)) as [|i l IH]; intros bm; [done|].
    cbn [foldM]. rewrite Ep. by destruct (get_output_pos b (in_commit i)); cbn [bind]. }
  destruct (build_block_input_bitmap b blk); cbn [bind]; [|done..]. destruct (hash_of c (header blk)); by cbn.
Qed.

Lemma chain_ok_same b b' : same_reads b b' -> chain_ok b -> chain_ok b'.
Proof.
  intros [_ Eh _ _] [Hs Hp Hg]. constructor; [|..|done]; intros k h; rewrite Eh.
  - apply Hs.
  - intros Hk. destruct (Hp k h Hk) as [?|(p & ? & ?)]; [left|right; exists p]; by rewrite Eh.
Qed.

Lemma between_same b b' h l a : same_reads b b' -> between b' h l a -> between b h l a.
Proof.
  intros [_ Eh _ _]. induction 1 as [|h p l a Hp _ IH]; [constructor|]. rewrite Eh in Hp. by econstructor.
Qed.

(** The positions spent by the blocks of [l]; a block that is not found spends none. *)
Definition spent_by (b : Batch) (h : BlockHeader) : gset Z :=
  match header_hash c h with
  | Ok x => match bitmap_of b x with Ok bm => bm | _ => ∅ end
  | _ => ∅
  end.

Lemma spent_by_same b b' h : same_reads b b' -> spent_by b' h = spent_by b h.
Proof. intros Hr. unfold spent_by. destruct (header_hash c h); [|done..]. by rewrite (bitmap_of_same _ _ _ Hr). Qed.

(** Merging the bitmaps at 256 loses none. *)
Lemma bitmap_fast_or_union bm l : ⋃ (bitmap_fast_or (Some bm) l).2 = (⋃ l ∪ bm : gset Z).
Proof.
  unfold bitmap_fast_or. destruct (_ <? 256)%nat; cbn [snd]; unfold fast_or;
    rewrite ?union_list_singleton_L, union_list_app_L, union_list_singleton_L; done.
Qed.

Definition input_stops (target : Hash) (a : BlockHeader) : Prop := header_hash c a = Ok target \/ height a = 0.

Lemma collect_inputs_ends fuel target : forall b current acc,
  chain_ok b -> (forall x, bitmap_of b x <> Panic) -> stored b current -> (Z.to_nat (height current) < fuel)%nat ->
  exists l a bms b', between b current l a /\ input_stops target a /\ Forall (fun h => ~ input_stops target h) l /\ same_reads b b' /\ ⋃ bms = (⋃ acc ∪ ⋃ (map (spent_by b) l) : gset Z) /\
    collect_inputs c min_date max_date bitmap_serialize bitmap_deserialize fuel b target current acc = Ok (bms, b').
Proof.
  induction fuel as [|fuel IH]; intros b current acc Hb Hnp Hs Hf; [lia|]. cbn [collect_inputs].
  destruct (stored_hash _ _ _ _ b Hb current Hs) as (x & Hx & _). unfold hash_of. rewrite Hx. cbn [bind].
  pose proof (stored_height _ _ _ _ b Hb current Hs) as H0h.
  assert (input_stops target current -> exists l a bms b', between b current l a /\ input_stops target a /\
    Forall (fun h => ~ input_stops target h) l /\ same_reads b b' /\ ⋃ bms = (⋃ acc ∪ ⋃ (map (spent_by b) l) : gset Z) /\
    Ok (E := chain_error) (acc, b) = Ok (bms, b')) as Hstop.
  { intros Hst. exists [], current, acc, b. split_and!; [constructor|done|constructor|done|set_solver|done]. }
  destruct (decide (x = target)) as [->|Hne]; [apply Hstop; by left|].
  destruct (Z.ltb_spec (height current) 1); [apply Hstop; right; lia|].
  destruct (parent_above b current Hb Hs ltac:(lia)) as (p & Hp & Hps & Hh & Hp0).
  assert (exists bms b1, match input_bitmap b x with
    | Ok (b_res, b) => Ok ((bitmap_fast_or (Some b_res) acc).2, b)
    | Err _ => Ok (acc, b) | Panic => Panic end = Ok (E := chain_error) (bms, b1) /\ same_reads b b1 /\ ⋃ bms = ⋃ acc ∪ spent_by b current) as (bms & b1 & -> & Hr & Hu).
  { specialize (Hnp x). unfold spent_by. rewrite Hx. unfold bitmap_of in *.
    destruct (input_bitmap b x) as [[bm b1]| |] eqn:Ei; cbn [bind] in *; [|do 2 eexists; split_and!; [done|done|set_solver]|done].
    do 2 eexists. split_and!; [done|by eapply input_bitmap_reads|]. by rewrite bitmap_fast_or_union. }
  cbn [bind]. unfold get_previous_header. rewrite (same_headers _ _ Hr), Hp. cbn [store_err map_err bind].
  destruct (IH b1 p bms (chain_ok_same _ _ Hr Hb)) as (l & a & bms' & b' & Hl & Ha & Hn & Hr' & Hu' & ->); [|..|lia|].
  - intros y. by rewrite (bitmap_of_same _ _ _ Hr).
  - destruct Hps as [k Hk]. exists k. by rewrite (same_headers _ _ Hr).
  - exists (current :: l), a, bms', b'. split_and!; [|done| |by etransitivity| |done].
    + econstructor; [done|]. by eapply between_same.
    + constructor; [|done]. intros [?|?]; [congruence|lia].
    + cbn [map union_list foldr]. change (foldr union ∅ ?x) with (⋃ x). rewrite Hu', Hu.
      rewrite (map_ext _ _ (fun h => spent_by_same b b1 h Hr)). set_solver.
Qed.

(** [input_pos_to_rewind] is the union of the inputs of the blocks being undone:
    it terminates and returns exactly the positions spent by the blocks from the head
    back to the header rewound to, however many bitmaps were merged on the way. *)
Theorem input_pos_to_rewind_exact b h head_header target :
  chain_ok b -> (forall x, bitmap_of b x <> Panic) -> stored b head_header ->
  header_hash c h = Ok target -> height h <= height head_header ->
  exists l a b', between b head_header l a /\ input_stops target a /\ Forall (fun h => ~ input_stops target h) l /\
    same_reads b b' /\
    input_pos_to_rewind c min_date max_date bitmap_serialize bitmap_deserialize h head_header b =
      Ok (⋃ (map (spent_by b) l), b').
Proof.
  intros Hb Hnp Hs Hx Hle. unfold input_pos_to_rewind, hash_of. destruct (Z.ltb_spec (height head_header) (height h)); [lia|].
  rewrite Hx. cbn [bind].
  destruct (collect_inputs_ends (chain_fuel head_header) target b head_header [] Hb Hnp Hs ltac:(unfold chain_fuel; lia))
    as (l & a & bms & b' & Hl & Ha & Hn & Hr & Hu & ->).
  exists l, a, b'. split_and!; [done..|]. cbn [bind bitmap_fast_or fst]. unfold ok_or, fast_or. cbn [bind].
  rewrite Hu. do 2 f_equal. by rewrite union_list_nil, union_empty_l_L.
Qed.

End Fork.
