(* ===== verification/ChainTheory.v ===== *)
(** * The chain facade is correct

    What [ChainFacade] promises: a block is accepted whole or not at all and the adapter
    is told what happened; the head never loses work; the retry of orphans ends; the
    search for the block of an output finds it; the kernels of a fast sync are those the
    headers commit to; compaction drops old blocks only. *)
From S2P Require Import Prelude PmmrIndex Pmmr AppendOnlyFile PruneList PmmrBackend PmmrData Ser Global Pow Reward Retarget Feijoada Committed Transaction CutThrough Block BlockTheory ChainStore ChainStoreTheory Pipe PipeTheory TxHashSet ProcessBlock TxHashSetUndo ProcessBlockTheory Orphans ChainFacade.
Import Chain.

(** ** The block of an output *)
Section Search.
Context (by_height : Z -> outcome chain_error BlockHeader) (hd : Z -> BlockHeader) (top pos : Z).
Context (Htop : 0 <= top < 2 ^ 64).
Context (Hhd : forall h, 0 <= h <= top -> by_height h = Ok (hd h)).

#[local] Abbreviation size_at h := (output_mmr_size (hd h)).
Context (Hinc : forall h, 0 <= h < top -> size_at h < size_at (h + 1)).

Lemma size_increases a b : 0 <= a -> a < b -> b <= top -> size_at a < size_at b.
Proof.
  intros Ha Hab Hb. assert (forall n : nat, a + Z.of_nat n < top -> size_at a < size_at (a + Z.of_nat n + 1)) as Hn.
  { induction n as [|n IH]; intros Hn; [rewrite Z.add_0_r; apply Hinc; lia|].
    etransitivity; [apply IH; lia|]. replace (a + Z.of_nat (S n)) with (a + Z.of_nat n + 1) by lia. apply Hinc. lia. }
  specialize (Hn (Z.to_nat (b - a - 1)) ltac:(lia)). by replace (a + _ + 1) with b in Hn by lia.
Qed.

Definition found (h : Z) : Prop := 0 <= h <= top /\ pos <= size_at h /\ (h = 0 \/ size_at (h - 1) < pos).

Lemma search_output_finds k : forall min max,
  0 <= min <= max -> max <= top -> size_at min <= pos <= size_at max -> max - min <= 2 ^ Z.of_nat k ->
  exists h, search_output (S k) by_height pos min max = Ok (hd h) /\ found h.
Proof.
  induction k as [|k IH]; intros min max Hm Hx Hp Hd.
  all: set (s := max - (max - min) / 2).
  all: assert (max -! (max -! min) / 2 = s) as Es
    by (rewrite (u64_sub_small max min), u64_sub_small by (unfold is_u64; Z.to_euclidean_division_equations; lia); done).
  all: assert (min <= s <= max /\ (max - min = 2 * (max - s) \/ max - min = 2 * (max - s) + 1)) as [Hs Hs2]
    by (unfold s; Z.to_euclidean_division_equations; lia).
  all: cbn [search_output]; rewrite Es, (Hhd s) by lia; cbn [bind]; destruct (Z.eqb_spec s 0) as [E0|E0].
  1, 3: exists 0; rewrite E0; split; [done|]; unfold found; assert (max = 0) as -> by lia; split_and!; [lia..|tauto].
  all: rewrite u64_sub_small by (unfold is_u64; lia); rewrite (Hhd (s - 1)) by lia; cbn [bind].
  all: pose proof (Hinc (s - 1) ltac:(lia)) as Hprev; replace (s - 1 + 1) with s in Hprev by lia.
  all: destruct (Z.gtb_spec pos (size_at s)) as [Hgt|Hle].
  1: { assert (s = max) as -> by (simpl in Hd; lia). lia. }
  2: { destruct (decide (s = max)) as [->|]; [lia|]. apply IH; [lia|lia|lia|].
       replace (Z.of_nat (S k)) with (Z.of_nat k + 1) in Hd by lia. rewrite Z.pow_add_r in Hd by lia. lia. }
  all: destruct (Z.ltb_spec pos (size_at (s - 1))) as [Hlt|Hge].
  1: { assert (s - 1 <= min) as Hmin by (simpl in Hd; lia).
       destruct (decide (s - 1 = min)) as [E|]; [rewrite E in Hlt; lia|].
       assert (s = min) as -> by lia. lia. }
  2: { assert (min < s - 1) as Hmin.
       { destruct (Z_lt_le_dec min (s - 1)) as [|Hb]; [done|].
         destruct (decide (s - 1 = min)) as [E|]; [rewrite E in Hlt; lia|]. assert (s = min) as -> by lia. lia. }
       apply IH; [lia|lia|lia|].
       replace (Z.of_nat (S k)) with (Z.of_nat k + 1) in Hd by lia. rewrite Z.pow_add_r in Hd by lia.
       assert (2 ^ Z.of_nat k >= 1) by lia. lia. }
  all: destruct (Z.eqb_spec pos (size_at (s - 1))) as [Heq|Hne].
  1, 3: exists (s - 1); split; [done|]; unfold found; split_and!; [lia..|];
    destruct (decide (s - 1 = 0)) as [|]; [by left|]; right; rewrite Heq; apply size_increases; lia.
  all: exists s; split; [done|]; unfold found; split_and!; [lia..|right; lia].
Qed.

End Search.

Section Output.
Context `{Hasher} `{Secp} (c : ChainTypes) (min_date max_date : Z).

(** The binary search of [get_header_for_output] ends and returns the header of the block
    that created the output: the first one whose output range reaches its position.  The
    heights up to the head have their headers and every block has an output. *)
Theorem get_header_for_output_exact s output_ref hash pos tip (hd : Z -> BlockHeader) :
  TxHashSet.is_unspent (txhashset s) (store s) output_ref = Ok (hash, pos) ->
  Chain.head s = Ok tip -> is_u64 (tip_height tip) ->
  (forall h, 0 <= h <= tip_height tip ->
     set_header_by_height c min_date max_date (txhashset s) (store s) h = Ok (hd h)) ->
  (forall h, 0 <= h < tip_height tip -> output_mmr_size (hd h) < output_mmr_size (hd (h + 1))) ->
  output_mmr_size (hd 0) <= pos <= output_mmr_size (hd (tip_height tip)) ->
  exists h, get_header_for_output c min_date max_date s output_ref = Ok (hd h) /\
    0 <= h <= tip_height tip /\ pos <= output_mmr_size (hd h) /\ (h = 0 \/ output_mmr_size (hd (h - 1)) < pos).
Proof.
  intros Hu Ht Htop Hhd Hinc Hpos. unfold is_u64 in Htop. unfold get_header_for_output. rewrite Hu. cbn [bind]. rewrite Ht. cbn [bind].
  destruct (search_output_finds _ hd (tip_height tip) pos Htop Hhd Hinc 64 0 (tip_height tip)) as (h & Hh & Hf);
    [lia|lia|done|simpl; lia|]. exists h. unfold search_fuel. rewrite Hh. by split.
Qed.

(** With the position before the last output of the genesis block the search does not
    return: the bound [max] stays where it is. *)
Theorem search_output_stalls by_height hd fuel pos :
  by_height 0 = Ok (hd 0) -> by_height 1 = Ok (hd 1) ->
  pos < output_mmr_size (hd 0) -> output_mmr_size (hd 0) <= output_mmr_size (hd 1) ->
  search_output fuel by_height pos 0 1 = Panic.
Proof.
  intros Hh0 Hh1 Hp Hs. induction fuel as [|fuel IH]; [done|]. cbn [search_output].
  change (1 -! (1 -! 0) / 2) with 1. rewrite Hh1. cbn [bind]. change (1 =? 0) with false. cbv iota.
  change (1 -! 1) with 0. rewrite Hh0. cbn [bind].
  destruct (Z.gtb_spec pos (output_mmr_size (hd 1))); [lia|].
  destruct (Z.ltb_spec pos (output_mmr_size (hd 0))); [done|lia].
Qed.

End Output.

(** ** The head in a batch *)
Definition ctx_quiet (s s' : TxHashSet * Batch) : Prop := quiet s.2 s'.2.
#[export] Instance ctx_quiet_pre : PreOrder ctx_quiet.
Proof. split; [by intros s|]. intros x y z ??. unfold ctx_quiet in *. by etransitivity. Qed.

Definition batch_quiet (e e' : Extension) : Prop := quiet (ext_batch e) (ext_batch e').
#[export] Instance batch_quiet_pre : PreOrder batch_quiet.
Proof. split; [by intros s|]. intros x y z ??. unfold batch_quiet in *. by etransitivity. Qed.

Definition hx_batch_quiet (e e' : HeaderExtension) : Prop := quiet (hx_batch e) (hx_batch e').
#[export] Instance hx_batch_quiet_pre : PreOrder hx_batch_quiet.
Proof. split; [by intros s|]. intros x y z ??. unfold hx_batch_quiet in *. by etransitivity. Qed.

Lemma quietly_batch_quiet {A} (m : trans Extension chain_error A) : quietly m -> tkeeps batch_quiet m.
Proof. intros Hm s r s' He. by apply still_quiet, (Hm s r s' He). Qed.

(** Writing the files of a set leaves the batch alone. *)
Definition same_batch (s s' : TxHashSet * Batch) : Prop := s'.2 = s.2.
#[export] Instance same_batch_pre : PreOrder same_batch.
Proof. split; [by intros s|]. intros x y z ??. unfold same_batch in *. congruence. Qed.

Lemma on_handle_same {A} part set (f : PMMRHandle -> outcome chain_error (A * PMMRHandle)) :
  (forall h s, (set h s).2 = s.2) -> tkeeps same_batch (tzoom part set f).
Proof. intros Hs. apply (tkeeps_tzoom same_batch). intros s a p _. apply Hs. Qed.

Lemma commit_batch child n s r s' : commit_extension child n s = (r, s') -> s'.2 = commit_child s.2 child.
Proof.
  unfold commit_extension. unfold tbind at 1. cbn [tmodify]. intros He.
  assert (tkeeps same_batch (tbind (tzoom (fun s => header_pmmr_h s.1) on_header_h sync_handle) (fun _ =>
    tbind (tzoom (fun s => output_pmmr_h s.1) on_output_h sync_handle) (fun _ =>
    tbind (tzoom (fun s => rproof_pmmr_h s.1) on_rproof_h sync_handle) (fun _ =>
    tbind (tzoom (fun s => kernel_pmmr_h s.1) on_kernel_h sync_handle) (fun _ => tmodify (set_last_pos n))))))) as Hk.
  { keeps_seq; [by apply on_handle_same..|]. apply tkeeps_tmodify. intros x. unfold same_batch, set_last_pos.
    by destruct n as [[[]]]. }
  exact (Hk _ _ _ He).
Qed.

Section Heads.
Context `{Hasher} `{Secp} (c : ChainTypes) (min_date max_date : Z).

Lemma extending_quiet {A} (inner : trans Extension chain_error A) :
  tkeeps batch_quiet inner -> tkeeps ctx_quiet (extending c min_date max_date inner).
Proof.
  intros Hin [t bt] r s' He. unfold extending in He. destruct (store_err _) as [h|err|]; [|by injection He as _ <-..].
  destruct (inner _) as [res e] eqn:Ei. pose proof (Hin _ _ _ Ei) as [Q1 Q2]. cbn in Q1, Q2.
  destruct res as [a|err|]; [destruct (rollback e)|..]; [by injection He as _ <-| |by injection He as _ <-..].
  unfold tbind in He. destruct (commit_extension _ _ _) as [rc s1] eqn:Ec. apply commit_batch in Ec.
  assert (s'.2 = s1.2) as Es by (destruct rc; by injection He as _ <-).
  unfold ctx_quiet. rewrite Es, Ec. split; [exact Q1|done].
Qed.

Lemma range_extending_quiet {A} part set tip (inner : trans HeaderExtension chain_error A) :
  (forall h s, (set h s).2 = s.2) -> tkeeps hx_batch_quiet inner ->
  tkeeps ctx_quiet (range_extending c min_date max_date part set tip inner).
Proof.
  intros Hset Hin s r s' He. unfold range_extending in He. destruct (store_err _) as [h|err|]; [|by injection He as _ <-..].
  destruct (inner _) as [res e] eqn:Ei. pose proof (Hin _ _ _ Ei) as [Q1 Q2]. cbn in Q1, Q2.
  assert (forall x y, ctx_quiet s (set x (set y s))) as Hss by (intros x y; unfold ctx_quiet; by rewrite !Hset).
  destruct res as [a|err|]; [destruct (hx_rollback e)|..].
  1, 3: injection He as _ <-; apply Hss.
  2: injection He as _ <-; unfold ctx_quiet; by rewrite Hset.
  unfold tbind, tmodify in He. cbn [fst snd] in He.
  match type of He with context [tzoom part set sync_handle ?x] => set (s1 := x) in * end.
  assert (quiet s.2 s1.2) as Hs1 by (split; [exact Q1|unfold s1; cbn; by rewrite Hset]).
  unfold tzoom in He. destruct (sync_handle (part s1)) as [[[] h1]|err|]; injection He as _ <-; unfold ctx_quiet;
    by rewrite ?Hset.
Qed.

Lemma hx_apply_header_quiet h : tkeeps hx_batch_quiet (hx_apply_header c h).
Proof. unfold hx_apply_header. keeps_seq; [by apply (tkeeps_tzoom hx_batch_quiet)|by apply tkeeps_tmodify|eauto with keeps]. Qed.
Lemma hx_rewind_quiet h : tkeeps hx_batch_quiet (hx_rewind c h).
Proof. unfold hx_rewind. keeps_seq; [by apply (tkeeps_tzoom hx_batch_quiet)|by apply tkeeps_tmodify]. Qed.
Lemma hx_rollback_quiet : tkeeps hx_batch_quiet (hx_force_rollback (E := chain_error)).
Proof. by apply tkeeps_tmodify. Qed.
#[local] Hint Resolve hx_apply_header_quiet hx_rewind_quiet hx_rollback_quiet : keeps.

Lemma header_fork_quiet h : tkeeps hx_batch_quiet (rewind_and_apply_header_fork c min_date max_date h).
Proof. unfold rewind_and_apply_header_fork. keeps_seq; [eauto with keeps|]. case_match. eauto 9 with keeps. Qed.
#[local] Hint Resolve header_fork_quiet : keeps.

Lemma hx_rebuild_quiet tip g : tkeeps hx_batch_quiet (hx_rebuild c min_date max_date tip g).
Proof.
  unfold hx_rebuild. keeps_seq; eauto with keeps; [by apply (tkeeps_tzoom hx_batch_quiet)|].
  apply (tkeeps_tfor hx_batch_quiet). intros h. keeps_seq; eauto with keeps.
Qed.

Lemma ctx_put_quiet f : (forall b b', f b = Ok b' -> quiet b b') -> tkeeps ctx_quiet (ctx_put f).
Proof.
  intros Hf. apply (tkeeps_tzoom ctx_quiet). intros s a b Hb. apply bind_Ok_inv in Hb as (b1 & Hb & [= _ <-]). by apply Hf.
Qed.

Lemma add_block_header_quiet b h b' : add_block_header c b h = Ok b' -> quiet b b'.
Proof.
  unfold add_block_header, save_block_header. intros Hb%map_err_Ok_inv. apply bind_Ok_inv in Hb as (x & _ & Hb).
  by eapply quiet_put_ser.
Qed.

Lemma update_sync_head_quiet b h b' : update_sync_head c b h = Ok b' -> quiet b b'.
Proof.
  unfold update_sync_head. intros Hb. apply bind_Ok_inv in Hb as (t & _ & Hb%map_err_Ok_inv).
  by eapply (put_single_head SYNC_HEAD_PREFIX).
Qed.

Lemma update_body_tail_quiet b h b' : update_body_tail c b h = Ok b' -> quiet b b'.
Proof.
  unfold update_body_tail. intros Hb. apply bind_Ok_inv in Hb as (t & _ & Hb%map_err_Ok_inv).
  by eapply (put_single_head TAIL_PREFIX).
Qed.

Lemma update_header_head_quiets h : tkeeps ctx_quiet (ctx_batch (fun b => update_header_head c b h)).
Proof. apply (tkeeps_tzoom ctx_quiet). intros s a b Hb. by eapply update_header_head_quiet. Qed.

Section Pipeline.
Context (get_progpow_value : list Z -> Z -> Z -> Hash) (u256_from : Hash -> Z).
Context (config : PolicyConfig) (opts : Z) (pow_verifier : BlockHeader -> bool) (now : Z).

Lemma process_header_quiet h is_fork :
  tkeeps ctx_quiet (process_header_for_block c min_date max_date get_progpow_value u256_from config opts pow_verifier now h is_fork).
Proof.
  unfold process_header_for_block. keeps_seq.
  - apply range_extending_quiet; [done|]. keeps_seq; eauto with keeps. destruct is_fork; eauto with keeps.
  - unfold ctx_validate_header. eauto with keeps.
  - apply ctx_put_quiet. intros b b'. apply add_block_header_quiet.
  - apply update_header_head_quiets.
  - eauto with keeps.
Qed.

Lemma sync_work_quiet prev hs : tkeeps hx_batch_quiet (sync_work c prev hs).
Proof.
  unfold sync_work. keeps_seq; [eauto with keeps|]. apply (tkeeps_tfor hx_batch_quiet). intros h. keeps_seq; eauto with keeps.
  apply (tkeeps_tzoom hx_batch_quiet). intros e r b Hb. apply bind_Ok_inv in Hb as (b1 & Hb & [= _ <-]). by eapply add_block_header_quiet.
Qed.

Lemma sync_headers_quiet hs :
  tkeeps ctx_quiet (ProcessBlock.sync_block_headers c min_date max_date get_progpow_value u256_from config opts pow_verifier now hs).
Proof.
  unfold ProcessBlock.sync_block_headers. destruct hs as [|h hs]; [apply (tkeeps_tret ctx_quiet)|].
  destruct (last (h :: hs)) as [lh|]; [|apply (tkeeps_tret ctx_quiet)].
  keeps_seq; [eauto with keeps..| | |apply update_header_head_quiets].
  - destruct (negb _); [|eauto with keeps]. keeps_seq; [eauto with keeps| |apply (tkeeps_tfor ctx_quiet); intros x; unfold ctx_validate_header; eauto with keeps].
    apply range_extending_quiet; [done|]. apply sync_work_quiet.
  - apply ctx_put_quiet. intros b b'. apply update_sync_head_quiet.
Qed.

Context (orphans : gset (list Z)) (bitmap_serialize : gset Z -> list Z) (bitmap_deserialize : list Z -> gset Z).
Context (load_foundation_output : Z -> Output * TxKernel).

Lemma block_work_quiet b is_fork :
  tkeeps batch_quiet (block_work c min_date max_date bitmap_serialize bitmap_deserialize b is_fork).
Proof.
  unfold block_work. keeps_seq.
  - destruct is_fork; [|eauto with keeps]. apply quietly_batch_quiet, fork_quietly.
  - apply quietly_batch_quiet, apply_checked_quietly.
  - eauto with keeps.
  - destruct (negb _); [by apply tkeeps_tmodify|eauto with keeps].
Qed.

Lemma add_block_quiet b b' blk : add_block c bitmap_serialize b blk = Ok b' -> quiet b b'.
Proof.
  unfold add_block, save_block, build_and_store_block_input_bitmap. intros Hb%map_err_Ok_inv.
  apply bind_Ok_inv in Hb as ([bm b1] & H1 & Hb). apply bind_Ok_inv in H1 as (bm' & _ & H1).
  apply bind_Ok_inv in H1 as (x & _ & H1). apply bind_Ok_inv in H1 as (b2 & H1 & [= -> ->]).
  apply bind_Ok_inv in Hb as (y & _ & Hb). etransitivity; [by eapply (quiet_put BLOCK_INPUT_BITMAP_PREFIX)|]. by eapply quiet_put_ser.
Qed.

(** Processing a block only moves the head in its last step. *)
Lemma process_block_head b t bt r t' bt' :
  ProcessBlock.process_block c min_date max_date get_progpow_value u256_from config opts pow_verifier orphans now
    bitmap_serialize bitmap_deserialize load_foundation_output b (t, bt) = (Ok r, (t', bt')) ->
  exists b1, quiet bt b1 /\ update_head c b1 b = Ok (r, bt').
Proof.
  unfold ProcessBlock.process_block. intros He.
  apply tbind_Ok_inv in He as (u1 & s1 & E1 & He). apply tread_Ok_inv in E1 as [_ ->].
  apply tbind_Ok_inv in He as (tip & s2 & E2 & He). apply tread_Ok_inv in E2 as [_ ->].
  apply tbind_Ok_inv in He as (u3 & s3 & E3 & He). apply tread_Ok_inv in E3 as [_ ->].
  apply tbind_Ok_inv in He as (u4 & s4 & E4 & He). apply process_header_quiet in E4.
  apply tbind_Ok_inv in He as (u5 & s5 & E5 & He). apply tread_Ok_inv in E5 as [_ ->].
  apply tbind_Ok_inv in He as (u6 & s6 & E6 & He). apply (extending_quiet _ (block_work_quiet _ _)) in E6.
  apply tbind_Ok_inv in He as (u7 & s7 & E7 & He). apply (ctx_put_quiet _ (fun b b' => add_block_quiet b b' _)) in E7.
  apply tbind_Ok_inv in He as (u8 & s8 & E8 & He).
  apply ctx_put_quiet in E8; [|intros x y; destruct (ChainStore.tail x); [by intros [= <-]|apply update_body_tail_quiet|done]].
  unfold ctx_batch in He. apply tzoom_Ok_inv in He as (b1 & Hu & [= -> ->]).
  exists s8.2. split; [|exact Hu]. unfold ctx_quiet in *. cbn [snd] in *. do 3 (etransitivity; [eassumption|]). eassumption.
Qed.

End Pipeline.
End Heads.

(** ** One block *)
Definition added_to (p p' : OrphanBlockPool) (k : list Z) (o : Orphan) : Prop :=
  Orphans.orphans p' ⊆ <[k := o]> (Orphans.orphans p) /\
  (forall x, is_Some (height_idx p' !! x) -> x = o_height o \/ is_Some (height_idx p !! x)).

Lemma remove_hashes_sub hs m : remove_hashes hs m ⊆ m.
Proof. apply map_subseteq_spec. intros k o. rewrite lookup_remove_hashes. by case_decide. Qed.

Lemma evict_far_sub heights m : (evict_far heights m).1 ⊆ m.1 /\ (evict_far heights m).2 ⊆ m.2.
Proof.
  revert m. induction heights as [|h hs IH]; intros m; cbn [evict_far]; [done|].
  set (m1 := match m.2 !! h with Some _ => _ | None => _ end).
  assert (m1.1 ⊆ m.1 /\ m1.2 ⊆ m.2) as [H1 H2].
  { unfold m1. destruct (m.2 !! h); [|done]. split; [apply remove_hashes_sub|apply delete_subseteq]. }
  case_match; [done|]. destruct (IH m1) as [? ?]. split; by etransitivity.
Qed.

Lemma evict_sub now p : Orphans.orphans (evict now p) ⊆ Orphans.orphans p /\ height_idx (evict now p) ⊆ height_idx p.
Proof.
  unfold evict, cleanup_index. cbn.
  destruct (evict_far_sub (heights_down (height_idx p)) (filter (fun e => ~ too_old now e.2) (Orphans.orphans p), height_idx p)) as [H1 H2].
  cbn [fst snd] in H1, H2. split; [etransitivity; [exact H1|apply map_filter_subseteq]|].
  etransitivity; [apply map_filter_subseteq|exact H2].
Qed.

Section Single.
Context `{Hasher} `{Secp} (c : ChainTypes) (min_date max_date : Z).

Lemma orphan_add_sub {E} now o p p' :
  orphan_add (E := E) c now o p = Ok p' -> exists hash, header_hash c (header (o_block o)) = Ok hash /\ added_to p p' (bytes hash) o.
Proof.
  unfold orphan_add, hash_of. destruct (header_hash c _) as [hash| |]; cbn [bind]; [|done..]. intros [= <-]. exists hash. split; [done|].
  assert (added_to p (insert_orphan (bytes hash) o p) (bytes hash) o) as Ha.
  { split; [done|]. intros x. cbn. rewrite lookup_insert_is_Some'. naive_solver. }
  destruct (_ >? _); [|done]. destruct Ha as [H1 H2]. destruct (evict_sub now (insert_orphan (bytes hash) o p)) as [E1 E2].
  split; [by etransitivity|]. intros x [v Hx]. apply H2. exists v. by eapply lookup_weaken.
Qed.

Context (get_progpow_value : list Z -> Z -> Z -> Hash) (u256_from : Hash -> Z).
Context (config : PolicyConfig) (pow_verifier : BlockHeader -> bool) (now : Z).
Context (bitmap_serialize : gset Z -> list Z) (bitmap_deserialize : list Z -> gset Z).
Context (load_foundation_output : Z -> Output * TxKernel).

#[local] Abbreviation single :=
  (process_block_single c min_date max_date get_progpow_value u256_from config pow_verifier now bitmap_serialize
     bitmap_deserialize load_foundation_output).

(** What an attempt does to the parts of the chain other than the set. *)
Definition attempted (b : Block) (opts : Z) (s : Chain) (r : outcome chain_error (option Tip)) (s' : Chain) : Prop :=
  match r with
  | Ok new => orphans s' = orphans s /\ exists prev b1 bt,
      ChainStore.head (view s) = Ok prev /\ quiet (view s) b1 /\ update_head c b1 b = Ok (new, bt) /\
      store s' = commit bt /\ notices s' = notices s ++ [mkNotice b (determine_status new prev) opts (store s') (txhashset s')]
  | Err e => store s' = store s /\ notices s' = notices s /\
      (orphans s' = orphans s \/ e = Pipe.Orphan /\ orphan_add (E := chain_error) c now (mkOrphan b opts now) (orphans s) = Ok (orphans s'))
  | Panic => store s' = store s /\ orphans s' = orphans s
  end.

Lemma single_attempted b opts s r s' : single b opts s = (r, s') -> attempted b opts s r s'.
Proof.
  unfold process_block_single. unfold tbind at 1, tread at 1.
  destruct (store_err _) as [prev|e|] eqn:Hp; [|intros [= <- <-]; cbn; by eauto..]. apply map_err_Ok_inv in Hp.
  unfold in_batch. destruct (pipe_process_block _ _ _ _ _ _ _ _ _ _ _ _ _ _ _) as [r1 [t1 bt]] eqn:E1.
  destruct r1 as [new|e|]; cbn [is_ok].
  - intros [= <- <-]. apply process_block_head in E1 as (b1 & Hq & Hu). cbn. split; [done|]. exists prev, b1, bt. by split_and!.
  - destruct e; intros [= <- <-] || idtac; cbn; try (by eauto). destruct (orphan_add _ _ _ _) as [pool|e|] eqn:Ea; intros [= <- <-]; cbn.
    + split_and!; [done|done|]. by right.
    + unfold orphan_add, hash_of in Ea. by destruct (header_hash c _).
    + done.
  - by intros [= <- <-].
Qed.

Definition set_good (t : TxHashSet) : Prop := handles_synced t /\ set_anchored t /\ set_fixed t.

(** C2. A block is accepted whole or not at all.  An error leaves the store as it was,
    and the set too (short of an I/O error in the last of the four files to be written);
    nobody is told, and the orphan pool changes only when the parent is missing.  An
    accepted block with no more work than the head is stored and announced as a fork, and
    the head and the set stay.  An accepted block with more work becomes the head, the set
    is the one its unit of work built, and it is announced as the next block exactly when
    its parent was the head. *)
Theorem process_block_single_atomic b opts s r s' :
  set_good (txhashset s) -> single b opts s = (r, s') ->
  match r with
  | Ok None => txhashset s' = txhashset s /\ Chain.head s' = Chain.head s /\ orphans s' = orphans s /\
      notices s' = notices s ++ [mkNotice b Fork opts (store s') (txhashset s')]
  | Ok (Some new) => db (store s') !! [HEAD_PREFIX] = Some (write_tip new) /\ orphans s' = orphans s /\
      tip_from_header (E := chain_error) c (header b) = Ok new /\
      exists prev is_fork bt e, Chain.head s = Ok prev /\ has_more_work (header b) prev = true /\
        block_ran c min_date max_date bitmap_serialize bitmap_deserialize b is_fork (txhashset s) bt e /\
        advanced (txhashset s) e (txhashset s') /\
        notices s' = notices s ++ [mkNotice b (if decide (prev_hash (header b) = last_block_h prev) then Next else Reorg) opts
          (store s') (txhashset s')]
  | Err e => store s' = store s /\ notices s' = notices s /\
      (e <> Pipe.Orphan -> orphans s' = orphans s) /\
      (txhashset s' = txhashset s \/
       exists is_fork bt x err, block_ran c min_date max_date bitmap_serialize bitmap_deserialize b is_fork (txhashset s) bt x /\
         sync (backend (kernel_pmmr x)) = Err err)
  | Panic => True
  end.
Proof.
  intros (G1 & G2 & G3) He. pose proof (single_attempted _ _ _ _ _ He) as Hat. revert He.
  unfold process_block_single. unfold tbind at 1, tread at 1.
  destruct (store_err (ChainStore.head (view s))) as [prev|e|] eqn:Hp; [|intros [= <- <-]; split_and!; by eauto|by intros [= <- _]].
  unfold in_batch. destruct (pipe_process_block _ _ _ _ _ _ _ _ _ _ _ _ _ _ _) as [r1 [t1 bt]] eqn:E1.
  pose proof (process_block_atomic _ _ _ _ _ _ _ _ _ _ _ _ _ _ _ _ _ _ _ G1 G2 G3 E1) as Ha.
  destruct r1 as [[new|]|e|]; cbn [is_ok]; [| | |by intros [= <- _]].
  - intros [= <- <-]. destruct Hat as (Ho & _). destruct Ha as (H1 & _ & H2 & tip & is_fork & b1 & x & H3 & H4 & H5 & H6).
    split_and!; [exact H1|exact Ho|exact H2|]. exists prev, is_fork, b1, x.
    assert (prev = tip) as -> by (apply map_err_Ok_inv in Hp; congruence).
    split_and!; [exact Hp|done|done|exact H6|]. cbn [block_accepted notices set_store set_txhashset store txhashset]. do 3 f_equal.
    unfold tip_from_header, hash_of in H2. destruct (header_hash c _); cbn [bind] in H2; [|done..]. injection H2 as <-.
    unfold determine_status. cbn [prev_block_h]. rewrite bool_decide_eq_true_2 by eauto. by repeat case_decide.
  - intros [= <- <-]. destruct Hat as (Ho & _). destruct Ha as (-> & H1 & _). split_and!; [done| |done|done].
    unfold Chain.head, view. cbn. f_equal. exact H1.
  - intros He. assert (r = Panic \/ txhashset s' = t1 /\ exists e', r = Err e') as [->|[Ht [e' ->]]]; [|done|].
    { destruct e; try (injection He as <- <-; by eauto). destruct (orphan_add _ _ _ _); injection He as <- <-; by eauto. }
    destruct Hat as (H1 & H2 & H3). rewrite Ht. split_and!; [done|done|naive_solver|]. destruct Ha as [_ [->|Ha]]; [by left|].
    destruct Ha as (is_fork & b1 & x & err & Ha). right. by exists is_fork, b1, x, err.
Qed.

(** ** The head over a history *)
(** What any header that was decoded from bytes has. *)
Definition sized_header (h : BlockHeader) : Prop := is_u64 (height h) /\ difficulty_ok (h_total_difficulty h).

Definition pool_headers (s : Chain) : Prop :=
  map_Forall (fun _ o => sized_header (header (o_block o))) (Orphans.orphans (orphans s)).
Definition heavier (s s' : Chain) : Prop :=
  forall tip, Chain.head s = Ok tip -> exists tip', Chain.head s' = Ok tip' /\ num_sum (tip_difficulty tip) <= num_sum (tip_difficulty tip').
Definition grows (s s' : Chain) : Prop := pool_headers s -> pool_headers s' /\ heavier s s'.

#[local] Instance grows_pre : PreOrder grows.
Proof.
  split.
  - intros s Hp. split; [done|]. intros tip Ht. exists tip. by split; [|lia].
  - intros x y z Hxy Hyz Hp. destruct (Hxy Hp) as [Hp1 H1]. destruct (Hyz Hp1) as [Hp2 H2]. split; [done|].
    intros tip Ht. destruct (H1 tip Ht) as (t1 & Ht1 & L1). destruct (H2 t1 Ht1) as (t2 & Ht2 & L2). exists t2. split; [done|lia].
Qed.

Lemma same_head_grows s s' :
  ChainStore.head (view s') = ChainStore.head (view s) -> Orphans.orphans (orphans s') ⊆ Orphans.orphans (orphans s) -> grows s s'.
Proof.
  intros Hh Ho Hp. split; [intros k o Hk; apply (Hp k o); by eapply lookup_weaken|].
  intros tip Ht. exists tip. unfold Chain.head in *. rewrite Hh. by split; [|lia].
Qed.

Lemma more_work_sum h tip : has_more_work h tip = true -> num_sum (tip_difficulty tip) < num_sum (h_total_difficulty h).
Proof.
  unfold has_more_work, difficulty_cmp. destruct (Z.compare_spec (num_sum (h_total_difficulty h)) (num_sum (tip_difficulty tip)));
    [done|done|]. intros _. lia.
Qed.

Lemma update_head_grows b b1 r bt tip :
  sized_header (header b) -> ChainStore.head b1 = Ok tip -> update_head c b1 b = Ok (r, bt) ->
  exists tip', ChainStore.head bt = Ok tip' /\ num_sum (tip_difficulty tip) <= num_sum (tip_difficulty tip').
Proof.
  intros Hh Ht Hu. pose proof (update_head_spec c b1 b tip Ht) as Hs. rewrite Hu in Hs. destruct r as [new|].
  - destruct Hs as (Hm & Hn & Hb). exists new. pose proof (more_work_sum _ _ Hm) as Hlt.
    unfold tip_from_header, hash_of in Hn. destruct (header_hash c _); cbn [bind] in Hn; [|done..]. injection Hn as <-.
    split; [|cbn [tip_difficulty]; lia]. unfold ChainStore.head. unfold save_body_head in Hb.
    erewrite get_put_eq; [reflexivity|exact Hb|]. apply deserialize_tip. exact Hh.
  - destruct Hs as [_ ->]. exists tip. by split; [|lia].
Qed.

Lemma single_grows b opts : sized_header (header b) -> tkeeps grows (single b opts).
Proof.
  intros Hh s r s' He. apply single_attempted in He. destruct r as [new|e|].
  - destruct He as (Ho & prev & b1 & bt & Hp & [Hq _] & Hu & Hs & _). intros Hpool. split; [unfold pool_headers; by rewrite Ho|].
    intros tip Ht. unfold Chain.head in *. apply map_err_Ok_inv in Ht.
    destruct (update_head_grows b b1 new bt tip Hh ltac:(congruence) Hu) as (tip' & Ht' & Hle). exists tip'. split; [|done].
    unfold view. rewrite Hs. change (ChainStore.head (batch (commit bt))) with (ChainStore.head bt). by rewrite Ht'.
  - destruct He as (Hs & _ & [Ho|[_ Ho]]); [apply same_head_grows; unfold view; by rewrite ?Hs, ?Ho|].
    intros Hpool. split; [|intros tip Ht; exists tip; unfold Chain.head, view in *; rewrite Hs; by split; [|lia]].
    apply orphan_add_sub in Ho as (hash & _ & Hsub & _). intros k o Hk. eapply lookup_weaken in Hk; [|exact Hsub].
    apply lookup_insert_Some in Hk as [[_ <-]|[_ Hk]]; [done|by apply (Hpool k o)].
  - destruct He as [Hs Ho]. apply same_head_grows; unfold view; by rewrite ?Hs, ?Ho.
Qed.

Lemma try_orphans_grows l acc :
  Forall (fun o => sized_header (header (o_block o))) l ->
  tkeeps grows (try_orphans c min_date max_date get_progpow_value u256_from config pow_verifier now bitmap_serialize
    bitmap_deserialize load_foundation_output l acc).
Proof.
  intros Hl. revert acc. induction Hl as [|o l Ho _ IH]; intros acc s r s' He; cbn [try_orphans] in He.
  - by injection He as _ <-.
  - destruct (single _ _ s) as [r1 s1] eqn:E1. apply (single_grows _ _ Ho) in E1.
    destruct r1; [etransitivity; [exact E1|by eapply IH]..|]. by injection He as _ <-.
Qed.

Lemma taken_orphans p h r p' :
  remove_by_height p h = (r, p') ->
  Orphans.orphans p' ⊆ Orphans.orphans p /\ Forall (fun o => exists k, Orphans.orphans p !! k = Some o) (default [] r).
Proof.
  unfold remove_by_height. destruct (height_idx p !! h) as [hs|]; [|intros [= <- <-]; by split; [|constructor]].
  destruct (take_hashes hs _) as [l m] eqn:Et. intros [= <- <-]. destruct (take_hashes_spec _ _ _ _ Et) as [-> Hl].
  split; [apply map_filter_subseteq|]. cbn [default from_option]. rewrite Hl. apply Forall_fmap, Forall_forall.
  intros [k o] Hk. apply elem_of_map_to_list, map_lookup_filter_Some in Hk as [Hk _]. by exists k.
Qed.

Lemma orphan_loop_grows fuel h :
  tkeeps grows (orphan_loop c min_date max_date get_progpow_value u256_from config pow_verifier now bitmap_serialize
    bitmap_deserialize load_foundation_output fuel h).
Proof.
  revert h. induction fuel as [|fuel IH]; intros h s r s' He Hpool; cbn [orphan_loop] in He; [injection He as _ <-; by apply grows_pre|].
  destruct (remove_by_height _ _) as [ro pool] eqn:Er. destruct (taken_orphans _ _ _ _ Er) as [Hsub Hl].
  assert (grows s (set_orphans pool s)) as Hg by by apply same_head_grows.
  destruct ro as [l|]; [|injection He as _ <-; by apply Hg].
  assert (Forall (fun o => sized_header (header (o_block o))) l) as Hok.
  { eapply Forall_impl; [exact Hl|]. intros o [k Hk]. by apply (Hpool k o). }
  revert Hpool. change (grows s s'). etransitivity; [exact Hg|]. revert He. unfold tbind.
  destruct (try_orphans _ _ _ _ _ _ _ _ _ _ _ _ _ _) as [r1 s1] eqn:E1. apply (try_orphans_grows _ _ Hok) in E1.
  destruct r1 as [[ha|]|e|]; intros He; [etransitivity; [exact E1|by eapply IH]|by injection He as _ <-..].
Qed.

Lemma process_block_grows b opts :
  sized_header (header b) ->
  tkeeps grows (process_block c min_date max_date get_progpow_value u256_from config pow_verifier now bitmap_serialize
    bitmap_deserialize load_foundation_output b opts).
Proof.
  intros Hh. unfold process_block. apply (tkeeps_tbind grows); [by apply single_grows|]. intros res.
  apply (tkeeps_tbind grows); [|intros []; apply (tkeeps_tret grows)].
  intros s r s' He. unfold check_orphans in He. by eapply orphan_loop_grows.
Qed.

Lemma in_batch_grows {A} (m : trans (TxHashSet * Batch) chain_error A) : tkeeps ctx_quiet m -> tkeeps grows (in_batch m).
Proof.
  intros Hm s r s' He. unfold in_batch in He. destruct (m _) as [r1 [t bt]] eqn:E1. apply Hm in E1 as [Hq _]. cbn in Hq.
  injection He as <- <-. apply same_head_grows; [|by destruct (is_ok r1)]. destruct (is_ok r1); [|done]. exact Hq.
Qed.

Lemma on_set_grows {A} (m : Store -> trans TxHashSet chain_error A) : tkeeps grows (on_set m).
Proof. intros s r s' He. unfold on_set in He. destruct (m _ _) as [r1 t]. injection He as _ <-. by apply same_head_grows. Qed.

End Single.

(** ** Compaction *)
Lemma quiet_delete key b b' : key <> [HEAD_PREFIX] -> delete_key b key = Ok b' -> quiet b b'.
Proof.
  unfold delete_key. intros Hk. destruct (tx b !! key); intros [= <-]. split; [|done].
  unfold ChainStore.head, get_ser, get_ser_access. cbn [tx]. by rewrite lookup_delete_ne.
Qed.

Lemma ignore_err_quiet b m b' : (m = Ok b' -> quiet b b') -> ignore_err (E := store_error) b m = Ok b' -> quiet b b'.
Proof. destruct m; cbn; [auto|intros _; by intros [= <-]|done]. Qed.

Lemma delete_block_quiet b h b' : delete_block b h = Ok b' -> quiet b b'.
Proof.
  unfold delete_block. intros Hd. apply bind_Ok_inv in Hd as (b1 & H1 & Hd). apply bind_Ok_inv in Hd as (b2 & H2 & Hd).
  etransitivity; [by eapply (quiet_delete (to_key BLOCK_PREFIX (bytes h)))|]. etransitivity.
  - eapply ignore_err_quiet; [|exact H2]. by apply (quiet_delete (to_key BLOCK_SUMS_PREFIX (bytes h))).
  - eapply ignore_err_quiet; [|exact Hd]. by apply (quiet_delete (to_key BLOCK_INPUT_BITMAP_PREFIX (bytes h))).
Qed.

Lemma foldM_quiet {A E} (f : Batch -> A -> outcome E Batch) l b b' :
  (forall b x b', x ∈ l -> f b x = Ok b' -> quiet b b') -> foldM f l b = Ok b' -> quiet b b'.
Proof.
  intros Hf. revert b. induction l as [|x l IH]; intros b He; cbn [foldM] in He; [by injection He as <-|].
  apply bind_Ok_inv in He as (b1 & H1 & He). etransitivity; [eapply Hf; [|exact H1]; by left|].
  eapply IH; [|exact He]. intros. eapply Hf; [|done]. by right.
Qed.

Lemma deser_while_prefix_keys {A} (rd : read A) prefix l l' e :
  deser_while_prefix rd prefix l = Ok l' -> e ∈ l' -> prefix <> [] -> take (length prefix) e.1 = prefix.
Proof.
  revert l'. induction l as [|[key value] l IH]; intros l' Hd He Hp; cbn [deser_while_prefix] in Hd.
  - injection Hd as <-. by apply not_elem_of_nil in He.
  - case_match; [done|]. destruct (length prefix =? 0)%nat eqn:E0; [destruct prefix; done|]. cbn [orb] in Hd.
    case_bool_decide as Hk; [|injection Hd as <-; by apply not_elem_of_nil in He].
    destruct (deserialize rd value) as [v|e'|]; [|injection Hd as <-; by apply not_elem_of_nil in He|done].
    apply bind_Ok_inv in Hd as (rest & Hr & [= <-]). apply elem_of_cons in He as [->|He]; [done|]. by eapply IH.
Qed.

Lemma clear_output_pos_quiet b b' : clear_output_pos b = Ok b' -> quiet b b'.
Proof.
  unfold clear_output_pos. intros Hc. apply bind_Ok_inv in Hc as (l & Hl & Hc). eapply foldM_quiet; [|exact Hc].
  intros b1 x b2 Hx Hd. eapply quiet_delete; [|exact Hd]. unfold ser_iter in Hl.
  eapply deser_while_prefix_keys in Hl; [|exact Hx|done]. intros Hk. by rewrite Hk in Hl.
Qed.

Lemma rebuild_index_quiet : tkeeps batch_quiet rebuild_index.
Proof.
  unfold rebuild_index. keeps_seq; [| |].
  - apply (tkeeps_tzoom batch_quiet). intros e u b Hb. apply bind_Ok_inv in Hb as (b1 & Hb%map_err_Ok_inv & [= _ <-]).
    by apply clear_output_pos_quiet.
  - eauto with keeps.
  - apply (tkeeps_tfor batch_quiet). intros pos e r e' He. destruct (output_data _ _); [|by injection He as _ <-].
    eapply (tkeeps_tzoom batch_quiet); [|exact He]. intros x u b Hb. apply bind_Ok_inv in Hb as (b1 & Hb%map_err_Ok_inv & [= _ <-]).
    eapply quiet_put_ser. exact Hb.
Qed.

Section Compact.
Context `{Hasher} `{Secp} (c : ChainTypes) (min_date max_date : Z).
Context (bitmap_serialize : gset Z -> list Z) (bitmap_deserialize : list Z -> gset Z).
Context (stream_hash : list Z -> option (Hash * list Z * Z))
  (stream_output : list Z -> option (OutputIdentifier * list Z * Z))
  (stream_rproof : list Z -> option (RangeProof * list Z * Z)).

Lemma remove_historical_quiet arch t b b' : remove_historical_blocks c min_date max_date arch t b = Ok b' -> quiet b b'.
Proof.
  unfold remove_historical_blocks. destruct arch; [by intros [= <-]|]. intros Hr.
  apply bind_Ok_inv in Hr as (tip & _ & Hr). destruct (_ =? 0); [by injection Hr as <-|].
  apply bind_Ok_inv in Hr as (th & _ & Hr). apply bind_Ok_inv in Hr as (tl & _ & Hr).
  apply bind_Ok_inv in Hr as (l & _ & Hr). apply bind_Ok_inv in Hr as (b1 & Hf%map_err_Ok_inv & Hr).
  apply bind_Ok_inv in Hr as (tip' & _ & Hs%map_err_Ok_inv). etransitivity; [eapply foldM_quiet; [|exact Hf]|by eapply (put_single_head TAIL_PREFIX)].
  intros x e y _ Hd. unfold delete_old in Hd. case_match; [|by injection Hd as <-]. apply bind_Ok_inv in Hd as (h & _ & Hd).
  eapply ignore_err_quiet; [|exact Hd]. apply delete_block_quiet.
Qed.

Lemma compacting_quiet arch :
  tkeeps ctx_quiet (compacting c min_date max_date bitmap_serialize bitmap_deserialize stream_hash stream_output stream_rproof arch).
Proof.
  unfold compacting. keeps_seq.
  - apply (tkeeps_tzoom ctx_quiet). intros s u s' Hs. apply bind_Ok_inv in Hs as (s1 & Hs & [= _ <-]). unfold TxHashSet.compact in Hs.
    apply bind_Ok_inv in Hs as (hh & _ & Hs). apply bind_Ok_inv in Hs as (hash & _ & Hs). apply bind_Ok_inv in Hs as (hz & _ & Hs).
    apply bind_Ok_inv in Hs as ([rm b1] & Hi & Hs). apply bind_Ok_inv in Hs as (o & _ & Hs). apply bind_Ok_inv in Hs as (rp & _ & [= <-]).
    unfold ctx_quiet, id. cbn [snd]. unfold input_pos_to_rewind in Hi. case_match; [by injection Hi as _ <-|].
    apply bind_Ok_inv in Hi as (tgt & _ & Hi). apply bind_Ok_inv in Hi as ([bms b2] & Hc & Hi).
    apply bind_Ok_inv in Hi as (bm & _ & [= _ <-]). by eapply still_quiet, collect_inputs_still.
  - apply extending_quiet, rebuild_index_quiet.
  - destruct (negb arch); [|eauto with keeps]. intros s r s' He. eapply ctx_put_quiet; [|exact He]. intros b b'. apply remove_historical_quiet.
Qed.

End Compact.

(** ** A history of the chain *)
Section History.
Context `{Hasher} `{Secp} (c : ChainTypes) (min_date max_date : Z).
Context (get_progpow_value : list Z -> Z -> Z -> Hash) (u256_from : Hash -> Z).
Context (config : PolicyConfig) (pow_verifier : BlockHeader -> bool).
Context (bitmap_serialize : gset Z -> list Z) (bitmap_deserialize : list Z -> gset Z).
Context (load_foundation_output : Z -> Output * TxKernel).
Context (stream_hash : list Z -> option (Hash * list Z * Z))
  (stream_output : list Z -> option (OutputIdentifier * list Z * Z))
  (stream_rproof : list Z -> option (RangeProof * list Z * Z)).

#[local] Abbreviation process_block now := (Chain.process_block c min_date max_date get_progpow_value u256_from config
  pow_verifier now bitmap_serialize bitmap_deserialize load_foundation_output).

(** The calls that change a chain, on blocks as the reader gives them, whatever they
    return. *)
Inductive chain_step : Chain -> Chain -> Prop :=
| step_block now b opts s r s' :
    sized_header (header b) -> process_block now b opts s = (r, s') -> chain_step s s'
| step_headers now hs opts s r s' :
    Chain.sync_block_headers c min_date max_date get_progpow_value u256_from config pow_verifier now hs opts s = (r, s') ->
    chain_step s s'
| step_reset s r s' : Chain.reset_sync_head s = (r, s') -> chain_step s s'
| step_rebuild tip s r s' : Chain.rebuild_sync_mmr c min_date max_date tip s = (r, s') -> chain_step s s'
| step_validate fast s r s' :
    Chain.validate c min_date max_date bitmap_serialize bitmap_deserialize fast s = (r, s') -> chain_step s s'
| step_roots b s r s' : Chain.set_txhashset_roots c min_date max_date b s = (r, s') -> chain_step s s'
| step_proof o h s r s' :
    Chain.get_merkle_proof c min_date max_date bitmap_serialize bitmap_deserialize o h s = (r, s') -> chain_step s s'
| step_compact s r s' :
    Chain.compact c min_date max_date bitmap_serialize bitmap_deserialize stream_hash stream_output stream_rproof s = (r, s') ->
    chain_step s s'.

Lemma reset_sync_quiet :
  tkeeps ctx_quiet (ctx_batch (fun b =>
    let? b := store_err (ChainStore.reset_sync_head b) in
    let? head := store_err (ChainStore.get_sync_head b) in Ok (head, b))).
Proof.
  apply (tkeeps_tzoom ctx_quiet). intros s u b Hb. apply bind_Ok_inv in Hb as (b1 & Hb%map_err_Ok_inv & Hr).
  apply bind_Ok_inv in Hr as (t & _ & [= _ <-]). unfold ChainStore.reset_sync_head in Hb. apply bind_Ok_inv in Hb as (hh & _ & Hb).
  by eapply (put_single_head SYNC_HEAD_PREFIX).
Qed.

Lemma chain_step_grows s s' : chain_step s s' -> grows s s'.
Proof.
  pose proof (grows_pre) as Hpre.
  destruct 1 as [now b opts s r s' Hh He|now hs opts s r s' He|s r s' He|tip s r s' He|fast s r s' He|b s r s' He|o h s r s' He|s r s' He].
  - by eapply process_block_grows.
  - eapply (tkeeps_tbind (grows)); [apply in_batch_grows, sync_headers_quiet| |exact He]. intros u. apply tkeeps_tret. exact _.
  - eapply in_batch_grows; [|exact He]. apply reset_sync_quiet.
  - eapply in_batch_grows; [|exact He]. apply range_extending_quiet; [done|]. apply hx_rebuild_quiet.
  - eapply (tkeeps_tbind (grows)); [apply (tkeeps_tread (grows))| |exact He].
    intros h. cbv beta. destruct (height h =? 0); [apply (tkeeps_tret (grows))|apply on_set_grows].
  - eapply (tkeeps_tbind (grows)); [apply on_set_grows| |exact He]. intros u. apply (tkeeps_tret (grows)).
  - eapply on_set_grows. exact He.
  - eapply (tkeeps_tbind (grows)); [apply (tkeeps_tread (grows))| |exact He].
    intros early. cbv beta. destruct early; [apply (tkeeps_tret (grows))|]. intros x q y Hc.
    eapply in_batch_grows; [|exact Hc]. apply compacting_quiet.
Qed.

(** The chain never goes back to less work: whatever blocks, headers, orphans,
    compactions and queries come in whatever order, and whatever they return, the head
    stays readable and its total work never decreases. *)
Theorem chain_head_never_loses_work s s' tip :
  rtc chain_step s s' -> pool_headers s -> Chain.head s = Ok tip ->
  exists tip', Chain.head s' = Ok tip' /\ num_sum (tip_difficulty tip) <= num_sum (tip_difficulty tip').
Proof.
  intros Hs Hp Ht. pose proof (grows_pre) as Hpre.
  assert (grows s s') as Hg; [|by apply Hg].
  clear Hp Ht. induction Hs as [|x y z Hstep _ IH]; [done|]. etransitivity; [by apply chain_step_grows|done].
Qed.

End History.
