(* ===== verification/ChainLoops.v ===== *)
(** * The loops of the chain facade

    The retry of orphans ends and leaves no orphan of the next height untried; a fast
    sync checks the kernels against every header; compaction removes exactly the blocks
    below the horizon; blocks and runs of headers keep the header head the heaviest. *)
From S2P Require Import Prelude PmmrIndex Pmmr AppendOnlyFile PruneList PmmrBackend PmmrData Ser Global Pow Reward Retarget Feijoada Committed Transaction CutThrough Block BlockTheory ChainStore ChainStoreTheory Pipe PipeTheory TxHashSet ProcessBlock TxHashSetUndo ProcessBlockTheory ForkTheory Orphans ChainFacade ChainTheory.
Import Chain.

Section Orphans.
Context `{Hasher} `{Secp} (c : ChainTypes) (min_date max_date : Z).
Context (get_progpow_value : list Z -> Z -> Z -> Hash) (u256_from : Hash -> Z).
Context (config : PolicyConfig) (pow_verifier : BlockHeader -> bool) (now : Z).
Context (bitmap_serialize : gset Z -> list Z) (bitmap_deserialize : list Z -> gset Z).
Context (load_foundation_output : Z -> Output * TxKernel).
Context (hgt : list Z -> Z).

#[local] Abbreviation single := (process_block_single c min_date max_date get_progpow_value u256_from config pow_verifier
  now bitmap_serialize bitmap_deserialize load_foundation_output).
#[local] Abbreviation try_orphans := (Chain.try_orphans c min_date max_date get_progpow_value u256_from config pow_verifier
  now bitmap_serialize bitmap_deserialize load_foundation_output).
#[local] Abbreviation orphan_loop := (Chain.orphan_loop c min_date max_date get_progpow_value u256_from config pow_verifier
  now bitmap_serialize bitmap_deserialize load_foundation_output).
#[local] Abbreviation check_orphans := (Chain.check_orphans c min_date max_date get_progpow_value u256_from config pow_verifier
  now bitmap_serialize bitmap_deserialize load_foundation_output).
#[local] Abbreviation process_block := (Chain.process_block c min_date max_date get_progpow_value u256_from config pow_verifier
  now bitmap_serialize bitmap_deserialize load_foundation_output).

(** No other block with this hash at another height. *)
Definition fits (b : Block) : Prop :=
  forall hash, header_hash c (header b) = Ok hash -> hgt (bytes hash) = height (header b).

(** The pool is filed and bounded, and its heights leave room for the next one. *)
Record pool_good (s : Chain) : Prop := {
  pg_ok : pool_ok c hgt (orphans s);
  pg_len : orphan_len (orphans s) <= MAX_ORPHAN_SIZE;
  pg_heights x : is_Some (height_idx (orphans s) !! x) -> 0 <= x < 2 ^ 64 - 1
}.

(** Orphans of height [h] were tried between [s] and [s']: only they come back, with
    the time of the attempt. *)
Record tried (h : Z) (s s' : Chain) : Prop := {
  tr_good : pool_good s -> pool_good s';
  tr_index x : is_Some (height_idx (orphans s') !! x) -> x = h \/ is_Some (height_idx (orphans s) !! x);
  tr_orphans k o : Orphans.orphans (orphans s') !! k = Some o -> Orphans.orphans (orphans s) !! k = Some o \/ o_added o = now
}.

#[local] Instance tried_pre h : PreOrder (tried h).
Proof.
  split; [intros s; constructor; auto|]. intros x y z [G1 I1 O1] [G2 I2 O2]. constructor; [auto|..].
  - intros k Hk. destruct (I2 k Hk) as [|Hy]; [by left|auto].
  - intros k o Hk. destruct (O2 k o Hk) as [Hy|]; [auto|by right].
Qed.

Lemma same_pool_tried h s s' : orphans s' = orphans s -> tried h s s'.
Proof. intros E. constructor; rewrite ?E; auto. intros [P1 P2 P3]. by constructor; rewrite ?E. Qed.

Lemma single_tried b opts : fits b -> 0 <= height (header b) < 2 ^ 64 - 1 -> tkeeps (tried (height (header b))) (single b opts).
Proof.
  intros Hf Hb s r s' He. apply single_attempted in He. destruct r as [new|e|].
  - apply same_pool_tried, He.
  - destruct He as (_ & _ & [Ho|[_ Ho]]); [by apply same_pool_tried|].
    pose proof Ho as Ho'. apply orphan_add_sub in Ho' as (hash & Hh & Hsub & Hidx). constructor.
    + intros [P1 P2 P3]. destruct (orphan_add_exact c hgt (E := chain_error) now (mkOrphan b opts now) hash _ P1 P2 Hh (Hf _ Hh))
        as (p' & Hp & Hp1 & Hp2 & _). assert (p' = orphans s') as -> by congruence. constructor; [done|done|].
      intros x Hx. destruct (Hidx x Hx) as [->|]; [done|by apply P3].
    + exact Hidx.
    + intros k o Hk. eapply lookup_weaken in Hk; [|exact Hsub]. apply lookup_insert_Some in Hk as [[_ <-]|[_ Hk]]; [by right|by left].
  - apply same_pool_tried, He.
Qed.

Definition of_height (h : Z) (o : Orphan) : Prop := fits (o_block o) /\ o_height o = h.

Lemma try_orphans_tried h l acc s r s' :
  Forall (of_height h) l -> 0 <= h < 2 ^ 64 - 1 -> try_orphans l acc s = (r, s') ->
  tried h s s' /\ (forall ha, r = Ok (Some ha) -> ha = h \/ acc = Some ha).
Proof.
  intros Hl Hh. revert acc s. induction Hl as [|o l [Ho Eo] _ IH]; intros acc s He; cbn [Chain.try_orphans] in He.
  - injection He as <- <-. split; [done|]. intros ha [= ->]. by right.
  - destruct (single _ _ s) as [r1 s1] eqn:E1. unfold o_height in Eo.
    apply (single_tried _ _ Ho ltac:(by rewrite Eo)) in E1. rewrite Eo in E1, He. destruct r1 as [a|e|].
    + destruct (IH _ _ He) as [Ht Hr]. split; [by etransitivity|]. intros ha Ha. destruct (Hr ha Ha) as [|[= <-]]; by left.
    + destruct (IH _ _ He) as [Ht Hr]. split; [by etransitivity|done].
    + injection He as <- <-. by split.
Qed.

(** One round of the loop. *)
Lemma round_spec h s ro pool :
  pool_good s -> remove_by_height (orphans s) h = (ro, pool) ->
  pool_good (set_orphans pool s) /\ Forall (of_height h) (default [] ro) /\
  (forall x, is_Some (height_idx pool !! x) -> is_Some (height_idx (orphans s) !! x)) /\
  Orphans.orphans pool = filter (fun e => o_height e.2 <> h) (Orphans.orphans (orphans s)).
Proof.
  intros [P1 P2 P3] Hr. destruct (remove_by_height_exact c hgt _ _ _ _ P1 Hr) as (Hl & Ho & Hok).
  assert (forall x, is_Some (height_idx pool !! x) -> is_Some (height_idx (orphans s) !! x)) as Hi.
  { intros x Hx. unfold remove_by_height in Hr. destruct (height_idx (orphans s) !! h); [|by injection Hr as _ <-].
    destruct (take_hashes _ _). injection Hr as _ <-. cbn in Hx. apply lookup_delete_is_Some in Hx. apply Hx. }
  split_and!; [constructor; [done| |auto]| |done|done].
  - unfold orphan_len in *. cbn [orphans set_orphans]. rewrite Ho.
    pose proof (map_size_filter (fun e : list Z * Orphan => o_height e.2 <> h) (Orphans.orphans (orphans s))). lia.
  - rewrite Hl. apply Forall_fmap, Forall_forall. intros [k o] Hk.
    apply elem_of_map_to_list, map_lookup_filter_Some in Hk as [Hk He]. split; [|exact He].
    destruct (ok_filed c hgt _ P1 k o Hk) as [(hash & Hx & <-) Hg]. intros hash' Hx'. unfold o_height in Hg. cbn [snd] in *. congruence.
Qed.

Definition above (h : Z) (s : Chain) : gmap Z (list (list Z)) := filter (fun e => h <= e.1) (height_idx (orphans s)).

Lemma above_shrinks h s s1 :
  is_Some (height_idx (orphans s) !! h) ->
  (forall x, is_Some (height_idx (orphans s1) !! x) -> x = h \/ is_Some (height_idx (orphans s) !! x)) ->
  (size (above (h + 1) s1) < size (above h s))%nat.
Proof.
  intros [hs Hh] Hsub. rewrite <- !(size_dom (D := gset Z)). apply subset_size. split.
  - intros x. unfold above. rewrite !elem_of_dom. intros [v Hx]. apply map_lookup_filter_Some in Hx as [Hx Hge]. cbn in Hge.
    destruct (Hsub x ltac:(eauto)) as [->|[w Hw]]; [lia|]. exists w. apply map_lookup_filter_Some. cbn. split; [done|lia].
  - intros Hc. assert (h ∈ dom (above h s)) as Hin.
    { unfold above. apply elem_of_dom. exists hs. apply map_lookup_filter_Some. by split; [|cbn; lia]. }
    apply Hc in Hin. unfold above in Hin. apply elem_of_dom in Hin as [v Hv]. apply map_lookup_filter_Some in Hv as [_ Hv]. cbn in Hv. lia.
Qed.

Lemma loop_round fuel h s :
  orphan_loop (S fuel) h s =
  let '(r, pool) := remove_by_height (orphans s) h in
  match r with
  | Some l =>
      tbind (try_orphans l None) (fun accepted =>
        match accepted with
        | Some height_accepted => orphan_loop fuel (height_accepted +! 1)
        | None => tret tt
        end) (set_orphans pool s)
  | None => (Ok tt, set_orphans pool s)
  end.
Proof. reflexivity. Qed.

(** The loop of the code, which has no fuel: [orphan_rounds n h s r s'] says that from height
    [h] it takes [n] rounds to end with [r] in [s'].  It ends when there is no orphan of the
    height, when none of them is accepted, or when the attempt on one of them panics. *)
Inductive orphan_rounds : nat -> Z -> Chain -> outcome chain_error () -> Chain -> Prop :=
| no_orphans h s pool :
    remove_by_height (orphans s) h = (None, pool) -> orphan_rounds 1 h s (Ok tt) (set_orphans pool s)
| none_accepted h s l pool s1 :
    remove_by_height (orphans s) h = (Some l, pool) -> try_orphans l None (set_orphans pool s) = (Ok None, s1) ->
    orphan_rounds 1 h s (Ok tt) s1
| attempt_panicked h s l pool s1 :
    remove_by_height (orphans s) h = (Some l, pool) -> try_orphans l None (set_orphans pool s) = (Panic, s1) ->
    orphan_rounds 1 h s Panic s1
| next_round n h s l pool ha s1 r s' :
    remove_by_height (orphans s) h = (Some l, pool) -> try_orphans l None (set_orphans pool s) = (Ok (Some ha), s1) ->
    orphan_rounds n (ha +! 1) s1 r s' -> orphan_rounds (S n) h s r s'.

Lemma try_orphans_no_err l acc s e s' : try_orphans l acc s <> (Err e, s').
Proof.
  revert acc s. induction l as [|o l IH]; intros acc s; cbn [Chain.try_orphans]; [done|].
  destruct (single _ _ s) as [[a|x|] s1]; [apply IH..|done].
Qed.

Lemma orphan_loop_spec n : forall h s r s',
  pool_good s -> 0 <= h -> (size (above h s) <= n)%nat -> orphan_loop (S n) h s = (r, s') ->
  pool_good s' /\ (exists m, (m <= S n)%nat /\ orphan_rounds m h s r s') /\
  (forall k o, Orphans.orphans (orphans s') !! k = Some o ->
     (Orphans.orphans (orphans s) !! k = Some o /\ o_height o <> h) \/ o_added o = now).
Proof.
  induction n as [n IH] using lt_wf_ind. intros h s r s' Hg Hh Hn.
  rewrite loop_round. destruct (remove_by_height (orphans s) h) as [ro pool] eqn:Er.
  destruct (round_spec h s ro pool Hg Er) as (Hg1 & Hl & Hi & Hpool).
  assert (forall k o, Orphans.orphans pool !! k = Some o -> Orphans.orphans (orphans s) !! k = Some o /\ o_height o <> h) as Hleft.
  { intros k o. rewrite Hpool, map_lookup_filter_Some. done. }
  destruct ro as [l|]; [|intros [= <- <-]; split_and!; [done|exists 1%nat; split; [lia|by constructor]|auto]]. cbn [default from_option] in Hl.
  assert (is_Some (height_idx (orphans s) !! h)) as Hin.
  { unfold remove_by_height in Er. destruct (height_idx (orphans s) !! h); [by eauto|done]. }
  pose proof (pg_heights _ Hg h Hin) as Hb. unfold tbind.
  destruct (try_orphans l None (set_orphans pool s)) as [r1 s1] eqn:Et.
  destruct (try_orphans_tried h l None _ _ _ Hl ltac:(lia) Et) as [[T1 T2 T3] Hha].
  assert (forall k o, Orphans.orphans (orphans s1) !! k = Some o ->
    (Orphans.orphans (orphans s) !! k = Some o /\ o_height o <> h) \/ o_added o = now) as Hs1.
  { intros k o Hk. destruct (T3 k o Hk) as [Hk'|]; [left; auto|by right]. }
  destruct r1 as [[ha|]|e|]; [|intros [= <- <-]; split_and!; [auto|exists 1%nat; split; [lia|by eapply none_accepted]|done]
    |by apply try_orphans_no_err in Et|intros [= <- <-]; split_and!; [auto|exists 1%nat; split; [lia|by eapply attempt_panicked]|done]].
  destruct (Hha ha eq_refl) as [->|]; [|done]. assert (h +! 1 = h + 1) as Eh by (apply u64_add_small; unfold is_u64; lia). rewrite Eh.
  assert (size (above (h + 1) s1) < size (above h s))%nat as Hlt.
  { apply above_shrinks; [done|]. intros x Hx. destruct (T2 x Hx) as [|Hx']; [by left|right; auto]. }
  destruct n as [|n]; [lia|]. intros He.
  destruct (IH n ltac:(lia) (h + 1) s1 r s' (T1 Hg1) ltac:(lia) ltac:(lia) He) as (G & (m & Hm & R) & O). split_and!; [done| |].
  { exists (S m). split; [lia|]. eapply next_round; [done|exact Et|by rewrite Eh]. }
  intros k o Hk. destruct (O k o Hk) as [[Hk' _]|]; [auto|by right].
Qed.

(** C5. The retry of orphans ends: the loop of the code stops of itself, after at most one
    round more than the index has heights, with the result and the state of [check_orphans],
    whose fuel is therefore never used up.  No orphan of the height is left untried: those
    still in the pool were put back by this call. *)
Theorem check_orphans_ends h s r s' :
  pool_good s -> 0 <= h -> check_orphans h s = (r, s') ->
  (exists n, (n <= S (size (height_idx (orphans s))))%nat /\ orphan_rounds n h s r s') /\ pool_good s' /\
  forall k o, Orphans.orphans (orphans s') !! k = Some o -> o_height o = h -> o_added o = now.
Proof.
  intros Hg Hh He. unfold Chain.check_orphans in He.
  destruct (orphan_loop_spec _ h s r s' Hg Hh (map_size_filter _ _) He) as (G & R & O). split_and!; [done|done|].
  intros k o Hk Ho. by destruct (O k o Hk) as [[_ ?]|].
Qed.

End Orphans.

(** ** The kernels of a fast sync *)
Section Kernels.
Context `{Hasher} `{Secp} (c : ChainTypes) (min_date max_date : Z).
Context (genesis_header : BlockHeader).
Hypothesis genesis_height : height genesis_header = 0.

(** The root of the kernels up to the size a header gives. *)
Definition kernel_root_at (b : PMMRBackend) (h : BlockHeader) : outcome pmmr_error Hash :=
  rewindable_root (IH := kernel_index) (BE := kernel_backend) (mkPMMR (rewind_pos (kernel_mmr_size h)) b).

Lemma kernel_root_no_panic b h : kernel_root_at b h <> Panic.
Proof. unfold kernel_root_at, rewindable_root. destruct (is_empty _); [done|]. by destruct (foldl _ _ _). Qed.

Lemma kernel_history_exact fuel : forall current v,
  chain_ok c min_date max_date genesis_header (kv_batch v) -> PipeTheory.stored c min_date max_date (kv_batch v) current ->
  (Z.to_nat (height current) < fuel)%nat ->
  exists l a, between c min_date max_date (kv_batch v) current l a /\ height a = 0 /\
    (kernel_history c min_date max_date fuel current v).1 <> Panic /\
    ((kernel_history c min_date max_date fuel current v).1 = Ok tt <->
     Forall (fun h => kernel_root_at (backend (kv_pmmr v)) h = Ok (kernel_root h)) l).
Proof.
  induction fuel as [|fuel IH]; intros current v Hb Hs Hf; [lia|]. cbn [kernel_history].
  pose proof (stored_height _ _ _ _ _ Hb current Hs) as H0h. destruct (Z.gtb_spec (height current) 0) as [Hgt|Hle].
  2: { exists [], current. split_and!; [constructor|lia|done|]. by split; [constructor|]. }
  destruct (parent_above _ _ _ _ genesis_height _ _ Hb Hs Hgt) as (p & Hp & Hps & Hh & Hp0).
  destruct (IH p (kv_rewind current v) Hb Hps ltac:(lia)) as (l & a & Hbt & Ha & Hnp & Hiff).
  exists (current :: l), a. cbn [kv_batch kv_rewind kv_pmmr] in *.
  unfold tbind, tmodify, tread. unfold kv_validate_root at 1 2. cbn [kv_rewind kv_pmmr kv_header kv_batch].
  change (rewindable_root _) with (kernel_root_at (backend (kv_pmmr v)) current).
  pose proof (kernel_root_no_panic (backend (kv_pmmr v)) current) as Hr.
  split_and!; [by econstructor|done|..].
  - destruct (kernel_root_at _ current) as [root|e|]; cbn [map_err bind]; [|done|done]. destruct (decide _); [done|].
    unfold ChainStore.get_previous_header. rewrite Hp. cbn [store_err map_err]. exact Hnp.
  - rewrite Forall_cons. destruct (kernel_root_at _ current) as [root|e|]; cbn [map_err bind]; [|by split; [|intros [? _]]|done].
    destruct (decide (root <> kernel_root current)) as [Hne|He]; [split; [done|]; intros [[= ->] _]; by destruct Hne|].
    unfold ChainStore.get_previous_header. rewrite Hp. cbn [store_err map_err]. cbn [backend rewindable_rewind] in Hiff.
    rewrite Hiff. apply dec_stable in He. naive_solver.
Qed.

(** C7. A fast sync accepts the kernels only if they are the ones the headers commit to:
    from the header of the set back to the genesis, every header has the root of the
    kernels up to its size.  The check goes through all the headers and returns. *)
Theorem validate_kernel_history_exact header t st hh :
  chain_ok c min_date max_date genesis_header (batch st) -> PipeTheory.stored c min_date max_date (batch st) header ->
  ChainStore.head_header c min_date max_date (batch st) = Ok hh ->
  exists l a, between c min_date max_date (batch st) header l a /\ height a = 0 /\
    validate_kernel_history c min_date max_date header t st <> Panic /\
    (validate_kernel_history c min_date max_date header t st = Ok tt <->
     Forall (fun h => kernel_root_at (h_backend (kernel_pmmr_h t)) h = Ok (kernel_root h)) l).
Proof.
  intros Hb Hs Hh. unfold validate_kernel_history, rewindable_kernel_view. rewrite Hh. cbn [store_err map_err bind].
  apply (kernel_history_exact (chain_fuel header) header (mkKernelView (backend_of (kernel_pmmr_h t)) (batch st) hh));
    [done|done|]. unfold chain_fuel. lia.
Qed.

End Kernels.

(** ** Old blocks *)
Lemma delete_block_other b h b' k :
  delete_block b h = Ok b' -> k <> h ->
  tx b' !! to_key BLOCK_PREFIX (bytes k) = tx b !! to_key BLOCK_PREFIX (bytes k).
Proof.
  assert (forall x key y, ignore_err x (delete_key x key) = Ok y -> key <> to_key BLOCK_PREFIX (bytes k) ->
    tx y !! to_key BLOCK_PREFIX (bytes k) = tx x !! to_key BLOCK_PREFIX (bytes k)) as Hig.
  { intros x key y Hd Hk. unfold delete_key in Hd. destruct (tx x !! key); injection Hd as <-; [|done]. cbn. by rewrite lookup_delete_ne. }
  unfold delete_block. intros Hd Hne. apply bind_Ok_inv in Hd as (b1 & H1 & Hd). apply bind_Ok_inv in Hd as (b2 & H2 & Hd).
  unfold delete_block_sums, delete_block_input_bitmap in *.
  rewrite (Hig _ _ _ Hd), (Hig _ _ _ H2) by (unfold to_key; congruence || done). unfold delete_key in H1.
  destruct (tx b !! _) in H1; [|done]. injection H1 as <-. cbn. rewrite lookup_delete_ne; [done|].
  intros [_ He]%to_key_inj. by apply Hne, bytes_inj.
Qed.

Section Historical.
Context `{Hasher} `{Secp} (c : ChainTypes) (min_date max_date : Z).

#[local] Abbreviation blk b k := (ChainStore.get_block c min_date max_date b k).

Lemma get_block_tx b b' k : tx b' !! to_key BLOCK_PREFIX (bytes k) = tx b !! to_key BLOCK_PREFIX (bytes k) -> blk b' k = blk b k.
Proof. intros E. unfold ChainStore.get_block, get_ser, get_ser_access. by rewrite E. Qed.

Lemma delete_block_gone b h b' : delete_block b h = Ok b' -> tx b' !! to_key BLOCK_PREFIX (bytes h) = None.
Proof.
  intros Hd. assert (is_Some (tx b !! to_key BLOCK_PREFIX (bytes h))) as Hs.
  { unfold delete_block, delete_key in Hd. destruct (tx b !! _) eqn:E; [by eauto|done]. }
  unfold delete_block in Hd. destruct Hs as [v Hv]. unfold delete_key at 1 in Hd. rewrite Hv in Hd. cbn [bind] in Hd.
  apply bind_Ok_inv in Hd as (b2 & H2 & Hd).
  destruct (best_effort_delete (mkBatch (committed b) (delete (to_key BLOCK_PREFIX (bytes h)) (tx b)))
    (to_key BLOCK_SUMS_PREFIX (bytes h)) (to_key BLOCK_PREFIX (bytes h))) as (b2' & E2 & N2).
  assert (b2' = b2) as -> by (unfold delete_block_sums in H2; congruence).
  destruct (best_effort_delete b2 (to_key BLOCK_INPUT_BITMAP_PREFIX (bytes h)) (to_key BLOCK_PREFIX (bytes h))) as (b3 & E3 & N3).
  assert (b3 = b') as -> by (unfold delete_block_input_bitmap in Hd; congruence). apply N3, N2. cbn. apply lookup_delete_eq.
Qed.

(** The deletions, over blocks filed under their hashes. *)
Definition filed (e : list Z * Block) (k : Hash) : Prop :=
  header_hash c (header e.2) = Ok k /\ e.1 = to_key BLOCK_PREFIX (bytes k).

Lemma delete_old_keeps tl l b b' k :
  foldM (delete_old c tl) l b = Ok b' ->
  (forall e, e ∈ l -> filed e k -> height tl <= height (header e.2)) -> (forall e, e ∈ l -> exists x, filed e x) ->
  tx b' !! to_key BLOCK_PREFIX (bytes k) = tx b !! to_key BLOCK_PREFIX (bytes k).
Proof.
  revert b. induction l as [|e l IH]; intros b Hf Hk Hfi; cbn [foldM] in Hf; [by injection Hf as <-|].
  apply bind_Ok_inv in Hf as (b1 & Hd & Hf). rewrite (IH b1 Hf);
    [|intros x Hx; apply Hk; by right|intros x Hx; apply Hfi; by right].
  unfold delete_old in Hd. destruct (Z.ltb_spec (height (header e.2)) (height tl)) as [Hlt|]; [|by injection Hd as <-].
  destruct (Hfi e) as (x & Hx); [by left|]. unfold hash_of in Hd. rewrite (proj1 Hx) in Hd. cbn [bind] in Hd.
  assert (k <> x) as Hne by (intros ->; specialize (Hk e ltac:(by left) Hx); lia).
  unfold ignore_err in Hd. destruct (delete_block b x) as [b2|er|] eqn:E; [|by injection Hd as <-|done].
  injection Hd as <-. by eapply delete_block_other.
Qed.

Lemma delete_old_removes tl l b b' e k :
  foldM (delete_old c tl) l b = Ok b' -> e ∈ l -> filed e k -> height (header e.2) < height tl ->
  tx b' !! to_key BLOCK_PREFIX (bytes k) = None.
Proof.
  assert (forall l b b', foldM (delete_old c tl) l b = Ok b' -> tx b !! to_key BLOCK_PREFIX (bytes k) = None ->
    tx b' !! to_key BLOCK_PREFIX (bytes k) = None) as Hstay.
  { clear. induction l as [|e l IH]; intros b b' Hf Hn; cbn [foldM] in Hf; [by injection Hf as <-|].
    apply bind_Ok_inv in Hf as (b1 & Hd & Hf). apply (IH _ _ Hf). unfold delete_old in Hd. case_match; [|by injection Hd as <-].
    apply bind_Ok_inv in Hd as (x & _ & Hd). unfold ignore_err in Hd. destruct (delete_block b x) as [b2| |] eqn:E; [|by injection Hd as <-|done].
    injection Hd as <-. destruct (decide (k = x)) as [<-|Hne]; [by eapply delete_block_gone|]. by rewrite (delete_block_other _ _ _ _ E Hne). }
  intros Hf He [Hh _] Hlt. revert b Hf. induction He as [e l|e y l He IH]; intros b Hf; cbn [foldM] in Hf;
    apply bind_Ok_inv in Hf as (b1 & Hd & Hf); [|by eapply IH].
  apply (Hstay _ _ _ Hf). unfold delete_old in Hd. destruct (Z.ltb_spec (height (header e.2)) (height tl)); [|lia].
  unfold hash_of in Hd. rewrite Hh in Hd. cbn [bind] in Hd. unfold ignore_err in Hd.
  destruct (delete_block b k) as [b2|er|] eqn:E; [injection Hd as <-; by eapply delete_block_gone| |done].
  injection Hd as <-. unfold delete_block in E. unfold delete_key at 1 in E. destruct (tx b !! _) eqn:E1; [|done].
  cbn [bind] in E. exfalso. revert E.
  match goal with |- context [ignore_err ?x (delete_block_sums ?x _)] => destruct (best_effort_delete x (to_key BLOCK_SUMS_PREFIX (bytes k)) []) as (y & Hy & _) end.
  unfold delete_block_sums. rewrite Hy. cbn [bind].
  destruct (best_effort_delete y (to_key BLOCK_INPUT_BITMAP_PREFIX (bytes k)) []) as (z & Hz & _).
  unfold delete_block_input_bitmap. by rewrite Hz.
Qed.

Lemma deser_while_prefix_from {A} (rd : read A) prefix l l' e :
  deser_while_prefix rd prefix l = Ok l' -> e ∈ l' -> exists data, (e.1, data) ∈ l /\ deserialize rd data = Ok e.2.
Proof.
  revert l'. induction l as [|[key value] l IH]; intros l' Hd He; cbn [deser_while_prefix] in Hd.
  - injection Hd as <-. by apply not_elem_of_nil in He.
  - case_match; [done|]. case_match; [|injection Hd as <-; by apply not_elem_of_nil in He].
    destruct (deserialize rd value) as [v|e'|] eqn:Ev; [|injection Hd as <-; by apply not_elem_of_nil in He|done].
    apply bind_Ok_inv in Hd as (rest & Hr & [= <-]). apply elem_of_cons in He as [->|He].
    + exists value. split; [by left|done].
    + destruct (IH _ Hr He) as (data & Hin & Hv). exists data. split; [by right|done].
Qed.

Lemma ser_iter_from {A} (rd : read A) access from l e :
  ser_iter rd access from = Ok l -> e ∈ l -> exists data, access !! e.1 = Some data /\ deserialize rd data = Ok e.2.
Proof.
  intros Hs He. destruct (deser_while_prefix_from _ _ _ _ _ Hs He) as (data & Hin & Hd). exists data. split; [|done].
  apply list_elem_of_omap in Hin as (k & _ & Hk). destruct (access !! k) as [v|] eqn:Ea; [|done]. cbn in Hk. injection Hk as <- <-. done.
Qed.

(** Compaction removes exactly the old blocks: of the blocks of the store, those below
    the block at the horizon are gone, every other one is read as before, and the tail is
    the block at the horizon. *)
Theorem remove_historical_exact t b b' tip l :
  remove_historical_blocks c min_date max_date false t b = Ok b' ->
  ChainStore.head b = Ok tip -> cut_through_horizon c < tip_height tip < 2 ^ 64 ->
  (forall k, tx b !! to_key BLOCK_PREFIX k = committed b !! to_key BLOCK_PREFIX k) ->
  blocks_iter c min_date max_date b = Ok l -> (forall e, e ∈ l -> exists x, filed e x) ->
  exists hash tl tl_tip,
    TxHashSet.get_header_hash_by_height c t (tip_height tip - cut_through_horizon c) = Ok hash /\
    ChainStore.get_block_header c min_date max_date b hash = Ok tl /\
    (forall e k, e ∈ l -> filed e k -> height (header e.2) < height tl -> blk b' k = Err NotFoundErr) /\
    (forall k x, blk b k = Ok x -> height tl <= height (header x) -> blk b' k = Ok x) /\
    tip_from_header (E := chain_error) c tl = Ok tl_tip /\ tx b' !! [TAIL_PREFIX] = Some (write_tip tl_tip).
Proof.
  intros Hr Ht Hhz Htx Hl Hfi. unfold remove_historical_blocks in Hr. rewrite Ht in Hr. cbn [store_err map_err bind] in Hr.
  assert (0 <= cut_through_horizon c) as Hz by (destruct c; vm_compute; congruence).
  destruct (Z.eqb_spec (sat_sub (tip_height tip) (cut_through_horizon c)) 0) as [E|_]; [unfold sat_sub in E; lia|].
  rewrite u64_sub_small in Hr by (unfold is_u64; lia).
  apply bind_Ok_inv in Hr as (hash & Hh & Hr). apply bind_Ok_inv in Hr as (tl & Htl%map_err_Ok_inv & Hr).
  rewrite Hl in Hr. cbn [store_err map_err bind] in Hr. apply bind_Ok_inv in Hr as (b1 & Hf%map_err_Ok_inv & Hr).
  apply bind_Ok_inv in Hr as (tl_tip & Htt & [= <-]%map_err_Ok_inv).
  assert (forall k, blk (mkBatch (committed b1) (<[[TAIL_PREFIX] := write_tip tl_tip]> (tx b1))) k = blk b1 k) as Hsame.
  { intros k. apply get_block_tx. cbn [tx]. by rewrite lookup_insert_ne. }
  exists hash, tl, tl_tip. split_and!; [done|done|..|done|cbn [tx]; by rewrite lookup_insert_eq].
  - intros e k He Hfe Hlt. rewrite Hsame. unfold ChainStore.get_block, get_ser, get_ser_access.
    by rewrite (delete_old_removes _ _ _ _ _ _ Hf He Hfe Hlt).
  - intros k x Hx Hge. rewrite Hsame. rewrite <- Hx. apply get_block_tx. eapply delete_old_keeps; [done| |done].
    intros e He [Hh' Hk]. destruct (ser_iter_from _ _ _ _ _ Hl He) as (data & Hd & Hv). rewrite Hk, <- Htx in Hd.
    unfold ChainStore.get_block, get_ser, get_ser_access in Hx. rewrite Hd, Hv in Hx. cbn in Hx. by injection Hx as ->.
Qed.

End Historical.

(** ** The chain of headers *)
(** What leaves the headers and their head alone. *)
Definition kept (b b' : Batch) : Prop :=
  (forall k, tx b' !! to_key BLOCK_HEADER_PREFIX k = tx b !! to_key BLOCK_HEADER_PREFIX k)
  /\ tx b' !! [HEADER_HEAD_PREFIX] = tx b !! [HEADER_HEAD_PREFIX].
#[local] Instance kept_pre : PreOrder kept.
Proof. split; [by intros b|]. intros x y z [A1 A2] [B1 B2]. split; [intros k|]; etransitivity; eauto. Qed.

Lemma still_kept b b' : still b b' -> kept b b'.
Proof. by intros [_ ? ?]. Qed.
Lemma kept_put p k data b b' : p <> BLOCK_HEADER_PREFIX -> put b (to_key p k) data = Ok b' -> kept b b'.
Proof. intros Hp Hb. by eapply still_kept, still_put. Qed.
Lemma kept_put_single (p : Z) data b b' : p <> HEADER_HEAD_PREFIX -> put_ser b [p] (Ok data) = Ok b' -> kept b b'.
Proof. intros Hp [= <-]. split; [intros k|]; apply lookup_insert_ne; [done|]. by intros [= ]. Qed.

Definition ctx_kept (s s' : TxHashSet * Batch) : Prop := kept s.2 s'.2.
#[local] Instance ctx_kept_pre : PreOrder ctx_kept.
Proof. split; [by intros s|]. intros x y z ??. unfold ctx_kept in *. by etransitivity. Qed.

Section HeaderChain.
Context `{Hasher} `{Secp} (c : ChainTypes) (min_date max_date : Z).
Context (get_progpow_value : list Z -> Z -> Z -> Hash) (u256_from : Hash -> Z).
Context (config : PolicyConfig) (pow_verifier : BlockHeader -> bool).
Context (bitmap_serialize : gset Z -> list Z) (bitmap_deserialize : list Z -> gset Z).
Context (load_foundation_output : Z -> Output * TxKernel).
Context (genesis : BlockHeader) (U : BlockHeader -> Prop) (HU : admissible c min_date max_date genesis U).

#[local] Abbreviation hdr := (ChainStore.get_block_header c min_date max_date).
#[local] Abbreviation header_chain := (header_chain c min_date max_date genesis U).
#[local] Abbreviation validate_header opts now :=
  (validate_header c min_date max_date get_progpow_value u256_from config opts pow_verifier now).

Lemma kept_hdr b b' : kept b b' -> (forall k, hdr b' k = hdr b k) /\ ChainStore.header_head b' = ChainStore.header_head b.
Proof.
  intros [E1 E2]. unfold ChainStore.get_block_header, ChainStore.header_head, get_ser, get_ser_access. split; [intros k; by rewrite E1|by rewrite E2].
Qed.

Lemma kept_header_chain b b' : kept b b' -> header_chain b -> header_chain b'.
Proof.
  intros [E1 E2]%kept_hdr [Hb (t & ht & Ht & Hht & Hth & Htd & Hmax) Hk]. split; [by eapply chain_ok_ext| |intros k h; rewrite E1; apply Hk].
  exists t, ht. rewrite E2, E1. split_and!; try done. intros k h. rewrite E1. apply Hmax.
Qed.

(** *** The header of a block *)
Lemma header_extending_batch {A} (inner : trans HeaderExtension chain_error A) s r s' :
  hx_undoes inner -> header_extending c min_date max_date (tbind hx_force_rollback (fun _ => inner)) s = (Ok r, s') -> s'.2 = s.2.
Proof.
  intros Hin He. unfold header_extending, range_extending in He. destruct (store_err _) as [h|err|]; [|done..].
  unfold tbind at 1, hx_force_rollback, tmodify in He. cbn [hx_header hx_pmmr hx_batch] in He.
  destruct (inner _) as [res e] eqn:Ei. destruct (Hin _ _ _ Ei) as [_ Hr]. rewrite (Hr eq_refl) in He.
  destruct res; [|done..]. by injection He as _ <-.
Qed.

Lemma extending_kept {A} (inner : trans Extension chain_error A) :
  tkeeps (fun e e' => kept (ext_batch e) (ext_batch e')) inner -> tkeeps ctx_kept (extending c min_date max_date inner).
Proof.
  intros Hin [t bt] r s' He. unfold extending in He. destruct (store_err _) as [h|err|]; [|by injection He as _ <-..].
  destruct (inner _) as [res e] eqn:Ei. pose proof (Hin _ _ _ Ei) as Q. cbn [ext_batch] in Q.
  destruct res as [a|err|]; [destruct (rollback e)|..]; [by injection He as _ <-| |by injection He as _ <-..].
  unfold tbind in He. destruct (commit_extension _ _ _) as [rc s1] eqn:Ec. apply commit_batch in Ec.
  assert (s'.2 = s1.2) as Es by (destruct rc; by injection He as _ <-).
  unfold ctx_kept. rewrite Es, Ec. exact Q.
Qed.

Lemma block_work_kept b is_fork :
  tkeeps (fun e e' => kept (ext_batch e) (ext_batch e')) (block_work c min_date max_date bitmap_serialize bitmap_deserialize b is_fork).
Proof.
  assert (PreOrder (fun e e' => kept (ext_batch e) (ext_batch e'))) as Hpre by (split; [by intros e|intros x y z ??; by etransitivity]).
  unfold block_work. keeps_seq.
  - destruct is_fork; [|by apply tkeeps_tret]. intros e r e' He. by eapply still_kept, (fork_quietly _ _ _ _ _ _ _ _ _ He).
  - intros e r e' He. by eapply still_kept, (apply_checked_quietly _ _ _ _ _ _ _ He).
  - by apply tkeeps_tread.
  - destruct (negb _); [by apply tkeeps_tmodify|by apply tkeeps_tret].
Qed.

Lemma ctx_put_kept f : (forall b b', f b = Ok b' -> kept b b') -> tkeeps ctx_kept (ctx_put f).
Proof.
  intros Hf. apply (tkeeps_tzoom ctx_kept). intros s a b Hb. apply bind_Ok_inv in Hb as (b1 & Hb & [= _ <-]). by apply Hf.
Qed.

Lemma add_block_kept b b' blk : add_block c bitmap_serialize b blk = Ok b' -> kept b b'.
Proof.
  unfold add_block, save_block, build_and_store_block_input_bitmap. intros Hb%map_err_Ok_inv.
  apply bind_Ok_inv in Hb as ([bm b1] & H1 & Hb). apply bind_Ok_inv in H1 as (bm' & _ & H1).
  apply bind_Ok_inv in H1 as (x & _ & H1). apply bind_Ok_inv in H1 as (b2 & H1 & [= -> ->]).
  apply bind_Ok_inv in Hb as (y & _ & Hb). etransitivity; [by eapply (kept_put BLOCK_INPUT_BITMAP_PREFIX)|].
  by refine (still_kept _ _ (still_put_ser _ _ _ _ _ _ Hb)).
Qed.

Lemma update_body_tail_kept b h b' : update_body_tail c b h = Ok b' -> kept b b'.
Proof. unfold update_body_tail. intros Hb. apply bind_Ok_inv in Hb as (t & _ & Hb%map_err_Ok_inv). by eapply (kept_put_single TAIL_PREFIX). Qed.

Lemma update_head_kept b blk r b' : update_head c b blk = Ok (r, b') -> kept b b'.
Proof.
  unfold update_head. intros Hb. apply bind_Ok_inv in Hb as (t & _ & Hb). destruct (has_more_work _ _); [|by injection Hb as _ <-].
  apply bind_Ok_inv in Hb as (tip & _ & Hb). apply bind_Ok_inv in Hb as (b1 & Hb%map_err_Ok_inv & [= _ <-]). by eapply (kept_put_single HEAD_PREFIX).
Qed.

Lemma process_block_headers opts now orph b t bt r t' bt' :
  contains opts SKIP_POW = false -> U (header b) -> header_chain bt ->
  ProcessBlock.process_block c min_date max_date get_progpow_value u256_from config opts pow_verifier orph now
    bitmap_serialize bitmap_deserialize load_foundation_output b (t, bt) = (Ok r, (t', bt')) -> header_chain bt'.
Proof.
  intros Hsk HUb Hc. unfold ProcessBlock.process_block. intros He.
  apply tbind_Ok_inv in He as (u1 & s1 & E1 & He). apply tread_Ok_inv in E1 as [_ ->].
  apply tbind_Ok_inv in He as (tip & s2 & E2 & He). apply tread_Ok_inv in E2 as [_ ->].
  apply tbind_Ok_inv in He as (u3 & s3 & E3 & He). apply tread_Ok_inv in E3 as [_ ->].
  apply tbind_Ok_inv in He as (u4 & s4 & E4 & He). unfold process_header_for_block in E4.
  apply tbind_Ok_inv in E4 as (v1 & x1 & X1 & E4). apply header_extending_batch in X1; [|apply header_work_undoes].
  apply tbind_Ok_inv in E4 as ([] & x2 & X2 & E4). apply tread_Ok_inv in X2 as [X2 ->].
  apply tbind_Ok_inv in E4 as (v3 & x3 & X3 & E4). apply ctx_put_inv in X3 as [_ X3].
  apply tbind_Ok_inv in E4 as (v4 & x4 & X4 & [= _ ->]). unfold ctx_batch in X4. apply tzoom_Ok_inv in X4 as (b2 & X4 & Es4).
  rewrite X1 in X2, X3. cbn [snd] in X2, X3.
  pose proof (header_of_block c min_date max_date get_progpow_value u256_from config opts pow_verifier now genesis U HU
    bt (header b) x3.2 v4 b2 Hsk Hc HUb X2 X3 X4) as Hc2.
  assert (s4.2 = b2) as E42 by (by rewrite Es4). rewrite <- E42 in Hc2. revert Hc2. apply kept_header_chain.
  apply tbind_Ok_inv in He as (u5 & s5 & E5 & He). apply tread_Ok_inv in E5 as [_ ->].
  apply tbind_Ok_inv in He as (u6 & s6 & E6 & He). apply (extending_kept _ (block_work_kept _ _)) in E6.
  apply tbind_Ok_inv in He as (u7 & s7 & E7 & He). apply (ctx_put_kept _ (fun b b' => add_block_kept b b' _)) in E7.
  apply tbind_Ok_inv in He as (u8 & s8 & E8 & He).
  apply ctx_put_kept in E8; [|intros x y; destruct (ChainStore.tail x); [by intros [= <-]|apply update_body_tail_kept|done]].
  unfold ctx_batch in He. apply tzoom_Ok_inv in He as (b1 & Hu & [= -> ->]). apply update_head_kept in Hu.
  unfold ctx_kept in *. do 3 (etransitivity; [eassumption|]). exact Hu.
Qed.

(** *** A run of headers *)
Lemma sync_work_saves prev hs e e' :
  sync_work c prev hs e = (Ok tt, e') -> hx_rollback e' = hx_rollback e /\ foldM (add_block_header c) hs (hx_batch e) = Ok (hx_batch e').
Proof.
  unfold sync_work. intros He. apply tbind_Ok_inv in He as (u & e1 & H1 & He). unfold hx_rewind in H1.
  apply tbind_Ok_inv in H1 as (u1 & e0 & G0 & [= _ <-]). apply tzoom_Ok_inv in G0 as (p & _ & ->).
  set (e1 := hx_set_header _ _) in He. change (hx_rollback e) with (hx_rollback e1). change (hx_batch e) with (hx_batch e1).
  clearbody e1. clear u p u1 e. revert e1 He. induction hs as [|h hs IH]; intros e He; cbn [tfor foldM] in *; [by injection He as <-|].
  apply tbind_Ok_inv in He as ([] & e1 & H1 & He). apply tbind_Ok_inv in H1 as (u2 & e2 & H2 & H1). apply tread_Ok_inv in H2 as [_ ->].
  apply tbind_Ok_inv in H1 as (u3 & e3 & H3 & H1). unfold hx_apply_header in H3.
  apply tbind_Ok_inv in H3 as (u4 & e4 & H4 & H3). apply tzoom_Ok_inv in H4 as (p & _ & ->).
  apply tbind_Ok_inv in H3 as (u5 & e5 & [= _ <-] & H3). apply tread_Ok_inv in H3 as [_ ->].
  apply tzoom_Ok_inv in H1 as (b1 & H1 & ->). apply bind_Ok_inv in H1 as (b2 & H1 & [= ->]). destruct (IH _ He) as [I1 I2].
  cbn in I1, I2, H1. split; [done|]. rewrite H1. exact I2.
Qed.

Lemma sync_extending_batch {A} (inner : trans HeaderExtension chain_error A) s r s' :
  sync_extending c min_date max_date inner s = (Ok r, s') ->
  exists h p e, inner (mkHeaderExtension h p false (child s.2)) = (Ok r, e) /\
    (hx_rollback e = false -> s'.2 = commit_child s.2 (hx_batch e)).
Proof.
  unfold sync_extending, range_extending. destruct (store_err _) as [h|err|]; [|done..].
  destruct (inner _) as [res e] eqn:Ei. destruct res as [a|err|]; [|done..]. intros He.
  destruct (hx_rollback e) eqn:Er; [injection He as <- _; do 3 eexists; split; [exact Ei|]; by rewrite Er|].
  apply tbind_Ok_inv in He as (u1 & s1 & [= _ <-] & He). apply tbind_Ok_inv in He as (u2 & s2 & H2 & He).
  apply tzoom_Ok_inv in H2 as (hd & _ & ->). apply tbind_Ok_inv in He as (u3 & s3 & [= _ <-] & [= -> <-]).
  do 3 eexists. split; [exact Ei|]. by intros _.
Qed.

Lemma tfor_validates opts now hs s s' :
  tfor (ctx_validate_header c min_date max_date get_progpow_value u256_from config opts pow_verifier now) hs s = (Ok tt, s') ->
  s' = s /\ Forall (fun h => validate_header opts now s.2 h = Ok tt) hs.
Proof.
  induction hs as [|h hs IH]; cbn [tfor]; intros He; [by injection He as <-|].
  apply tbind_Ok_inv in He as ([] & s1 & H1 & He). apply tread_Ok_inv in H1 as [H1 ->]. destruct (IH He) as [-> HF]. split; [done|by constructor].
Qed.

Lemma sync_headers_chain opts now hs t bt r t' bt' :
  contains opts SKIP_POW = false -> Forall U hs -> linked c hs -> header_chain bt ->
  ProcessBlock.sync_block_headers c min_date max_date get_progpow_value u256_from config opts pow_verifier now hs (t, bt) = (Ok r, (t', bt')) ->
  header_chain bt'.
Proof.
  intros Hsk HF Hl Hc. unfold ProcessBlock.sync_block_headers. destruct hs as [|h0 hs0] eqn:Ehs; [by intros [= _ _ <-]|]. rewrite <- Ehs in *.
  destruct (last hs) as [z|] eqn:Hz; [|by intros [= _ _ <-]]. intros He.
  apply tbind_Ok_inv in He as (u1 & s1 & E1 & He). apply tread_Ok_inv in E1 as [_ ->].
  apply tbind_Ok_inv in He as (known & s2 & E2 & He). apply tread_Ok_inv in E2 as [E2 ->].
  apply tbind_Ok_inv in He as (u3 & s3 & E3 & He). apply tbind_Ok_inv in He as (u4 & s4 & E4 & He). apply ctx_put_inv in E4 as [_ E4].
  unfold ctx_batch in He. apply tzoom_Ok_inv in He as (b2 & Hu & [= -> ->]).
  unfold update_sync_head in E4. apply bind_Ok_inv in E4 as (tip & _ & E4%map_err_Ok_inv).
  destruct (kept_hdr s3.2 s4.2) as [K1 K2]; [by eapply (kept_put_single SYNC_HEAD_PREFIX)|].
  apply (header_chain_updated c min_date max_date get_progpow_value u256_from config opts pow_verifier now genesis U HU bt s3.2 s4.2 hs z r); try done.
  cbn [snd] in E2. apply bind_Ok_inv in E2 as (hash & Hx & E2). unfold hash_of in Hx. destruct (header_hash c z) as [k| |]; [|done..]. injection Hx as ->.
  destruct known; cbn [negb] in E3; [injection E3 as _ <-; left; split; [done|]; destruct (hdr bt hash) as [x| |] eqn:Eg; [by exists hash, x|done..]|right].
  apply tbind_Ok_inv in E3 as (prev & s5 & E5 & E3). apply tread_Ok_inv in E5 as [_ ->]. apply tbind_Ok_inv in E3 as ([] & s6 & E6 & E3).
  destruct u3. apply tfor_validates in E3 as [-> Hval]. apply sync_extending_batch in E6 as (h & p & e & Ew & Eb).
  apply sync_work_saves in Ew as [Er Es]. cbn [hx_rollback hx_batch snd] in Er, Es. specialize (Eb Er).
  assert (s6.2 = hx_batch e) as E6'; [|rewrite E6' in *; split; [|done]; by destruct bt].
  rewrite Eb. unfold commit_child. cbn [snd]. assert (committed (hx_batch e) = committed bt) as <-; [|by destruct (hx_batch e)].
  assert (quiet (child bt) (hx_batch e)) as [_ Q]; [|exact Q]. eapply foldM_quiet; [|exact Es]. intros x y w _. apply add_block_header_quiet.
Qed.

(** *** On the chain *)
(** The chain has a consistent chain of headers, and the orphans that wait are of [U]. *)
Definition headers_good (s : Chain) : Prop :=
  header_chain (view s)
  /\ map_Forall (fun _ o => U (header (o_block o)) /\ contains (o_opts o) SKIP_POW = false) (Orphans.orphans (orphans s)).
Definition stays_good (s s' : Chain) : Prop := headers_good s -> headers_good s'.
#[local] Instance stays_good_pre : PreOrder stays_good.
Proof. split; [intros s Hs; exact Hs|]. unfold stays_good. intros x y z. auto. Qed.

Lemma same_store_good s s' : store s' = store s -> Orphans.orphans (orphans s') ⊆ Orphans.orphans (orphans s) -> stays_good s s'.
Proof.
  intros Es Ho [G1 G2]. split; [unfold view in *; by rewrite Es|]. intros k o Hk. apply (G2 k o). by eapply lookup_weaken.
Qed.

#[local] Abbreviation single now := (process_block_single c min_date max_date get_progpow_value u256_from config pow_verifier
  now bitmap_serialize bitmap_deserialize load_foundation_output).
#[local] Abbreviation process_block now := (Chain.process_block c min_date max_date get_progpow_value u256_from config pow_verifier
  now bitmap_serialize bitmap_deserialize load_foundation_output).
#[local] Abbreviation sync_headers now := (Chain.sync_block_headers c min_date max_date get_progpow_value u256_from config pow_verifier now).

Lemma in_batch_good {A} (m : trans (TxHashSet * Batch) chain_error A) :
  (forall t bt r t' bt', header_chain bt -> m (t, bt) = (Ok r, (t', bt')) -> header_chain bt') -> tkeeps stays_good (in_batch m).
Proof.
  intros Hm s r s' He. unfold in_batch in He. destruct (m (txhashset s, view s)) as [r1 [t1 bt]] eqn:E1. injection He as <- <-.
  destruct r1 as [a|e|]; cbn [is_ok]; [|by apply same_store_good..]. intros [G1 G2]. split; [|exact G2].
  apply (kept_header_chain bt); [done|]. by eapply Hm.
Qed.

Lemma single_good now b opts : contains opts SKIP_POW = false -> U (header b) -> tkeeps stays_good (single now b opts).
Proof.
  intros Hsk Hb s r s' He. unfold process_block_single in He. unfold tbind at 1, tread at 1 in He.
  destruct (store_err _) as [prev|e|]; [|injection He as _ <-; reflexivity..].
  destruct (in_batch _ s) as [r1 s1] eqn:E1.
  assert (stays_good s s1) as H1.
  { eapply in_batch_good; [|exact E1]. intros t bt q t' bt' Hc Hp. by eapply process_block_headers. }
  destruct r1 as [new|e|]; [injection He as _ <-; etransitivity; [exact H1|by apply same_store_good]| |by injection He as _ <-].
  destruct e; try (by injection He as _ <-). destruct (orphan_add _ _ _ _) as [pool|e|] eqn:Ea; injection He as _ <-; [|done..].
  etransitivity; [exact H1|]. intros [G1 G2]. split; [exact G1|]. apply orphan_add_sub in Ea as (hash & _ & Hsub & _).
  intros k o Hk. eapply lookup_weaken in Hk; [|exact Hsub]. apply lookup_insert_Some in Hk as [[_ <-]|[_ Hk]]; [done|by apply (G2 k o)].
Qed.

Lemma orphans_good now fuel h :
  tkeeps stays_good (Chain.orphan_loop c min_date max_date get_progpow_value u256_from config pow_verifier now bitmap_serialize
    bitmap_deserialize load_foundation_output fuel h).
Proof.
  revert h. induction fuel as [|fuel IH]; intros h s r s' He; cbn [Chain.orphan_loop] in He; [by injection He as _ <-|].
  destruct (remove_by_height _ _) as [ro pool] eqn:Er. destruct (taken_orphans _ _ _ _ Er) as [Hsub Hl].
  assert (stays_good s (set_orphans pool s)) as Hg by by apply same_store_good.
  destruct ro as [l|]; [|by injection He as _ <-]. intros Hs. cbn [default from_option] in Hl.
  assert (tkeeps stays_good (Chain.try_orphans c min_date max_date get_progpow_value u256_from config pow_verifier now
    bitmap_serialize bitmap_deserialize load_foundation_output l None)) as Ht.
  { assert (Forall (fun o => U (header (o_block o)) /\ contains (o_opts o) SKIP_POW = false) l) as Hok.
    { eapply Forall_impl; [exact Hl|]. intros o [k Hk]. by apply (proj2 Hs k o). }
    clear -Hok HU. generalize (@None Z). induction Hok as [|o l [Ho1 Ho2] _ IHl]; intros acc s r s' He; cbn [Chain.try_orphans] in He.
    - by injection He as _ <-.
    - destruct (single now _ _ s) as [r1 s1] eqn:E1. apply (single_good _ _ _ Ho2 Ho1) in E1.
      destruct r1; [etransitivity; [exact E1|by eapply IHl]..|]. by injection He as _ <-. }
  revert Hs. change (stays_good s s'). etransitivity; [exact Hg|]. revert He.
  generalize (set_orphans pool s) r s'. change (tkeeps stays_good (tbind (Chain.try_orphans c min_date max_date get_progpow_value u256_from
    config pow_verifier now bitmap_serialize bitmap_deserialize load_foundation_output l None) (fun accepted => match accepted with
    | Some ha => Chain.orphan_loop c min_date max_date get_progpow_value u256_from config pow_verifier now bitmap_serialize
        bitmap_deserialize load_foundation_output fuel (ha +! 1) | None => tret tt end))).
  apply tkeeps_tbind; [exact _|exact Ht|]. intros [ha|]; [apply IH|apply tkeeps_tret, _].
Qed.

Lemma process_block_good now b opts : contains opts SKIP_POW = false -> U (header b) -> tkeeps stays_good (process_block now b opts).
Proof.
  intros Hsk Hb. unfold Chain.process_block. keeps_seq; [by apply single_good| |apply tkeeps_tret, _].
  intros s r s' He. by eapply orphans_good.
Qed.

Lemma sync_headers_good now hs opts :
  contains opts SKIP_POW = false -> Forall U hs -> linked c hs -> tkeeps stays_good (sync_headers now hs opts).
Proof.
  intros Hsk HF Hl. unfold Chain.sync_block_headers. keeps_seq; [|apply tkeeps_tret, _]. apply in_batch_good.
  intros t bt r t' bt' Hc He. by eapply sync_headers_chain.
Qed.

(** Headers reach the store with a block, or in a run in which each names the one before as
    its parent; whatever the call returns. *)
Inductive headers_offered : Chain -> Chain -> Prop :=
| offered_block now b opts s r s' :
    contains opts SKIP_POW = false -> U (header b) -> process_block now b opts s = (r, s') -> headers_offered s s'
| offered_run now hs opts s r s' :
    contains opts SKIP_POW = false -> Forall U hs -> linked c hs -> sync_headers now hs opts s = (r, s') -> headers_offered s s'.

(** C26. The chain of headers is the heaviest one known.  Whatever blocks, with the orphans
    they release, and whatever runs of headers [process_block] and [sync_block_headers] are
    given in whatever order, proofs of work being checked, and whatever these return: every
    stored header goes back to the genesis header parent by parent, and the header head is a
    stored header that no stored header exceeds in total work.  Assumed of the headers that
    are offered: no two have one hash, no total overflows, and in a run each is the child of
    the one before, which the code does not check. *)
Theorem header_head_heaviest s s' :
  headers_good s -> rtc headers_offered s s' ->
  chain_ok c min_date max_date genesis (view s') /\ (forall k h, hdr (view s') k = Ok h -> descends c min_date max_date genesis (view s') h)
  /\ exists t h, ChainStore.header_head (view s') = Ok t /\ hdr (view s') (last_block_h t) = Ok h
    /\ tip_height t = height h /\ tip_difficulty t = h_total_difficulty h
    /\ (forall k h', hdr (view s') k = Ok h' -> num_sum (h_total_difficulty h') <= num_sum (tip_difficulty t)).
Proof.
  intros Hg Hs. assert (headers_good s') as [[Hb Hh _] _].
  { induction Hs as [|x y z Hstep _ IH]; [done|]. apply IH. clear IH. revert Hg.
    destruct Hstep as [now b opts x r y Hsk Hb He|now hs opts x r y Hsk HF Hl He]; [by eapply process_block_good|by eapply sync_headers_good]. }
  split_and!; [exact Hb| |exact Hh]. intros k h Hk. apply stored_descends; [done|by exists k].
Qed.
End HeaderChain.
