(* ===== verification/UtxoRewind.v ===== *)
(** * A rewind gives back the unspent outputs of before the block

    A block is applied, the positions it spent are saved with it, the unit of work is
    committed, and a later one rewinds to the size the ranges had before: the outputs,
    the proofs and the unspent positions are those of before the block. *)
From S2P Require Import Prelude PmmrIndex Pmmr PmmrRefine AppendOnlyFile PruneList PmmrBackend PmmrData Ser Global Pow Reward Committed Transaction CutThrough Block BlockTheory ChainStore ChainStoreTheory Pipe TxHashSet TxHashSetUndo TxHashSetUtxo.
Import Pos Node Spec Theorems.

(** A range after a commit. *)
Definition committed_range (p p' : Range) : Prop := sync (backend p) = Ok (backend p') /\ last_pos p' = last_pos p.

(** The next unit of work: the output and range proof ranges as committed, and the
    index of positions. *)
Record resumed (e e' : Extension) : Prop := {
  res_output : committed_range (output_pmmr e) (output_pmmr e');
  res_rproof : committed_range (rproof_pmmr e) (rproof_pmmr e');
  res_index : forall x, get_output_pos (ext_batch e') x = get_output_pos (ext_batch e) x
}.

(** A range that can be rewound to [n] leaves. *)
Definition can_rewind (p : Range) (position n : Z) : Prop :=
  clean (hash_file (backend p)) /\ clean (data_file (backend p)) /\
  0 <= position < 2 ^ 60 /\ n_leaves position = n.

Lemma n_leaves_mmr_size n : 0 <= n -> mmr_size n < 2 ^ 32 -> n_leaves (mmr_size n) = n.
Proof.
  intros Hn Hc. rewrite <- (Z.add_0_r (mmr_size n)), n_leaves_size by (apply is_node_leaf || lia; lia). done.
Qed.

Section Rewind.
Context `{Hasher} `{Secp}.
Hypothesis MAX_PROOF_SIZE_small : Z.of_nat MAX_PROOF_SIZE <= 60000.
Context (c : ChainTypes).

#[local] Abbreviation out_stored := (stored (IH := output_index) from_output write_output_id (deser read_output_id)).
#[local] Abbreviation rp_stored := (stored (IH := rproof_index) id write_range_proof (deser read_range_proof)).
#[local] Abbreviation headers_stored :=
  (stored (IH := header_index c) (header_elmt c) write_header_entry (deser read_header_entry)).
#[local] Abbreviation kernels_stored :=
  (stored (IH := kernel_index) from_kernel write_kernel_entry (deser read_kernel_entry)).

Lemma committed_stored {T E} {IH : IndexHash T Hash} (as_elmt : T -> E) ser_elmt deser_elmt p p' ts :
  stored as_elmt ser_elmt deser_elmt p ts -> committed_range p p' ->
  stored as_elmt ser_elmt deser_elmt p' ts /\ clean (hash_file (backend p')) /\ clean (data_file (backend p')) /\
  same_size_kind (data_file (backend p)) (data_file (backend p')) /\ prunable (backend p') = prunable (backend p) /\
  prune_list (backend p') = prune_list (backend p) /\ unspent (backend p') = unspent (backend p).
Proof.
  intros Hst [Hs El]. destruct (sync_stored _ _ _ _ _ Hst) as (b2 & Hs' & Hst2 & Hr). rewrite Hs in Hs'.
  injection Hs' as <-. rewrite <- El in Hst2. split; [by destruct p'|done].
Qed.

(** The state of the outputs survives the commit. *)
Lemma resumed_utxo e e' os : resumed e e' -> utxo_state e os -> utxo_state e' os.
Proof.
  intros [Ho Hr Hx] [So Sr [P1 P2] Es [F1 F2] Hi Hg].
  destruct (committed_stored _ _ _ _ _ _ So Ho) as (So' & _ & _ & K1 & P1' & _ & U1).
  destruct (committed_stored _ _ _ _ _ _ Sr Hr) as (Sr' & _ & _ & K2 & P2' & _ & U2).
  unfold unspent_of in *. constructor; unfold unspent_of; rewrite ?U1, ?U2, ?P1', ?P2'; try done.
  - split; [intros d; apply K1, F1|intros p Hp; by apply K2, F2].
  - intros k o. rewrite Hx. apply Hi.
  - intros x pos. rewrite Hx. apply Hg.
Qed.

(** A unit of work that starts where another one is committed. *)
Definition synced_range (p : Range) : Range :=
  match sync (backend p) with
  | Ok b => mkPMMR (last_pos p) b
  | _ => p
  end.

Definition resume (e : Extension) : Extension :=
  mkExtension (ext_header e) (synced_range (header_pmmr e)) (synced_range (output_pmmr e)) (synced_range (rproof_pmmr e))
    (synced_range (kernel_pmmr e)) false (ext_batch e).

Lemma stored_commits {T E} {IH : IndexHash T Hash} (as_elmt : T -> E) ser_elmt deser_elmt p ts :
  stored as_elmt ser_elmt deser_elmt p ts -> committed_range p (synced_range p).
Proof. intros Hst. destruct (sync_stored _ _ _ _ _ Hst) as (b & Hs & _). unfold committed_range, synced_range. by rewrite Hs. Qed.

Lemma resume_resumed e os : utxo_state e os -> resumed e (resume e).
Proof. intros [So Sr _ _ _ _ _]. constructor; [exact (stored_commits _ _ _ _ _ So)|exact (stored_commits _ _ _ _ _ Sr)|done]. Qed.

(** The bitmap saved with the block is the set of leaves its inputs spent. *)
Lemma build_bitmap_spent batch blk spent :
  Forall2 (indexed_at batch) (inputs (b_body blk)) spent ->
  Forall (fun k => 0 <= pos_of k 0 < 2 ^ 32) spent ->
  build_block_input_bitmap batch blk = Ok (leaf_set_of spent).
Proof.
  unfold build_block_input_bitmap. intros HF Hr. transitivity (Ok (E := store_error) (leaf_set_of spent ∪ ∅)); [|by rewrite union_empty_r_L].
  generalize (∅ : gset Z). revert HF Hr. generalize (inputs (b_body blk)) as ins. intros ins HF.
  induction HF as [|i k ins spent Hi _ IH]; intros Hr bm; cbn [foldM].
  { change (leaf_set_of []) with (∅ : gset Z). by rewrite union_empty_l_L. }
  inversion Hr as [|? ? Hk Hr']; subst. rewrite Hi. cbn [bind]. rewrite IH by done. f_equal.
  unfold leaf_set_of, wrap32. cbn [fmap list_fmap list_to_set]. rewrite Z.mod_small by lia. set_solver.
Qed.

(** What is left of a range once it is rewound to the outputs before the block. *)
Lemma unspent_restored (U new S V : gset Z) n :
  (forall x, x ∈ U -> x <= n) -> (forall x, x ∈ new -> n < x) -> S ⊆ U ∪ new -> (forall x, x ∈ S -> x <= n) ->
  (forall x, x ∈ V <-> x ∈ S \/ (x ∈ (U ∪ new) ∖ S /\ x <= n)) -> V = U.
Proof.
  intros HU Hnew HS HSn HV. apply set_eq. intros x. rewrite HV, elem_of_difference, elem_of_union. split.
  - intros [Hx|[[[Hx|Hx] _] Hle]]; [|done|specialize (Hnew x Hx); lia].
    pose proof (HSn x Hx). apply HS, elem_of_union in Hx as [?|Hx]; [done|]. specialize (Hnew x Hx). lia.
  - intros Hx. specialize (HU x Hx). destruct (decide (x ∈ S)); tauto.
Qed.

Lemma whole_rewind {T E} {IH : IndexHash T Hash} (as_elmt : T -> E) ser_elmt deser_elmt p ts position n :
  stored as_elmt ser_elmt deser_elmt p ts -> can_rewind p position n -> n <= leaves ts -> prunable (backend p) = false ->
  exists p', Pmmr.rewind (BE := pmmr_backend as_elmt ser_elmt deser_elmt) p position ∅ = Ok p'.
Proof.
  intros Hst (Hc1 & Hc2 & Hp & Hn) Hle Hpr. destruct (st_whole _ _ _ _ _ Hst Hpr) as [Eb _].
  pose proof (n_leaves_nonneg position Hp). pose proof (mmr_size_ge n ltac:(lia)).
  destruct (rewind_stored as_elmt ser_elmt deser_elmt p ts position ∅ n Hst Hc1 Hc2 Hp Hn Hle) as (p' & Hr & _); [| |by eauto].
  - rewrite Eb. change (bm_maximum ∅) with 0. lia.
  - intros x Hx. by apply not_elem_of_empty in Hx.
Qed.

(** One of the two ranges of outputs, from its state before the block to the rewound one. *)
Lemma range_restored {T E} {IH : IndexHash T Hash} (as_elmt : T -> E) ser_elmt deser_elmt p ts p1 new p2 bm :
  stored as_elmt ser_elmt deser_elmt p ts -> stored as_elmt ser_elmt deser_elmt p1 (ts ++ new) ->
  prune_list (backend p1) = prune_list (backend p) -> prunable (backend p1) = true ->
  committed_range p1 p2 -> (forall x, x ∈ bm -> x ∈ unspent (backend p)) ->
  exists p3, Pmmr.rewind (BE := pmmr_backend as_elmt ser_elmt deser_elmt) p2 (mmr_size (leaves ts)) bm = Ok p3 /\
    stored as_elmt ser_elmt deser_elmt p3 ts /\ prunable (backend p3) = true /\
    (forall x, x ∈ unspent (backend p3) <-> x ∈ bm \/ (x ∈ unspent (backend p1) /\ x <= mmr_size (leaves ts))) /\
    same_size_kind (data_file (backend p1)) (data_file (backend p3)).
Proof.
  intros Hst Hst1 Epl Hpr Hcr Hbm. assert (0 <= leaves ts) as Hl0 by (unfold leaves; lia).
  pose proof (st_cap _ _ _ _ _ Hst) as Hcap. pose proof (mmr_size_ge (leaves ts) Hl0).
  destruct (committed_stored _ _ _ _ _ _ Hst1 Hcr) as (Hst2 & Hc1 & Hc2 & Hk & Ep2 & Epl2 & Eu2).
  pose proof (st_backend_ok _ _ _ _ _ Hst) as [_ _ _ Hm _]. rewrite (proj1 (st_size _ _ _ _ _ Hst)) in Hm.
  destruct (rewind_stored as_elmt ser_elmt deser_elmt p2 (ts ++ new) (mmr_size (leaves ts)) bm (leaves ts) Hst2 Hc1 Hc2)
    as (p3 & Hr & Hst3 & Ep3 & _ & Hu3 & _ & Hk3).
  - lia.
  - by apply n_leaves_mmr_size.
  - unfold leaves. rewrite length_app. lia.
  - by rewrite Epl2, Epl.
  - intros x Hx. destruct (st_unspent _ _ _ _ _ Hst x (Hbm x Hx)) as (j & Hj & -> & Hn). exists j. split_and!; [lia|lia|done|].
    unfold PmmrBackend.roots. by rewrite Epl2, Epl.
  - exists p3. rewrite Ep2 in Ep3, Hu3. unfold leaves in Hst3. rewrite Nat2Z.id, take_app_length in Hst3.
    split_and!; [done|done|congruence| |intros x; etransitivity; [apply Hk3|apply Hk]].
    intros x. rewrite (Hu3 Hpr). by rewrite Eu2.
Qed.

(** The leaves of the outputs before a block, of its own outputs and of those it spends. *)
Lemma block_leaves b e os e1 spent :
  utxo_state e os -> block_applied b e os e1 spent ->
  let new := new_leaves (leaves os) (Z.of_nat (length (outputs (b_body b)))) in
  (forall x, x ∈ unspent_of e -> x <= mmr_size (leaves os)) /\ (forall x, x ∈ new -> mmr_size (leaves os) < x) /\
  leaf_set_of spent ⊆ unspent_of e ∪ new /\ Forall (fun k => 0 <= pos_of k 0 < 2 ^ 32) spent.
Proof.
  intros Hus [Hus1 Hsp _ _ _ _ _ _ _] new. assert (0 <= leaves os) as Hl0 by (unfold leaves; lia).
  assert (forall k, k ∈ spent -> pos_of k 0 ∈ unspent_of e ∪ new /\ 0 <= pos_of k 0 < 2 ^ 32) as Hspent.
  { intros k Hk. apply list_elem_of_lookup in Hk as [n Hn].
    destruct (Forall2_lookup_r _ _ _ _ _ Hsp Hn) as (i & _ & (Hkr & Hku & _)).
    split; [done|]. pose proof (leaf_in_range _ k Hkr). pose proof (us_cap _ _ Hus1). lia. }
  split_and!; [intros x Hx..|apply Forall_forall; intros x Hx].
  - destruct (st_unspent _ _ _ _ _ (us_output _ _ Hus) x Hx) as (j & Hj & -> & _). pose proof (leaf_in_range os j Hj). lia.
  - unfold new, new_leaves in Hx. apply elem_of_list_to_set, list_elem_of_fmap in Hx as (k & -> & Hk%elem_of_seqZ).
    destruct (Z.le_gt_cases (pos_of k 0) (mmr_size (leaves os))) as [Hx|]; [|done].
    apply (pos_of_in_range k 0 (leaves os)) in Hx; [lia|apply is_node_leaf; lia|done].
  - unfold leaf_set_of in Hx. apply elem_of_list_to_set, list_elem_of_fmap in Hx as (k & -> & Hk). by apply Hspent.
  - by apply Hspent.
Qed.

(** [rewind_to_pos] from the rewinds of the four ranges. *)
Lemma rewind_to_pos_ok e hpos opos kpos bm h3 o3 r3 k3 :
  Pmmr.rewind (BE := header_backend c) (header_pmmr e) hpos ∅ = Ok h3 ->
  Pmmr.rewind (BE := output_backend) (output_pmmr e) opos bm = Ok o3 ->
  Pmmr.rewind (BE := rproof_backend) (rproof_pmmr e) opos bm = Ok r3 ->
  Pmmr.rewind (BE := kernel_backend) (kernel_pmmr e) kpos ∅ = Ok k3 ->
  rewind_to_pos c hpos opos kpos bm e =
    (Ok tt, set_kernel_pmmr k3 (set_rproof_pmmr r3 (set_output_pmmr o3 (set_header_pmmr h3 e)))).
Proof.
  intros Rh Ro Rr Rk. unfold rewind_to_pos, tbind, tzoom, no_result.
  rewrite Rh. cbn [bind txhashset_err map_err set_header_pmmr output_pmmr rproof_pmmr kernel_pmmr].
  rewrite Ro. cbn [bind txhashset_err map_err set_output_pmmr set_header_pmmr rproof_pmmr kernel_pmmr].
  rewrite Rr. cbn [bind txhashset_err map_err set_rproof_pmmr set_output_pmmr set_header_pmmr kernel_pmmr]. by rewrite Rk.
Qed.

(** C10. Rewinding undoes a block in the ranges: apply a block, save the bitmap of its inputs,
    commit, and rewind the ranges to their sizes before it with that bitmap; the outputs, their
    proofs and the unspent positions are those of before the block.  The batch, and with it the
    index of output positions, stays as the block left it: it is still right for every unspent
    output, the restored ones too, but keeps the entries of the outputs that are gone.  The
    inputs must not spend outputs of the block itself, which cut-through rules out. *)
Theorem rewind_undoes_block b e os e1 e2 bm hs ks hpos hn kpos kn :
  utxo_state e os -> ext_anchored e -> Forall (fun o => proof_full (out_proof o)) (outputs (b_body b)) ->
  mmr_size (leaves os + Z.of_nat (length (outputs (b_body b)))) < 2 ^ 32 ->
  apply_block c b e = (Ok tt, e1) -> build_block_input_bitmap (ext_batch e1) b = Ok bm ->
  (forall x, x ∈ bm -> x <= mmr_size (leaves os)) -> resumed e1 e2 ->
  headers_stored (header_pmmr e2) hs -> can_rewind (header_pmmr e2) hpos hn -> hn <= leaves hs ->
  prunable (backend (header_pmmr e2)) = false ->
  kernels_stored (kernel_pmmr e2) ks -> can_rewind (kernel_pmmr e2) kpos kn -> kn <= leaves ks ->
  prunable (backend (kernel_pmmr e2)) = false ->
  exists e3, rewind_to_pos c hpos (mmr_size (leaves os)) kpos bm e2 = (Ok tt, e3) /\
    utxo_state e3 os /\ unspent_of e3 = unspent_of e /\ ext_batch e3 = ext_batch e2.
Proof.
  intros Hus Han HF Hcap Ha Hbm Hle [S1 S2 Hix] Hhs Hhr Hhn Hhp Hks Hkr Hkn Hkp.
  destruct (apply_block_utxo MAX_PROOF_SIZE_small c b e os e1 Hus HF Hcap Ha) as (spent & Hba).
  destruct (block_leaves b e os e1 spent Hus Hba) as (HU & Hnew & Hss & Hsp). pose proof Hba as [Hus1 _ _ Hu1 Hin Hidx _ _ _].
  pose proof (apply_block_undoes c b _ _ _ Ha Han) as [_ [Ed1 _] [Ed2 _] _].
  injection Ed1 as _ _ _ _ _ Epo. injection Ed2 as _ _ _ _ _ Epr. destruct (us_prunable _ _ Hus1) as [Hp1 Hp2].
  rewrite (build_bitmap_spent _ b spent Hin Hsp) in Hbm. injection Hbm as <-.
  assert (forall x, x ∈ leaf_set_of spent -> x ∈ unspent_of e) as HSU.
  { intros x Hx. specialize (Hle x Hx). apply Hss, elem_of_union in Hx as [?|Hx]; [done|]. specialize (Hnew x Hx). lia. }
  destruct (range_restored _ _ _ _ _ _ _ _ _ (us_output _ _ Hus) (us_output _ _ Hus1) Epo Hp1 S1 HSU)
    as (o3 & Ro & Hso & Hpo & Huo & Hko).
  pose proof (us_rproof _ _ Hus1) as Hsr1. rewrite fmap_app in Hsr1.
  assert (leaves (out_proof <$> os) = leaves os) as Elr by (unfold leaves; by rewrite length_fmap).
  destruct (range_restored _ _ _ _ _ _ _ _ _ (us_rproof _ _ Hus) Hsr1 Epr Hp2 S2
    ltac:(by rewrite (us_same _ _ Hus))) as (r3 & Rr & Hsr & Hpr & Hur & Hkr').
  rewrite Elr in Rr, Hur. rewrite (us_same _ _ Hus1) in Hur. fold (unspent_of e1) in Huo. rewrite Hu1 in Huo, Hur.
  pose proof (unspent_restored _ _ _ _ _ HU Hnew Hss Hle Huo) as Eo. pose proof (unspent_restored _ _ _ _ _ HU Hnew Hss Hle Hur) as Er.
  destruct (whole_rewind _ _ _ _ _ _ _ Hhs Hhr Hhn Hhp) as (h3 & Rh). destruct (whole_rewind _ _ _ _ _ _ _ Hks Hkr Hkn Hkp) as (k3 & Rk).
  eexists. split; [exact (rewind_to_pos_ok _ _ _ _ _ _ _ _ _ Rh Ro Rr Rk)|]. split; [|split; [exact Eo|reflexivity]].
  destruct (us_fits _ _ Hus1) as [F1 F2].
  constructor; unfold unspent_of; cbn [output_pmmr rproof_pmmr ext_batch set_header_pmmr set_output_pmmr set_rproof_pmmr set_kernel_pmmr].
  - exact Hso.
  - exact Hsr.
  - done.
  - by rewrite Eo, Er.
  - split; [intros d; apply Hko, F1|intros q Hq; by apply Hkr', F2].
  - intros k o Ho Hk Hu. rewrite Hix. apply (Hidx k o); [by apply lookup_app_l_Some|done|]. apply elem_of_union. left. by rewrite <- Eo.
  - intros x pos Hx. rewrite Hix in Hx. by apply (us_range _ _ Hus1 x).
Qed.

End Rewind.
