(* ===== verification/TxHashSetExample.v ===== *)
(** * Blocks on a small transaction hash set

    Two units of work on ranges that start empty, with a polynomial in the place of
    BLAKE2b and the integer model of the curve: the theorems about the unspent outputs
    apply there. *)
From S2P Require Import Prelude PmmrIndex Pmmr PmmrRefine AppendOnlyFile PruneList PmmrBackend PmmrData Ser Global Pow Reward Retarget Feijoada Committed Transaction CutThrough Block BlockTheory ChainStore ChainStoreTheory Pipe PipeTheory ChainSums PipeExample TxHashSet ProcessBlock TxHashSetUndo TxHashSetUtxo UtxoSums UtxoRewind.
Import Pos Node Spec Theorems.

#[local] Instance poly_hasher : Hasher := fun content =>
  from_vec (be_bytes 32 (foldl (fun a b => Z.land (a * 257 + b + 1) (Z.ones 40)) 7 content)).
#[local] Existing Instance integer_secp.

Definition small_proofs : Z.of_nat (@MAX_PROOF_SIZE integer_secp) <= 60000.
Proof. vm_decide. Qed.

(** ** Empty ranges *)
Definition blank (header : BlockHeader) (b : Batch) : Extension :=
  mkExtension header
    (Pmmr.new (empty_backend false (empty_file HeaderEntry_LEN)))
    (Pmmr.new (empty_backend true (empty_file OutputIdentifier_LEN)))
    (Pmmr.new (empty_backend true (empty_file (@RangeProof_LEN integer_secp))))
    (Pmmr.new (empty_backend false (mkAOF [] (VariableSize (empty_file SizeEntry_LEN)) None [] 0 0)))
    false b.

Lemma blank_utxo header b :
  (forall x pos, get_output_pos b x = Ok pos -> False) -> @utxo_state poly_hasher integer_secp (blank header b) [].
Proof.
  intros Hb. constructor.
  - by apply empty_stored, empty_file_holds.
  - by apply empty_stored, empty_file_holds.
  - done.
  - done.
  - split; [intros d; exact (len_output_id d)|intros p Hp; by apply len_range_proof].
  - intros k o. by rewrite lookup_nil.
  - intros x pos Hx. destruct (Hb x pos Hx).
Qed.

(** ** A first block with two outputs, and one that spends the first of them *)
Definition ex_output (v : Z) : Output := mkOutput Plain (encode 33 v) rp8.
Definition seed_block : Block := mkBlock genesis (mkBody [] [ex_output 10; ex_output 11] [plain_kernel 0 5]).
Definition spend_block : Block := mkBlock first_header (mkBody [plain_input 10] [ex_output 12] [plain_kernel 3 4]).

Definition spend_hash : Hash := or_else ZERO_HASH (header_hash Mainnet first_header).
Definition no_store : Batch := batch (mkStore ∅).
Definition seeded : Extension := (apply_block Mainnet seed_block (blank genesis no_store)).2.
Definition ready : Extension := resume seeded.
Definition spent_ext : Extension := (apply_block Mainnet spend_block ready).2.

Lemma proofs_full l : Forall (fun o => out_proof o = rp8) l -> Forall (fun o => @proof_full integer_secp (out_proof o)) l.
Proof. intros HF. eapply Forall_impl; [exact HF|]. intros o ->. split; vm_compute; reflexivity. Qed.

Lemma seeded_utxo : utxo_state seeded [ex_output 10; ex_output 11].
Proof.
  destruct (apply_block_utxo small_proofs Mainnet seed_block (blank genesis no_store) [] seeded) as (spent & Hb).
  - apply blank_utxo. intros x pos Hx. discriminate Hx.
  - apply proofs_full. repeat constructor.
  - vm_compute. reflexivity.
  - assert (is_ok (apply_block Mainnet seed_block (blank genesis no_store)).1 = true) as Hok by (vm_compute; reflexivity).
    unfold seeded. destruct (apply_block _ _ _) as [[[]| |] e]; [done|discriminate Hok..].
  - exact (ba_state _ _ _ _ _ Hb).
Qed.

Lemma ready_utxo : utxo_state ready [ex_output 10; ex_output 11].
Proof. eapply resumed_utxo; [eapply resume_resumed|]; exact seeded_utxo. Qed.

Lemma spend_applies : apply_block Mainnet spend_block ready = (Ok tt, spent_ext).
Proof.
  assert (is_ok (apply_block Mainnet spend_block ready).1 = true) as Hok by (vm_compute; reflexivity).
  unfold spent_ext. destruct (apply_block _ _ _) as [[[]| |] e]; [done|discriminate Hok..].
Qed.

(** Which outputs of [ready] are unspent, and where. *)
Lemma ready_unspent : unspent_of ready = {[ 1; 2 ]}.
Proof. vm_decide. Qed.

Lemma spend_no_collision :
  no_collision ([ex_output 10; ex_output 11] ++ outputs (b_body spend_block)) (inputs (b_body spend_block)).
Proof.
  intros i k o Hi Ho Hk Hh. apply list_elem_of_singleton in Hi as ->.
  assert (Z.to_nat k = 0 \/ Z.to_nat k = 1 \/ Z.to_nat k = 2)%nat as Hc by (apply lookup_lt_Some in Ho; simpl in Ho; lia).
  assert (k = 0 \/ k = 1 \/ k = 2) as [->|[->| ->]] by lia; injection Ho as <-.
  - vm_compute. reflexivity.
  - exfalso. revert Hh. vm_decide.
  - exfalso. revert Hh. vm_decide.
Qed.

Lemma apply_block_refines_witness :
  exists spent, NoDup spent /\ unspent_of spent_ext = ({[ 1; 2 ]} ∪ new_leaves 2 1) ∖ leaf_set_of spent.
Proof.
  destruct (apply_block_refines small_proofs Mainnet spend_block ready [ex_output 10; ex_output 11] spent_ext)
    as (spent & _ & Hn & _ & Hu & _).
  - exact ready_utxo.
  - apply proofs_full. repeat constructor.
  - vm_compute. reflexivity.
  - exact spend_no_collision.
  - exact spend_applies.
  - exists spent. split; [exact Hn|]. rewrite ready_unspent in Hu. exact Hu.
Defined.

(** ** The block is not refused *)

(** The outputs of [ready] beside empty ranges of headers and kernels. *)
Definition outputs_only (e : Extension) : Extension :=
  set_kernel_pmmr (kernel_pmmr (blank genesis no_store)) (set_header_pmmr (header_pmmr (blank genesis no_store)) e).

Lemma outputs_only_utxo e os : utxo_state e os -> utxo_state (outputs_only e) os.
Proof. by apply utxo_state_ext. Qed.

Lemma no_headers e :
  PmmrData.stored (IH := header_index Mainnet) (header_elmt Mainnet) write_header_entry (deser read_header_entry)
    (header_pmmr (outputs_only e)) [].
Proof. by apply empty_stored, empty_file_holds. Qed.

Lemma no_kernels e :
  PmmrData.stored (IH := kernel_index) from_kernel write_kernel_entry (deser read_kernel_entry)
    (kernel_pmmr (outputs_only e)) [].
Proof. apply empty_stored, empty_variable_holds. Qed.

Lemma outputs_only_unspent : unspent_of (outputs_only ready) = {[ 1; 2 ]}.
Proof. vm_decide. Qed.

Lemma spend_unspent :
  Forall2 (spends_unspent (outputs_only ready) [ex_output 10; ex_output 11]) (inputs (b_body spend_block)) [0].
Proof.
  constructor; [|constructor]. exists (ex_output 10). split; [|vm_compute; reflexivity].
  split_and!; [done|done|done|]. rewrite outputs_only_unspent. vm_decide.
Qed.

Lemma new_commitment :
  commit_unspent (outputs_only ready) [ex_output 10; ex_output 11] (out_commit (ex_output 12)) -> False.
Proof.
  intros (k & o & (Hk & Ho & _) & Hc). unfold leaves in Hk. cbn [length] in Hk.
  assert (k = 0 \/ k = 1) as [->| ->] by lia; injection Ho as <-; revert Hc; vm_decide.
Qed.

Lemma valid_block_applies_witness :
  exists e', apply_block Mainnet spend_block (outputs_only ready) = (Ok tt, e') /\
    unspent_of e' = ({[ 1; 2 ]} ∪ new_leaves (leaves [ex_output 10; ex_output 11])
                       (Z.of_nat (length (outputs (b_body spend_block))))) ∖ leaf_set_of [0].
Proof.
  destruct (valid_block_applies small_proofs Mainnet spend_block (outputs_only ready) [ex_output 10; ex_output 11] [] [] [0]
    spend_hash) as (e' & Ha & Hu).
  - apply outputs_only_utxo. exact ready_utxo.
  - apply no_headers.
  - apply no_kernels.
  - vm_compute. reflexivity.
  - vm_compute. reflexivity.
  - vm_compute. reflexivity.
  - vm_compute. reflexivity.
  - split; [vm_compute; reflexivity|]. vm_compute. reflexivity.
  - vm_compute. reflexivity.
  - repeat constructor; vm_decide.
  - intros k. exact I.
  - apply proofs_full. repeat constructor.
  - vm_decide.
  - intros o Ho Hc. apply list_elem_of_singleton in Ho as ->. exact (new_commitment Hc).
  - exact spend_unspent.
  - vm_decide.
  - exists e'. split; [exact Ha|]. rewrite outputs_only_unspent in Hu. exact Hu.
Defined.

(** ** Spending and going back *)
Definition spend_bitmap : gset Z := or_else ∅ (build_block_input_bitmap (ext_batch spent_ext) spend_block).
Definition after_spend : Extension := outputs_only (resume spent_ext).

Lemma ready_anchored : ext_anchored ready.
Proof. vm_compute. repeat split; intuition congruence. Qed.

Lemma spend_utxo : utxo_state spent_ext ([ex_output 10; ex_output 11] ++ outputs (b_body spend_block)).
Proof.
  destruct (apply_block_utxo small_proofs Mainnet spend_block ready [ex_output 10; ex_output 11] spent_ext) as (spent & Hb).
  - exact ready_utxo.
  - apply proofs_full. repeat constructor.
  - vm_compute. reflexivity.
  - exact spend_applies.
  - exact (ba_state _ _ _ _ _ Hb).
Qed.

Lemma outputs_only_resumed e e' : resumed e e' -> resumed e (outputs_only e').
Proof. by intros [Ho Hr Hx]. Qed.

Lemma after_spend_resumed : resumed spent_ext after_spend.
Proof. apply outputs_only_resumed. exact (resume_resumed _ _ spend_utxo). Qed.

Lemma spend_bitmap_eq : spend_bitmap = {[ 1 ]}.
Proof. vm_decide. Qed.

Lemma rewind_undoes_block_witness :
  exists e3, rewind_to_pos Mainnet 0 (mmr_size (leaves [ex_output 10; ex_output 11])) 0 spend_bitmap after_spend = (Ok tt, e3) /\
    unspent_of e3 = {[ 1; 2 ]}.
Proof.
  destruct (rewind_undoes_block small_proofs Mainnet spend_block ready [ex_output 10; ex_output 11] spent_ext after_spend
    spend_bitmap [] [] 0 0 0 0) as (e3 & Hr & _ & Hu & _).
  - exact ready_utxo.
  - exact ready_anchored.
  - apply proofs_full. repeat constructor.
  - vm_compute. reflexivity.
  - exact spend_applies.
  - vm_compute. reflexivity.
  - rewrite spend_bitmap_eq. intros x Hx. apply elem_of_singleton in Hx as ->. vm_compute. congruence.
  - exact after_spend_resumed.
  - apply no_headers.
  - split; [split; reflexivity|]. split; [split; reflexivity|]. split; [lia|]. vm_compute. reflexivity.
  - vm_compute. congruence.
  - reflexivity.
  - apply no_kernels.
  - split; [split; reflexivity|]. split; [split; reflexivity|]. split; [lia|]. vm_compute. reflexivity.
  - vm_compute. congruence.
  - reflexivity.
  - exists e3. split; [exact Hr|]. rewrite ready_unspent in Hu. exact Hu.
Defined.
