(* ===== verification/ProcessBlockExample.v ===== *)
(** * A block accepted by the whole pipeline

    A transaction hash set and a store with a genesis block, and a block on top of it that
    passes every check of [process_block]: the theorems about processing a block, about
    the sum of the unspent outputs and about forks apply there. *)
From S2P Require Import Prelude PmmrIndex Pmmr PmmrRefine AppendOnlyFile PruneList PmmrBackend PmmrData Ser Global Pow Reward Retarget Feijoada Committed Transaction CutThrough Block BlockTheory ChainStore ChainStoreTheory Pipe PipeTheory ChainSums PipeExample TxHashSet ProcessBlock TxHashSetUndo TxHashSetUtxo UtxoSums UtxoRewind ProcessBlockTheory ForkTheory TxHashSetExample.
Import Pos Node Spec Theorems.

#[local] Existing Instance integer_secp.

Section Poly.
#[local] Existing Instance poly_hasher.
#[local] Existing Instance trusting_context.

(** ** The genesis block in its ranges and in the store *)
Definition handle_of (p : Range) : PMMRHandle := mkHandle (backend (synced_range p)) (last_pos p).
Definition set_of (e : Extension) : TxHashSet :=
  mkTxHashSet (handle_of (header_pmmr e)) (handle_of (header_pmmr e)) (handle_of (output_pmmr e))
    (handle_of (rproof_pmmr e)) (handle_of (kernel_pmmr e)).

Definition root_block : Block := mkBlock genesis (mkBody [] [ex_output 20] [plain_kernel 0 0]).
Definition root_hash : Hash := or_else ZERO_HASH (header_hash Mainnet genesis).
Definition no_bitmap (_ : gset Z) : list Z := [].
Definition empty_bitmap (_ : list Z) : gset Z := ∅.
Definition root_batch : Batch :=
  or_else empty_store
    (let? b := save_block_header Mainnet no_store genesis in
     let? b := save_block Mainnet no_bitmap b root_block in
     let? b := save_block_sums b root_hash block_sums_default in
     let? t := tip_from_header Mainnet genesis in
     let? b := save_head b t in save_sync_head b t).
Definition root_ext : Extension := (apply_block Mainnet root_block (blank genesis root_batch)).2.
Definition root_set : TxHashSet := set_of root_ext.
Definition chain_batch : Batch := batch (commit (ext_batch root_ext)).

Definition rooted (e : Extension) (h : BlockHeader) (prev_root : Hash) : BlockHeader :=
  match roots Mainnet e with
  | Ok r => mkBlockHeader (version h) (height h) (prev_hash h) prev_root (h_timestamp h)
      (r_output_root r) (r_rproof_root r) (r_kernel_root r) (total_kernel_offset h)
      (Pmmr.unpruned_size (output_pmmr e)) (Pmmr.unpruned_size (kernel_pmmr e)) (pow h) (policy h) (bottles h)
  | _ => h
  end.

Definition next_body : TransactionBody :=
  mkBody [] [mkOutput Coinbase (encode 33 1457920007) rp8] [mkTxKernel KernelCoinbase 0 0 (encode 33 7) (from_vec [])].
Definition next_draft : BlockHeader :=
  rx_header 1 1600000060 root_hash (difficulty_add (from_num 6000) first_work) (2 ^ 201) root_hash.
Definition start : Extension := new_extension root_set chain_batch genesis.
Definition next_header : BlockHeader :=
  rooted (apply_block Mainnet (mkBlock next_draft next_body) start).2 next_draft
    (or_else ZERO_HASH (header_root Mainnet start)).
Definition next_block : Block := mkBlock next_header next_body.

(** ** Processing it *)
#[local] Abbreviation process :=
  (process_block Mainnet 0 far_date no_progpow hash_value default_config 0 trusting ∅ noon no_bitmap empty_bitmap
     no_foundation next_block).
Definition processed : TxHashSet * Batch := (process (root_set, chain_batch)).2.
Definition next_tip : Tip := or_else (mkTip 0 ZERO_HASH ZERO_HASH (from_num 0)) (tip_from_header (E := ()) Mainnet next_header).

(** A computation that evaluates to a success, as an equation. *)
Lemma some_result {E A S T} (x : outcome E (option A) * (S * T)) :
  match x.1 with Ok (Some _) => true | _ => false end = true -> exists a, x = (Ok (Some a), (x.2.1, x.2.2)).
Proof. destruct x as [[[a|]|e|] [s t]]; try discriminate. by exists a. Qed.

Lemma processed_ok : exists tip, process (root_set, chain_batch) = (Ok (Some tip), (processed.1, processed.2)).
Proof. unfold processed. refine (some_result (process (root_set, chain_batch)) _). vm_compute. reflexivity. Qed.

Lemma root_set_synced : handles_synced root_set.
Proof. vm_compute. repeat split; reflexivity. Qed.
Lemma root_set_anchored : set_anchored root_set.
Proof. vm_compute. repeat split; intuition congruence. Qed.
Lemma root_set_fixed : set_fixed root_set.
Proof. vm_compute. repeat split. Qed.

Lemma process_block_atomic_witness :
  exists tip e is_fork b1, process (root_set, chain_batch) = (Ok (Some tip), (processed.1, processed.2)) /\
    block_ran Mainnet 0 far_date no_bitmap empty_bitmap next_block is_fork root_set b1 e /\
    advanced root_set e processed.1.
Proof.
  destruct processed_ok as [tip Hp].
  destruct (process_block_atomic Mainnet 0 far_date no_progpow hash_value default_config 0 trusting ∅ noon no_bitmap
    empty_bitmap no_foundation next_block root_set chain_batch (Ok (Some tip)) processed.1 processed.2
    root_set_synced root_set_anchored root_set_fixed Hp) as (_ & _ & _ & told & is_fork & b1 & e & _ & _ & Hr & Ha).
  exists tip, e, is_fork, b1. exact (conj Hp (conj Hr Ha)).
Defined.

(** ** The unspent outputs after it *)
Definition ended : Extension := (tfor (apply_checked Mainnet 0 far_date) [next_block] start).2.

Lemma root_index x pos : get_output_pos root_batch x = Ok pos -> False.
Proof.
  assert (map_Forall (fun k _ => list.head k <> Some COMMIT_POS_PREFIX) (tx root_batch)) as Hk by vm_decide.
  unfold get_output_pos, get_ser, get_ser_access. destruct (tx root_batch !! _) eqn:E; [|discriminate].
  by apply Hk in E.
Qed.

Lemma root_utxo : utxo_state root_ext [ex_output 20].
Proof.
  destruct (apply_block_utxo small_proofs Mainnet root_block (blank genesis root_batch) [] root_ext) as (spent & Hb).
  - apply blank_utxo. exact root_index.
  - apply proofs_full. repeat constructor.
  - vm_compute. reflexivity.
  - assert (is_ok (apply_block Mainnet root_block (blank genesis root_batch)).1 = true) as Hok by (vm_compute; reflexivity).
    unfold root_ext. destruct (apply_block _ _ _) as [[[]| |] e]; [done|discriminate Hok..].
  - exact (ba_state _ _ _ _ _ Hb).
Qed.

(** The set of a unit of work, opened again. *)
Lemma set_of_resumed e os h :
  utxo_state e os -> resumed e (new_extension (set_of e) (batch (commit (ext_batch e))) h).
Proof.
  intros Hus. destruct (resume_resumed e os Hus) as [[Ho1 Ho2] [Hr1 Hr2] _]. constructor; [|..|done]; split; done.
Qed.

Lemma start_utxo : utxo_state start [ex_output 20].
Proof. exact (resumed_utxo _ _ _ (set_of_resumed root_ext _ genesis root_utxo) root_utxo). Qed.

Lemma start_unspent : unspent_of start = {[ 1 ]}.
Proof. vm_decide. Qed.

Lemma ended_ok : tfor (apply_checked Mainnet 0 far_date) [next_block] start = (Ok tt, ended).
Proof.
  assert (is_ok (tfor (apply_checked Mainnet 0 far_date) [next_block] start).1 = true) as Hok by (vm_compute; reflexivity).
  unfold ended. destruct (tfor _ _ _) as [[[]| |] e]; [done|discriminate Hok..].
Qed.

Lemma start_sums : @sums_hold poly_hasher integer_secp Z integer_secp_laws Mainnet start [ex_output 20] 20 block_sums_default.
Proof.
  split_and!.
  - exists root_hash. split; [vm_compute; reflexivity|vm_decide].
  - rewrite start_unspent. vm_compute. reflexivity.
  - vm_compute. reflexivity.
Qed.

Lemma utxo_set_commits_to_emission_witness :
  @psum integer_secp Z integer_secp_laws (outputs_committed ended)
  = 20 + @all_created Mainnet [next_block] + (0 + 7).
Proof.
  rewrite (@utxo_set_commits_to_emission poly_hasher integer_secp Z integer_secp_laws Mainnet 0 far_date small_proofs [next_block]
    start [ex_output 20] ended 20 block_sums_default).
  - vm_compute. reflexivity.
  - exact start_utxo.
  - exact start_sums.
  - constructor; [vm_decide|constructor].
  - split; [|exact I]. split_and!; [apply proofs_full; repeat constructor|vm_compute; reflexivity| |vm_compute; congruence|vm_compute; reflexivity].
    intros i k o Hi. by apply not_elem_of_nil in Hi.
  - exact ended_ok.
Defined.

End Poly.

(** ** Going back from the first header of [PipeExample] *)
Section Prefix.
#[local] Existing Instance prefix_hasher.

Lemma first_chain_ok : chain_ok Mainnet 0 far_date genesis first_update.2.
Proof. exact (hc_chain _ _ _ _ _ _ first_chain). Qed.

Lemma first_stored : PipeTheory.stored Mainnet 0 far_date first_update.2 first_header.
Proof. exists first_hash. vm_decide. Qed.

Lemma fork_of_terminates_witness :
  exists l, fork_of Mainnet 0 far_date first_update.2 (fun _ => Err ChainOther) first_header = Ok l.
Proof.
  destruct (fork_of_terminates Mainnet 0 far_date genesis eq_refl first_update.2 (fun _ => Err ChainOther) first_header)
    as (p & l & hs & a & _ & _ & Hf).
  - exact first_chain_ok.
  - intros h _. discriminate.
  - exact first_stored.
  - reflexivity.
  - exists (rev hs, a). exact Hf.
Defined.

Lemma no_block_bitmaps b x :
  map_Forall (fun k _ => list.head k <> Some BLOCK_PREFIX) (tx b) ->
  map_Forall (fun k _ => list.head k <> Some BLOCK_INPUT_BITMAP_PREFIX) (committed b) ->
  bitmap_of Mainnet 0 far_date no_bitmap empty_bitmap b x <> Panic.
Proof.
  intros Hk Hc. unfold bitmap_of, get_block_input_bitmap, ChainStore.get. cbn [bind].
  destruct (committed b !! _) eqn:E; [by apply Hc in E|].
  unfold get_block, get_ser, get_ser_access. destruct (tx b !! _) eqn:E'; [by apply Hk in E'|]. discriminate.
Qed.

Lemma first_bitmaps x : bitmap_of Mainnet 0 far_date no_bitmap empty_bitmap first_update.2 x <> Panic.
Proof. apply no_block_bitmaps; vm_decide. Qed.

Lemma input_pos_to_rewind_exact_witness :
  exists bm b', input_pos_to_rewind Mainnet 0 far_date no_bitmap empty_bitmap genesis first_header first_update.2 = Ok (bm, b').
Proof.
  destruct (input_pos_to_rewind_exact Mainnet 0 far_date no_bitmap empty_bitmap genesis eq_refl first_update.2 genesis
    first_header genesis_hash) as (l & a & b' & _ & _ & _ & _ & Hr).
  - exact first_chain_ok.
  - exact first_bitmaps.
  - exact first_stored.
  - vm_compute. reflexivity.
  - vm_compute. congruence.
  - eexists _, b'. exact Hr.
Defined.

End Prefix.
