(* ===== verification/Pool.v ===== *)
(** * The transaction pool

    [pool/src/pool.rs], [transaction_pool.rs] and [types.rs]: the list of entries of a
    pool and its validation against the chain, the pool of a node with its stem pool
    and the cache for reorganizations; and the two phases of the Dandelion monitor
    ([servers/src/epic/dandelion_monitor.rs]).  The chain is an interface, as in the
    source; the adapter to the network is a parameter, and the transactions it is given
    are a part of the state.  The clock is an argument. *)
From Stdlib Require Import String.
From S2P Require Import Prelude Ser Global Pow Reward Feijoada Committed Transaction Block.
#[local] Open Scope Z_scope.

(** ** Types *)
Record TxSource := mkSource { debug_name : string; identifier : string }.
(** [tx_at] is in nanoseconds, as the clock is. *)
Record PoolEntry := mkEntry { src : TxSource; tx_at : Z; tx : Transaction }.
Definition timestamp (at_ : Z) : Z := at_ / 10 ^ 9.

Record PoolConfig := mkConfig {
  accept_fee_base : Z;
  max_pool_size : Z;
  max_stempool_size : Z;
  mineable_max_weight : Z
}.

Definition MILLI_EPIC : Z := EPIC_BASE / 1000.
Definition default_accept_fee_base : Z := MILLI_EPIC.
Definition default_max_pool_size : Z := 50000.
Definition default_max_stempool_size : Z := 50000.
Definition default_mineable_max_weight (c : ChainTypes) : Z := max_block_weight c.
Definition config_default (c : ChainTypes) : PoolConfig :=
  mkConfig default_accept_fee_base default_max_pool_size default_max_stempool_size (default_mineable_max_weight c).

Definition DANDELION_EPOCH_SECS : Z := 600.
Definition DANDELION_EMBARGO_SECS : Z := 180.
Definition DANDELION_AGGREGATION_SECS : Z := 30.
Definition DANDELION_STEM_PROBABILITY : Z := 90.
Record DandelionConfig := mkDandelion {
  epoch_secs : option Z;
  embargo_secs : option Z;
  aggregation_secs : option Z;
  stem_probability : option Z
}.
Definition dandelion_default : DandelionConfig :=
  mkDandelion (Some DANDELION_EPOCH_SECS) (Some DANDELION_EMBARGO_SECS) (Some DANDELION_AGGREGATION_SECS)
    (Some DANDELION_STEM_PROBABILITY).

Inductive pool_error : Type :=
| InvalidTx (e : tx_error)
| InvalidBlock (e : block_error)
| PoolKeychain
| PoolCommitted (e : committed_error)
| ImmatureTransaction
| PoolImmatureCoinbase
| DandelionError
| OverCapacity
| LowFeeTransaction (threshold : Z)
| PoolDuplicateCommitment
| DuplicateTx
| PoolOther.

(** What the pool asks of the chain. *)
Class BlockChain := {
  chain_head : outcome pool_error BlockHeader;
  chain_get_block_header : Hash -> outcome pool_error BlockHeader;
  chain_block_sums : Hash -> outcome pool_error BlockSums;
  chain_validate_tx : Transaction -> outcome pool_error ();
  chain_coinbase_maturity : Transaction -> outcome pool_error ();
  chain_lock_height : Transaction -> outcome pool_error ();
}.

Definition option_list {A} (o : option A) : list A := from_option (fun a => [a]) [] o.

(** A call whose error the caller handles: a panic is not one. *)
Definition attempt {E F A B} (m : outcome E A) (ok : A -> outcome F B) (err : E -> outcome F B) : outcome F B :=
  match m with
  | Ok a => ok a
  | Err e => err e
  | Panic => Panic
  end.

Abbreviation ShortId := (array 6).

Section Pool.
Context `{Hasher} `{Secp} `{BlockChain} (c : ChainTypes).

(** ** Equality of transactions, by the hashes of their parts *)
Definition body_eqb (a b : TransactionBody) : bool :=
  bool_decide (map input_hash (inputs a) = map input_hash (inputs b) /\
               map output_hash (outputs a) = map output_hash (outputs b) /\
               map kernel_hash (kernels a) = map kernel_hash (kernels b)).
Definition tx_eqb (a b : Transaction) : bool := body_eqb (body a) (body b) && bool_decide (offset a = offset b).

Definition tx_hash (t : Transaction) : Hash := blake2b (write_tx HashMode t).

(** ** A pool *)
Definition Pool : Type := list PoolEntry.

Definition all_transactions (p : Pool) : list Transaction := map tx p.
Definition pool_size (p : Pool) : Z := len p.

Definition contains_tx (p : Pool) (hash : Hash) : bool := existsb (fun x => bool_decide (tx_hash (tx x) = hash)) p.
Definition get_tx (p : Pool) (hash : Hash) : option Transaction :=
  option_map tx (List.find (fun x => bool_decide (tx_hash (tx x) = hash)) p).

Definition retrieve_tx_by_kernel_hash (p : Pool) (hash : Hash) : option Transaction :=
  option_map tx (List.find (fun x => existsb (fun k => bool_decide (kernel_hash k = hash)) (kernels (body (tx x)))) p).

(** The kernels of the pool in order, each with its transaction, until as many
    identifiers are found as were asked for. *)
Definition kernels_of_pool (p : Pool) : list (Transaction * TxKernel) :=
  concat (map (fun x => map (pair (tx x)) (kernels (body (tx x)))) p).

Section Retrieve.
Context (short_id_of : TxKernel -> ShortId) (kern_ids : list ShortId).

Fixpoint retrieve_loop (ks : list (Transaction * TxKernel)) (txs : list Transaction) (found_ids : list ShortId)
    : list Transaction * list ShortId :=
  match ks with
  | [] => (txs, found_ids)
  | (t, k) :: ks =>
      let short_id := short_id_of k in
      let '(txs, found_ids) := if decide (short_id ∈ kern_ids) then (txs ++ [t], found_ids ++ [short_id])
                               else (txs, found_ids) in
      if decide (length found_ids = length kern_ids) then (txs, found_ids) else retrieve_loop ks txs found_ids
  end.
End Retrieve.

(** [Vec::dedup]: consecutive equal elements. *)
Fixpoint dedup_from (prev : Transaction) (l : list Transaction) : list Transaction :=
  match l with
  | [] => []
  | t :: l => if tx_eqb t prev then dedup_from prev l else t :: dedup_from t l
  end.
Definition tx_dedup (l : list Transaction) : list Transaction :=
  match l with
  | [] => []
  | t :: l => t :: dedup_from t l
  end.

Definition retrieve_transactions (siphash24 : Z -> Z -> list Z -> Z) (p : Pool) (hash : Hash) (nonce : Z)
    (kern_ids : list ShortId) : list Transaction * list ShortId :=
  let '(txs, found_ids) :=
    retrieve_loop (fun k => short_id siphash24 (kernel_hash k) hash nonce) kern_ids (kernels_of_pool p) [] [] in
  (tx_dedup txs, filter (fun id => id ∉ found_ids) kern_ids).

Definition all_transactions_aggregate (p : Pool) : outcome pool_error (option Transaction) :=
  match all_transactions p with
  | [] => Ok None
  | txs =>
      let? t := map_err InvalidTx (aggregate txs) in
      try? map_err InvalidTx (tx_validate c NoLimit t) then Ok (Some t)
  end.

(** *** Validation *)
Definition blinding_add (a b : BlindingFactor) : outcome pool_error BlindingFactor :=
  match to_secrets [a; b] with
  | [] => Ok blinding_zero
  | keys => ok_or (blind_sum keys []) PoolKeychain
  end.

Definition pool_header_hash (h : BlockHeader) : outcome pool_error Hash :=
  match header_hash c h with
  | Ok x => Ok x
  | _ => Panic
  end.

Definition apply_tx_to_block_sums (t : Transaction) (header : BlockHeader) : outcome pool_error BlockSums :=
  let overage := body_overage (body t) in
  let? offset := blinding_add (total_kernel_offset header) (offset t) in
  let? hash := pool_header_hash header in
  let? block_sums := chain_block_sums hash in
  let? '(utxo_sum, kernel_sum) := map_err PoolCommitted (verify_kernel_sums (block_sums, t) overage offset) in
  Ok (mkBlockSums utxo_sum kernel_sum).

Definition validate_raw_tx (t : Transaction) (header : BlockHeader) (weighting : Weighting) : outcome pool_error BlockSums :=
  try? map_err InvalidTx (tx_validate c weighting t) then
  try? chain_validate_tx t then
  apply_tx_to_block_sums t header.

Definition validate_raw_txs (txs : list Transaction) (extra_tx : option Transaction) (header : BlockHeader)
    (weighting : Weighting) : outcome pool_error (list Transaction) :=
  foldM (fun valid_txs t =>
    let candidate_txs := option_list extra_tx ++ valid_txs ++ [t] in
    let? agg_tx := map_err InvalidTx (aggregate candidate_txs) in
    attempt (validate_raw_tx agg_tx header weighting)
      (fun _ => Ok (valid_txs ++ [t])) (fun _ => Ok valid_txs)) txs [].

(** [Pool::add_to_pool]: the pool is only changed by its last step. *)
Definition pool_add (p : Pool) (entry : PoolEntry) (extra_txs : list Transaction) (header : BlockHeader)
    : outcome pool_error Pool :=
  let txs := all_transactions p in
  if existsb (fun t => tx_eqb t (tx entry)) txs then Err DuplicateTx
  else
    let txs := txs ++ extra_txs in
    let? agg_tx := match txs with
                   | [] => Ok (tx entry)
                   | _ => map_err InvalidTx (aggregate (txs ++ [tx entry]))
                   end in
    try? validate_raw_tx agg_tx header NoLimit then
    Ok (p ++ [entry]).

(** [Pool::reconcile]: every entry that can still be added, in order. *)
Definition reconcile (p : Pool) (extra_tx : option Transaction) (header : BlockHeader) : outcome pool_error Pool :=
  foldM (fun p x => attempt (pool_add p x (option_list extra_tx) header) Ok (fun _ => Ok p)) p [].

Definition find_matching_transactions (p : Pool) (kers : list TxKernel) : list Transaction :=
  map tx (filter (fun x => Forall (fun k => write_kernel k ∈ map write_kernel kers) (kernels (body (tx x)))) p).

Definition pool_reconcile_block (p : Pool) (block : Block) : Pool :=
  filter (fun x =>
    negb (existsb (fun k => bool_decide (kernel_hash k ∈ map kernel_hash (kernels (b_body block)))) (kernels (body (tx x)))) &&
    negb (existsb (fun i => bool_decide (input_hash i ∈ map input_hash (inputs (b_body block)))) (inputs (body (tx x))))) p.

(** *** Buckets *)
Record Bucket := mkBucket { raw_txs : list Transaction; b_fee_to_weight : Z }.

Definition bucket_new (t : Transaction) : Bucket := mkBucket [t] (fee_to_weight t).

Definition aggregate_with_tx (b : Bucket) (new_tx : Transaction) (weighting : Weighting) : outcome pool_error Bucket :=
  let raw_txs := raw_txs b ++ [new_tx] in
  let? agg_tx := map_err InvalidTx (aggregate raw_txs) in
  try? map_err InvalidTx (tx_validate c weighting agg_tx) then
  Ok (mkBucket raw_txs (fee_to_weight agg_tx)).

Record buckets := mkBuckets {
  tx_buckets : list Bucket;
  output_commits : list (Commitment * nat);
  rejected : list Commitment
}.

Definition bucket_of (l : list (Commitment * nat)) (x : Commitment) : option nat :=
  option_map snd (List.find (fun p => bool_decide (p.1 = x)) l).

(** The inputs of an entry: the bucket it falls into, and whether it is rejected. *)
Definition scan_input (s : buckets) (st : option nat * bool) (i : Input) : option nat * bool :=
  let '(insert_pos, is_rejected) := st in
  if decide (in_commit i ∈ rejected s) then (insert_pos, true)
  else
    match bucket_of (output_commits s) (in_commit i), insert_pos with
    | Some _, Some _ => (insert_pos, true)
    | Some pos, None => (Some pos, is_rejected)
    | None, _ => (insert_pos, is_rejected)
    end.

Definition out_commits (t : Transaction) : list Commitment := map out_commit (outputs (body t)).
Definition reject (t : Transaction) (s : buckets) : buckets :=
  mkBuckets (tx_buckets s) (output_commits s) (out_commits t ++ rejected s).
Definition place (bs : list Bucket) (pos : nat) (t : Transaction) (s : buckets) : buckets :=
  mkBuckets bs (map (fun x => (x, pos)) (reverse (out_commits t)) ++ output_commits s) (rejected s).

(** One entry.  An entry that would lower the ratio of its bucket starts one of its own,
    and its outputs are recorded under the bucket of its parent. *)
Definition bucket_step (weighting : Weighting) (s : buckets) (entry : PoolEntry) : outcome pool_error buckets :=
  let t := tx entry in
  match foldl (scan_input s) (None, false) (inputs (body t)) with
  | (_, true) => Ok (reject t s)
  | (None, false) => Ok (place (tx_buckets s ++ [bucket_new t]) (length (tx_buckets s)) t s)
  | (Some pos, false) =>
      let? bucket := unwrap (tx_buckets s !! pos) in
      attempt (aggregate_with_tx bucket t weighting)
        (fun new_bucket =>
           Ok (place (if b_fee_to_weight new_bucket >=? b_fee_to_weight bucket
                      then <[ pos := new_bucket ]> (tx_buckets s)
                      else tx_buckets s ++ [bucket_new t]) pos t s))
        (fun _ => Ok (reject t s))
  end.

(** [sort_unstable_by_key]: buckets of the same ratio come in any order. *)
Context (sort_buckets : list Bucket -> list Bucket).

Definition bucket_transactions (p : Pool) (weighting : Weighting) : outcome pool_error (list Transaction) :=
  let? s := foldM (bucket_step weighting) p (mkBuckets [] [] []) in
  Ok (concat (map raw_txs (sort_buckets (tx_buckets s)))).

Definition prepare_mineable_transactions (p : Pool) (max_weight : Z) : outcome pool_error (list Transaction) :=
  let weighting := AsLimitedTransaction max_weight in
  let? txs := bucket_transactions p weighting in
  let? header := chain_head in
  validate_raw_txs txs None header weighting.

(** ** The pool of a node *)
Record TransactionPool := mkTxPool {
  config : PoolConfig;
  txpool : Pool;
  stempool : Pool;
  reorg_cache : list PoolEntry;
  broadcast : list Transaction
}.

Definition set_txpool (p : Pool) (s : TransactionPool) : TransactionPool :=
  mkTxPool (config s) p (stempool s) (reorg_cache s) (broadcast s).
Definition set_stempool (p : Pool) (s : TransactionPool) : TransactionPool :=
  mkTxPool (config s) (txpool s) p (reorg_cache s) (broadcast s).
Definition set_reorg_cache (r : list PoolEntry) (s : TransactionPool) : TransactionPool :=
  mkTxPool (config s) (txpool s) (stempool s) r (broadcast s).

Definition pool_new (config : PoolConfig) : TransactionPool := mkTxPool config [] [] [] [].

Definition total_size (s : TransactionPool) : Z := pool_size (txpool s).

(** [PoolAdapter]: whether a stem transaction could be relayed. *)
Context (stem_tx_accepted : Transaction -> outcome pool_error ()).

Definition tx_accepted (t : Transaction) : trans TransactionPool pool_error () :=
  tmodify (fun s => mkTxPool (config s) (txpool s) (stempool s) (reorg_cache s) (broadcast s ++ [t])).

Definition add_to_stempool (entry : PoolEntry) (header : BlockHeader) : trans TransactionPool pool_error () := fun s =>
  tzoom stempool set_stempool (fun p =>
    let? p := pool_add p entry (all_transactions (txpool s)) header in Ok (tt, p)) s.

Definition add_to_reorg_cache (entry : PoolEntry) : trans TransactionPool pool_error () :=
  tmodify (fun s =>
    let cache := reorg_cache s ++ [entry] in
    set_reorg_cache (if len cache >? max_pool_size (config s) then drop 1 cache else cache) s).

Definition reconcile_stempool (header : BlockHeader) : trans TransactionPool pool_error () :=
  let! txpool_tx := tread (fun s => all_transactions_aggregate (txpool s)) in
  tzoom stempool set_stempool (fun p => let? p := reconcile p txpool_tx header in Ok (tt, p)).

(** The entry without the transactions that the pool has of it already. *)
Definition deaggregated (p : Pool) (entry : PoolEntry) : outcome pool_error PoolEntry :=
  if len (kernels (body (tx entry))) >? 1 then
    match find_matching_transactions p (kernels (body (tx entry))) with
    | [] => Ok entry
    | txs =>
        let? t := map_err InvalidTx (deaggregate (tx entry) txs) in
        try? map_err InvalidTx (tx_validate c AsTransaction t) then
        Ok (mkEntry (mkSource "deagg"%string (identifier (src entry))) (tx_at entry) t)
    end
  else Ok entry.

Definition add_to_txpool (entry : PoolEntry) (header : BlockHeader) : trans TransactionPool pool_error () :=
  do! tzoom txpool set_txpool (fun p =>
    let? entry := deaggregated p entry in
    let? p := pool_add p entry [] header in Ok (tt, p)) then
  reconcile_stempool header.

Definition is_acceptable (s : TransactionPool) (t : Transaction) (stem : bool) : outcome pool_error () :=
  if total_size s >? max_pool_size (config s) then Err OverCapacity
  else if stem && (pool_size (stempool s) >? max_stempool_size (config s)) then Err OverCapacity
  else if accept_fee_base (config s) >? 0 then
    let threshold := body_weight (body t) *! accept_fee_base (config s) in
    if body_fee (body t) <? threshold then Err (LowFeeTransaction threshold) else Ok tt
  else Ok tt.

Definition evict_from_txpool : trans TransactionPool pool_error () :=
  tzoom txpool set_txpool (fun p =>
    let? txs := bucket_transactions p NoLimit in
    Ok (tt, match last txs with
            | Some evictable_transaction => filter (fun x => tx_eqb (tx x) evictable_transaction = false) p
            | None => p
            end)).

(** A [bool] test of a computation: an error is [true]. *)
Definition tis_err {S E A} (m : trans S E A) : trans S E bool := fun s =>
  match m s with
  | (Ok _, s) => (Ok false, s)
  | (Err _, s) => (Ok true, s)
  | (Panic, s) => (Panic, s)
  end.

(** [TransactionPool::add_to_pool] at the time [now]. *)
Definition fluff (entry : PoolEntry) (header : BlockHeader) : trans TransactionPool pool_error () :=
  do! add_to_txpool entry header then
  do! add_to_reorg_cache entry then
  tx_accepted (tx entry).

Definition add_to_pool (now : Z) (src : TxSource) (t : Transaction) (stem : bool) (header : BlockHeader)
    : trans TransactionPool pool_error () :=
  do! tread (fun s => if negb stem && contains_tx (txpool s) (tx_hash t) then Err DuplicateTx else Ok tt) then
  let! evict := tread (fun s =>
    match is_acceptable s t stem with
    | Ok _ => Ok false
    | Err OverCapacity => if stem then Err OverCapacity else Ok true
    | Err e => Err e
    | Panic => Panic
    end) in
  do! tread (fun _ => map_err InvalidTx (tx_validate c AsTransaction t)) then
  do! tread (fun _ => chain_lock_height t) then
  do! tread (fun _ => chain_coinbase_maturity t) then
  let entry := mkEntry src now t in
  let! fluffing :=
    (if stem then tis_err (do! add_to_stempool entry header then tread (fun _ => stem_tx_accepted t))
     else tret true) in
  do! (if fluffing then fluff entry header else tret tt) then
  if evict then evict_from_txpool else tret tt.

Fixpoint drop_old (cutoff : Z) (cache : list PoolEntry) : list PoolEntry :=
  match cache with
  | x :: cache' => if tx_at x <? cutoff then drop_old cutoff cache' else cache
  | [] => []
  end.
Definition truncate_reorg_cache (cutoff : Z) : trans TransactionPool pool_error () :=
  tmodify (fun s => set_reorg_cache (drop_old cutoff (reorg_cache s)) s).

Definition reconcile_reorg_cache (header : BlockHeader) : trans TransactionPool pool_error () := fun s =>
  tfor (fun entry => do! tis_err (add_to_txpool entry header) then tret tt) (reorg_cache s) s.

Definition reconcile_block (block : Block) : trans TransactionPool pool_error () :=
  do! tzoom txpool set_txpool (fun p =>
    let? p := reconcile (pool_reconcile_block p block) None (header block) in Ok (tt, p)) then
  do! tmodify (fun s => set_stempool (pool_reconcile_block (stempool s) block) s) then
  reconcile_stempool (header block).

(** ** The Dandelion monitor *)
Definition select_txs_cutoff (now : Z) (p : Pool) (cutoff_secs : Z) : list PoolEntry :=
  filter (fun x => timestamp (tx_at x) < timestamp now - cutoff_secs) p.

Definition process_fluff_phase (now : Z) (dandelion_config : DandelionConfig) (is_expired : bool)
    : trans TransactionPool pool_error () := fun s =>
  match stempool s with
  | [] => (Ok tt, s)
  | all_entries =>
      (let! cutoff_secs := tread (fun _ => unwrap (aggregation_secs dandelion_config)) in
       if negb is_expired && (len (select_txs_cutoff now all_entries cutoff_secs) =? 0) then tret tt
       else
         let! header := tread (fun _ => chain_head) in
         let! agg_tx := tread (fun s =>
           let? txpool_tx := all_transactions_aggregate (txpool s) in
           let? fluffable_txs := validate_raw_txs (map tx all_entries) txpool_tx header NoLimit in
           let? agg_tx := map_err InvalidTx (aggregate fluffable_txs) in
           try? map_err InvalidTx (tx_validate c AsTransaction agg_tx) then Ok agg_tx) in
         add_to_pool now (mkSource "fluff"%string "?.?.?.?"%string) agg_tx false header) s
  end.

(** With the random part of the embargo, below 31, as an argument. *)
Definition process_expired_entries (now : Z) (dandelion_config : DandelionConfig) (random : Z)
    : trans TransactionPool pool_error () := fun s =>
  (let! secs := tread (fun _ => unwrap (embargo_secs dandelion_config)) in
   match select_txs_cutoff now (stempool s) ((secs + random) mod 2 ^ 16) with
   | [] => tret tt
   | expired_entries =>
       let! header := tread (fun _ => chain_head) in
       tfor (fun entry =>
         do! tis_err (add_to_pool now (mkSource "embargo_expired"%string "?.?.?.?"%string) (tx entry) false header) then tret tt)
         expired_entries
   end) s.

End Pool.
