(* ===== verification/PoolTheory.v ===== *)
(** * What the transaction pool keeps

    The transactions of a pool are valid together on top of the chain; adding to the
    pool of a node is atomic and keeps this, as long as nothing is evicted; a new block
    restores it; and the transactions handed to a miner are valid together within the
    weight asked for. *)
From Stdlib Require Import String.
From S2P Require Import Prelude Ser Global Pow Reward Feijoada Committed Transaction Block Pool.
#[local] Open Scope Z_scope.

Section Theory.
Context `{Hasher} `{Secp} `{BlockChain} (c : ChainTypes).
Context (sort_buckets : list Bucket -> list Bucket) (Hsort : forall l, sort_buckets l ≡ₚ l).
Context (stem_tx_accepted : Transaction -> outcome pool_error ()).

(** ** One pool *)

(** The transactions aggregate to one that is valid on top of the chain at [header]. *)
Definition valid_together (weighting : Weighting) (header : BlockHeader) (txs : list Transaction) : Prop :=
  exists agg sums, aggregate txs = Ok agg /\ validate_raw_tx c agg header weighting = Ok sums.

Definition pool_valid (header : BlockHeader) (p : Pool) : Prop :=
  p = [] \/ valid_together NoLimit header (all_transactions p).

(** A pool on top of other transactions, which come before its last one. *)
Definition pool_valid_on (extra : list Transaction) (header : BlockHeader) (p : Pool) : Prop :=
  p = [] \/ exists front e, p = front ++ [e] /\
    valid_together NoLimit header (all_transactions front ++ extra ++ [tx e]).

Lemma pool_valid_on_nil header p : pool_valid_on [] header p -> pool_valid header p.
Proof.
  intros [->|(front & e & -> & Hv)]; [by left|right]. unfold all_transactions in *. by rewrite map_app.
Qed.

Lemma all_transactions_snoc p e : all_transactions (p ++ [e]) = all_transactions p ++ [tx e].
Proof. apply map_app. Qed.

(** [Pool::add_to_pool] appends an entry that the pool does not have and that is valid
    with the rest. *)
Lemma pool_add_Ok p e extra header p' :
  pool_add c p e extra header = Ok p' ->
  p' = p ++ [e] /\ existsb (fun t => tx_eqb t (tx e)) (all_transactions p) = false /\
  valid_together NoLimit header (all_transactions p ++ extra ++ [tx e]).
Proof.
  unfold pool_add. destruct (existsb _ _) eqn:Hd; [done|].
  intros (agg & Hagg & (sums & Hv & He)%bind_Ok_inv)%bind_Ok_inv. injection He as <-. split_and!; [done..|].
  exists agg, sums. split; [|done]. rewrite app_assoc.
  destruct (all_transactions p ++ extra); [by injection Hagg as ->|by apply map_err_Ok_inv in Hagg].
Qed.

Lemma pool_add_valid p e extra header p' :
  pool_add c p e extra header = Ok p' -> pool_valid_on extra header p'.
Proof. intros (-> & _ & Hv)%pool_add_Ok. right. by exists p, e. Qed.

(** *** Reconciliation *)
Lemma reconcile_loop l p extra header p' :
  foldM (E := pool_error) (fun p x => attempt (pool_add c p x extra header) Ok (fun _ => Ok p)) l p = Ok p' ->
  exists kept, kept `sublist_of` l /\ p' = p ++ kept /\ (kept <> [] -> pool_valid_on extra header p').
Proof.
  revert p. induction l as [|x l IH]; intros p Hr; cbn [foldM] in Hr.
  { injection Hr as <-. exists []. rewrite app_nil_r. done. }
  apply bind_Ok_inv in Hr as (p1 & Hp & Hr). destruct (IH p1 Hr) as (kept & Hk & -> & Hv). unfold attempt in Hp.
  destruct (pool_add c p x extra header) as [p2|e|] eqn:Ha; [|injection Hp as <-|done].
  - injection Hp as <-. pose proof (pool_add_valid _ _ _ _ _ Ha) as Hv1. apply pool_add_Ok in Ha as (-> & _).
    exists (x :: kept). split; [by apply sublist_skip|]. split; [by rewrite <- app_assoc|].
    intros _. destruct kept; [by rewrite app_nil_r|by apply Hv].
  - exists kept. split; [by apply sublist_cons|]. done.
Qed.

(** What is left after a reconciliation are entries of before, in their order, valid
    together whatever the pool was. *)
Lemma reconcile_valid p extra_tx header p' :
  reconcile c p extra_tx header = Ok p' -> p' `sublist_of` p /\ pool_valid_on (option_list extra_tx) header p'.
Proof.
  intros (kept & Hk & -> & Hv)%reconcile_loop. split; [done|].
  destruct kept; [by left|by apply Hv].
Qed.

Lemma reconcile_no_err p extra_tx header e : reconcile c p extra_tx header <> Err e.
Proof.
  unfold reconcile. generalize (@nil PoolEntry). induction p as [|x l IH]; intros q; [done|]. cbn [foldM]. unfold attempt.
  destruct (pool_add c q x (option_list extra_tx) header); cbn [bind]; [apply IH|apply IH|done].
Qed.

Lemma aggregate_valid p header :
  pool_valid header p -> exists t, all_transactions_aggregate c p = Ok t.
Proof.
  intros [->|(agg & sums & Ha & Hv)]; [by exists None|]. unfold all_transactions_aggregate.
  destruct (all_transactions p) as [|t l]; [by exists None|].
  rewrite Ha. cbn [map_err bind]. unfold validate_raw_tx in Hv. apply bind_Ok_inv in Hv as ([] & Hv & _).
  rewrite Hv. by exists (Some agg).
Qed.

(** *** Selection for a block *)
Lemma validate_raw_txs_valid txs header weighting valid :
  validate_raw_txs c txs None header weighting = Ok valid ->
  valid `sublist_of` txs /\ (valid = [] \/ valid_together weighting header valid).
Proof.
  unfold validate_raw_txs.
  assert (forall acc, (acc = [] \/ valid_together weighting header acc) ->
    foldM (fun valid_txs t =>
      let candidate_txs := option_list None ++ valid_txs ++ [t] in
      let? agg_tx := map_err InvalidTx (aggregate candidate_txs) in
      attempt (validate_raw_tx c agg_tx header weighting)
        (fun _ => Ok (valid_txs ++ [t])) (fun _ => Ok valid_txs)) txs acc = Ok valid ->
    exists kept, kept `sublist_of` txs /\ valid = acc ++ kept /\ (valid = [] \/ valid_together weighting header valid)) as Hloop.
  { induction txs as [|t l IH]; intros acc Hacc Hr; cbn [foldM] in Hr.
    { injection Hr as <-. exists []. by rewrite app_nil_r. }
    apply bind_Ok_inv in Hr as (acc' & Hs & Hr). cbv zeta in Hs. apply bind_Ok_inv in Hs as (agg & Ha%map_err_Ok_inv & Hs).
    unfold attempt in Hs. destruct (validate_raw_tx c agg header weighting) as [sums|e|] eqn:Hv; [|injection Hs as <-|done].
    - injection Hs as <-. destruct (IH (acc ++ [t])) as (kept & Hk & -> & Hval); [|done|].
      + right. by exists agg, sums.
      + exists (t :: kept). split; [by apply sublist_skip|]. rewrite <- app_assoc in *. done.
    - destruct (IH acc Hacc Hr) as (kept & Hk & -> & Hval). exists kept. split; [by apply sublist_cons|done]. }
  intros Hr. destruct (Hloop [] (or_introl eq_refl) Hr) as (kept & Hk & -> & Hv). done.
Qed.

(** *** Buckets

    A bucket holds entries of the pool, each entry is in at most one, and every recorded
    output is under a bucket that exists. *)
Record buckets_ok (p : Pool) (s : buckets) : Prop := {
  in_buckets : concat (map raw_txs (tx_buckets s)) ⊆+ all_transactions p;
  commits_in_range x pos : (x, pos) ∈ output_commits s -> (pos < length (tx_buckets s))%nat;
  first_bucketed : p <> [] -> concat (map raw_txs (tx_buckets s)) <> []
}.

Lemma scan_input_range s i st :
  (forall x pos, (x, pos) ∈ output_commits s -> (pos < length (tx_buckets s))%nat) ->
  (forall pos, st.1 = Some pos -> (pos < length (tx_buckets s))%nat) ->
  forall pos, (scan_input s st i).1 = Some pos -> (pos < length (tx_buckets s))%nat.
Proof.
  intros Hr Hst pos. unfold scan_input, bucket_of. destruct st as [ip r]. cbn [fst] in *.
  destruct (decide _); [apply Hst|]. destruct (List.find _ _) as [[x q]|] eqn:Hf; cbn [option_map snd]; [|apply Hst].
  destruct ip as [q'|]; [apply Hst|]. intros [= <-]. apply find_some in Hf as [Hin _].
  apply (Hr x). by apply list_elem_of_In.
Qed.

Lemma scan_inputs_range s ins st :
  (forall x pos, (x, pos) ∈ output_commits s -> (pos < length (tx_buckets s))%nat) ->
  (forall pos, st.1 = Some pos -> (pos < length (tx_buckets s))%nat) ->
  forall pos, (foldl (scan_input s) st ins).1 = Some pos -> (pos < length (tx_buckets s))%nat.
Proof.
  intros Hr. revert st. induction ins as [|i ins IH]; intros st Hst; [done|]. cbn [foldl].
  apply IH. by apply scan_input_range.
Qed.

(** Without an entry in a bucket, an input falls into none. *)
Lemma scan_inputs_start s ins :
  output_commits s = [] -> rejected s = [] -> foldl (scan_input s) (None, false) ins = (None, false).
Proof.
  intros Ho Hr. induction ins as [|i ins IH]; [done|]. cbn [foldl]. unfold scan_input at 2. rewrite Ho, Hr.
  rewrite decide_False by apply not_elem_of_nil. cbn. done.
Qed.

Lemma place_ok p e s bs pos :
  buckets_ok p s -> (pos < length bs)%nat -> (length (tx_buckets s) <= length bs)%nat ->
  concat (map raw_txs bs) ≡ₚ concat (map raw_txs (tx_buckets s)) ++ [tx e] ->
  buckets_ok (p ++ [e]) (place bs pos (tx e) s).
Proof.
  intros [Hin Hr Hne] Hpos Hlen Hperm. split; cbn [place tx_buckets output_commits].
  - rewrite Hperm, all_transactions_snoc. by apply submseteq_app.
  - intros x q [(y & [= -> ->] & _)%list_elem_of_fmap|Hq]%elem_of_app; [done|]. apply Hr in Hq. lia.
  - intros _ E. rewrite E in Hperm. apply Permutation_nil_l in Hperm. by destruct (concat _).
Qed.

Lemma reject_ok p e s : buckets_ok p s -> concat (map raw_txs (tx_buckets s)) <> [] -> buckets_ok (p ++ [e]) (reject (tx e) s).
Proof.
  intros [Hin Hr Hne] Hb. split; cbn [reject tx_buckets output_commits]; [|done..].
  rewrite all_transactions_snoc. etrans; [exact Hin|]. apply submseteq_inserts_r. done.
Qed.

Lemma insert_bucket bs pos b b' t :
  bs !! pos = Some b -> raw_txs b' = raw_txs b ++ [t] ->
  concat (map raw_txs (<[ pos := b' ]> bs)) ≡ₚ concat (map raw_txs bs) ++ [t].
Proof.
  intros Hb Hb'. rewrite <- (take_drop_middle bs pos b Hb) at 2. rewrite insert_take_drop by (by eapply lookup_lt_Some).
  rewrite !map_app, !concat_app. cbn [map concat]. rewrite Hb', <- !app_assoc.
  apply Permutation_app_head, Permutation_app_head. apply Permutation_app_comm.
Qed.

Lemma bucket_step_ok w p e s :
  buckets_ok p s -> (p = [] -> s = mkBuckets [] [] []) ->
  match bucket_step c w s e with
  | Ok s' => buckets_ok (p ++ [e]) s'
  | Err _ => False
  | Panic => True
  end.
Proof.
  intros Hok Hstart. unfold bucket_step.
  pose proof (scan_inputs_range s (inputs (body (tx e))) (None, false) (commits_in_range _ _ Hok) ltac:(done)) as Hr.
  assert ((foldl (scan_input s) (None, false) (inputs (body (tx e)))).2 = true \/ (foldl (scan_input s) (None, false) (inputs (body (tx e)))).1 <> None -> concat (map raw_txs (tx_buckets s)) <> []) as Hne.
  { intros Hsome. apply (first_bucketed _ _ Hok). intros ->. rewrite (Hstart eq_refl), scan_inputs_start in Hsome by done.
    destruct Hsome as [?|[]]; done. }
  destruct (foldl (scan_input s) (None, false) (inputs (body (tx e)))) as [[pos|] []]; cbn [fst snd] in *.
  - apply reject_ok; [done|]. auto.
  - destruct (lookup_lt_is_Some_2 _ _ (Hr pos eq_refl)) as [b Hb]. rewrite Hb. cbn [unwrap bind]. unfold attempt.
    destruct (aggregate_with_tx c b (tx e) w) as [nb|err|] eqn:Ha; [|by apply reject_ok; [|apply Hne; right]|done].
    assert (raw_txs nb = raw_txs b ++ [tx e]) as Hnb by (unfold aggregate_with_tx in Ha; inv_ok; by subst nb).
    apply place_ok; [done| | |].
    + destruct (_ >=? _); [rewrite length_insert|rewrite length_app]; specialize (Hr pos eq_refl); simpl; lia.
    + destruct (_ >=? _); [rewrite length_insert|rewrite length_app]; simpl; lia.
    + destruct (_ >=? _); [by eapply insert_bucket|]. by rewrite map_app, concat_app.
  - apply reject_ok; auto.
  - apply place_ok; [done| | |]; [rewrite length_app; simpl; lia..|]. by rewrite map_app, concat_app.
Qed.

Lemma bucket_loop_ok w p q s :
  buckets_ok q s -> (q = [] -> s = mkBuckets [] [] []) ->
  match foldM (bucket_step c w) p s with
  | Ok s' => buckets_ok (q ++ p) s'
  | Err _ => False
  | Panic => True
  end.
Proof.
  revert q s. induction p as [|e p IH]; intros q s Hok Hstart; cbn [foldM]; [by rewrite app_nil_r|].
  pose proof (bucket_step_ok w q e s Hok Hstart) as He. destruct (bucket_step c w s e) as [s'| |]; cbn [bind]; [|done..].
  specialize (IH (q ++ [e]) s' He). rewrite <- app_assoc in IH. apply IH. intros Hnil. by destruct q.
Qed.

(** [bucket_transactions] does not fail, and returns transactions of the pool, none
    twice, at least one when there is one. *)
Lemma bucket_transactions_sub p w :
  match bucket_transactions c sort_buckets p w with
  | Ok txs => txs ⊆+ all_transactions p /\ (p <> [] -> txs <> [])
  | Err _ => False
  | Panic => True
  end.
Proof.
  unfold bucket_transactions. pose proof (bucket_loop_ok w p [] (mkBuckets [] [] [])) as Hl.
  ospecialize* Hl; [|done|]. { split; cbn; [done| |done]. intros x pos Hx. by apply not_elem_of_nil in Hx. }
  destruct (foldM _ _ _) as [s| |]; cbn [bind]; [|done..]. destruct Hl as [Hin _ Hne].
  assert (concat (map raw_txs (sort_buckets (tx_buckets s))) ≡ₚ concat (map raw_txs (tx_buckets s))) as Hp by (by rewrite Hsort).
  split; [by rewrite Hp|]. intros Hp0 E. rewrite E in Hp. apply (Hne Hp0). by apply Permutation_nil_l in Hp.
Qed.

(** ** The pool of a node *)

(** The stem pool is valid on top of the transactions of the pool. *)
Definition stem_valid (header : BlockHeader) (s : TransactionPool) : Prop :=
  exists t, all_transactions_aggregate c (txpool s) = Ok t /\ pool_valid_on (option_list t) header (stempool s).

Lemma reconcile_stempool_cases header s r s' :
  reconcile_stempool c header s = (r, s') -> pool_valid header (txpool s) ->
  match r with
  | Ok _ => stem_valid header s' /\ stempool s' `sublist_of` stempool s /\ s' = set_stempool (stempool s') s
  | Err _ => False
  | Panic => True
  end.
Proof.
  intros He Hv. destruct (aggregate_valid _ _ Hv) as [t Ht].
  unfold reconcile_stempool, tbind, tread, tzoom in He. rewrite Ht in He.
  pose proof (reconcile_no_err (stempool s) t header) as Hne.
  destruct (reconcile c (stempool s) t header) as [p|e|] eqn:Hr; cbn [bind] in He; injection He as <- <-; [|by destruct (Hne e)|done].
  apply reconcile_valid in Hr as [Hsub Hval]. split; [by exists t|]. done.
Qed.

(** Adding to the pool appends one entry, that entry or what is left of it, or changes
    nothing. *)
Lemma add_to_txpool_cases entry header s r s' :
  add_to_txpool c entry header s = (r, s') ->
  match r with
  | Ok _ => exists e, deaggregated c (txpool s) entry = Ok e /\
      s' = set_txpool (txpool s ++ [e]) (set_stempool (stempool s') s) /\
      pool_valid header (txpool s') /\ stem_valid header s' /\ stempool s' `sublist_of` stempool s
  | Err _ => s' = s
  | Panic => True
  end.
Proof.
  unfold add_to_txpool. intros He. unfold tbind in He. destruct (tzoom _ _ _ s) as [r1 s1] eqn:Hz.
  unfold tzoom in Hz. destruct (deaggregated c (txpool s) entry) as [e|e|] eqn:Hd; cbn [bind] in Hz;
    [|injection Hz as <- <-; by injection He as <- <-..].
  destruct (pool_add c (txpool s) e [] header) as [p|e'|] eqn:Ha; cbn [bind] in Hz;
    injection Hz as <- <-; [|by injection He as <- <-..].
  pose proof (pool_add_valid _ _ _ _ _ Ha) as Hv%pool_valid_on_nil. apply pool_add_Ok in Ha as (-> & _).
  pose proof (reconcile_stempool_cases header _ _ _ He Hv) as Hr. destruct r; [|done..].
  destruct Hr as (Hs & Hsub & Hs'). exists e. split; [done|]. rewrite Hs' in *. done.
Qed.

(** An error leaves the pool, the stem pool, the cache and the network as they were. *)
Theorem add_to_txpool_atomic entry header s e s' :
  add_to_txpool c entry header s = (Err e, s') -> s' = s.
Proof. apply (add_to_txpool_cases entry header s (Err e) s'). Qed.

Lemma fluff_cases entry header s r s' :
  fluff c entry header s = (r, s') ->
  match r with
  | Ok _ => exists e, deaggregated c (txpool s) entry = Ok e /\ txpool s' = txpool s ++ [e] /\
      pool_valid header (txpool s') /\ stem_valid header s' /\ stempool s' `sublist_of` stempool s /\
      config s' = config s /\ broadcast s' = broadcast s ++ [tx entry]
  | Err _ => s' = s
  | Panic => True
  end.
Proof.
  unfold fluff, tbind. intros He. destruct (add_to_txpool c entry header s) as [[[]|err|] s1] eqn:Ha; cycle 1.
  { injection He as <- <-. by apply add_to_txpool_cases in Ha. } { by injection He as <- <-. }
  apply add_to_txpool_cases in Ha as (e & Hd & Hs1 & Hv & Hst & Hsub). cbn in He. injection He as <- <-.
  exists e. rewrite Hs1 in *. done.
Qed.

Lemma add_to_stempool_cases entry header s r s' :
  add_to_stempool c entry header s = (r, s') -> s' = set_stempool (stempool s') s.
Proof.
  unfold add_to_stempool, tzoom. destruct (pool_add _ _ _ _ _); cbn [bind]; intros [= <- <-]; by destruct s.
Qed.

Lemma tread_bind_inv {S E A B} (f : S -> outcome E A) (g : A -> trans S E B) s r s' :
  tbind (tread f) g s = (r, s') -> r <> Panic ->
  (exists a, f s = Ok a /\ g a s = (r, s')) \/ (s' = s /\ exists e, r = Err e).
Proof.
  unfold tbind, tread. destruct (f s) as [a|e|]; intros He Hr; [left; eauto|right|]; injection He as <- <-; [eauto|done].
Qed.

(** The attempt to stem an entry: only the stem pool changes. *)
Definition try_stem (entry : PoolEntry) (t : Transaction) (header : BlockHeader) (stem : bool) : trans TransactionPool pool_error bool :=
  if stem then tis_err (do! add_to_stempool c entry header then tread (fun _ => stem_tx_accepted t))
  else tret true.

Lemma try_stem_cases entry t header stem s :
  exists q s1, try_stem entry t header stem s = (q, s1) /\ s1 = set_stempool (stempool s1) s /\
    (stem = false -> q = Ok true /\ s1 = s) /\ (forall e, q <> Err e).
Proof.
  unfold try_stem. destruct stem; [|by exists (Ok true), s; destruct s].
  unfold tis_err, tbind. destruct (add_to_stempool c entry header s) as [q s1] eqn:Ha.
  apply add_to_stempool_cases in Ha. destruct q as [[]| |]; [|by eexists _, s1..].
  unfold tread. destruct (stem_tx_accepted t); by eexists _, s1.
Qed.

(** The steps of [add_to_pool] before the entry is placed only read the state. *)
Lemma add_to_pool_inv now src t stem header s r s' :
  add_to_pool c sort_buckets stem_tx_accepted now src t stem header s = (r, s') -> r <> Panic ->
  (s' = s /\ exists e, r = Err e) \/
  exists (evict fluffing : bool) s1 (r2 : outcome pool_error ()) s2,
    negb stem && contains_tx (txpool s) (tx_hash t) = false /\
    is_acceptable s t stem = (if evict then Err OverCapacity else Ok tt) /\ (evict = true -> stem = false) /\
    tx_validate c AsTransaction t = Ok tt /\ chain_lock_height t = Ok tt /\ chain_coinbase_maturity t = Ok tt /\
    s1 = set_stempool (stempool s1) s /\ (stem = false -> fluffing = true /\ s1 = s) /\
    (if fluffing then fluff c (mkEntry src now t) header s1 = (r2, s2) else s2 = s1 /\ r2 = Ok tt) /\
    match r2 with
    | Ok _ => if evict then evict_from_txpool c sort_buckets s2 = (r, s') else s' = s2 /\ r = Ok tt
    | _ => s' = s2 /\ r = r2
    end.
Proof.
  intros He Hr. unfold add_to_pool in He.
  apply tread_bind_inv in He as [([] & Hdup & He)|]; [|by left|done].
  destruct (negb stem && _) eqn:Hdup'; [done|].
  apply tread_bind_inv in He as [(evict & Hacc & He)|]; [|by left|done].
  apply tread_bind_inv in He as [([] & Hval%map_err_Ok_inv & He)|]; [|by left|done].
  apply tread_bind_inv in He as [([] & Hlock & He)|]; [|by left|done].
  apply tread_bind_inv in He as [([] & Hmat & He)|]; [|by left|done].
  assert (is_acceptable s t stem = (if evict then Err OverCapacity else Ok tt) /\ (evict = true -> stem = false)) as [Ha Hst].
  { destruct (is_acceptable s t stem) as [[]|err|]; [injection Hacc as <-; done| |done].
    destruct err; try done. destruct stem; [done|]. injection Hacc as <-. done. }
  right. destruct (try_stem_cases (mkEntry src now t) t header stem s) as (q & s1 & Hq & Hs1 & Hns & Hne).
  unfold tbind at 1 in He. fold (try_stem (mkEntry src now t) t header stem) in He. rewrite Hq in He.
  destruct q as [fluffing|e|]; [|by destruct (Hne e)|by injection He as <- <-].
  unfold tbind in He. exists evict, fluffing, s1. destruct fluffing.
  - destruct (fluff c (mkEntry src now t) header s1) as [r2 s2] eqn:Hf. exists r2, s2. split_and!; try done.
    + intros Hs. by destruct (Hns Hs).
    + destruct r2; [destruct evict; [done|by injection He as <- <-]|by injection He as <- <-..].
  - exists (Ok tt), s1. split_and!; try done.
    + intros Hs. by destruct (Hns Hs).
    + destruct evict; [done|by injection He as <- <-].
Qed.

Lemma acceptable_fee s t stem :
  is_acceptable s t stem = Ok tt -> 0 < accept_fee_base (config s) ->
  body_weight (body t) *! accept_fee_base (config s) <= body_fee (body t).
Proof.
  unfold is_acceptable. destruct (_ >? _); [done|]. destruct (stem && _); [done|].
  destruct (Z.gtb_spec (accept_fee_base (config s)) 0); [|lia]. by destruct (Z.ltb_spec (body_fee (body t)) (body_weight (body t) *! accept_fee_base (config s))).
Qed.

Lemma over_capacity s t stem :
  is_acceptable s t stem = Err OverCapacity -> stem = false -> max_pool_size (config s) < total_size s.
Proof.
  unfold is_acceptable. intros Ha ->. destruct (Z.gtb_spec (total_size s) (max_pool_size (config s))); [done|].
  cbn [andb] in Ha. destruct (_ >? 0); [|done]. by destruct (_ <? _).
Qed.

(** A transaction that is taken in, by the stem or not, is valid on its own within the
    weight of a block, mature, and pays the fee asked for its weight. *)
Theorem accepted_tx now src t stem header s s' :
  add_to_pool c sort_buckets stem_tx_accepted now src t stem header s = (Ok tt, s') ->
  tx_validate c AsTransaction t = Ok tt /\ chain_lock_height t = Ok tt /\ chain_coinbase_maturity t = Ok tt /\
  (total_size s <= max_pool_size (config s) -> 0 < accept_fee_base (config s) ->
   body_weight (body t) *! accept_fee_base (config s) <= body_fee (body t)).
Proof.
  intros He. apply add_to_pool_inv in He as [[_ [e ?]]|(ev & fl & s1 & r2 & s2 & _ & Ha & Hev & Hv & Hl & Hm & _)]; [done| |done].
  split_and!; [done..|]. intros Hsize Hbase. destruct ev; [by apply over_capacity in Ha; [lia|apply Hev]|].
  by apply acceptable_fee in Ha.
Qed.

Lemma add_to_pool_valid now src t stem header s r s' :
  add_to_pool c sort_buckets stem_tx_accepted now src t stem header s = (r, s') -> r <> Panic ->
  total_size s <= max_pool_size (config s) ->
  config s' = config s /\
  (txpool s' = txpool s \/
   exists e, txpool s' = txpool s ++ [e] /\ pool_valid header (txpool s') /\ stem_valid header s' /\
     broadcast s' = broadcast s ++ [t]).
Proof.
  intros He Hr Hsize. apply add_to_pool_inv in He as
    [[-> _]|(ev & fl & s1 & r2 & s2 & _ & Ha & Hev & _ & _ & _ & Hs1 & _ & Hf & He)]; [by split; [|left]| |done].
  assert (ev = false) as -> by (destruct ev; [apply over_capacity in Ha; [lia|by apply Hev]|done]).
  destruct fl; [|destruct Hf as [-> ->], He as [-> _]; rewrite Hs1; by split; [|left]].
  apply fluff_cases in Hf. destruct r2 as [[]|e|].
  - destruct Hf as (e & _ & Hp & Hv & Hst & _ & Hcf & Hb), He as [-> _]. rewrite Hs1 in Hp, Hcf, Hb. split; [done|].
    right. by exists e.
  - destruct He as [-> _]. rewrite Hf, Hs1. by split; [|left].
  - by destruct He as [_ ->].
Qed.

(** C11. Below its capacity, the pool of a node stays valid on top of the chain whatever is
    offered, as a stem transaction or not, and whatever comes of it; either it is as
    before, or it has one more entry, the stem pool is valid on top of it and the network
    got the transaction. *)
Theorem txpool_stays_valid now src t stem header s r s' :
  add_to_pool c sort_buckets stem_tx_accepted now src t stem header s = (r, s') -> r <> Panic ->
  total_size s <= max_pool_size (config s) -> pool_valid header (txpool s) ->
  pool_valid header (txpool s') /\
  (txpool s' = txpool s \/
   exists e, txpool s' = txpool s ++ [e] /\ stem_valid header s' /\ broadcast s' = broadcast s ++ [t]).
Proof.
  intros He Hr Hsize Hv. destruct (add_to_pool_valid _ _ _ _ _ _ _ _ He Hr Hsize) as [_ [->|(e & Hp & Hv' & Hs & Hb)]].
  - split; [done|by left].
  - split; [done|]. right. by exists e.
Qed.

(** ** Eviction and size *)
Lemma tx_eqb_refl t : tx_eqb t t = true.
Proof. unfold tx_eqb, body_eqb. by rewrite !bool_decide_true by done. Qed.

Lemma filter_shrinks {A} (P : A -> Prop) `{!forall x, Decision (P x)} (l : list A) x :
  x ∈ l -> ~ P x -> (length (filter P l) < length l)%nat.
Proof.
  intros Hx Hn. induction l as [|y l IH]; [by apply not_elem_of_nil in Hx|]. rewrite filter_cons.
  apply elem_of_cons in Hx as [->|Hx].
  - rewrite decide_False by done. pose proof (length_filter P l). simpl. lia.
  - specialize (IH Hx). destruct (decide (P y)); simpl; lia.
Qed.

Lemma evict_cases s r s' :
  evict_from_txpool c sort_buckets s = (r, s') ->
  match r with
  | Ok _ => s' = set_txpool (txpool s') s /\ txpool s' `sublist_of` txpool s /\
            (txpool s <> [] -> total_size s' < total_size s)
  | Err _ => False
  | Panic => True
  end.
Proof.
  unfold evict_from_txpool, tzoom. pose proof (bucket_transactions_sub (txpool s) NoLimit) as Hb.
  destruct (bucket_transactions _ _ _ _) as [txs| |]; cbn [bind]; intros [= <- <-]; [|done..].
  destruct Hb as [Hsub Hne]. destruct (last txs) as [t|] eqn:Hl.
  - split; [done|]. cbn [txpool set_txpool]. split; [apply sublist_filter|]. intros _. unfold total_size, pool_size, len. cbn [txpool set_txpool].
    assert (t ∈ all_transactions (txpool s)) as Ht.
    { apply (elem_of_submseteq txs); [|done]. rewrite last_lookup in Hl. by eapply list_elem_of_lookup_2. }
    apply list_elem_of_fmap in Ht as (x & -> & Hx).
    pose proof (filter_shrinks (fun y => tx_eqb (tx y) (tx x) = false) (txpool s) x Hx) as Hlt.
    apply Nat2Z.inj_lt, Hlt. cbv beta. by rewrite tx_eqb_refl.
  - apply last_None in Hl as ->. split; [by destruct s|]. split; [done|]. intros Hp. by destruct (Hne Hp).
Qed.

(** The pool holds at most one transaction more than its configured size, or what it
    held before. *)
Theorem txpool_bounded now src t stem header s r s' :
  add_to_pool c sort_buckets stem_tx_accepted now src t stem header s = (r, s') -> r <> Panic ->
  total_size s' <= Z.max (total_size s) (max_pool_size (config s) + 1).
Proof.
  intros He Hr. destruct (Z.le_gt_cases (total_size s) (max_pool_size (config s))) as [Hle|Hgt].
  { destruct (add_to_pool_valid _ _ _ _ _ _ _ _ He Hr Hle) as [_ [Hp|(e & Hp & _)]];
      unfold total_size, pool_size, len in *; rewrite Hp; [lia|]. rewrite length_app. simpl. lia. }
  apply add_to_pool_inv in He as
    [[-> _]|(ev & fl & s1 & r2 & s2 & _ & Ha & Hev & _ & _ & _ & Hs1 & Hst & Hf & He)]; [lia| |done].
  unfold is_acceptable in Ha. destruct (Z.gtb_spec (total_size s) (max_pool_size (config s))); [|lia].
  destruct ev; [|done]. destruct (Hst (Hev eq_refl)) as [-> ->]. apply fluff_cases in Hf. destruct r2 as [[]|e|].
  - destruct Hf as (e & _ & Hp & _). apply evict_cases in He. destruct r; [|done..]. destruct He as (_ & _ & Hlt).
    unfold total_size, pool_size, len in *. rewrite Hp, length_app in Hlt. simpl in Hlt.
    specialize (Hlt ltac:(by destruct (txpool s))). lia.
  - destruct He as [-> _]. rewrite Hf. lia.
  - by destruct He as [_ ->].
Qed.

(** ** A new block *)

(** Whatever the pool held, after a block it holds only entries of before, none with a
    kernel or an input of the block, and they are valid together on top of the block, as
    the stem pool is on top of them. *)
Theorem reconcile_block_restores block s r s' :
  reconcile_block c block s = (r, s') -> r <> Panic ->
  r = Ok tt /\ pool_valid (header block) (txpool s') /\ stem_valid (header block) s' /\
  txpool s' `sublist_of` pool_reconcile_block (txpool s) block /\
  stempool s' `sublist_of` pool_reconcile_block (stempool s) block.
Proof.
  intros He Hr. unfold reconcile_block, tbind, tzoom in He.
  pose proof (reconcile_no_err (pool_reconcile_block (txpool s) block) None (header block)) as Hne.
  destruct (reconcile c _ None (header block)) as [p|e|] eqn:Hp; cbn [bind] in He; [|by destruct (Hne e)|by injection He as <- <-].
  apply reconcile_valid in Hp as [Hsub Hv%pool_valid_on_nil]. unfold tmodify in He.
  pose proof (reconcile_stempool_cases (header block) _ _ _ He Hv) as Hc. destruct r as [[]|e|]; [|done..].
  destruct Hc as (Hs & Hsub' & Hs'). rewrite Hs' in *. done.
Qed.

(** ** Transactions for a block *)

(** C12. What the miner is given are transactions of the pool, none twice, that are valid
    together on top of the head, and leave room for a coinbase in the weight asked for. *)
Theorem mineable_valid p max_weight txs :
  prepare_mineable_transactions c sort_buckets p max_weight = Ok txs ->
  txs ⊆+ all_transactions p /\
  exists header, chain_head = Ok header /\
    (txs = [] \/ exists agg sums, aggregate txs = Ok agg /\
       validate_raw_tx c agg header (AsLimitedTransaction max_weight) = Ok sums /\
       body_weight_as_block (body agg) <=
         sat_sub (Z.min (max_block_weight c) max_weight) (BLOCK_OUTPUT_WEIGHT + BLOCK_KERNEL_WEIGHT)).
Proof.
  unfold prepare_mineable_transactions. intros (bs & Hb & (header & Hh & Hv)%bind_Ok_inv)%bind_Ok_inv.
  pose proof (bucket_transactions_sub p (AsLimitedTransaction max_weight)) as Hsub. rewrite Hb in Hsub.
  apply validate_raw_txs_valid in Hv as [Hl Hv]. split.
  { etrans; [by apply sublist_submseteq|apply Hsub]. }
  exists header. split; [done|]. destruct Hv as [|(agg & sums & Ha & Hv)]; [by left|right].
  exists agg, sums. split_and!; [done..|]. unfold validate_raw_tx, tx_validate, body_validate, body_validate_read, verify_weight in Hv.
  apply bind_Ok_inv in Hv as ([] & Hv%map_err_Ok_inv & _). apply bind_Ok_inv in Hv as ([] & Hv & _).
  apply bind_Ok_inv in Hv as ([] & Hv & _). apply bind_Ok_inv in Hv as ([] & Hv & _).
  destruct (Z.gtb_spec (body_weight_as_block (body agg))
    (sat_sub (Z.min (max_block_weight c) max_weight) (BLOCK_OUTPUT_WEIGHT + BLOCK_KERNEL_WEIGHT))); [done|lia].
Qed.

(** A stem transaction that could be relayed is neither in the pool nor given to the
    network. *)
Theorem stemmed_tx_hidden now src t header s p r s' :
  pool_add c (stempool s) (mkEntry src now t) (all_transactions (txpool s)) header = Ok p -> stem_tx_accepted t = Ok tt ->
  add_to_pool c sort_buckets stem_tx_accepted now src t true header s = (r, s') ->
  txpool s' = txpool s /\ broadcast s' = broadcast s /\ (r = Ok tt -> stempool s' = stempool s ++ [mkEntry src now t]).
Proof.
  intros Hp Hst He. pose proof (pool_add_Ok _ _ _ _ _ Hp) as (Hp' & _).
  unfold add_to_pool, tbind, tread, tis_err, add_to_stempool, tzoom in He. rewrite Hp, Hst in He. cbn [negb andb bind] in He.
  destruct (is_acceptable s t true) as [[]|e|]; [|by destruct e; injection He as <- <-|by injection He as <- <-].
  destruct (map_err _ _) as [[]| |]; [|by injection He as <- <-..].
  destruct (chain_lock_height t) as [[]| |]; [|by injection He as <- <-..].
  destruct (chain_coinbase_maturity t) as [[]| |]; [|by injection He as <- <-..].
  injection He as <- <-. done.
Qed.

(** ** Compact blocks *)
Section Retrieve.
Context (sid : TxKernel -> ShortId) (ids : list ShortId).

Definition found_in (ks : list (Transaction * TxKernel)) : list ShortId := filter (fun i => i ∈ ids) (map (fun x => sid x.2) ks).

Lemma retrieve_loop_spec done_ ks txs found :
  NoDup (map (fun x => sid x.2) (done_ ++ ks)) -> found = found_in done_ ->
  (forall i, i ∈ found -> exists t k, t ∈ txs /\ k ∈ kernels (body t) /\ sid k = i) ->
  (forall t k, (t, k) ∈ ks -> k ∈ kernels (body t)) ->
  let '(txs', found') := retrieve_loop sid ids ks txs found in
  (forall i, i ∈ found' -> exists t k, t ∈ txs' /\ k ∈ kernels (body t) /\ sid k = i) /\
  (forall i, i ∈ ids -> i ∈ found' <-> i ∈ map (fun x => sid x.2) (done_ ++ ks)).
Proof.
  revert done_ txs found. induction ks as [|[t k] ks IH]; intros done_ txs found HN Hf Hs Hk; cbn [retrieve_loop].
  { split; [done|]. intros i Hi. rewrite Hf, app_nil_r. unfold found_in. rewrite list_elem_of_filter. tauto. }
  set (st := if decide (sid k ∈ ids) then (txs ++ [t], found ++ [sid k]) else (txs, found)).
  assert (st.2 = found_in (done_ ++ [(t, k)])) as Hst.
  { unfold st, found_in. rewrite map_app, filter_app, Hf. cbn [map snd]. rewrite filter_cons, filter_nil.
    destruct (decide (sid k ∈ ids)); [done|by rewrite app_nil_r]. }
  assert (forall i, i ∈ st.2 -> exists t k, t ∈ st.1 /\ k ∈ kernels (body t) /\ sid k = i) as Hs'.
  { unfold st. destruct (decide (sid k ∈ ids)); [|done]. cbn [fst snd]. intros i [Hi| ->%list_elem_of_singleton]%elem_of_app.
    - destruct (Hs i Hi) as (t' & k' & Ht' & ?). exists t', k'. split; [apply elem_of_app; by left|done].
    - exists t, k. split; [apply elem_of_app; right; by left|]. split; [|done]. apply Hk. by left. }
  destruct st as [txs' found']. cbn [fst snd] in *.
  replace (done_ ++ (t, k) :: ks) with ((done_ ++ [(t, k)]) ++ ks) in * by (by rewrite <- app_assoc).
  destruct (decide (length found' = length ids)) as [Hl|_].
  - split; [done|]. intros i Hi.
    assert (NoDup found') as HNf.
    { rewrite Hst. unfold found_in. apply NoDup_filter. rewrite map_app in HN. by apply NoDup_app in HN as [? _]. }
    assert (found' ⊆ ids) as Hsub. { intros x Hx. rewrite Hst in Hx. unfold found_in in Hx. by apply list_elem_of_filter in Hx as [? _]. }
    pose proof (submseteq_length_Permutation _ _ (NoDup_submseteq _ _ HNf Hsub) ltac:(lia)) as Hperm.
    split; [intros _|intros _; by rewrite Hperm].
    assert (i ∈ found') as Hin by (by rewrite Hperm). rewrite Hst in Hin. unfold found_in in Hin.
    apply list_elem_of_filter in Hin as [_ Hin]. rewrite map_app. apply elem_of_app. by left.
  - apply (IH (done_ ++ [(t, k)]) txs' found' HN Hst Hs'). intros t' k' Hin. apply Hk. by right.
Qed.
End Retrieve.

Lemma elem_of_kernels_of_pool p t k :
  (t, k) ∈ kernels_of_pool p <-> exists x, x ∈ p /\ tx x = t /\ k ∈ kernels (body t).
Proof.
  unfold kernels_of_pool. rewrite list_elem_of_In, in_concat. setoid_rewrite in_map_iff. split.
  - intros (l & (x & <- & Hx) & Hl). apply in_map_iff in Hl as (k' & [= <- <-] & Hk). exists x.
    rewrite !list_elem_of_In. done.
  - intros (x & Hx & <- & Hk). exists (map (pair (tx x)) (kernels (body (tx x)))). split.
    + exists x. split; [done|]. by apply list_elem_of_In.
    + apply in_map_iff. exists k. split; [done|]. by apply list_elem_of_In.
Qed.

Lemma dedup_from_keeps prev l t : t ∈ l -> exists t', t' ∈ prev :: dedup_from prev l /\ tx_eqb t t' = true.
Proof.
  revert prev. induction l as [|u l IH]; intros prev Ht; [by apply not_elem_of_nil in Ht|]. cbn [dedup_from].
  apply elem_of_cons in Ht as [->|Ht].
  - destruct (tx_eqb u prev) eqn:E; [exists prev; split; [by left|done]|].
    exists u. split; [right; by left|apply tx_eqb_refl].
  - destruct (tx_eqb u prev) eqn:E; [by apply IH|]. destruct (IH u Ht) as (t' & Ht' & E'). exists t'. split; [by right|done].
Qed.

Lemma tx_dedup_keeps l t : t ∈ l -> exists t', t' ∈ tx_dedup l /\ tx_eqb t t' = true.
Proof.
  destruct l as [|u l]; intros Ht; [by apply not_elem_of_nil in Ht|]. cbn [tx_dedup].
  apply elem_of_cons in Ht as [->|Ht]; [exists u; split; [by left|apply tx_eqb_refl]|by apply dedup_from_keeps].
Qed.

Lemma tx_eqb_kernel t t' k :
  tx_eqb t t' = true -> k ∈ kernels (body t) -> exists k', k' ∈ kernels (body t') /\ kernel_hash k' = kernel_hash k.
Proof.
  unfold tx_eqb, body_eqb. intros [(_ & _ & Hk)%bool_decide_eq_true _]%andb_true_iff Hin.
  assert (kernel_hash k ∈ map kernel_hash (kernels (body t'))) as Hh.
  { rewrite <- Hk. by apply list_elem_of_fmap_2. }
  apply list_elem_of_fmap in Hh as (k' & He & Hk'). by exists k'.
Qed.

(** When no two kernels of the pool share a short identifier, the identifiers reported as
    missing are exactly those of no kernel of the pool, and every other one is that of a
    kernel of a returned transaction. *)
Theorem retrieve_exact siphash24 p hash nonce ids :
  let sid := fun k => short_id siphash24 (kernel_hash k) hash nonce in
  let '(txs, missing) := retrieve_transactions siphash24 p hash nonce ids in
  NoDup (map (fun x => sid x.2) (kernels_of_pool p)) ->
  (forall i, i ∈ missing <-> i ∈ ids /\ ~ exists t k, t ∈ all_transactions p /\ k ∈ kernels (body t) /\ sid k = i) /\
  (forall i, i ∈ ids -> i ∉ missing -> exists t k, t ∈ txs /\ k ∈ kernels (body t) /\ sid k = i).
Proof.
  intros sid. unfold retrieve_transactions.
  pose proof (retrieve_loop_spec sid ids [] (kernels_of_pool p) [] []) as Hl. fold sid.
  destruct (retrieve_loop sid ids (kernels_of_pool p) [] []) as [txs found]. intros HN.
  destruct Hl as [Hs Hf]; [done|done|intros i Hi; by apply not_elem_of_nil in Hi| |].
  { intros t k (x & _ & _ & Hk)%elem_of_kernels_of_pool. done. }
  split.
  - intros i. rewrite list_elem_of_filter. split; [intros [Hn Hi]; split; [done|]|intros [Hi Hn]; split; [|done]].
    + intros (t & k & Ht & Hk & He). apply Hn, (Hf i Hi). apply list_elem_of_fmap. exists (t, k). split; [done|].
      apply list_elem_of_fmap in Ht as (x & -> & Hx). apply elem_of_kernels_of_pool. by exists x.
    + rewrite (Hf i Hi). intros ([t k] & He & (x & Hx & <- & Hk)%elem_of_kernels_of_pool)%list_elem_of_fmap.
      apply Hn. exists (tx x), k. split; [by apply list_elem_of_fmap_2|]. by rewrite He.
  - intros i Hi Hm. assert (i ∈ found) as Hin.
    { destruct (decide (i ∈ found)); [done|]. destruct Hm. by apply list_elem_of_filter. }
    destruct (Hs i Hin) as (t & k & Ht & Hk & He). destruct (tx_dedup_keeps _ _ Ht) as (t' & Ht' & E).
    destruct (tx_eqb_kernel _ _ _ E Hk) as (k' & Hk' & Hh). exists t', k'. split_and!; [done..|].
    unfold sid in *. by rewrite Hh.
Qed.

End Theory.
