(* ===== verification/Node.v ===== *)
(** * The node between the chain, the pool and the network

    [servers/src/common/adapters.rs]: what the pool sees of the chain
    ([PoolToChainAdapter]), what the pool does when the chain accepts a block
    ([ChainToPoolAndNetAdapter]), what the network does with what its peers send
    ([NetToChainAdapter]), and the relay of stem transactions ([PoolToNetAdapter]).
    Requests to peers are a log, sent when the peer is still connected; the state of the
    synchronization, the random number of a compaction check and the reply of the relay
    peer are arguments.  Hooks and the file transfers of a fast sync are left out. *)
From Stdlib Require Import String.
From S2P Require Import Prelude PmmrIndex Pmmr PruneList PmmrBackend Ser Global Pow Reward Retarget Feijoada Committed Transaction Block ChainStore Pipe TxHashSet ProcessBlock Orphans ChainFacade Pool.
#[local] Open Scope Z_scope.

Definition MAX_BLOCK_HEADERS : Z := 512.

Inductive request : Type :=
| TxRequest (h : Hash)
| BlockRequest (h : Hash)
| CompactBlockRequest (h : Hash).

(** What is broadcast about an accepted block. *)
Inductive announcement : Type := AnnounceCompactBlock (b : Block) | AnnounceHeader (h : BlockHeader).

Record Node := mkNode {
  chain : Chain.Chain;
  tx_pool : TransactionPool;
  requests : list request;
  announced : list announcement
}.

Definition set_chain (s : Chain.Chain) (n : Node) : Node := mkNode s (tx_pool n) (requests n) (announced n).
Definition set_pool (p : TransactionPool) (n : Node) : Node := mkNode (chain n) p (requests n) (announced n).
Definition send (r : request) (n : Node) : Node := mkNode (chain n) (tx_pool n) (requests n ++ [r]) (announced n).
Definition announce (l : list announcement) (n : Node) : Node := mkNode (chain n) (tx_pool n) (requests n) (announced n ++ l).

(** Work on a part, whatever it returns. *)
Definition on_pool {A} (m : trans TransactionPool pool_error A) : trans Node pool_error A := fun n =>
  let '(r, p) := m (tx_pool n) in (r, set_pool p n).
Definition on_chain {A} (m : trans Chain.Chain chain_error A) : trans Node chain_error A := fun n =>
  let '(r, s) := m (chain n) in (r, set_chain s n).

(** [let _ = ...]: an error is dropped, its changes are not. *)
Definition ignoring {S E F A} (m : trans S E A) : trans S F () := fun s =>
  match m s with
  | (Panic, s) => (Panic, s)
  | (_, s) => (Ok tt, s)
  end.

Section Node.
Context `{Hasher} `{Secp} (c : ChainTypes) (min_date max_date : Z).

(** ** What the pool sees *)
Definition other {A} (m : outcome chain_error A) : outcome pool_error A := map_err (fun _ => PoolOther) m.

Definition pool_to_chain (s : Chain.Chain) : BlockChain := {|
  chain_head := other (Chain.head_header c min_date max_date s);
  chain_get_block_header h := other (Chain.get_block_header c min_date max_date s h);
  chain_block_sums h := other (Chain.get_block_sums s h);
  chain_validate_tx t := other (Chain.validate_tx s t);
  chain_coinbase_maturity t := map_err (fun _ => PoolImmatureCoinbase) (Chain.verify_coinbase_maturity c min_date max_date s t);
  chain_lock_height t := map_err (fun _ => ImmatureTransaction) (Chain.verify_tx_lock_height c min_date max_date s t)
|}.

(** The relay of a stem transaction: whether this is a stem epoch, and whether there is a
    relay peer that took it. *)
Definition stem_tx_accepted (is_stem : bool) (relayed : option bool) (t : Transaction) : outcome pool_error () :=
  if is_stem then
    match relayed with
    | Some true => Ok tt
    | _ => Err DandelionError
    end
  else Ok tt.

(** ** A block has been accepted *)
Context (now : Z).

(** The chain of a notice. *)
Definition seen (x : Chain.notice) (s : Chain.Chain) : Chain.Chain :=
  Chain.set_store (Chain.n_store x) (Chain.set_txhashset (Chain.n_txhashset x) s).

Definition announcement_of (b : Block) (opts : Z) : list announcement :=
  if contains opts SYNC then []
  else if contains opts MINE then [AnnounceCompactBlock b]
  else [AnnounceHeader (header b)].

Definition REORG_CACHE_NANOS : Z := 30 * 60 * 10 ^ 9.

(** The pool's part of [block_accepted]. *)
Definition pool_block_accepted (s : Chain.Chain) (b : Block) (status : BlockStatus) : trans TransactionPool pool_error () :=
  let BC := pool_to_chain s in
  do! (if decide (status = Next \/ status = Reorg) then
         do! ignoring (F := pool_error) (reconcile_block (H1 := BC) c b) then
         truncate_reorg_cache (now - REORG_CACHE_NANOS)
       else tret tt) then
  if decide (status = Reorg) then ignoring (reconcile_reorg_cache (H1 := BC) c (header b)) else tret tt.

Definition block_accepted (s : Chain.Chain) (x : Chain.notice) : trans Node pool_error () :=
  do! tmodify (announce (announcement_of (Chain.n_block x) (Chain.n_opts x))) then
  on_pool (pool_block_accepted (seen x s) (Chain.n_block x) (Chain.n_status x)).
(** The chain with the callbacks it makes. *)
Context (get_progpow_value : list Z -> Z -> Z -> Hash) (u256_from : Hash -> Z).
Context (config : PolicyConfig) (pow_verifier : BlockHeader -> bool).
Context (bitmap_serialize : gset Z -> list Z) (bitmap_deserialize : list Z -> gset Z).
Context (load_foundation_output : Z -> Output * TxKernel).

Definition no_pool_err {A} (m : trans Node pool_error A) : trans Node chain_error () := ignoring m.

Definition chain_process_block (b : Block) (opts : Z) : trans Node chain_error (option Tip) := fun n =>
  let '(r, s) := Chain.process_block c min_date max_date get_progpow_value u256_from config pow_verifier now
                   bitmap_serialize bitmap_deserialize load_foundation_output b opts (chain n) in
  let news := drop (length (Chain.notices (chain n))) (Chain.notices s) in
  (do! tfor (fun x => no_pool_err (block_accepted s x)) news then (fun n => (r, n))) (set_chain s n).

(** ** What the peers send *)
Context (is_syncing every_block connected : bool).

Definition chain_opts (was_requested : bool) : Z := if was_requested then SYNC else 0.

Definition total_difficulty (n : Node) : outcome chain_error Difficulty :=
  let? h := Chain.head (chain n) in Ok (tip_difficulty h).
Definition total_height (n : Node) : outcome chain_error Z := let? h := Chain.head (chain n) in Ok (tip_height h).
Definition get_transaction (n : Node) (kernel_hash : Hash) : option Transaction :=
  retrieve_tx_by_kernel_hash (txpool (tx_pool n)) kernel_hash.
Definition get_block (n : Node) (h : Hash) : outcome chain_error (option Block) :=
  match Chain.get_block c min_date max_date (chain n) h with
  | Ok b => Ok (Some b)
  | Err _ => Ok None
  | Panic => Panic
  end.

(** To the peer, when it is connected; a block only when it is not known. *)
Definition request_transaction (h : Hash) : trans Node chain_error () :=
  tmodify (fun n => if connected then send (TxRequest h) n else n).
Definition send_block_request_to_peer (r : Hash -> request) (h : Hash) : trans Node chain_error () := fun n =>
  match Chain.block_exists (chain n) h with
  | Ok false => (Ok tt, if connected then send (r h) n else n)
  | Panic => (Panic, n)
  | _ => (Ok tt, n)
  end.
Definition request_block_by_hash (h : Hash) : trans Node chain_error () := send_block_request_to_peer BlockRequest h.
Definition request_block (bh : BlockHeader) : trans Node chain_error () :=
  let! h := tread (fun _ => hash_of c bh) in request_block_by_hash h.
Definition request_compact_block (bh : BlockHeader) : trans Node chain_error () :=
  let! h := tread (fun _ => hash_of c bh) in send_block_request_to_peer CompactBlockRequest h.

Definition tx_kernel_received (kernel_hash : Hash) : trans Node chain_error bool := fun n =>
  if is_syncing then (Ok true, n)
  else
    match get_transaction n kernel_hash with
    | None => (do! request_transaction kernel_hash then tret true) n
    | Some _ => (Ok true, n)
    end.

Context (sort_buckets : list Bucket -> list Bucket) (relay : Transaction -> outcome pool_error ()).

Definition transaction_received (t : Transaction) (stem : bool) : trans Node chain_error bool := fun n =>
  if is_syncing then (Ok true, n)
  else
    match Chain.head_header c min_date max_date (chain n) with
    | Ok header =>
        let '(r, n) := on_pool (add_to_pool (H1 := pool_to_chain (chain n)) c sort_buckets relay now
                         (mkSource "p2p"%string "?.?.?.?"%string) t stem header) n in
        match r with
        | Ok _ => (Ok true, n)
        | Err _ => (Ok false, n)
        | Panic => (Panic, n)
        end
    | Err e => (Err e, n)
    | Panic => (Panic, n)
    end.

(** In the mode that validates the chain after every block, a failure is a panic. *)
Definition validate_chain : trans Node chain_error () := fun n =>
  if every_block then
    match Chain.head (chain n) with
    | Ok head =>
        if (tip_height head >? 0) && negb is_syncing then
          match on_chain (Chain.validate c min_date max_date bitmap_serialize bitmap_deserialize true) n with
          | (Ok _, n) => (Ok tt, n)
          | (_, n) => (Panic, n)
          end
        else (Ok tt, n)
    | _ => (Panic, n)
    end
  else (Ok tt, n).

Context (roll : Z) (stream_hash : list Z -> option (Hash * list Z * Z))
  (stream_output : list Z -> option (OutputIdentifier * list Z * Z))
  (stream_rproof : list Z -> option (RangeProof * list Z * Z)).

(** One in [COMPACTION_CHECK] times, the compaction of another thread, as if it ran at
    once; [roll] is the random number. *)
Definition check_compact : trans Node chain_error () :=
  if negb is_syncing && (roll =? 0)
  then ignoring (on_chain (Chain.compact c min_date max_date bitmap_serialize bitmap_deserialize stream_hash stream_output stream_rproof))
  else tret tt.

(** The verdict on the peer: whether what it sent was good. *)
Definition process_block (b : Block) (was_requested : bool) : trans Node chain_error bool :=
  let! head := tread (fun n => Chain.head (chain n)) in
  if height (header b) <? sat_sub (tip_height head) (cut_through_horizon c) then tret true
  else fun n =>
    let previous := Chain.get_previous_header c min_date max_date (chain n) (header b) in
    match chain_process_block b (chain_opts was_requested) n with
    | (Ok _, n) => (do! validate_chain then do! check_compact then tret true) n
    | (Panic, n) => (Panic, n)
    | (Err e, n) =>
        if is_bad_data e then (do! validate_chain then tret false) n
        else
          match e with
          | Pipe.Orphan =>
              match previous with
              | Ok previous =>
                  (let! h := tread (fun _ => hash_of c previous) in
                   do! (fun n => if negb (Chain.is_orphan (chain n) h) && negb is_syncing
                                 then request_block_by_hash h n else (Ok tt, n)) then
                   tret true) n
              | Err _ => (Ok true, n)
              | Panic => (Panic, n)
              end
          | _ => (Ok true, n)
          end
    end.

Definition block_received (b : Block) (was_requested : bool) : trans Node chain_error bool := process_block b was_requested.

Context (siphash24 : Z -> Z -> list Z -> Z).

(** The hash of a compact block is the hash of its header. *)
Definition compact_block_received (cb : CompactBlock) : trans Node chain_error bool := fun n =>
  match kern_ids (cb_body cb) with
  | [] =>
      match hydrate_from cb [] with
      | Ok block => process_block block false n
      | Err _ => (Ok false, n)
      | Panic => (Panic, n)
      end
  | ids =>
      match Chain.process_block_header c min_date max_date get_progpow_value u256_from config pow_verifier now
              (cb_header cb) (chain_opts false) (chain n) with
      | Err e => (Ok (negb (is_bad_data e)), n)
      | Panic => (Panic, n)
      | Ok _ =>
          (let! hash := tread (fun _ => hash_of c (cb_header cb)) in
           fun n =>
           let '(txs, missing_short_ids) := retrieve_transactions siphash24 (txpool (tx_pool n)) hash (cb_nonce cb) ids in
           match hydrate_from cb txs with
           | Err _ => (Ok false, n)
           | Panic => (Panic, n)
           | Ok block =>
               match Chain.get_previous_header c min_date max_date (chain n) (cb_header cb) with
               | Ok prev =>
                   match block_validate c load_foundation_output block (total_kernel_offset prev) with
                   | Ok _ => process_block block false n
                   | Err _ =>
                       (do! (if is_syncing then tret tt else request_block (cb_header cb)) then tret true) n
                   | Panic => (Panic, n)
                   end
               | Err _ => (Ok true, n)
               | Panic => (Panic, n)
               end
           end) n
      end
  end.

Definition header_received (bh : BlockHeader) : trans Node chain_error bool := fun n =>
  match Chain.process_block_header c min_date max_date get_progpow_value u256_from config pow_verifier now
          bh (chain_opts false) (chain n) with
  | Ok _ => (do! request_compact_block bh then tret true) n
  | Err e => (if is_bad_data e then Ok false else Err e, n)
  | Panic => (Panic, n)
  end.

Definition headers_received (bhs : list BlockHeader) : trans Node chain_error bool := fun n =>
  match bhs with
  | [] => (Ok false, n)
  | _ =>
      match on_chain (Chain.sync_block_headers c min_date max_date get_progpow_value u256_from config pow_verifier now
                        bhs (chain_opts true)) n with
      | (Ok _, n) => (Ok true, n)
      | (Err e, n) => (if is_bad_data e then Ok false else Err e, n)
      | (Panic, n) => (Panic, n)
      end
  end.

(** ** What the peers ask for *)
#[local] Abbreviation header_at_height n h :=
  (set_header_by_height c min_date max_date (Chain.txhashset (chain n)) (Chain.store (chain n)) h).

(** The first hash of the locator that is on our chain of headers. *)
Fixpoint find_common_header (n : Node) (locator : list Hash) : outcome chain_error (option BlockHeader) :=
  match locator with
  | [] => Ok None
  | hash :: locator =>
      match Chain.get_block_header c min_date max_date (chain n) hash with
      | Ok header =>
          match header_at_height n (height header) with
          | Ok header_at_height =>
              let? a := hash_of c header in
              let? b := hash_of c header_at_height in
              if decide (a = b) then Ok (Some header) else find_common_header n locator
          | Err _ => find_common_header n locator
          | Panic => Panic
          end
      | Err _ => find_common_header n locator
      | Panic => Panic
      end
  end.

(** The headers at these heights, up to the first that is above [max_height] or missing. *)
Fixpoint headers_at (n : Node) (max_height : Z) (hs : list Z) : outcome chain_error (list BlockHeader) :=
  match hs with
  | [] => Ok []
  | h :: hs =>
      if h >? max_height then Ok []
      else
        match header_at_height n h with
        | Ok header => let? rest := headers_at n max_height hs in Ok (header :: rest)
        | Err _ => Ok []
        | Panic => Panic
        end
  end.

Definition locate_headers (n : Node) (locator : list Hash) : outcome chain_error (list BlockHeader) :=
  let? common := find_common_header n locator in
  match common with
  | None => Ok []
  | Some header =>
      let? tip := Chain.header_head (chain n) in
      let hh := height header in
      headers_at n (tip_height tip) (seqZ (hh +! 1) (hh +! MAX_BLOCK_HEADERS - (hh +! 1) + 1))
  end.

End Node.
