(* ===== verification/NodeTheory.v ===== *)
(** * The node is correct

    The composition of the chain and the pool: after the chain has moved to a block, the
    pool is valid on top of it.  Headers are located exactly.  A defect: no peer is ever
    blamed for a block. *)
From S2P Require Import Prelude PmmrIndex Pmmr PruneList PmmrBackend Ser Global Pow Reward Retarget Feijoada Committed Transaction Block ChainStore Pipe TxHashSet ProcessBlock Orphans ChainFacade ChainTheory ChainLoops Pool PoolTheory Node.

Section Blame.
Context `{Hasher} `{Secp} (c : ChainTypes) (min_date max_date now : Z).
Context (get_progpow_value : list Z -> Z -> Z -> Hash) (u256_from : Hash -> Z).
Context (config : PolicyConfig) (pow_verifier : BlockHeader -> bool).
Context (bitmap_serialize : gset Z -> list Z) (bitmap_deserialize : list Z -> gset Z).
Context (load_foundation_output : Z -> Output * TxKernel).

Lemma single_not_bad b opts s e s' :
  Chain.process_block_single c min_date max_date get_progpow_value u256_from config pow_verifier now bitmap_serialize
    bitmap_deserialize load_foundation_output b opts s = (Err e, s') -> is_bad_data e = false.
Proof.
  unfold Chain.process_block_single. unfold tbind at 1, tread at 1.
  destruct (store_err _) as [prev|e1|] eqn:Hp; [|intros [= <- _]|done].
  2: { unfold store_err in Hp. destruct (ChainStore.head _) as [t|x|]; cbn in Hp; [done|by injection Hp as <-|done]. }
  destruct (Chain.in_batch _ s) as [[new|e1|] s1]; [done| |done].
  destruct e1; intros He; try (injection He as <- _; reflexivity).
  unfold orphan_add, hash_of in He. destruct (header_hash c _); [by injection He as <- _|done|done].
Qed.

Lemma orphan_loop_no_err fuel h s e s' :
  Chain.orphan_loop c min_date max_date get_progpow_value u256_from config pow_verifier now bitmap_serialize
    bitmap_deserialize load_foundation_output fuel h s <> (Err e, s').
Proof.
  revert h s. induction fuel as [|fuel IH]; intros h s He; [done|]. rewrite loop_round in He.
  destruct (remove_by_height _ _) as [[l|] pool]; [|done]. unfold tbind in He.
  destruct (Chain.try_orphans _ _ _ _ _ _ _ _ _ _ _ _ _ _) as [r s1] eqn:Et.
  destruct r as [[ha|]|x|]; [by eapply IH|done|by apply try_orphans_no_err in Et|done].
Qed.

Lemma process_block_not_bad b opts s e s' :
  Chain.process_block c min_date max_date get_progpow_value u256_from config pow_verifier now bitmap_serialize
    bitmap_deserialize load_foundation_output b opts s = (Err e, s') -> is_bad_data e = false.
Proof.
  unfold Chain.process_block. unfold tbind at 1. destruct (Chain.process_block_single _ _ _ _ _ _ _ _ _ _ _ _ _ _) as [[r|e1|] s1] eqn:E1.
  - unfold tbind, Chain.check_orphans. destruct (Chain.orphan_loop _ _ _ _ _ _ _ _ _ _ _ _ _ _) as [[[]|e2|] s2] eqn:E2; [done| |done].
    by apply orphan_loop_no_err in E2.
  - intros [= <- <-]. by eapply single_not_bad.
  - done.
Qed.

Context (is_syncing every_block connected : bool) (roll : Z).
Context (stream_hash : list Z -> option (Hash * list Z * Z))
  (stream_output : list Z -> option (OutputIdentifier * list Z * Z))
  (stream_rproof : list Z -> option (RangeProof * list Z * Z)).

(** A defect: whatever block a peer sends, [process_block] never says that it was bad.
    The chain reports every rejection as [Other], which does not count as bad data, so
    the branch that blames the peer is never taken. *)
Theorem bad_block_not_blamed b was_requested n v n' :
  Node.process_block c min_date max_date now get_progpow_value u256_from config pow_verifier bitmap_serialize
    bitmap_deserialize load_foundation_output is_syncing every_block connected roll stream_hash stream_output
    stream_rproof b was_requested n = (Ok v, n') -> v = true.
Proof.
  unfold Node.process_block. intros He. apply tbind_Ok_inv in He as (head & n1 & Hh & He). apply tread_Ok_inv in Hh as [_ ->].
  case_match; [by injection He as <- _|]. destruct (chain_process_block _ _ _ _ _ _ _ _ _ _ _ _ _ _) as [[r|e|] n1] eqn:Ec; [| |done].
  - apply tbind_Ok_inv in He as (u & n2 & _ & He). apply tbind_Ok_inv in He as (u2 & n3 & _ & He). by injection He as <- _.
  - assert (is_bad_data e = false) as Hb.
    { unfold chain_process_block in Ec. destruct (Chain.process_block _ _ _ _ _ _ _ _ _ _ _ _ _ _) as [r s1] eqn:Ep.
      unfold tbind in Ec. destruct (tfor _ _ _) as [[[]|e2|] n2] eqn:Ef; [|exfalso|done].
      - injection Ec as -> _. by eapply process_block_not_bad.
      - clear -Ef. revert Ef. generalize (set_chain s1 n). induction (drop _ _) as [|x l IH]; intros m Ef; cbn [tfor] in Ef; [done|].
        unfold tbind, no_pool_err, ignoring in Ef. destruct (block_accepted _ _ _ _ _ _ _) as [[ | | ] m1]; [by eapply IH|by eapply IH|done]. }
    rewrite Hb in He. destruct e; try (by injection He as <- _). destruct (Chain.get_previous_header _ _ _ _ _) as [prev|e|]; [|by injection He as <- _|done].
    apply tbind_Ok_inv in He as (h & n2 & _ & He). apply tbind_Ok_inv in He as (u & n3 & _ & He). by injection He as <- _.
Qed.

End Blame.

(** ** The pool follows the chain *)
Section Pool.
Context `{Hasher} `{Secp} `{BlockChain} (c : ChainTypes).

Lemma reorg_cache_valid header s r s' :
  pool_valid c header (txpool s) -> reconcile_reorg_cache c header s = (r, s') -> r <> Panic -> pool_valid c header (txpool s').
Proof.
  unfold reconcile_reorg_cache. generalize (reorg_cache s). intros l. revert s. induction l as [|e l IH]; intros s Hv He Hr; cbn [tfor] in He.
  - by injection He as <- <-.
  - unfold tbind, tis_err, tret in He. destruct (add_to_txpool c e header s) as [r1 s1] eqn:Ea. apply add_to_txpool_cases in Ea.
    destruct r1 as [[]|err|]; [|subst s1; by eapply IH|by injection He as <- <-].
    destruct Ea as (x & _ & _ & Hv' & _). by eapply IH.
Qed.

End Pool.

Section Follow.
Context `{Hasher} `{Secp} (c : ChainTypes) (min_date max_date now : Z).

#[local] Abbreviation valid_on s := (pool_valid (H1 := pool_to_chain c min_date max_date s) c).

Lemma pool_accepts s b status p r p' :
  pool_block_accepted c min_date max_date now s b status p = (r, p') -> r <> Panic ->
  (status = Fork -> p' = p) /\ (status <> Fork -> valid_on s (header b) (txpool p')).
Proof.
  unfold pool_block_accepted. intros He Hr. split.
  - intros ->. by injection He as _ <-.
  - intros Hst. rewrite decide_True in He by (destruct status; tauto). unfold tbind at 1 2, ignoring at 1 in He.
    destruct (reconcile_block (H1 := pool_to_chain c min_date max_date s) c b p) as [r1 p1] eqn:E1.
    assert (r1 <> Panic) as Hp by (intros ->; injection He as <- _; done).
    destruct (reconcile_block_restores c b p r1 p1 E1 Hp) as (-> & Hv & _).
    unfold truncate_reorg_cache, tmodify in He. set (p2 := set_reorg_cache _ _) in He.
    change (txpool p1) with (txpool p2) in Hv. destruct (decide (status = Reorg)); [|by injection He as <- <-].
    unfold ignoring in He. destruct (reconcile_reorg_cache (H1 := pool_to_chain c min_date max_date s) c (header b) p2) as [r3 p3] eqn:E3.
    assert (r3 <> Panic) as H3 by (intros ->; injection He as <- _; done).
    assert (p' = p3) as -> by (destruct r3; by injection He as _ <-). by eapply reorg_cache_valid.
Qed.

#[local] Abbreviation replay s := (tfor (fun x => no_pool_err (block_accepted c min_date max_date now s x))).

(** One notice. *)
Lemma accepted_notice s x n r n' :
  no_pool_err (block_accepted c min_date max_date now s x) n = (r, n') -> r <> Panic ->
  r = Ok tt /\ chain n' = chain n /\ (Chain.n_status x = Fork -> tx_pool n' = tx_pool n) /\
  (Chain.n_status x <> Fork -> valid_on (seen x s) (header (Chain.n_block x)) (txpool (tx_pool n'))).
Proof.
  unfold no_pool_err, ignoring, block_accepted, tbind, tmodify, on_pool. intros He Hr.
  destruct (pool_block_accepted _ _ _ _ _ _ _ _) as [r2 p2] eqn:E2.
  assert (r2 <> Panic) as Hr2 by (intros ->; injection He as <- _; done). destruct (pool_accepts _ _ _ _ _ _ E2 Hr2) as [Hf Hv].
  destruct r2; [injection He as <- <-..|done]; by split_and!.
Qed.

Lemma fork_notices s l n r n' :
  replay s l n = (r, n') -> r <> Panic -> Forall (fun y => Chain.n_status y = Fork) l -> tx_pool n' = tx_pool n.
Proof.
  intros He Hr Hl. revert n He. induction Hl as [|y l Hy _ IH]; intros n He; cbn [tfor] in He; [by injection He as _ <-|].
  unfold tbind in He. destruct (no_pool_err _ n) as [r1 n1] eqn:E1.
  assert (r1 <> Panic) as Hr1 by (intros ->; injection He as <- _; done).
  destruct (accepted_notice _ _ _ _ _ E1 Hr1) as (-> & _ & Hf & _). by rewrite (IH n1 He), Hf.
Qed.

Lemma accepted_notices s l n r n' :
  replay s l n = (r, n') -> r <> Panic ->
  chain n' = chain n /\
  forall pre x post, l = pre ++ x :: post -> Chain.n_status x <> Fork -> Forall (fun y => Chain.n_status y = Fork) post ->
    valid_on (seen x s) (header (Chain.n_block x)) (txpool (tx_pool n')).
Proof.
  revert n. induction l as [|y l IH]; intros n He Hr; cbn [tfor] in He.
  { injection He as <- <-. split; [done|]. intros [|? ?] x post; discriminate. }
  unfold tbind in He. destruct (no_pool_err _ n) as [r1 n1] eqn:E1.
  assert (r1 <> Panic) as Hr1 by (intros ->; injection He as <- _; done).
  destruct (accepted_notice _ _ _ _ _ E1 Hr1) as (-> & Hc1 & _ & Hv). destruct (IH n1 He Hr) as [Hc Hl]. split; [congruence|].
  intros [|z pre] x post Hx Hst Hp; injection Hx as -> ->; [|by eapply Hl]. rewrite (fork_notices _ _ _ _ _ He Hr Hp). by apply Hv.
Qed.

Context (get_progpow_value : list Z -> Z -> Z -> Hash) (u256_from : Hash -> Z).
Context (config : PolicyConfig) (pow_verifier : BlockHeader -> bool).
Context (bitmap_serialize : gset Z -> list Z) (bitmap_deserialize : list Z -> gset Z).
Context (load_foundation_output : Z -> Output * TxKernel).

(** C4. The pool follows the chain: once a block and the orphans it releases have been
    processed, the transactions of the pool are valid together on top of the block that
    last became the head, on the store and the set the chain had then, whether it was the
    next block or a reorganization, and whatever the pool held before. *)
Theorem pool_follows_chain b opts n r n' pre x post :
  chain_process_block c min_date max_date now get_progpow_value u256_from config pow_verifier bitmap_serialize
    bitmap_deserialize load_foundation_output b opts n = (r, n') -> r <> Panic ->
  drop (length (Chain.notices (chain n))) (Chain.notices (chain n')) = pre ++ x :: post ->
  Chain.n_status x <> Fork -> Forall (fun y => Chain.n_status y = Fork) post ->
  valid_on (seen x (chain n')) (header (Chain.n_block x)) (txpool (tx_pool n')).
Proof.
  unfold chain_process_block. destruct (Chain.process_block _ _ _ _ _ _ _ _ _ _ _ _ _ _) as [r0 s] eqn:Ep.
  intros He Hr. unfold tbind in He. destruct (replay s _ _) as [r1 n1] eqn:E1.
  assert (r1 <> Panic) as Hr1 by (intros ->; injection He as <- _; done).
  destruct (accepted_notices _ _ _ _ _ E1 Hr1) as [Hc Hv].
  assert (n' = n1) as -> by (destruct r1; by injection He as _ <-). change (chain (set_chain s n)) with s in Hc. rewrite Hc. apply Hv.
Qed.

End Follow.

(** ** Locating headers *)
Section Locate.
Context `{Hasher} `{Secp} (c : ChainTypes) (min_date max_date : Z).

#[local] Abbreviation at_height n h := (set_header_by_height c min_date max_date (Chain.txhashset (chain n)) (Chain.store (chain n)) h).

Lemma headers_at_seq n max_height (hd : Z -> BlockHeader) start len :
  (forall h, start <= h <= max_height -> at_height n h = Ok (hd h)) ->
  headers_at c min_date max_date n max_height (seqZ start len) = Ok (map hd (seqZ start (Z.min len (max_height - start + 1)))).
Proof.
  intros Hhd. destruct (Z_lt_le_dec len 0) as [Hneg|Hlen]; [by rewrite !seqZ_nil by lia|].
  revert start Hhd. pattern len. apply Zlt_0_ind; [|done]. clear len Hlen. intros len IH Hlen start Hhd.
  destruct (decide (len = 0)) as [->|Hne]; [by rewrite !seqZ_nil by lia|]. rewrite seqZ_cons by lia. cbn [headers_at].
  destruct (Z.gtb_spec start max_height) as [Hgt|Hle]; [by rewrite seqZ_nil by lia|].
  rewrite Hhd by lia. rewrite IH by (lia || (intros h Hh; apply Hhd; lia)). cbn [bind].
  rewrite (seqZ_cons start) by lia. cbn [map]. do 4 f_equal. lia.
Qed.

(** A peer is sent the headers that follow the first hash of its locator we have on our
    chain: all of them up to the head of the headers, at most 512. *)
Theorem locate_headers_exact n locator tip common (hd : Z -> BlockHeader) :
  find_common_header c min_date max_date n locator = Ok (Some common) ->
  Chain.header_head (chain n) = Ok tip -> 0 <= height common -> height common + 512 < 2 ^ 64 ->
  (forall h, height common < h <= tip_height tip -> at_height n h = Ok (hd h)) ->
  locate_headers c min_date max_date n locator =
    Ok (map hd (seqZ (height common + 1) (Z.min 512 (tip_height tip - height common)))).
Proof.
  intros Hf Ht Hc Hm Hhd. unfold locate_headers. rewrite Hf. cbn [bind]. rewrite Ht. cbn [bind].
  unfold MAX_BLOCK_HEADERS. rewrite !u64_add_small by (unfold is_u64; lia).
  rewrite (headers_at_seq n (tip_height tip) hd) by (intros h Hh; apply Hhd; lia). do 3 f_equal. lia.
Qed.

(** The hash it starts from is on our chain. *)
Lemma find_common_on_chain n locator common :
  find_common_header c min_date max_date n locator = Ok (Some common) ->
  exists hash h, hash ∈ locator /\ Chain.get_block_header c min_date max_date (chain n) hash = Ok common /\
    at_height n (height common) = Ok h /\ header_hash c common = header_hash c h.
Proof.
  induction locator as [|x l IH]; cbn [find_common_header]; [done|].
  assert (find_common_header c min_date max_date n l = Ok (Some common) -> exists hash h, hash ∈ x :: l /\
    Chain.get_block_header c min_date max_date (chain n) hash = Ok common /\ at_height n (height common) = Ok h /\
    header_hash c common = header_hash c h) as Hl.
  { intros He. destruct (IH He) as (k & h & Hk & Hrest). exists k, h. split; [by right|done]. }
  destruct (Chain.get_block_header _ _ _ _ x) as [h|e|] eqn:Eb; [|exact Hl|done].
  destruct (at_height n (height h)) as [h'|e|] eqn:Eh; [|exact Hl|done]. unfold hash_of.
  destruct (header_hash c h) as [a| |] eqn:Ea; cbn [bind]; [|done..]. destruct (header_hash c h') as [a'| |] eqn:Ea'; cbn [bind]; [|done..].
  destruct (decide (a = a')) as [<-|]; [|exact Hl]. intros [= <-]. exists x, h'. split; [by left|]. split_and!; [done|done|congruence].
Qed.

End Locate.
