(* ===== verification/PoolExample.v ===== *)
(** * A small transaction pool

    Four transactions on the integer model of the curve, over a chain with two unspent
    outputs: the theorems about the pool apply, and the eviction of a transaction that
    another one depends on leaves the pool invalid. *)
From Stdlib Require Import String.
From S2P Require Import Prelude Ser Global Pow Reward Feijoada Committed Transaction CutThrough Block BlockTheory Pool PoolTheory.
#[local] Open Scope Z_scope.

#[local] Instance pool_hasher : Hasher := fun content =>
  from_vec (be_bytes 32 (foldl Z.add 0 content)).
#[local] Existing Instance integer_secp.

(** The unspent outputs of the chain. *)
Definition unspent : list Commitment := [encode 33 100; encode 33 200].

#[local] Instance small_chain : BlockChain := {
  chain_head := Ok sample_header;
  chain_get_block_header _ := Ok sample_header;
  chain_block_sums _ := Ok (mkBlockSums (encode 33 300) (encode 33 300));
  chain_validate_tx t :=
    if bool_decide (Forall (fun i => in_commit i ∈ unspent) (inputs (body t)) /\
                    Forall (fun o => out_commit o ∉ unspent) (outputs (body t)))
    then Ok tt else Err PoolOther;
  chain_coinbase_maturity _ := Ok tt;
  chain_lock_height t := if body_lock_height (body t) <=? 10 then Ok tt else Err ImmatureTransaction;
}.

(** One input, one output, a fee. *)
Definition simple_tx (i o fee : Z) : Transaction :=
  mkTransaction (encode 32 1) (mkBody [plain_input i] [plain_output o] [plain_kernel fee (o + fee - i - 1)]).

Definition parent : Transaction := simple_tx 100 101 400.
Definition middle : Transaction := simple_tx 101 102 40.
Definition child : Transaction := simple_tx 102 103 4000.
Definition other : Transaction := simple_tx 200 201 5000.

Definition by_ratio (a b : Bucket) : Prop := b_fee_to_weight b <= b_fee_to_weight a.
#[local] Instance by_ratio_dec a b : Decision (by_ratio a b).
Proof. unfold by_ratio. exact _. Defined.
Definition sort_by_ratio : list Bucket -> list Bucket := merge_sort by_ratio.
Definition no_relay (_ : Transaction) : outcome pool_error () := Err DandelionError.
Definition peer : TxSource := mkSource "peer"%string "1"%string.

Definition offer (t : Transaction) (s : TransactionPool) : outcome pool_error () * TransactionPool :=
  add_to_pool Mainnet sort_by_ratio no_relay 0 peer t false sample_header s.
Definition tiny_pool : TransactionPool := pool_new (mkConfig 1 2 2 40000).
Definition three : TransactionPool := (offer child (offer middle (offer parent tiny_pool).2).2).2.

Definition fees (s : TransactionPool) : list Z := map (fun t => body_fee (body t)) (all_transactions (txpool s)).

Example three_entries : fees three = [400; 40; 4000].
Proof. vm_compute. reflexivity. Qed.
Example fourth : is_ok (offer other three).1 = true /\ fees (offer other three).2 = [400; 4000; 5000].
Proof. vm_compute. done. Qed.

Lemma sort_by_ratio_perm l : sort_by_ratio l ≡ₚ l.
Proof. apply merge_sort_Permutation. Qed.

(** Whether transactions are valid together, as a test. *)
Definition together (txs : list Transaction) : bool :=
  match aggregate txs with
  | Ok t => is_ok (validate_raw_tx Mainnet t sample_header NoLimit)
  | _ => false
  end.

Lemma together_valid txs : together txs = true <-> valid_together Mainnet NoLimit sample_header txs.
Proof.
  unfold together, valid_together. split.
  - destruct (aggregate txs) as [t| |]; [|discriminate..].
    destruct (validate_raw_tx Mainnet t sample_header NoLimit) as [sums| |] eqn:E; [|discriminate..]. intros _. by exists t, sums.
  - intros (t & sums & -> & ->). reflexivity.
Qed.

Lemma three_valid : pool_valid Mainnet sample_header (txpool three).
Proof. right. apply together_valid. vm_compute. reflexivity. Qed.

(** ** Eviction

    The pool of three is over its capacity of two, so one more transaction evicts one:
    [middle], whose output [child] spends.  What is left is not valid on the chain. *)
Theorem eviction_breaks_pool :
  pool_valid Mainnet sample_header (txpool three) /\
  is_ok (offer other three).1 = true /\
  fees (offer other three).2 = [400; 4000; 5000] /\
  ~ pool_valid Mainnet sample_header (txpool (offer other three).2).
Proof.
  split; [exact three_valid|]. split; [vm_compute; reflexivity|]. split; [vm_compute; reflexivity|].
  assert (len (txpool (offer other three).2) = 3 /\ together (all_transactions (txpool (offer other three).2)) = false) as [Hl Hf]
    by (split; vm_compute; reflexivity).
  intros [Hnil|Hv%together_valid]; [rewrite Hnil in Hl; discriminate Hl|rewrite Hv in Hf; discriminate Hf].
Qed.

(** ** The theorems apply *)
Lemma txpool_stays_valid_witness :
  pool_valid Mainnet sample_header (txpool (offer parent tiny_pool).2).
Proof.
  pose proof (fun r s' => txpool_stays_valid Mainnet sort_by_ratio no_relay 0 peer parent false sample_header tiny_pool r s') as H.
  assert (is_ok (offer parent tiny_pool).1 = true) as Hr by (vm_compute; reflexivity).
  unfold offer in *. destruct (add_to_pool Mainnet sort_by_ratio no_relay 0 peer parent false sample_header tiny_pool) as [r s'].
  refine (proj1 (H r s' eq_refl _ _ _)).
  - intros ->. discriminate Hr.
  - vm_compute. discriminate.
  - left. reflexivity.
Defined.

Lemma txpool_bounded_witness : total_size (offer parent tiny_pool).2 <= 3.
Proof.
  pose proof (fun r s' => txpool_bounded Mainnet sort_by_ratio sort_by_ratio_perm no_relay 0 peer parent false sample_header tiny_pool r s') as H.
  assert (is_ok (offer parent tiny_pool).1 = true) as Hr by (vm_compute; reflexivity).
  unfold offer in *. destruct (add_to_pool Mainnet sort_by_ratio no_relay 0 peer parent false sample_header tiny_pool) as [r s'].
  apply (H r s' eq_refl). intros ->. discriminate Hr.
Defined.

Lemma add_to_txpool_atomic_witness :
  (add_to_txpool Mainnet (mkEntry peer 0 parent) sample_header three).2 = three.
Proof.
  pose proof (fun e s' => add_to_txpool_atomic Mainnet (mkEntry peer 0 parent) sample_header three e s') as H.
  assert (is_ok (add_to_txpool Mainnet (mkEntry peer 0 parent) sample_header three).1 = false /\
    match (add_to_txpool Mainnet (mkEntry peer 0 parent) sample_header three).1 with Panic => false | _ => true end = true) as [Hr Hp]
    by (split; vm_compute; reflexivity).
  destruct (add_to_txpool Mainnet (mkEntry peer 0 parent) sample_header three) as [[a|e|] s'].
  - discriminate Hr.
  - exact (H e s' eq_refl).
  - discriminate Hp.
Defined.

(** A block with the kernel of [parent]. *)
Definition parent_block : Block := mkBlock sample_header (body parent).

Lemma reconcile_block_restores_witness :
  pool_valid Mainnet sample_header (txpool (reconcile_block Mainnet parent_block three).2).
Proof.
  pose proof (fun r s' => reconcile_block_restores Mainnet parent_block three r s') as H.
  assert (is_ok (reconcile_block Mainnet parent_block three).1 = true) as Hr by (vm_compute; reflexivity).
  destruct (reconcile_block Mainnet parent_block three) as [r s'].
  refine (proj1 (proj2 (H r s' eq_refl _))). intros ->. discriminate Hr.
Defined.

Lemma mineable_valid_witness :
  match prepare_mineable_transactions Mainnet sort_by_ratio (txpool three) 40000 with
  | Ok txs => map (fun t => body_fee (body t)) txs = [400; 40] /\ txs ⊆+ all_transactions (txpool three)
  | _ => False
  end.
Proof.
  pose proof (fun txs => mineable_valid Mainnet sort_by_ratio sort_by_ratio_perm (txpool three) 40000 txs) as H.
  assert (match prepare_mineable_transactions Mainnet sort_by_ratio (txpool three) 40000 with
          | Ok txs => map (fun t => body_fee (body t)) txs = [400; 40]
          | _ => False
          end) as Hf by (vm_compute; reflexivity).
  destruct (prepare_mineable_transactions Mainnet sort_by_ratio (txpool three) 40000) as [txs| |]; [|exact Hf..].
  split; [exact Hf|]. exact (proj1 (H txs eq_refl)).
Defined.
