(* ===== verification/ChainExample.v ===== *)
(** * A chain of two blocks

    The genesis and the block of [ProcessBlockExample] behind the facade: the block first
    waits as an orphan, is accepted when it is tried, and the theorems of the facade and
    of the node apply to it. *)
From S2P Require Import Prelude PmmrIndex Pmmr PmmrRefine AppendOnlyFile PruneList PmmrBackend PmmrData Ser Global Pow Reward Retarget Feijoada Committed Transaction CutThrough Block BlockTheory ChainStore ChainStoreTheory Pipe PipeTheory ChainSums PipeExample TxHashSet ProcessBlock TxHashSetUndo TxHashSetUtxo UtxoSums UtxoRewind ProcessBlockTheory ForkTheory TxHashSetExample ProcessBlockExample Orphans ChainFacade ChainTheory ChainLoops Pool PoolTheory Node NodeTheory.

#[local] Existing Instance integer_secp.

Section Poly.
#[local] Existing Instance poly_hasher.
#[local] Existing Instance trusting_context.

(** The block in the orphan pool, and the chain it waits for. *)
Definition next_orphan : Orphan := mkOrphan next_block 0 noon.
Definition next_hash : Hash := or_else ZERO_HASH (header_hash Mainnet next_header).
Definition waiting_pool : OrphanBlockPool :=
  or_else orphan_pool_new (orphan_add (E := ()) Mainnet noon next_orphan orphan_pool_new).
Definition height_one (_ : list Z) : Z := 1.

Definition root_chain : Chain.Chain :=
  Chain.mkChain (commit (ext_batch root_ext)) root_set orphan_pool_new false genesis [].
Definition waiting_chain : Chain.Chain := Chain.set_orphans waiting_pool root_chain.

#[local] Abbreviation single := (Chain.process_block_single Mainnet 0 far_date no_progpow hash_value default_config trusting noon
  no_bitmap empty_bitmap no_foundation).
#[local] Abbreviation whole := (Chain.process_block Mainnet 0 far_date no_progpow hash_value default_config trusting noon
  no_bitmap empty_bitmap no_foundation).
#[local] Abbreviation retry := (Chain.check_orphans Mainnet 0 far_date no_progpow hash_value default_config trusting noon
  no_bitmap empty_bitmap no_foundation).

Example next_hash_ok : header_hash Mainnet next_header = Ok next_hash.
Proof. vm_compute. reflexivity. Qed.

(** The block is a fork of nothing: it becomes the head as the next block. *)
Example next_accepted :
  is_ok (single next_block 0 root_chain).1 = true /\
  map Chain.n_status (Chain.notices (single next_block 0 root_chain).2) = [Next].
Proof. vm_compute. done. Qed.

Lemma root_chain_good : set_good (Chain.txhashset root_chain).
Proof. exact (conj root_set_synced (conj root_set_anchored root_set_fixed)). Qed.

Lemma process_block_single_atomic_witness :
  exists new prev, single next_block 0 root_chain = (Ok (Some new), (single next_block 0 root_chain).2) /\
    Chain.head root_chain = Ok prev /\ has_more_work (header next_block) prev = true.
Proof.
  pose proof (fun r s' => process_block_single_atomic Mainnet 0 far_date no_progpow hash_value default_config trusting noon
    no_bitmap empty_bitmap no_foundation next_block 0 root_chain r s' root_chain_good) as H.
  assert (match (single next_block 0 root_chain).1 with Ok (Some _) => true | _ => false end = true) as Hok by (vm_compute; reflexivity).
  destruct (single next_block 0 root_chain) as [[[new|]|e|] s']; [|discriminate Hok..].
  destruct (H (Ok (Some new)) s' eq_refl) as (_ & _ & _ & prev & is_fork & bt & e & Hp & Hm & _).
  exists new, prev. exact (conj eq_refl (conj Hp Hm)).
Defined.

Lemma orphan_pool_invariant_witness : orphan_len waiting_pool <= MAX_ORPHAN_SIZE.
Proof.
  refine (proj1 (orphan_pool_invariant Mainnet height_one waiting_pool _)).
  apply (reached_add Mainnet height_one noon next_orphan next_hash orphan_pool_new waiting_pool).
  - apply reached_new.
  - exact next_hash_ok.
  - vm_compute. reflexivity.
  - vm_compute. reflexivity.
Defined.

Lemma waiting_good : pool_good Mainnet height_one waiting_chain.
Proof.
  destruct (orphan_add_exact Mainnet height_one (E := ()) noon next_orphan next_hash orphan_pool_new) as (p & Hp & Hok & Hl & _).
  - split; [|split].
    + intros k o Ho. discriminate Ho.
    + intros k [o Ho]. discriminate Ho.
    + intros h hs k Ho. discriminate Ho.
  - vm_compute. congruence.
  - exact next_hash_ok.
  - vm_compute. reflexivity.
  - assert (p = waiting_pool) as -> by (unfold waiting_pool; rewrite Hp; reflexivity). constructor; [exact Hok|exact Hl|].
    assert (map_Forall (fun x _ => 0 <= x < 2 ^ 64 - 1) (height_idx (Chain.orphans waiting_chain))) as Hx by vm_decide.
    intros x [hs Hs]. exact (Hx x hs Hs).
Qed.

#[local] Abbreviation rounds := (orphan_rounds Mainnet 0 far_date no_progpow hash_value default_config trusting noon
  no_bitmap empty_bitmap no_foundation).

Lemma check_orphans_ends_witness :
  exists n s', (n <= 2)%nat /\ rounds n 1 waiting_chain (Ok tt) s' /\ retry 1 waiting_chain = (Ok tt, s').
Proof.
  pose proof (fun r s' => check_orphans_ends Mainnet 0 far_date no_progpow hash_value default_config trusting noon
    no_bitmap empty_bitmap no_foundation height_one 1 waiting_chain r s' waiting_good) as H.
  assert (is_ok (retry 1 waiting_chain).1 = true) as Hok by (vm_compute; reflexivity).
  assert (size (height_idx (Chain.orphans waiting_chain)) = 1%nat) as Hsize by (vm_compute; reflexivity). rewrite Hsize in H.
  destruct (retry 1 waiting_chain) as [r s']. destruct (H r s' ltac:(lia) eq_refl) as ((n & Hn & Hr) & _).
  destruct r as [[]|e|]; [|discriminate Hok..]. exists n, s'. exact (conj Hn (conj Hr eq_refl)).
Defined.

Example orphan_accepted :
  map Chain.n_status (Chain.notices (retry 1 waiting_chain).2) = [Next] /\ Chain.orphans_len (retry 1 waiting_chain).2 = 0.
Proof. vm_compute. done. Qed.

Lemma rooted_ok e h r :
  header_ok Mainnet 0 far_date h -> is_u64 (Pmmr.unpruned_size (output_pmmr e)) -> is_u64 (Pmmr.unpruned_size (kernel_pmmr e)) ->
  header_ok Mainnet 0 far_date (rooted e h r).
Proof.
  intros Hh Ho Hk. unfold rooted. destruct (roots Mainnet e); [|exact Hh..].
  destruct Hh as (H1 & H2 & H3 & H4 & _ & _ & H5). unfold header_ok. cbn. by split_and!; try apply H4; try apply H5.
Qed.

Lemma next_draft_ok : header_ok Mainnet 0 far_date next_draft.
Proof. unfold header_ok, pow_ok. split_and!; vm_decide. Qed.

Lemma next_header_ok : header_ok Mainnet 0 far_date next_header.
Proof. apply rooted_ok; [exact next_draft_ok|vm_decide|vm_decide]. Qed.
(** ** The head *)
Definition grown : Chain.Chain := (whole next_block 0 root_chain).2.
Definition root_tip : Tip := or_else tip_default (Chain.head root_chain).

Lemma next_header_sized : sized_header next_header.
Proof. destruct next_header_ok as (_ & Hh & _ & _ & _ & _ & (Hd & _) & _). by split. Qed.

Lemma chain_head_never_loses_work_witness :
  exists tip, Chain.head (whole next_block 0 root_chain).2 = Ok tip /\ num_sum (tip_difficulty root_tip) <= num_sum (tip_difficulty tip).
Proof.
  apply (chain_head_never_loses_work Mainnet 0 far_date no_progpow hash_value default_config trusting no_bitmap empty_bitmap
    no_foundation (fun _ => None) (fun _ => None) (fun _ => None) root_chain).
  - apply rtc_once. destruct (whole next_block 0 root_chain) as [r s'] eqn:E.
    exact (step_block Mainnet 0 far_date no_progpow hash_value default_config trusting no_bitmap empty_bitmap
      no_foundation (fun _ => None) (fun _ => None) (fun _ => None) noon next_block 0 root_chain r s' next_header_sized E).
  - intros k o Ho. discriminate Ho.
  - vm_compute. reflexivity.
Defined.

(** ** The pool after the block *)
Definition root_node : Node := mkNode root_chain (pool_new (config_default Mainnet)) [] [].
#[local] Abbreviation node_processed := (chain_process_block Mainnet 0 far_date noon no_progpow hash_value default_config trusting
  no_bitmap empty_bitmap no_foundation next_block 0 root_node).

(** A test of what [pool_follows_chain] asks for: one notice, of a new head. *)
Definition one_head (l : list Chain.notice) : bool :=
  match l with
  | [x] => negb (bool_decide (Chain.n_status x = Fork))
  | _ => false
  end.

Lemma one_head_inv l : one_head l = true -> exists x, l = [] ++ x :: [] /\ Chain.n_status x <> Fork.
Proof.
  destruct l as [|x [|]]; [discriminate| |discriminate]. cbn. intros Hx. exists x. split; [reflexivity|].
  intros E. rewrite bool_decide_eq_true_2 in Hx by done. discriminate Hx.
Qed.

Lemma pool_follows_chain_witness :
  exists x, Chain.n_status x <> Fork /\
    pool_valid (H1 := pool_to_chain Mainnet 0 far_date (seen x (chain node_processed.2))) Mainnet
      (header (Chain.n_block x)) (txpool (tx_pool node_processed.2)).
Proof.
  pose proof (fun r n' pre x post => pool_follows_chain Mainnet 0 far_date noon no_progpow hash_value default_config trusting
    no_bitmap empty_bitmap no_foundation next_block 0 root_node r n' pre x post) as H.
  assert (is_ok node_processed.1 = true) as Hok by (vm_compute; reflexivity).
  assert (one_head (drop (length (Chain.notices (chain root_node))) (Chain.notices (chain node_processed.2))) = true) as Hone
    by (vm_compute; reflexivity).
  destruct node_processed as [r n']. cbn [fst snd] in Hok, Hone |- *. destruct (one_head_inv _ Hone) as (x & Hx & Hst).
  exists x. split; [exact Hst|]. refine (H r n' [] x [] eq_refl _ Hx Hst _).
  - intros ->. discriminate Hok.
  - constructor.
Defined.

(** ** The block of an output *)
Definition next_output : OutputIdentifier := from_output (mkOutput Coinbase (encode 33 1457920007) rp8).
Definition height_header (h : Z) : BlockHeader := if h =? 0 then genesis else next_header.
Definition grown_tip : Tip := or_else tip_default (Chain.head grown).
Definition next_place : Hash * Z := or_else (ZERO_HASH, 0) (TxHashSet.is_unspent (Chain.txhashset grown) (Chain.store grown) next_output).

(** A result, once it is known to be one. *)
Lemma or_else_Ok {E A} (d : A) (m : outcome E A) : is_ok m = true -> m = Ok (or_else d m).
Proof. by destruct m. Qed.

Lemma stored_header_at h x :
  TxHashSet.get_header_hash_by_height Mainnet (Chain.txhashset grown) h = Ok x ->
  forall y, ChainStore.get_block_header Mainnet 0 far_date (Chain.view grown) x = Ok y ->
  set_header_by_height Mainnet 0 far_date (Chain.txhashset grown) (Chain.store grown) h = Ok y.
Proof. intros Hx y Hy. unfold set_header_by_height, Chain.view in *. rewrite Hx. cbn [bind]. by rewrite Hy. Qed.

Lemma grown_headers h : 0 <= h <= 1 ->
  set_header_by_height Mainnet 0 far_date (Chain.txhashset grown) (Chain.store grown) h = Ok (height_header h).
Proof.
  intros Hh. assert (h = 0 \/ h = 1) as [->| ->] by lia.
  - apply (stored_header_at 0 (or_else ZERO_HASH (TxHashSet.get_header_hash_by_height Mainnet (Chain.txhashset grown) 0)));
      [apply or_else_Ok; vm_compute; reflexivity|vm_decide].
  - apply (stored_header_at 1 (or_else ZERO_HASH (TxHashSet.get_header_hash_by_height Mainnet (Chain.txhashset grown) 1)));
      [apply or_else_Ok; vm_compute; reflexivity|vm_decide].
Qed.

Lemma get_header_for_output_exact_witness :
  exists h, Chain.get_header_for_output Mainnet 0 far_date grown next_output = Ok (height_header h) /\ 0 <= h <= 1.
Proof.
  destruct (get_header_for_output_exact Mainnet 0 far_date grown next_output next_place.1 next_place.2 grown_tip height_header)
    as (h & Hh & Hr & _).
  - rewrite <- surjective_pairing. apply or_else_Ok. vm_compute. reflexivity.
  - apply or_else_Ok. vm_compute. reflexivity.
  - vm_compute. done.
  - intros h Hh. apply grown_headers. replace (tip_height grown_tip) with 1 in Hh by (vm_compute; reflexivity). exact Hh.
  - intros h Hh. replace (tip_height grown_tip) with 1 in Hh by (vm_compute; reflexivity).
    replace h with 0 by lia. vm_compute. reflexivity.
  - vm_compute. split; congruence.
  - exists h. split; [exact Hh|]. replace (tip_height grown_tip) with 1 in Hr by (vm_compute; reflexivity). exact Hr.
Defined.
(** ** Its headers *)
(** A store whose only header is kept under the hash [r]. *)
Definition header_key (r : Hash) (key : list Z) : Prop :=
  key = to_key BLOCK_HEADER_PREFIX (bytes r) \/ hd 0 key <> BLOCK_HEADER_PREFIX.

Lemma only_header (r : Hash) (b : Batch) k h :
  map_Forall (fun key _ => header_key r key) (ChainStore.tx b) ->
  ChainStore.get_block_header Mainnet 0 far_date b k = Ok h -> k = r.
Proof.
  intros Hd Hk. unfold ChainStore.get_block_header, option_to_not_found, get_ser, get_ser_access in Hk.
  destruct (ChainStore.tx b !! to_key BLOCK_HEADER_PREFIX (bytes k)) as [v|] eqn:E; [|discriminate Hk].
  destruct (Hd _ _ E) as [He|Hne]; [|by destruct Hne]. apply array_eq. by injection He.
Qed.

#[local] Instance header_key_dec r key : Decision (header_key r key).
Proof. unfold header_key. apply _. Defined.

Lemma root_keys : map_Forall (fun key _ => header_key root_hash key) (ChainStore.tx (Chain.view root_chain)).
Proof. vm_decide. Qed.

Lemma root_header : ChainStore.get_block_header Mainnet 0 far_date (Chain.view root_chain) root_hash = Ok genesis.
Proof. vm_decide. Qed.

Lemma root_lookup k h :
  ChainStore.get_block_header Mainnet 0 far_date (Chain.view root_chain) k = Ok h -> k = root_hash /\ h = genesis.
Proof.
  intros Hk. pose proof (only_header root_hash _ k h root_keys Hk) as ->. split; [reflexivity|].
  rewrite root_header in Hk. injection Hk as <-. reflexivity.
Qed.

Lemma root_head : Chain.head_header Mainnet 0 far_date root_chain = Ok genesis.
Proof.
  assert (ChainStore.head_header Mainnet 0 far_date (Chain.view root_chain) = Ok genesis) as Hh by vm_decide.
  unfold Chain.head_header. rewrite Hh. reflexivity.
Qed.

Lemma root_chain_consistent : chain_ok Mainnet 0 far_date genesis (Chain.view root_chain).
Proof.
  constructor.
  - intros k h Hk. destruct (root_lookup k h Hk) as [-> ->]. split; [exact genesis_header_ok|vm_compute; reflexivity].
  - intros k h Hk. destruct (root_lookup k h Hk) as [-> ->]. left. split; [done|]. vm_decide.
  - exact genesis_positive.
Qed.

(** The header of the next block alone, then the block. *)
Lemma next_admissible : admissible Mainnet 0 far_date genesis (eq next_header).
Proof.
  apply (single_admissible Mainnet 0 far_date genesis next_header next_hash root_hash).
  - exact next_header_ok.
  - reflexivity.
  - exact next_hash_ok.
  - vm_compute. reflexivity.
  - vm_decide.
  - vm_decide.
  - vm_decide.
Qed.

Definition root_header_tip : Tip := or_else tip_default (ChainStore.header_head (Chain.view root_chain)).
Lemma root_header_tip_hash : last_block_h root_header_tip = root_hash.
Proof. vm_decide. Qed.
Lemma root_header_tip_work : tip_difficulty root_header_tip = h_total_difficulty genesis.
Proof. vm_decide. Qed.

Lemma root_headers_good : headers_good Mainnet 0 far_date genesis (eq next_header) root_chain.
Proof.
  split; [split; [exact root_chain_consistent| |]|intros k o Hk; discriminate Hk].
  - exists root_header_tip, genesis. rewrite root_header_tip_hash, root_header_tip_work. split_and!.
    + apply or_else_Ok. vm_compute. reflexivity.
    + exact root_header.
    + vm_compute. reflexivity.
    + reflexivity.
    + intros k h Hk. apply root_lookup in Hk as [_ ->]. reflexivity.
  - intros k h Hk. right. by apply root_lookup in Hk as [_ ->].
Qed.

Definition synced_chain : Chain.Chain :=
  (Chain.sync_block_headers Mainnet 0 far_date no_progpow hash_value default_config trusting noon [next_header] 0 root_chain).2.

(** The run moves the head of the headers, the block that of the chain. *)
Example run_then_block :
  is_ok (Chain.sync_block_headers Mainnet 0 far_date no_progpow hash_value default_config trusting noon [next_header] 0 root_chain).1 = true
  /\ is_ok (whole next_block 0 synced_chain).1 = true
  /\ match ChainStore.header_head (Chain.view synced_chain), ChainStore.head (Chain.view synced_chain) with
     | Ok h, Ok b => tip_height h = 1 /\ tip_height b = 0
     | _, _ => False
     end.
Proof. vm_compute. done. Qed.

Lemma header_head_heaviest_witness :
  exists t, ChainStore.header_head (Chain.view (whole next_block 0 synced_chain).2) = Ok t /\
    num_sum (h_total_difficulty genesis) <= num_sum (tip_difficulty t).
Proof.
  destruct (header_head_heaviest Mainnet 0 far_date no_progpow hash_value default_config trusting no_bitmap empty_bitmap no_foundation
    genesis (eq next_header) next_admissible root_chain (whole next_block 0 synced_chain).2) as (_ & _ & t & h & Ht & _ & _ & _ & Hmax).
  - exact root_headers_good.
  - eapply rtc_l; [apply (offered_run _ _ _ _ _ _ _ _ _ _ _ noon [next_header] 0 root_chain
      (Chain.sync_block_headers Mainnet 0 far_date no_progpow hash_value default_config trusting noon [next_header] 0 root_chain).1 synced_chain)|].
    + reflexivity.
    + constructor; [reflexivity|constructor].
    + exact I.
    + apply surjective_pairing.
    + apply rtc_once, (offered_block _ _ _ _ _ _ _ _ _ _ _ noon next_block 0 synced_chain (whole next_block 0 synced_chain).1);
        [reflexivity|reflexivity|apply surjective_pairing].
  - exists t. split; [exact Ht|]. apply (Hmax root_hash). vm_decide.
Defined.

End Poly.

(** ** Compaction: the genesis block goes when the horizon is at the next one *)
Section Old.
#[local] Existing Instance poly_hasher.

Definition far_tip : Tip := mkTip (cut_through_horizon Mainnet + 1) next_hash root_hash (from_num 1).
Definition far_batch : Batch :=
  batch (commit (or_else empty_store (save_body_head (Chain.view grown) far_tip))).
Definition old_blocks : list (list Z * Block) := or_else [] (Chain.blocks_iter Mainnet 0 far_date far_batch).
Definition compacted_batch : Batch :=
  or_else empty_store (Chain.remove_historical_blocks Mainnet 0 far_date false (Chain.txhashset grown) far_batch).

Definition filed_test (e : list Z * Block) : bool :=
  match header_hash Mainnet (header e.2) with
  | Ok k => bool_decide (e.1 = to_key BLOCK_PREFIX (bytes k))
  | _ => false
  end.

Lemma all_filed l : forallb filed_test l = true -> forall e, e ∈ l -> exists k, filed Mainnet e k.
Proof.
  intros Hl e He. rewrite forallb_forall in Hl. specialize (Hl e ltac:(by apply list_elem_of_In)). unfold filed_test in Hl.
  unfold filed. destruct (header_hash Mainnet (header e.2)) as [k| |]; [|discriminate..]. exists k. by apply bool_decide_eq_true_1 in Hl.
Qed.

Example two_blocks : map (fun e => height (header e.2)) old_blocks = [1; 0] \/ map (fun e => height (header e.2)) old_blocks = [0; 1].
Proof. vm_compute. tauto. Qed.

Lemma remove_historical_exact_witness :
  exists tl, (forall e k, e ∈ old_blocks -> filed Mainnet e k -> height (header e.2) < height tl ->
    ChainStore.get_block Mainnet 0 far_date compacted_batch k = Err NotFoundErr).
Proof.
  destruct (remove_historical_exact Mainnet 0 far_date (Chain.txhashset grown) far_batch compacted_batch
    (or_else tip_default (ChainStore.head far_batch)) old_blocks)
    as (hash & tl & tl_tip & _ & _ & Hgone & _).
  - apply or_else_Ok. vm_compute. reflexivity.
  - apply or_else_Ok. vm_compute. reflexivity.
  - vm_compute. done.
  - reflexivity.
  - apply or_else_Ok. vm_compute. reflexivity.
  - apply all_filed. vm_compute. reflexivity.
  - exists tl. exact Hgone.
Defined.
End Old.

(** ** The kernels of one header *)
Section Prefix.
#[local] Existing Instance prefix_hasher.

Definition fast_store : Store :=
  commit (or_else empty_store (let? t := tip_from_header Mainnet first_header in save_body_head first_update.2 t)).

Lemma fast_headers k :
  ChainStore.get_block_header Mainnet 0 far_date (batch fast_store) k = ChainStore.get_block_header Mainnet 0 far_date first_update.2 k.
Proof.
  unfold fast_store. destruct (let? t := _ in _) as [b| |] eqn:E; [|exfalso..].
  - apply bind_Ok_inv in E as (t & _ & [= <-]). cbn [or_else]. unfold ChainStore.get_block_header, get_ser, get_ser_access.
    cbn [batch commit db ChainStore.tx]. by rewrite lookup_insert_ne.
  - assert (is_ok (let? t := tip_from_header (E := store_error) Mainnet first_header in save_body_head first_update.2 t) = true) as Hok
      by (vm_compute; reflexivity). rewrite E in Hok. discriminate Hok.
  - assert (is_ok (let? t := tip_from_header (E := store_error) Mainnet first_header in save_body_head first_update.2 t) = true) as Hok
      by (vm_compute; reflexivity). rewrite E in Hok. discriminate Hok.
Qed.

Lemma validate_kernel_history_exact_witness :
  Chain.validate_kernel_history Mainnet 0 far_date first_header root_set fast_store <> Panic.
Proof.
  destruct (validate_kernel_history_exact Mainnet 0 far_date genesis eq_refl first_header root_set fast_store
    (or_else genesis (ChainStore.head_header Mainnet 0 far_date (batch fast_store)))) as (l & a & _ & _ & Hnp & _).
  - apply (chain_ok_ext Mainnet 0 far_date genesis first_update.2); [exact fast_headers|exact first_chain_ok].
  - exists first_hash. rewrite fast_headers. vm_decide.
  - apply or_else_Ok. vm_compute. reflexivity.
  - exact Hnp.
Defined.
End Prefix.
