(* ===== verification/Msg.v ===== *)
(** * Messages of the peer-to-peer protocol

    [p2p/src/msg.rs], and what it writes of [p2p/src/types.rs]: addresses,
    capabilities and reasons for a ban; [util/src/read_write.rs].  A stream is the bytes
    that will arrive on a socket and whether the other end closes it after them; what has
    been read is gone whether or not the call succeeds.  A string is its UTF-8 bytes. *)
From S2P Require Import Prelude Ser Global Pow Reward Retarget Feijoada Committed Transaction Block ChainStore Pipe.

(** ** Addresses *)
Inductive IpAddr : Type := IpV4 (octets : list Z) | IpV6 (segments : list Z).

(** [SocketAddrV6] has a flow label and a scope besides. *)
Inductive SocketAddr : Type :=
| SocketV4 (octets : list Z) (port : Z)
| SocketV6 (segments : list Z) (port flowinfo scope_id : Z).

#[export] Instance IpAddr_eq_dec : EqDecision IpAddr.
Proof. solve_decision. Defined.
#[export] Instance SocketAddr_eq_dec : EqDecision SocketAddr.
Proof. solve_decision. Defined.

Definition addr_ip (a : SocketAddr) : IpAddr :=
  match a with
  | SocketV4 ip _ => IpV4 ip
  | SocketV6 ip _ _ _ => IpV6 ip
  end.
Definition addr_port (a : SocketAddr) : Z :=
  match a with
  | SocketV4 _ p => p
  | SocketV6 _ p _ _ => p
  end.
Definition socket_new (ip : IpAddr) (port : Z) : SocketAddr :=
  match ip with
  | IpV4 ip => SocketV4 ip port
  | IpV6 ip => SocketV6 ip port 0 0
  end.

(** 127.0.0.0/8, and [::1]. *)
Definition is_loopback (ip : IpAddr) : bool :=
  match ip with
  | IpV4 octets => bool_decide (octets !! 0%nat = Some 127)
  | IpV6 segments => bool_decide (segments = [0; 0; 0; 0; 0; 0; 0; 1])
  end.

Record PeerAddr := mkPeerAddr { sock : SocketAddr }.
#[export] Instance PeerAddr_eq_dec : EqDecision PeerAddr.
Proof. solve_decision. Defined.

(** [PartialEq]: the port only matters on the loopback interface. *)
Definition peer_addr_eq (self other : PeerAddr) : bool :=
  if is_loopback (addr_ip (sock self)) then bool_decide (sock self = sock other)
  else bool_decide (addr_ip (sock self) = addr_ip (sock other)).

Definition from_ip (c : ChainTypes) (addr : IpAddr) : PeerAddr :=
  mkPeerAddr (socket_new addr (if decide (c = Floonet) then 13414 else 3414)).

Definition write_peer_addr (a : PeerAddr) : list Z :=
  match sock a with
  | SocketV4 ip port => write_u8 0 ++ ip ++ write_u16 port
  | SocketV6 ip port _ _ => write_u8 1 ++ concat (map write_u16 ip) ++ write_u16 port
  end.

(** A fixed number of reads, the first error stopping them ([try_iter_map_vec]). *)
Fixpoint read_n {A} (elt : read A) (n : nat) : read (list A) :=
  match n with
  | O => ret []
  | S n => a <- elt ;; l <- read_n elt n ;; ret (a :: l)
  end.

Definition read_peer_addr : read PeerAddr :=
  v4_or_v6 <- read_u8 ;;
  if v4_or_v6 =? 0 then
    ip <- read_fixed_bytes 4 ;; port <- read_u16 ;; ret (mkPeerAddr (SocketV4 ip port))
  else
    ip <- read_n read_u16 8 ;; port <- read_u16 ;; ret (mkPeerAddr (SocketV6 ip port 0 0)).

(** ** Capabilities, reasons for a ban *)
Definition UNKNOWN : Z := 0.
Definition HEADER_HIST : Z := 1.
Definition TXHASHSET_HIST : Z := 2.
Definition PEER_LIST : Z := 4.
Definition TX_KERNEL_HASH : Z := 8.
Definition FULL_NODE : Z := Z.lor (Z.lor HEADER_HIST TXHASHSET_HIST) (Z.lor PEER_LIST TX_KERNEL_HASH).

(** The bits that are flags; the others are dropped. *)
Definition from_bits_truncate (bits : Z) : Z := Z.land bits FULL_NODE.

Inductive ReasonForBan : Type :=
| NoReason | BadBlock | BadCompactBlock | BadBlockHeader | BadTxHashSet | ManualBan | FraudHeight | BadHandshake.
#[export] Instance ReasonForBan_eq_dec : EqDecision ReasonForBan.
Proof. solve_decision. Defined.

Definition reason_to_i32 (r : ReasonForBan) : Z :=
  match r with
  | NoReason => 0 | BadBlock => 1 | BadCompactBlock => 2 | BadBlockHeader => 3
  | BadTxHashSet => 4 | ManualBan => 5 | FraudHeight => 6 | BadHandshake => 7
  end.
Definition reason_from_i32 (x : Z) : option ReasonForBan :=
  match x with
  | 0 => Some NoReason | 1 => Some BadBlock | 2 => Some BadCompactBlock | 3 => Some BadBlockHeader
  | 4 => Some BadTxHashSet | 5 => Some ManualBan | 6 => Some FraudHeight | 7 => Some BadHandshake
  | _ => None
  end.

(** ** Limits *)
Definition MAX_BLOCK_HEADERS : Z := 512.
Definition MAX_PEER_ADDRS : Z := 256.
Definition MAX_LOCATORS : Z := 20.
Definition PROTOCOL_VERSION : Z := 1.
(** ["MW/Epic 1.0.0"], the version being that of the package. *)
Definition USER_AGENT : list Z := [77; 87; 47; 69; 112; 105; 99; 32; 49; 46; 48; 46; 48].

Inductive Type_ : Type :=
| T_Error | T_Hand | T_Shake | T_Ping | T_Pong | T_GetPeerAddrs | T_PeerAddrs | T_GetHeaders | T_Header | T_Headers
| T_GetBlock | T_Block | T_GetCompactBlock | T_CompactBlock | T_StemTransaction | T_Transaction
| T_TxHashSetRequest | T_TxHashSetArchive | T_BanReason | T_GetTransaction | T_TransactionKernel
| T_KernelDataRequest | T_KernelDataResponse.
#[export] Instance Type_eq_dec : EqDecision Type_.
Proof. solve_decision. Defined.

Definition type_list : list Type_ :=
  [T_Error; T_Hand; T_Shake; T_Ping; T_Pong; T_GetPeerAddrs; T_PeerAddrs; T_GetHeaders; T_Header; T_Headers;
   T_GetBlock; T_Block; T_GetCompactBlock; T_CompactBlock; T_StemTransaction; T_Transaction;
   T_TxHashSetRequest; T_TxHashSetArchive; T_BanReason; T_GetTransaction; T_TransactionKernel;
   T_KernelDataRequest; T_KernelDataResponse].

Definition type_to_u8 (t : Type_) : Z :=
  match t with
  | T_Error => 0 | T_Hand => 1 | T_Shake => 2 | T_Ping => 3 | T_Pong => 4 | T_GetPeerAddrs => 5 | T_PeerAddrs => 6
  | T_GetHeaders => 7 | T_Header => 8 | T_Headers => 9 | T_GetBlock => 10 | T_Block => 11 | T_GetCompactBlock => 12
  | T_CompactBlock => 13 | T_StemTransaction => 14 | T_Transaction => 15 | T_TxHashSetRequest => 16
  | T_TxHashSetArchive => 17 | T_BanReason => 18 | T_GetTransaction => 19 | T_TransactionKernel => 20
  | T_KernelDataRequest => 21 | T_KernelDataResponse => 22
  end.
Definition type_from_u8 (t : Z) : option Type_ :=
  if (0 <=? t) && (t <? 23) then type_list !! Z.to_nat t else None.

Section Msg.
Context (c : ChainTypes) (min_date max_date : Z).

Definition max_block_size : Z := max_block_weight c / BLOCK_OUTPUT_WEIGHT * 708.
Definition default_max_msg_size : Z := max_block_size.

Definition max_msg_size (msg_type : Type_) : Z :=
  match msg_type with
  | T_Error => 0
  | T_Hand => 128
  | T_Shake => 88
  | T_Ping => 16
  | T_Pong => 16
  | T_GetPeerAddrs => 4
  | T_PeerAddrs => 4 + (1 + 16 + 2) * MAX_PEER_ADDRS
  | T_GetHeaders => 1 + 32 * MAX_LOCATORS
  | T_Header => 365
  | T_Headers => 2 + 365 * MAX_BLOCK_HEADERS
  | T_GetBlock => 32
  | T_Block => max_block_size
  | T_GetCompactBlock => 32
  | T_CompactBlock => max_block_size / 10
  | T_StemTransaction => max_block_size
  | T_Transaction => max_block_size
  | T_TxHashSetRequest => 40
  | T_TxHashSetArchive => 64
  | T_BanReason => 64
  | T_GetTransaction => 32
  | T_TransactionKernel => 32
  | T_KernelDataRequest => 0
  | T_KernelDataResponse => 8
  end.

Definition magic : Z * Z :=
  match c with
  | Floonet => (83, 59)
  | Mainnet => (97, 61)
  | _ => (73, 43)
  end.

(** ** Headers of messages *)
Record MsgHeader := mkMsgHeader { h_magic : Z * Z; msg_type : Type_; msg_len : Z }.
Inductive MsgHeaderWrapper : Type := Known (h : MsgHeader) | Unknown (len : Z).

Definition MsgHeader_LEN : nat := 2 + 1 + 8.
Definition msg_header_new (t : Type_) (len : Z) : MsgHeader := mkMsgHeader magic t len.

Definition write_msg_header (h : MsgHeader) : list Z :=
  write_u8 (fst (h_magic h)) ++ write_u8 (snd (h_magic h)) ++ write_u8 (type_to_u8 (msg_type h)) ++ write_u64 (msg_len h).

Definition read_msg_header : read MsgHeaderWrapper :=
  _ <- expect_u8 (fst magic) ;;
  _ <- expect_u8 (snd magic) ;;
  t <- read_u8 ;; len <- read_u64 ;;
  match type_from_u8 t with
  | Some ty =>
      let max_len := max_msg_size ty *! 4 in
      if len >? max_len then fail TooLargeReadErr else ret (Known (mkMsgHeader magic ty len))
  | None =>
      let max_len := default_max_msg_size *! 4 in
      if len >? max_len then fail TooLargeReadErr else ret (Unknown len)
  end.

(** ** Bodies *)
Record Hand := mkHand {
  hand_version : Z; hand_capabilities : Z; hand_nonce : Z; hand_genesis : Hash;
  hand_difficulty : Difficulty; sender_addr : PeerAddr; receiver_addr : PeerAddr; hand_user_agent : list Z }.

Definition write_hand (h : Hand) : list Z :=
  write_u32 (hand_version h) ++ write_u32 (hand_capabilities h) ++ write_u64 (hand_nonce h)
  ++ write_difficulty (hand_difficulty h) ++ write_peer_addr (sender_addr h) ++ write_peer_addr (receiver_addr h)
  ++ write_bytes (hand_user_agent h) ++ write_array (hand_genesis h).

(** [String::from_utf8]. *)
Definition utf8 (bs : list Z) : read (list Z) := if from_utf8 bs then ret bs else fail CorruptedData.

Definition read_hand : read Hand :=
  version <- read_u32 ;; capab <- read_u32 ;; nonce <- read_u64 ;;
  let capabilities := from_bits_truncate capab in
  diff <- read_difficulty ;; sender <- read_peer_addr ;; receiver <- read_peer_addr ;;
  ua <- read_bytes_len_prefix ;; user_agent <- utf8 ua ;; genesis <- read_hash ;;
  ret (mkHand version capabilities nonce genesis diff sender receiver user_agent).

Record Shake := mkShake {
  shake_version : Z; shake_capabilities : Z; shake_genesis : Hash; shake_difficulty : Difficulty; shake_user_agent : list Z }.

Definition write_shake (s : Shake) : list Z :=
  write_u32 (shake_version s) ++ write_u32 (shake_capabilities s) ++ write_difficulty (shake_difficulty s)
  ++ write_bytes (shake_user_agent s) ++ write_array (shake_genesis s).

Definition read_shake : read Shake :=
  version <- read_u32 ;; capab <- read_u32 ;;
  let capabilities := from_bits_truncate capab in
  diff <- read_difficulty ;; ua <- read_bytes_len_prefix ;; user_agent <- utf8 ua ;; genesis <- read_hash ;;
  ret (mkShake version capabilities genesis diff user_agent).

Record GetPeerAddrs := mkGetPeerAddrs { gpa_capabilities : Z }.
Definition write_get_peer_addrs (g : GetPeerAddrs) : list Z := write_u32 (gpa_capabilities g).
Definition read_get_peer_addrs : read GetPeerAddrs :=
  capab <- read_u32 ;; ret (mkGetPeerAddrs (from_bits_truncate capab)).

Record PeerAddrs := mkPeerAddrs { pa_peers : list PeerAddr }.
Definition write_peer_addrs (p : PeerAddrs) : list Z :=
  write_u32 (Z.of_nat (length (pa_peers p))) ++ concat (map write_peer_addr (pa_peers p)).
Definition read_peer_addrs : read PeerAddrs :=
  peer_count <- read_u32 ;;
  if peer_count >? MAX_PEER_ADDRS then fail TooLargeReadErr
  else if peer_count =? 0 then ret (mkPeerAddrs [])
  else peers <- read_n read_peer_addr (Z.to_nat peer_count) ;; ret (mkPeerAddrs peers).

Record PeerError := mkPeerError { code : Z; err_message : list Z }.
Definition write_peer_error (e : PeerError) : list Z := write_u32 (code e) ++ write_bytes (err_message e).
Definition read_peer_error : read PeerError :=
  code <- read_u32 ;; msg <- read_bytes_len_prefix ;; message <- utf8 msg ;; ret (mkPeerError code message).

Record Locator := mkLocator { hashes : list Hash }.
Definition write_locator (l : Locator) : list Z :=
  write_u8 (Z.of_nat (length (hashes l))) ++ concat (map write_array (hashes l)).
Definition read_locator : read Locator :=
  len <- read_u8 ;;
  if len >? MAX_LOCATORS then fail TooLargeReadErr
  else hs <- read_n read_hash (Z.to_nat len) ;; ret (mkLocator hs).

Record Headers := mkHeaders { headers : list BlockHeader }.

(** Every header in turn; a proof that does not serialize is an error. *)
Fixpoint write_all_headers (l : list BlockHeader) : outcome ser_error (list Z) :=
  match l with
  | [] => Ok []
  | h :: l => let? a := write_header c Full h in let? rest := write_all_headers l in Ok (a ++ rest)
  end.
Definition write_headers (h : Headers) : outcome ser_error (list Z) :=
  let? hs := write_all_headers (headers h) in Ok (write_u16 (Z.of_nat (length (headers h))) ++ hs).

(** [Ping] and [Pong] have the same fields and the same encoding. *)
Record Ping := mkPing { ping_difficulty : Difficulty; ping_height : Z; ping_timestamp : Z }.
Definition write_ping (p : Ping) : list Z :=
  write_difficulty (ping_difficulty p) ++ write_u64 (ping_height p) ++ write_i64 (ping_timestamp p).
Definition read_ping : read Ping :=
  diff <- read_difficulty ;; height <- read_u64 ;; ts <- read_i64 ;; ret (mkPing diff height ts).

Record BanReason := mkBanReason { ban_reason : ReasonForBan }.
Definition write_ban_reason (b : BanReason) : list Z := write_i32 (reason_to_i32 (ban_reason b)).

(** A body too short for the number reads as reason 0. *)
Definition read_or_zero (m : read Z) : read Z := fun r =>
  match m r with
  | Ok x => Ok x
  | Err _ => Ok (0, r)
  | Panic => Panic
  end.
Definition read_ban_reason : read BanReason :=
  x <- read_or_zero read_i32 ;;
  match reason_from_i32 x with
  | Some r => ret (mkBanReason r)
  | None => fail CorruptedData
  end.

Record TxHashSetRequest := mkTxHashSetRequest { req_hash : Hash; req_height : Z }.
Definition write_txhashset_request (t : TxHashSetRequest) : list Z := write_array (req_hash t) ++ write_u64 (req_height t).
Definition read_txhashset_request : read TxHashSetRequest :=
  hash <- read_hash ;; height <- read_u64 ;; ret (mkTxHashSetRequest hash height).

Record TxHashSetArchive := mkTxHashSetArchive { arch_hash : Hash; arch_height : Z; arch_bytes : Z }.
Definition write_txhashset_archive (t : TxHashSetArchive) : list Z :=
  write_array (arch_hash t) ++ write_u64 (arch_height t) ++ write_u64 (arch_bytes t).
Definition read_txhashset_archive : read TxHashSetArchive :=
  hash <- read_hash ;; height <- read_u64 ;; bytes <- read_u64 ;; ret (mkTxHashSetArchive hash height bytes).

Record KernelDataResponse := mkKernelDataResponse { kd_bytes : Z }.
Definition write_kernel_data_request : list Z := [].
Definition write_kernel_data_response (k : KernelDataResponse) : list Z := write_u64 (kd_bytes k).
Definition read_kernel_data_response : read KernelDataResponse :=
  bytes <- read_u64 ;; ret (mkKernelDataResponse bytes).

(** ** Streams *)
Inductive io_kind : Type := WouldBlock | ConnectionAborted | TimedOut.

Inductive p2p_error : Type :=
| Serialization (e : ser_error)
| Connection (k : io_kind)
| BadMessage
| MsgLen
| Banned
| ConnectionClose
| Timeout
| P2PStore (e : store_error)
| P2PChain (e : chain_error)
| PeerWithSelf
| NoDandelionRelay
| GenesisMismatch (us peer : Hash)
| Send
| PeerException
| Internal.

Record stream := mkStream { arriving : list Z; closes : bool }.

(** [read_exact] of [util]: an empty buffer reads zero bytes, which is taken for the end
    of the stream; without [block_on_empty] an idle stream is not waited for. *)
Definition read_exact (n : nat) (block_on_empty : bool) : trans stream p2p_error (list Z) := fun s =>
  if (n =? 0)%nat then (Err (Connection ConnectionAborted), s)
  else if (n <=? length (arriving s))%nat then (Ok (take n (arriving s)), mkStream (drop n (arriving s)) (closes s))
  else
    (Err (Connection (if closes s then ConnectionAborted
                      else match arriving s with
                           | [] => if block_on_empty then TimedOut else WouldBlock
                           | _ => TimedOut
                           end)),
     mkStream [] (closes s)).

Definition lift_ser {S A} (m : outcome ser_error A) : trans S p2p_error A := tread (fun _ => map_err Serialization m).

(** Only the first message of a connection is waited for. *)
Definition read_stream_header (expected : option Type_) : trans stream p2p_error MsgHeaderWrapper :=
  let! head := read_exact MsgHeader_LEN (bool_decide (expected = Some T_Hand)) in
  lift_ser (deserialize read_msg_header head).

(** One item from the stream, with the bytes it took.  After an error the connection is
    closed, so that what is left of the stream does not matter. *)
Definition read_item {A} (elt : read A) : trans stream p2p_error (A * Z) := fun s =>
  match elt (mkReader StreamingReader (arriving s) 0) with
  | Ok (a, r) => (Ok (a, total_bytes_read r), mkStream (source r) (closes s))
  | Err e => (Err (Serialization e), s)
  | Panic => (Panic, s)
  end.

Definition read_message_body {A} (elt : read A) (h : MsgHeader) : trans stream p2p_error A :=
  let! body := read_exact (Z.to_nat (msg_len h)) true in lift_ser (deserialize elt body).

Definition read_discard (len : Z) : trans stream p2p_error () :=
  do! read_exact (Z.to_nat len) true then tret tt.

Definition read_message {A} (elt : read A) (t : Type_) : trans stream p2p_error A :=
  let! w := read_stream_header (Some t) in
  match w with
  | Known h => if decide (msg_type h = t) then read_message_body elt h else tfail BadMessage
  | Unknown len => do! read_discard len then tfail BadMessage
  end.

(** The bytes of a message: its header, then its body. *)
Definition write_to_buf (body : outcome ser_error (list Z)) (t : Type_) : outcome p2p_error (list Z) :=
  let? body_buf := map_err Serialization body in
  Ok (write_msg_header (msg_header_new t (Z.of_nat (length body_buf))) ++ body_buf).

End Msg.
