(* ===== verification/MsgTheory.v ===== *)
(** * Messages: what is sent is what is received

    A well-formed message survives the wire: the bytes [write_to_buf] gives are accepted
    by [read_message], whose limit on the length of a body they respect, and nothing of
    what follows on the stream is consumed.  What is decoded from any bytes whatever is
    well typed. *)
From S2P Require Import Prelude Ser Global Pow Reward Feijoada Committed Transaction CutThrough Block BlockTheory ChainStore Pipe Msg.

(** ** The in-memory reader

    The streaming reader counts a length prefix twice, so that strings only survive the
    in-memory one, which is the one that decodes a body. *)
Definition bin_reads {A} (m : read A) (bs : list Z) (a : A) : Prop :=
  forall rest total, is_u64 total -> m (mkReader BinReader (bs ++ rest) total) = Ok (a, mkReader BinReader rest total).

Lemma reads_bin {A} (m : read A) bs a : reads m bs a -> bin_reads m bs a.
Proof. intros Hm rest total Ht. by rewrite (Hm BinReader). Qed.

Lemma bin_reads_ret {A} (a : A) : bin_reads (ret a) [] a.
Proof. by intros rest total Ht. Qed.

Lemma bin_reads_bind {A B} (m : read A) (f : A -> read B) b1 b2 a x :
  bin_reads m b1 a -> bin_reads (f a) b2 x -> bin_reads (rbind m f) (b1 ++ b2) x.
Proof. intros Hm Hf rest total Ht. unfold rbind. rewrite <- app_assoc, Hm by done. cbn [bind]. by rewrite Hf. Qed.

Lemma bin_reads_map {A B} (m : read A) (f : A -> B) bs a :
  bin_reads m bs a -> bin_reads (x <- m ;; ret (f x)) bs (f a).
Proof. intros Hm. rewrite <- (app_nil_r bs). eapply bin_reads_bind; [done|apply bin_reads_ret]. Qed.

Lemma bin_reads_deserialize {A} (m : read A) bs a : bin_reads m bs a -> deserialize m bs = Ok a.
Proof.
  intros Hm. unfold deserialize. rewrite <- (app_nil_r bs). by rewrite Hm by (unfold is_u64; lia).
Qed.

Lemma bin_reads_len_prefix bs :
  Z.of_nat (length bs) <= 100000 -> bin_reads read_bytes_len_prefix (write_bytes bs) bs.
Proof.
  intros Hl. unfold write_bytes, read_bytes_len_prefix. intros rest total Ht. cbn [kind].
  apply (bin_reads_bind read_u64 (fun len => read_fixed_bytes (Z.to_nat len)) _ _ (Z.of_nat (length bs))); [| |done].
  - apply reads_bin, (reads_uint 8). change (2 ^ (8 * Z.of_nat 8)) with (2 ^ 64). lia.
  - rewrite Nat2Z.id. by apply reads_bin, reads_fixed.
Qed.

(** Checking the encoding reads nothing. *)
Lemma bin_reads_utf8 {B} (f : list Z -> read B) s bs x :
  from_utf8 s = true -> bin_reads (f s) bs x -> bin_reads (rbind (utf8 s) f) bs x.
Proof. intros Hs Hf rest total Ht. unfold rbind, utf8. rewrite Hs. cbn [ret bind]. by apply Hf. Qed.

(** ** Fields *)
Definition u16_ok (x : Z) : Prop := 0 <= x < 2 ^ 16.
Definition u32_ok (x : Z) : Prop := 0 <= x < 2 ^ 32.
#[export] Instance u16_ok_dec x : Decision (u16_ok x).
Proof. unfold u16_ok. apply _. Defined.
#[export] Instance u32_ok_dec x : Decision (u32_ok x).
Proof. unfold u32_ok. apply _. Defined.

(** The flow label and the scope of an address are not sent. *)
Definition addr_ok (a : PeerAddr) : Prop :=
  match sock a with
  | SocketV4 ip port => array_ok 4 ip /\ u16_ok port
  | SocketV6 ip port flowinfo scope_id => length ip = 8%nat /\ Forall u16_ok ip /\ u16_ok port /\ flowinfo = 0 /\ scope_id = 0
  end.
#[export] Instance addr_ok_dec a : Decision (addr_ok a).
Proof. unfold addr_ok. destruct (sock a); apply _. Defined.

Definition caps_ok (x : Z) : Prop := 0 <= x < 16.
#[export] Instance caps_ok_dec x : Decision (caps_ok x).
Proof. unfold caps_ok. apply _. Defined.

Lemma from_bits_truncate_ok x : caps_ok (from_bits_truncate x).
Proof.
  unfold from_bits_truncate, caps_ok. change FULL_NODE with (Z.ones 4). rewrite Z.land_ones by lia.
  apply Z.mod_pos_bound. lia.
Qed.

Lemma from_bits_truncate_id x : caps_ok x -> from_bits_truncate x = x.
Proof.
  unfold from_bits_truncate, caps_ok. change FULL_NODE with (Z.ones 4). intros. rewrite Z.land_ones by lia.
  apply Z.mod_small. lia.
Qed.

Lemma caps_u32 x : caps_ok x -> 0 <= x < 2 ^ (8 * Z.of_nat 4).
Proof. unfold caps_ok. change (2 ^ (8 * Z.of_nat 4)) with 4294967296. lia. Qed.

Lemma reads_n {A} (elt : read A) (wr : A -> list Z) l :
  (forall a, a ∈ l -> reads elt (wr a) a) -> reads (read_n elt (length l)) (concat (map wr l)) l.
Proof.
  induction l as [|a l IH]; intros Hl; cbn [length read_n map concat]; [apply reads_ret|].
  eapply reads_bind; [apply Hl; by left|]. apply (reads_map _ (fun l => a :: l)), IH.
  intros x Hx. apply Hl. by right.
Qed.

Lemma reads_peer_addr a : addr_ok a -> reads read_peer_addr (write_peer_addr a) a.
Proof.
  destruct a as [[ip port|ip port f s]]; unfold addr_ok, write_peer_addr, read_peer_addr; cbn [sock].
  - intros [[Hl Hb] Hp]. eapply reads_bind; [by apply (reads_uint 1)|]. cbv beta. rewrite Z.eqb_refl.
    eapply reads_bind; [by apply reads_fixed|].
    apply (reads_map _ (fun port => mkPeerAddr (SocketV4 ip port))). by apply (reads_uint 2).
  - intros (Hl & Hs & Hp & -> & ->). eapply reads_bind; [by apply (reads_uint 1)|]. cbv beta.
    change (1 =? 0) with false. cbv iota. rewrite <- Hl at 1. eapply reads_bind.
    + apply (reads_n read_u16 write_u16). intros x Hx. rewrite Forall_forall in Hs. by apply (reads_uint 2), Hs.
    + apply (reads_map _ (fun port => mkPeerAddr (SocketV6 ip port 0 0))). by apply (reads_uint 2).
Qed.

(** ** Bodies *)
Definition string_ok (max : Z) (s : list Z) : Prop := from_utf8 s = true /\ Z.of_nat (length s) <= max.
#[export] Instance string_ok_dec max s : Decision (string_ok max s).
Proof. unfold string_ok. apply _. Defined.

(** The longest user agents for which a greeting stays within its limit. *)
Definition hand_ok (h : Hand) : Prop :=
  u32_ok (hand_version h) /\ caps_ok (hand_capabilities h) /\ is_u64 (hand_nonce h) /\ difficulty_ok (hand_difficulty h)
  /\ addr_ok (sender_addr h) /\ addr_ok (receiver_addr h) /\ string_ok 374 (hand_user_agent h).
Definition shake_ok (s : Shake) : Prop :=
  u32_ok (shake_version s) /\ caps_ok (shake_capabilities s) /\ difficulty_ok (shake_difficulty s)
  /\ string_ok 260 (shake_user_agent s).
Definition peer_addrs_ok (p : PeerAddrs) : Prop :=
  Z.of_nat (length (pa_peers p)) <= MAX_PEER_ADDRS /\ Forall addr_ok (pa_peers p).
Definition locator_ok (l : Locator) : Prop := Z.of_nat (length (hashes l)) <= MAX_LOCATORS.
Definition ping_ok (p : Ping) : Prop :=
  difficulty_ok (ping_difficulty p) /\ is_u64 (ping_height p) /\ is_i64 (ping_timestamp p).

Lemma bin_reads_hand h : hand_ok h -> bin_reads read_hand (write_hand h) h.
Proof.
  destruct h as [v cp n g d s r ua]. intros (Hv & Hc & Hn & Hd & Hs & Hr & Hu & Hl). unfold write_hand, read_hand.
  cbn [hand_version hand_capabilities hand_nonce hand_genesis hand_difficulty sender_addr receiver_addr hand_user_agent] in *.
  eapply bin_reads_bind; [by apply reads_bin, (reads_uint 4)|].
  eapply bin_reads_bind; [by apply reads_bin, (reads_uint 4), caps_u32|].
  eapply bin_reads_bind; [by apply reads_bin, (reads_uint 8)|]. cbv beta zeta. rewrite from_bits_truncate_id by done.
  eapply bin_reads_bind; [by apply reads_bin, reads_difficulty|].
  do 2 (eapply bin_reads_bind; [by apply reads_bin, reads_peer_addr|]).
  eapply bin_reads_bind; [apply bin_reads_len_prefix; lia|]. apply bin_reads_utf8; [done|].
  by apply (bin_reads_map _ (fun g => mkHand v cp n g d s r ua)), reads_bin, reads_array.
Qed.

Lemma bin_reads_shake s : shake_ok s -> bin_reads read_shake (write_shake s) s.
Proof.
  destruct s as [v cp g d ua]. intros (Hv & Hc & Hd & Hu & Hl). unfold write_shake, read_shake.
  cbn [shake_version shake_capabilities shake_genesis shake_difficulty shake_user_agent] in *.
  eapply bin_reads_bind; [by apply reads_bin, (reads_uint 4)|].
  eapply bin_reads_bind; [by apply reads_bin, (reads_uint 4), caps_u32|]. cbv beta zeta. rewrite from_bits_truncate_id by done.
  eapply bin_reads_bind; [by apply reads_bin, reads_difficulty|].
  eapply bin_reads_bind; [apply bin_reads_len_prefix; lia|]. apply bin_reads_utf8; [done|].
  by apply (bin_reads_map _ (fun g => mkShake v cp g d ua)), reads_bin, reads_array.
Qed.

Lemma reads_get_peer_addrs g :
  caps_ok (gpa_capabilities g) -> reads read_get_peer_addrs (write_get_peer_addrs g) g.
Proof.
  destruct g as [x]. intros Hx. cbn [gpa_capabilities] in Hx. rewrite <- (from_bits_truncate_id x Hx) at 2.
  apply (reads_map _ (fun x => mkGetPeerAddrs (from_bits_truncate x))). by apply (reads_uint 4), caps_u32.
Qed.

Lemma reads_peer_addrs p : peer_addrs_ok p -> reads read_peer_addrs (write_peer_addrs p) p.
Proof.
  destruct p as [l]. unfold peer_addrs_ok, write_peer_addrs, read_peer_addrs, MAX_PEER_ADDRS. cbn [pa_peers]. intros [Hl Ha].
  rewrite Forall_forall in Ha.
  eapply reads_bind; [apply (reads_uint 4); change (2 ^ (8 * Z.of_nat 4)) with 4294967296; lia|]. cbv beta.
  rewrite Z.gtb_ltb. destruct (Z.ltb_spec 256 (Z.of_nat (length l))); [lia|].
  destruct (Z.eqb_spec (Z.of_nat (length l)) 0) as [E|E].
  - assert (l = []) as -> by (by apply length_zero_iff_nil; lia). apply reads_ret.
  - rewrite Nat2Z.id. apply reads_map, reads_n. intros a Hin. by apply reads_peer_addr, Ha.
Qed.

Lemma reads_locator l : locator_ok l -> reads read_locator (write_locator l) l.
Proof.
  destruct l as [l]. unfold locator_ok, write_locator, read_locator, MAX_LOCATORS. cbn [hashes]. intros Hl.
  eapply reads_bind; [apply (reads_uint 1); change (2 ^ (8 * Z.of_nat 1)) with 256; lia|]. cbv beta.
  rewrite Z.gtb_ltb. destruct (Z.ltb_spec 20 (Z.of_nat (length l))); [lia|].
  rewrite Nat2Z.id. apply reads_map, reads_n. intros a _. by apply reads_array.
Qed.

Lemma reads_ping p : ping_ok p -> reads read_ping (write_ping p) p.
Proof.
  destruct p as [d h t]. intros (Hd & Hh & Ht). unfold write_ping, read_ping.
  cbn [ping_difficulty ping_height ping_timestamp] in *.
  eapply reads_bind; [by apply reads_difficulty|]. eapply reads_bind; [by apply (reads_uint 8)|].
  apply (reads_map _ (fun t => mkPing d h t)). by apply reads_i64.
Qed.

Lemma reads_ban_reason b : reads read_ban_reason (write_ban_reason b) b.
Proof.
  destruct b as [b]. unfold write_ban_reason, read_ban_reason. cbn [ban_reason].
  rewrite <- (app_nil_r (write_i32 _)). apply (reads_bind _ _ _ _ (reason_to_i32 b)).
  - intros k rest total Ht. unfold read_or_zero.
    rewrite (reads_map (read_uint 4) (fun x => (x + 2 ^ 31) mod 2 ^ 32 - 2 ^ 31) _ _ (reads_uint_mod 4 (reason_to_i32 b))) by done.
    by destruct b.
  - destruct b; apply reads_ret.
Qed.

Lemma reads_txhashset_request t :
  is_u64 (req_height t) -> reads read_txhashset_request (write_txhashset_request t) t.
Proof.
  destruct t as [h n]. intros Hn. eapply reads_bind; [by apply reads_array|].
  apply (reads_map _ (fun n => mkTxHashSetRequest h n)). by apply (reads_uint 8).
Qed.

Lemma reads_txhashset_archive t :
  is_u64 (arch_height t) -> is_u64 (arch_bytes t) -> reads read_txhashset_archive (write_txhashset_archive t) t.
Proof.
  destruct t as [h n b]. intros Hn Hb. eapply reads_bind; [by apply reads_array|].
  eapply reads_bind; [by apply (reads_uint 8)|]. apply (reads_map _ (fun b => mkTxHashSetArchive h n b)). by apply (reads_uint 8).
Qed.

Lemma reads_kernel_data_response k : is_u64 (kd_bytes k) -> reads read_kernel_data_response (write_kernel_data_response k) k.
Proof. destruct k as [b]. intros Hb. apply (reads_map _ mkKernelDataResponse). by apply (reads_uint 8). Qed.

(** ** Lengths *)
Lemma Ok_eq {E A} (a b : A) : @Ok E A a = Ok b -> a = b.
Proof. congruence. Qed.

Lemma length_array {n} (a : array n) : length (write_array a) = n.
Proof. by destruct (array_bytes_ok a). Qed.

Lemma length_concat_le {A} (wr : A -> list Z) n l :
  (forall a, a ∈ l -> Z.of_nat (length (wr a)) <= n) -> Z.of_nat (length (concat (map wr l))) <= n * Z.of_nat (length l).
Proof.
  induction l as [|a l IH]; intros Hl; cbn [map concat length]; [lia|].
  rewrite length_app. pose proof (Hl a ltac:(by left)). specialize (IH ltac:(intros; apply Hl; by right)). lia.
Qed.

Ltac lengths :=
  unfold write_u8, write_u16, write_u32, write_u64, write_i32, write_i64;
  rewrite ?length_app, ?length_be_bytes, ?length_array, ?Nat2Z.inj_add.

Lemma length_num_entries {V} (wr : PoWType * V -> list Z) n l k :
  (forall e, Z.of_nat (length (wr e)) = n) -> 0 <= n -> length l = k -> (k <= 4)%nat ->
  Z.of_nat (length (concat (map wr l))) <= n * 4.
Proof. intros Hw Hn <- Hk. pose proof (length_concat_le wr n l ltac:(intros; by rewrite Hw)). nia. Qed.

Lemma length_difficulty d : Z.of_nat (length (write_difficulty d)) <= 44.
Proof.
  unfold write_difficulty. lengths.
  pose proof (length_num_entries write_entry 9 (diff_vec d) (size (num d))) as Hl.
  specialize (Hl ltac:(intros e; unfold write_entry; by lengths) ltac:(lia)
    ltac:(by rewrite (Permutation_length (diff_vec_perm d)), length_map_to_list) (difficulty_entries d)). lia.
Qed.

Lemma length_policy p : Z.of_nat (length (write_policy p)) <= 28.
Proof.
  unfold write_policy. lengths.
  pose proof (diff_vec_perm (mkDifficulty p)) as Hperm. unfold diff_vec in Hperm. cbn [num] in Hperm.
  pose proof (length_num_entries write_policy_entry 5 (merge_sort entry_le (map_to_list p)) (size p)) as Hl.
  specialize (Hl ltac:(intros e; unfold write_policy_entry; by lengths) ltac:(lia)
    ltac:(by rewrite (Permutation_length Hperm), length_map_to_list) (difficulty_entries (mkDifficulty p))). lia.
Qed.

Lemma length_peer_addr a : addr_ok a -> Z.of_nat (length (write_peer_addr a)) <= 19.
Proof.
  unfold addr_ok, write_peer_addr. destruct (sock a) as [ip port|ip port f s].
  - intros [[Hl _] _]. lengths. lia.
  - intros (Hl & _).
    pose proof (length_concat_le write_u16 2 ip ltac:(intros; unfold write_u16; by rewrite length_be_bytes)) as Hc.
    unfold write_u16 in Hc. lengths. lia.
Qed.

Lemma length_proof c p bs : proof_ok c p -> write_proof c Full p = Ok bs -> Z.of_nat (length bs) <= 338.
Proof.
  destruct p as [e nonces| |h|h]; [|done| |]; cbn [write_proof proof_ok].
  - intros (He & Hlen & _). rewrite <- Hlen, Nat2Z.id. set (nb := Z.to_nat e).
    destruct (write_packed nb nonces) as [-> [Hsz _]]; [lia|]. cbn [bind]. intros [= <-].
    cbn [length]. rewrite Hsz.
    pose proof (bytes_len_bound (nb * length nonces)).
    assert (Z.of_nat (length nonces) <= 42) by (rewrite Hlen; destruct c; vm_compute; congruence). nia.
  - intros _ [= <-]. cbn [length]. rewrite length_array. lia.
  - intros _ [= <-]. cbn [length]. rewrite length_array. lia.
Qed.

Lemma length_header c h bs :
  proof_ok c (Pow.proof (pow h)) -> write_header c Full h = Ok bs -> Z.of_nat (length bs) <= 681.
Proof.
  intros Hp He. unfold write_header in He. apply bind_Ok_inv in He as (pw & Hw & He). apply Ok_eq in He as <-.
  unfold write_pow in Hw. apply bind_Ok_inv in Hw as (pr & Hw & He). apply Ok_eq in He as <-.
  unfold header_write_pre_pow, write_pre_pow. lengths. pose proof (length_difficulty (total_difficulty (pow h))). pose proof (length_policy (bottles h)).
  pose proof (length_proof c _ _ Hp ltac:(eassumption)). lia.
Qed.

Lemma header_ok_proof c min_date max_date h : header_ok c min_date max_date h -> proof_ok c (Pow.proof (pow h)).
Proof. unfold header_ok, pow_ok. tauto. Qed.

Section Bodies.
Context `{Hasher} `{Secp}.
Hypothesis single_bullet_proof : MAX_PROOF_SIZE = 675%nat.

Lemma length_output o : output_ok o -> Z.of_nat (length (write_output Full o)) <= 717.
Proof.
  intros [Hl Hn]. unfold write_output, write_output_features, write_range_proof, write_bytes. lengths.
  rewrite length_take. lia.
Qed.

Lemma length_body c b : body_ok c b -> Z.of_nat (length (write_body Full b)) <= 24 + 38 * max_block_weight c.
Proof.
  intros (Ho & Hk & Hw & _). destruct (body_counts c b Hw) as (Li & Lo & Lk). unfold write_body. lengths.
  rewrite Forall_forall in Ho.
  pose proof (length_concat_le write_input 34 (inputs b)
    ltac:(intros; unfold write_input, write_output_features; lengths; lia)) as Hi.
  pose proof (length_concat_le (write_output Full) 717 (outputs b) ltac:(intros; by apply length_output, Ho)) as Hou.
  pose proof (length_concat_le write_kernel 114 (kernels b)
    ltac:(intros; unfold write_kernel, write_kernel_features; lengths; lia)) as Hke.
  unfold body_weight_as_block, weight_as_block, sat_add, sat_mul, len, u64_max,
    BLOCK_INPUT_WEIGHT, BLOCK_OUTPUT_WEIGHT, BLOCK_KERNEL_WEIGHT in *. lia.
Qed.
End Bodies.

(** A body of the largest weight, its header included, stays well within the limit. *)
Lemma block_limit c : 32 + 681 + 24 + 38 * max_block_weight c <= max_block_size c * 4.
Proof. destruct c; vm_compute; congruence. Qed.

(** ** One message *)
Lemma type_from_to t : type_from_u8 (type_to_u8 t) = Some t.
Proof. by destruct t. Qed.

Lemma reads_expect b : 0 <= b < 256 -> reads (expect_u8 b) (write_u8 b) b.
Proof.
  intros Hb. unfold expect_u8. rewrite <- (app_nil_r (write_u8 b)). eapply reads_bind; [by apply (reads_uint 1)|].
  cbv beta. rewrite Z.eqb_refl. apply reads_ret.
Qed.

Lemma max_msg_size_u64 c t : 0 <= max_msg_size c t * 4 < 2 ^ 32.
Proof. by destruct t, c. Qed.

Lemma reads_msg_header c t n :
  0 <= n <= max_msg_size c t * 4 ->
  reads (read_msg_header c) (write_msg_header (msg_header_new c t n)) (Known (msg_header_new c t n)).
Proof.
  intros Hn. pose proof (max_msg_size_u64 c t) as Hm. unfold write_msg_header, read_msg_header, msg_header_new.
  cbn [h_magic msg_type msg_len].
  eapply reads_bind; [apply reads_expect; by destruct c|]. eapply reads_bind; [apply reads_expect; by destruct c|].
  eapply reads_bind; [apply (reads_uint 1); by destruct t|]. cbv beta.
  rewrite <- (app_nil_r (write_u64 n)).
  eapply reads_bind; [apply (reads_uint 8); change (2 ^ (8 * Z.of_nat 8)) with (2 ^ 64); lia|]. cbv beta.
  rewrite type_from_to, u64_mul_small by (unfold is_u64; lia). rewrite Z.gtb_ltb.
  destruct (Z.ltb_spec (max_msg_size c t * 4) n); [lia|]. apply reads_ret.
Qed.

Lemma length_msg_header c t n : length (write_msg_header (msg_header_new c t n)) = MsgHeader_LEN.
Proof. unfold write_msg_header. by lengths. Qed.

Lemma read_exact_app bs rest x block :
  bs <> [] -> read_exact (length bs) block (mkStream (bs ++ rest) x) = (Ok bs, mkStream rest x).
Proof.
  intros Hn. unfold read_exact. cbn [arriving closes].
  destruct (Nat.eqb_spec (length bs) 0) as [E|E]; [by apply length_zero_iff_nil in E|].
  rewrite length_app. destruct (Nat.leb_spec (length bs) (length bs + length rest)); [|lia].
  by rewrite take_app_length, drop_app_length.
Qed.

Lemma read_stream_header_ok c t n e rest x :
  0 <= n <= max_msg_size c t * 4 ->
  read_stream_header c e (mkStream (write_msg_header (msg_header_new c t n) ++ rest) x)
  = (Ok (Known (msg_header_new c t n)), mkStream rest x).
Proof.
  intros Hn. unfold read_stream_header, tbind. rewrite <- (length_msg_header c t n).
  rewrite read_exact_app by done. unfold lift_ser, tread.
  rewrite <- (app_nil_r (write_msg_header _)). by rewrite (reads_deserialize _ _ _ _ (reads_msg_header c t n Hn)).
Qed.

Lemma read_body_ok {A} c (elt : read A) t body a rest x :
  bin_reads elt body a -> body <> [] ->
  read_message_body elt (msg_header_new c t (Z.of_nat (length body))) (mkStream (body ++ rest) x) = (Ok a, mkStream rest x).
Proof.
  intros Hr Hn. unfold read_message_body, msg_header_new, tbind. cbn [msg_len]. rewrite Nat2Z.id, read_exact_app by done.
  unfold lift_ser, tread. by rewrite (bin_reads_deserialize _ _ _ Hr).
Qed.

Lemma read_message_ok {A} c (elt : read A) t body a rest x :
  bin_reads elt body a -> body <> [] -> Z.of_nat (length body) <= max_msg_size c t * 4 ->
  exists buf, write_to_buf c (Ok body) t = Ok buf
    /\ read_message c elt t (mkStream (buf ++ rest) x) = (Ok a, mkStream rest x).
Proof.
  intros Hr Hn Hl. eexists. split; [reflexivity|]. unfold read_message, tbind. rewrite <- app_assoc.
  rewrite read_stream_header_ok by lia. cbn [msg_type msg_header_new].
  rewrite decide_True by done. by apply read_body_ok.
Qed.

(** ** Messages *)
Inductive message : Type :=
| M_Hand (h : Hand) | M_Shake (s : Shake) | M_Ping (p : Ping) | M_Pong (p : Ping)
| M_GetPeerAddrs (g : GetPeerAddrs) | M_PeerAddrs (p : PeerAddrs) | M_GetHeaders (l : Locator)
| M_Header (h : BlockHeader) | M_GetBlock (h : Hash) | M_Block (b : Block)
| M_GetCompactBlock (h : Hash) | M_CompactBlock (cb : CompactBlock)
| M_StemTransaction (t : Transaction) | M_Transaction (t : Transaction)
| M_TxHashSetRequest (t : TxHashSetRequest) | M_TxHashSetArchive (t : TxHashSetArchive)
| M_BanReason (b : BanReason) | M_GetTransaction (h : Hash) | M_TransactionKernel (h : Hash)
| M_KernelDataResponse (k : KernelDataResponse).

Definition type_of (m : message) : Type_ :=
  match m with
  | M_Hand _ => T_Hand | M_Shake _ => T_Shake | M_Ping _ => T_Ping | M_Pong _ => T_Pong
  | M_GetPeerAddrs _ => T_GetPeerAddrs | M_PeerAddrs _ => T_PeerAddrs | M_GetHeaders _ => T_GetHeaders
  | M_Header _ => T_Header | M_GetBlock _ => T_GetBlock | M_Block _ => T_Block
  | M_GetCompactBlock _ => T_GetCompactBlock | M_CompactBlock _ => T_CompactBlock
  | M_StemTransaction _ => T_StemTransaction | M_Transaction _ => T_Transaction
  | M_TxHashSetRequest _ => T_TxHashSetRequest | M_TxHashSetArchive _ => T_TxHashSetArchive
  | M_BanReason _ => T_BanReason | M_GetTransaction _ => T_GetTransaction
  | M_TransactionKernel _ => T_TransactionKernel | M_KernelDataResponse _ => T_KernelDataResponse
  end.

Section Messages.
Context `{Hasher} `{Secp} (c : ChainTypes) (min_date max_date : Z).

Definition write_msg (m : message) : outcome ser_error (list Z) :=
  match m with
  | M_Hand h => Ok (write_hand h)
  | M_Shake s => Ok (write_shake s)
  | M_Ping p | M_Pong p => Ok (write_ping p)
  | M_GetPeerAddrs g => Ok (write_get_peer_addrs g)
  | M_PeerAddrs p => Ok (write_peer_addrs p)
  | M_GetHeaders l => Ok (write_locator l)
  | M_Header h => write_header c Full h
  | M_GetBlock h | M_GetCompactBlock h | M_GetTransaction h | M_TransactionKernel h => Ok (write_array h)
  | M_Block b => write_block c Full b
  | M_CompactBlock cb => write_compact_block c Full cb
  | M_StemTransaction t | M_Transaction t => Ok (write_tx Full t)
  | M_TxHashSetRequest t => Ok (write_txhashset_request t)
  | M_TxHashSetArchive t => Ok (write_txhashset_archive t)
  | M_BanReason b => Ok (write_ban_reason b)
  | M_KernelDataResponse k => Ok (write_kernel_data_response k)
  end.

Definition read_map {A B} (f : A -> B) (m : read A) : read B := x <- m ;; ret (f x).

(** The body a message of each type has.  No decoder here: the types without a body, those
    whose body is streamed, and [Error], whose body [PeerError] (in [Msg]) no message carries,
    its limit being zero bytes. *)
Definition read_msg (t : Type_) : read message :=
  match t with
  | T_Hand => read_map M_Hand read_hand
  | T_Shake => read_map M_Shake read_shake
  | T_Ping => read_map M_Ping read_ping
  | T_Pong => read_map M_Pong read_ping
  | T_GetPeerAddrs => read_map M_GetPeerAddrs read_get_peer_addrs
  | T_PeerAddrs => read_map M_PeerAddrs read_peer_addrs
  | T_GetHeaders => read_map M_GetHeaders read_locator
  | T_Header => read_map M_Header (read_header c min_date max_date)
  | T_GetBlock => read_map M_GetBlock read_hash
  | T_Block => read_map M_Block (read_block c min_date max_date)
  | T_GetCompactBlock => read_map M_GetCompactBlock read_hash
  | T_CompactBlock => read_map M_CompactBlock (read_compact_block c min_date max_date)
  | T_StemTransaction => read_map M_StemTransaction (read_tx c)
  | T_Transaction => read_map M_Transaction (read_tx c)
  | T_TxHashSetRequest => read_map M_TxHashSetRequest read_txhashset_request
  | T_TxHashSetArchive => read_map M_TxHashSetArchive read_txhashset_archive
  | T_BanReason => read_map M_BanReason read_ban_reason
  | T_GetTransaction => read_map M_GetTransaction read_hash
  | T_TransactionKernel => read_map M_TransactionKernel read_hash
  | T_KernelDataResponse => read_map M_KernelDataResponse read_kernel_data_response
  | T_Error | T_Headers | T_KernelDataRequest => fail CorruptedData
  end.

(** A compact block of bounded size: what it spells out must leave room. *)
Definition compact_ok (cb : CompactBlock) : Prop :=
  header_ok c min_date max_date (cb_header cb) /\ is_u64 (cb_nonce cb)
  /\ Forall output_ok (out_full (cb_body cb)) /\ Forall kernel_ok (kern_full (cb_body cb))
  /\ 717 * len (out_full (cb_body cb)) + 114 * len (kern_full (cb_body cb)) + 6 * len (kern_ids (cb_body cb)) + 713
     <= max_block_size c / 10 * 4
  /\ compact_verify_sorted (cb_body cb) = Ok tt.

Definition message_ok (m : message) : Prop :=
  match m with
  | M_Hand h => hand_ok h
  | M_Shake s => shake_ok s
  | M_Ping p | M_Pong p => ping_ok p
  | M_GetPeerAddrs g => caps_ok (gpa_capabilities g)
  | M_PeerAddrs p => peer_addrs_ok p
  | M_GetHeaders l => locator_ok l
  | M_Header h => header_ok c min_date max_date h
  | M_GetBlock _ | M_GetCompactBlock _ | M_GetTransaction _ | M_TransactionKernel _ | M_BanReason _ => True
  | M_Block b => header_ok c min_date max_date (header b) /\ body_ok c (b_body b)
                 /\ body_validate_read c AsBlock (b_body b) = Ok tt
  | M_CompactBlock cb => compact_ok cb
  | M_StemTransaction t | M_Transaction t => body_ok c (body t) /\ validate_read c t = Ok tt
  | M_TxHashSetRequest t => is_u64 (req_height t)
  | M_TxHashSetArchive t => is_u64 (arch_height t) /\ is_u64 (arch_bytes t)
  | M_KernelDataResponse k => is_u64 (kd_bytes k)
  end.

Hypothesis single_bullet_proof : MAX_PROOF_SIZE = 675%nat.

Lemma compact_counts cb :
  compact_ok cb -> len (out_full (cb_body cb)) <= 1000000 /\ len (kern_full (cb_body cb)) <= 1000000
    /\ len (kern_ids (cb_body cb)) <= 1000000.
Proof.
  intros (_ & _ & _ & _ & Hw & _). unfold len in *.
  assert (max_block_size c / 10 * 4 <= 600000) by (destruct c; vm_compute; congruence). lia.
Qed.

Lemma reads_compact cb :
  compact_ok cb ->
  exists bs, write_compact_block c Full cb = Ok bs /\ reads (read_compact_block c min_date max_date) bs cb
    /\ Z.of_nat (length bs) <= max_block_size c / 10 * 4.
Proof.
  intros Hcb. destruct (compact_counts cb Hcb) as (L1 & L2 & L3). destruct Hcb as (Hh & Hn & Ho & Hk & Hw & Hs).
  destruct cb as [h n [os ks ids]]. cbn [cb_header cb_nonce cb_body out_full kern_full kern_ids] in *.
  destruct (reads_header c min_date max_date h Hh) as (hbs & Hwr & Hr).
  rewrite Forall_forall in Ho. rewrite Forall_forall in Hk.
  unfold write_compact_block. cbn [cb_header cb_nonce cb_body]. rewrite Hwr. cbn [bind].
  eexists. split_and!; [reflexivity| |].
  - unfold read_compact_block, read_compact_body, write_compact_body, len in *. cbn [out_full kern_full kern_ids].
    eapply reads_bind; [done|]. eapply reads_bind; [by apply (reads_uint 8)|].
    rewrite <- (app_nil_r (write_u64 _ ++ _)). eapply reads_bind.
    + do 3 (eapply reads_bind; [apply (reads_uint 8); change (2 ^ (8 * Z.of_nat 8)) with (2 ^ 64); lia|]; cbv beta).
      eapply reads_bind; [apply (reads_multi _ (write_output Full)); [|lia]|].
      { intros o Hin. apply reads_output; [lia|by apply Ho]. }
      eapply reads_bind; [apply (reads_multi _ write_kernel); [by intros; apply reads_kernel, Hk|lia]|].
      rewrite <- (app_nil_r (concat (map write_array _))).
      eapply reads_bind; [apply (reads_multi _ write_array); [by intros; apply reads_array|lia]|].
      intros k rest total Ht. rewrite Hs, counted_nil by done. reflexivity.
    + intros k rest total Ht. rewrite Hs, counted_nil by done. reflexivity.
  - unfold write_compact_body, len in *. cbn [out_full kern_full kern_ids]. lengths.
    pose proof (length_header c h hbs (header_ok_proof _ _ _ _ Hh) Hwr).
    pose proof (length_concat_le (write_output Full) 717 os ltac:(intros; by apply length_output, Ho)).
    pose proof (length_concat_le write_kernel 114 ks
      ltac:(intros; unfold write_kernel, write_kernel_features; lengths; lia)).
    pose proof (length_concat_le (@write_array 6) 6 ids ltac:(intros; by rewrite length_array)). lia.
Qed.

(** What each message needs: bytes its decoder gives back, at least one, within the limit. *)
Definition carried (m : message) (bs : list Z) : Prop :=
  bin_reads (read_msg (type_of m)) bs m /\ bs <> [] /\ Z.of_nat (length bs) <= max_msg_size c (type_of m) * 4.

Lemma carried_intro {A} (f : A -> message) (elt : read A) bs a :
  read_msg (type_of (f a)) = read_map f elt -> bin_reads elt bs a ->
  (0 < Z.of_nat (length bs) <= max_msg_size c (type_of (f a)) * 4) -> carried (f a) bs.
Proof.
  intros Hm Hr [Hpos Hl]. split_and!; [|by destruct bs|done]. rewrite Hm. by apply bin_reads_map.
Qed.

Lemma carried_hand h : hand_ok h -> carried (M_Hand h) (write_hand h).
Proof.
  intros Hh. apply (carried_intro M_Hand read_hand); [done|by apply bin_reads_hand|].
  destruct Hh as (_ & _ & _ & _ & Hs & Hr & _ & Hu). unfold write_hand, write_bytes. lengths. cbn [type_of max_msg_size].
  pose proof (length_difficulty (hand_difficulty h)). pose proof (length_peer_addr _ Hs). pose proof (length_peer_addr _ Hr). lia.
Qed.

Lemma carried_shake s : shake_ok s -> carried (M_Shake s) (write_shake s).
Proof.
  intros Hh. apply (carried_intro M_Shake read_shake); [done|by apply bin_reads_shake|].
  destruct Hh as (_ & _ & _ & _ & Hu). unfold write_shake, write_bytes. lengths. cbn [type_of max_msg_size].
  pose proof (length_difficulty (shake_difficulty s)). lia.
Qed.

Lemma length_ping p : 16 <= Z.of_nat (length (write_ping p)) <= 60.
Proof. unfold write_ping. lengths. pose proof (length_difficulty (ping_difficulty p)). lia. Qed.

Lemma carried_peer_addrs p : peer_addrs_ok p -> carried (M_PeerAddrs p) (write_peer_addrs p).
Proof.
  intros Hp. apply (carried_intro M_PeerAddrs read_peer_addrs); [done|by apply reads_bin, reads_peer_addrs|].
  destruct Hp as [Hl Ha]. rewrite Forall_forall in Ha. unfold write_peer_addrs, MAX_PEER_ADDRS in *. lengths.
  cbn [type_of max_msg_size]. unfold MAX_PEER_ADDRS.
  pose proof (length_concat_le write_peer_addr 19 (pa_peers p) ltac:(intros; by apply length_peer_addr, Ha)). lia.
Qed.

Lemma carried_locator l : locator_ok l -> carried (M_GetHeaders l) (write_locator l).
Proof.
  intros Hl. apply (carried_intro M_GetHeaders read_locator); [done|by apply reads_bin, reads_locator|].
  unfold locator_ok, write_locator, MAX_LOCATORS in *. lengths. cbn [type_of max_msg_size]. unfold MAX_LOCATORS.
  pose proof (length_concat_le (@write_array 32) 32 (hashes l) ltac:(intros; by rewrite length_array)). lia.
Qed.

Lemma carried_tx f t :
  f = M_StemTransaction \/ f = M_Transaction -> body_ok c (body t) -> validate_read c t = Ok tt ->
  carried (f t) (write_tx Full t).
Proof.
  intros Hf Hb Hv.
  assert (bin_reads (read_tx c) (write_tx Full t) t) as Hr by (apply reads_bin, reads_tx; [lia|done|done]).
  assert (0 < Z.of_nat (length (write_tx Full t)) <= max_block_size c * 4) as Hl.
  { unfold write_tx. lengths. pose proof (length_body single_bullet_proof c _ Hb). pose proof (block_limit c). lia. }
  destruct Hf as [-> | ->].
  - by apply (carried_intro M_StemTransaction (read_tx c)).
  - by apply (carried_intro M_Transaction (read_tx c)).
Qed.

Lemma carried_header h :
  header_ok c min_date max_date h -> exists bs, write_msg (M_Header h) = Ok bs /\ carried (M_Header h) bs.
Proof.
  intros Hh. destruct (reads_header c min_date max_date h Hh) as (bs & Hw & Hr). exists bs. split; [exact Hw|].
  apply (carried_intro M_Header (read_header c min_date max_date)); [done|by apply reads_bin|].
  pose proof (length_header c h bs (header_ok_proof _ _ _ _ Hh) Hw). cbn [type_of max_msg_size].
  split; [|lia]. unfold write_header in Hw. apply bind_Ok_inv in Hw as (p & _ & Hw). apply Ok_eq in Hw as <-. lengths. lia.
Qed.

Lemma carried_block b :
  header_ok c min_date max_date (header b) -> body_ok c (b_body b) -> body_validate_read c AsBlock (b_body b) = Ok tt ->
  exists bs, write_msg (M_Block b) = Ok bs /\ carried (M_Block b) bs.
Proof.
  intros Hh Hb Hv. assert (Z.of_nat MAX_PROOF_SIZE <= 100000) as Hs by lia. destruct (reads_block Hs c min_date max_date b Hh Hb Hv) as (bs & Hw & Hr). exists bs. split; [exact Hw|].
  apply (carried_intro M_Block (read_block c min_date max_date)); [done|by apply reads_bin|].
  unfold write_block in Hw. apply bind_Ok_inv in Hw as (hs & Hhs & Hw). apply Ok_eq in Hw as <-. lengths.
  pose proof (length_header c _ hs (header_ok_proof _ _ _ _ Hh) Hhs). pose proof (length_body single_bullet_proof c _ Hb).
  pose proof (block_limit c). cbn [type_of max_msg_size]. split; [|lia]. unfold write_body. lengths. lia.
Qed.

Lemma carried_compact cb : compact_ok cb -> exists bs, write_msg (M_CompactBlock cb) = Ok bs /\ carried (M_CompactBlock cb) bs.
Proof.
  intros Hcb. destruct (reads_compact cb Hcb) as (bs & Hw & Hr & Hl). exists bs. split; [exact Hw|].
  apply (carried_intro M_CompactBlock (read_compact_block c min_date max_date)); [done|by apply reads_bin|].
  cbn [type_of max_msg_size]. split; [|done].
  unfold write_compact_block in Hw. apply bind_Ok_inv in Hw as (hs & _ & Hw). apply Ok_eq in Hw as <-. lengths. lia.
Qed.

(** A body made of one field of a fixed length. *)
Ltac carried_fixed f elt lem :=
  eexists; split; [reflexivity|]; apply (carried_intro f elt); [done|by apply reads_bin, lem|by vm_compute].

Lemma message_carried m : message_ok m -> exists bs, write_msg m = Ok bs /\ carried m bs.
Proof.
  destruct m as [h|s|p|p|g|p|l|h|h|b|h|cb|t|t|t|t|b|h|h|k]; cbn [message_ok]; intros Hm.
  - eexists. split; [reflexivity|]. by apply carried_hand.
  - eexists. split; [reflexivity|]. by apply carried_shake.
  - eexists. split; [reflexivity|]. apply (carried_intro M_Ping read_ping); [done|by apply reads_bin, reads_ping|].
    pose proof (length_ping p). cbn [type_of max_msg_size]. lia.
  - eexists. split; [reflexivity|]. apply (carried_intro M_Pong read_ping); [done|by apply reads_bin, reads_ping|].
    pose proof (length_ping p). cbn [type_of max_msg_size]. lia.
  - carried_fixed M_GetPeerAddrs read_get_peer_addrs reads_get_peer_addrs.
  - eexists. split; [reflexivity|]. by apply carried_peer_addrs.
  - eexists. split; [reflexivity|]. by apply carried_locator.
  - by apply carried_header.
  - eexists. split; [reflexivity|]. apply (carried_intro M_GetBlock read_hash); [done|by apply reads_bin, reads_array|].
    cbn [type_of max_msg_size]. lengths. lia.
  - destruct Hm as (Hh & Hb & Hv). by apply carried_block.
  - eexists. split; [reflexivity|]. apply (carried_intro M_GetCompactBlock read_hash); [done|by apply reads_bin, reads_array|].
    cbn [type_of max_msg_size]. lengths. lia.
  - by apply carried_compact.
  - destruct Hm as [Hb Hv]. eexists. split; [reflexivity|]. apply carried_tx; [by left|done|done].
  - destruct Hm as [Hb Hv]. eexists. split; [reflexivity|]. apply carried_tx; [by right|done|done].
  - eexists. split; [reflexivity|]. apply (carried_intro M_TxHashSetRequest read_txhashset_request); [done|by apply reads_bin, reads_txhashset_request|].
    unfold write_txhashset_request. cbn [type_of max_msg_size]. lengths. lia.
  - destruct Hm as [Hh Hb]. eexists. split; [reflexivity|].
    apply (carried_intro M_TxHashSetArchive read_txhashset_archive); [done|by apply reads_bin, reads_txhashset_archive|].
    unfold write_txhashset_archive. cbn [type_of max_msg_size]. lengths. lia.
  - carried_fixed M_BanReason read_ban_reason reads_ban_reason.
  - eexists. split; [reflexivity|]. apply (carried_intro M_GetTransaction read_hash); [done|by apply reads_bin, reads_array|].
    cbn [type_of max_msg_size]. lengths. lia.
  - eexists. split; [reflexivity|]. apply (carried_intro M_TransactionKernel read_hash); [done|by apply reads_bin, reads_array|].
    cbn [type_of max_msg_size]. lengths. lia.
  - carried_fixed M_KernelDataResponse read_kernel_data_response reads_kernel_data_response.
Qed.

(** C18. Every well-formed message survives the wire.  The buffer [write_to_buf] makes of it
    is accepted by [read_message], whose checks include the magic numbers, the type and the
    limit on the size of a body (blocks and transactions of the largest weight, greetings with
    user agents of a few hundred bytes, pings with the difficulties of all four algorithms);
    the message read is the one sent, and nothing that follows on the stream is consumed. *)
Theorem message_roundtrip m rest x :
  message_ok m ->
  exists buf, write_to_buf c (write_msg m) (type_of m) = Ok buf
    /\ read_message c (read_msg (type_of m)) (type_of m) (mkStream (buf ++ rest) x) = (Ok m, mkStream rest x).
Proof.
  intros Hm. destruct (message_carried m Hm) as (bs & -> & Hr & Hn & Hl). by apply read_message_ok.
Qed.
End Messages.

(** ** What is decoded is well typed *)
Definition bin_bytes (r : reader) : Prop := kind r = BinReader /\ Forall is_byte (source r).

Definition typed {A} (m : read A) (P : A -> Prop) : Prop := forall r, bin_bytes r ->
  match m r with
  | Ok (a, r') => P a /\ bin_bytes r'
  | Err _ => True
  | Panic => False
  end.

Lemma typed_weaken {A} (m : read A) (P Q : A -> Prop) : typed m P -> (forall a, P a -> Q a) -> typed m Q.
Proof. intros Hm Hw r Hr. specialize (Hm r Hr). destruct (m r) as [[a r']|e|]; [|done|done]. destruct Hm. auto. Qed.

Lemma typed_ret {A} (a : A) (P : A -> Prop) : P a -> typed (ret a) P.
Proof. by intros Ha r Hr. Qed.

Lemma typed_fail {A} e (P : A -> Prop) : typed (fail e) P.
Proof. by intros r Hr. Qed.

Lemma typed_bind {A B} (m : read A) (f : A -> read B) P Q :
  typed m P -> (forall a, P a -> typed (f a) Q) -> typed (rbind m f) Q.
Proof.
  intros Hm Hf r Hr. unfold rbind. specialize (Hm r Hr). destruct (m r) as [[a r']|e|]; cbn [bind]; [|done|done].
  destruct Hm as [Ha Hr']. by apply Hf.
Qed.

Lemma typed_take n : typed (take_bytes n) (array_ok n).
Proof.
  intros r [Hk Hr]. unfold take_bytes. destruct (Nat.ltb_spec (length (source r)) n); [done|].
  split; [split|split]; [rewrite length_take; lia|by apply Forall_take|done|by apply Forall_drop].
Qed.

Lemma typed_fixed n : typed (read_fixed_bytes n) (fun l => array_ok n l /\ Z.of_nat n <= 100000).
Proof.
  intros r Hr. unfold read_fixed_bytes. pose proof (typed_take n r Hr) as Ht. destruct Hr as [-> _].
  destruct (Z.ltb_spec 100000 (Z.of_nat n)); [done|]. destruct (take_bytes n r) as [[a r']|e|]; [|done|done].
  by destruct Ht.
Qed.

Lemma be_value_range l : Forall is_byte l -> 0 <= be_value l < 2 ^ (8 * Z.of_nat (length l)).
Proof.
  intros Hl. unfold be_value. rewrite <- (Z.mul_1_l (2 ^ _)), <- (Z.add_0_l 1), <- (Z.mul_0_l (2 ^ (8 * Z.of_nat (length l)))) at 1.
  generalize 0 as acc. induction Hl as [|b l Hb _ IH]; intros acc; cbn [foldl length]; [change (2 ^ (8 * Z.of_nat 0)) with 1; lia|].
  specialize (IH (acc * 256 + b)). rewrite Nat2Z.inj_succ, Z.mul_succ_r, Z.pow_add_r by lia. unfold is_byte in Hb.
  change (2 ^ 8) with 256. nia.
Qed.

Lemma typed_uint w : typed (read_uint w) (fun x => 0 <= x < 2 ^ (8 * Z.of_nat w)).
Proof.
  intros r Hr. unfold read_uint. pose proof (typed_take w r Hr) as Ht. destruct Hr as [-> _].
  destruct (take_bytes w r) as [[a r']|e|]; cbn [bind]; [|done|done]. destruct Ht as [[Hl Hb] Hs]. split; [|done].
  rewrite <- Hl. by apply be_value_range.
Qed.
#[export] Hint Resolve typed_uint typed_fixed typed_fail : reads.

Lemma typed_map {A B} (m : read A) (f : A -> B) P (Q : B -> Prop) :
  typed m P -> (forall a, P a -> Q (f a)) -> typed (x <- m ;; ret (f x)) Q.
Proof. intros Hm Hf. eapply typed_bind; [exact Hm|]. intros a Ha. by apply typed_ret, Hf. Qed.

Lemma typed_array n : typed (read_array n) (fun _ => True).
Proof. eapply typed_map; [apply typed_fixed|done]. Qed.

Lemma typed_n {A} (elt : read A) P n :
  typed elt P -> typed (read_n elt n) (fun l => length l = n /\ Forall P l).
Proof.
  intros He. induction n as [|n IH]; cbn [read_n]; [by apply typed_ret|].
  eapply typed_bind; [exact He|]. intros a Ha. eapply typed_map; [exact IH|]. intros l [Hl Hf].
  split; [cbn; lia|by constructor].
Qed.

Lemma typed_len_prefix : typed read_bytes_len_prefix (fun s => Z.of_nat (length s) <= 100000).
Proof.
  intros r Hr. unfold read_bytes_len_prefix. destruct (kind r) eqn:E; [|by destruct Hr; congruence].
  apply (typed_bind read_u64 (fun len => read_fixed_bytes (Z.to_nat len)) (fun _ => True)).
  - by eapply typed_weaken; [apply (typed_uint 8)|].
  - intros n _. eapply typed_weaken; [apply typed_fixed|]. intros l [[-> _] Hl]. done.
  - done.
Qed.

Lemma typed_utf8 bs : typed (utf8 bs) (fun s => s = bs /\ from_utf8 s = true).
Proof. unfold utf8. destruct (from_utf8 bs) eqn:E; [by apply typed_ret|apply typed_fail]. Qed.

Lemma typed_entries n m : map_Forall (fun _ v => is_u64 v) m -> typed (read_entries n m) (map_Forall (fun _ v => is_u64 v)).
Proof.
  revert m. induction n as [|n IH]; intros m Hm; cbn [read_entries]; [by apply typed_ret|].
  eapply typed_bind; [apply (typed_uint 1)|]. intros p _. eapply typed_bind; [apply (typed_uint 8)|]. intros v Hv.
  apply (typed_bind _ _ (fun _ => True)).
  - intros r Hr. unfold lift, PoWType_try_from. destruct p as [|[[]| |]|]; cbn; try done. by destruct p.
  - intros t _. apply IH. by apply map_Forall_insert_2.
Qed.

Lemma typed_difficulty : typed read_difficulty difficulty_ok.
Proof.
  eapply typed_bind; [apply (typed_uint 8)|]. intros n _.
  eapply typed_map; [apply typed_entries, map_Forall_empty|]. by intros m Hm.
Qed.

Lemma typed_peer_addr : typed read_peer_addr addr_ok.
Proof.
  eapply typed_bind; [apply (typed_uint 1)|]. intros k _. destruct (k =? 0).
  - eapply typed_bind; [apply typed_fixed|]. intros ip [Hip _]. eapply typed_map; [apply (typed_uint 2)|]. intros p Hp. by split.
  - eapply typed_bind; [apply (typed_n read_u16 u16_ok 8), (typed_uint 2)|]. intros ip [Hl Hs].
    eapply typed_map; [apply (typed_uint 2)|]. intros p Hp. by split_and!.
Qed.

(** The fields of a decoded message are in the ranges of their types, its strings are
    UTF-8, its flags are known ones and its lists within their limits. *)
Definition message_typed (m : message) : Prop :=
  match m with
  | M_Hand h =>
      u32_ok (hand_version h) /\ caps_ok (hand_capabilities h) /\ is_u64 (hand_nonce h) /\ difficulty_ok (hand_difficulty h)
      /\ addr_ok (sender_addr h) /\ addr_ok (receiver_addr h) /\ from_utf8 (hand_user_agent h) = true
  | M_Shake s =>
      u32_ok (shake_version s) /\ caps_ok (shake_capabilities s) /\ difficulty_ok (shake_difficulty s)
      /\ from_utf8 (shake_user_agent s) = true
  | M_Ping p | M_Pong p => ping_ok p
  | M_GetPeerAddrs g => caps_ok (gpa_capabilities g)
  | M_PeerAddrs p => peer_addrs_ok p
  | M_GetHeaders l => locator_ok l
  | M_TxHashSetRequest t => is_u64 (req_height t)
  | M_TxHashSetArchive t => is_u64 (arch_height t) /\ is_u64 (arch_bytes t)
  | M_KernelDataResponse k => is_u64 (kd_bytes k)
  | _ => True
  end.

(** The messages that carry no header, block or transaction. *)
Definition control (t : Type_) : bool :=
  match t with
  | T_Header | T_Headers | T_Block | T_CompactBlock | T_StemTransaction | T_Transaction => false
  | _ => true
  end.

Lemma typed_hand : typed read_hand (fun h => message_typed (M_Hand h)).
Proof.
  unfold read_hand. eapply typed_bind; [apply (typed_uint 4)|]. intros v Hv. eapply typed_bind; [apply (typed_uint 4)|]. intros cp _.
  eapply typed_bind; [apply (typed_uint 8)|]. intros n Hn. cbv zeta. eapply typed_bind; [apply typed_difficulty|]. intros d Hd.
  eapply typed_bind; [apply typed_peer_addr|]. intros a Ha. eapply typed_bind; [apply typed_peer_addr|]. intros b Hb.
  eapply typed_bind; [apply typed_len_prefix|]. intros bs _. eapply typed_bind; [apply typed_utf8|]. intros ua [_ Hu].
  eapply typed_map; [apply typed_array|]. intros g _. pose proof (from_bits_truncate_ok cp). by split_and!.
Qed.

Lemma typed_shake : typed read_shake (fun s => message_typed (M_Shake s)).
Proof.
  unfold read_shake. eapply typed_bind; [apply (typed_uint 4)|]. intros v Hv. eapply typed_bind; [apply (typed_uint 4)|]. intros cp _.
  cbv zeta. eapply typed_bind; [apply typed_difficulty|]. intros d Hd.
  eapply typed_bind; [apply typed_len_prefix|]. intros bs _. eapply typed_bind; [apply typed_utf8|]. intros ua [_ Hu].
  eapply typed_map; [apply typed_array|]. intros g _. pose proof (from_bits_truncate_ok cp). by split_and!.
Qed.

Lemma wrap_i64_range x : is_i64 (wrap_i64 x).
Proof.
  unfold is_i64, wrap_i64. pose proof (Z.mod_pos_bound (x + 2 ^ 63) (2 ^ 64) eq_refl) as Hm.
  change (2 ^ 64) with (2 ^ 63 + 2 ^ 63) in *. lia.
Qed.

Lemma typed_ping : typed read_ping ping_ok.
Proof.
  eapply typed_bind; [apply typed_difficulty|]. intros d Hd. eapply typed_bind; [apply (typed_uint 8)|]. intros h Hh.
  eapply typed_bind; [eapply typed_map; [apply (typed_uint 8)|intros; apply wrap_i64_range]|]. intros t Ht. by apply typed_ret.
Qed.

Lemma typed_peer_addrs : typed read_peer_addrs peer_addrs_ok.
Proof.
  eapply typed_bind; [apply (typed_uint 4)|]. intros n [Hn _]. rewrite Z.gtb_ltb.
  destruct (Z.ltb_spec MAX_PEER_ADDRS n); [apply typed_fail|]. destruct (n =? 0); [by apply typed_ret|].
  eapply typed_map; [apply typed_n, typed_peer_addr|]. intros l [Hl Ha]. split; [|done]. cbn [pa_peers]. lia.
Qed.

Lemma typed_locator : typed read_locator locator_ok.
Proof.
  eapply typed_bind; [apply (typed_uint 1)|]. intros n [Hn _]. rewrite Z.gtb_ltb.
  destruct (Z.ltb_spec MAX_LOCATORS n); [apply typed_fail|].
  eapply typed_map; [apply typed_n, typed_array|]. intros l [Hl _]. unfold locator_ok. cbn [hashes]. lia.
Qed.

Lemma typed_ban_reason : typed read_ban_reason (fun _ => True).
Proof.
  apply (typed_bind _ _ (fun _ => True)).
  - intros r Hr. unfold read_or_zero, read_i32.
    assert (typed (x <- read_uint 4 ;; ret ((x + 2 ^ 31) mod 2 ^ 32 - 2 ^ 31)) (fun _ => True)) as Ht
      by (eapply typed_map; [apply (typed_uint 4)|done]).
    specialize (Ht r Hr). by destruct (rbind _ _ r) as [[a r']|e|].
  - intros x _. destruct (reason_from_i32 x); [by apply typed_ret|apply typed_fail].
Qed.

(** C19. Whatever bytes a peer sends as the body of a control message, decoding them gives a
    well-typed message or an error, and never a panic. *)
Theorem decoded_message_typed `{Hasher} `{Secp} c min_date max_date t bs :
  control t = true -> Forall is_byte bs ->
  match deserialize (read_msg c min_date max_date t) bs with
  | Ok m => type_of m = t /\ message_typed m
  | Err _ => True
  | Panic => False
  end.
Proof.
  intros Hc Hb. enough (typed (read_msg c min_date max_date t) (fun m => type_of m = t /\ message_typed m)) as Ht.
  { unfold deserialize. specialize (Ht (mkReader BinReader bs 0) (conj eq_refl Hb)).
    destruct (read_msg c min_date max_date t _) as [[m r]|e|]; cbn [bind]; tauto. }
  destruct t; cbn [control] in Hc; try discriminate Hc; cbn [read_msg]; unfold read_map;
    try (eapply typed_map; [first [apply typed_hand|apply typed_shake|apply typed_ping|apply typed_peer_addrs
      |apply typed_locator|apply typed_array|apply typed_ban_reason]|by intros; split]); try apply typed_fail.
  - eapply (typed_map _ _ (fun g => caps_ok (gpa_capabilities g))); [|by split].
    eapply typed_map; [apply (typed_uint 4)|]. intros x _. apply from_bits_truncate_ok.
  - eapply (typed_map _ _ (fun t => is_u64 (req_height t))); [|by split].
    eapply typed_bind; [apply typed_array|]. intros h _. eapply typed_map; [apply (typed_uint 8)|]. by intros.
  - eapply (typed_map _ _ (fun t => is_u64 (arch_height t) /\ is_u64 (arch_bytes t))); [|by split].
    eapply typed_bind; [apply typed_array|]. intros h _. eapply typed_bind; [apply (typed_uint 8)|]. intros n Hn.
    eapply typed_map; [apply (typed_uint 8)|]. by intros.
  - eapply (typed_map _ _ (fun k => is_u64 (kd_bytes k))); [|by split]. eapply typed_map; [apply (typed_uint 8)|]. by intros.
Qed.
