(* ===== verification/Peers.v ===== *)
(** * Peers: what a node keeps about the others

    [p2p/src/peer.rs], [p2p/src/peers.rs], [p2p/src/store.rs], the configuration and the
    interfaces of [p2p/src/types.rs], and [util/src/rate_counter.rs].  A [Peer] is shared:
    the map of connected peers, the handler of its connection and the sync threads hold
    the same one.  So peers live in a heap that only grows, a reference to one is its
    place there, and the map holds references.  Locks are always obtained; the clock and
    the shuffles of a random generator are arguments. *)
From S2P Require Import Prelude Ser Global Pow Reward Retarget Feijoada Committed Transaction Block ChainStore Pipe Msg.

(** ** Rate counters *)
Record Entry := mkEntry { e_bytes : Z; e_millis : Z }.
Definition is_quiet (e : Entry) : bool := e_millis e =? 0.

Abbreviation RateCounter := (list Entry).

(** Entries older than a minute leave, from the front. *)
Fixpoint rate_truncate (now_millis : Z) (l : RateCounter) : RateCounter :=
  match l with
  | e :: rest => if e_millis e +! 60000 <? now_millis then rate_truncate now_millis rest else l
  | [] => []
  end.
Definition rate_inc (now_millis : Z) (bytes : Z) (l : RateCounter) : RateCounter :=
  rate_truncate now_millis (l ++ [mkEntry bytes now_millis]).
Definition rate_inc_quiet (now_millis : Z) (bytes : Z) (l : RateCounter) : RateCounter :=
  rate_truncate now_millis (l ++ [mkEntry bytes 0]).
Definition bytes_per_min (l : RateCounter) : Z := foldl (fun acc e => acc +! e_bytes e) 0 l.
Definition count_per_min (l : RateCounter) : Z := Z.of_nat (length (filter (fun e => is_quiet e = false) l)).

(** ** Configuration *)
Inductive Seeding : Type := SeedNone | SeedList | DNSSeed | Programmatic.

Record P2PConfig := mkP2PConfig {
  cfg_host : IpAddr; cfg_port : Z; seeding_type : Seeding; seeds : option (list PeerAddr); cfg_capabilities : Z;
  peers_allow : option (list PeerAddr); peers_deny : option (list PeerAddr); peers_preferred : option (list PeerAddr);
  cfg_ban_window : option Z; cfg_peer_max_count : option Z; cfg_peer_min_preferred_count : option Z;
  dandelion_peer : option PeerAddr }.

Definition config_default : P2PConfig :=
  mkP2PConfig (IpV4 [0; 0; 0; 0]) 3414 DNSSeed None FULL_NODE None None None None None None None.

Definition ban_window (config : P2PConfig) : Z := default 10800 (cfg_ban_window config).
Definition peer_max_count (config : P2PConfig) : Z := default 125 (cfg_peer_max_count config).
Definition peer_min_preferred_count (config : P2PConfig) : Z := default 8 (cfg_peer_min_preferred_count config).

Definition addrs_contain (l : list PeerAddr) (a : PeerAddr) : bool := existsb (fun x => peer_addr_eq x a) l.

(** A denied address is refused; when there is a list of allowed ones, so are the others. *)
Definition is_denied (config : P2PConfig) (a : PeerAddr) : bool :=
  match peers_deny config with
  | Some denied => if addrs_contain denied a then true
      else match peers_allow config with Some allowed => negb (addrs_contain allowed a) | None => false end
  | None => match peers_allow config with Some allowed => negb (addrs_contain allowed a) | None => false end
  end.

(** ** Peers *)
Inductive Direction : Type := Inbound | Outbound.
#[export] Instance Direction_eq_dec : EqDecision Direction.
Proof. solve_decision. Defined.

Record PeerLiveInfo := mkLive {
  live_difficulty : Difficulty; live_height : Z; last_seen : Z; stuck_detector : Z; first_seen : Z; live_timestamp : Z }.
Record PeerInfo := mkInfo {
  pi_capabilities : Z; pi_user_agent : list Z; pi_version : Z; pi_addr : PeerAddr; pi_direction : Direction }.

(** Times are in milliseconds. *)
Definition live_new (now : Z) (d : Difficulty) : PeerLiveInfo := mkLive d 0 now now now 0.

Definition live_update (now : Z) (height : Z) (d : Difficulty) (ts : Z) (l : PeerLiveInfo) : PeerLiveInfo :=
  mkLive d height now (if decide (d = live_difficulty l) then stuck_detector l else now) (first_seen l) ts.

Definition is_outbound (i : PeerInfo) : bool := bool_decide (pi_direction i = Outbound).

Inductive PeerState : Type := Connected | PeerBanned.
#[export] Instance PeerState_eq_dec : EqDecision PeerState.
Proof. solve_decision. Defined.

(** [outbox]: the channel to the thread of the connection; [hung_up]: that thread is gone;
    [stopped]: it has been asked to stop. *)
Record Peer := mkPeer {
  info : PeerInfo; live : PeerLiveInfo; p_state : PeerState;
  known : list Hash; requested : list Hash;
  sent_bytes : RateCounter; received_bytes : RateCounter;
  outbox : list (list Z); hung_up : bool; stopped : bool }.

Definition set_live (l : PeerLiveInfo) (p : Peer) : Peer :=
  mkPeer (info p) l (p_state p) (known p) (requested p) (sent_bytes p) (received_bytes p) (outbox p) (hung_up p) (stopped p).
Definition set_known (l : list Hash) (p : Peer) : Peer :=
  mkPeer (info p) (live p) (p_state p) l (requested p) (sent_bytes p) (received_bytes p) (outbox p) (hung_up p) (stopped p).
Definition set_requested (l : list Hash) (p : Peer) : Peer :=
  mkPeer (info p) (live p) (p_state p) (known p) l (sent_bytes p) (received_bytes p) (outbox p) (hung_up p) (stopped p).
Definition set_counters (s r : RateCounter) (p : Peer) : Peer :=
  mkPeer (info p) (live p) (p_state p) (known p) (requested p) s r (outbox p) (hung_up p) (stopped p).
Definition set_outbox (o : list (list Z)) (p : Peer) : Peer :=
  mkPeer (info p) (live p) (p_state p) (known p) (requested p) (sent_bytes p) (received_bytes p) o (hung_up p) (stopped p).
Definition set_banned (p : Peer) : Peer :=
  mkPeer (info p) (live p) PeerBanned (known p) (requested p) (sent_bytes p) (received_bytes p) (outbox p) (hung_up p) (stopped p).
Definition stop (p : Peer) : Peer :=
  mkPeer (info p) (live p) (p_state p) (known p) (requested p) (sent_bytes p) (received_bytes p) (outbox p) (hung_up p) true.

Definition peer_new (i : PeerInfo) (l : PeerLiveInfo) : Peer := mkPeer i l Connected [] [] [] [] [] false false.

Definition is_connected (p : Peer) : bool := bool_decide (p_state p = Connected).
Definition peer_is_banned (p : Peer) : bool := bool_decide (p_state p = PeerBanned).

Definition STUCK_PEER_KICK_TIME : Z := 2 * 3600 * 1000.
Definition is_stuck (now : Z) (p : Peer) : bool * Difficulty :=
  (now >? stuck_detector (live p) + STUCK_PEER_KICK_TIME, live_difficulty (live p)).

Definition MAX_PEER_MSG_PER_MIN : Z := 500.
Definition is_abusive (p : Peer) : bool :=
  (count_per_min (received_bytes p) >? MAX_PEER_MSG_PER_MIN) || (count_per_min (sent_bytes p) >? MAX_PEER_MSG_PER_MIN).

(** *** Hashes the peer has, and hashes it was asked for *)
Definition MAX_TRACK_SIZE : nat := 30.
Definition has_hash (l : list Hash) (h : Hash) : bool := bool_decide (h ∈ l).
Definition has_recv (p : Peer) (h : Hash) : bool := has_hash (known p) h.
Definition has_req (p : Peer) (h : Hash) : bool := has_hash (requested p) h.

Definition push_hash (l : list Hash) (h : Hash) : list Hash :=
  let l := if (MAX_TRACK_SIZE <? length l)%nat then take MAX_TRACK_SIZE l else l in
  if has_hash l h then l else h :: l.
Definition push_recv (h : Hash) (p : Peer) : Peer := set_known (push_hash (known p) h) p.
Definition push_req (h : Hash) (p : Peer) : Peer := set_requested (push_hash (requested p) h) p.

(** *** Sending *)
Definition SEND_CHANNEL_CAP : nat := 10.

(** [ConnHandle::send]: a full channel, or one nobody reads, refuses. *)
Definition conn_send (buf : list Z) : trans Peer p2p_error Z := fun p =>
  if hung_up p || (SEND_CHANNEL_CAP <=? length (outbox p))%nat then (Err Send, p)
  else (Ok (Z.of_nat (length buf)), set_outbox (outbox p ++ [buf]) p).

Section Sending.
Context `{Hasher} (c : ChainTypes) (now : Z).

Definition peer_send (body : outcome ser_error (list Z)) (t : Type_) : trans Peer p2p_error () :=
  let! buf := tread (fun _ => write_to_buf c body t) in
  let! n := conn_send buf in
  tmodify (fun p => set_counters (rate_inc now n (sent_bytes p)) (received_bytes p) p).

Definition send_ping (d : Difficulty) (height ts : Z) : trans Peer p2p_error () :=
  peer_send (Ok (write_ping (mkPing d height ts))) T_Ping.
Definition send_ban_reason (r : ReasonForBan) : trans Peer p2p_error () :=
  peer_send (Ok (write_ban_reason (mkBanReason r))) T_BanReason.

(** Unless the peer is known to have it already. *)
Definition send_new (h : Hash) (body : outcome ser_error (list Z)) (t : Type_) : trans Peer p2p_error bool := fun p =>
  if has_recv p h then (Ok false, p) else (do! peer_send body t then tret true) p.

Definition send_block (b : Block) : trans Peer p2p_error bool :=
  let! h := tread (fun _ => hash_of c (header b)) in send_new h (write_block c Full b) T_Block.
Definition send_compact_block (b : CompactBlock) : trans Peer p2p_error bool :=
  let! h := tread (fun _ => hash_of c (cb_header b)) in send_new h (write_compact_block c Full b) T_CompactBlock.
Definition send_header (bh : BlockHeader) : trans Peer p2p_error bool :=
  let! h := tread (fun _ => hash_of c bh) in send_new h (write_header c Full bh) T_Header.
Definition send_tx_kernel_hash (h : Hash) : trans Peer p2p_error bool :=
  send_new h (Ok (write_array h)) T_TransactionKernel.

(** The first kernel stands for the transaction; indexing panics when there is none. *)
Definition send_transaction (t : Transaction) : trans Peer p2p_error bool :=
  let! kernel := tread (fun _ => unwrap (kernels (body t) !! 0%nat)) in
  let h := kernel_hash kernel in
  fun p => if contains (pi_capabilities (info p)) TX_KERNEL_HASH then send_tx_kernel_hash h p
           else send_new h (Ok (write_tx Full t)) T_Transaction p.

Definition send_stem_transaction (t : Transaction) : trans Peer p2p_error () :=
  peer_send (Ok (write_tx Full t)) T_StemTransaction.
Definition send_header_request (locator : list Hash) : trans Peer p2p_error () :=
  peer_send (Ok (write_locator (mkLocator locator))) T_GetHeaders.
Definition send_tx_request (h : Hash) : trans Peer p2p_error () := peer_send (Ok (write_array h)) T_GetTransaction.
Definition send_block_request (h : Hash) : trans Peer p2p_error () :=
  do! tmodify (push_req h) then peer_send (Ok (write_array h)) T_GetBlock.
Definition send_compact_block_request (h : Hash) : trans Peer p2p_error () := peer_send (Ok (write_array h)) T_GetCompactBlock.
Definition send_peer_request (capab : Z) : trans Peer p2p_error () :=
  peer_send (Ok (write_get_peer_addrs (mkGetPeerAddrs capab))) T_GetPeerAddrs.
Definition send_txhashset_request (height : Z) (h : Hash) : trans Peer p2p_error () :=
  peer_send (Ok (write_txhashset_request (mkTxHashSetRequest h height))) T_TxHashSetRequest.
Definition send_kernel_data_request : trans Peer p2p_error () := peer_send (Ok write_kernel_data_request) T_KernelDataRequest.
End Sending.
