(* ===== verification/PeerMap.v ===== *)
(** * The map of peers and its database

    [p2p/src/store.rs]: what is remembered of every peer ever heard of, under its address;
    [p2p/src/peers.rs]: the peers connected now, bans, broadcasts, cleaning up; the
    interfaces [ChainAdapter] and [NetAdapter] of [p2p/src/types.rs], which [Peers]
    implements by handing on to the adapter of the chain, and [TrackingAdapter] of
    [p2p/src/peer.rs], which remembers for one peer what went through.  The [Display] form
    of an IPv6 address is an argument, its details having changed between releases of the
    standard library. *)
From S2P Require Import Prelude Ser Global Pow Reward Retarget Feijoada Committed Transaction Block ChainStore Pipe Msg Peers.

(** ** Keys *)
(** Decimal digits, most significant first. *)
Fixpoint digits (fuel : nat) (x : Z) : list Z :=
  match fuel with
  | O => []
  | S fuel => if x <? 10 then [48 + x] else digits fuel (x / 10) ++ [48 + x mod 10]
  end.
(** Five digits are enough for a 16-bit number. *)
Definition show_u16 (x : Z) : list Z := digits 5 x.

Definition ipv4_display (octets : list Z) : list Z :=
  match octets with
  | [a; b; d; e] => show_u16 a ++ 46 :: show_u16 b ++ 46 :: show_u16 d ++ 46 :: show_u16 e
  | _ => []
  end.

(** The key of an address in a hash map, equal exactly when the addresses compare equal. *)
Definition ip_words (ip : IpAddr) : list Z :=
  match ip with
  | IpV4 octets => 4 :: octets
  | IpV6 segments => 6 :: segments
  end.
Definition socket_words (a : SocketAddr) : list Z :=
  match a with
  | SocketV4 ip port => 4 :: port :: ip
  | SocketV6 ip port flowinfo scope_id => 6 :: port :: flowinfo :: scope_id :: ip
  end.
Definition map_key (a : PeerAddr) : list Z :=
  if is_loopback (addr_ip (sock a)) then 1 :: socket_words (sock a) else 0 :: ip_words (addr_ip (sock a)).

(** ** Records of the database *)
Inductive State : Type := Healthy | BannedState | Defunct.
#[export] Instance State_eq_dec : EqDecision State.
Proof. solve_decision. Defined.

Definition state_to_u8 (s : State) : Z := match s with Healthy => 0 | BannedState => 1 | Defunct => 2 end.
Definition state_from_u8 (x : Z) : option State :=
  match x with
  | 0 => Some Healthy
  | 1 => Some BannedState
  | 2 => Some Defunct
  | _ => None
  end.

Record PeerData := mkPeerData {
  pd_addr : PeerAddr; pd_capabilities : Z; pd_user_agent : list Z; flags : State; last_banned : Z;
  pd_ban_reason : ReasonForBan; last_connected : Z; pd_timestamp : Z }.

Definition write_peer_data (p : PeerData) : list Z :=
  write_peer_addr (pd_addr p) ++ write_u32 (pd_capabilities p) ++ write_bytes (pd_user_agent p)
  ++ write_u8 (state_to_u8 (flags p)) ++ write_i64 (last_banned p) ++ write_i32 (reason_to_i32 (pd_ban_reason p))
  ++ write_i64 (last_connected p) ++ write_i64 (pd_timestamp p).

(** The last two fields may be missing: the time is now. *)
Definition read_or (d : Z) (m : read Z) : read Z := fun r =>
  match m r with
  | Ok x => Ok x
  | Err _ => Ok (d, r)
  | Panic => Panic
  end.

Definition read_peer_data (now : Z) : read PeerData :=
  addr <- read_peer_addr ;; capab <- read_u32 ;; ua <- read_bytes_len_prefix ;;
  fl <- read_u8 ;; lb <- read_i64 ;; br <- read_i32 ;;
  lc <- read_or now read_i64 ;; lt <- read_or now read_i64 ;;
  user_agent <- utf8 ua ;;
  match reason_from_i32 br with
  | None => fail CorruptedData
  | Some reason =>
      match state_from_u8 fl with
      | Some flags => ret (mkPeerData addr (from_bits_truncate capab) user_agent flags lb reason lc lt)
      | None => fail CorruptedData
      end
  end.

Definition PEER_PREFIX : Z := 80.

(** ** Interfaces *)
(** What the network layer asks of the chain.  Files are their bytes; the temporary files of
    a download are left out. *)
Class ChainAdapter (S : Type) := {
  total_difficulty : S -> outcome chain_error Difficulty;
  total_height : S -> outcome chain_error Z;
  transaction_received : Transaction -> bool -> trans S chain_error bool;
  get_transaction : S -> Hash -> option Transaction;
  tx_kernel_received : Hash -> PeerInfo -> trans S chain_error bool;
  block_received : Block -> PeerInfo -> bool -> trans S chain_error bool;
  compact_block_received : CompactBlock -> PeerInfo -> trans S chain_error bool;
  header_received : BlockHeader -> PeerInfo -> trans S chain_error bool;
  headers_received : list BlockHeader -> PeerInfo -> trans S chain_error bool;
  locate_headers : S -> list Hash -> outcome chain_error (list BlockHeader);
  get_block : S -> Hash -> outcome chain_error (option Block);
  kernel_data_read : S -> outcome chain_error (list Z);
  kernel_data_write : list Z -> trans S chain_error bool;
  txhashset_read : S -> Hash -> option (list Z);
  txhashset_receive_ready : S -> bool;
  txhashset_download_update : Z -> Z -> Z -> S -> S;
  txhashset_write : Hash -> list Z -> PeerInfo -> trans S chain_error bool
}.

(** What it keeps itself. *)
Class NetAdapter (S : Type) := {
  net_chain :: ChainAdapter S;
  find_peer_addrs : S -> Z -> list PeerAddr;
  peer_addrs_received : list PeerAddr -> S -> S;
  peer_difficulty : PeerAddr -> Difficulty -> Z -> Z -> S -> S;
  is_banned : S -> PeerAddr -> bool
}.

(** [adapter]: the chain behind; [store]: the database; [peers]: the connected ones, by
    address; [heap]: all there have been. *)
Record Peers (S : Type) := mkPeers { adapter : S; store : Store; peers : gmap (list Z) nat; heap : list Peer }.
Arguments mkPeers {S} _ _ _ _.
Arguments adapter {S} _.
Arguments store {S} _.
Arguments peers {S} _.
Arguments heap {S} _.

Section Setters.
Context {S : Type}.
Definition set_adapter (a : S) (s : Peers S) : Peers S := mkPeers a (store s) (peers s) (heap s).
Definition set_store (d : Store) (s : Peers S) : Peers S := mkPeers (adapter s) d (peers s) (heap s).
Definition set_peers (m : gmap (list Z) nat) (s : Peers S) : Peers S := mkPeers (adapter s) (store s) m (heap s).
Definition set_heap (h : list Peer) (s : Peers S) : Peers S := mkPeers (adapter s) (store s) (peers s) h.

Definition on_adapter {A} (m : trans S chain_error A) : trans (Peers S) chain_error A := fun s =>
  let '(r, a) := m (adapter s) in (r, set_adapter a s).

(** A call on a peer: a reference never dangles. *)
Definition on_peer {E A} (id : nat) (m : trans Peer E A) : trans (Peers S) E A := fun s =>
  match heap s !! id with
  | Some p => let '(r, p) := m p in (r, set_heap (<[id := p]> (heap s)) s)
  | None => (Panic, s)
  end.
Definition alter_peer (id : nat) (f : Peer -> Peer) (s : Peers S) : Peers S := set_heap (alter f id (heap s)) s.
End Setters.

Section PeerMap.
Context `{Hasher} (c : ChainTypes) (ipv6_display : list Z -> list Z).

Definition ip_display (ip : IpAddr) : list Z :=
  match ip with
  | IpV4 octets => ipv4_display octets
  | IpV6 segments => ipv6_display segments
  end.

(** ["ip:port"] on the loopback interface, otherwise the address alone. *)
Definition as_key (a : PeerAddr) : list Z :=
  let ip := addr_ip (sock a) in
  if is_loopback ip then ip_display ip ++ 58 :: show_u16 (addr_port (sock a)) else ip_display ip.
Definition peer_key (a : PeerAddr) : list Z := to_key PEER_PREFIX (as_key a).

(** ** The database *)
(** The clock, in milliseconds; the database has seconds. *)
Context (now : Z).
Definition timestamp : Z := now / 1000.

Definition p2p_store {A} (m : outcome store_error A) : outcome p2p_error A := map_err P2PStore m.

Definition store_save_peer (d : Store) (p : PeerData) : outcome store_error Store :=
  let? b := put_ser (batch d) (peer_key (pd_addr p)) (Ok (write_peer_data p)) in Ok (commit b).
Definition store_get_peer (d : Store) (a : PeerAddr) : outcome store_error PeerData :=
  option_to_not_found (get_ser_access (read_peer_data timestamp) (db d) (peer_key a)).
Definition store_exists_peer (d : Store) (a : PeerAddr) : outcome store_error bool :=
  Ok (bool_decide (is_Some (db d !! peer_key a))).
Definition store_delete_peer (d : Store) (a : PeerAddr) : outcome store_error Store :=
  let? b := delete_key (batch d) (peer_key a) in Ok (commit b).

Definition store_all_peers (d : Store) : outcome store_error (list PeerData) :=
  let? l := ser_iter (read_peer_data timestamp) (db d) (to_key PEER_PREFIX []) in Ok (map snd l).

Context (shuffle : forall A, list A -> list A).
Arguments shuffle {A} _.

Definition store_find_peers (d : Store) (state : State) (cap : Z) (count : nat) : outcome store_error (list PeerData) :=
  let? l := store_all_peers d in
  Ok (take count (shuffle (filter (fun p => flags p = state /\ contains (pd_capabilities p) cap = true) l))).

Definition set_flags (new_state : State) (p : PeerData) : PeerData :=
  mkPeerData (pd_addr p) (pd_capabilities p) (pd_user_agent p) new_state
    (if decide (new_state = BannedState) then timestamp else last_banned p) (pd_ban_reason p) (last_connected p) (pd_timestamp p).

Definition store_update_state (d : Store) (a : PeerAddr) (new_state : State) : outcome store_error Store :=
  let b := batch d in
  let? peer := option_to_not_found (get_ser (read_peer_data timestamp) b (peer_key a)) in
  let? b := put_ser b (peer_key a) (Ok (write_peer_data (set_flags new_state peer))) in
  Ok (commit b).

(** All in one transaction: an error leaves the database as it was. *)
Definition store_delete_peers (d : Store) (predicate : PeerData -> bool) : outcome store_error Store :=
  let? l := store_all_peers d in
  match filter (fun p => predicate p = true) l with
  | [] => Ok d
  | to_remove => let? b := foldM (fun b p => delete_key b (peer_key (pd_addr p))) to_remove (batch d) in Ok (commit b)
  end.

(** ** Peers *)
Context {S : Type} `{ChainAdapter S} (config : P2PConfig).

Definition on_store (m : Store -> outcome store_error Store) : trans (Peers S) p2p_error () := fun s =>
  match p2p_store (m (store s)) with
  | Ok d => (Ok tt, set_store d s)
  | Err e => (Err e, s)
  | Panic => (Panic, s)
  end.

Definition save_peer (p : PeerData) : trans (Peers S) p2p_error () := on_store (fun d => store_save_peer d p).
Definition update_state (a : PeerAddr) (new_state : State) : trans (Peers S) p2p_error () :=
  on_store (fun d => store_update_state d a new_state).
Definition get_peer (s : Peers S) (a : PeerAddr) : outcome p2p_error PeerData := p2p_store (store_get_peer (store s) a).
Definition exists_peer (s : Peers S) (a : PeerAddr) : outcome p2p_error bool := p2p_store (store_exists_peer (store s) a).

(** Errors of the two listings are logged. *)
Definition all_peers (s : Peers S) : list PeerData :=
  match store_all_peers (store s) with
  | Ok l => l
  | _ => []
  end.
Definition find_peers (s : Peers S) (state : State) (cap : Z) (count : nat) : list PeerData :=
  match store_find_peers (store s) state cap count with
  | Ok l => l
  | _ => []
  end.

(** A newly connected peer is saved as healthy, whatever was known of its address. *)
Definition add_connected (id : nat) : trans (Peers S) p2p_error () := fun s =>
  match heap s !! id with
  | None => (Panic, s)
  | Some p =>
      let i := info p in
      (do! save_peer (mkPeerData (pi_addr i) (pi_capabilities i) (pi_user_agent i) Healthy 0 NoReason timestamp timestamp) then
       tmodify (fun s => set_peers (<[map_key (pi_addr i) := id]> (peers s)) s)) s
  end.

Definition add_banned (a : PeerAddr) (reason : ReasonForBan) : trans (Peers S) p2p_error () :=
  save_peer (mkPeerData a UNKNOWN [] BannedState timestamp reason timestamp timestamp).

Definition is_known (s : Peers S) (a : PeerAddr) : bool := bool_decide (is_Some (peers s !! map_key a)).
Definition get_connected_peer (s : Peers S) (a : PeerAddr) : option nat := peers s !! map_key a.

Definition peer_at (s : Peers S) (id : nat) (f : Peer -> bool) : bool :=
  match heap s !! id with
  | Some p => f p
  | None => false
  end.

Definition connected_peers (s : Peers S) : list nat :=
  shuffle (filter (fun id => peer_at s id is_connected = true) (map snd (map_to_list (peers s)))).
Definition outgoing_connected_peers (s : Peers S) : list nat :=
  filter (fun id => peer_at s id (fun p => is_outbound (info p)) = true) (connected_peers s).
Definition peer_count (s : Peers S) : Z := wrap32 (Z.of_nat (length (connected_peers s))).
Definition peer_outbound_count (s : Peers S) : Z := wrap32 (Z.of_nat (length (outgoing_connected_peers s))).

Definition with_difficulty (s : Peers S) (f : Difficulty -> bool) (id : nat) : bool :=
  peer_at s id (fun p => f (live_difficulty (live p))).

Definition more_work_peers (s : Peers S) : outcome chain_error (list nat) :=
  match connected_peers s with
  | [] => Ok []
  | l => let? total := total_difficulty (adapter s) in
         Ok (shuffle (filter (fun id => with_difficulty s (fun d => bool_decide (difficulty_cmp d total = Gt)) id = true) l))
  end.
Definition more_or_same_work_peers (s : Peers S) : outcome chain_error nat :=
  match connected_peers s with
  | [] => Ok 0%nat
  | l => let? total := total_difficulty (adapter s) in
         Ok (length (filter (fun id => with_difficulty s (fun d => bool_decide (difficulty_cmp d total <> Lt)) id = true) l))
  end.
Definition more_work_peer (s : Peers S) : option nat :=
  match more_work_peers s with
  | Ok l => last l
  | _ => None
  end.

(** The last of the largest. *)
Definition max_difficulty (l : list Difficulty) : option Difficulty :=
  match l with
  | [] => None
  | d :: l => Some (foldl (fun m d => if decide (difficulty_cmp d m = Lt) then m else d) d l)
  end.
Definition most_work_peers (s : Peers S) : list nat :=
  let l := connected_peers s in
  match max_difficulty (omap (fun id => (fun p => live_difficulty (live p)) <$> heap s !! id) l) with
  | None => []
  | Some m => shuffle (filter (fun id => with_difficulty s (fun d => bool_decide (d = m)) id = true) l)
  end.
Definition most_work_peer (s : Peers S) : option nat := last (most_work_peers s).

Definition peers_is_banned (s : Peers S) (a : PeerAddr) : bool :=
  match store_get_peer (store s) a with
  | Ok peer => bool_decide (flags peer = BannedState)
  | _ => false
  end.

(** The reason is sent to the peer; an error in sending it is logged. *)
Definition ban_peer (a : PeerAddr) (reason : ReasonForBan) (s : Peers S) : Peers S :=
  match update_state a BannedState s with
  | (Ok _, s) =>
      match get_connected_peer s a with
      | Some id =>
          let s := snd (on_peer id (send_ban_reason c now reason) s) in
          let s := alter_peer id (fun p => stop (set_banned p)) s in
          match heap s !! id with
          | Some p => set_peers (delete (map_key (pi_addr (info p))) (peers s)) s
          | None => s
          end
      | None => s
      end
  | (_, s) => s
  end.

Definition unban_peer (a : PeerAddr) (s : Peers S) : Peers S :=
  match get_peer s a with
  | Ok _ => if peers_is_banned s a then snd (update_state a Healthy s) else s
  | _ => s
  end.

Definition drop_peer (id : nat) (s : Peers S) : Peers S :=
  match heap s !! id with
  | Some p => set_peers (delete (map_key (pi_addr (info p))) (peers s)) (alter_peer id stop s)
  | None => s
  end.

(** A peer that cannot be sent to is dropped. *)
Fixpoint broadcast_loop (inner : trans Peer p2p_error bool) (l : list nat) (count : Z) (s : Peers S) : Z * Peers S :=
  match l with
  | [] => (count, s)
  | id :: l =>
      match on_peer id inner s with
      | (Ok true, s) => broadcast_loop inner l (count + 1) s
      | (Ok false, s) => broadcast_loop inner l count s
      | (_, s) => broadcast_loop inner l count (drop_peer id s)
      end
  end.
Definition broadcast (inner : trans Peer p2p_error bool) (s : Peers S) : Z * Peers S :=
  broadcast_loop inner (connected_peers s) 0 s.

Definition broadcast_compact_block (b : CompactBlock) (s : Peers S) : Peers S := snd (broadcast (send_compact_block c now b) s).
Definition broadcast_header (bh : BlockHeader) (s : Peers S) : Peers S := snd (broadcast (send_header c now bh) s).
Definition broadcast_transaction (t : Transaction) (s : Peers S) : Peers S := snd (broadcast (send_transaction c now t) s).

Definition check_all (d : Difficulty) (height ts : Z) (s : Peers S) : Peers S :=
  foldl (fun s id =>
    match on_peer id (send_ping c now d height ts) s with
    | (Ok _, s) => s
    | (_, s) => drop_peer id s
    end) s (connected_peers s).

(** *** Cleaning up *)
(** What to do with one peer: the addresses to remove, and the database with its state. *)
Definition clean_one (acc : list PeerAddr * Peers S) (id : nat) : list PeerAddr * Peers S :=
  let '(rm, s) := acc in
  match heap s !! id with
  | None => acc
  | Some p =>
      let a := pi_addr (info p) in
      if peer_is_banned p then (rm ++ [a], s)
      else if negb (is_connected p) then (rm ++ [a], s)
      else if is_abusive p then (rm ++ [a], snd (update_state a BannedState s))
      else
        let '(stuck, diff) := is_stuck now p in
        match total_difficulty (adapter s) with
        | Ok total => if stuck && bool_decide (difficulty_cmp diff total = Lt)
                      then (rm ++ [a], snd (update_state a Defunct s)) else acc
        | _ => acc
        end
  end.

Definition remove_addr (s : Peers S) (a : PeerAddr) : Peers S :=
  let s := match peers s !! map_key a with Some id => alter_peer id stop s | None => s end in
  set_peers (delete (map_key a) (peers s)) s.

Definition clean_peers (max_count : nat) (s : Peers S) : Peers S :=
  let '(rm, s) := foldl clean_one ([], s) (map snd (map_to_list (peers s))) in
  let excess_count := (Z.to_nat (peer_count s) - length rm - max_count)%nat in
  let addrs := omap (fun id => (fun p => pi_addr (info p)) <$> heap s !! id) (take excess_count (connected_peers s)) in
  foldl remove_addr s (rm ++ addrs).

Definition stop_all (s : Peers S) : Peers S :=
  set_peers ∅ (foldl (fun s id => alter_peer id stop s) s (map snd (map_to_list (peers s)))).

Definition enough_peers (s : Peers S) : bool := peer_count s >=? peer_min_preferred_count config.
Definition healthy_peers_mix (s : Peers S) : bool :=
  enough_peers s && (peer_outbound_count s >=? peer_min_preferred_count config / 2).

Definition PEER_EXPIRATION_REMOVE_TIME : Z := 7 * 2 * 24 * 3600.
Definition expired (peer : PeerData) : bool :=
  bool_decide (flags peer = Defunct) && (now - 1000 * last_connected peer >? 1000 * PEER_EXPIRATION_REMOVE_TIME).
Definition remove_expired (s : Peers S) : Peers S := snd (on_store (fun d => store_delete_peers d expired) s).

(** *** As an adapter *)
(** A verdict of the chain that what a peer sent is bad bans the peer. *)
Definition or_ban (m : trans S chain_error bool) (i : PeerInfo) (reason : ReasonForBan) : trans (Peers S) chain_error bool :=
  let! good := on_adapter m in
  if good then tret true else do! tmodify (ban_peer (pi_addr i) reason) then tret false.

#[local] Instance peers_chain_adapter : ChainAdapter (Peers S) := {|
  total_difficulty s := total_difficulty (adapter s);
  total_height s := total_height (adapter s);
  transaction_received t stem := on_adapter (transaction_received t stem);
  get_transaction s h := get_transaction (adapter s) h;
  tx_kernel_received h i := on_adapter (tx_kernel_received h i);
  block_received b i was_requested := or_ban (block_received b i was_requested) i BadBlock;
  compact_block_received cb i := or_ban (compact_block_received cb i) i BadCompactBlock;
  header_received bh i := or_ban (header_received bh i) i BadBlockHeader;
  headers_received bhs i := or_ban (headers_received bhs i) i BadBlockHeader;
  locate_headers s hs := locate_headers (adapter s) hs;
  get_block s h := get_block (adapter s) h;
  kernel_data_read s := kernel_data_read (adapter s);
  kernel_data_write bs := on_adapter (kernel_data_write bs);
  txhashset_read s h := txhashset_read (adapter s) h;
  txhashset_receive_ready s := txhashset_receive_ready (adapter s);
  txhashset_download_update start downloaded total s := set_adapter (txhashset_download_update start downloaded total (adapter s)) s;
  txhashset_write h bs i := or_ban (txhashset_write h bs i) i BadTxHashSet
|}.

(** An address that is not in the database is entered as healthy. *)
Definition receive_addr (s : Peers S) (a : PeerAddr) : Peers S :=
  match exists_peer s a with
  | Ok true => s
  | _ => snd (save_peer (mkPeerData a UNKNOWN [] Healthy 0 NoReason timestamp timestamp) s)
  end.

#[local] Instance peers_net_adapter : NetAdapter (Peers S) := {|
  net_chain := peers_chain_adapter;
  find_peer_addrs s capab := map pd_addr (find_peers s Healthy capab (Z.to_nat MAX_PEER_ADDRS));
  peer_addrs_received addrs s := foldl receive_addr s addrs;
  peer_difficulty a d height ts s :=
    match get_connected_peer s a with
    | Some id => alter_peer id (fun p => set_live (live_update now height d ts (live p)) p) s
    | None => s
    end;
  is_banned s a := match get_peer s a with Ok p => bool_decide (flags p = BannedState) | _ => false end
|}.

(** *** With a record of what went through *)
Definition track (id : nat) (h : Hash) : trans (Peers S) chain_error () := tmodify (alter_peer id (push_recv h)).

(** The hash of a stem transaction is not recorded. *)
Definition tracking_chain_adapter (id : nat) : ChainAdapter (Peers S) := {|
  total_difficulty := total_difficulty;
  total_height := total_height;
  transaction_received t stem :=
    do! (if stem then tret tt
         else let! kernel := tread (fun _ => unwrap (kernels (body t) !! 0%nat)) in track id (kernel_hash kernel)) then
    transaction_received t stem;
  get_transaction := get_transaction;
  tx_kernel_received h i := do! track id h then tx_kernel_received h i;
  block_received b i _ :=
    let! h := tread (fun _ => hash_of c (header b)) in
    do! track id h then
    fun s => block_received b i (peer_at s id (fun p => has_req p h)) s;
  compact_block_received cb i :=
    let! h := tread (fun _ => hash_of c (cb_header cb)) in do! track id h then compact_block_received cb i;
  header_received bh i := let! h := tread (fun _ => hash_of c bh) in do! track id h then header_received bh i;
  headers_received := headers_received;
  locate_headers := locate_headers;
  get_block := get_block;
  kernel_data_read := kernel_data_read;
  kernel_data_write := kernel_data_write;
  txhashset_read := txhashset_read;
  txhashset_receive_ready := txhashset_receive_ready;
  txhashset_download_update := txhashset_download_update;
  txhashset_write := txhashset_write
|}.

Definition tracking_net_adapter (id : nat) : NetAdapter (Peers S) := {|
  net_chain := tracking_chain_adapter id;
  find_peer_addrs := find_peer_addrs;
  peer_addrs_received := peer_addrs_received;
  peer_difficulty := peer_difficulty;
  is_banned := is_banned
|}.

End PeerMap.
