(* ===== verification/Protocol.v ===== *)
(** * Connections: the handshake and the handling of messages

    [p2p/src/handshake.rs]; [p2p/src/conn.rs]: one turn of the thread that serves a
    connection; [p2p/src/protocol.rs]: what a message does, against the interface
    [NetAdapter].  A response has its body and, for the two file transfers, the file after
    it.  The random nonce of a greeting or a compact block, and the clock, are arguments. *)
From S2P Require Import Prelude Ser Global Pow Reward Retarget Feijoada Committed Transaction Block ChainStore Pipe Msg Peers PeerMap.

(** ** The handshake *)
(** A socket: what arrives, what has been written, and the address of the other end. *)
Record conn := mkConn { incoming : stream; outgoing : list Z; remote : option SocketAddr }.

Definition from_conn {A} (m : trans stream p2p_error A) : trans conn p2p_error A := fun k =>
  let '(r, s) := m (incoming k) in (r, mkConn s (outgoing k) (remote k)).

Record Handshake := mkHandshake { nonces : list Z; self_addrs : list PeerAddr; genesis : Hash }.

Definition NONCES_CAP : nat := 100.
Definition ADDRS_CAP : nat := 10.

(** [push_back], then [pop_front] when the capacity is reached. *)
Definition ring_push {A} (cap : nat) (l : list A) (a : A) : list A :=
  let l := l ++ [a] in if (cap <=? length l)%nat then drop 1 l else l.

Definition next_nonce (nonce : Z) (hs : Handshake) : Handshake :=
  mkHandshake (ring_push NONCES_CAP (nonces hs) nonce) (self_addrs hs) (genesis hs).

(** The address of the connection, with the port the peer advertises. *)
Definition resolve_peer_addr (advertised : PeerAddr) (k : conn) : PeerAddr :=
  match remote k with
  | Some addr => mkPeerAddr (socket_new (addr_ip addr) (addr_port (sock advertised)))
  | None => advertised
  end.

Section Handshake.
Context (c : ChainTypes) (config : P2PConfig) (now : Z).

Definition write_message (body : list Z) (t : Type_) : trans conn p2p_error () :=
  let! buf := tread (fun _ => write_to_buf c (Ok body) t) in
  tmodify (fun k => mkConn (incoming k) (outgoing k ++ buf) (remote k)).

Definition initiate (nonce : Z) (capab : Z) (d : Difficulty) (self_addr : PeerAddr)
    : trans (Handshake * conn) p2p_error (PeerInfo * PeerLiveInfo) := fun '(hs, k) =>
  let hs := next_nonce nonce hs in
  match remote k with
  | None => (Err (Connection ConnectionAborted), (hs, k))
  | Some pa =>
      let peer_addr := mkPeerAddr pa in
      let hand := mkHand PROTOCOL_VERSION capab nonce (genesis hs) d self_addr peer_addr USER_AGENT in
      let '(r, k) :=
        (do! write_message (write_hand hand) T_Hand then
         let! shake := from_conn (read_message c read_shake T_Shake) in
         if decide (shake_genesis shake = genesis hs) then
           let i := mkInfo (shake_capabilities shake) (shake_user_agent shake) (shake_version shake) peer_addr Outbound in
           if is_denied config peer_addr then tfail ConnectionClose
           else tret (i, live_new now (shake_difficulty shake))
         else tfail (GenesisMismatch (genesis hs) (shake_genesis shake))) k in
      (r, (hs, k))
  end.

Definition accept (capab : Z) (d : Difficulty) : trans (Handshake * conn) p2p_error (PeerInfo * PeerLiveInfo) := fun '(hs, k) =>
  match from_conn (read_message c read_hand T_Hand) k with
  | (Ok hand, k) =>
      if negb (bool_decide (hand_genesis hand = genesis hs)) then (Err (GenesisMismatch (genesis hs) (hand_genesis hand)), (hs, k))
      else
        let addr := resolve_peer_addr (sender_addr hand) k in
        if bool_decide (hand_nonce hand ∈ nonces hs) then
          (Err PeerWithSelf, (mkHandshake (nonces hs) (ring_push ADDRS_CAP (self_addrs hs) addr) (genesis hs), k))
        else
          let i := mkInfo (hand_capabilities hand) (hand_user_agent hand) (hand_version hand) addr Inbound in
          if is_denied config addr then (Err ConnectionClose, (hs, k))
          else
            let shake := mkShake PROTOCOL_VERSION capab (genesis hs) d USER_AGENT in
            let '(r, k) :=
              (do! write_message (write_shake shake) T_Shake then tret (i, live_new now (hand_difficulty hand))) k in
            (r, (hs, k))
  | (Err e, k) => (Err e, (hs, k))
  | (Panic, k) => (Panic, (hs, k))
  end.
End Handshake.

(** ** Messages *)
Record Response := mkResponse { resp_type : Type_; resp_body : list Z; attachment : option (list Z) }.

Section Consume.
Context `{Hasher} `{Secp} (c : ChainTypes) (min_date max_date : Z) (siphash24 : Z -> Z -> list Z -> Z).
Context {W : Type} `{NetAdapter W} (inc_quiet_received : Z -> W -> W).
Context (now : Z) (random : Z).

Definition on_world {A} (m : trans W chain_error A) : trans (stream * W) p2p_error A := fun '(s, w) =>
  let '(r, w) := m w in (map_err P2PChain r, (s, w)).
Definition ask {A} (f : W -> outcome chain_error A) : trans (stream * W) p2p_error A :=
  tread (fun '(s, w) => map_err P2PChain (f w)).
Definition tell (f : W -> W) : trans (stream * W) p2p_error () := tmodify (fun '(s, w) => (s, f w)).
Definition on_stream {A} (m : trans stream p2p_error A) : trans (stream * W) p2p_error A := fun '(s, w) =>
  let '(r, s) := m s in (r, (s, w)).

(** [Response::new]. *)
Definition respond (t : Type_) (body : outcome ser_error (list Z)) : trans (stream * W) p2p_error (option Response) :=
  let! b := lift_ser body in tret (Some (mkResponse t b None)).
Definition respond_with (t : Type_) (body file : list Z) : trans (stream * W) p2p_error (option Response) :=
  tret (Some (mkResponse t body (Some file))).

(** [copy_attachment]: [len] bytes, at most 8,000 at a time. *)
Fixpoint copy_loop (fuel : nat) (len : nat) : trans stream p2p_error (list Z) :=
  match fuel, len with
  | O, _ | _, O => tret []
  | S fuel, _ =>
      let read_len := Nat.min 8000 len in
      let! buf := read_exact read_len true in
      let! rest := copy_loop fuel (len - read_len) in tret (buf ++ rest)
  end.
Definition copy_attachment (len : nat) : trans stream p2p_error (list Z) := copy_loop len len.

Definition read_kernel_data (total : nat) : trans (stream * W) p2p_error (list Z) :=
  match total with
  | O => tret []
  | _ => let! bs := on_stream (copy_attachment total) in
         do! tell (inc_quiet_received (Z.of_nat total)) then tret bs
  end.

(** The archive, in requests of at most 48,000 bytes. *)
Fixpoint save_txhashset_to_file (fuel total downloaded : nat) : trans (stream * W) p2p_error (list Z) :=
  match fuel with
  | O => tret []
  | S fuel =>
      let request_size := Nat.min 48000 (total - downloaded) in
      if (request_size =? 0)%nat then tret []
      else
        let! bs := on_stream (copy_attachment request_size) in
        let downloaded := (downloaded + request_size)%nat in
        do! tell (txhashset_download_update now (Z.of_nat downloaded) (Z.of_nat total)) then
        do! tell (inc_quiet_received (Z.of_nat request_size)) then
        let! rest := save_txhashset_to_file fuel total downloaded in tret (bs ++ rest)
  end.

(** The headers of one chunk, and the bytes they took. *)
Fixpoint stream_headers (n : nat) : trans stream p2p_error (list BlockHeader * Z) :=
  match n with
  | O => tret ([], 0)
  | S n =>
      let! x := read_item (read_header c min_date max_date) in
      let! rest := stream_headers n in tret (fst x :: fst rest, snd x +! snd rest)
  end.

(** Chunk after chunk, until one is refused: [None]. *)
Fixpoint consume_headers (fuel count : nat) (i : PeerInfo) (total : Z) : trans (stream * W) p2p_error (option Z) :=
  match fuel, count with
  | O, _ | _, O => tret (Some total)
  | S fuel, _ =>
      let chunk := Nat.min 32 count in
      let! x := on_stream (stream_headers chunk) in
      let! good := on_world (headers_received (fst x) i) in
      if good then consume_headers fuel (count - chunk) i (total +! snd x) else tret None
  end.

Definition consume (i : PeerInfo) (h : MsgHeader) : trans (stream * W) p2p_error (option Response) := fun sw =>
  if is_banned (snd sw) (pi_addr i) then (Ok None, sw)
  else
    (match msg_type h with
     | T_Ping =>
         let! ping := on_stream (read_message_body read_ping h) in
         do! tell (peer_difficulty (pi_addr i) (ping_difficulty ping) (ping_height ping) (ping_timestamp ping)) then
         let! d := ask total_difficulty in
         let! height := ask total_height in
         respond T_Pong (Ok (write_ping (mkPing d height (now / 1000))))
     | T_Pong =>
         let! pong := on_stream (read_message_body read_ping h) in
         do! tell (peer_difficulty (pi_addr i) (ping_difficulty pong) (ping_height pong) (ping_timestamp pong)) then
         tret None
     | T_BanReason =>
         do! on_stream (read_message_body read_ban_reason h) then tret None
     | T_TransactionKernel =>
         let! x := on_stream (read_message_body read_hash h) in
         do! on_world (tx_kernel_received x i) then tret None
     | T_GetTransaction =>
         let! x := on_stream (read_message_body read_hash h) in
         let! t := ask (fun w => Ok (get_transaction w x)) in
         match t with
         | Some t => respond T_Transaction (Ok (write_tx Full t))
         | None => tret None
         end
     | T_Transaction =>
         let! t := on_stream (read_message_body (read_tx c) h) in
         do! on_world (transaction_received t false) then tret None
     | T_StemTransaction =>
         let! t := on_stream (read_message_body (read_tx c) h) in
         do! on_world (transaction_received t true) then tret None
     | T_GetBlock =>
         let! x := on_stream (read_message_body read_hash h) in
         let! b := ask (fun w => get_block w x) in
         match b with
         | Some b => respond T_Block (write_block c Full b)
         | None => tret None
         end
     | T_Block =>
         let! b := on_stream (read_message_body (read_block c min_date max_date) h) in
         do! on_world (block_received b i false) then tret None
     | T_GetCompactBlock =>
         let! x := on_stream (read_message_body read_hash h) in
         let! b := ask (fun w => get_block w x) in
         match b with
         | Some b =>
             let! cb := tread (fun _ => match compact_from_block c siphash24 random b with Ok cb => Ok cb | _ => Panic end) in
             respond T_CompactBlock (write_compact_block c Full cb)
         | None => tret None
         end
     | T_CompactBlock =>
         let! cb := on_stream (read_message_body (read_compact_block c min_date max_date) h) in
         do! on_world (compact_block_received cb i) then tret None
     | T_GetHeaders =>
         let! loc := on_stream (read_message_body read_locator h) in
         let! hs := ask (fun w => locate_headers w (hashes loc)) in
         respond T_Headers (write_headers c (mkHeaders hs))
     | T_Header =>
         let! bh := on_stream (read_message_body (read_header c min_date max_date) h) in
         do! on_world (header_received bh i) then tret None
     | T_Headers =>
         let! x := on_stream (read_item read_u16) in
         let count := Z.to_nat (fst x) in
         let! total := consume_headers count count i (snd x) in
         match total with
         | None => tret None
         | Some total => if total =? msg_len h then tret None else tfail MsgLen
         end
     | T_GetPeerAddrs =>
         let! g := on_stream (read_message_body read_get_peer_addrs h) in
         let! l := ask (fun w => Ok (find_peer_addrs w (gpa_capabilities g))) in
         respond T_PeerAddrs (Ok (write_peer_addrs (mkPeerAddrs l)))
     | T_PeerAddrs =>
         let! p := on_stream (read_message_body read_peer_addrs h) in
         do! tell (peer_addrs_received (pa_peers p)) then tret None
     | T_KernelDataRequest =>
         let! file := ask kernel_data_read in
         respond_with T_KernelDataResponse (write_kernel_data_response (mkKernelDataResponse (Z.of_nat (length file)))) file
     | T_KernelDataResponse =>
         let! response := on_stream (read_message_body read_kernel_data_response h) in
         let! file := read_kernel_data (Z.to_nat (kd_bytes response)) in
         do! on_world (kernel_data_write file) then tret None
     | T_TxHashSetRequest =>
         let! req := on_stream (read_message_body read_txhashset_request h) in
         let! file := ask (fun w => Ok (txhashset_read w (req_hash req))) in
         match file with
         | Some file =>
             respond_with T_TxHashSetArchive
               (write_txhashset_archive (mkTxHashSetArchive (req_hash req) (req_height req) (Z.of_nat (length file)))) file
         | None => tret None
         end
     | T_TxHashSetArchive =>
         let! arch := on_stream (read_message_body read_txhashset_archive h) in
         let! ready := ask (fun w => Ok (txhashset_receive_ready w)) in
         if negb ready then tfail BadMessage
         else
           let total := Z.to_nat (arch_bytes arch) in
           do! tell (txhashset_download_update now 0 (arch_bytes arch)) then
           let! file := save_txhashset_to_file (S total) total 0 in
           do! on_world (txhashset_write (arch_hash arch) file i) then tret None
     | T_Error | T_Hand | T_Shake => tret None
     end) sw.

(** ** A turn of the connection's thread *)
(** [try_break!]: the errors that do not end the connection. *)
Definition survives (e : p2p_error) : bool :=
  match e with
  | Connection WouldBlock | P2PStore _ | P2PChain _ | Internal | NoDandelionRelay => true
  | _ => false
  end.

Inductive turn : Type := Continue | Break | Dead.

(** Where the counters of the connection are. *)
Context (inc_received inc_sent inc_quiet_sent : Z -> W -> W).

Record served := mkServed { arrived : stream; world : W; written : list Z }.

(** [Response::write]: the header, the body, then the file. *)
Definition write_response (r : Response) (v : served) : served :=
  let msg := write_msg_header (msg_header_new c (resp_type r) (Z.of_nat (length (resp_body r)))) ++ resp_body r in
  let w := inc_sent (Z.of_nat (length msg)) (world v) in
  match attachment r with
  | Some file => mkServed (arrived v) (inc_quiet_sent (Z.of_nat (length file)) w) (written v ++ msg ++ file)
  | None => mkServed (arrived v) w (written v ++ msg)
  end.

(** The reading half of the loop of [poll]. *)
Definition poll_read (i : PeerInfo) (v : served) : turn * served :=
  let carry_on e s w := (if survives e then Continue else Break, mkServed s w (written v)) in
  match read_stream_header c None (arrived v) with
  | (Ok (Known h), s) =>
      match consume i h (s, inc_received (Z.of_nat MsgHeader_LEN +! msg_len h) (world v)) with
      | (Ok (Some resp), (s, w)) => (Continue, write_response resp (mkServed s w (written v)))
      | (Ok None, (s, w)) => (Continue, mkServed s w (written v))
      | (Err e, (s, w)) => carry_on e s w
      | (Panic, (s, w)) => (Dead, mkServed s w (written v))
      end
  | (Ok (Unknown len), s) =>
      let w := inc_received (Z.of_nat MsgHeader_LEN +! len) (world v) in
      match read_discard len s with
      | (Ok _, s) => (Continue, mkServed s w (written v))
      | (Err e, s) => carry_on e s w
      | (Panic, s) => (Dead, mkServed s w (written v))
      end
  | (Err e, s) => carry_on e s (world v)
  | (Panic, s) => (Dead, mkServed s (world v) (written v))
  end.

End Consume.
