(* ===== verification/Server.v ===== *)
(** * The peer-to-peer server and its seeding

    [Peer::new] of [p2p/src/peer.rs] and the loop of [p2p/src/conn.rs] on the peers of a
    node; [p2p/src/serv.rs]: who is let in and who is dialled; [servers/src/epic/seed.rs]: the
    thread that unbans, cleans up, asks for addresses and dials.  A dialled or accepted
    socket is an argument ([conn] of the handshake); a thread that dials is run at once. *)
From S2P Require Import Prelude Ser Global Pow Reward Retarget Feijoada Committed Transaction Block ChainStore Pipe Msg Peers PeerMap Protocol.

(** ** Serving a connection *)
Section Serving.
Context `{Hasher} `{Secp} (c : ChainTypes) (min_date max_date : Z) (siphash24 : Z -> Z -> list Z -> Z).
Context (disp : list Z -> list Z) (shuffle : forall A, list A -> list A) (now random : Z).
Context {S : Type} `{ChainAdapter S}.

(** The counters of a connection are those of its peer. *)
Definition count_received (id : nat) (n : Z) : Peers S -> Peers S :=
  alter_peer id (fun p => set_counters (sent_bytes p) (rate_inc now n (received_bytes p)) p).
Definition count_sent (id : nat) (n : Z) : Peers S -> Peers S :=
  alter_peer id (fun p => set_counters (rate_inc now n (sent_bytes p)) (received_bytes p) p).
Definition count_quiet_received (id : nat) (n : Z) : Peers S -> Peers S :=
  alter_peer id (fun p => set_counters (sent_bytes p) (rate_inc_quiet now n (received_bytes p)) p).
Definition count_quiet_sent (id : nat) (n : Z) : Peers S -> Peers S :=
  alter_peer id (fun p => set_counters (rate_inc_quiet now n (sent_bytes p)) (received_bytes p) p).

(** The handler of a peer's connection goes through its tracking adapter. *)
Definition handle (id : nat) : PeerInfo -> MsgHeader -> trans (stream * Peers S) p2p_error (option Response) :=
  @consume _ _ c min_date max_date siphash24 (Peers S) (tracking_net_adapter c disp now shuffle id)
    (count_quiet_received id) now random.

Definition peer_turn (id : nat) : PeerInfo -> served -> turn * served :=
  @poll_read _ _ c min_date max_date siphash24 (Peers S) (tracking_net_adapter c disp now shuffle id)
    (count_quiet_received id) now random (count_received id) (count_sent id) (count_quiet_sent id).

(** The other half of the turn: one message off the channel; then, whether to stop. *)
Definition peer_turn_write (id : nat) (v : served (W := Peers S)) : turn * served (W := Peers S) :=
  match heap (world v) !! id with
  | Some p =>
      let v := match outbox p with
               | data :: rest => mkServed (arrived v) (alter_peer id (set_outbox rest) (world v)) (written v ++ data)
               | [] => v
               end in
      (if stopped p then Break else Continue, v)
  | None => (Continue, v)
  end.
End Serving.

Record Server (S : Type) := mkServer { handshake : Handshake; srv_peers : Peers S }.
Arguments mkServer {S} _ _.
Arguments handshake {S} _.
Arguments srv_peers {S} _.

Section Server.
Context `{Hasher} (c : ChainTypes) (disp : list Z -> list Z) (config : P2PConfig) (capabilities : Z) (now : Z).
Context {S : Type} `{ChainAdapter S}.

Definition on_peers {A} (m : trans (Peers S) p2p_error A) : trans (Server S) p2p_error A := fun s =>
  let '(r, p) := m (srv_peers s) in (r, mkServer (handshake s) p).

(** A handshake on a socket; a connection that succeeds is a new peer. *)
Definition new_peer (m : trans (Handshake * conn) p2p_error (PeerInfo * PeerLiveInfo)) (k : conn) : trans (Server S) p2p_error nat := fun s =>
  match m (handshake s, k) with
  | (Ok (i, l), (hs, _)) =>
      let p := srv_peers s in
      (Ok (length (heap p)), mkServer hs (set_heap (heap p ++ [peer_new i l]) p))
  | (Err e, (hs, _)) => (Err e, mkServer hs (srv_peers s))
  | (Panic, (hs, _)) => (Panic, mkServer hs (srv_peers s))
  end.

Definition our_difficulty : trans (Server S) p2p_error Difficulty :=
  tread (fun s => map_err P2PChain (total_difficulty (adapter (srv_peers s)))).

(** *** Accepting *)
Definition check_undesirable (k : conn) (s : Server S) : bool :=
  match remote k with
  | Some pa => peers_is_banned disp now (srv_peers s) (mkPeerAddr pa) || is_known (srv_peers s) (mkPeerAddr pa)
  | None => false
  end.

Definition handle_new_peer (is_stopped : bool) (k : conn) : trans (Server S) p2p_error () :=
  if is_stopped then tfail ConnectionClose
  else
    let! d := our_difficulty in
    let! id := new_peer (accept c config now capabilities d) k in
    on_peers (add_connected disp now id).

(** What [listen] does with an accepted socket: any failure but a closed connection bans
    the address. *)
Definition listen_one (is_stopped : bool) (peer_addr : SocketAddr) (k : conn) (s : Server S) : Server S :=
  if check_undesirable k s then s
  else
    match handle_new_peer is_stopped k s with
    | (Err ConnectionClose, s) => s
    | (Err _, s) => snd (on_peers (add_banned disp now (mkPeerAddr peer_addr) BadHandshake) s)
    | (_, s) => s
    end.

(** *** Dialling *)
Definition connect (is_stopped : bool) (dial : PeerAddr -> option conn) (nonce : Z) (a : PeerAddr)
    : trans (Server S) p2p_error nat := fun s =>
  if is_stopped then (Err ConnectionClose, s)
  else if is_denied config a then (Err ConnectionClose, s)
  else if is_production_mode c && addrs_contain (self_addrs (handshake s)) a then (Err PeerWithSelf, s)
  else
    match get_connected_peer (srv_peers s) a with
    | Some id => (Ok id, s)
    | None =>
        match dial a with
        | None => (Err (Connection TimedOut), s)
        | Some k =>
            (let! d := our_difficulty in
             let! id := new_peer (initiate c config now nonce capabilities d
                                    (mkPeerAddr (socket_new (cfg_host config) (cfg_port config)))) k in
             do! on_peers (add_connected disp now id) then tret id) s
        end
    end.

Definition server_stop (s : Server S) : Server S := mkServer (handshake s) (stop_all (srv_peers s)).

(** ** Seeding *)
Context (shuffle : forall A, list A -> list A).

(** The unbanning half of the survey of the database. *)
Definition survey_one (acc : Peers S * list PeerData) (x : PeerData) : Peers S * list PeerData :=
  let '(s, defuncts) := acc in
  match flags x with
  | BannedState => if timestamp now - last_banned x >=? ban_window config then (unban_peer disp now (pd_addr x) s, defuncts) else acc
  | Healthy => acc
  | Defunct => (s, defuncts ++ [x])
  end.

(** The network time: the offsets of the peers' clocks, sorted, and their middle. *)
Definition i64_le : relation Z := Z.le.
Definition median_ts (ts : list Z) : outcome p2p_error Z :=
  let ts := merge_sort i64_le ts in
  let half := (length ts / 2)%nat in
  if (length ts mod 2 =? 0)%nat then unwrap (ts !! half)
  else
    let? a := unwrap (ts !! (half - 1)%nat) in
    let? b := unwrap (ts !! half) in
    Ok (Z.quot (wrap_i64 (a + b)) 2).

(** What is stored as the offset: a time of day when it is not positive. *)
Definition set_network_adjusted_time (t : Z) : Z := if t <=? 0 then timestamp now else t.

(** A request to every connected peer, their addresses and the offsets of their clocks. *)
Definition ask_peers (s : Peers S) : Peers S * list PeerAddr * list Z :=
  foldl (fun '(s, addrs, ts) id =>
    match heap s !! id with
    | Some p => (snd (on_peer id (send_peer_request c now PEER_LIST) s), addrs ++ [pi_addr (info p)],
                 ts ++ [wrap_i64 (live_timestamp (live p) - timestamp now)])
    | None => (s, addrs, ts)
    end) (s, [], []) (connected_peers shuffle s).

(** The peers after, the addresses queued for dialling, and the network time if it is set. *)
Definition monitor_peers (preferred : option (list PeerAddr)) (s : Peers S) : outcome p2p_error (Peers S * list PeerAddr * option Z) :=
  let '(s, defuncts) := foldl survey_one (s, []) (all_peers now s) in
  let s := clean_peers disp now shuffle (Z.to_nat (peer_max_count config)) s in
  if healthy_peers_mix shuffle config s then Ok (s, [], None)
  else
    let '(s, connected, ts) := ask_peers s in
    let? time := (if (1 <? length ts)%nat then let? m := median_ts ts in Ok (Some (set_network_adjusted_time m)) else Ok None) in
    let preferred := filter (fun p => connected = [] \/ addrs_contain connected p = false) (default [] preferred) in
    let s := match shuffle _ defuncts with
             | x :: _ => snd (update_state disp now (pd_addr x) Healthy s)
             | [] => s
             end in
    let new_peers := find_peers now shuffle s Healthy UNKNOWN (Z.to_nat (peer_max_count config)) in
    Ok (s, preferred ++ map pd_addr (filter (fun p => is_known s (pd_addr p) = false) new_peers), time).

Definition connect_to_seeds_and_preferred_peers (seed_list : list PeerAddr) (preferred : option (list PeerAddr)) (s : Peers S) : list PeerAddr :=
  let l := find_peers now shuffle s Healthy PEER_LIST 100 in
  (if (3 <? length l)%nat then map pd_addr l else seed_list) ++ default [] preferred.

(** One address off the queue, unless it was dialled within 30 seconds; the history is by
    address, in milliseconds. *)
Definition dial_one (is_stopped : bool) (dial : PeerAddr -> option conn) (nonce : PeerAddr -> Z) (capab : Z)
    (acc : Server S * gmap (list Z) Z) (a : PeerAddr) : Server S * gmap (list Z) Z :=
  let '(s, history) := acc in
  if match history !! map_key a with Some t => t + 30000 >? now | None => false end then acc
  else
    let history := <[map_key a := now]> history in
    match connect is_stopped dial (nonce a) a s with
    | (Ok id, s) =>
        match on_peers (on_peer id (send_peer_request c now capab)) s with
        | (Ok _, s) => (snd (on_peers (update_state disp now a Healthy) s), history)
        | (_, s) => (s, history)
        end
    | (Err _, s) => (snd (on_peers (update_state disp now a Defunct) s), history)
    | (Panic, s) => (s, history)
    end.

Definition listen_for_addrs (is_stopped : bool) (dial : PeerAddr -> option conn) (nonce : PeerAddr -> Z) (capab : Z)
    (addrs : list PeerAddr) (s : Server S) (history : gmap (list Z) Z) : Server S * gmap (list Z) Z :=
  let p := srv_peers s in
  if (peer_count shuffle p >? peer_outbound_count shuffle p) && healthy_peers_mix shuffle config p then (s, history)
  else
    let '(s, history) := foldl (dial_one is_stopped dial nonce capab) (s, history) (take (Z.to_nat (peer_max_count config)) addrs) in
    (s, if (100 <? size history)%nat then filter (fun x => ~ x.2 + 30000 < now) history else history).

End Server.
