(* ===== verification/PeersTheory.v ===== *)
(** * Peers: bans, the map and its database

    Addresses compare equal exactly when their keys are equal; what is saved of a peer is
    what is read; a ban is entered under every spelling of the address, takes the peer out
    of the map and stops it; every operation keeps the map and the heap coherent; cleaning up
    removes the bad peers and, when there are none, keeps the count within its limit. *)
From S2P Require Import Prelude Ser Global Pow Reward Feijoada Committed Transaction Block BlockTheory ChainStore Pipe Msg MsgTheory Peers PeerMap.

(** ** Keys *)
Lemma map_key_eq a b : map_key a = map_key b <-> peer_addr_eq a b = true.
Proof.
  destruct a as [a], b as [b]. unfold map_key, peer_addr_eq. cbn [sock].
  assert (forall x y, ip_words x = ip_words y <-> x = y) as Hip.
  { intros [] []; cbn [ip_words]; split; congruence. }
  assert (forall x y, socket_words x = socket_words y <-> x = y) as Hsock.
  { intros [] []; cbn [socket_words]; split; congruence. }
  destruct (is_loopback (addr_ip a)) eqn:Ea, (is_loopback (addr_ip b)) eqn:Eb; rewrite bool_decide_eq_true.
  - rewrite <- Hsock. split; congruence.
  - split; [congruence|]. intros ->. congruence.
  - split; [congruence|]. intros E. rewrite E in Ea. congruence.
  - rewrite <- Hip. split; congruence.
Qed.

#[export] Instance peer_addr_equiv : Equivalence (fun a b => peer_addr_eq a b = true).
Proof.
  split.
  - intros a. by apply map_key_eq.
  - intros a b. rewrite <- !map_key_eq. congruence.
  - intros a b d. rewrite <- !map_key_eq. congruence.
Qed.

(** *** The printed form of an IPv4 address *)
Definition is_digit (x : Z) : Prop := 48 <= x < 58.
Definition undigits (l : list Z) : Z := foldl (fun acc d => acc * 10 + (d - 48)) 0 l.

Lemma digits_spec fuel x : 0 <= x < 10 ^ Z.of_nat fuel -> undigits (digits fuel x) = x /\ Forall is_digit (digits fuel x).
Proof.
  revert x. induction fuel as [|fuel IH]; intros x Hx; [change (10 ^ Z.of_nat 0) with 1 in Hx; cbn; split; [lia|done]|].
  cbn [digits]. rewrite Nat2Z.inj_succ, Z.pow_succ_r in Hx by lia. destruct (Z.ltb_spec x 10) as [Hs|Hs].
  - split; [cbn; lia|]. constructor; [unfold is_digit; lia|done].
  - pose proof (Z.mod_pos_bound x 10 ltac:(lia)). pose proof (Z.div_mod x 10 ltac:(lia)).
    assert (0 <= x / 10 < 10 ^ Z.of_nat fuel) as Hq by (split; [apply Z.div_pos; lia|apply Z.div_lt_upper_bound; lia]).
    destruct (IH _ Hq) as [Hu Hd]. split.
    + unfold undigits in *. rewrite foldl_snoc, Hu. lia.
    + apply Forall_app. split; [done|]. constructor; [unfold is_digit; lia|done].
Qed.

Lemma show_u16_inj x y : u16_ok x -> u16_ok y -> show_u16 x = show_u16 y -> x = y.
Proof.
  unfold u16_ok, show_u16. intros Hx Hy E.
  rewrite <- (proj1 (digits_spec 5 x ltac:(change (10 ^ Z.of_nat 5) with 100000; lia))).
  rewrite <- (proj1 (digits_spec 5 y ltac:(change (10 ^ Z.of_nat 5) with 100000; lia))). by rewrite E.
Qed.

Lemma show_u16_digits x : u16_ok x -> Forall is_digit (show_u16 x).
Proof. unfold u16_ok. intros Hx. apply digits_spec. change (10 ^ Z.of_nat 5) with 100000. lia. Qed.

(** Up to the first separator. *)
Lemma split_at_sep sep a b a' b' :
  Forall is_digit a -> Forall is_digit a' -> ~ is_digit sep -> a ++ sep :: b = a' ++ sep :: b' -> a = a' /\ b = b'.
Proof.
  intros Ha Ha' Hs. revert a' Ha'. induction Ha as [|x a Hx _ IH]; intros a' Ha' E; destruct Ha' as [|x' a' Hx' Ha'].
  - by injection E as ->.
  - injection E as -> _. done.
  - injection E as -> _. done.
  - injection E as -> E. destruct (IH a' Ha' E) as [-> ->]. done.
Qed.

Lemma byte_u16 x : is_byte x -> u16_ok x.
Proof. unfold is_byte, u16_ok. lia. Qed.

Lemma no_digit_sep sep : sep = 46 \/ sep = 58 -> ~ is_digit sep.
Proof. unfold is_digit. lia. Qed.

(** Four octets and what follows them. *)
Lemma ipv4_display_inj l l' t t' :
  array_ok 4 l -> array_ok 4 l' -> (t = [] /\ t' = [] \/ exists u u', t = 58 :: u /\ t' = 58 :: u') ->
  ipv4_display l ++ t = ipv4_display l' ++ t' -> l = l' /\ t = t'.
Proof.
  intros [Hl Hb] [Hl' Hb'] Ht. destruct l as [|a [|b [|d [|e [|]]]]]; try discriminate Hl.
  destruct l' as [|a' [|b' [|d' [|e' [|]]]]]; try discriminate Hl'. cbn [ipv4_display].
  rewrite !Forall_cons in Hb. rewrite !Forall_cons in Hb'.
  destruct Hb as (Ha & Hb & Hd & He & _), Hb' as (Ha' & Hb' & Hd' & He' & _).
  apply byte_u16 in Ha, Hb, Hd, He, Ha', Hb', Hd', He'.
  pose proof (no_digit_sep 46 ltac:(by left)) as Hdot. pose proof (no_digit_sep 58 ltac:(by right)) as Hcol.
  intros E. rewrite <- !app_assoc in E. cbn [app] in E.
  apply split_at_sep in E as [E1 E]; [|by apply show_u16_digits..|done].
  rewrite <- !app_assoc in E. cbn [app] in E.
  apply split_at_sep in E as [E2 E]; [|by apply show_u16_digits..|done].
  rewrite <- !app_assoc in E. cbn [app] in E.
  apply split_at_sep in E as [E3 E]; [|by apply show_u16_digits..|done].
  assert (e = e' /\ t = t') as [-> ->].
  { destruct Ht as [[-> ->]|(u & u' & -> & ->)].
    - rewrite !app_nil_r in E. split; [by apply show_u16_inj|done].
    - apply split_at_sep in E as [E4 ->]; [|by apply show_u16_digits..|done]. split; [by apply show_u16_inj|done]. }
  by rewrite (show_u16_inj a a'), (show_u16_inj b b'), (show_u16_inj d d').
Qed.

(** Two IPv4 addresses have one record in the database exactly when they compare equal. *)
Lemma peer_key_v4 disp ip port ip' port' :
  let a := mkPeerAddr (SocketV4 ip port) in
  let b := mkPeerAddr (SocketV4 ip' port') in
  addr_ok a -> addr_ok b -> peer_key disp a = peer_key disp b <-> peer_addr_eq a b = true.
Proof.
  intros a b [Hip Hp] [Hip' Hp']. unfold a, b, peer_key, as_key, peer_addr_eq. cbn [sock addr_ip addr_port ip_display].
  assert (forall l l', array_ok 4 l -> array_ok 4 l' -> ipv4_display l = ipv4_display l' -> l = l') as Hinj.
  { intros l l' Hl Hl' E. eapply (ipv4_display_inj l l' [] []); [done|done|by left|by rewrite E]. }
  assert (forall l, array_ok 4 l -> 58 ∉ ipv4_display l) as Hno.
  { intros l [Hl Hb] Hin. destruct l as [|x [|y [|z [|w [|]]]]]; try discriminate Hl. cbn [ipv4_display] in Hin.
    rewrite !Forall_cons in Hb. destruct Hb as (H1 & H2 & H3 & H4 & _). apply byte_u16 in H1, H2, H3, H4.
    assert (forall x, u16_ok x -> 58 ∉ show_u16 x) as Hs.
    { intros u Hu Hi. pose proof (show_u16_digits u Hu) as Hd. rewrite Forall_forall in Hd. specialize (Hd _ Hi). unfold is_digit in Hd. lia. }
    rewrite elem_of_app, elem_of_cons, elem_of_app, elem_of_cons, elem_of_app, elem_of_cons in Hin.
    destruct Hin as [Hi|[Hi|[Hi|[Hi|[Hi|[Hi|Hi]]]]]]; [exact (Hs _ H1 Hi)|done|exact (Hs _ H2 Hi)|done|exact (Hs _ H3 Hi)|done|exact (Hs _ H4 Hi)]. }
  unfold to_key. destruct (is_loopback (IpV4 ip)) eqn:Ea, (is_loopback (IpV4 ip')) eqn:Eb; rewrite bool_decide_eq_true.
  - split; [|congruence]. intros E. injection E as E.
    apply (ipv4_display_inj ip ip') in E as [-> E]; [|done|done|right; eauto]. injection E as E. by rewrite (show_u16_inj port port').
  - split; [|intros [= -> ->]; congruence]. intros E. injection E as E. exfalso. apply (Hno ip' Hip'). rewrite <- E. set_solver.
  - split; [|intros [= ->]; congruence]. intros E. injection E as E. exfalso. apply (Hno ip Hip). rewrite E. set_solver.
  - split; [|intros [= ->]; done]. intros E. injection E as E. by rewrite (Hinj ip ip').
Qed.

(** ** The database *)
Definition data_ok (p : PeerData) : Prop :=
  addr_ok (pd_addr p) /\ caps_ok (pd_capabilities p) /\ string_ok 100000 (pd_user_agent p)
  /\ is_i64 (last_banned p) /\ is_i64 (last_connected p) /\ is_i64 (pd_timestamp p).

Lemma bin_reads_or d m bs x : bin_reads m bs x -> bin_reads (read_or d m) bs x.
Proof. intros Hm rest total Ht. unfold read_or. by rewrite Hm. Qed.

Lemma bin_reads_reason r : bin_reads read_i32 (write_i32 (reason_to_i32 r)) (reason_to_i32 r).
Proof.
  apply reads_bin. intros k rest total Ht.
  rewrite (reads_map (read_uint 4) (fun x => (x + 2 ^ 31) mod 2 ^ 32 - 2 ^ 31) _ _ (reads_uint_mod 4 (reason_to_i32 r))) by done.
  by destruct r.
Qed.

Lemma bin_reads_peer_data now p : data_ok p -> bin_reads (read_peer_data now) (write_peer_data p) p.
Proof.
  destruct p as [a cp ua f lb br lc ts]. intros (Ha & Hc & [Hu Hl] & Hlb & Hlc & Hts).
  cbn [pd_addr pd_capabilities pd_user_agent last_banned last_connected pd_timestamp] in *.
  unfold write_peer_data, read_peer_data.
  cbn [pd_addr pd_capabilities pd_user_agent flags last_banned pd_ban_reason last_connected pd_timestamp].
  eapply bin_reads_bind; [by apply reads_bin, reads_peer_addr|].
  eapply bin_reads_bind; [by apply reads_bin, (reads_uint 4), caps_u32|].
  eapply bin_reads_bind; [by apply bin_reads_len_prefix|].
  eapply bin_reads_bind; [apply reads_bin, (reads_uint 1); by destruct f|].
  eapply bin_reads_bind; [by apply reads_bin, reads_i64|].
  eapply bin_reads_bind; [apply bin_reads_reason|].
  eapply bin_reads_bind; [by apply bin_reads_or, reads_bin, reads_i64|].
  rewrite <- (app_nil_r (write_i64 ts)). eapply bin_reads_bind; [by apply bin_reads_or, reads_bin, reads_i64|].
  apply bin_reads_utf8; [done|]. rewrite (from_bits_truncate_id cp Hc).
  by destruct br, f; cbn [reason_from_i32 reason_to_i32 state_from_u8 state_to_u8]; apply bin_reads_ret.
Qed.

Section Store.
Context (disp : list Z -> list Z) (now : Z).
Hypothesis clock : is_i64 (timestamp now).

Abbreviation key := (peer_key disp).

Lemma store_get_saved d p b :
  data_ok p -> key b = key (pd_addr p) ->
  exists d', store_save_peer disp d p = Ok d' /\ store_get_peer disp now d' b = Ok p
    /\ (forall x, key x <> key (pd_addr p) -> store_get_peer disp now d' x = store_get_peer disp now d x).
Proof.
  intros Hp Hk. eexists. split; [reflexivity|]. unfold store_get_peer, get_ser_access. cbn [db commit tx batch committed].
  rewrite Hk, lookup_insert_eq. split.
  - by rewrite (bin_reads_deserialize _ _ _ (bin_reads_peer_data _ p Hp)).
  - intros x Hx. by rewrite lookup_insert_ne.
Qed.

Lemma set_flags_ok st p : data_ok p -> data_ok (set_flags now st p).
Proof. intros (? & ? & ? & ? & ? & ?). unfold data_ok, set_flags. cbn. destruct (decide _); by split_and!. Qed.

(** What is in the database under a key, for every address with that key. *)
Lemma store_update_exact d a st p :
  store_get_peer disp now d a = Ok p -> data_ok p ->
  exists d', store_update_state disp now d a st = Ok d'
    /\ (forall b, key b = key a -> store_get_peer disp now d' b = Ok (set_flags now st p))
    /\ (forall b, key b <> key a -> store_get_peer disp now d' b = store_get_peer disp now d b).
Proof.
  intros Hg Hp. unfold store_update_state. unfold store_get_peer, get_ser in *. cbn [tx batch]. rewrite Hg. cbn [bind].
  eexists. split; [reflexivity|]. unfold get_ser_access. cbn [db commit tx batch committed]. split.
  - intros b ->. rewrite lookup_insert_eq.
    by rewrite (bin_reads_deserialize _ _ _ (bin_reads_peer_data _ _ (set_flags_ok st p Hp))).
  - intros b Hb. by rewrite lookup_insert_ne.
Qed.

(** A record read is well formed, whatever the bytes. *)
Lemma typed_or d m P : P d -> typed m P -> typed (read_or d m) P.
Proof. intros Hd Hm r Hr. unfold read_or. specialize (Hm r Hr). by destruct (m r) as [[x r']|e|]. Qed.

Lemma typed_peer_data : typed (read_peer_data (timestamp now)) data_ok.
Proof.
  unfold read_peer_data. eapply typed_bind; [apply typed_peer_addr|]. intros a Ha.
  eapply typed_bind; [apply (typed_uint 4)|]. intros cp _. eapply typed_bind; [apply typed_len_prefix|]. intros ua Hl.
  eapply typed_bind; [apply (typed_uint 1)|]. intros fl _.
  assert (typed read_i64 is_i64) as H64 by (eapply typed_map; [apply (typed_uint 8)|intros; apply wrap_i64_range]).
  eapply typed_bind; [exact H64|]. intros lb Hlb.
  eapply typed_bind; [eapply (typed_map _ _ _ (fun _ => True)); [apply (typed_uint 4)|done]|]. intros br _.
  eapply typed_bind; [by apply typed_or|]. intros lc Hlc. eapply typed_bind; [by apply typed_or|]. intros lt Hlt.
  eapply typed_bind; [apply typed_utf8|]. intros s [-> Hu].
  destruct (reason_from_i32 br); [|apply typed_fail]. destruct (state_from_u8 fl); [|apply typed_fail].
  apply typed_ret. pose proof (from_bits_truncate_ok cp). by split_and!.
Qed.

(** The database holds bytes. *)
Definition store_bytes (d : Store) : Prop := map_Forall (fun _ v => Forall is_byte v) (db d).

Lemma store_get_ok d a p : store_bytes d -> store_get_peer disp now d a = Ok p -> data_ok p.
Proof.
  intros Hd. unfold store_get_peer, get_ser_access. destruct (db d !! key a) as [v|] eqn:E; [|done].
  unfold deserialize. pose proof (typed_peer_data (mkReader BinReader v 0) (conj eq_refl (Hd _ _ E))) as Ht.
  destruct (read_peer_data _ _) as [[x r]|e|]; cbn [bind option_to_not_found]; [|done|done]. intros [= <-]. by destruct Ht.
Qed.
End Store.

(** *** Bytes *)
Lemma from_utf8_bytes l : from_utf8 l = true -> Forall is_byte l.
Proof.
  induction l as [l IH] using (induction_ltof1 _ (@length Z)). unfold ltof in IH.
  assert (forall lo hi x, between lo hi x = true -> lo <= x <= hi) as Hbt
    by (intros lo hi x; unfold between; rewrite andb_true_iff, !Z.leb_le; tauto).
  assert (forall x, tail_byte x = true -> 128 <= x <= 191) as Htb by (intros x; apply Hbt).
  destruct l as [|a l1]; [done|]. cbn [from_utf8]. intros Hu. unfold is_byte.
  destruct (between 0 127 a) eqn:E0; [apply Hbt in E0; constructor; [lia|apply IH; [cbn; lia|done]]|].
  destruct l1 as [|b l2]; [done|]. destruct (between 194 223 a) eqn:E1.
  { apply Hbt in E1. apply andb_true_iff in Hu as [Hb Hu]. apply Htb in Hb.
    do 2 (constructor; [lia|]). apply IH; [cbn; lia|done]. }
  destruct l2 as [|d l3]; [done|]. destruct (between 224 239 a) eqn:E2.
  { apply Hbt in E2. rewrite !andb_true_iff in Hu. destruct Hu as [[Hb Hd] Hu]. apply Htb in Hd.
    assert (0 <= b < 256). { destruct (a =? 224), (a =? 237); apply Hbt in Hb || apply Htb in Hb; lia. }
    do 3 (constructor; [lia|]). apply IH; [cbn; lia|done]. }
  destruct l3 as [|e l4]; [done|]. rewrite !andb_true_iff in Hu. destruct Hu as [[[[Ha Hb] Hd] He] Hu].
  apply Hbt in Ha. apply Htb in Hd, He.
  assert (0 <= b < 256). { destruct (a =? 240), (a =? 244); apply Hbt in Hb || apply Htb in Hb; lia. }
  do 4 (constructor; [lia|]). apply IH; [cbn; lia|done].
Qed.
