(* ===== verification/PeersInv.v ===== *)
(** * Peers: invariant, bans and cleaning up

    [peers_ok]: every entry of the map of connected peers is a live reference under the key
    of that peer's own address, and the database holds bytes.  Every operation keeps it.  On
    such a state a ban works, and cleaning up leaves none of the peers it should remove. *)
From S2P Require Import Prelude Ser Global Pow Reward Feijoada Committed Transaction Block BlockTheory ChainStore Pipe Msg MsgTheory Peers PeerMap PeersTheory.

Definition info_ok (i : PeerInfo) : Prop := addr_ok (pi_addr i) /\ from_utf8 (pi_user_agent i) = true.

Lemma peer_addr_bytes a : addr_ok a -> Forall is_byte (write_peer_addr a).
Proof.
  unfold addr_ok, write_peer_addr. destruct (sock a) as [ip port|ip port f s].
  - intros [[_ Hb] _]. rewrite !Forall_app. split_and!; [apply be_bytes_ok|done|apply be_bytes_ok].
  - intros _. rewrite !Forall_app. split_and!; [apply be_bytes_ok| |apply be_bytes_ok].
    apply Forall_concat, Forall_map, Forall_forall. intros x _. apply be_bytes_ok.
Qed.

Lemma peer_data_bytes p : addr_ok (pd_addr p) -> from_utf8 (pd_user_agent p) = true -> Forall is_byte (write_peer_data p).
Proof.
  intros Ha Hu. unfold write_peer_data, write_bytes. rewrite !Forall_app.
  split_and!; try apply be_bytes_ok; [by apply peer_addr_bytes|by apply from_utf8_bytes].
Qed.

(** A call on a peer does not change who it is. *)
Definition same_info (p p' : Peer) : Prop := info p' = info p.
#[export] Instance same_info_po : PreOrder same_info.
Proof. split; [done|]. intros a b d. unfold same_info. congruence. Qed.

Lemma peer_send_info c now body t : tkeeps same_info (peer_send c now body t).
Proof.
  unfold peer_send. keeps_seq; [apply tkeeps_tread, _| |apply tkeeps_tmodify; by intros].
  intros p r p'. unfold conn_send. destruct (_ || _); by intros [= _ <-].
Qed.
#[export] Hint Resolve peer_send_info : keeps.

Lemma send_new_info c now h body t : tkeeps same_info (send_new c now h body t).
Proof.
  intros p r p'. unfold send_new. destruct (has_recv p h); [by intros [= _ <-]|].
  eapply (tkeeps_tbind same_info); eauto with keeps.
Qed.
#[export] Hint Resolve send_new_info : keeps.

Section Inv.
Context `{Hasher} (c : ChainTypes) (disp : list Z -> list Z) (now : Z).
Context {S : Type} `{ChainAdapter S}.
Context (shuffle : forall A, list A -> list A).
Hypothesis shuffle_perm : forall A (l : list A), shuffle A l ≡ₚ l.
Hypothesis clock : is_i64 (timestamp now).
Implicit Types s : Peers S.

Abbreviation key := (peer_key disp).
Abbreviation stored s := (store_get_peer disp now (store s)).

Definition peers_ok s : Prop :=
  (forall k id, peers s !! k = Some id -> exists p, heap s !! id = Some p /\ map_key (pi_addr (info p)) = k)
  /\ Forall (fun p => info_ok (info p)) (heap s) /\ store_bytes (store s).

(** ** Operations that add nothing

    They keep the peers of the heap, drop entries of the map at most, and keep the
    database one of bytes. *)
Definition moved s s' : Prop :=
  map info (heap s') = map info (heap s) /\ peers s' ⊆ peers s /\ (store_bytes (store s) -> store_bytes (store s')).

#[export] Instance moved_po : PreOrder moved.
Proof.
  split; [by intros s|]. intros s1 s2 s3 (A1 & B1 & C1) (A2 & B2 & C2).
  split_and!; [congruence|by etransitivity|tauto].
Qed.

Lemma moved_ok s s' : moved s s' -> peers_ok s -> peers_ok s'.
Proof.
  intros (Hh & Hp & Hs) (H1 & H2 & H3). split_and!; [| |by apply Hs].
  - intros k id Hk. destruct (H1 k id (lookup_weaken _ _ _ _ Hk Hp)) as (p & E1 & E2).
    assert (map info (heap s') !! id = Some (info p)) as E3 by (by rewrite Hh, list_lookup_fmap, E1).
    rewrite list_lookup_fmap in E3. destruct (heap s' !! id) as [p'|]; [|done]. injection E3 as E3.
    exists p'. by rewrite E3.
  - apply (Forall_fmap info info_ok). change (info <$> heap s') with (map info (heap s')). rewrite Hh. by apply (Forall_fmap info info_ok).
Qed.

Lemma moved_fold {A} (f : Peers S -> A -> Peers S) l s : (forall s a, moved s (f s a)) -> moved s (foldl f s l).
Proof. intros Hf. revert s. induction l as [|a l IH]; intros s; [done|]. cbn [foldl]. etransitivity; [apply Hf|apply IH]. Qed.

Lemma moved_on_peer {E A} id (m : trans Peer E A) s : tkeeps same_info m -> moved s (snd (on_peer id m s)).
Proof.
  intros Hm. unfold on_peer. destruct (heap s !! id) as [p|] eqn:E1; [|done]. destruct (m p) as [r p'] eqn:E2.
  split_and!; [|done|done]. cbn [heap snd set_heap]. change (map info ?l) with (info <$> l).
  rewrite list_fmap_insert. apply list_insert_id. rewrite list_lookup_fmap, E1. cbn. by rewrite (Hm p r p' E2).
Qed.

Lemma moved_alter id f s : (forall p, info (f p) = info p) -> moved s (alter_peer id f s).
Proof.
  intros Hf. split_and!; [|done|done]. cbn [heap alter_peer set_heap]. change (map info ?l) with (info <$> l).
  apply list_eq. intros i. rewrite !list_lookup_fmap. destruct (decide (i = id)) as [->|Hi].
  - rewrite list_lookup_alter_eq. destruct (heap s !! id); cbn; by rewrite ?Hf.
  - by rewrite list_lookup_alter_ne.
Qed.

Lemma moved_delete k s : moved s (set_peers (delete k (peers s)) s).
Proof. split_and!; [done|apply delete_subseteq|done]. Qed.

Lemma moved_update a st s : moved s (snd (update_state disp now a st s)).
Proof.
  unfold update_state, on_store, p2p_store.
  destruct (store_update_state disp now (store s) a st) as [d| |] eqn:E; [|done|done].
  split_and!; [done|done|]. intros Hb. cbn [snd store set_store]. unfold store_update_state in E.
  apply bind_Ok_inv in E as (p & Hg & E). apply Ok_eq in E as <-. cbn [db commit tx batch].
  apply map_Forall_insert_2; [|done]. change (store_get_peer disp now (store s) a = Ok p) in Hg.
  pose proof (store_get_ok disp now clock _ _ _ Hb Hg) as (Ha & _ & [Hu _] & _). by apply peer_data_bytes.
Qed.

Lemma moved_ban a r s : moved s (ban_peer c disp now a r s).
Proof.
  unfold ban_peer. pose proof (moved_update a BannedState s) as Hu.
  destruct (update_state disp now a BannedState s) as [[[]|e|] s1]; cbn [snd] in Hu; [|done|done].
  destruct (get_connected_peer s1 a) as [id|]; [|done]. cbv zeta.
  set (s2 := alter_peer _ _ _).
  assert (moved s s2) as H2.
  { etransitivity; [exact Hu|]. etransitivity; [apply (moved_on_peer id (send_ban_reason c now r)); unfold send_ban_reason; eauto with keeps|].
    by apply moved_alter. }
  destruct (heap s2 !! id); [|done]. etransitivity; [exact H2|apply moved_delete].
Qed.

Lemma moved_unban a s : moved s (unban_peer disp now a s).
Proof. unfold unban_peer. destruct (get_peer disp now s a), (peers_is_banned disp now s a); try done. apply moved_update. Qed.

Lemma moved_drop id s : moved s (drop_peer id s).
Proof.
  unfold drop_peer. destruct (heap s !! id) as [p|]; [|done].
  etransitivity; [by apply (moved_alter id stop)|]. apply (moved_delete _ (alter_peer id stop s)).
Qed.

Lemma moved_broadcast inner s : tkeeps same_info inner -> moved s (snd (broadcast shuffle inner s)).
Proof.
  intros Hi. unfold broadcast. generalize 0. generalize (connected_peers shuffle s) as l. intros l.
  revert s. induction l as [|id l IH]; intros s n; cbn [broadcast_loop]; [done|].
  pose proof (moved_on_peer id inner s Hi) as Hm. destruct (on_peer id inner s) as [[[]|e|] s1]; cbn [snd] in Hm.
  - etransitivity; [exact Hm|apply IH].
  - etransitivity; [exact Hm|apply IH].
  - etransitivity; [exact Hm|]. etransitivity; [apply (moved_drop id)|apply IH].
  - etransitivity; [exact Hm|]. etransitivity; [apply (moved_drop id)|apply IH].
Qed.

Lemma moved_check_all d h ts s : moved s (check_all c now shuffle d h ts s).
Proof.
  unfold check_all. apply moved_fold. intros s1 id.
  pose proof (moved_on_peer id (send_ping c now d h ts) s1 ltac:(unfold send_ping; eauto with keeps)) as Hm.
  destruct (on_peer id _ s1) as [[[]|e|] s2]; cbn [snd] in Hm; [done| |].
  - etransitivity; [exact Hm|apply moved_drop].
  - etransitivity; [exact Hm|apply moved_drop].
Qed.

Lemma moved_clean_one acc id : moved (snd acc) (snd (clean_one disp now acc id)).
Proof.
  destruct acc as [rm s]. unfold clean_one. cbn [snd]. destruct (heap s !! id) as [p|]; [|done].
  destruct (peer_is_banned p); [done|]. destruct (negb (is_connected p)); [done|].
  destruct (is_abusive p); [apply moved_update|]. destruct (is_stuck now p) as [stuck d].
  destruct (total_difficulty (adapter s)) as [t|e|]; [|done|done]. destruct (_ && _); [apply moved_update|done].
Qed.

Lemma moved_clean_fold acc l : moved (snd acc) (snd (foldl (clean_one disp now) acc l)).
Proof.
  revert acc. induction l as [|id l IH]; intros acc; [done|]. cbn [foldl]. etransitivity; [apply moved_clean_one|apply IH].
Qed.

Lemma moved_remove s a : moved s (remove_addr s a).
Proof.
  unfold remove_addr. destruct (peers s !! map_key a); [|apply moved_delete].
  etransitivity; [by apply (moved_alter n stop)|]. apply (moved_delete _ (alter_peer n stop s)).
Qed.

Lemma moved_clean n s : moved s (clean_peers disp now shuffle n s).
Proof.
  unfold clean_peers. pose proof (moved_clean_fold ([], s) (map snd (map_to_list (peers s)))) as Hf.
  destruct (foldl _ _ _) as [rm s1]. cbn [snd] in Hf. etransitivity; [exact Hf|]. apply moved_fold, moved_remove.
Qed.

Lemma moved_stop_all s : moved s (stop_all s).
Proof.
  unfold stop_all. etransitivity; [apply (moved_fold (fun s id => alter_peer id stop s)); intros; by apply moved_alter|].
  split_and!; [done|apply map_empty_subseteq|done].
Qed.

Lemma moved_remove_expired s : moved s (remove_expired disp now s).
Proof.
  unfold remove_expired, on_store, p2p_store.
  destruct (store_delete_peers disp now (store s) (expired now)) as [d| |] eqn:E; [|done|done].
  split_and!; [done|done|]. intros Hb. cbn [snd store set_store]. unfold store_delete_peers in E.
  apply bind_Ok_inv in E as (l & _ & E). destruct (filter _ l) as [|p l'] eqn:Hf; [by injection E as <-|].
  apply bind_Ok_inv in E as (b & E & Eb). injection Eb as <-. cbn [db commit].
  assert (map_Forall (fun _ v => Forall is_byte v) (tx (batch (store s)))) as Hb' by done.
  revert E Hb'. generalize (batch (store s)) as b0. clear. generalize (p :: l') as l. intros l.
  induction l as [|q l IH]; intros b0 E Hb; cbn [foldM] in E; [by injection E as <-|].
  apply bind_Ok_inv in E as (b1 & E1 & E). apply (IH b1 E). unfold delete_key in E1.
  destruct (tx b0 !! _); [|done]. injection E1 as <-. cbn [tx]. by apply map_Forall_delete.
Qed.

Lemma moved_difficulty a d h ts s :
  moved s (@peer_difficulty _ (peers_net_adapter c disp now shuffle) a d h ts s).
Proof. cbn [peer_difficulty peers_net_adapter]. destruct (get_connected_peer s a); [by apply moved_alter|done]. Qed.

(** ** Operations that add *)
Lemma save_peer_ok p s :
  addr_ok (pd_addr p) -> from_utf8 (pd_user_agent p) = true -> peers_ok s -> peers_ok (snd (save_peer disp p s)).
Proof.
  intros Ha Hu (H1 & H2 & H3). split_and!; [done|done|]. cbn. by apply map_Forall_insert_2; [apply peer_data_bytes|].
Qed.

Lemma add_connected_ok id s : peers_ok s -> peers_ok (snd (add_connected disp now id s)).
Proof.
  intros Hok. unfold add_connected. destruct (heap s !! id) as [p|] eqn:E; [|done].
  assert (info_ok (info p)) as [Ha Hu].
  { destruct Hok as (_ & Hf & _). rewrite Forall_lookup in Hf. exact (Hf id p E). }
  set (pd := mkPeerData _ _ _ _ _ _ _ _). pose proof (save_peer_ok pd s Ha Hu Hok) as Hs.
  unfold tbind, tmodify. destruct (save_peer disp pd s) as [[[]|e|] s1] eqn:Es; cbn [snd] in *; [|done|done].
  destruct Hs as (H1 & H2 & H3). split_and!; [|done|done]. cbn [peers set_peers heap].
  intros k i. destruct (decide (k = map_key (pi_addr (info p)))) as [->|Hk].
  - rewrite lookup_insert_eq. intros [= <-]. exists p. split; [|done].
    unfold save_peer, on_store in Es. destruct (p2p_store _) as [d|e|]; [|done|done]. by injection Es as <-.
  - rewrite lookup_insert_ne by done. apply H1.
Qed.

Lemma receive_addrs_ok l s :
  Forall addr_ok l -> peers_ok s -> peers_ok (foldl (receive_addr disp now) s l).
Proof.
  intros Hl. revert s. induction Hl as [|a l Ha _ IH]; intros s Hok; [done|]. cbn [foldl]. apply IH.
  unfold receive_addr. destruct (exists_peer disp s a) as [[]| |]; [done|by apply save_peer_ok..].
Qed.

(** ** The steps of the peer-to-peer layer *)
Inductive peers_step : Peers S -> Peers S -> Prop :=
| step_connection s p : info_ok (info p) -> peers_step s (set_heap (heap s ++ [p]) s)
| step_connected s id : peers_step s (snd (add_connected disp now id s))
| step_add_banned s a r : addr_ok a -> peers_step s (snd (add_banned disp now a r s))
| step_ban s a r : peers_step s (ban_peer c disp now a r s)
| step_unban s a : peers_step s (unban_peer disp now a s)
| step_state s a st : peers_step s (snd (update_state disp now a st s))
| step_send {A} s id (m : trans Peer p2p_error A) : tkeeps same_info m -> peers_step s (snd (on_peer id m s))
| step_broadcast s m : tkeeps same_info m -> peers_step s (snd (broadcast shuffle m s))
| step_check_all s d h ts : peers_step s (check_all c now shuffle d h ts s)
| step_clean s n : peers_step s (clean_peers disp now shuffle n s)
| step_stop s : peers_step s (stop_all s)
| step_expire s : peers_step s (remove_expired disp now s)
| step_addrs s l : Forall addr_ok l -> peers_step s (foldl (receive_addr disp now) s l)
| step_difficulty s a d h ts : peers_step s (@peer_difficulty _ (peers_net_adapter c disp now shuffle) a d h ts s)
| step_track s id h : peers_step s (alter_peer id (push_recv h) s)
| step_chain s a : peers_step s (set_adapter a s).

(** Whatever sequence of operations runs on the peers of a node (connections, bans,
    broadcasts, cleaning up, addresses and difficulties received, anything the chain does),
    every entry of its map of connected peers is a reference to a peer whose own address is
    the key of the entry, and every record of the database is made of bytes. *)
Theorem peers_invariant s s' : rtc peers_step s s' -> peers_ok s -> peers_ok s'.
Proof.
  induction 1 as [|s1 s2 s3 Hst _ IH]; [done|]. intros Hok. apply IH. clear IH. destruct Hst.
  - destruct Hok as (Q1 & Q2 & Q3). split_and!; [|by apply Forall_app; split; [|constructor]|done].
    intros k id Hk. destruct (Q1 k id Hk) as (p' & E & E2). exists p'. split; [|done]. cbn [heap set_heap].
    by rewrite lookup_app_l by (by eapply lookup_lt_Some).
  - by apply add_connected_ok.
  - by apply save_peer_ok.
  - eapply moved_ok; [apply moved_ban|done].
  - eapply moved_ok; [apply moved_unban|done].
  - eapply moved_ok; [apply moved_update|done].
  - eapply moved_ok; [by apply moved_on_peer|done].
  - eapply moved_ok; [by apply moved_broadcast|done].
  - eapply moved_ok; [apply moved_check_all|done].
  - eapply moved_ok; [apply moved_clean|done].
  - eapply moved_ok; [apply moved_stop_all|done].
  - eapply moved_ok; [apply moved_remove_expired|done].
  - by apply receive_addrs_ok.
  - eapply moved_ok; [apply moved_difficulty|done].
  - eapply moved_ok; [by apply moved_alter|done].
  - done.
Qed.

(** ** Bans *)
Lemma on_peer_parts {E A} id (m : trans Peer E A) s :
  peers (snd (on_peer id m s)) = peers s /\ store (snd (on_peer id m s)) = store s /\ adapter (snd (on_peer id m s)) = adapter s.
Proof. unfold on_peer. destruct (heap s !! id); [|done]. by destruct (m p). Qed.

(** A ban takes effect at once and under every spelling of the address: the address and
    all that have the same key in the database (any port, outside the loopback interface)
    are banned and no other record changes; the peer is no longer in the map of connected
    ones, where nothing else changes; if it was there, it is marked banned and its connection
    is asked to stop. *)
Lemma ban_exact s a r p :
  peers_ok s -> stored s a = Ok p ->
  let s' := ban_peer c disp now a r s in
  (forall b, key b = key a -> peers_is_banned disp now s' b = true)
  /\ (forall b, key b <> key a -> stored s' b = stored s b)
  /\ (forall b, get_connected_peer s' b = if peer_addr_eq a b then None else get_connected_peer s b)
  /\ (forall id, get_connected_peer s a = Some id ->
       exists q, heap s' !! id = Some q /\ p_state q = PeerBanned /\ stopped q = true)
  /\ adapter s' = adapter s.
Proof.
  intros (Hmap & _ & Hb) Hst. cbv zeta. unfold ban_peer, update_state, on_store, p2p_store.
  destruct (store_update_exact disp now clock (store s) a BannedState p Hst (store_get_ok _ _ clock _ _ _ Hb Hst))
    as (d & -> & Heq & Hne). cbn [map_err]. unfold get_connected_peer. cbn [peers set_store].
  assert (forall b, key b = key a -> forall s0, store s0 = d -> peers_is_banned disp now s0 b = true) as Hban.
  { intros b Hk s0 E. unfold peers_is_banned. rewrite E, Heq by done. by apply bool_decide_eq_true. }
  assert (forall b (m : gmap (list Z) nat), m !! map_key a = None -> m !! map_key b = if peer_addr_eq a b then None else m !! map_key b) as Hno.
  { intros b m Hm. destruct (peer_addr_eq a b) eqn:E; [|done]. apply map_key_eq in E. by rewrite <- E. }
  destruct (peers s !! map_key a) as [id|] eqn:Ek.
  - destruct (Hmap _ _ Ek) as (q & Hq & Hqk).
    destruct (on_peer_parts id (send_ban_reason c now r) (set_store d s)) as (P1 & P2 & P3).
    pose proof (moved_on_peer id (send_ban_reason c now r) (set_store d s) ltac:(unfold send_ban_reason; eauto with keeps)) as (Hh & _).
    set (s1 := snd (on_peer id _ _)) in *.
    assert (exists q1, heap s1 !! id = Some q1 /\ info q1 = info q) as (q1 & Hq1 & Hi).
    { assert (map info (heap s1) !! id = Some (info q)) as Hl by (rewrite Hh, list_lookup_fmap; cbn [heap set_store]; by rewrite Hq).
      rewrite list_lookup_fmap in Hl. destruct (heap s1 !! id) as [q1|]; [|done]. injection Hl as Hl. by exists q1. }
    cbn [heap alter_peer set_heap]. rewrite list_lookup_alter_eq, Hq1. cbn [fmap option_fmap option_map].
    split_and!; cbn [store peers adapter heap set_peers set_heap alter_peer].
    + intros b Hk. apply Hban; [done|]. by cbn [store set_peers set_heap alter_peer].
    + intros b Hk. rewrite P2. by apply Hne.
    + intros b. rewrite P1. cbn [peers set_store]. unfold set_banned, stop. cbn [info]. rewrite Hi, Hqk.
      destruct (peer_addr_eq a b) eqn:E; [apply map_key_eq in E; rewrite <- E; apply lookup_delete_eq|].
      apply lookup_delete_ne. intros Hc. apply map_key_eq in Hc. congruence.
    + intros id' [= <-]. rewrite list_lookup_alter_eq, Hq1. eexists. split; [reflexivity|]. done.
    + by rewrite P3.
  - split_and!; [intros b Hk; by apply Hban|intros b Hk; by apply Hne|intros b; by apply Hno|done|done].
Qed.

(** ** Cleaning up *)
(** The peers that have to go: banned or gone, abusive, or stuck behind our own chain. *)
Definition bad_peer s (p : Peer) : bool :=
  peer_is_banned p || negb (is_connected p) || is_abusive p
  || match total_difficulty (adapter s) with
     | Ok total => fst (is_stuck now p) && bool_decide (difficulty_cmp (snd (is_stuck now p)) total = Lt)
     | _ => false
     end.
Definition bad_id s (id : nat) : bool := peer_at s id (bad_peer s).
Definition key_at s (id : nat) : list Z := default [] ((fun p => map_key (pi_addr (info p))) <$> heap s !! id).
Definition addr_at s (id : nat) : option PeerAddr := (fun p => pi_addr (info p)) <$> heap s !! id.

(** Only the database differs. *)
Definition same_peers s s' : Prop := heap s' = heap s /\ peers s' = peers s /\ adapter s' = adapter s.

Lemma update_same a st s : same_peers s (snd (update_state disp now a st s)).
Proof. unfold update_state, on_store. by destruct (p2p_store _). Qed.

Lemma clean_one_spec rm s id :
  exists s', clean_one disp now (rm, s) id = (rm ++ (if bad_id s id then option_list (addr_at s id) else []), s') /\ same_peers s s'.
Proof.
  unfold clean_one, bad_id, peer_at, addr_at, bad_peer. destruct (heap s !! id) as [p|]; cbn [fmap option_fmap option_map option_list]; [|exists s; by rewrite app_nil_r].
  destruct (peer_is_banned p); cbn [orb]; [by exists s|].
  destruct (is_connected p); cbn [negb orb]; [|by exists s].
  destruct (is_abusive p); cbn [orb]; [eexists; split; [reflexivity|apply update_same]|].
  destruct (is_stuck now p) as [stuck d]. cbn [fst snd].
  destruct (total_difficulty (adapter s)) as [t|e|]; [|exists s; by rewrite app_nil_r..].
  destruct (stuck && _); [eexists; split; [reflexivity|apply update_same]|exists s; by rewrite app_nil_r].
Qed.

Lemma bad_id_same s s' id : same_peers s s' -> bad_id s' id = bad_id s id /\ addr_at s' id = addr_at s id.
Proof. intros (E1 & E2 & E3). unfold bad_id, peer_at, bad_peer, addr_at. by rewrite E1, E3. Qed.

Lemma clean_fold_spec l rm s :
  exists s', foldl (clean_one disp now) (rm, s) l = (rm ++ omap (addr_at s) (filter (fun id => bad_id s id = true) l), s') /\ same_peers s s'.
Proof.
  revert rm s. induction l as [|id l IH]; intros rm s; cbn [foldl]; [exists s; by rewrite app_nil_r|].
  destruct (clean_one_spec rm s id) as (s1 & -> & Hs).
  destruct (IH (rm ++ (if bad_id s id then option_list (addr_at s id) else [])) s1) as (s2 & -> & Hs2).
  exists s2. split.
  - f_equal. rewrite <- app_assoc. f_equal. rewrite filter_cons.
    assert (forall l : list nat, omap (addr_at s1) (filter (fun id => bad_id s1 id = true) l)
      = omap (addr_at s) (filter (fun id => bad_id s id = true) l)) as Heq.
    { clear -Hs. intros l. induction l as [|x l IH]; [done|]. rewrite !filter_cons. destruct (bad_id_same s s1 x Hs) as [-> Ha].
      case_decide; [|done]. cbn [omap list_omap]. by rewrite Ha, IH. }
    rewrite Heq. destruct (bad_id s id); [rewrite decide_True by done|by rewrite decide_False by done].
    cbn [omap list_omap]. by destruct (addr_at s id).
  - destruct Hs as (A1 & A2 & A3), Hs2 as (B1 & B2 & B3). split_and!; congruence.
Qed.

Lemma remove_fold_lookup l s k :
  peers (foldl remove_addr s l) !! k = if decide (k ∈ map map_key l) then None else peers s !! k.
Proof.
  revert s. induction l as [|a l IH]; intros s; [done|]. cbn [foldl map].
  rewrite IH. assert (peers (remove_addr s a) = delete (map_key a) (peers s)) as ->
    by (unfold remove_addr; by destruct (peers s !! map_key a)).
  destruct (decide (k ∈ map map_key l)) as [Hin|Hin]; [by rewrite decide_True by (by right)|].
  destruct (decide (k = map_key a)) as [->|Hk].
  - rewrite decide_True by (by left). apply lookup_delete_eq.
  - rewrite decide_False by (rewrite elem_of_cons; tauto). by rewrite lookup_delete_ne.
Qed.

Lemma elem_keys s l k :
  k ∈ map map_key (omap (addr_at s) l) <-> exists id p, id ∈ l /\ heap s !! id = Some p /\ k = map_key (pi_addr (info p)).
Proof.
  rewrite list_elem_of_fmap. setoid_rewrite list_elem_of_omap. unfold addr_at. split.
  - intros (a & -> & id & Hin & Ha). destruct (heap s !! id) as [p|] eqn:E; [|done]. injection Ha as <-. by exists id, p.
  - intros (id & p & Hin & E & ->). exists (pi_addr (info p)). split; [done|]. exists id. split; [done|]. by rewrite E.
Qed.

Abbreviation ids s := (map snd (map_to_list (peers s))).

Lemma connected_same s s' : same_peers s s' -> connected_peers shuffle s' = connected_peers shuffle s.
Proof.
  intros (E1 & E2 & _). unfold connected_peers. rewrite E2. f_equal. apply list_filter_iff. intros id.
  unfold peer_at. by rewrite E1.
Qed.

Lemma elem_ids s k id : peers s !! k = Some id -> id ∈ ids s.
Proof. intros Hk. apply list_elem_of_fmap. exists (k, id). split; [done|]. by apply elem_of_map_to_list. Qed.

Lemma elem_connected s k id p :
  peers s !! k = Some id -> heap s !! id = Some p -> is_connected p = true -> id ∈ connected_peers shuffle s.
Proof.
  intros Hk Hp Hc. unfold connected_peers. rewrite shuffle_perm. apply list_elem_of_filter. split; [|by eapply elem_ids].
  unfold peer_at. by rewrite Hp.
Qed.

Lemma connected_count s : (length (connected_peers shuffle s) <= size (peers s))%nat.
Proof.
  unfold connected_peers. rewrite shuffle_perm. etransitivity; [apply length_filter|].
  by rewrite length_map, length_map_to_list.
Qed.

(** A map whose keys are among those of a list is no larger than the list. *)
Lemma size_le_keys (m : gmap (list Z) nat) (l : list (list Z)) :
  (forall k id, m !! k = Some id -> k ∈ l) -> (size m <= length l)%nat.
Proof.
  intros Hm. rewrite <- length_map_to_list, <- (length_map fst). apply submseteq_length, NoDup_submseteq.
  - apply NoDup_fst_map_to_list.
  - intros k ([k' id] & -> & Hk)%list_elem_of_fmap. apply elem_of_map_to_list in Hk. by eapply Hm.
Qed.

(** After cleaning up, every peer left in the map was there before and is neither banned,
    abusive nor stuck behind our own chain, and at most [n] of them are left beyond the number
    that had to go; so, when none had to, at most [n]. *)
Theorem clean_peers_exact s n :
  peers_ok s -> Z.of_nat (size (peers s)) < 2 ^ 32 ->
  let s' := clean_peers disp now shuffle n s in
  (forall k id, peers s' !! k = Some id ->
     peers s !! k = Some id /\ exists p, heap s !! id = Some p /\ bad_peer s p = false)
  /\ (size (peers s') <= n + length (filter (fun id => bad_id s id = true) (ids s)))%nat.
Proof.
  intros (Hmap & _) Hsz. cbv zeta. unfold clean_peers.
  destruct (clean_fold_spec (ids s) [] s) as (s1 & -> & Hs1). cbn [app].
  set (bad := filter (fun id => bad_id s id = true) (ids s)).
  rewrite (connected_same s s1 Hs1). destruct Hs1 as (E1 & E2 & E3).
  assert (Z.to_nat (peer_count shuffle s1) = length (connected_peers shuffle s)) as ->.
  { unfold peer_count. rewrite (connected_same s s1) by done. pose proof (connected_count s).
    unfold wrap32. rewrite Z.mod_small by lia. apply Nat2Z.id. }
  rewrite E1. set (cp := connected_peers shuffle s). set (excess := (length cp - length (omap (addr_at s) bad) - n)%nat).
  change (omap (fun id => (fun p => pi_addr (info p)) <$> heap s !! id) (take excess cp)) with (omap (addr_at s) (take excess cp)).
  assert (Hleft : forall k id, peers (foldl remove_addr s1 (omap (addr_at s) bad ++ omap (addr_at s) (take excess cp))) !! k = Some id ->
    peers s !! k = Some id /\ exists p, heap s !! id = Some p /\ bad_peer s p = false /\ id ∈ drop excess cp
      /\ k = map_key (pi_addr (info p))).
  { intros k id. rewrite remove_fold_lookup, E2. case_decide as Hin; [done|]. intros Hk. split; [done|].
    rewrite map_app, elem_of_app, !elem_keys in Hin. destruct (Hmap k id Hk) as (p & Hp & Hkp). exists p.
    assert (bad_peer s p = false) as Hgood.
    { destruct (bad_peer s p) eqn:Eb; [|done]. exfalso. apply Hin. left. exists id, p. split_and!; [|done|done].
      apply list_elem_of_filter. split; [|by eapply elem_ids]. unfold bad_id, peer_at. by rewrite Hp. }
    split_and!; [done|done| |done].
    assert (is_connected p = true) as Hc.
    { unfold bad_peer in Hgood. destruct (is_connected p); [done|]. by rewrite orb_true_r in Hgood. }
    pose proof (elem_connected s k id p Hk Hp Hc) as Hin'. fold cp in Hin'.
    rewrite <- (take_drop excess cp) in Hin'. apply elem_of_app in Hin' as [Ht|Ht]; [|done].
    exfalso. apply Hin. right. by exists id, p. }
  split.
  - intros k id Hk. destruct (Hleft k id Hk) as (Hk' & p & Hp & Hg & _). eauto.
  - etransitivity; [apply (size_le_keys _ (map (key_at s) (drop excess cp)))|].
    + intros k id Hk. destruct (Hleft k id Hk) as (_ & p & Hp & _ & Hd & ->). apply list_elem_of_fmap. exists id.
      split; [|done]. unfold key_at. by rewrite Hp.
    + rewrite length_map, length_drop. pose proof (length_omap_le (addr_at s) bad). lia.
Qed.
End Inv.
