(* ===== verification/ProtocolTheory.v ===== *)
(** * Connections: handshakes, bans, and staying in step

    Two nodes of one chain that are not one node agree on each other; a node recognizes its
    own recent greetings; a banned peer has no effect; a message that is handled takes
    exactly its own bytes off the stream; headers are handed on in order. *)
From S2P Require Import Prelude Ser Global Pow Reward Feijoada Committed Transaction Block BlockTheory ChainStore Pipe Msg MsgTheory Peers PeerMap PeersTheory PeersInv Protocol Server.

(** ** The nonces remembered *)
Lemma ring_fold {A} cap (l ks : list A) :
  (0 < cap)%nat -> (length l < cap)%nat ->
  foldl (ring_push cap) l ks = drop (length l + length ks - (cap - 1)) (l ++ ks).
Proof.
  intros Hc. revert l. induction ks as [|a ks IH]; intros l Hl; cbn [foldl].
  - rewrite app_nil_r, Nat.add_0_r. replace (length l - (cap - 1))%nat with 0%nat by lia. done.
  - assert (length (ring_push cap l a) < cap)%nat as Hr.
    { unfold ring_push. rewrite length_app. cbn [length]. destruct (Nat.leb_spec cap (length l + 1)); rewrite ?length_drop, length_app; cbn; lia. }
    rewrite IH by done. unfold ring_push. rewrite length_app. cbn [length].
    destruct (Nat.leb_spec cap (length l + 1)) as [Hle|Hle].
    + rewrite length_drop, length_app. cbn [length].
      rewrite <- (drop_app_le (l ++ [a]) ks 1) by (rewrite length_app; cbn; lia).
      rewrite drop_drop, <- app_assoc. cbn [app]. f_equal. lia.
    + rewrite length_app, <- app_assoc. cbn [app length]. f_equal. lia.
Qed.

Definition pushes (later : list Z) (hs : Handshake) : Handshake := foldl (fun hs n => next_nonce n hs) hs later.

Lemma pushes_nonces later hs : nonces (pushes later hs) = foldl (ring_push NONCES_CAP) (nonces hs) later.
Proof. revert hs. induction later as [|n later IH]; intros hs; [done|]. apply (IH (next_nonce n hs)). Qed.

(** A node recognizes its own greeting exactly as long as fewer than 99 others have been
    sent since: the buffer of nonces, said to hold those of the last 100 attempts, holds 99. *)
Theorem nonce_window hs nonce later :
  (length (nonces hs) < NONCES_CAP)%nat -> nonce ∉ nonces hs -> nonce ∉ later ->
  nonce ∈ nonces (pushes later (next_nonce nonce hs)) <-> (length later < 99)%nat.
Proof.
  intros Hl Hn Hlat. change (pushes later (next_nonce nonce hs)) with (pushes (nonce :: later) hs).
  rewrite pushes_nonces, ring_fold by (unfold NONCES_CAP in *; lia). unfold NONCES_CAP in *. cbn [length].
  split; intros Hin.
  - destruct (decide (length later < 99)%nat) as [Hd|Hd]; [done|]. exfalso.
    rewrite drop_app_ge in Hin by lia.
    replace (length (nonces hs) + S (length later) - (100 - 1) - length (nonces hs))%nat with (S (length later - 99)) in Hin by lia.
    cbn [drop] in Hin. apply Hlat. apply list_elem_of_lookup in Hin as [i Hi].
    rewrite lookup_drop in Hi. apply list_elem_of_lookup. eauto.
  - destruct (decide (length (nonces hs) + S (length later) - (100 - 1) <= length (nonces hs))%nat) as [Hd|Hd]; [|lia].
    rewrite drop_app_le by lia. apply elem_of_app. right. by left.
Qed.

(** ** Two nodes meet *)
Section Meeting.
Context (c : ChainTypes) (config : P2PConfig) (now : Z).

Lemma write_message_ok body t k :
  write_message c body t k
  = (Ok tt, mkConn (incoming k) (outgoing k ++ write_msg_header (msg_header_new c t (Z.of_nat (length body))) ++ body) (remote k)).
Proof. done. Qed.

(** The bytes of a greeting and of its answer. *)
Definition hand_buf (h : Hand) : list Z := write_msg_header (msg_header_new c T_Hand (Z.of_nat (length (write_hand h)))) ++ write_hand h.
Definition shake_buf (s : Shake) : list Z := write_msg_header (msg_header_new c T_Shake (Z.of_nat (length (write_shake s)))) ++ write_shake s.

Lemma hand_size h : hand_ok h -> write_hand h <> [] /\ Z.of_nat (length (write_hand h)) <= max_msg_size c T_Hand * 4.
Proof.
  intros (_ & _ & _ & _ & Hs & Hr & _ & Hu). unfold write_hand, write_bytes. split; [done|]. lengths. cbn [max_msg_size].
  pose proof (length_difficulty (hand_difficulty h)). pose proof (length_peer_addr _ Hs). pose proof (length_peer_addr _ Hr). lia.
Qed.

Lemma shake_size s : shake_ok s -> write_shake s <> [] /\ Z.of_nat (length (write_shake s)) <= max_msg_size c T_Shake * 4.
Proof.
  intros (_ & _ & _ & _ & Hu). unfold write_shake, write_bytes. split; [done|]. lengths. cbn [max_msg_size].
  pose proof (length_difficulty (shake_difficulty s)). lia.
Qed.

Lemma read_hand_buf h x : hand_ok h -> read_message c read_hand T_Hand (mkStream (hand_buf h) x) = (Ok h, mkStream [] x).
Proof.
  intros Hh. destruct (hand_size h Hh) as [Hn Hl].
  destruct (read_message_ok c read_hand T_Hand (write_hand h) h [] x (bin_reads_hand h Hh) Hn Hl) as (buf & Hb & Hr).
  apply Ok_eq in Hb as <-. by rewrite app_nil_r in Hr.
Qed.

Lemma read_shake_buf s x : shake_ok s -> read_message c read_shake T_Shake (mkStream (shake_buf s) x) = (Ok s, mkStream [] x).
Proof.
  intros Hs. destruct (shake_size s Hs) as [Hn Hl].
  destruct (read_message_ok c read_shake T_Shake (write_shake s) s [] x (bin_reads_shake s Hs) Hn Hl) as (buf & Hb & Hr).
  apply Ok_eq in Hb as <-. by rewrite app_nil_r in Hr.
Qed.

(** The answer to a well-formed greeting, case by case; only the last case writes. *)
Lemma accept_exact capab d hs h x pa :
  hand_ok h ->
  let k := mkConn (mkStream (hand_buf h) x) [] (Some pa) in
  let done out := mkConn (mkStream [] x) out (Some pa) in
  let addr := mkPeerAddr (socket_new (addr_ip pa) (addr_port (sock (sender_addr h)))) in
  accept c config now capab d (hs, k) =
    if decide (hand_genesis h = genesis hs) then
      if decide (hand_nonce h ∈ nonces hs) then
        (Err PeerWithSelf, (mkHandshake (nonces hs) (ring_push ADDRS_CAP (self_addrs hs) addr) (genesis hs), done []))
      else if is_denied config addr then (Err ConnectionClose, (hs, done []))
      else (Ok (mkInfo (hand_capabilities h) (hand_user_agent h) (hand_version h) addr Inbound, live_new now (hand_difficulty h)),
            (hs, done (shake_buf (mkShake PROTOCOL_VERSION capab (genesis hs) d USER_AGENT))))
    else (Err (GenesisMismatch (genesis hs) (hand_genesis h)), (hs, done [])).
Proof.
  intros Hh. cbv zeta. unfold accept, from_conn. cbn [incoming outgoing remote]. rewrite read_hand_buf by done.
  unfold resolve_peer_addr. cbn [remote].
  destruct (decide (hand_genesis h = genesis hs)) as [E|E].
  - rewrite (bool_decide_eq_true_2 _ E). cbn [negb]. destruct (decide (hand_nonce h ∈ nonces hs)) as [Hn|Hn].
    + by rewrite (bool_decide_eq_true_2 _ Hn).
    + rewrite (bool_decide_eq_false_2 _ Hn). destruct (is_denied _ _); [done|]. reflexivity.
  - by rewrite (bool_decide_eq_false_2 _ E).
Qed.
End Meeting.

(** C20. Two nodes that see the same genesis, neither of which denies the other, and the
    greeting not being one of the receiver's own, complete the handshake: each ends with a
    record of the other that has what the other advertised (its capabilities, user agent,
    version and total difficulty), the caller under the address it dialled and the receiver
    under the address of the connection with the port advertised; both streams are left empty
    and only the caller's memory of nonces changes. *)
Theorem handshake_agrees c cfg_a cfg_b now_a now_b hs_a hs_b nonce cap_a cap_b d_a d_b self pa pb x y :
  genesis hs_a = genesis hs_b -> nonce ∉ nonces hs_b -> is_u64 nonce ->
  caps_ok cap_a -> caps_ok cap_b -> difficulty_ok d_a -> difficulty_ok d_b ->
  addr_ok self -> addr_ok (mkPeerAddr pb) ->
  let addr_a := mkPeerAddr (socket_new (addr_ip pa) (addr_port (sock self))) in
  is_denied cfg_b addr_a = false -> is_denied cfg_a (mkPeerAddr pb) = false ->
  exists hand shake,
    accept c cfg_b now_b cap_b d_b (hs_b, mkConn (mkStream hand y) [] (Some pa))
    = (Ok (mkInfo cap_a USER_AGENT PROTOCOL_VERSION addr_a Inbound, live_new now_b d_a),
       (hs_b, mkConn (mkStream [] y) shake (Some pa)))
    /\ initiate c cfg_a now_a nonce cap_a d_a self (hs_a, mkConn (mkStream shake x) [] (Some pb))
    = (Ok (mkInfo cap_b USER_AGENT PROTOCOL_VERSION (mkPeerAddr pb) Outbound, live_new now_a d_b),
       (next_nonce nonce hs_a, mkConn (mkStream [] x) hand (Some pb))).
Proof.
  intros Hg Hn Hu Hca Hcb Hda Hdb Hself Hpb addr_a Hb Ha.
  set (h := mkHand PROTOCOL_VERSION cap_a nonce (genesis hs_a) d_a self (mkPeerAddr pb) USER_AGENT).
  set (sh := mkShake PROTOCOL_VERSION cap_b (genesis hs_b) d_b USER_AGENT).
  assert (hand_ok h) as Hh by (unfold hand_ok, string_ok; cbn; split_and!; done || vm_decide).
  assert (shake_ok sh) as Hsh by (unfold shake_ok, string_ok; cbn; split_and!; done || vm_decide).
  exists (hand_buf c h), (shake_buf c sh). split.
  - rewrite accept_exact by done. cbn [hand_genesis hand_nonce h sender_addr]. rewrite decide_True by done.
    rewrite decide_False by done. fold addr_a. by rewrite Hb.
  - unfold initiate. cbn [remote next_nonce genesis]. unfold tbind at 1. rewrite write_message_ok. cbn [incoming outgoing remote app].
    unfold tbind, from_conn. cbn [incoming outgoing remote]. rewrite read_shake_buf by done.
    cbn [shake_genesis sh]. rewrite decide_True by done. by rewrite Ha.
Qed.

(** ** Banned peers *)
Section Banned.
Context `{Hasher} `{Secp} (c : ChainTypes) (min_date max_date : Z) (siphash24 : Z -> Z -> list Z -> Z).
Context (disp : list Z -> list Z) (shuffle : forall A, list A -> list A) (now random : Z) (config : P2PConfig) (capabilities : Z).
Context {S : Type} `{ChainAdapter S}.
Implicit Types s : Peers S.

Lemma is_banned_stored id s a :
  @is_banned _ (tracking_net_adapter c disp now shuffle id) s a = peers_is_banned disp now s a.
Proof. cbn. unfold get_peer, p2p_store, peers_is_banned. by destruct (store_get_peer disp now (store s) a). Qed.

(** C21. A banned peer is powerless.  After a ban, and from every address with the same key in
    the database: whatever message it has sent on a connection still open is dropped, with no
    answer and no effect on the node, the chain behind it included; a new connection is turned
    away without a handshake; and the peer is out of the map, so nothing is broadcast to it. *)
Theorem banned_peer_powerless s a r p b :
  is_i64 (timestamp now) -> peers_ok s -> store_get_peer disp now (store s) a = Ok p -> peer_key disp b = peer_key disp a ->
  let s' := ban_peer c disp now a r s in
  (forall id i h st, pi_addr i = b ->
     handle c min_date max_date siphash24 disp shuffle now random id i h (st, s') = (Ok None, (st, s')))
  /\ (forall hs is_stopped k pa, remote k = Some (sock b) ->
       listen_one c disp config capabilities now is_stopped pa k (mkServer hs s') = mkServer hs s')
  /\ get_connected_peer s' a = None
  /\ adapter s' = adapter s.
Proof.
  intros Hclk Hok Hst Hk s'.
  destruct (ban_exact c disp now Hclk s a r p Hok Hst) as (Hban & _ & Hgone & _ & Had). fold s' in Hban, Hgone, Had.
  split_and!.
  - intros id i h st Hi. unfold handle, consume. cbn [snd]. by rewrite is_banned_stored, Hi, Hban.
  - intros hs is_stopped k pa Hr. unfold listen_one, check_undesirable. rewrite Hr. cbn [srv_peers].
    replace (mkPeerAddr (sock b)) with b by (by destruct b). by rewrite Hban.
  - rewrite Hgone. by rewrite (proj1 (map_key_eq a a) eq_refl).
  - done.
Qed.
End Banned.

(** ** Staying in step *)
(** The connection goes on after this result. *)
Definition goes_on {A} (r : outcome p2p_error A) : bool :=
  match r with
  | Ok _ => true
  | Err e => survives e
  | Panic => false
  end.

(** The messages whose body is read as a whole and followed by nothing. *)
Definition framed (t : Type_) : bool :=
  match t with
  | T_Error | T_Hand | T_Shake | T_Headers | T_KernelDataRequest | T_KernelDataResponse | T_TxHashSetArchive => false
  | _ => true
  end.

Section Framing.
Context `{Hasher} `{Secp} (c : ChainTypes) (min_date max_date : Z) (siphash24 : Z -> Z -> list Z -> Z).
Context {W : Type} `{NetAdapter W} (inc_quiet_received : Z -> W -> W) (now random : Z).

(** The stream is left alone. *)
Definition same_stream (a b : stream * W) : Prop := fst b = fst a.
#[export] Instance same_stream_po : PreOrder same_stream.
Proof. split; [done|]. intros x y z. unfold same_stream. congruence. Qed.

Lemma on_world_stream {A} (m : trans W chain_error A) : tkeeps same_stream (on_world m).
Proof. intros [s w] r [s' w']. unfold on_world. destruct (m w). by intros [= _ -> _]. Qed.
Lemma ask_stream {A} (f : W -> outcome chain_error A) : tkeeps same_stream (ask f).
Proof. intros [s w] r sw'. unfold ask, tread. by intros [= _ <-]. Qed.
Lemma tell_stream (f : W -> W) : tkeeps same_stream (tell f).
Proof. intros [s w] r sw'. unfold tell, tmodify. by intros [= _ <-]. Qed.
Lemma respond_stream t body : tkeeps same_stream (respond (W := W) t body).
Proof. unfold respond, lift_ser. keeps_seq; [apply tkeeps_tread, _|apply tkeeps_tret, _]. Qed.
Lemma respond_with_stream t body file : tkeeps same_stream (respond_with (W := W) t body file).
Proof. apply tkeeps_tret, _. Qed.
#[local] Hint Resolve on_world_stream ask_stream tell_stream respond_stream respond_with_stream : keeps.

(** Exactly the body has gone. *)
Definition took (n : Z) (s s' : stream) : Prop :=
  Z.of_nat (length (arriving s)) >= n /\ s' = mkStream (drop (Z.to_nat n) (arriving s)) (closes s).

Lemma read_body_took {A} (elt : read A) h s r s' :
  read_message_body elt h s = (r, s') -> goes_on r = true -> took (msg_len h) s s'.
Proof.
  unfold read_message_body, tbind, read_exact, lift_ser, tread.
  destruct (Nat.eqb_spec (Z.to_nat (msg_len h)) 0) as [E|E]; [by intros [= <- _]|].
  destruct (Nat.leb_spec (Z.to_nat (msg_len h)) (length (arriving s))) as [Hl|Hl].
  - intros [= _ <-] _. split; [lia|done].
  - intros [= <- _]. by destruct (closes s), (arriving s).
Qed.

Lemma framed_arm {A B} (elt : read A) h (k : A -> trans (stream * W) p2p_error B) sw r sw' :
  (forall a, tkeeps same_stream (k a)) ->
  tbind (on_stream (read_message_body elt h)) k sw = (r, sw') -> goes_on r = true -> took (msg_len h) (fst sw) (fst sw').
Proof.
  intros Hk. destruct sw as [s w]. unfold tbind, on_stream.
  destruct (read_message_body elt h s) as [rb s1] eqn:Eb. pose proof (read_body_took elt h s rb s1 Eb) as Ht.
  destruct rb as [a|e|].
  - intros He _. rewrite (Hk a _ _ _ He). by apply Ht.
  - intros [= <- <-]. apply Ht.
  - intros [= <- <-]. done.
Qed.

(** A message that does not end the connection takes exactly its own bytes off the stream:
    when the peer is not banned and the message is one whose body is read as a whole, every
    outcome after which the connection goes on, errors of the chain included, leaves the stream
    at the first byte after the body, so that the next header is read where it begins. *)
Theorem consume_in_step i h s w r s' w' :
  is_banned w (pi_addr i) = false -> framed (msg_type h) = true ->
  consume c min_date max_date siphash24 inc_quiet_received now random i h (s, w) = (r, (s', w')) ->
  goes_on r = true -> took (msg_len h) s s'.
Proof.
  intros Hb Hf He Hg. unfold consume in He. cbn [snd] in He. rewrite Hb in He.
  destruct (msg_type h); cbn [framed] in Hf; try discriminate Hf;
    (eapply framed_arm in He; [exact He| |exact Hg]); intros x; keeps_seq; eauto with keeps.
  all: destruct a; keeps_seq; eauto with keeps.
Qed.
End Framing.

(** ** Headers *)
Section Headers.
Context `{Hasher} `{Secp} (c : ChainTypes) (min_date max_date : Z) (siphash24 : Z -> Z -> list Z -> Z).
Context {W : Type} `{NetAdapter W} (inc_quiet_received : Z -> W -> W) (now random : Z).
Abbreviation hdr_ok := (header_ok c min_date max_date).

Lemma read_item_ok {A} (elt : read A) bs a rest x :
  reads elt bs a -> read_item elt (mkStream (bs ++ rest) x) = (Ok (a, wrap64 (Z.of_nat (length bs))), mkStream rest x).
Proof. intros Hr. unfold read_item. cbn [arriving closes]. rewrite Hr by (unfold is_u64; lia). done. Qed.

Lemma wrap64_add_length (a b : list Z) :
  wrap64 (Z.of_nat (length a)) +! wrap64 (Z.of_nat (length b)) = wrap64 (Z.of_nat (length (a ++ b))).
Proof. unfold u64_add, wrap64. rewrite <- Zplus_mod, length_app, Nat2Z.inj_add. done. Qed.

Lemma write_all_headers_ok hs : Forall hdr_ok hs -> exists bs, write_all_headers c hs = Ok bs.
Proof.
  induction 1 as [|h hs Hh _ [bs IH]]; [by exists []|]. destruct (reads_header c min_date max_date h Hh) as (b & Hw & _).
  cbn [write_all_headers]. rewrite Hw, IH. by eexists.
Qed.

Lemma write_all_headers_app l1 l2 bs :
  write_all_headers c (l1 ++ l2) = Ok bs -> exists b1 b2, write_all_headers c l1 = Ok b1 /\ write_all_headers c l2 = Ok b2 /\ bs = b1 ++ b2.
Proof.
  revert bs. induction l1 as [|h l1 IH]; intros bs He; [by exists [], bs|]. cbn [app write_all_headers] in *.
  apply bind_Ok_inv in He as (a & Ha & He). apply bind_Ok_inv in He as (b & Hb & He). apply Ok_eq in He as <-.
  destruct (IH b Hb) as (b1 & b2 & E1 & E2 & ->). exists (a ++ b1), b2. rewrite Ha, E1. by rewrite app_assoc.
Qed.

Lemma stream_headers_ok hs bs rest x :
  Forall hdr_ok hs -> write_all_headers c hs = Ok bs ->
  stream_headers c min_date max_date (length hs) (mkStream (bs ++ rest) x) = (Ok (hs, wrap64 (Z.of_nat (length bs))), mkStream rest x).
Proof.
  intros Hok. revert bs. induction Hok as [|h hs Hh _ IH]; intros bs He; cbn [length stream_headers write_all_headers] in *.
  - by apply Ok_eq in He as <-.
  - apply bind_Ok_inv in He as (a & Ha & He). apply bind_Ok_inv in He as (b & Hb & He). apply Ok_eq in He as <-.
    destruct (reads_header c min_date max_date h Hh) as (a' & Hw & Hr). rewrite Ha in Hw. apply Ok_eq in Hw as <-.
    unfold tbind. rewrite <- app_assoc, (read_item_ok _ a h) by done. rewrite (IH b Hb). cbn [fst snd tret].
    by rewrite wrap64_add_length.
Qed.

(** What the chain does with the headers, 32 at a time, until it refuses some. *)
Fixpoint deliver (fuel : nat) (i : PeerInfo) (hs : list BlockHeader) : trans W chain_error bool :=
  match fuel, hs with
  | O, _ | _, [] => tret true
  | S fuel, _ =>
      let! good := headers_received (take 32 hs) i in
      if good then deliver fuel i (drop 32 hs) else tret false
  end.

Lemma consume_headers_ok fuel i hs bs rest x total w w' :
  (length hs <= fuel)%nat -> Forall hdr_ok hs -> write_all_headers c hs = Ok bs -> is_u64 total ->
  deliver fuel i hs w = (Ok true, w') ->
  consume_headers c min_date max_date fuel (length hs) i total (mkStream (bs ++ rest) x, w)
  = (Ok (Some (wrap64 (total + Z.of_nat (length bs)))), (mkStream rest x, w')).
Proof.
  revert hs bs total w. induction fuel as [|fuel IH]; intros hs bs total w Hl Hok He Ht Hd.
  { assert (hs = []) as -> by (by apply length_zero_iff_nil; lia). apply Ok_eq in He as <-. cbn in *. injection Hd as ->.
    unfold tret. rewrite Z.add_0_r, wrap64_small by done. done. }
  destruct hs as [|h hs'].
  { apply Ok_eq in He as <-. cbn in *. injection Hd as ->. unfold tret. rewrite Z.add_0_r, wrap64_small by done. done. }
  set (hs := h :: hs') in *. assert (0 < length hs)%nat as Hpos by (subst hs; cbn; lia).
  assert (consume_headers c min_date max_date (Datatypes.S fuel) (length hs) i total =
    (let! y := on_stream (stream_headers c min_date max_date (Nat.min 32 (length hs))) in
     let! good := on_world (headers_received (fst y) i) in
     if good then consume_headers c min_date max_date fuel (length hs - Nat.min 32 (length hs)) i (total +! snd y) else tret None)) as -> by done.
  assert (deliver (Datatypes.S fuel) i hs =
    (let! good := headers_received (take 32 hs) i in if good then deliver fuel i (drop 32 hs) else tret false)) as Hdel by done.
  rewrite Hdel in Hd. clear Hdel.
  rewrite <- (take_drop 32 hs) in He. destruct (write_all_headers_app _ _ _ He) as (b1 & b2 & E1 & E2 & ->).
  rewrite <- (take_drop 32 hs) in Hok. apply Forall_app in Hok as [Hok1 Hok2].
  unfold tbind at 1, on_stream. rewrite <- length_take, <- app_assoc, (stream_headers_ok _ b1) by done. cbn [fst snd].
  unfold tbind in Hd. destruct (headers_received (take 32 hs) i w) as [[[]|e|] w1] eqn:Hr; [|done|done|done].
  unfold tbind, on_world. rewrite Hr. cbn [map_err]. rewrite length_take.
  replace (length hs - Nat.min 32 (length hs))%nat with (length (drop 32 hs)) by (rewrite length_drop; lia).
  rewrite (IH _ b2); [|rewrite length_drop; lia|done|done|apply wrap64_range|exact Hd].
  assert (wrap64 (total +! wrap64 (Z.of_nat (length b1)) + Z.of_nat (length b2)) = wrap64 (total + Z.of_nat (length (b1 ++ b2)))) as ->; [|done].
  unfold u64_add, wrap64. rewrite Zplus_mod_idemp_r, Zplus_mod_idemp_l, length_app, Nat2Z.inj_add, Z.add_assoc. done.
Qed.

(** C22. The answer to a request for headers reaches the chain complete and in order: when the
    headers are well formed, fit the count and are all accepted, the message [write_headers]
    makes of them is handled by passing them to [headers_received] in chunks of 32, the check
    on the number of bytes succeeds, and the stream is left at the first byte after the message. *)
Theorem headers_delivered i hs rest x w w' :
  is_banned w (pi_addr i) = false -> Forall hdr_ok hs -> Z.of_nat (length hs) <= MAX_BLOCK_HEADERS ->
  deliver (length hs) i hs w = (Ok true, w') ->
  exists bs, write_headers c (mkHeaders hs) = Ok bs
    /\ Z.of_nat (length bs) <= max_msg_size c T_Headers * 4
    /\ consume c min_date max_date siphash24 inc_quiet_received now random i
         (msg_header_new c T_Headers (Z.of_nat (length bs))) (mkStream (bs ++ rest) x, w)
       = (Ok None, (mkStream rest x, w')).
Proof.
  intros Hb Hok Hl Hd. destruct (write_all_headers_ok hs Hok) as (bs & Hw). unfold write_headers. cbn [headers].
  rewrite Hw. cbn [bind]. eexists. split; [reflexivity|]. unfold MAX_BLOCK_HEADERS in Hl.
  assert (Z.of_nat (length bs) <= 681 * Z.of_nat (length hs)) as Hlen.
  { clear -Hok Hw. revert bs Hw. induction Hok as [|h hs Hh _ IH]; intros bs Hw; cbn [write_all_headers] in Hw; [by apply Ok_eq in Hw as <-|].
    apply bind_Ok_inv in Hw as (a & Ha & Hw). apply bind_Ok_inv in Hw as (b & Hb & Hw). apply Ok_eq in Hw as <-.
    pose proof (length_header c h a (header_ok_proof _ _ _ _ Hh) Ha). specialize (IH b Hb). rewrite length_app. cbn [length]. lia. }
  split; [lengths; cbn [max_msg_size]; unfold MAX_BLOCK_HEADERS; lia|].
  unfold consume. cbn [snd]. rewrite Hb. cbn [msg_type msg_header_new]. unfold tbind at 1, on_stream.
  rewrite <- app_assoc, (read_item_ok read_u16 (write_u16 (Z.of_nat (length hs))) (Z.of_nat (length hs)))
    by (apply (reads_uint 2); change (2 ^ (8 * Z.of_nat 2)) with 65536; lia).
  cbn [fst snd]. unfold tbind. rewrite Nat2Z.id, (consume_headers_ok _ i hs bs rest x _ w w'); [|lia|done|done|apply wrap64_range|done].
  cbn [msg_len msg_header_new]. rewrite length_app. unfold write_u16. rewrite length_be_bytes.
  rewrite (wrap64_small (Z.of_nat 2)), wrap64_small by (unfold is_u64; lia).
  destruct (Z.eqb_spec (Z.of_nat 2 + Z.of_nat (length bs)) (Z.of_nat (2 + length bs))); [done|lia].
Qed.
End Headers.
