(* ===== verification/NetExample.v ===== *)
(** * The peer-to-peer layer: examples

    Concrete runs of the theorems on messages, peers, handshakes and connections, with the
    chain of [DummyAdapter] of [p2p/src/serv.rs] behind the network; and runs of the defects. *)
From S2P Require Import Prelude Ser Global Pow Reward Retarget Feijoada Committed Transaction CutThrough Block BlockTheory ChainStore Pipe Msg MsgTheory Peers PeerMap PeersTheory PeersInv Protocol Server ProtocolTheory.

Definition net_hasher : Hasher := suffix_hasher.
Definition net_secp : Secp := {|
  PublicKey := ();
  to_pubkey _ := Some ();
  verify_single _ _ _ := true;
  verify_bullet_proof_multi _ _ := true;
  secret_key_from_slice b := Some b;
  Committed.commit v k := encode_checked 33 (v + value k);
  commit_value v := encode_checked 33 v;
  commit_sum ps ns := encode_checked 33 (values ps - values ns);
  blind_sum ps ns := encode_checked 32 (values ps - values ns);
  MAX_PROOF_SIZE := 675;
|}.
#[local] Existing Instance net_hasher.
#[local] Existing Instance net_secp.


(** A chain that accepts everything and changes nothing; the file transfers, which
    [DummyAdapter] leaves out, are refused. *)
#[local] Instance dummy_adapter : ChainAdapter () := {|
  total_difficulty _ := Ok min;
  total_height _ := Ok 0;
  transaction_received _ _ := tret true;
  get_transaction _ _ := None;
  tx_kernel_received _ _ := tret true;
  block_received _ _ _ := tret true;
  compact_block_received _ _ := tret true;
  header_received _ _ := tret true;
  headers_received _ _ := tret true;
  locate_headers _ _ := Ok [];
  get_block _ _ := Ok None;
  kernel_data_read _ := Panic;
  kernel_data_write _ := fun s => (Panic, s);
  txhashset_read _ _ := None;
  txhashset_receive_ready _ := false;
  txhashset_download_update _ _ _ s := s;
  txhashset_write _ _ _ := tret false
|}.

(** ** Messages *)
Definition v4 (a b c d port : Z) : PeerAddr := mkPeerAddr (SocketV4 [a; b; c; d] port).
Definition sample_ping : Ping := mkPing min 7 1600000000.

Lemma message_roundtrip_witness :
  exists buf, write_to_buf Mainnet (Ok (write_ping sample_ping)) T_Ping = Ok buf
    /\ read_message Mainnet (read_msg Mainnet 0 (2 ^ 40) T_Ping) T_Ping (mkStream (buf ++ [1; 2; 3]) false)
       = (Ok (M_Ping sample_ping), mkStream [1; 2; 3] false).
Proof.
  apply (@message_roundtrip net_hasher net_secp Mainnet 0 (2 ^ 40) ltac:(vm_decide) (M_Ping sample_ping) [1; 2; 3] false).
  unfold message_ok, ping_ok. split_and!; vm_decide.
Defined.

(** A list of addresses with one that is cut short. *)
Lemma decoded_message_typed_witness :
  match deserialize (read_msg Mainnet 0 (2 ^ 40) T_PeerAddrs) [0; 0; 0; 1; 0; 10; 0; 0; 1; 13; 86] with
  | Ok m => type_of m = T_PeerAddrs /\ message_typed m
  | Err _ => True
  | Panic => False
  end.
Proof. apply decoded_message_typed; vm_decide. Defined.

(** ** Peers *)
Definition alice : PeerAddr := v4 10 0 0 1 3414.
Definition bob : PeerAddr := v4 10 0 0 2 3414.
Definition carol : PeerAddr := v4 10 0 0 3 3414.
Definition show_v6 (_ : list Z) : list Z := [58; 58].
Definition unshuffled (A : Type) (l : list A) : list A := l.
Definition noon : Z := 1600000000000.

Definition a_peer (a : PeerAddr) : Peer := peer_new (mkInfo 15 USER_AGENT 1 a Inbound) (live_new noon min).
Definition join (a : PeerAddr) (s : Peers ()) : Peers () :=
  snd (add_connected show_v6 noon (length (heap s)) (set_heap (heap s ++ [a_peer a]) s)).
Definition nobody : Peers () := mkPeers tt (mkStore ∅) ∅ [].
Definition company : Peers () := join carol (join bob (join alice nobody)).

Lemma nobody_ok : peers_ok nobody.
Proof. split_and!; [intros k id Hk; by apply (lookup_empty_Some (M := gmap (list Z)) k id) in Hk|constructor|apply map_Forall_empty]. Qed.
Lemma a_peer_ok a : addr_ok a -> info_ok (info (a_peer a)).
Proof. intros Ha. split; [exact Ha|]. vm_decide. Qed.

Abbreviation step := (peers_step Mainnet show_v6 noon unshuffled).

Lemma join_steps a s : addr_ok a -> rtc step s (join a s).
Proof.
  intros Ha. eapply rtc_l; [apply (step_connection Mainnet show_v6 noon unshuffled s (a_peer a)), a_peer_ok, Ha|].
  apply rtc_once, (step_connected Mainnet show_v6 noon unshuffled).
Qed.

Lemma company_steps : rtc step nobody company.
Proof. unfold company. do 2 (etransitivity; [|apply join_steps; vm_decide]). apply join_steps. vm_decide. Qed.

Lemma peers_invariant_witness : peers_ok (ban_peer Mainnet show_v6 noon bob BadBlock company).
Proof.
  apply (peers_invariant Mainnet show_v6 noon unshuffled ltac:(vm_decide) nobody); [|apply nobody_ok].
  eapply rtc_r; [apply company_steps|apply step_ban].
Defined.


(** One is banned; there is room for one of the other two. *)
Definition crowd : Peers () := alter_peer 0 set_banned company.

Lemma join_ok a s : addr_ok a -> peers_ok s -> peers_ok (join a s).
Proof.
  intros Ha (H1 & H2 & H3). apply add_connected_ok. split_and!; [|by apply Forall_app; split; [|constructor; [apply a_peer_ok|]]|done].
  intros k id Hk. destruct (H1 k id Hk) as (p & Hp & E). exists p. split; [|done]. by apply lookup_app_l_Some.
Qed.

Lemma company_ok : peers_ok company.
Proof. unfold company. do 3 (apply join_ok; [vm_decide|]). apply nobody_ok. Qed.

Lemma crowd_ok : peers_ok crowd.
Proof. apply (moved_ok company); [by apply moved_alter|apply company_ok]. Qed.

Lemma clean_peers_exact_witness :
  (size (peers (clean_peers show_v6 noon unshuffled 1 crowd)) <= 2)%nat
  /\ peers (clean_peers show_v6 noon unshuffled 1 crowd) !! map_key alice = None.
Proof.
  destruct (clean_peers_exact show_v6 noon unshuffled ltac:(done) crowd 1 crowd_ok ltac:(vm_decide)) as [Hleft Hsize].
  split; [exact Hsize|]. destruct (peers _ !! _) as [id|] eqn:E; [|done].
  exfalso. destruct (Hleft _ _ E) as (Hk & p & Hp & Hb).
  assert (peers crowd !! map_key alice = Some 0%nat) as E0 by (vm_compute; reflexivity). rewrite E0 in Hk. injection Hk as <-.
  assert (heap crowd !! 0%nat = Some (set_banned (a_peer alice))) as E1 by (vm_compute; reflexivity). rewrite E1 in Hp. injection Hp as <-.
  revert Hb. vm_compute. discriminate.
Defined.

(** A defect: the bound on the number of peers is missed, the banned peer having been
    counted among those that make room though it is not among those counted. *)
Example clean_peers_leaves_too_many : size (peers (clean_peers show_v6 noon unshuffled 1 crowd)) = 2%nat.
Proof. vm_compute. reflexivity. Qed.

(** ** Handshakes *)
Definition hello : Handshake := mkHandshake [] [] (from_vec [1; 2; 3]).

Lemma nonce_window_witness : 5 ∈ nonces (pushes [6; 7] (next_nonce 5 hello)).
Proof. apply nonce_window; [vm_decide|vm_decide|vm_decide|vm_decide]. Defined.

Lemma handshake_agrees_witness :
  exists hand shake,
    fst (accept Mainnet config_default noon 15 min (hello, mkConn (mkStream hand false) [] (Some (SocketV4 [10; 0; 0; 1] 50000))))
    = Ok (mkInfo 7 USER_AGENT PROTOCOL_VERSION alice Inbound, live_new noon zero)
    /\ fst (initiate Mainnet config_default noon 5 7 zero alice (hello, mkConn (mkStream shake false) [] (Some (sock bob))))
    = Ok (mkInfo 15 USER_AGENT PROTOCOL_VERSION bob Outbound, live_new noon min).
Proof.
  destruct (handshake_agrees Mainnet config_default config_default noon noon hello hello 5 7 15 zero min alice
    (SocketV4 [10; 0; 0; 1] 50000) (sock bob) false false) as (hand & shake & Ha & Hi); try vm_decide.
  exists hand, shake. by rewrite Ha, Hi.
Defined.

(** ** Connections *)
Abbreviation handle_at := (handle Mainnet 0 (2 ^ 40) (fun _ _ _ => 0) show_v6 unshuffled noon 0).
Abbreviation turn_of := (peer_turn Mainnet 0 (2 ^ 40) (fun _ _ _ => 0) show_v6 unshuffled noon 0).

Lemma bob_stored : exists p, store_get_peer show_v6 noon (store company) bob = Ok p.
Proof.
  destruct (store_get_peer show_v6 noon (store company) bob) as [p| |] eqn:E; [by exists p| |]; exfalso; revert E; vm_compute; discriminate.
Qed.

Lemma banned_peer_powerless_witness :
  let s' := ban_peer Mainnet show_v6 noon bob ManualBan company in
  get_connected_peer s' bob = None
  /\ forall h st, handle_at 1 (mkInfo 15 USER_AGENT 1 (v4 10 0 0 2 50000) Inbound) h (st, s') = (Ok None, (st, s')).
Proof.
  cbv zeta. destruct bob_stored as [p Hp].
  destruct (banned_peer_powerless Mainnet 0 (2 ^ 40) (fun _ _ _ => 0) show_v6 unshuffled noon 0 config_default 15 company bob ManualBan p
    (v4 10 0 0 2 50000) ltac:(vm_decide) company_ok Hp ltac:(vm_decide)) as (Hh & _ & Hg & _).
  split; [exact Hg|]. intros h st. by apply Hh.
Defined.

Definition alice_info : PeerInfo := mkInfo 15 USER_AGENT 1 alice Inbound.
Definition ping_header : MsgHeader := msg_header_new Mainnet T_Ping (Z.of_nat (length (write_ping sample_ping))).
Definition two_messages : stream := mkStream (write_ping sample_ping ++ [97; 61; 4]) false.

Lemma consume_in_step_witness :
  took (msg_len ping_header) two_messages (fst (snd (handle_at 0 alice_info ping_header (two_messages, company)))).
Proof.
  destruct (handle_at 0 alice_info ping_header (two_messages, company)) as [r [s' w']] eqn:E. cbn [fst snd].
  assert (goes_on r = true) as Hr.
  { change r with (fst (r, (s', w'))). rewrite <- E. vm_compute. reflexivity. }
  refine (consume_in_step Mainnet 0 (2 ^ 40) (fun _ _ _ => 0) (count_quiet_received noon 0) noon 0 alice_info ping_header
    two_messages company r s' w' _ _ E Hr); vm_compute; reflexivity.
Defined.

Lemma sample_header_ok : header_ok AutomatedTesting 0 (2 ^ 40) sample_header.
Proof. unfold header_ok, pow_ok. split_and!; vm_decide. Qed.

Lemma headers_delivered_witness :
  exists bs, write_headers AutomatedTesting (mkHeaders [sample_header; sample_header]) = Ok bs
    /\ handle AutomatedTesting 0 (2 ^ 40) (fun _ _ _ => 0) show_v6 unshuffled noon 0 0 alice_info
         (msg_header_new AutomatedTesting T_Headers (Z.of_nat (length bs))) (mkStream (bs ++ [1; 2]) true, company)
       = (Ok None, (mkStream [1; 2] true, company)).
Proof.
  destruct (headers_delivered AutomatedTesting 0 (2 ^ 40) (fun _ _ _ => 0) (H1 := tracking_net_adapter AutomatedTesting show_v6 noon unshuffled 0)
    (count_quiet_received noon 0) noon 0 alice_info [sample_header; sample_header] [1; 2] true company company) as (bs & Hw & _ & Hc).
  - vm_compute. reflexivity.
  - constructor; [apply sample_header_ok|]. constructor; [apply sample_header_ok|constructor].
  - vm_decide.
  - unfold deliver, or_ban. cbn. by destruct company.
  - exists bs. split; [exact Hw|exact Hc].
Defined.

(** ** Defects *)
Definition framed_bytes (t : Type_) (body : list Z) : list Z :=
  write_msg_header (msg_header_new Mainnet t (Z.of_nat (length body))) ++ body.
Definition serve (bs : list Z) (s : Peers ()) : turn * served (W := Peers ()) :=
  turn_of 0 alice_info (mkServed (mkStream bs false) s []).

(** A transaction with no kernel ends the thread of the connection: the tracking adapter
    takes the first kernel without looking whether there is one. *)
Example no_kernel_kills_connection : fst (serve (framed_bytes T_Transaction (write_tx Full tx_empty)) company) = Dead.
Proof. vm_compute. reflexivity. Qed.

(** A second greeting, or an answer to one, is ignored but not read: its body is taken for
    the next message, and the connection, which was to go on after it, ends. *)
Example second_greeting_left_over :
  let v := serve (framed_bytes T_Shake [1; 2; 3; 4; 5; 6; 7; 8; 9; 10; 11; 12]) company in
  fst v = Continue /\ fst (turn_of 0 alice_info (snd v)) = Break.
Proof. vm_compute. by split. Qed.

(** A message of a type that is not known and with nothing in it ends the connection, to
    which a longer one does nothing. *)
Example empty_unknown_ends_connection :
  fst (serve ([97; 61; 40] ++ write_u64 0) company) = Break /\ fst (serve ([97; 61; 40] ++ write_u64 1 ++ [9]) company) = Continue.
Proof. vm_compute. by split. Qed.

(** *** Bans that do not last *)
Definition bob_answers : conn :=
  mkConn (mkStream (framed_bytes T_Shake (write_shake (mkShake 1 15 (genesis hello) min USER_AGENT))) false) [] (Some (sock bob)).
Definition after_ban : Server () := mkServer hello (ban_peer Mainnet show_v6 noon bob BadBlock company).

(** Dialling does not ask whether an address is banned, and lifts the ban. *)
Example dialling_lifts_ban :
  let s := fst (dial_one Mainnet show_v6 config_default 15 noon false (fun _ => Some bob_answers) (fun _ => 5) 15 (after_ban, ∅) bob) in
  peers_is_banned show_v6 noon (srv_peers after_ban) bob = true
  /\ peers_is_banned show_v6 noon (srv_peers s) bob = false /\ is_known (srv_peers s) bob = true.
Proof. vm_compute. by split_and!. Qed.

(** So does failing to reach it. *)
Example failing_to_dial_lifts_ban :
  let s := fst (dial_one Mainnet show_v6 config_default 15 noon false (fun _ => None) (fun _ => 5) 15 (after_ban, ∅) bob) in
  peers_is_banned show_v6 noon (srv_peers s) bob = false.
Proof. vm_compute. reflexivity. Qed.

(** The reason of a ban is told to the peer and not kept. *)
Example ban_reason_not_kept :
  match store_get_peer show_v6 noon (store (srv_peers after_ban)) bob with
  | Ok p => flags p = BannedState /\ pd_ban_reason p = NoReason
  | _ => False
  end.
Proof. vm_compute. by split. Qed.

(** A node that reaches itself bans its own address for a bad handshake. *)
Definition own_greeting : conn :=
  mkConn (mkStream (framed_bytes T_Hand (write_hand (mkHand 1 15 5 (genesis hello) min alice alice USER_AGENT))) false) []
    (Some (SocketV4 [10; 0; 0; 9] 50000)).
Example own_address_banned :
  let s := listen_one Mainnet show_v6 config_default 15 noon false (SocketV4 [10; 0; 0; 9] 50000) own_greeting
             (mkServer (next_nonce 5 hello) nobody) in
  peers_is_banned show_v6 noon (srv_peers s) (v4 10 0 0 9 3414) = true.
Proof. vm_compute. reflexivity. Qed.

(** *** Small numbers *)
(** The lists of hashes hold one more than their limit. *)
Example track_list_holds_31 : length (foldl push_hash [] (map (fun i => from_vec [Z.of_nat i]) (seq 0 40))) = 31%nat.
Proof. vm_compute. reflexivity. Qed.

(** The middle of an odd number of offsets is the mean of two of them, and that of an even
    number is one of them. *)
Example median_swapped : median_ts [0; 10; 20] = Ok 5 /\ median_ts [0; 10; 20; 30] = Ok 20.
Proof. vm_compute. by split. Qed.

(** An offset that is not positive is replaced by the time of day. *)
Example no_offset_is_a_date : set_network_adjusted_time noon (-1) = 1600000000.
Proof. vm_compute. reflexivity. Qed.

(** A quiet entry counts only while a loud one stands before it. *)
Example quiet_bytes_not_counted : bytes_per_min (rate_inc_quiet noon 1000 []) = 0.
Proof. vm_compute. reflexivity. Qed.
