(* ===== verification/NodeNet.v ===== *)
(** * The node behind the network

    [NetToChainAdapter] of [servers/src/common/adapters.rs] as an instance of the interface
    [ChainAdapter] the peer-to-peer layer is written against: the functions of [Node], and
    the transfers of kernels and of the archive of a fast sync, which call the chain.  The
    archive's packing and unpacking are arguments; [downloading] is whether the
    synchronization is waiting for one. *)
From S2P Require Import Prelude PmmrIndex Pmmr AppendOnlyFile PruneList PmmrBackend Ser Global Pow Reward Retarget Feijoada Committed Transaction Block ChainStore Pipe TxHashSet ProcessBlock Orphans ChainFacade Pool Node Msg Peers PeerMap Protocol Server.

(** The [while let] loop: kernels up to the first that does not read.  Every kernel takes
    bytes, so that there are fewer than the bytes. *)
Fixpoint count_kernels (fuel : nat) (r : reader) : outcome chain_error Z :=
  match fuel with
  | O => Ok 0
  | S fuel =>
      match read_kernel_entry r with
      | Ok (_, r) => let? n := count_kernels fuel r in Ok (n + 1)
      | Err _ => Ok 0
      | Panic => Panic
      end
  end.
(** [Chain::kernel_data_write]: nothing is kept. *)
Definition chain_kernel_data_write (bs : list Z) : outcome chain_error () :=
  let? _ := count_kernels (S (length bs)) (mkReader StreamingReader bs 0) in Ok tt.

Section NodeNet.
Context `{Hasher} `{Secp} (c : ChainTypes) (min_date max_date now : Z).
Context (get_progpow_value : list Z -> Z -> Z -> Hash) (u256_from : Hash -> Z).
Context (config : PolicyConfig) (pow_verifier : BlockHeader -> bool).
Context (bitmap_serialize : gset Z -> list Z) (bitmap_deserialize : list Z -> gset Z).
Context (load_foundation_output : Z -> Output * TxKernel).
Context (is_syncing every_block connected : bool).
Context (sort_buckets : list Bucket -> list Bucket) (relay : Transaction -> outcome pool_error ()).
Context (roll : Z) (stream_hash : list Z -> option (Hash * list Z * Z))
  (stream_output : list Z -> option (OutputIdentifier * list Z * Z))
  (stream_rproof : list Z -> option (RangeProof * list Z * Z)).
Context (siphash24 : Z -> Z -> list Z -> Z).
Context (downloading : bool) (zip_read : Node -> BlockHeader -> option (list Z))
  (unzip : list Z -> BlockHeader -> outcome chain_error TxHashSet)
  (reopen : BlockHeader -> TxHashSet -> outcome chain_error TxHashSet).

(** A copy of the file of kernels. *)
Definition chain_kernel_data_read (n : Node) : outcome chain_error (list Z) :=
  rewindable_kernel_view c min_date max_date (Chain.txhashset (chain n)) (Chain.store (chain n))
    (tread (fun v => Ok (file (data_file (backend (kv_pmmr v)))))).

Definition net_kernel_data_write (bs : list Z) : trans Node chain_error bool :=
  do! tread (fun _ => chain_kernel_data_write bs) then tret true.

Definition net_txhashset_read (n : Node) (h : Hash) : option (list Z) :=
  match Chain.get_block_header c min_date max_date (chain n) h with
  | Ok header => zip_read n header
  | _ => None
  end.

(** The state is looked at again after the download. *)
Definition net_txhashset_write (h : Hash) (bs : list Z) : trans Node chain_error bool := fun n =>
  if negb downloading then (Ok true, n)
  else
    match on_chain (Chain.txhashset_write c min_date max_date get_progpow_value u256_from config pow_verifier now
                      bitmap_serialize bitmap_deserialize load_foundation_output (unzip bs) reopen h) n with
    | (Ok _, n) => (Ok true, n)
    | (Err e, n) => (Ok (negb (is_bad_data e)), n)
    | (Panic, n) => (Panic, n)
    end.

#[local] Instance node_adapter : ChainAdapter Node := {|
  PeerMap.total_difficulty := Node.total_difficulty;
  PeerMap.total_height := Node.total_height;
  PeerMap.transaction_received := Node.transaction_received c min_date max_date now is_syncing sort_buckets relay;
  PeerMap.get_transaction := Node.get_transaction;
  PeerMap.tx_kernel_received h _ := Node.tx_kernel_received is_syncing connected h;
  PeerMap.block_received b _ was_requested :=
    Node.block_received c min_date max_date now get_progpow_value u256_from config pow_verifier bitmap_serialize
      bitmap_deserialize load_foundation_output is_syncing every_block connected roll stream_hash stream_output stream_rproof b was_requested;
  PeerMap.compact_block_received cb _ :=
    Node.compact_block_received c min_date max_date now get_progpow_value u256_from config pow_verifier bitmap_serialize
      bitmap_deserialize load_foundation_output is_syncing every_block connected roll stream_hash stream_output stream_rproof siphash24 cb;
  PeerMap.header_received bh _ :=
    Node.header_received c min_date max_date now get_progpow_value u256_from config pow_verifier connected bh;
  PeerMap.headers_received bhs _ :=
    Node.headers_received c min_date max_date now get_progpow_value u256_from config pow_verifier bhs;
  PeerMap.locate_headers := Node.locate_headers c min_date max_date;
  PeerMap.get_block := Node.get_block c min_date max_date;
  PeerMap.kernel_data_read := chain_kernel_data_read;
  PeerMap.kernel_data_write := net_kernel_data_write;
  PeerMap.txhashset_read := net_txhashset_read;
  PeerMap.txhashset_receive_ready _ := downloading;
  PeerMap.txhashset_download_update _ _ _ n := n;
  PeerMap.txhashset_write h bs _ := net_txhashset_write h bs
|}.
End NodeNet.
