(* ===== verification/NodeNetTheory.v ===== *)
(** * No message from the network makes the chain lighter

    [ChainPromise R]: what a chain promises to the network, that each of the calls the
    network makes, on what the reader can decode, relates the states before and after it by
    [R].  Through the handling of messages, with its bans and its records, the promise
    carries over to everything the peers send ([handle_keeps]); the node gives it for
    [grows]. *)
From S2P Require Import Prelude PmmrIndex Pmmr AppendOnlyFile PruneList PmmrBackend Ser Global Pow Reward Retarget Feijoada Committed Transaction Block BlockTheory ChainStore Pipe TxHashSet ProcessBlock Orphans ChainFacade ChainTheory Pool Node Msg MsgTheory Peers PeerMap PeersTheory PeersInv Protocol Server ProtocolTheory NodeNet.

(** ** Blocks that were decoded *)
(** What the reader gives, when it gives something. *)
Definition gives {A} (m : read A) (P : A -> Prop) : Prop := forall r a r', bin_bytes r -> m r = Ok (a, r') -> P a.

Lemma gives_bind {A B} (m : read A) (f : A -> read B) P Q :
  typed m P -> (forall a, P a -> gives (f a) Q) -> gives (rbind m f) Q.
Proof.
  intros Hm Hf r b r' Hr. unfold rbind. specialize (Hm r Hr). destruct (m r) as [[a r1]|e|]; cbn [bind]; [|done|done].
  destruct Hm as [Ha Hr1]. by apply Hf.
Qed.

(** The same on any input. *)
Definition always {A} (m : read A) (P : A -> Prop) : Prop := forall r a r', m r = Ok (a, r') -> P a.

Lemma always_bind {A B} (m : read A) (f : A -> read B) Q : (forall a, always (f a) Q) -> always (rbind m f) Q.
Proof. intros Hf r b r'. unfold rbind. destruct (m r) as [[a r1]|e|]; cbn [bind]; [apply Hf|done|done]. Qed.
Lemma always_ret {A} (a : A) (P : A -> Prop) : P a -> always (ret a) P.
Proof. by intros Ha r b r' [= <- _]. Qed.
Lemma always_fail {A} e (P : A -> Prop) : always (fail e) P.
Proof. by intros r a r'. Qed.

Lemma gives_then {A B} (m : read A) (f : A -> read B) P (Q : B -> Prop) :
  gives m P -> (forall a, P a -> always (f a) Q) -> gives (rbind m f) Q.
Proof.
  intros Hm Hf r b r' Hr. unfold rbind. destruct (m r) as [[a r1]|e|] eqn:E; cbn [bind]; [|done|done].
  apply Hf. by eapply Hm.
Qed.

Lemma gives_weaken {A} (m : read A) P : always m P -> gives m P.
Proof. intros Hm r a r' _. apply Hm. Qed.

Section Decoded.
Context `{Hasher} `{Secp} (c : ChainTypes) (min_date max_date : Z).

Lemma gives_pow : gives (read_pow c) (fun p => difficulty_ok (Pow.total_difficulty p)).
Proof.
  eapply gives_bind; [apply typed_difficulty|]. intros d Hd. apply gives_weaken. do 4 (apply always_bind; intros ?).
  by apply always_ret.
Qed.

Lemma gives_header : gives (read_header c min_date max_date) sized_header.
Proof.
  eapply gives_bind; [apply (typed_uint 2)|]. intros v _. eapply gives_bind; [apply (typed_uint 8)|]. intros h Hh.
  eapply (gives_bind read_i64 _ (fun _ => True)); [eapply typed_map; [apply (typed_uint 8)|done]|]. intros ts _.
  do 6 (eapply gives_bind; [apply typed_array|]; intros ? _). do 2 (eapply gives_bind; [apply (typed_uint 8)|]; intros ? _).
  eapply gives_then; [apply gives_pow|]. intros p Hp. do 2 (apply always_bind; intros ?).
  destruct (_ || _); [apply always_fail|]. destruct (negb _); [apply always_fail|]. by apply always_ret.
Qed.

Lemma gives_block : gives (read_block c min_date max_date) (fun b => sized_header (header b)).
Proof.
  eapply gives_then; [apply gives_header|]. intros h Hh. apply always_bind. intros b r b' r'.
  by destruct (body_validate_read c AsBlock b); intros [= <- _].
Qed.

Lemma gives_compact_block : gives (read_compact_block c min_date max_date) (fun cb => sized_header (cb_header cb)).
Proof.
  eapply gives_then; [apply gives_header|]. intros h Hh. do 2 (apply always_bind; intros ?). intros r b' r'.
  by destruct (compact_verify_sorted _); intros [= <- _].
Qed.
End Decoded.

(** ** The promise *)
Class ChainPromise {S} `{ChainAdapter S} (R : relation S) : Prop := {
  promise_po :: PreOrder R;
  promise_transaction t stem : tkeeps R (transaction_received t stem);
  promise_kernel h i : tkeeps R (tx_kernel_received h i);
  promise_block b i was_requested : sized_header (header b) -> tkeeps R (block_received b i was_requested);
  promise_compact cb i : sized_header (cb_header cb) -> tkeeps R (compact_block_received cb i);
  promise_header bh i : tkeeps R (header_received bh i);
  promise_headers bhs i : tkeeps R (headers_received bhs i);
  promise_kernel_data bs : tkeeps R (kernel_data_write bs);
  promise_not_ready s : txhashset_receive_ready s = false
}.

Section Carried.
Context `{Hasher} `{Secp} (c : ChainTypes) (min_date max_date : Z) (siphash24 : Z -> Z -> list Z -> Z).
Context (disp : list Z -> list Z) (shuffle : forall A, list A -> list A) (now random : Z).
Context {S : Type} `{ChainAdapter S} (R : relation S) `{!ChainPromise R}.

Definition behind (s s' : Peers S) : Prop := R (adapter s) (adapter s').
#[local] Instance behind_po : PreOrder behind.
Proof. split; [intros s; unfold behind; reflexivity|]. intros a b d Hab Hbd. unfold behind in *. by etransitivity. Qed.

Lemma same_behind s s' : adapter s' = adapter s -> behind s s'.
Proof. intros E. unfold behind. rewrite E. reflexivity. Qed.

Lemma on_adapter_behind {A} (m : trans S chain_error A) : tkeeps R m -> tkeeps behind (on_adapter m).
Proof. intros Hm s r s'. unfold on_adapter. destruct (m (adapter s)) as [r1 a] eqn:E. intros [= _ <-]. by eapply Hm. Qed.

(** A ban leaves the chain alone. *)
Lemma ban_adapter a r (s : Peers S) : adapter (ban_peer c disp now a r s) = adapter s.
Proof.
  unfold ban_peer, update_state, on_store. destruct (p2p_store _) as [d|e|]; [|done|done].
  destruct (get_connected_peer _ a) as [id|]; [|done]. cbv zeta.
  destruct (on_peer_parts id (send_ban_reason c now r) (set_store d s)) as (_ & _ & E). set (s1 := snd _) in *.
  by destruct (heap _ !! id).
Qed.

Lemma or_ban_behind m i reason : tkeeps R m -> tkeeps behind (or_ban c disp now m i reason).
Proof.
  intros Hm. unfold or_ban. keeps_seq; [by apply on_adapter_behind|]. destruct a; [apply tkeeps_tret, _|].
  keeps_seq; [|apply tkeeps_tret, _]. apply (tkeeps_tmodify behind). intros s. apply same_behind, ban_adapter.
Qed.

Lemma receive_addr_adapter (s : Peers S) a : adapter (receive_addr disp now s a) = adapter s.
Proof. unfold receive_addr. by destruct (exists_peer disp s a) as [[]| |]. Qed.

Lemma receive_addrs_adapter l (s : Peers S) : adapter (foldl (receive_addr disp now) s l) = adapter s.
Proof. revert s. induction l as [|a l IH]; intros s; [done|]. cbn [foldl]. by rewrite IH, receive_addr_adapter. Qed.

(** ** Messages *)
Context (id : nat).
#[local] Instance tracked : NetAdapter (Peers S) := tracking_net_adapter c disp now shuffle id.
Definition over (sw sw' : stream * Peers S) : Prop := behind (snd sw) (snd sw').
#[local] Instance over_po : PreOrder over.
Proof. split; [intros sw; unfold over; reflexivity|]. intros a b d Hab Hbd. unfold over in *. by etransitivity. Qed.

Lemma on_world_over {A} (m : trans (Peers S) chain_error A) : tkeeps behind m -> tkeeps over (on_world m).
Proof. intros Hm [s w] r [s' w']. unfold on_world. destruct (m w) as [r1 w1] eqn:E. intros [= _ _ <-]. by eapply Hm. Qed.
Lemma on_stream_over {A} (m : trans stream p2p_error A) : tkeeps over (on_stream m).
Proof. intros [s w] r sw'. unfold on_stream. destruct (m s). intros [= _ <-]. by apply same_behind. Qed.
Lemma ask_over {A} (f : Peers S -> outcome chain_error A) : tkeeps over (ask f).
Proof. apply tkeeps_tread, _. Qed.
Lemma tell_over f : (forall s : Peers S, adapter (f s) = adapter s) -> tkeeps over (tell f).
Proof. intros Hf. apply (tkeeps_tmodify over). intros [s w]. apply same_behind, Hf. Qed.
Lemma respond_over t body : tkeeps over (respond t body).
Proof. unfold respond, lift_ser. keeps_seq; [apply tkeeps_tread, _|apply tkeeps_tret, _]. Qed.
Lemma respond_with_over t body bs : tkeeps over (respond_with t body bs).
Proof. apply tkeeps_tret, _. Qed.

Lemma track_behind h : tkeeps behind (track id h).
Proof. apply (tkeeps_tmodify behind). intros s. by apply same_behind. Qed.
#[local] Hint Resolve track_behind on_adapter_behind or_ban_behind on_world_over on_stream_over ask_over tell_over respond_over respond_with_over : keeps.
#[local] Hint Resolve promise_transaction promise_kernel promise_block promise_compact promise_header promise_headers promise_kernel_data : keeps.

Lemma tracked_transaction t stem : tkeeps behind (transaction_received t stem).
Proof.
  cbn. keeps_seq; [|eauto with keeps]. destruct stem; [apply tkeeps_tret, _|]. keeps_seq; [apply tkeeps_tread, _|eauto with keeps].
Qed.
Lemma tracked_kernel h i : tkeeps behind (tx_kernel_received h i).
Proof. cbn. keeps_seq; eauto with keeps. Qed.
Lemma tracked_block b i q : sized_header (header b) -> tkeeps behind (block_received b i q).
Proof.
  intros Hb. cbn. keeps_seq; [apply tkeeps_tread, _|eauto with keeps|]. intros s r s'. apply or_ban_behind. eauto with keeps.
Qed.
Lemma tracked_compact cb i : sized_header (cb_header cb) -> tkeeps behind (compact_block_received cb i).
Proof. intros Hb. cbn. keeps_seq; [apply tkeeps_tread, _|eauto with keeps|eauto with keeps]. Qed.
Lemma tracked_header bh i : tkeeps behind (header_received bh i).
Proof. cbn. keeps_seq; [apply tkeeps_tread, _|eauto with keeps|eauto with keeps]. Qed.
Lemma tracked_headers bhs i : tkeeps behind (headers_received bhs i).
Proof. cbn. eauto with keeps. Qed.
Lemma tracked_kernel_data bs : tkeeps behind (kernel_data_write bs).
Proof. cbn. eauto with keeps. Qed.
#[local] Hint Resolve tracked_transaction tracked_kernel tracked_header tracked_headers tracked_kernel_data : keeps.

Context (quiet : Z -> Peers S -> Peers S) (quiet_adapter : forall n s, adapter (quiet n s) = adapter s).

Lemma consume_headers_over fuel count i total : tkeeps over (consume_headers c min_date max_date fuel count i total).
Proof.
  revert count total. induction fuel as [|fuel IH]; intros count total; [apply tkeeps_tret, _|].
  destruct count as [|count]; [apply tkeeps_tret, _|]. cbn [consume_headers]. keeps_seq; [eauto with keeps|eauto with keeps|].
  destruct a0; [apply IH|apply tkeeps_tret, _].
Qed.

(** A call on what has been decoded from bytes. *)
Lemma decoded_arm {A B} (elt : read A) P h (k : A -> trans (stream * Peers S) p2p_error B) sw r sw' :
  gives elt P -> (forall a, P a -> tkeeps over (k a)) -> Forall is_byte (arriving (fst sw)) ->
  tbind (on_stream (read_message_body elt h)) k sw = (r, sw') -> over sw sw'.
Proof.
  intros Hg Hk Hb. destruct sw as [s w]. unfold tbind, on_stream. cbn [fst] in Hb.
  destruct (read_message_body elt h s) as [rb s1] eqn:Eb. destruct rb as [a|e|]; [|intros [= _ <-]; by apply same_behind..].
  intros He. assert (P a) as Ha.
  { revert Eb. unfold read_message_body, tbind, read_exact, lift_ser, tread. destruct (_ =? 0)%nat; [done|].
    destruct (_ <=? _)%nat; [|done]. intros [= Hd _]. unfold deserialize in Hd. apply map_err_Ok_inv in Hd.
    apply bind_Ok_inv in Hd as ([a' r'] & Hd & Ha). apply Ok_eq in Ha as <-. eapply Hg; [|exact Hd].
    split; [done|]. by apply Forall_take. }
  exact (Hk a Ha _ _ _ He).
Qed.

Lemma tell_difficulty_over a d height ts : tkeeps over (tell (peer_difficulty a d height ts)).
Proof. apply tell_over. intros s. cbn. by destruct (get_connected_peer s a). Qed.
Lemma tell_addrs_over l : tkeeps over (tell (peer_addrs_received l)).
Proof. apply tell_over. intros s. apply receive_addrs_adapter. Qed.
Lemma read_kernel_data_over n : tkeeps over (read_kernel_data quiet n).
Proof. destruct n; cbn [read_kernel_data]; [apply tkeeps_tret, _|]. keeps_seq; eauto with keeps. Qed.
#[local] Hint Resolve tell_difficulty_over tell_addrs_over read_kernel_data_over : keeps.

(** An archive that is not waited for is refused. *)
Lemma archive_over {A} (k : trans (stream * Peers S) p2p_error A) :
  tkeeps over (let! ready := ask (fun w => Ok (txhashset_receive_ready w)) in if negb ready then tfail BadMessage else k).
Proof.
  intros sw r sw'. unfold tbind, ask, tread. destruct sw as [s w]. cbn. rewrite promise_not_ready. intros [= _ <-]. by apply same_behind.
Qed.
#[local] Hint Resolve archive_over : keeps.

(** Whatever message is handled, the chain keeps its promise. *)
Lemma consume_over i h s w r sw' :
  Forall is_byte (arriving s) ->
  consume c min_date max_date siphash24 quiet now random i h (s, w) = (r, sw') -> over (s, w) sw'.
Proof.
  intros Hb. unfold consume. cbn [snd]. destruct (is_banned w (pi_addr i)); [intros [= _ <-]; by apply same_behind|].
  intros He. destruct (msg_type h); revert He;
    first [ apply (decoded_arm _ _ _ _ _ _ _ (gives_block c min_date max_date)); [|exact Hb]
          | apply (decoded_arm _ _ _ _ _ _ _ (gives_compact_block c min_date max_date)); [|exact Hb]
          | intros He; refine ((_ : tkeeps over _) _ _ _ He); clear He ].
  all: try (keeps_seq; eauto with keeps; fail).
  all: try (keeps_seq; eauto with keeps; destruct a0; keeps_seq; eauto with keeps; apply tkeeps_tread, _).
  - keeps_seq; [eauto with keeps|apply consume_headers_over|]. destruct a0 as [t|]; [destruct (t =? msg_len h)|]; eauto with keeps.
  - intros b Hs. keeps_seq; [by apply on_world_over, tracked_block|eauto with keeps].
  - intros cb Hs. keeps_seq; [by apply on_world_over, tracked_compact|eauto with keeps].
  - apply (tkeeps_tbind over); [apply on_stream_over|intros arch; apply archive_over].
Qed.
End Carried.

Section Turns.
Context `{Hasher} `{Secp} (c : ChainTypes) (min_date max_date : Z) (siphash24 : Z -> Z -> list Z -> Z).
Context (disp : list Z -> list Z) (shuffle : forall A, list A -> list A) (now random : Z).
Context {S : Type} `{ChainAdapter S} (R : relation S) `{!ChainPromise R}.

(** So does a turn of the thread of a connection, whatever bytes have arrived on it. *)
Lemma peer_turn_behind id i (v v' : served (W := Peers S)) t :
  Forall is_byte (arriving (arrived v)) ->
  peer_turn c min_date max_date siphash24 disp shuffle now random id i v = (t, v') -> behind R (world v) (world v').
Proof.
  intros Hb. unfold peer_turn, poll_read. cbv zeta.
  destruct (read_stream_header c None (arrived v)) as [rh s] eqn:Eh.
  assert (Forall is_byte (arriving s)) as Hs.
  { revert Eh. unfold read_stream_header, tbind, read_exact, lift_ser, tread. cbn [Nat.eqb MsgHeader_LEN Nat.add].
    destruct (_ <=? _)%nat; intros [= _ <-]; [by apply Forall_drop|constructor]. }
  destruct rh as [[h|len]|e|]; [| |intros [= _ <-]; by apply same_behind..].
  - destruct (consume _ _ _ _ _ _ _ _ _ _) as [rc [s' w']] eqn:Ec.
    apply (consume_over _ _ _ _ _ _ _ _ R id (count_quiet_received now id) ltac:(done)) in Ec; [|done].
    assert (behind R (world v) w') as Hw by exact Ec.
    destruct rc as [[resp|]|e|]; intros [= _ <-]; [|exact Hw..]. unfold write_response. by destruct (attachment resp).
  - destruct (read_discard len s) as [[[]|e|] s']; intros [= _ <-]; by apply same_behind.
Qed.
End Turns.

(** ** The node's promise *)
Definition node_grows (n n' : Node) : Prop := grows (chain n) (chain n').
#[export] Instance node_grows_po : PreOrder node_grows.
Proof.
  pose proof grows_pre as [Hr Ht]. split; [intros n; apply Hr|]. intros a b d. apply Ht.
Qed.

Section Promise.
Context `{Hasher} `{Secp} (c : ChainTypes) (min_date max_date now : Z).
Context (get_progpow_value : list Z -> Z -> Z -> Hash) (u256_from : Hash -> Z).
Context (config : PolicyConfig) (pow_verifier : BlockHeader -> bool).
Context (bitmap_serialize : gset Z -> list Z) (bitmap_deserialize : list Z -> gset Z).
Context (load_foundation_output : Z -> Output * TxKernel).
Context (is_syncing every_block connected : bool).
Context (sort_buckets : list Bucket -> list Bucket) (relay : Transaction -> outcome pool_error ()).
Context (roll : Z) (stream_hash : list Z -> option (Hash * list Z * Z))
  (stream_output : list Z -> option (OutputIdentifier * list Z * Z))
  (stream_rproof : list Z -> option (RangeProof * list Z * Z)).
Context (siphash24 : Z -> Z -> list Z -> Z).
Context (zip_read : Node -> BlockHeader -> option (list Z))
  (unzip : list Z -> BlockHeader -> outcome chain_error TxHashSet)
  (reopen : BlockHeader -> TxHashSet -> outcome chain_error TxHashSet).

#[local] Abbreviation steps_grow := (chain_step_grows c min_date max_date get_progpow_value u256_from config pow_verifier
  bitmap_serialize bitmap_deserialize load_foundation_output stream_hash stream_output stream_rproof).

Lemma same_chain_grows n n' : chain n' = chain n -> node_grows n n'.
Proof. unfold node_grows. intros ->. apply grows_pre. Qed.

Lemma on_pool_grows {A} (m : trans TransactionPool pool_error A) : tkeeps node_grows (on_pool m).
Proof. intros n r n'. unfold on_pool. destruct (m (tx_pool n)). intros [= _ <-]. by apply same_chain_grows. Qed.
Lemma on_chain_grows {A} (m : trans Chain.Chain chain_error A) : tkeeps grows m -> tkeeps node_grows (on_chain m).
Proof. intros Hm n r n'. unfold on_chain. destruct (m (chain n)) as [r1 s] eqn:E. intros [= _ <-]. by eapply Hm. Qed.
Lemma ignoring_grows {E F A} (m : trans Node E A) : tkeeps node_grows m -> tkeeps node_grows (ignoring (F := F) m).
Proof. intros Hm n r n'. unfold ignoring. destruct (m n) as [[ | | ] n1] eqn:E1; intros [= _ <-]; by eapply Hm. Qed.
#[local] Hint Resolve on_pool_grows : keeps.

Lemma chain_process_block_grows b opts :
  sized_header (header b) ->
  tkeeps node_grows (chain_process_block c min_date max_date now get_progpow_value u256_from config pow_verifier
    bitmap_serialize bitmap_deserialize load_foundation_output b opts).
Proof.
  intros Hb n r n'. unfold chain_process_block. destruct (Chain.process_block _ _ _ _ _ _ _ _ _ _ _ _ _ _) as [r0 s] eqn:Ep.
  apply process_block_grows in Ep; [|done]. intros He. transitivity (set_chain s n); [exact Ep|].
  refine ((_ : tkeeps node_grows _) _ _ _ He). apply (tkeeps_tbind node_grows); [|intros _ m q m' [= _ <-]; reflexivity].
  apply (tkeeps_tfor node_grows). intros x. apply ignoring_grows. unfold block_accepted. keeps_seq; [|eauto with keeps].
  apply (tkeeps_tmodify node_grows). intros m. by apply same_chain_grows.
Qed.

Lemma validate_chain_grows :
  tkeeps node_grows (validate_chain c min_date max_date bitmap_serialize bitmap_deserialize is_syncing every_block).
Proof.
  intros n r n'. unfold validate_chain. destruct every_block; [|intros [= _ <-]; reflexivity].
  destruct (Chain.head (chain n)) as [h| |]; [|intros [= _ <-]; reflexivity..].
  destruct (_ && _); [|intros [= _ <-]; reflexivity].
  destruct (on_chain _ n) as [r1 n1] eqn:E. intros He. assert (n' = n1) as -> by (by destruct r1; injection He).
  revert E. apply on_chain_grows. intros s q s' Hs. by eapply steps_grow, step_validate.
Qed.

Lemma check_compact_grows :
  tkeeps node_grows (check_compact c min_date max_date bitmap_serialize bitmap_deserialize is_syncing roll stream_hash
    stream_output stream_rproof).
Proof.
  unfold check_compact. destruct (_ && _); [|apply tkeeps_tret, _]. apply ignoring_grows, on_chain_grows.
  intros s q s' Hs. by eapply steps_grow, step_compact.
Qed.

(** A request changes the log of requests only. *)
Lemma request_grows f h : tkeeps node_grows (send_block_request_to_peer connected f h).
Proof.
  intros n r n'. unfold send_block_request_to_peer. destruct (Chain.block_exists _ _) as [[]| |]; intros [= _ <-]; try reflexivity.
  apply same_chain_grows. by destruct connected.
Qed.
#[local] Hint Resolve validate_chain_grows check_compact_grows request_grows : keeps.

Abbreviation node_process_block := (Node.process_block c min_date max_date now get_progpow_value u256_from config pow_verifier
  bitmap_serialize bitmap_deserialize load_foundation_output is_syncing every_block connected roll stream_hash stream_output stream_rproof).

Lemma process_block_node_grows b q : sized_header (header b) -> tkeeps node_grows (node_process_block b q).
Proof.
  intros Hb. unfold Node.process_block. keeps_seq; [apply tkeeps_tread, _|]. destruct (_ <? _); [apply tkeeps_tret, _|].
  intros n r n'. destruct (chain_process_block _ _ _ _ _ _ _ _ _ _ _ _ _ _) as [r1 n1] eqn:E1.
  apply chain_process_block_grows in E1; [|done]. intros He. transitivity n1; [exact E1|]. clear E1.
  destruct r1 as [t|e|]; [| |by injection He as _ <-].
  - refine ((_ : tkeeps node_grows _) _ _ _ He). keeps_seq; eauto with keeps.
  - destruct (is_bad_data e); [refine ((_ : tkeeps node_grows _) _ _ _ He); keeps_seq; eauto with keeps|].
    destruct e; try (by injection He as _ <-). destruct (Chain.get_previous_header _ _ _ _ _) as [p|e|]; try (by injection He as _ <-).
    refine ((_ : tkeeps node_grows _) _ _ _ He). keeps_seq; [apply tkeeps_tread, _| |eauto with keeps].
    intros m q' m'. destruct (_ && _); [apply request_grows|by intros [= _ <-]].
Qed.

Lemma hydrate_header cb txs b : hydrate_from cb txs = Ok b -> header b = cb_header cb.
Proof. unfold hydrate_from, block_cut_through. intros He. apply bind_Ok_inv in He as ([ins outs] & _ & He). by apply Ok_eq in He as <-. Qed.

Lemma compact_block_node_grows cb :
  sized_header (cb_header cb) ->
  tkeeps node_grows (Node.compact_block_received c min_date max_date now get_progpow_value u256_from config pow_verifier
    bitmap_serialize bitmap_deserialize load_foundation_output is_syncing every_block connected roll stream_hash stream_output
    stream_rproof siphash24 cb).
Proof.
  intros Hb n r n'. unfold Node.compact_block_received. destruct (kern_ids (cb_body cb)) as [|i ids].
  - destruct (hydrate_from cb []) as [b|e|] eqn:Eh; [|by intros [= _ <-]..]. apply process_block_node_grows.
    by rewrite (hydrate_header _ _ _ Eh).
  - destruct (Chain.process_block_header _ _ _ _ _ _ _ _ _ _ _) as [u|e|]; [|by intros [= _ <-]..]. intros He.
    refine ((_ : tkeeps node_grows _) _ _ _ He). clear He. keeps_seq; [apply tkeeps_tread, _|]. intros m q m'.
    destruct (retrieve_transactions _ _ _ _ _) as [txs missing]. destruct (hydrate_from cb txs) as [b|e|] eqn:Eh; [|by intros [= _ <-]..].
    destruct (Chain.get_previous_header _ _ _ _ _) as [p|e|]; [|by intros [= _ <-]..].
    destruct (block_validate _ _ _ _) as [v|e|]; [| |by intros [= _ <-]].
    + apply process_block_node_grows. by rewrite (hydrate_header _ _ _ Eh).
    + intros He. refine ((_ : tkeeps node_grows _) _ _ _ He). clear He. keeps_seq; [|eauto with keeps].
      destruct is_syncing; [eauto with keeps|]. unfold request_block. keeps_seq; [apply tkeeps_tread, _|eauto with keeps].
Qed.

#[local] Instance node_chain : ChainAdapter Node :=
  node_adapter c min_date max_date now get_progpow_value u256_from config pow_verifier bitmap_serialize bitmap_deserialize
    load_foundation_output is_syncing every_block connected sort_buckets relay roll stream_hash stream_output stream_rproof
    siphash24 false zip_read unzip reopen.

(** A node that is not waiting for an archive. *)
Lemma node_promise : ChainPromise node_grows.
Proof.
  split; [apply _| | | | | | | |done].
  - intros t stem n r n'. cbn. unfold Node.transaction_received. destruct is_syncing; [by intros [= _ <-]|].
    destruct (Chain.head_header _ _ _ _) as [h|e|]; [|by intros [= _ <-]..]. destruct (on_pool _ n) as [r1 n1] eqn:E1.
    apply on_pool_grows in E1. by destruct r1; intros [= _ <-].
  - intros h i n r n'. cbn. unfold Node.tx_kernel_received. destruct is_syncing; [by intros [= _ <-]|].
    destruct (Node.get_transaction n h); [by intros [= _ <-]|]. intros [= _ <-]. apply same_chain_grows. by destruct connected.
  - intros b i q Hb. by apply process_block_node_grows.
  - intros cb i Hb. by apply compact_block_node_grows.
  - intros bh i n r n'. cbn. unfold Node.header_received.
    destruct (Chain.process_block_header _ _ _ _ _ _ _ _ _ _ _) as [u|e|]; [|by intros [= _ <-]..]. intros He.
    refine ((_ : tkeeps node_grows _) _ _ _ He). unfold request_compact_block. keeps_seq; [apply tkeeps_tread, _|eauto with keeps..].
  - intros bhs i n r n'. cbn. unfold Node.headers_received. destruct bhs as [|h bhs]; [by intros [= _ <-]|].
    destruct (on_chain _ n) as [r1 n1] eqn:E1. intros He. assert (n' = n1) as -> by (destruct r1; by injection He).
    revert E1. apply on_chain_grows. intros s q s' Hs. by eapply steps_grow, step_headers.
  - intros bs. cbn. unfold net_kernel_data_write. keeps_seq; [apply tkeeps_tread, _|apply tkeeps_tret, _].
Qed.
End Promise.

(** ** A history of the network *)
Section Network.
Context `{Hasher} `{Secp} (c : ChainTypes) (min_date max_date : Z).
Context (get_progpow_value : list Z -> Z -> Z -> Hash) (u256_from : Hash -> Z).
Context (config : PolicyConfig) (pow_verifier : BlockHeader -> bool).
Context (bitmap_serialize : gset Z -> list Z) (bitmap_deserialize : list Z -> gset Z).
Context (load_foundation_output : Z -> Output * TxKernel).
Context (sort_buckets : list Bucket -> list Bucket).
Context (stream_hash : list Z -> option (Hash * list Z * Z))
  (stream_output : list Z -> option (OutputIdentifier * list Z * Z))
  (stream_rproof : list Z -> option (RangeProof * list Z * Z)).
Context (siphash24 : Z -> Z -> list Z -> Z).
Context (zip_read : Node -> BlockHeader -> option (list Z))
  (unzip : list Z -> BlockHeader -> outcome chain_error TxHashSet)
  (reopen : BlockHeader -> TxHashSet -> outcome chain_error TxHashSet).
Context (disp : list Z -> list Z).

(** A turn of the thread of some connection, at some time and in some circumstances, with
    some bytes arrived; a step of the node's own on its chain; anything that leaves the
    node behind the network alone: bans, broadcasts, connections coming and going. *)
Inductive network_step : Peers Node -> Peers Node -> Prop :=
| network_turn clock is_syncing every_block connected relay roll shuffle now random id i s bs x out t v' :
    Forall is_byte bs ->
    @peer_turn _ _ c min_date max_date siphash24 disp shuffle now random Node
      (node_adapter c min_date max_date clock get_progpow_value u256_from config pow_verifier bitmap_serialize bitmap_deserialize
         load_foundation_output is_syncing every_block connected sort_buckets relay roll stream_hash stream_output stream_rproof
         siphash24 false zip_read unzip reopen)
      id i (mkServed (mkStream bs x) s out) = (t, v') ->
    network_step s (world v')
| network_own s n :
    chain_step c min_date max_date get_progpow_value u256_from config pow_verifier bitmap_serialize bitmap_deserialize
      load_foundation_output stream_hash stream_output stream_rproof (chain (adapter s)) (chain n) ->
    network_step s (set_adapter n s)
| network_other s s' : adapter s' = adapter s -> network_step s s'.

Lemma network_step_grows s s' : network_step s s' -> node_grows (adapter s) (adapter s').
Proof.
  destruct 1 as [clock sy ev co re ro sh now rnd id i s bs x out t v' Hb He|s n Hn|s s' E].
  - refine (@peer_turn_behind _ _ c min_date max_date siphash24 disp sh now rnd Node _ node_grows _ id i _ v' t _ He); [|exact Hb].
    apply node_promise.
  - by apply (chain_step_grows c min_date max_date get_progpow_value u256_from config pow_verifier bitmap_serialize
      bitmap_deserialize load_foundation_output stream_hash stream_output stream_rproof).
  - apply same_chain_grows. by rewrite E.
Qed.

(** No traffic makes the chain lighter: whatever bytes arrive on whatever connections, in
    whatever order their threads take turns, between whatever steps of the node itself, bans
    and reconnections, a node that is not waiting for a state archive keeps a readable head
    whose total work is never less than it was. *)
Theorem network_never_lightens_chain s s' tip :
  rtc network_step s s' -> pool_headers (chain (adapter s)) -> Chain.head (chain (adapter s)) = Ok tip ->
  exists tip', Chain.head (chain (adapter s')) = Ok tip' /\ num_sum (tip_difficulty tip) <= num_sum (tip_difficulty tip').
Proof.
  intros Hs Hp Ht. assert (node_grows (adapter s) (adapter s')) as Hg; [|by apply (Hg Hp)].
  clear Hp Ht. induction Hs as [|x y z Hstep _ IH]; [reflexivity|]. etransitivity; [by apply network_step_grows|done].
Qed.
End Network.
