(* ===== verification/Sync.v ===== *)
(** * Synchronization

    [servers/src/epic/sync/]: the loop that catches up with the network ([syncer.rs]) and its
    stages, headers ([header_sync.rs]), blocks ([body_sync.rs]) and the state archive
    ([state_sync.rs]); [SyncState] and [DandelionEpoch] of [servers/src/common/types.rs].
    The peers and the node are those of [PeerMap] and [Node]; the adapter through which the
    peers ask for our difficulty is an argument.  The clock, in milliseconds, is read once per
    call; the sleeps of the loops are left out. *)
From S2P Require Import Prelude PmmrIndex Pmmr PruneList PmmrBackend Ser Global Pow Reward Retarget Feijoada Committed Transaction Block ChainStore Pipe TxHashSet ProcessBlock Orphans ChainFacade Pool Node Msg Peers PeerMap.

(** ** The state of the synchronization *)
Inductive SyncStatus : Type :=
| Initial
| NoSync
| AwaitingPeers (wait : bool)
| HeaderSyncing (current_height highest_height : Z)
| TxHashsetDownload (start_time prev_update_time update_time prev_downloaded_size downloaded_size total_size : Z)
| TxHashsetSetup
| TxHashsetValidation (kernels kernel_total rproofs rproof_total : Z)
| TxHashsetSave
| TxHashsetDone
| BodySyncing (current_height highest_height : Z)
| Shutdown.
#[export] Instance SyncStatus_eq_dec : EqDecision SyncStatus.
Proof. solve_decision. Defined.

Inductive server_error : Type := ServerChain (e : chain_error) | ServerP2P (e : p2p_error).

Record SyncState := mkSyncState { current : SyncStatus; sync_error : option server_error }.
Definition sync_state_new : SyncState := mkSyncState Initial None.

Definition is_syncing (s : SyncState) : bool := bool_decide (current s <> NoSync).
Definition update (new_status : SyncStatus) (s : SyncState) : SyncState :=
  if decide (current s = new_status) then s else mkSyncState new_status (sync_error s).
Definition update_txhashset_download (new_status : SyncStatus) (s : SyncState) : bool * SyncState :=
  match new_status with
  | TxHashsetDownload _ _ _ _ _ _ => (true, mkSyncState new_status (sync_error s))
  | _ => (false, s)
  end.
Definition set_sync_error (e : server_error) (s : SyncState) : SyncState := mkSyncState (current s) (Some e).
Definition clear_sync_error (s : SyncState) : SyncState := mkSyncState (current s) None.

Definition on_setup : SyncState -> SyncState := update TxHashsetSetup.
(** A count of zero leaves the one shown; the first call shows zeros. *)
Definition on_validation (vkernels vkernel_total vrproofs vrproof_total : Z) (s : SyncState) : SyncState :=
  let or_old v old := if v >? 0 then v else old in
  match current s with
  | TxHashsetValidation k kt r rt =>
      mkSyncState (TxHashsetValidation (or_old vkernels k) (or_old vkernel_total kt) (or_old vrproofs r) (or_old vrproof_total rt)) (sync_error s)
  | _ => mkSyncState (TxHashsetValidation 0 0 0 0) (sync_error s)
  end.
Definition on_save : SyncState -> SyncState := update TxHashsetSave.
Definition on_done : SyncState -> SyncState := update TxHashsetDone.

(** ** Locators *)
(** The current height back to 0, in steps that double. *)
Fixpoint locator_loop (fuel : nat) (current : Z) (heights : list Z) : list Z :=
  match fuel with
  | O => heights
  | S fuel =>
      if current >? 0 then
        let heights := heights ++ [current] in
        if (Z.to_nat MAX_LOCATORS - 1 <=? length heights)%nat then heights
        else
          let next := 2 ^ Z.of_nat (length heights) in
          locator_loop fuel (if current >? next then current - next else 0) heights
      else heights
  end.
Definition get_locator_heights (height : Z) : list Z := locator_loop (Z.to_nat MAX_LOCATORS) height [] ++ [0].

Abbreviation entry := (Z * Hash)%type.

(** The pair of neighbours around a height, and the nearer of the two. *)
Fixpoint nearest (locator : list entry) (height : Z) : option entry :=
  match locator with
  | a :: (b :: _) as rest =>
      if (height <=? a.1) && (height >? b.1) then
        Some (if a.1 - height <? height - b.1 then a else b)
      else nearest rest height
  | _ => None
  end.

Definition close_enough (locator : list entry) (height : Z) : option entry :=
  match locator, last locator with
  | first :: _, Some final =>
      if final.1 >=? height then Some final
      else if (first.1 <? height) && (sat_sub height 127 <? first.1) then Some first
      else nearest locator height
  | _, _ => None
  end.

(** [dedup_by]: of neighbours with one key the first is kept. *)
Fixpoint dedup_heights (l : list entry) : list entry :=
  match l with
  | [] => []
  | a :: rest =>
      match dedup_heights rest with
      | b :: rest' => if a.1 =? b.1 then a :: rest' else a :: b :: rest'
      | [] => [a]
      end
  end.

(** ** The stages *)
Record HeaderSync := mkHeaderSync {
  history_locator : list entry; prev_header_sync : Z * Z * Z; syncing_peer : option nat; stalling_ts : option Z }.
Record BodySync := mkBodySync { blocks_requested : Z; receive_timeout : Z; prev_blocks_received : Z }.
Record StateSync := mkStateSync { prev_state_sync : option Z; state_sync_peer : option nat }.

Record Syncer := mkSyncer {
  net : Peers Node; state : SyncState; headers : HeaderSync; bodies : BodySync; archive : StateSync; highest_height : Z }.

Definition syncer_new (now : Z) (p : Peers Node) (st : SyncState) : Syncer :=
  mkSyncer p st (mkHeaderSync [] (now, 0, 0) None None) (mkBodySync 0 now 0) (mkStateSync None None) 0.

Definition set_net (p : Peers Node) (s : Syncer) : Syncer := mkSyncer p (state s) (headers s) (bodies s) (archive s) (highest_height s).
Definition set_state (f : SyncState -> SyncState) (s : Syncer) : Syncer :=
  mkSyncer (net s) (f (state s)) (headers s) (bodies s) (archive s) (highest_height s).
Definition set_headers (h : HeaderSync) (s : Syncer) : Syncer := mkSyncer (net s) (state s) h (bodies s) (archive s) (highest_height s).
Definition set_bodies (b : BodySync) (s : Syncer) : Syncer := mkSyncer (net s) (state s) (headers s) b (archive s) (highest_height s).
Definition set_archive (a : StateSync) (s : Syncer) : Syncer := mkSyncer (net s) (state s) (headers s) (bodies s) a (highest_height s).
Definition set_highest (h : Z) (s : Syncer) : Syncer := mkSyncer (net s) (state s) (headers s) (bodies s) (archive s) h.

Definition the_chain (s : Syncer) : Chain.Chain := chain (adapter (net s)).
Definition status (s : Syncer) : SyncStatus := current (state s).

(** A call on the chain, and one on a peer. *)
Definition on_the_chain {A} (m : trans Chain.Chain chain_error A) : trans Syncer chain_error A := fun s =>
  let n := adapter (net s) in
  let '(r, ch) := m (chain n) in (r, set_net (set_adapter (set_chain ch n) (net s)) s).
Definition on_the_peer {A} (id : nat) (m : trans Peer p2p_error A) (s : Syncer) : outcome p2p_error A * Syncer :=
  let '(r, p) := on_peer id m (net s) in (r, set_net p s).

Definition peer_height (p : Peers Node) (id : nat) : Z :=
  match heap p !! id with Some q => live_height (live q) | None => 0 end.
Definition peer_total_difficulty (p : Peers Node) (id : nat) : Difficulty :=
  match heap p !! id with Some q => live_difficulty (live q) | None => Pow.zero end.
Definition peer_address (p : Peers Node) (id : nat) : option PeerAddr := (fun q => pi_addr (info q)) <$> heap p !! id.

Section Stages.
Context `{Hasher} `{Secp} (c : ChainTypes) (min_date max_date : Z) `{ChainAdapter Node}.
Context (disp : list Z -> list Z) (shuffle : forall A, list A -> list A) (now : Z).

#[local] Abbreviation get_block_header s h := (Chain.get_block_header c min_date max_date (the_chain s) h).
#[local] Abbreviation get_previous_header s h := (Chain.get_previous_header c min_date max_date (the_chain s) h).

(** *** Headers *)
(** The [while let] loop: back from a header to the one at a height.  Running out of fuel
    stands for not returning. *)
Fixpoint walk_back (fuel : nat) (s : Syncer) (h : Z) (cursor : outcome chain_error BlockHeader)
    : outcome chain_error (option BlockHeader) :=
  match fuel with
  | O => Panic
  | S fuel =>
      match cursor with
      | Ok header => if height header =? h then Ok (Some header) else walk_back fuel s h (get_previous_header s header)
      | Err _ => Ok None
      | Panic => Panic
      end
  end.
Definition walk_fuel (cursor : outcome chain_error BlockHeader) : nat :=
  match cursor with
  | Ok header => S (chain_fuel header)
  | _ => 1%nat
  end.

(** One height of the locator: from the last one sent, or from the database. *)
Definition locate (s : Syncer) (locator : list entry) (h : Z) : outcome chain_error (list entry) :=
  match close_enough (history_locator (headers s)) h with
  | Some l => Ok (locator ++ [l])
  | None =>
      let? last_loc := unwrap (last locator) in
      let cursor := get_block_header s last_loc.2 in
      let? found := walk_back (walk_fuel cursor) s h cursor in
      match found with
      | Some header =>
          if height header =? last_loc.1 then Ok locator
          else let? hash := hash_of c header in Ok (locator ++ [(height header, hash)])
      | None => Ok locator
      end
  end.

Definition set_history (l : list entry) (s : Syncer) : Syncer :=
  set_headers (mkHeaderSync l (prev_header_sync (headers s)) (syncing_peer (headers s)) (stalling_ts (headers s))) s.
Definition genesis_only (l : list entry) : list entry := filter (fun x => x.1 = 0) l.

Definition get_locator : trans Syncer chain_error (list Hash) :=
  let! tip := tread (fun s => Chain.get_sync_head (the_chain s)) in
  let heights := get_locator_heights (tip_height tip) in
  do! (fun s =>
         match history_locator (headers s) with
         | [] => (Ok tt, s)
         | l => (let! head := tread (fun s => Chain.header_head (the_chain s)) in
                 tmodify (fun s => if decide (last_block_h tip = last_block_h head) then s else set_history (genesis_only l) s)) s
         end) then
  let! locator := tread (fun s => foldM (locate s) heights [(tip_height tip, last_block_h tip)]) in
  let locator := dedup_heights locator in
  do! tmodify (set_history locator) then tret (map snd locator).

(** An error in sending is ignored. *)
Definition request_headers (id : nat) : trans Syncer chain_error (option nat) := fun s =>
  match get_locator s with
  | (Ok locator, s) => (Ok (Some id), snd (on_the_peer id (send_header_request c now locator) s))
  | (Err _, s) => (Ok None, s)
  | (Panic, s) => (Panic, s)
  end.

Definition header_sync : trans Syncer chain_error (option nat) := fun s =>
  match Chain.header_head (the_chain s) with
  | Ok header_head =>
      match most_work_peer shuffle (net s) with
      | Some id =>
          if decide (difficulty_cmp (peer_total_difficulty (net s) id) (tip_difficulty header_head) = Gt)
          then request_headers id s else (Ok None, s)
      | None => (Ok None, s)
      end
  | Err _ => (Ok None, s)
  | Panic => (Panic, s)
  end.

Context (header_sync_timeout : Z).

(** A peer that claims the greatest height and has stalled us for two minutes is banned; one
    with more work than our headers is let go. *)
Definition judge_stalling (header_head : Tip) (s : Syncer) : Syncer :=
  let h := headers s in
  match stalling_ts h, syncing_peer h with
  | Some since, Some id =>
      let late := now >? since + 120 * 1000 in
      let s := match status s with
               | HeaderSyncing _ highest =>
                   if late && (highest =? peer_height (net s) id) then
                     match peer_address (net s) id with
                     | Some a => set_net (ban_peer c disp now a FraudHeight (net s)) s
                     | None => s
                     end
                   else s
               | _ => s
               end in
      if late && bool_decide (difficulty_cmp (tip_difficulty header_head) (peer_total_difficulty (net s) id) = Lt)
      then set_headers (mkHeaderSync (history_locator h) (prev_header_sync h) None None) s else s
  | _, _ => s
  end.

Definition force_sync (st : SyncStatus) : bool :=
  match st with
  | NoSync | Initial | AwaitingPeers _ => true
  | _ => false
  end.

Definition header_sync_due (header_head : Tip) (s : Syncer) : bool * Syncer :=
  let h := headers s in
  let '(timeout, latest_height, prev_height) := prev_header_sync h in
  let head_height := tip_height header_head in
  let all_headers_received := head_height >=? prev_height +! MAX_BLOCK_HEADERS -! 4 in
  let stalling := (head_height <=? latest_height) && (now >? timeout) in
  if force_sync (status s) || all_headers_received || stalling then
    let next := (now + header_sync_timeout * 1000, head_height, head_height) in
    let stalled := if stalling then Some (default now (stalling_ts h)) else None in
    if all_headers_received then (true, set_headers (mkHeaderSync (history_locator h) next None None) s)
    else (true, judge_stalling header_head (set_headers (mkHeaderSync (history_locator h) next (syncing_peer h) stalled) s))
  else
    (false,
     if head_height >? latest_height
     then set_headers (mkHeaderSync (history_locator h) (now + 2000, head_height, prev_height) (syncing_peer h) (stalling_ts h)) s
     else s).

Definition set_syncing_peer (p : option nat) (s : Syncer) : Syncer :=
  let h := headers s in
  match syncing_peer h with
  | None => set_headers (mkHeaderSync (history_locator h) (prev_header_sync h) p (stalling_ts h)) s
  | Some _ => s
  end.

(** On the way into the synchronization of headers, the head of the synchronization goes back
    to that of the headers. *)
Definition enable_header_sync (header_head : Tip) : trans Syncer chain_error bool := fun s =>
  match status s with
  | BodySyncing _ _ | HeaderSyncing _ _ | TxHashsetDone => (Ok true, s)
  | NoSync | Initial | AwaitingPeers _ =>
      (do! tread (fun s => Chain.get_sync_head (the_chain s)) then
       do! on_the_chain Chain.reset_sync_head then
       do! on_the_chain (Chain.rebuild_sync_mmr c min_date max_date header_head) then
       do! tmodify (fun s => set_history (genesis_only (history_locator (headers s))) s) then
       tret true) s
  | _ => (Ok false, s)
  end.

Definition header_check_run (header_head : Tip) : trans Syncer chain_error bool := fun s =>
  match header_sync_due header_head s with
  | (false, s) => (Ok false, s)
  | (true, s) =>
      (let! enable := enable_header_sync header_head in
       if (enable : bool) then
         do! tmodify (fun s => set_state (update (HeaderSyncing (tip_height header_head) (highest_height s))) s) then
         let! peer := header_sync in
         do! tmodify (set_syncing_peer peer) then tret true
       else tret false) s
  end.

(** *** Blocks *)
(** The first [count] hashes of blocks that are neither stored nor waiting. *)
Fixpoint blocks_to_get (ch : Chain.Chain) (count : nat) (hashes : list Hash) : outcome chain_error (list Hash) :=
  match count, hashes with
  | O, _ | _, [] => Ok []
  | S n, h :: hashes =>
      match Chain.get_block c min_date max_date ch h with
      | Panic => Panic
      | r => if negb (is_ok r) && negb (Chain.is_orphan ch h)
             then let? rest := blocks_to_get ch n hashes in Ok (h :: rest)
             else blocks_to_get ch count hashes
      end
  end.

(** Round and round the peers; one that cannot be sent to is stopped. *)
Fixpoint request_blocks (peers : list nat) (i : nat) (hashes : list Hash) (s : Syncer) : Syncer :=
  match hashes with
  | [] => s
  | h :: hashes =>
      match peers !! (i mod length peers)%nat with
      | Some id =>
          match on_the_peer id (send_block_request c now h) s with
          | (Ok _, s) =>
              let b := bodies s in
              request_blocks peers (S i) hashes (set_bodies (mkBodySync (blocks_requested b +! 1) (receive_timeout b) (prev_blocks_received b)) s)
          | (_, s) => request_blocks peers (S i) hashes (set_net (alter_peer id stop (net s)) s)
          end
      | None => s
      end
  end.

Definition block_count (peers : nat) (orphans : Z) : nat :=
  Nat.min (Nat.min 100 (peers * SEND_CHANNEL_CAP)) (Z.to_nat (sat_sub MAX_ORPHAN_SIZE orphans + 1)).

(** Whether an archive is needed instead. *)
Definition body_sync : trans Syncer chain_error bool := fun s =>
  match Chain.check_txhashset_needed c min_date max_date (the_chain s) (Some []) with
  | Panic => (Panic, s)
  | Err _ | Ok (false, None) => (Ok false, s)
  | Ok (true, _) => (Ok true, s)
  | Ok (false, Some hashes) =>
      (let! peers := tread (fun s => more_work_peers shuffle (net s)) in
       let! to_get := tread (fun s =>
         blocks_to_get (the_chain s) (block_count (length peers) (Chain.orphans_len (the_chain s))) (rev hashes)) in
       match to_get with
       | [] => tret false
       | _ =>
           do! tread (fun s => Chain.head (the_chain s)) then
           do! tread (fun s => Chain.header_head (the_chain s)) then
           do! tmodify (fun s => set_bodies (mkBodySync 0 (now + 6000) (prev_blocks_received (bodies s))) s) then
           do! tmodify (request_blocks peers 0 to_get) then
           tret false
       end) s
  end.

Definition blocks_received (s : Syncer) : outcome chain_error Z :=
  let? head := Chain.head (the_chain s) in
  Ok (tip_height head +! Chain.orphans_len (the_chain s) +! Chain.orphans_evicted_len (the_chain s)).

Definition body_sync_due : trans Syncer chain_error bool :=
  let! received := tread blocks_received in
  fun s =>
    let b := bodies s in
    if (blocks_requested b >? 0) && (now >? receive_timeout b) && (received <=? prev_blocks_received b) then (Ok true, s)
    else
      let b := if received >? prev_blocks_received b
               then mkBodySync (sat_sub (blocks_requested b) (received - prev_blocks_received b)) (now + 1000) received
               else b in
      (Ok (blocks_requested b <? 2), set_bodies b s).

Definition body_check_run (head : Tip) : trans Syncer chain_error bool :=
  let! due := body_sync_due in
  if (due : bool) then
    let! needed := body_sync in
    if (needed : bool) then tret true
    else do! tmodify (fun s => set_state (update (BodySyncing (tip_height head) (highest_height s))) s) then tret false
  else tret false.

(** *** The state archive *)
(** [n] headers back. *)
Fixpoint ancestor (s : Syncer) (n : nat) (header : BlockHeader) : outcome p2p_error BlockHeader :=
  match n with
  | O => Ok header
  | S n => let? prev := map_err (fun _ => Internal) (get_previous_header s header) in ancestor s n prev
  end.

(** The header whose archive is asked for. *)
Definition archive_header (header_head : Tip) (s : Syncer) : outcome p2p_error (Z * Hash) :=
  let? first := map_err (fun _ => Internal) (get_block_header s (prev_block_h header_head)) in
  let? txhashset_head := ancestor s (Z.to_nat (state_sync_threshold c)) first in
  let? bhash := hash_of c txhashset_head in Ok (height txhashset_head, bhash).

Definition request_state (header_head : Tip) (s : Syncer) : outcome p2p_error nat * Syncer :=
  match most_work_peer shuffle (net s) with
  | Some id =>
      match archive_header header_head s with
      | Ok (h, bhash) =>
          match on_the_peer id (send_txhashset_request c now h bhash) s with
          | (Ok _, s) => (Ok id, s)
          | (Err e, s) => (Err e, s)
          | (Panic, s) => (Panic, s)
          end
      | Err e => (Err e, s)
      | Panic => (Panic, s)
      end
  | None => (Err PeerException, s)
  end.

(** Whether to start, and whether a start is more than ten minutes ago. *)
Definition state_sync_due (a : StateSync) : bool * bool * StateSync :=
  match prev_state_sync a with
  | None => (true, false, mkStateSync (Some now) (state_sync_peer a))
  | Some prev => (false, now - prev >? 10 * 60 * 1000, a)
  end.

Definition is_download (st : SyncStatus) : bool :=
  match st with TxHashsetDownload _ _ _ _ _ _ => true | _ => false end.

Definition connection_lost (s : Syncer) : bool :=
  match state_sync_peer (archive s) with
  | Some id => is_download (status s) && negb (peer_at (net s) id is_connected)
  | None => false
  end.

Definition start_download (header_head : Tip) : trans Syncer chain_error () := fun s =>
  let s := set_archive (mkStateSync (prev_state_sync (archive s)) None) s in
  let finish s :=
    let s := match status s with
             | HeaderSyncing _ _ => set_state (update (HeaderSyncing (tip_height header_head) (highest_height s))) s
             | _ => s
             end in
    set_state (update (TxHashsetDownload now now now 0 0 0)) s in
  match request_state header_head s with
  | (Ok id, s) => (Ok tt, finish (set_archive (mkStateSync (prev_state_sync (archive s)) (Some id)) s))
  | (Err e, s) => (Ok tt, finish (set_state (set_sync_error (ServerP2P e)) s))
  | (Panic, s) => (Panic, s)
  end.

Definition state_check_run (header_head : Tip) : trans Syncer chain_error bool := fun s =>
  let restart := bool_decide (is_Some (sync_error (state s))) || connection_lost s in
  let done := bool_decide (status s = TxHashsetDone) in
  let s := if done then set_state (update (BodySyncing 0 0)) s else s in
  let s := if restart || done then set_state clear_sync_error (set_archive (mkStateSync None None) s) else s in
  if done then (Ok false, s)
  else if restart || (tip_height header_head =? highest_height s) then
    let '(go, download_timeout, a) := state_sync_due (archive s) in
    let s := set_archive a s in
    let s := if is_download (status s) && download_timeout then set_state (set_sync_error (ServerP2P Timeout)) s else s in
    if go then (do! start_download header_head then tret true) s else (Ok true, s)
  else (Ok true, s).

(** ** The loop *)
(** The work of the last five blocks. *)
Fixpoint sum_difficulties (n : nat) (b : Batch) (it : HeaderIter) (acc : Difficulty) : outcome () Difficulty :=
  match n with
  | O => Ok acc
  | S n =>
      let? '(x, it) := difficulty_all_next c min_date max_date b it in
      match x with
      | Some i => sum_difficulties n b it (difficulty_add acc (difficulty i))
      | None => Ok acc
      end
  end.

Definition needs_syncing (s : Syncer) : outcome chain_error (bool * Z) :=
  let? head := Chain.head (the_chain s) in
  let local_diff := tip_difficulty head in
  match most_work_peer shuffle (net s) with
  | None => Ok (false, 0)
  | Some id =>
      let peer_diff := peer_total_difficulty (net s) id in
      if is_syncing (state s) then
        Ok (bool_decide (difficulty_cmp peer_diff local_diff = Gt), peer_height (net s) id)
      else
        let? threshold := no_err (sum_difficulties 5 (batch (Chain.store (the_chain s))) (iter_from (last_block_h head)) Pow.zero) in
        Ok (bool_decide (difficulty_cmp peer_diff (difficulty_add local_diff threshold) = Gt), peer_height (net s) id)
  end.

Context (bitmap_serialize : gset Z -> list Z) (bitmap_deserialize : list Z -> gset Z).
Context (stream_hash : list Z -> option (Hash * list Z * Z))
  (stream_output : list Z -> option (OutputIdentifier * list Z * Z))
  (stream_rproof : list Z -> option (RangeProof * list Z * Z)).

Definition archive_stage (st : SyncStatus) : bool :=
  match st with
  | TxHashsetDownload _ _ _ _ _ _ | TxHashsetSetup | TxHashsetValidation _ _ _ _ | TxHashsetSave | TxHashsetDone => true
  | _ => false
  end.

(** Once no peer is ahead, out of the synchronization, with a compaction. *)
Definition leave_sync : trans Syncer chain_error () := fun s =>
  if is_syncing (state s) then
    on_the_chain (Chain.compact c min_date max_date bitmap_serialize bitmap_deserialize stream_hash stream_output stream_rproof)
      (set_state (update NoSync) s)
  else (Ok tt, s).

Definition run_stages : trans Syncer chain_error () :=
  let! head := tread (fun s => Chain.head (the_chain s)) in
  let! header_head := tread (fun s => Chain.header_head (the_chain s)) in
  do! header_check_run header_head then
  fun s =>
    if archive_stage (status s) then (do! state_check_run header_head then tret tt) s
    else if tip_height header_head <? highest_height s then (Ok tt, s)
    else (let! needed := body_check_run head in
          if (needed : bool) then do! state_check_run header_head then tret tt else tret tt) s.

(** One round; an error is logged and the next round begins. *)
Definition sync_round : trans Syncer chain_error () :=
  let! needs := tread needs_syncing in
  do! tmodify (fun s => if needs.2 >? 0 then set_highest needs.2 s else s) then
  if needs.1 then run_stages else leave_sync.

(** The test of the wait for peers, after [n] seconds. *)
Definition enough_to_start (config : P2PConfig) (head : Tip) (n : Z) (s : Syncer) : outcome chain_error bool :=
  let wait_secs := if decide (status s = AwaitingPeers true) then 30 else 3 in
  let? wp := more_or_same_work_peers shuffle (net s) in
  Ok (((3 <? wp)%nat
       || (wp =? 0)%nat && enough_peers shuffle config (net s) && bool_decide (difficulty_cmp (tip_difficulty head) Pow.zero = Gt)
       || (n >? wait_secs))
      && ((0 <? wp)%nat || negb (is_production_mode c))).
End Stages.

(** ** Dandelion epochs *)
Record DandelionEpoch := mkEpoch { epoch_secs : Z; stem_probability : Z; start_time : option Z; is_stem : bool; relay_peer : option nat }.
Definition epoch_new (epoch_secs stem_probability : Z) : DandelionEpoch := mkEpoch epoch_secs stem_probability None true None.

Section Epochs.
Context (shuffle : forall A, list A -> list A) (now : Z) {S : Type}.

Definition is_expired (e : DandelionEpoch) : bool :=
  match start_time e with
  | None => true
  | Some start => i64_sat_sub (now / 1000) start >? epoch_secs e
  end.

(** [roll]: the random number, below 100. *)
Definition next_epoch (roll : Z) (p : Peers S) (e : DandelionEpoch) : DandelionEpoch :=
  mkEpoch (epoch_secs e) (stem_probability e) (Some (now / 1000)) (roll <? stem_probability e) (hd_error (outgoing_connected_peers shuffle p)).

(** The relay of the epoch, or a new one when it is not connected. *)
Definition relay_peer_for (p : Peers S) (e : DandelionEpoch) : option nat * DandelionEpoch :=
  let keep := match relay_peer e with
              | Some id => peer_at p id is_connected
              | None => false
              end in
  let e := if keep then e
           else mkEpoch (epoch_secs e) (stem_probability e) (start_time e) (is_stem e) (hd_error (outgoing_connected_peers shuffle p)) in
  (relay_peer e, e).
End Epochs.
