(* ===== verification/SyncTheory.v ===== *)
(** * The synchronization is correct

    Locators: which heights they have, that a fresh one is made of exactly the headers at
    those heights and is accepted by the reader of the other side.  Requests for blocks never
    overflow the channel of a peer.  A round of the loop never makes the chain lighter.  A
    defect: the timeout of a download never fires once the network has moved on. *)
From S2P Require Import Prelude PmmrIndex Pmmr PruneList PmmrBackend Ser Global Pow Reward Retarget Feijoada Committed Transaction Block BlockTheory ChainStore Pipe TxHashSet ProcessBlock Orphans ChainFacade ChainTheory Pool Node Msg MsgTheory Peers PeerMap PeersInv Protocol Server ProtocolTheory NodeNet NodeNetTheory Sync.

(** ** Heights of a locator *)
Definition step_back (h i : Z) : Z := h - (2 ^ (i + 1) - 2).

Lemma step_back_next h i : 0 <= i -> step_back h (i + 1) = step_back h i - 2 ^ (i + 1).
Proof. intros Hi. unfold step_back. rewrite (Z.pow_add_r 2 (i + 1) 1) by lia. lia. Qed.

Lemma step_back_mono h i j : 0 <= i <= j -> step_back h j <= step_back h i.
Proof. intros Hij. unfold step_back. pose proof (Z.pow_le_mono_r 2 (i + 1) (j + 1)). lia. Qed.

Lemma nothing_above h i n : 0 <= i -> step_back h i <= 0 -> filter (fun x => 0 < x) (map (step_back h) (seqZ i n)) = [].
Proof.
  intros Hi Hs. apply elem_of_nil_inv. intros x. rewrite list_elem_of_filter. intros [Hx Hin].
  apply list_elem_of_fmap in Hin as (j & -> & Hj). apply elem_of_seqZ in Hj. pose proof (step_back_mono h i j). lia.
Qed.

Lemma locator_loop_exact fuel h n acc :
  length acc = n -> (n <= 18)%nat -> (19 - n <= fuel)%nat ->
  locator_loop fuel (Z.max 0 (step_back h (Z.of_nat n))) acc
  = acc ++ filter (fun x => 0 < x) (map (step_back h) (seqZ (Z.of_nat n) (19 - Z.of_nat n))).
Proof.
  revert n acc. induction fuel as [|fuel IH]; intros n acc Hl Hn Hf; [lia|]. cbn [locator_loop].
  destruct (Z.gtb_spec (Z.max 0 (step_back h (Z.of_nat n))) 0) as [Hpos|Hpos].
  2: { rewrite nothing_above by lia. by rewrite app_nil_r. }
  rewrite Z.max_r by lia. rewrite length_app. cbn [length]. change (Z.to_nat MAX_LOCATORS - 1)%nat with 19%nat.
  rewrite (seqZ_cons (Z.of_nat n)) by lia. cbn [map]. rewrite filter_cons_True by lia.
  destruct (Nat.leb_spec 19 (length acc + 1)) as [Hle|Hle].
  - replace (Z.pred (19 - Z.of_nat n)) with 0 by lia. done.
  - set (cur := if _ >? _ then _ else _).
    assert (cur = Z.max 0 (step_back h (Z.of_nat (S n)))) as ->.
    { subst cur. replace (Z.of_nat (length acc + 1)) with (Z.of_nat n + 1) by lia.
      replace (Z.of_nat (S n)) with (Z.of_nat n + 1) by lia. rewrite step_back_next by lia.
      destruct (Z.gtb_spec (step_back h (Z.of_nat n)) (2 ^ (Z.of_nat n + 1))); lia. }
    rewrite IH by (rewrite ?length_app; cbn; lia). rewrite <- app_assoc. cbn [app].
    replace (Z.succ (Z.of_nat n)) with (Z.of_nat (S n)) by lia. replace (Z.pred (19 - Z.of_nat n)) with (19 - Z.of_nat (S n)) by lia. done.
Qed.

(** The heights: back from the top in steps of 2, 4, 8 and so on, at most nineteen of them,
    then 0. *)
Lemma locator_heights_exact h :
  0 <= h -> get_locator_heights h = filter (fun x => 0 < x) (map (step_back h) (seqZ 0 19)) ++ [0].
Proof.
  intros Hh. unfold get_locator_heights. f_equal.
  pose proof (locator_loop_exact 20 h 0 [] eq_refl ltac:(lia) ltac:(lia)) as Hl.
  replace (Z.max 0 (step_back h (Z.of_nat 0))) with h in Hl by (unfold step_back; cbn; lia). exact Hl.
Qed.

Lemma length_filter_seq h : (length (filter (fun x => 0 < x)%Z (map (step_back h) (seqZ 0 19))) <= 19)%nat.
Proof. etransitivity; [apply length_filter|]. by rewrite length_map, length_seqZ. Qed.

Lemma locator_heights_length h : 0 <= h -> (length (get_locator_heights h) <= 20)%nat.
Proof. intros Hh. rewrite locator_heights_exact by done. rewrite length_app. pose proof (length_filter_seq h). cbn [length]. lia. Qed.

Lemma locator_heights_range h x : 0 <= h -> x ∈ get_locator_heights h -> 0 <= x <= h.
Proof.
  intros Hh. rewrite locator_heights_exact by done. rewrite elem_of_app, list_elem_of_filter, list_elem_of_singleton.
  intros [[Hx Hin]| ->]; [|lia]. apply list_elem_of_fmap in Hin as (i & -> & Hi). apply elem_of_seqZ in Hi.
  pose proof (step_back_mono h 0 i). unfold step_back in *. cbn in *. lia.
Qed.

Lemma filtered_decreasing h i n :
  0 <= i -> StronglySorted (fun a b => b < a) (filter (fun x => 0 < x) (map (step_back h) (seqZ i n))).
Proof.
  intros Hi. destruct (Z_lt_le_dec n 0) as [Hneg|Hn]; [rewrite seqZ_nil by lia; constructor|].
  revert i Hi. pattern n. apply Zlt_0_ind; [|done]. clear n Hn. intros n IH Hn i Hi.
  destruct (decide (n = 0)) as [->|Hne]; [rewrite seqZ_nil by lia; constructor|].
  rewrite seqZ_cons by lia. cbn [map]. rewrite filter_cons. case_decide as Hpos; [|apply IH; lia].
  constructor; [apply IH; lia|]. apply Forall_forall. intros x. rewrite list_elem_of_filter. intros [_ Hin].
  apply list_elem_of_fmap in Hin as (j & -> & Hj). apply elem_of_seqZ in Hj.
  transitivity (step_back h (i + 1) + 1); [pose proof (step_back_mono h (i + 1) j); lia|]. rewrite step_back_next by lia.
  pose proof (Z.pow_le_mono_r 2 1 (i + 1)). lia.
Qed.

(** They decrease strictly. *)
Lemma locator_heights_sorted h : 0 <= h -> StronglySorted (fun a b => b < a) (get_locator_heights h).
Proof.
  intros Hh. rewrite locator_heights_exact by done. apply StronglySorted_app_2; [|apply filtered_decreasing; lia|repeat constructor].
  intros a b Ha Hb. apply list_elem_of_singleton in Hb as ->. by apply list_elem_of_filter in Ha as [Ha _].
Qed.

Lemma locator_heights_top h : 0 <= h -> exists rest, get_locator_heights h = h :: rest.
Proof.
  intros Hh. rewrite locator_heights_exact by done. destruct (decide (h = 0)) as [->|Hne].
  - exists []. by rewrite (nothing_above 0 0 19) by (unfold step_back; cbn; lia).
  - rewrite seqZ_cons by lia. cbn [map]. replace (step_back h 0) with h by (unfold step_back; cbn; lia).
    rewrite filter_cons_True by lia. by eexists.
Qed.

(** ** Fresh locators *)
Section Locator.
Context `{Hasher} `{Secp} (c : ChainTypes) (min_date max_date : Z).
Context (s : Syncer) (hd : Z -> BlockHeader) (hsh : Z -> Hash) (top : Z).
Hypothesis top_nonneg : 0 <= top.
Hypothesis hashes : forall h, 0 <= h <= top -> header_hash c (hd h) = Ok (hsh h).
Hypothesis heights : forall h, 0 <= h <= top -> height (hd h) = h.
Hypothesis stored : forall h, 0 <= h <= top -> Chain.get_block_header c min_date max_date (the_chain s) (hsh h) = Ok (hd h).
Hypothesis previous : forall h, 0 < h <= top -> Chain.get_previous_header c min_date max_date (the_chain s) (hd h) = Ok (hd (h - 1)).

Lemma walk_back_exact fuel h k :
  0 <= h <= k -> k <= top -> k - h < Z.of_nat fuel ->
  walk_back c min_date max_date fuel s h (Ok (hd k)) = Ok (Some (hd h)).
Proof.
  revert k. induction fuel as [|fuel IH]; intros k Hh Hk Hf; [lia|]. cbn [walk_back]. rewrite heights by lia.
  destruct (Z.eqb_spec k h) as [->|Hne]; [done|]. rewrite previous by lia. apply IH; lia.
Qed.

Abbreviation locate_all := (foldM (locate c min_date max_date s)).
Definition at_height (h : Z) : entry := (h, hsh h).

Lemma locate_exact acc k h :
  history_locator (headers s) = [] -> 0 <= h <= k -> k <= top ->
  locate c min_date max_date s (acc ++ [at_height k]) h
  = Ok (if h =? k then acc ++ [at_height k] else (acc ++ [at_height k]) ++ [at_height h]).
Proof.
  intros Hf Hh Hk. unfold locate. rewrite Hf. cbn [close_enough]. rewrite last_snoc. cbn [unwrap bind at_height fst snd].
  rewrite stored by lia. cbn [walk_fuel]. rewrite walk_back_exact by (unfold chain_fuel; rewrite ?heights by lia; lia).
  cbn [bind]. rewrite heights by lia. destruct (h =? k); [done|]. unfold hash_of. rewrite hashes by lia. done.
Qed.

Lemma locate_all_exact l acc k :
  history_locator (headers s) = [] -> 0 <= k <= top ->
  StronglySorted (fun a b => b < a) (k :: l) -> Forall (fun h => 0 <= h) l ->
  locate_all l (acc ++ [at_height k]) = Ok (acc ++ map at_height (k :: l)).
Proof.
  intros Hf. revert acc k. induction l as [|h l IH]; intros acc k Hk Hs Hp; [done|]. cbn [foldM].
  apply StronglySorted_inv in Hs as [Hs Hlt]. apply Forall_cons in Hlt as [Hlt _]. apply Forall_cons in Hp as [Hh Hp].
  rewrite locate_exact by (done || lia). destruct (Z.eqb_spec h k); [lia|]. cbn [bind].
  rewrite (IH (acc ++ [at_height k]) h) by (done || lia). by rewrite <- app_assoc.
Qed.

Lemma dedup_decreasing l : StronglySorted (fun a b => b < a) l -> dedup_heights (map at_height l) = map at_height l.
Proof.
  induction 1 as [|a l Hs IH Hlt]; [done|]. cbn [map dedup_heights]. rewrite IH. destruct l as [|b l]; [done|].
  cbn [map at_height fst]. apply Forall_cons in Hlt as [Hlt _]. destruct (Z.eqb_spec a b); [lia|done].
Qed.

(** C23. A fresh locator is exact.  With nothing kept of an earlier one, building a locator
    returns, and gives the hashes of our own headers at the heights [h], [h - 2], [h - 6] and
    so on back to 0; they are at most twenty, which the reader of the other side accepts. *)
Theorem fresh_locator_exact tip :
  history_locator (headers s) = [] -> Chain.get_sync_head (the_chain s) = Ok tip ->
  tip_height tip = top -> last_block_h tip = hsh top ->
  let heights := filter (fun x => 0 < x) (map (step_back top) (seqZ 0 19)) ++ [0] in
  get_locator c min_date max_date s = (Ok (map hsh heights), set_history (map at_height heights) s)
  /\ locator_ok (mkLocator (map hsh heights)).
Proof.
  intros Hf Htip Hh Hl. cbv zeta. rewrite <- locator_heights_exact by done. split.
  - unfold get_locator. unfold tbind at 1, tread at 1. rewrite Htip. unfold tbind at 1. rewrite Hf.
    unfold tbind at 1, tread at 1. rewrite Hh, Hl. destruct (locator_heights_top top top_nonneg) as (rest & Hr).
    pose proof (locator_heights_sorted top top_nonneg) as Hs. pose proof (fun x => locator_heights_range top x top_nonneg) as Hrange.
    rewrite Hr in *. cbn [foldM]. change [(top, hsh top)] with ([] ++ [at_height top]).
    rewrite locate_exact by (done || lia). rewrite Z.eqb_refl. cbn [bind].
    rewrite locate_all_exact; [|done|lia|done|]. 2: { apply Forall_forall. intros x Hx. apply Hrange. by right. }
    cbn [app]. rewrite dedup_decreasing by done. unfold tbind, tmodify, tret. do 2 f_equal.
    rewrite map_map. by apply map_ext.
  - unfold locator_ok. cbn [Msg.hashes]. rewrite length_map. pose proof (locator_heights_length top top_nonneg).
    unfold MAX_LOCATORS. lia.
Qed.
End Locator.

(** ** Requests for blocks *)
Section Requests.
Context `{Hasher} `{Secp} (c : ChainTypes) (now : Z) (peers : list nat).

Definition block_request (h : Hash) : list Z :=
  write_msg_header (msg_header_new c T_GetBlock (Z.of_nat (length (write_array h)))) ++ write_array h.

(** The requests that the peer at place [j] gets of those dealt from the [i]-th on. *)
Fixpoint dealt (i j : nat) (hs : list Hash) : list Hash :=
  match hs with
  | [] => []
  | h :: hs => if (i mod length peers =? j)%nat then h :: dealt (S i) j hs else dealt (S i) j hs
  end.

(** How many it has after [i]. *)
Definition load (i j : nat) : nat :=
  if (j <? i mod length peers)%nat then S (i / length peers) else (i / length peers)%nat.

Lemma load_next i j :
  (j < length peers)%nat -> load (S i) j = if (i mod length peers =? j)%nat then S (load i j) else load i j.
Proof.
  intros Hj. unfold load. set (p := length peers) in *.
  pose proof (Nat.div_mod_eq i p) as Hi. pose proof (Nat.mod_upper_bound i p ltac:(lia)) as Hm.
  destruct (Nat.eq_dec (S (i mod p)) p) as [E|E].
  - assert (S i / p = S (i / p) /\ S i mod p = 0)%nat as [-> ->].
    { assert (S i = p * S (i / p) + 0)%nat as Hs by lia. split; [by rewrite (Nat.div_unique (S i) p (S (i / p)) 0) by lia|].
      by rewrite (Nat.mod_unique (S i) p (S (i / p)) 0) by lia. }
    destruct (Nat.ltb_spec j 0), (Nat.ltb_spec j (i mod p)), (Nat.eqb_spec (i mod p) j); lia.
  - assert (S i / p = i / p /\ S i mod p = S (i mod p))%nat as [-> ->].
    { split; [by rewrite (Nat.div_unique (S i) p (i / p) (S (i mod p))) by lia|].
      by rewrite (Nat.mod_unique (S i) p (i / p) (S (i mod p))) by lia. }
    destruct (Nat.ltb_spec j (S (i mod p))), (Nat.ltb_spec j (i mod p)), (Nat.eqb_spec (i mod p) j); lia.
Qed.

Definition loaded (i : nat) (s : Syncer) : Prop :=
  forall j id, peers !! j = Some id ->
    exists q, heap (net s) !! id = Some q /\ hung_up q = false /\ length (outbox q) = load i j.

Lemma send_block_request_ok h q :
  hung_up q = false -> (length (outbox q) < SEND_CHANNEL_CAP)%nat ->
  exists q', send_block_request c now h q = (Ok tt, q') /\ hung_up q' = false /\ stopped q' = stopped q
    /\ outbox q' = outbox q ++ [block_request h].
Proof.
  intros Hh Hl. unfold send_block_request, peer_send, tbind, tmodify, tread, conn_send. cbn [write_to_buf map_err bind].
  unfold push_req. cbn [hung_up outbox set_requested]. rewrite Hh. destruct (Nat.leb_spec SEND_CHANNEL_CAP (length (outbox q))); [lia|].
  cbn [orb]. eexists. split; [reflexivity|]. by split_and!.
Qed.

Lemma request_blocks_run hs i s :
  NoDup peers -> (i + length hs <= length peers * SEND_CHANNEL_CAP)%nat -> loaded i s ->
  0 <= blocks_requested (bodies s) -> blocks_requested (bodies s) + Z.of_nat (length hs) < 2 ^ 64 ->
  let s' := request_blocks c now peers i hs s in
  blocks_requested (bodies s') = blocks_requested (bodies s) + Z.of_nat (length hs)
  /\ (forall j id q, peers !! j = Some id -> heap (net s) !! id = Some q ->
       exists q', heap (net s') !! id = Some q' /\ stopped q' = stopped q /\ outbox q' = outbox q ++ map block_request (dealt i j hs)).
Proof.
  intros Hnd. revert i s. induction hs as [|h hs IH]; intros i s Hl Hld Hz Hb; cbn [request_blocks length dealt map].
  { split; [lia|]. intros j id q Hj Hq. exists q. by rewrite app_nil_r. }
  cbn [length] in Hl, Hb. unfold SEND_CHANNEL_CAP in Hl. assert (0 < length peers)%nat as Hpos by lia.
  pose proof (Nat.mod_upper_bound i (length peers) ltac:(lia)) as Hm.
  destruct (lookup_lt_is_Some_2 peers (i mod length peers) Hm) as [id Hid]. rewrite Hid.
  destruct (Hld _ _ Hid) as (q & Hq & Hh & Ho).
  assert (load i (i mod length peers) < SEND_CHANNEL_CAP)%nat as Hcap.
  { unfold load. destruct (Nat.ltb_spec (i mod length peers) (i mod length peers)); [lia|]. unfold SEND_CHANNEL_CAP.
    apply Nat.Div0.div_lt_upper_bound. lia. }
  destruct (send_block_request_ok h q Hh ltac:(lia)) as (q1 & Hs1 & Hh1 & Hst1 & Ho1).
  unfold on_the_peer, on_peer. rewrite Hq, Hs1. set (s1 := set_bodies _ _).
  assert (heap (net s1) = <[id := q1]> (heap (net s))) as Hheap by done.
  assert (blocks_requested (bodies s1) = blocks_requested (bodies s) + 1) as Hreq.
  { cbn. apply u64_add_small. unfold is_u64. lia. }
  assert (Hlook : forall j id', peers !! j = Some id' ->
    heap (net s1) !! id' = if (i mod length peers =? j)%nat then Some q1 else heap (net s) !! id').
  { intros j id' Hj. rewrite Hheap. destruct (Nat.eqb_spec (i mod length peers) j) as [<-|Hne].
    - rewrite Hid in Hj. injection Hj as <-. apply list_lookup_insert_eq. by eapply lookup_lt_Some.
    - apply list_lookup_insert_ne. intros ->. apply Hne. by eapply NoDup_lookup. }
  destruct (IH (S i) s1) as [Hr Hall].
  - unfold SEND_CHANNEL_CAP. lia.
  - intros j id' Hj. rewrite (Hlook j id' Hj), load_next by (by eapply lookup_lt_Some).
    destruct (Nat.eqb_spec (i mod length peers) j) as [<-|Hne]; [|by apply Hld].
    exists q1. split_and!; [done|done|]. rewrite Ho1, length_app. cbn. lia.
  - lia.
  - lia.
  - split; [lia|]. intros j id' q' Hj Hq'. pose proof (Hlook j id' Hj) as Hlk.
    destruct (Nat.eqb_spec (i mod length peers) j) as [<-|Hne].
    + rewrite Hid in Hj. injection Hj as <-. rewrite Hq in Hq'. injection Hq' as <-.
      destruct (Hall _ _ _ Hid Hlk) as (q2 & H2 & Hst & Hout). exists q2. split_and!; [done|congruence|].
      rewrite Hout, Ho1, <- app_assoc. done.
    + rewrite Hq' in Hlk. exact (Hall _ _ _ Hj Hlk).
Qed.

(** C24. A round of requests fits the channels: the blocks of one round, dealt out in turn to
    peers whose channels are empty, are all asked for and all counted, each peer is sent those
    at its own places, in order, and none is stopped for a full channel. *)
Theorem block_requests_fit orphans hs s :
  NoDup peers -> (length hs <= block_count (length peers) orphans)%nat -> blocks_requested (bodies s) = 0 ->
  Forall (fun id => exists q, heap (net s) !! id = Some q /\ hung_up q = false /\ outbox q = []) peers ->
  let s' := request_blocks c now peers 0 hs s in
  blocks_requested (bodies s') = Z.of_nat (length hs)
  /\ (forall j id q, peers !! j = Some id -> heap (net s) !! id = Some q ->
       exists q', heap (net s') !! id = Some q' /\ stopped q' = stopped q /\ outbox q' = map block_request (dealt 0 j hs)).
Proof.
  intros Hnd Hl Hz Hp. cbv zeta. unfold block_count in Hl.
  destruct (request_blocks_run hs 0 s Hnd) as [Hr Hall]; [lia| |lia|lia|].
  { intros j id Hj. rewrite Forall_lookup in Hp. destruct (Hp j id Hj) as (q & Hq & Hh & Ho). exists q.
    split_and!; [done|done|]. rewrite Ho. unfold load. rewrite Nat.Div0.mod_0_l, Nat.Div0.div_0_l. destruct (Nat.ltb_spec j 0); cbn; lia. }
  split; [lia|]. intros j id q Hj Hq. destruct (Hall j id q Hj Hq) as (q' & Hq' & Hst & Ho). exists q'. split_and!; [done|done|].
  rewrite Forall_lookup in Hp. destruct (Hp j id Hj) as (q0 & Hq0 & _ & E). rewrite Hq in Hq0. injection Hq0 as <-. by rewrite Ho, E.
Qed.
End Requests.

(** ** The loop and the rest of the node *)
Section Loop.
Context `{Hasher} `{Secp} (c : ChainTypes) (min_date max_date : Z).
Context (get_progpow_value : list Z -> Z -> Z -> Hash) (u256_from : Hash -> Z).
Context (config : PolicyConfig) (pow_verifier : BlockHeader -> bool).
Context (bitmap_serialize : gset Z -> list Z) (bitmap_deserialize : list Z -> gset Z).
Context (load_foundation_output : Z -> Output * TxKernel).
Context (sort_buckets : list Bucket -> list Bucket).
Context (stream_hash : list Z -> option (Hash * list Z * Z))
  (stream_output : list Z -> option (OutputIdentifier * list Z * Z))
  (stream_rproof : list Z -> option (RangeProof * list Z * Z)).
Context (siphash24 : Z -> Z -> list Z -> Z).
Context (zip_read : Node -> BlockHeader -> option (list Z))
  (unzip : list Z -> BlockHeader -> outcome chain_error TxHashSet)
  (reopen : BlockHeader -> TxHashSet -> outcome chain_error TxHashSet).
Context (disp : list Z -> list Z).

#[local] Abbreviation network_step := (network_step c min_date max_date get_progpow_value u256_from config pow_verifier
  bitmap_serialize bitmap_deserialize load_foundation_output sort_buckets stream_hash stream_output stream_rproof siphash24
  zip_read unzip reopen disp).
#[local] Abbreviation chain_step := (chain_step c min_date max_date get_progpow_value u256_from config pow_verifier
  bitmap_serialize bitmap_deserialize load_foundation_output stream_hash stream_output stream_rproof).

(** The network of the node moves by steps that the node and its connections could take. *)
Definition moves (s s' : Syncer) : Prop := rtc network_step (net s) (net s').
#[local] Instance moves_po : PreOrder moves.
Proof. split; [intros s; apply rtc_refl|]. intros a b d. unfold moves. by intros ? ?; etransitivity. Qed.

Lemma same_net_moves s s' : net s' = net s -> moves s s'.
Proof. unfold moves. by intros ->. Qed.
Lemma same_node_moves s s' : adapter (net s') = adapter (net s) -> moves s s'.
Proof. intros E. by apply rtc_once, network_other. Qed.

Lemma on_the_chain_moves {A} (m : trans Chain.Chain chain_error A) :
  (forall x r x', m x = (r, x') -> chain_step x x') -> tkeeps moves (on_the_chain m).
Proof.
  intros Hm s r s'. unfold on_the_chain. destruct (m (chain (adapter (net s)))) as [q ch] eqn:E. intros [= _ <-].
  apply rtc_once. cbn [net set_net]. apply network_own. by eapply Hm.
Qed.
Lemma on_the_peer_moves {A} id (m : trans Peer p2p_error A) s r s' : on_the_peer id m s = (r, s') -> moves s s'.
Proof.
  unfold on_the_peer. pose proof (on_peer_parts id m (net s)) as (_ & _ & E).
  destruct (on_peer id m (net s)) as [q p]. intros [= _ <-]. by apply same_node_moves.
Qed.

Section Round.
Context `{ChainAdapter Node} (shuffle : forall A, list A -> list A) (now header_sync_timeout : Z).

Lemma get_locator_net : tkeeps (fun s s' => net s' = net s) (get_locator c min_date max_date).
Proof.
  pose proof (ltac:(split; [done|intros ? ? ? -> ->; done]) : PreOrder (fun s s' : Syncer => net s' = net s)).
  unfold get_locator. keeps_seq; try (apply tkeeps_tret || apply tkeeps_tread || (apply tkeeps_tmodify; done)); try exact _.
  intros s r s'. destruct (history_locator (headers s)); [by intros [= _ <-]|]. intros He.
  refine ((_ : tkeeps (fun s s' => net s' = net s) _) _ _ _ He). keeps_seq; [apply tkeeps_tread, _|].
  apply tkeeps_tmodify. intros x. by case_decide.
Qed.

Lemma header_sync_moves : tkeeps moves (header_sync c min_date max_date shuffle now).
Proof.
  intros s r s'. unfold header_sync, request_headers. destruct (Chain.header_head _) as [hh| |]; [|by intros [= _ <-]..].
  destruct (most_work_peer _ _) as [id|]; [|by intros [= _ <-]]. case_decide; [|by intros [= _ <-]].
  destruct (get_locator _ _ _ s) as [[l| |] s1] eqn:E; apply get_locator_net in E; [|by intros [= _ <-]; apply same_net_moves..].
  intros [= _ <-]. transitivity s1; [by apply same_net_moves|]. eapply on_the_peer_moves, surjective_pairing.
Qed.

Lemma header_sync_due_moves hh s : moves s (snd (header_sync_due c disp now header_sync_timeout hh s)).
Proof.
  unfold header_sync_due. destruct (prev_header_sync _) as [[t lh] ph]. cbv zeta.
  destruct (_ || _); [|cbn [snd]; destruct (_ >? _); by apply same_net_moves].
  destruct (_ >=? _); [by apply same_net_moves|]. cbn [snd]. set (s1 := set_headers _ s).
  transitivity s1; [by apply same_net_moves|]. generalize s1. clear s1. intros s1. unfold judge_stalling.
  destruct (stalling_ts (headers s1)) as [since|]; [|reflexivity]. destruct (syncing_peer (headers s1)) as [id|]; [|reflexivity]. cbv zeta.
  set (s2 := match status s1 with HeaderSyncing _ _ => _ | _ => _ end).
  assert (moves s1 s2) as H12.
  { subst s2. destruct (status s1); try reflexivity. destruct (_ && _); [|reflexivity].
    destruct (peer_address _ _); [|reflexivity]. apply same_node_moves, ban_adapter. }
  destruct (_ && _); [|exact H12]. etransitivity; [exact H12|by apply same_net_moves].
Qed.

Lemma enable_moves hh : tkeeps moves (enable_header_sync c min_date max_date hh).
Proof.
  intros s r s'. unfold enable_header_sync. destruct (status s); try (intros [= _ <-]; reflexivity); intros He;
    (refine ((_ : tkeeps moves _) _ _ _ He); keeps_seq; [apply tkeeps_tread, _|..|apply tkeeps_tret, _];
     [apply on_the_chain_moves; intros; by eapply step_reset|apply on_the_chain_moves; intros; by eapply step_rebuild|
      apply tkeeps_tmodify; intros x; by apply same_net_moves]).
Qed.

Lemma header_check_moves hh : tkeeps moves (header_check_run c min_date max_date disp shuffle now header_sync_timeout hh).
Proof.
  intros s r s'. unfold header_check_run. pose proof (header_sync_due_moves hh s) as Hd.
  destruct (header_sync_due _ _ _ _ hh s) as [[] s1]; cbn [snd] in Hd; [|by intros [= _ <-]]. intros He. transitivity s1; [done|].
  refine ((_ : tkeeps moves _) _ _ _ He). apply tkeeps_tbind; [exact _|apply enable_moves|]. intros []; [|apply tkeeps_tret, _].
  keeps_seq; [|apply header_sync_moves| |apply tkeeps_tret, _]; apply tkeeps_tmodify; intros x; apply same_net_moves; [done|].
  unfold set_syncing_peer. by destruct (syncing_peer _).
Qed.

Lemma request_blocks_moves peers i hs s : moves s (request_blocks c now peers i hs s).
Proof.
  revert i s. induction hs as [|h hs IH]; intros i s; cbn [request_blocks]; [reflexivity|].
  destruct (peers !! _) as [id|]; [|reflexivity].
  destruct (on_the_peer id _ s) as [[u| |] s1] eqn:E; apply on_the_peer_moves in E; (etransitivity; [exact E|]);
    (etransitivity; [|apply IH]); [by apply same_net_moves|by apply same_node_moves..].
Qed.

Lemma body_sync_moves : tkeeps moves (body_sync c min_date max_date shuffle now).
Proof.
  intros s r s'. unfold body_sync. destruct (Chain.check_txhashset_needed _ _ _ _ _) as [[[] [hs|]]| |]; try (by intros [= _ <-]).
  intros He. refine ((_ : tkeeps moves _) _ _ _ He). keeps_seq; [apply tkeeps_tread, _..|].
  destruct a0; [apply tkeeps_tret, _|]. keeps_seq; [apply tkeeps_tread, _|apply tkeeps_tread, _| | |apply tkeeps_tret, _];
    apply tkeeps_tmodify; intros x; [by apply same_net_moves|apply request_blocks_moves].
Qed.

Lemma body_check_moves head : tkeeps moves (body_check_run c min_date max_date shuffle now head).
Proof.
  unfold body_check_run. apply tkeeps_tbind; [exact _| |].
  - unfold body_sync_due. keeps_seq; [apply tkeeps_tread, _|]. intros s r s'. cbv zeta. destruct (_ && _); intros [= _ <-]; by apply same_net_moves.
  - intros []; [|apply tkeeps_tret, _]. apply tkeeps_tbind; [exact _|apply body_sync_moves|]. intros []; [apply tkeeps_tret, _|].
    keeps_seq; [|apply tkeeps_tret, _]. apply tkeeps_tmodify. intros x. by apply same_net_moves.
Qed.

Lemma start_download_moves hh : tkeeps moves (start_download c min_date max_date shuffle now hh).
Proof.
  intros s r s'. unfold start_download. cbv zeta. set (s0 := set_archive _ s). intros He.
  transitivity s0; [by apply same_net_moves|]. destruct (request_state _ _ _ _ _ hh s0) as [q s1] eqn:E.
  assert (moves s0 s1) as H01.
  { revert E. unfold request_state. destruct (most_work_peer _ _) as [id|]; [|by intros [= _ <-]].
    destruct (archive_header _ _ _ hh s0) as [[h b]| |]; [|by intros [= _ <-]..]. destruct (on_the_peer id _ s0) as [[u| |] s2] eqn:E2;
      intros [= _ <-]; by eapply on_the_peer_moves. }
  etransitivity; [exact H01|].
  destruct q; injection He as _ <-; apply same_net_moves; [..|done]; destruct (status _); done.
Qed.

Lemma state_check_moves hh : tkeeps moves (state_check_run c min_date max_date shuffle now hh).
Proof.
  intros s r s'. unfold state_check_run. cbv zeta. set (restart := _ || connection_lost s). clearbody restart.
  set (s1 := if bool_decide (status s = TxHashsetDone) then set_state _ s else s). set (s2 := if restart || _ then _ else s1).
  assert (moves s s2) as H2.
  { apply same_net_moves. subst s1 s2. by destruct restart, (bool_decide (status s = TxHashsetDone)). }
  destruct (bool_decide (status s = TxHashsetDone)); [by intros [= _ <-]|]. destruct (restart || (_ =? _)); [|by intros [= _ <-]].
  destruct (state_sync_due _ _) as [[go late] a]. set (s3 := if _ && _ then _ else _).
  assert (moves s s3) as H3.
  { etransitivity; [exact H2|]. apply same_net_moves. subst s3. by destruct (_ && _). }
  destruct go; [|by intros [= _ <-]]. intros He. etransitivity; [exact H3|].
  refine ((_ : tkeeps moves _) _ _ _ He). keeps_seq; [apply start_download_moves|apply tkeeps_tret, _].
Qed.

(** A round of the loop is made of steps that the node and its connections could take by
    themselves. *)
Lemma sync_round_moves :
  tkeeps moves (sync_round c min_date max_date disp shuffle now header_sync_timeout bitmap_serialize bitmap_deserialize
    stream_hash stream_output stream_rproof).
Proof.
  unfold sync_round. keeps_seq; [apply tkeeps_tread, _|apply tkeeps_tmodify; intros x; destruct (_ >? _); by apply same_net_moves|].
  destruct (a.1).
  - unfold run_stages. keeps_seq; [apply tkeeps_tread, _..|apply header_check_moves|]. intros s r s'.
    destruct (archive_stage _); [|destruct (_ <? _); [by intros [= _ <-]|]]; intros He; refine ((_ : tkeeps moves _) _ _ _ He).
    + keeps_seq; [apply state_check_moves|apply tkeeps_tret, _].
    + apply tkeeps_tbind; [exact _|apply body_check_moves|]. intros []; [|apply tkeeps_tret, _].
      keeps_seq; [apply state_check_moves|apply tkeeps_tret, _].
  - unfold leave_sync. intros s r s'. destruct (is_syncing _); [|by intros [= _ <-]]. intros He.
    transitivity (set_state (update NoSync) s); [by apply same_net_moves|].
    refine (on_the_chain_moves _ _ _ _ _ He). intros x q x' Hx. by eapply step_compact.
Qed.
End Round.

(** A life of the node: traffic, its own steps and everything else of [network_step], rounds of
    the synchronization at any time, and changes to the state of the synchronization by the
    handlers of messages. *)
Inductive life_step : Syncer -> Syncer -> Prop :=
| life_network s p : network_step (net s) p -> life_step s (set_net p s)
| life_round adapter shuffle now timeout s r s' :
    @sync_round _ _ c min_date max_date adapter disp shuffle now timeout bitmap_serialize bitmap_deserialize
      stream_hash stream_output stream_rproof s = (r, s') ->
    life_step s s'
| life_state f s : life_step s (set_state f s).

(** C3. Nothing makes the chain lighter.  Whatever bytes arrive on whatever connections, in
    whatever order their threads take turns, between whatever rounds of the synchronization,
    steps of the node itself, bans and reconnections, a node that is not handed a state archive
    keeps a readable head whose total work is never less than it was. *)
Theorem life_never_lightens_chain s s' tip :
  rtc life_step s s' -> pool_headers (the_chain s) -> Chain.head (the_chain s) = Ok tip ->
  exists tip', Chain.head (the_chain s') = Ok tip' /\ num_sum (tip_difficulty tip) <= num_sum (tip_difficulty tip').
Proof.
  intros Hs. apply (network_never_lightens_chain c min_date max_date get_progpow_value u256_from config pow_verifier
    bitmap_serialize bitmap_deserialize load_foundation_output sort_buckets stream_hash stream_output stream_rproof siphash24
    zip_read unzip reopen disp).
  change (moves s s'). induction Hs as [|x y z Hstep _ IH]; [reflexivity|]. etransitivity; [|exact IH].
  destruct Hstep as [s p Hn|ad sh now to s r s' He|f s]; [by apply rtc_once|by eapply sync_round_moves|by apply same_net_moves].
Qed.
End Loop.

(** ** Which blocks are asked for *)
Section Missing.
Context `{Hasher} `{Secp} (c : ChainTypes) (min_date max_date : Z) (ch : Chain.Chain).

Definition missing (h : Hash) : bool :=
  negb (is_ok (Chain.get_block c min_date max_date ch h)) && negb (Chain.is_orphan ch h).

(** The first ones that are neither stored nor waiting for a parent. *)
Lemma blocks_to_get_exact n hs :
  Forall (fun h => Chain.get_block c min_date max_date ch h <> Panic) hs ->
  blocks_to_get c min_date max_date ch n hs = Ok (take n (filter (fun h => missing h = true) hs)).
Proof.
  revert n. induction hs as [|h hs IH]; intros [|n] Hp; try done. apply Forall_cons in Hp as [Hh Hp].
  cbn [blocks_to_get]. rewrite filter_cons. destruct (missing h) eqn:Em; [rewrite decide_True by done|rewrite decide_False by done];
    unfold missing in Em; destruct (Chain.get_block _ _ _ ch h) as [b|e|]; try done; rewrite Em, ?IH by done; done.
Qed.
End Missing.

(** ** The state archive *)
Section Archive.
Context `{Hasher} `{Secp} (c : ChainTypes) (min_date max_date : Z) `{ChainAdapter Node}.
Context (disp : list Z -> list Z) (shuffle : forall A, list A -> list A) (now header_sync_timeout : Z).
Context (bitmap_serialize : gset Z -> list Z) (bitmap_deserialize : list Z -> gset Z).
Context (stream_hash : list Z -> option (Hash * list Z * Z))
  (stream_output : list Z -> option (OutputIdentifier * list Z * Z))
  (stream_rproof : list Z -> option (RangeProof * list Z * Z)).

Definition under_way (st : SyncStatus) : bool :=
  match st with
  | TxHashsetDownload _ _ _ _ _ _ | TxHashsetSetup | TxHashsetValidation _ _ _ _ | TxHashsetSave => true
  | _ => false
  end.

(** What the archive stage leaves alone. *)
Definition undisturbed (s s' : Syncer) : Prop :=
  net s' = net s /\ current (state s') = current (state s) /\ bodies s' = bodies s /\ archive s' = archive s
  /\ history_locator (headers s') = history_locator (headers s).

Definition idle (s s' : Syncer) : Prop :=
  undisturbed s s' /\ state s' = state s /\ highest_height s' = highest_height s.

Lemma judge_idle hh s : under_way (status s) = true -> idle s (judge_stalling c disp now hh s).
Proof.
  intros Hu. unfold judge_stalling. destruct (stalling_ts (headers s)); [|done]. destruct (syncing_peer (headers s)); [|done].
  cbv zeta. by destruct (status s); try discriminate Hu; destruct (_ && _).
Qed.

Lemma header_sync_due_idle hh s :
  under_way (status s) = true -> idle s (snd (header_sync_due c disp now header_sync_timeout hh s)).
Proof.
  intros Hu. unfold header_sync_due. destruct (prev_header_sync _) as [[t lh] ph]. cbv zeta.
  destruct (_ || _); [|cbn [snd]; by destruct (_ >? _)]. destruct (_ >=? _); [done|]. cbn [snd].
  set (s1 := set_headers _ s). assert (under_way (status s1) = true) as Hu1 by done.
  destruct (judge_idle hh s1 Hu1) as [(E1 & E2 & E3 & E4 & E5) [E6 E7]]. by split_and!.
Qed.

Lemma header_check_idle hh s :
  under_way (status s) = true ->
  exists b s', header_check_run c min_date max_date disp shuffle now header_sync_timeout hh s = (Ok b, s') /\ idle s s'.
Proof.
  intros Hu. unfold header_check_run. pose proof (header_sync_due_idle hh s Hu) as Hi.
  destruct (header_sync_due _ _ _ _ hh s) as [[] s1]; cbn [snd] in Hi; [|by exists false, s1].
  exists false, s1. split; [|done]. destruct Hi as (_ & Est & _). unfold enable_header_sync, tbind, status in *. rewrite Est.
  by destruct (current (state s)).
Qed.

(** Without an error and with its peer still there, the watch over an archive only records
    that a download has taken more than ten minutes. *)
Lemma state_check_waits hh s start :
  under_way (status s) = true -> sync_error (state s) = None -> connection_lost s = false ->
  prev_state_sync (archive s) = Some start ->
  state_check_run c min_date max_date shuffle now hh s
  = (Ok true, if (tip_height hh =? highest_height s) && is_download (status s) && (now - start >? 10 * 60 * 1000)
              then set_state (set_sync_error (ServerP2P Timeout)) s else s).
Proof.
  intros Hu He Hc Hp. unfold state_check_run. rewrite He, Hc. cbv zeta.
  rewrite (bool_decide_eq_false_2 (is_Some None)) by (by intros [? ?]). cbn [orb].
  rewrite (bool_decide_eq_false_2 (status s = TxHashsetDone)) by (intros E; by rewrite E in Hu).
  destruct (tip_height hh =? highest_height s); [|done]. cbn [andb]. unfold state_sync_due. rewrite Hp.
  replace (set_archive (archive s) s) with s by (by destruct s). done.
Qed.

(** An archive under way is left to finish.  While it is downloaded, unpacked, validated
    or saved, without an error and with its peer connected, a round of the loop asks nobody for
    anything and changes nothing in the chain, the peers, the stage or the record of the
    download; it only notes that a download has taken longer than ten minutes. *)
Theorem archive_left_to_finish s start top head hh :
  under_way (status s) = true -> sync_error (state s) = None -> connection_lost s = false ->
  prev_state_sync (archive s) = Some start ->
  needs_syncing c min_date max_date shuffle s = Ok (true, top) -> 0 < top ->
  Chain.head (the_chain s) = Ok head -> Chain.header_head (the_chain s) = Ok hh ->
  exists s', sync_round c min_date max_date disp shuffle now header_sync_timeout bitmap_serialize bitmap_deserialize
      stream_hash stream_output stream_rproof s = (Ok tt, s')
    /\ undisturbed s s'
    /\ sync_error (state s') = if (tip_height hh =? top) && is_download (status s) && (now - start >? 10 * 60 * 1000)
                               then Some (ServerP2P Timeout) else None.
Proof.
  intros Hu He Hc Hp Hn Ht Hh Hhh. unfold sync_round. unfold tbind at 1, tread at 1. rewrite Hn. unfold tbind at 1, tmodify at 1.
  cbn [fst snd]. destruct (Z.gtb_spec top 0); [|lia]. set (s0 := set_highest top s).
  unfold run_stages. unfold tbind at 1, tread at 1. change (the_chain s0) with (the_chain s). rewrite Hh.
  unfold tbind at 1, tread at 1. change (the_chain s0) with (the_chain s). rewrite Hhh.
  destruct (header_check_idle hh s0 Hu) as (b & s1 & Hr & ((Hnet & Hst & Hbo & Har & Hlo) & Est & Hhi)). unfold tbind at 1. rewrite Hr.
  assert (status s1 = status s) as Es by exact Hst. rewrite Es.
  assert (archive_stage (status s) = true) as -> by (by destruct (status s)). unfold tbind.
  rewrite (state_check_waits hh s1 start); [|by rewrite Es|by rewrite Est| |by rewrite Har].
  - eexists. split; [reflexivity|]. rewrite Hhi, Es. cbn [highest_height s0 set_highest].
    destruct (_ && _ && _); split; try done; cbn [state set_state set_sync_error sync_error]; by rewrite ?Est.
  - unfold connection_lost in *. rewrite Har, Es, Hnet. exact Hc.
Qed.

(** The ten minutes are only looked at in rounds in which our headers reach the height that
    the best peer claims: otherwise a download that never ends is never given up. *)
Lemma download_unwatched hh s start :
  is_download (status s) = true -> sync_error (state s) = None -> connection_lost s = false ->
  prev_state_sync (archive s) = Some start -> tip_height hh <> highest_height s ->
  state_check_run c min_date max_date shuffle now hh s = (Ok true, s).
Proof.
  intros Hd He Hc Hp Hne. rewrite (state_check_waits hh s start) by (done || by destruct (status s)).
  destruct (Z.eqb_spec (tip_height hh) (highest_height s)); done.
Qed.
End Archive.
