(* ===== verification/SyncExample.v ===== *)
(** * Traffic and synchronization: examples

    The block of [ProcessBlockExample], as the bytes of a message on a connection of the node
    of [ChainExample], becomes the head; concrete runs of the theorems of [SyncTheory] on that
    node, and runs of the defects. *)
From S2P Require Import Prelude PmmrIndex Pmmr PmmrBackend PruneList AppendOnlyFile PmmrData Ser Global Pow Reward Retarget Feijoada Committed Transaction CutThrough Block BlockTheory ChainStore ChainStoreTheory Pipe PipeTheory ChainSums PipeExample TxHashSet ProcessBlock TxHashSetExample ProcessBlockExample Orphans ChainFacade ChainTheory Pool Node ChainExample Msg MsgTheory Peers PeerMap PeersTheory PeersInv Protocol Server ProtocolTheory NodeNet NodeNetTheory Sync SyncTheory.

#[local] Existing Instance integer_secp.
#[local] Existing Instance poly_hasher.
#[local] Existing Instance trusting_context.

(** ** Traffic *)
Definition block_message : list Z :=
  match write_to_buf Mainnet (write_block Mainnet Full next_block) T_Block with
  | Ok bs => bs
  | _ => []
  end.

Definition miner : PeerInfo := mkInfo 15 USER_AGENT 1 (mkPeerAddr (SocketV4 [10; 0; 0; 7] 3414)) Inbound.
Definition one_peer : Peers Node :=
  mkPeers root_node (mkStore ∅) {[ map_key (pi_addr miner) := 0%nat ]} [peer_new miner (live_new 0 min)].

Definition in_order (A : Type) (l : list A) : list A := l.
#[local] Abbreviation the_node := (node_adapter Mainnet 0 far_date noon no_progpow hash_value default_config trusting no_bitmap
  empty_bitmap no_foundation false false false (fun l => l) (fun _ => Ok tt) 1 (fun _ => None) (fun _ => None) (fun _ => None)
  (fun _ _ _ => 0) false (fun _ _ => None) (fun _ _ => Err InvalidTxHashSet) (fun _ _ => Err InvalidTxHashSet)).

Definition block_arrives : turn * served (W := Peers Node) :=
  @peer_turn _ _ Mainnet 0 far_date (fun _ _ _ => 0) (fun _ => []) in_order 0 0 Node the_node 0 miner
    (mkServed (mkStream block_message false) one_peer []).

(** The turn ends well, everything has been read, and the block is the head. *)
Example block_becomes_head :
  fst block_arrives = Continue /\ arriving (arrived (snd block_arrives)) = []
  /\ match Chain.head (chain (adapter (world (snd block_arrives)))) with
     | Ok tip => tip_height tip = 1 /\ last_block_h tip = next_hash
     | _ => False
     end.
Proof. vm_compute. by split_and!. Qed.

Lemma block_message_bytes : Forall is_byte block_message.
Proof. vm_decide. Qed.

Lemma network_never_lightens_chain_witness :
  exists tip, Chain.head (chain (adapter (world (snd block_arrives)))) = Ok tip
    /\ num_sum (tip_difficulty root_tip) <= num_sum (tip_difficulty tip).
Proof.
  apply (network_never_lightens_chain Mainnet 0 far_date no_progpow hash_value default_config trusting no_bitmap empty_bitmap
    no_foundation (fun l => l) (fun _ => None) (fun _ => None) (fun _ => None) (fun _ _ _ => 0) (fun _ _ => None)
    (fun _ _ => Err InvalidTxHashSet) (fun _ _ => Err InvalidTxHashSet) (fun _ => []) one_peer).
  - apply rtc_once. destruct block_arrives as [t v'] eqn:E. unfold block_arrives in E. cbn [snd].
    eapply network_turn; [apply block_message_bytes|exact E].
  - intros k o Ho. discriminate Ho.
  - vm_compute. reflexivity.
Defined.

(** The node of [ChainExample] with the header of the next block, and both heads of the
    headers there. *)
Definition ahead_store : Batch :=
  or_else (ext_batch root_ext)
    (let? b := save_block_header Mainnet (ext_batch root_ext) next_header in
     let? b := save_header_head b next_tip in save_sync_head b next_tip).
Definition ahead_chain : Chain.Chain := Chain.mkChain (commit ahead_store) root_set orphan_pool_new false PipeExample.genesis [].
Definition the_hash (h : Z) : Hash := or_else ZERO_HASH (header_hash Mainnet (if h =? 0 then PipeExample.genesis else next_header)).
Definition the_header (h : Z) : BlockHeader :=
  or_else PipeExample.genesis (Chain.get_block_header Mainnet 0 far_date ahead_chain (the_hash h)).

(** Two peers, both with more work than the node. *)
Definition far_ahead : PeerLiveInfo := live_update 0 9 (from_num 20000) 0 (live_new 0 min).
Definition neighbour (k : Z) : PeerInfo := mkInfo 15 USER_AGENT 1 (mkPeerAddr (SocketV4 [10; 0; 0; k] 3414)) Outbound.
Definition two_peers : Peers Node :=
  mkPeers (set_chain ahead_chain root_node) (mkStore ∅)
    {[ map_key (pi_addr (neighbour 7)) := 0%nat; map_key (pi_addr (neighbour 8)) := 1%nat ]}
    [peer_new (neighbour 7) far_ahead; peer_new (neighbour 8) far_ahead].
Definition fresh : Syncer := syncer_new 0 two_peers sync_state_new.

(** ** Locators *)
Lemma two_heights (P : Z -> Prop) : P 0 -> P 1 -> forall h, 0 <= h <= 1 -> P h.
Proof. intros H0 H1 h Hh. assert (h = 0 \/ h = 1) as [-> | ->] by lia; done. Qed.

Lemma fresh_locator_exact_witness :
  get_locator Mainnet 0 far_date fresh
  = (Ok [the_hash 1; the_hash 0], set_history [(1, the_hash 1); (0, the_hash 0)] fresh)
  /\ locator_ok (mkLocator [the_hash 1; the_hash 0]).
Proof.
  refine (fresh_locator_exact Mainnet 0 far_date fresh the_header the_hash 1 ltac:(lia) _ _ _ _ next_tip eq_refl _ _ _).
  - apply (two_heights (fun h => header_hash Mainnet (the_header h) = Ok (the_hash h))); (vm_compute; reflexivity).
  - apply (two_heights (fun h => height (the_header h) = h)); (vm_compute; reflexivity).
  - apply (two_heights (fun h => Chain.get_block_header Mainnet 0 far_date (the_chain fresh) (the_hash h) = Ok (the_header h))); (vm_compute; reflexivity).
  - intros h Hh. assert (h = 1) as -> by lia. (vm_compute; reflexivity).
  - (vm_compute; reflexivity).
  - (vm_compute; reflexivity).
  - (vm_compute; reflexivity).
Defined.

(** After one block on top of a long chain, a locator has twenty-one hashes: the new head, and
    the nearest kept ones to each of its twenty heights.  The reader of the other side takes
    twenty at most, so the request is refused. *)
Definition long_tip : Tip := mkTip 600001 (the_hash 1) (the_hash 0) (tip_difficulty next_tip).
Definition long_store : Batch :=
  or_else ahead_store (let? b := save_header_head ahead_store long_tip in save_sync_head b long_tip).
Definition long_chain : Chain.Chain := Chain.mkChain (commit long_store) root_set orphan_pool_new false PipeExample.genesis [].
Definition long_run : Syncer :=
  set_history (map (fun h => (h, the_hash 0)) (get_locator_heights 600000))
    (syncer_new 0 (set_adapter (set_chain long_chain root_node) two_peers) sync_state_new).

Example locator_too_long :
  match get_locator Mainnet 0 far_date long_run with
  | (Ok l, _) => length l = 21%nat /\ deserialize read_locator (write_locator (mkLocator l)) = Err TooLargeReadErr
  | _ => False
  end.
Proof. vm_compute. by split. Qed.

(** ** Requests for blocks *)
Lemma block_requests_fit_witness :
  let s' := request_blocks Mainnet 0 [0; 1]%nat 0 [the_hash 0; the_hash 1; ZERO_HASH] fresh in
  blocks_requested (bodies s') = 3
  /\ (forall j id q, ([0; 1]%nat : list nat) !! j = Some id -> heap (net fresh) !! id = Some q ->
       exists q', heap (net s') !! id = Some q' /\ stopped q' = stopped q
         /\ outbox q' = map (block_request Mainnet) (dealt [0; 1]%nat 0 j [the_hash 0; the_hash 1; ZERO_HASH])).
Proof.
  apply (block_requests_fit Mainnet 0 [0; 1]%nat 0); [vm_decide|vm_decide|reflexivity|].
  repeat constructor; eexists; by split_and!.
Defined.

(** ** The loop *)
#[local] Abbreviation round ad timeout := (@sync_round _ _ Mainnet 0 far_date ad (fun _ => []) in_order 0 timeout no_bitmap empty_bitmap
  (fun _ => None) (fun _ => None) (fun _ => None)).
#[local] Abbreviation our_node := (node_adapter Mainnet 0 far_date noon no_progpow hash_value default_config trusting no_bitmap
  empty_bitmap no_foundation false false false (fun l => l) (fun _ => Ok tt) 1 (fun _ => None) (fun _ => None) (fun _ => None)
  (fun _ _ _ => 0) false (fun _ _ => None) (fun _ _ => Err InvalidTxHashSet) (fun _ _ => Err InvalidTxHashSet)).

Example first_round_works : status (snd (round our_node 10 fresh)) = HeaderSyncing 1 9.
Proof. vm_compute. reflexivity. Qed.

Lemma life_never_lightens_chain_witness :
  exists tip, Chain.head (the_chain (snd (round our_node 10 fresh))) = Ok tip
    /\ num_sum (tip_difficulty root_tip) <= num_sum (tip_difficulty tip).
Proof.
  apply (life_never_lightens_chain Mainnet 0 far_date no_progpow hash_value default_config trusting no_bitmap empty_bitmap
    no_foundation (fun l => l) (fun _ => None) (fun _ => None) (fun _ => None) (fun _ _ _ => 0) (fun _ _ => None)
    (fun _ _ => Err InvalidTxHashSet) (fun _ _ => Err InvalidTxHashSet) (fun _ => []) fresh).
  - apply rtc_once. destruct (round our_node 10 fresh) as [r s'] eqn:E. eapply life_round. exact E.
  - intros k o Ho. discriminate Ho.
  - vm_compute. reflexivity.
Defined.

(** ** The state archive *)
Definition downloading : Syncer :=
  set_archive (mkStateSync (Some (-1000000)) (Some 0%nat)) (set_state (fun _ => mkSyncState (TxHashsetDownload 0 0 0 0 0 0) None) fresh).

(** A download that has taken more than sixteen minutes, with our headers behind the peer's. *)
Lemma archive_left_to_finish_witness :
  exists s', round our_node 10 downloading = (Ok tt, s') /\ undisturbed downloading s' /\ sync_error (state s') = None.
Proof.
  assert (None = (if (tip_height next_tip =? 9) && is_download (status downloading) && (0 - -1000000 >? 10 * 60 * 1000)
    then Some (ServerP2P Timeout) else None)) as -> by (vm_compute; reflexivity).
  apply (@archive_left_to_finish poly_hasher integer_secp Mainnet 0 far_date our_node (fun _ => []) in_order 0 10 no_bitmap empty_bitmap
    (fun _ => None) (fun _ => None) (fun _ => None) downloading (-1000000) 9 root_tip next_tip); vm_compute; reflexivity.
Defined.

(** The headers fall due in the round after an archive is done: the stage becomes that of the
    headers, the record of the download is not reset, and a later archive is never asked
    for. *)
Definition finished : Syncer :=
  set_archive (mkStateSync (Some (-1000000)) (Some 0%nat))
    (set_headers (mkHeaderSync [] (-1, 1, 1) None None) (set_state (fun _ => mkSyncState TxHashsetDone None) fresh)).

Example done_not_noticed :
  let s' := snd (round our_node 10 finished) in
  status s' = HeaderSyncing 1 9 /\ prev_state_sync (archive s') = Some (-1000000)
  /\ fst (fst (state_sync_due 0 (archive s'))) = false.
Proof. vm_compute. by split_and!. Qed.
