(* ===== verification/Base58.v ===== *)
(** * Base 58

    [keychain/src/base58.rs]: the encoder and the decoder, plain and with a checksum.  A string
    is the list of its bytes.  The hash function of the [sha2] library is an argument. *)
From S2P Require Import Prelude Ser.

Inductive base58_error : Type :=
| BadByte (b : Z)
| BadChecksum (expected actual : Z)
| InvalidLength (n : nat)
| InvalidVersion (v : list Z)
| TooShort (n : nat)
| Other.

Definition BASE58_CHARS : list Z :=
  [49; 50; 51; 52; 53; 54; 55; 56; 57; 65; 66; 67; 68; 69; 70; 71; 72; 74; 75; 76; 77; 78; 80; 81; 82; 83; 84; 85; 86;
   87; 88; 89; 90; 97; 98; 99; 100; 101; 102; 103; 104; 105; 106; 107; 109; 110; 111; 112; 113; 114; 115; 116; 117; 118; 119; 120; 121; 122].

Definition BASE58_DIGITS : list (option Z) :=
  [None; None; None; None; None; None; None; None; None; None; None; None; None; None; None; None;
   None; None; None; None; None; None; None; None; None; None; None; None; None; None; None; None;
   None; None; None; None; None; None; None; None; None; None; None; None; None; None; None; None;
   None; Some 0; Some 1; Some 2; Some 3; Some 4; Some 5; Some 6; Some 7; Some 8; None; None; None; None; None; None;
   None; Some 9; Some 10; Some 11; Some 12; Some 13; Some 14; Some 15; Some 16; None; Some 17; Some 18; Some 19; Some 20; Some 21; None;
   Some 22; Some 23; Some 24; Some 25; Some 26; Some 27; Some 28; Some 29; Some 30; Some 31; Some 32; None; None; None; None; None;
   None; Some 33; Some 34; Some 35; Some 36; Some 37; Some 38; Some 39; Some 40; Some 41; Some 42; Some 43; None; Some 44; Some 45; Some 46;
   Some 47; Some 48; Some 49; Some 50; Some 51; Some 52; Some 53; Some 54; Some 55; Some 56; Some 57; None; None; None; None; None].

(** ** Decoding *)
(** One pass over a number, low digit first: [x * m + carry] in place. *)
Fixpoint mul_add (m base : Z) (digits : list Z) (carry : Z) : list Z * Z :=
  match digits with
  | [] => ([], carry)
  | d :: digits =>
      let carry := carry + d * m in
      let '(digits, last) := mul_add m base digits (carry / base) in
      (carry mod base :: digits, last)
  end.

(** The test lets 128 through, which is no index of the table. *)
Definition decode_step (scratch : list Z) (d58 : Z) : outcome base58_error (list Z) :=
  if d58 >? 128 then Err (BadByte d58)
  else
    let? entry := unwrap (BASE58_DIGITS !! Z.to_nat d58) in
    match entry with
    | Some d =>
        let '(digits, carry) := mul_add 58 256 (rev scratch) d in
        if carry =? 0 then Ok (rev digits) else Panic
    | None => Err (BadByte d58)
    end.

Fixpoint take_while (f : Z -> bool) (l : list Z) : list Z :=
  match l with
  | x :: l => if f x then x :: take_while f l else []
  | [] => []
  end.
Fixpoint skip_while (f : Z -> bool) (l : list Z) : list Z :=
  match l with
  | x :: l' => if f x then skip_while f l' else l
  | [] => []
  end.

Definition from (data : list Z) : outcome base58_error (list Z) :=
  let? scratch := foldM decode_step data (replicate (1 + length data * 11 / 15) 0) in
  Ok (map (fun _ => 0) (take_while (fun x => x =? hd 0 BASE58_CHARS) data) ++ skip_while (fun x => x =? 0) scratch).

(** ** Encoding *)
(** [while carry > 0]; a carry of [n] is gone after [n] divisions. *)
Fixpoint push_carry (fuel : nat) (carry : Z) (ret : list Z) : list Z :=
  match fuel with
  | O => ret
  | S fuel => if carry >? 0 then push_carry fuel (carry / 58) (ret ++ [carry mod 58]) else ret
  end.

Record encoder := mkEncoder { e_ret : list Z; leading_zero_count : nat; leading_zeroes : bool }.

Definition encode_step (e : encoder) (d256 : Z) : encoder :=
  let zero := leading_zeroes e && (d256 =? 0) in
  let '(digits, carry) := mul_add 256 58 (e_ret e) d256 in
  mkEncoder (push_carry (Z.to_nat carry) carry digits)
    (if zero then S (leading_zero_count e) else leading_zero_count e) zero.

Definition to_char (d : Z) : outcome base58_error Z := unwrap (BASE58_CHARS !! Z.to_nat d).
Fixpoint to_chars (l : list Z) : outcome base58_error (list Z) :=
  match l with
  | [] => Ok []
  | d :: l => let? ch := to_char d in let? rest := to_chars l in Ok (ch :: rest)
  end.

Definition encode_iter (data : list Z) : outcome base58_error (list Z) :=
  let e := foldl encode_step (mkEncoder [] 0 true) data in
  to_chars (rev (e_ret e ++ replicate (leading_zero_count e) 0)).

(** ** With a checksum *)
Section Checked.
Context (sha256 : list Z -> array 32).

Definition sha256d_hash (data : list Z) : array 32 := sha256 (bytes (sha256 data)).

Definition le_value (bs : list Z) : Z := foldr (fun b acc => b + 256 * acc) 0 bs.
Definition into_le_low_u32 (data : array 32) : Z := le_value (take 8 (bytes data)) mod 2 ^ 32.

Definition from_check (data : list Z) : outcome base58_error (list Z) :=
  let? ret := from data in
  if (length ret <? 4)%nat then Err (TooShort (length ret))
  else
    let ck_start := (length ret - 4)%nat in
    let expected := into_le_low_u32 (sha256d_hash (take ck_start ret)) in
    let actual := le_value (drop ck_start ret) in
    if negb (expected =? actual) then Err (BadChecksum expected actual) else Ok (take ck_start ret).

Definition check_encode_slice (data : list Z) : outcome base58_error (list Z) :=
  encode_iter (data ++ take 4 (bytes (sha256d_hash data))).
End Checked.

(** The tests of the source. *)
Example encode_basics :
  map encode_iter [[0]; [1]; [58]; [13; 36]; [0; 13; 36]; [0; 0; 0; 0; 13; 36]]
  = [Ok [49]; Ok [50]; Ok [50; 49]; Ok [50; 49; 49]; Ok [49; 50; 49; 49]; Ok [49; 49; 49; 49; 50; 49; 49]].
Proof. reflexivity. Qed.
Example decode_basics :
  map from [[49]; [50]; [50; 49]; [50; 49; 49]; [49; 50; 49; 49]; [49; 49; 49; 50; 49; 49]]
  = [Ok [0]; Ok [1]; Ok [58]; Ok [13; 36]; Ok [0; 13; 36]; Ok [0; 0; 0; 13; 36]].
Proof. reflexivity. Qed.
