(* ===== verification/Base58Theory.v ===== *)
(** * Base 58 is a bijection

    Numbers as lists of digits, low digit first, in any base; then: every byte string is the
    decoding of its encoding, every string over the alphabet the encoding of its decoding, and
    the same with checksums. *)
From S2P Require Import Prelude Ser Base58.

(** ** Numbers as digits *)
Section Digits.
Context (base : Z) (base_big : 1 < base).

Definition is_digit (d : Z) : Prop := 0 <= d < base.
Definition number (l : list Z) : Z := foldr (fun d acc => d + base * acc) 0 l.

Lemma number_cons d l : number (d :: l) = d + base * number l.
Proof. done. Qed.
Lemma number_app l k : number (l ++ k) = number l + base ^ Z.of_nat (length l) * number k.
Proof.
  induction l as [|d l IH]; [change (number k = 0 + base ^ 0 * number k); rewrite Z.pow_0_r; lia|].
  cbn [app length]. rewrite !number_cons, IH, Nat2Z.inj_succ, Z.pow_succ_r by lia. lia.
Qed.
Lemma number_zeros l n : number (l ++ replicate n 0) = number l.
Proof.
  rewrite number_app. assert (number (replicate n 0) = 0) as ->; [|lia].
  induction n as [|n IH]; [done|]. cbn [replicate]. rewrite number_cons. lia.
Qed.
Lemma number_bound l : Forall is_digit l -> 0 <= number l < base ^ Z.of_nat (length l).
Proof.
  induction 1 as [|d l Hd _ IH]; [done|]. cbn [length]. rewrite number_cons. unfold is_digit in Hd.
  rewrite Nat2Z.inj_succ, Z.pow_succ_r by lia. nia.
Qed.

(** Digits of one length are determined by their number. *)
Lemma number_inj l k : Forall is_digit l -> Forall is_digit k -> length l = length k -> number l = number k -> l = k.
Proof.
  intros Hl. revert k. induction Hl as [|d l Hd _ IH]; intros [|e k] Hk Hlen Hn; try done.
  apply Forall_cons in Hk as [He Hk]. rewrite !number_cons in Hn.
  unfold is_digit in *. assert (number l = number k) as E by nia. f_equal; [nia|]. apply IH; [done|by injection Hlen|done].
Qed.

(** No useless digits: the last is not 0. *)
Definition trimmed (l : list Z) : Prop := forall d, last l = Some d -> d <> 0.

Lemma trimmed_length l k :
  Forall is_digit l -> Forall is_digit k -> trimmed l -> number l = number k -> (length l <= length k)%nat.
Proof.
  intros Hl Hk Ht Hn. destruct l as [|d l _] using rev_ind; [cbn; lia|]. rewrite number_app in Hn. rewrite length_app. cbn [length].
  apply Forall_app in Hl as [Hl Hd]. apply Forall_singleton in Hd. unfold is_digit in Hd.
  assert (d <> 0) as Hd0 by (apply Ht; by rewrite last_snoc). rewrite number_cons in Hn. change (number []) with 0 in Hn.
  pose proof (number_bound l Hl). pose proof (number_bound k Hk).
  destruct (Nat.le_gt_cases (length l + 1) (length k)) as [?|Hlt]; [done|].
  assert (base ^ Z.of_nat (length k) <= base ^ Z.of_nat (length l)) by (apply Z.pow_le_mono_r; lia). nia.
Qed.

Lemma trimmed_inj l k :
  Forall is_digit l -> Forall is_digit k -> trimmed l -> trimmed k -> number l = number k -> l = k.
Proof.
  intros Hl Hk Tl Tk Hn. apply number_inj; [done..| |done].
  pose proof (trimmed_length l k Hl Hk Tl Hn). pose proof (trimmed_length k l Hk Hl Tk (eq_sym Hn)). lia.
Qed.

(** A pass of multiplication and addition. *)
Lemma mul_add_exact m l c :
  0 <= m -> 0 <= c -> Forall (fun d => 0 <= d) l ->
  let '(l', c') := mul_add m base l c in
  length l' = length l /\ Forall is_digit l' /\ 0 <= c' /\ number l' + base ^ Z.of_nat (length l) * c' = number l * m + c.
Proof.
  intros Hm Hc Hl. revert c Hc. induction Hl as [|d l Hd _ IH]; intros c Hc; cbn [mul_add].
  { split_and!; [done|constructor|done|]. change (0 + base ^ 0 * c = 0 * m + c). rewrite Z.pow_0_r. lia. }
  assert (0 <= (c + d * m) / base) as Hq by (apply Z.div_pos; nia).
  specialize (IH _ Hq). destruct (mul_add m base l _) as [l' c'] eqn:E. destruct IH as (IHl & IHd & IHc & IHn).
  split_and!; [by cbn; rewrite IHl| |done|].
  - constructor; [|done]. apply Z.mod_pos_bound. lia.
  - cbn [length]. rewrite !number_cons, Nat2Z.inj_succ, Z.pow_succ_r by lia.
    pose proof (Z.div_mod (c + d * m) base ltac:(lia)). nia.
Qed.
End Digits.

Abbreviation digit58 := (is_digit 58).
Abbreviation digits58 := (number 58).
Abbreviation digits256 := (number 256).

Lemma bytes_digits l : Forall is_byte l <-> Forall (is_digit 256) l.
Proof. done. Qed.
Lemma digits_nonneg base l : Forall (is_digit base) l -> Forall (fun d => 0 <= d) l.
Proof. intros Hl. eapply Forall_impl; [exact Hl|]. unfold is_digit. cbv beta. lia. Qed.

(** ** The tables *)
Lemma chars_digits d :
  0 <= d < 58 ->
  exists ch, BASE58_CHARS !! Z.to_nat d = Some ch /\ 0 <= ch < 128 /\ BASE58_DIGITS !! Z.to_nat ch = Some (Some d)
    /\ (ch =? 49) = (d =? 0).
Proof.
  intros Hd. assert (Forall (fun d => match BASE58_CHARS !! Z.to_nat d with
    | Some ch => 0 <= ch < 128 /\ BASE58_DIGITS !! Z.to_nat ch = Some (Some d) /\ (ch =? 49) = (d =? 0)
    | None => False end) (seqZ 0 58)) as Ht.
  { vm_compute. repeat constructor; done. }
  rewrite Forall_forall in Ht. specialize (Ht d ltac:(apply elem_of_seqZ; lia)).
  destruct (BASE58_CHARS !! Z.to_nat d) as [ch|]; [|done]. by exists ch.
Qed.

Lemma digits_chars ch d :
  0 <= ch -> BASE58_DIGITS !! Z.to_nat ch = Some (Some d) -> 0 <= d < 58 /\ BASE58_CHARS !! Z.to_nat d = Some ch.
Proof.
  intros Hch Hd. assert (Forall (fun ch => match BASE58_DIGITS !! Z.to_nat ch with
    | Some (Some d) => 0 <= d < 58 /\ BASE58_CHARS !! Z.to_nat d = Some ch
    | _ => True end) (seqZ 0 128)) as Ht.
  { vm_compute. repeat constructor; done. }
  pose proof (lookup_lt_Some _ _ _ Hd) as Hlt. change (length BASE58_DIGITS) with 128%nat in Hlt.
  rewrite Forall_forall in Ht. specialize (Ht ch ltac:(apply elem_of_seqZ; lia)). by rewrite Hd in Ht.
Qed.

Lemma to_chars_cons d ds s :
  digit58 d -> to_chars (d :: ds) = Ok s ->
  exists ch rest, s = ch :: rest /\ to_chars ds = Ok rest /\ 0 <= ch < 128
    /\ BASE58_DIGITS !! Z.to_nat ch = Some (Some d) /\ (ch =? 49) = (d =? 0).
Proof.
  intros Hd. destruct (chars_digits d Hd) as (ch & E & Hch & Hdig & H49). cbn [to_chars]. unfold to_char. rewrite E. cbn [unwrap bind].
  destruct (to_chars ds) as [rest| |]; [|done..]. intros [= <-]. by exists ch, rest.
Qed.

Lemma to_chars_total ds : Forall digit58 ds -> exists s, to_chars ds = Ok s /\ length s = length ds.
Proof.
  induction 1 as [|d ds Hd _ [s [IH Hl]]]; [by exists []|]. destruct (chars_digits d Hd) as (ch & E & _).
  exists (ch :: s). cbn [to_chars]. unfold to_char. rewrite E, IH. cbn. by rewrite Hl.
Qed.

(** ** Decoding *)
Lemma decode_step_exact sc ch d :
  Forall is_byte sc -> 0 <= ch < 128 -> digit58 d -> BASE58_DIGITS !! Z.to_nat ch = Some (Some d) ->
  digits256 (rev sc) * 58 + d < 256 ^ Z.of_nat (length sc) ->
  exists sc', decode_step sc ch = Ok sc' /\ length sc' = length sc /\ Forall is_byte sc'
    /\ digits256 (rev sc') = digits256 (rev sc) * 58 + d.
Proof.
  intros Hsc Hch Hd He Hlt. unfold decode_step. destruct (Z.gtb_spec ch 128); [lia|]. rewrite He. cbn [unwrap bind].
  unfold is_digit in Hd. apply Forall_rev in Hsc.
  pose proof (mul_add_exact 256 ltac:(lia) 58 (rev sc) d ltac:(lia) ltac:(lia) (digits_nonneg 256 _ Hsc)) as Hm.
  destruct (mul_add 58 256 (rev sc) d) as [l c]. destruct Hm as (Hl & Hdl & Hc & Hn). rewrite length_rev in Hl, Hn.
  pose proof (number_bound 256 ltac:(lia) l Hdl) as Hb.
  assert (c = 0) as -> by nia. exists (rev l). rewrite length_rev, rev_involutive. split_and!; [done|done|by apply Forall_rev|lia].
Qed.

Lemma decode_exact ds : forall s sc,
  Forall digit58 ds -> to_chars ds = Ok s -> Forall is_byte sc ->
  (digits256 (rev sc) + 1) * 58 ^ Z.of_nat (length ds) <= 256 ^ Z.of_nat (length sc) ->
  exists sc', foldM decode_step s sc = Ok sc' /\ length sc' = length sc /\ Forall is_byte sc'
    /\ digits256 (rev sc') = digits256 (rev sc) * 58 ^ Z.of_nat (length ds) + digits58 (rev ds).
Proof.
  induction ds as [|d ds IH]; intros s sc Hds Hs Hsc Hb.
  { injection Hs as <-. exists sc. split_and!; [done..|]. change (digits58 (rev [])) with 0. cbn [length]. lia. }
  apply Forall_cons in Hds as [Hd Hds]. destruct (to_chars_cons d ds s Hd Hs) as (ch & rest & -> & Hrest & Hch & Hdig & _).
  cbn [length] in Hb |- *. rewrite Nat2Z.inj_succ, Z.pow_succ_r in * by lia.
  assert (0 < 58 ^ Z.of_nat (length ds)) by (apply Z.pow_pos_nonneg; lia).
  assert (0 <= digits256 (rev sc)) as H0 by (apply (number_bound 256); [lia|by apply Forall_rev]).
  unfold is_digit in Hd.
  destruct (decode_step_exact sc ch d Hsc Hch Hd Hdig) as (sc1 & E1 & Hl1 & Hb1 & Hn1); [nia|].
  destruct (IH rest sc1 Hds Hrest Hb1) as (sc' & E' & Hl' & Hb' & Hn'); [rewrite Hl1, Hn1; nia|].
  exists sc'. cbn [foldM]. rewrite E1. cbn [bind]. split_and!; [done|lia|done|].
  rewrite Hn', Hn1. cbn [rev]. rewrite (number_app 58), length_rev by lia. rewrite number_cons. change (digits58 []) with 0. lia.
Qed.

(** Enough room: 11/15 is above the logarithm. *)
Lemma decode_room n : 58 ^ Z.of_nat n <= 256 ^ Z.of_nat (1 + n * 11 / 15).
Proof.
  pose proof (Nat.div_mod_eq n 15) as Hn. set (q := (n / 15)%nat) in *. set (r := (n mod 15)%nat) in *.
  assert (r < 15)%nat as Hr by (apply Nat.mod_upper_bound; lia).
  assert (n * 11 / 15 = 11 * q + r * 11 / 15)%nat as ->.
  { replace (n * 11)%nat with (r * 11 + (11 * q) * 15)%nat by lia. rewrite Nat.div_add by lia. lia. }
  rewrite Hn. replace (Z.of_nat (15 * q + r)) with (15 * Z.of_nat q + Z.of_nat r) by lia.
  replace (Z.of_nat (1 + (11 * q + r * 11 / 15))) with (11 * Z.of_nat q + Z.of_nat (1 + r * 11 / 15)) by lia.
  rewrite !Z.pow_add_r, !Z.pow_mul_r by lia. apply Z.mul_le_mono_nonneg; [apply Z.pow_nonneg; lia| |apply Z.pow_nonneg; lia|].
  - apply Z.pow_le_mono_l. vm_compute. split; discriminate.
  - do 15 (destruct r as [|r]; [vm_compute; discriminate|]). lia.
Qed.

(** ** Leading zeros *)
Lemma rev_eq (l k : list Z) : rev l = rev k -> l = k.
Proof. intros E. by rewrite <- (rev_involutive l), E, rev_involutive. Qed.
Lemma rev_zeros n : rev (replicate n 0) = replicate n 0.
Proof. induction n as [|n IH]; [done|]. cbn [replicate rev]. rewrite IH. symmetry. apply replicate_cons_app. Qed.

Abbreviation is_zero := (fun x : Z => x =? 0).

Lemma zeros_split l : l = replicate (length (take_while is_zero l)) 0 ++ skip_while is_zero l.
Proof.
  induction l as [|x l IH]; [done|]. cbn [take_while skip_while]. destruct (Z.eqb_spec x 0) as [->|]; [|done].
  cbn [length replicate app]. by f_equal.
Qed.
Lemma skip_trimmed l : trimmed (rev (skip_while is_zero l)).
Proof.
  induction l as [|x l IH]; [done|]. cbn [skip_while]. destruct (Z.eqb_spec x 0) as [->|Hx]; [done|].
  cbn [rev]. intros d. rewrite last_snoc. by intros [= <-].
Qed.
Lemma skip_digits base l : Forall (is_digit base) l -> Forall (is_digit base) (skip_while is_zero l).
Proof. induction 1 as [|x l Hx Hl IH]; [done|]. cbn [skip_while]. destruct (x =? 0); [done|by constructor]. Qed.
Lemma skip_number base l : 1 < base -> number base (rev (skip_while is_zero l)) = number base (rev l).
Proof. intros Hb. rewrite (zeros_split l) at 2. by rewrite rev_app_distr, rev_zeros, number_zeros. Qed.
Lemma skip_zeros n l : trimmed (rev l) -> skip_while is_zero (replicate n 0 ++ l) = l.
Proof.
  intros Ht. induction n as [|n IH]; [|done]. cbn [replicate app]. destruct l as [|x l]; [done|]. cbn [skip_while].
  destruct (Z.eqb_spec x 0) as [->|]; [|done]. exfalso. apply (Ht 0); [|done]. cbn [rev]. by rewrite last_snoc.
Qed.
Lemma take_zeros n l : trimmed (rev l) -> length (take_while is_zero (replicate n 0 ++ l)) = n.
Proof.
  intros Ht. induction n as [|n IH]; [|cbn; by rewrite IH]. cbn [replicate app]. destruct l as [|x l]; [done|]. cbn [take_while].
  destruct (Z.eqb_spec x 0) as [->|]; [|done]. exfalso. apply (Ht 0); [|done]. cbn [rev]. by rewrite last_snoc.
Qed.

Lemma take_ones ds s :
  Forall digit58 ds -> to_chars ds = Ok s ->
  length (take_while (fun x => x =? hd 0 BASE58_CHARS) s) = length (take_while is_zero ds).
Proof.
  change (hd 0 BASE58_CHARS) with 49. intros Hds. revert s. induction Hds as [|d ds Hd Hds IH]; intros s Hs; [by injection Hs as <-|].
  destruct (to_chars_cons d ds s Hd Hs) as (ch & rest & -> & Hrest & _ & _ & E). cbn [take_while]. rewrite E.
  destruct (d =? 0); [|done]. cbn [length]. by rewrite (IH rest).
Qed.

(** The decoding of the characters of some digits. *)
Lemma from_exact ds s :
  Forall digit58 ds -> to_chars ds = Ok s ->
  exists sc, Forall is_byte sc /\ digits256 (rev sc) = digits58 (rev ds)
    /\ from s = Ok (replicate (length (take_while is_zero ds)) 0 ++ skip_while is_zero sc).
Proof.
  intros Hds Hs. destruct (to_chars_total ds Hds) as (s0 & E0 & Hl). rewrite Hs in E0. injection E0 as <-.
  set (room := (1 + length s * 11 / 15)%nat). set (sc0 := replicate room 0).
  assert (digits256 (rev sc0) = 0) as Hz by (unfold sc0; rewrite rev_zeros; apply (number_zeros 256 [])).
  destruct (decode_exact ds s sc0 Hds Hs) as (sc & E & _ & Hb & Hn).
  { apply Forall_replicate. unfold is_byte. lia. }
  { rewrite Hz. unfold sc0. rewrite length_replicate. unfold room. rewrite Hl. pose proof (decode_room (length ds)). lia. }
  exists sc. split_and!; [done|lia|]. unfold from. fold room sc0. rewrite E. cbn [bind]. do 2 f_equal.
  rewrite <- (take_ones ds s Hds Hs). set (l := take_while _ s). clearbody l. induction l as [|x l IHl]; [done|]. cbn [map length replicate]. by f_equal.
Qed.

(** ** Encoding *)
Lemma push_carry_exact fuel c l :
  0 <= c <= Z.of_nat fuel -> Forall digit58 l ->
  let r := push_carry fuel c l in
  Forall digit58 r /\ digits58 r = digits58 l + 58 ^ Z.of_nat (length l) * c /\ (0 < c -> trimmed r) /\ (c = 0 -> r = l).
Proof.
  revert c l. induction fuel as [|fuel IH]; intros c l Hc Hl; cbv zeta; cbn [push_carry].
  { split_and!; [done|nia|lia|done]. }
  destruct (Z.gtb_spec c 0) as [Hpos|]; [|split_and!; [done|nia|lia|done]].
  pose proof (Z.div_mod c 58 ltac:(lia)) as Hdm. pose proof (Z.mod_pos_bound c 58 ltac:(lia)) as Hmod.
  assert (Forall digit58 (l ++ [c mod 58])) as Hl' by (apply Forall_app; split; [done|by apply Forall_singleton]).
  destruct (IH (c / 58) (l ++ [c mod 58])) as (Hd & Hn & Ht & H0); [nia|done|]. split_and!; [done| | |lia].
  - rewrite Hn, number_app, length_app by lia. rewrite number_cons. change (digits58 []) with 0. cbn [length].
    replace (Z.of_nat (length l + 1)) with (Z.succ (Z.of_nat (length l))) by lia. rewrite Z.pow_succ_r by lia. nia.
  - intros _. destruct (decide (c / 58 = 0)) as [E|E]; [|apply Ht; nia]. rewrite (H0 E). intros d. rewrite last_snoc. intros [= <-]. nia.
Qed.

Definition encodes (data : list Z) (e : encoder) : Prop :=
  Forall digit58 (e_ret e) /\ trimmed (e_ret e) /\ digits58 (e_ret e) = digits256 (rev data)
  /\ leading_zero_count e = length (take_while is_zero data) /\ leading_zeroes e = forallb is_zero data.

Lemma take_while_snoc l x :
  length (take_while is_zero (l ++ [x])) = (length (take_while is_zero l) + if forallb is_zero l && (x =? 0)%Z then 1 else 0)%nat.
Proof.
  induction l as [|y l IH]; [cbn; by destruct (x =? 0)|]. cbn [app take_while forallb]. destruct (y =? 0); [|done].
  cbn [length andb]. rewrite IH. lia.
Qed.

Lemma encode_step_exact data e x : is_byte x -> encodes data e -> encodes (data ++ [x]) (encode_step e x).
Proof.
  intros Hx (Hd & Ht & Hn & Hc & Hz). unfold encode_step. unfold is_byte in Hx.
  pose proof (mul_add_exact 58 ltac:(lia) 256 (e_ret e) x ltac:(lia) ltac:(lia) (digits_nonneg 58 _ Hd)) as Hm.
  destruct (mul_add 256 58 (e_ret e) x) as [l c]. destruct Hm as (Hl & Hdl & Hc0 & Hm).
  destruct (push_carry_exact (Z.to_nat c) c l ltac:(lia) Hdl) as (Hd' & Hn' & Ht' & H0').
  unfold encodes. cbn [e_ret leading_zero_count leading_zeroes]. split_and!.
  - done.
  - destruct (decide (c = 0)) as [->|Hne]; [|apply Ht'; lia]. rewrite (H0' eq_refl).
    destruct (e_ret e) as [|d l0] eqn:El; [by destruct l|]. exfalso. pose proof (number_bound 58 ltac:(lia) l Hdl) as Hb. rewrite Hl in Hb.
    assert (exists k y, d :: l0 = k ++ [y]) as (k & y & Ek) by (destruct (exists_last (l := d :: l0)) as (k & y & ?); eauto).
    rewrite Ek in *. apply Forall_app in Hd as [Hk Hy]. apply Forall_singleton in Hy. unfold is_digit in Hy.
    assert (y <> 0) by (apply Ht; by rewrite last_snoc). pose proof (number_bound 58 ltac:(lia) k Hk) as Hbk.
    rewrite (number_app 58) in Hm. rewrite number_cons in Hm. change (digits58 []) with 0 in Hm. rewrite length_app in *. cbn [length] in *.
    replace (Z.of_nat (length k + 1)) with (Z.succ (Z.of_nat (length k))) in * by lia. rewrite Z.pow_succ_r in * by lia. nia.
  - rewrite Hn', rev_app_distr. cbn [rev app]. rewrite number_cons, Hl, <- Hn. lia.
  - rewrite take_while_snoc, <- Hz, <- Hc. destruct (leading_zeroes e && (x =? 0)); lia.
  - rewrite forallb_app. cbn [forallb]. by rewrite andb_true_r, Hz.
Qed.

Lemma encode_exact data : Forall is_byte data -> encodes data (foldl encode_step (mkEncoder [] 0 true) data).
Proof.
  intros Hd. induction data as [|x data IH] using rev_ind; [by split_and!|]. apply Forall_app in Hd as [Hd Hx]. rewrite Forall_singleton in Hx.
  rewrite foldl_app. cbn [foldl]. apply encode_step_exact; [done|by apply IH].
Qed.

(** Encoding gives the digits of the number, after as many zeros as there were. *)
Lemma encode_iter_exact data :
  Forall is_byte data ->
  exists ds, Forall digit58 ds /\ trimmed (rev ds) /\ digits58 (rev ds) = digits256 (rev data)
    /\ encode_iter data = to_chars (replicate (length (take_while is_zero data)) 0 ++ ds).
Proof.
  intros Hb. destruct (encode_exact data Hb) as (Hd & Ht & Hn & Hc & _). set (e := foldl _ _ _) in *.
  exists (rev (e_ret e)). rewrite rev_involutive. split_and!; [by apply Forall_rev|done..|].
  unfold encode_iter. fold e. by rewrite rev_app_distr, rev_zeros, Hc.
Qed.

Lemma zeros_digits n ds : Forall digit58 ds -> Forall digit58 (replicate n 0 ++ ds).
Proof. intros Hd. apply Forall_app. split; [apply Forall_replicate; unfold is_digit; lia|done]. Qed.

(** Every byte string is the decoding of its encoding. *)
Lemma decode_encode data : Forall is_byte data -> exists s, encode_iter data = Ok s /\ from s = Ok data.
Proof.
  intros Hb. destruct (encode_iter_exact data Hb) as (ds & Hd & Ht & Hn & ->).
  set (zs := length (take_while is_zero data)). pose proof (zeros_digits zs ds Hd) as Hzd.
  destruct (to_chars_total _ Hzd) as (s & Es & _). exists s. split; [done|].
  destruct (from_exact _ s Hzd Es) as (sc & Hsc & Hnum & ->). f_equal. rewrite take_zeros by done.
  rewrite (zeros_split data) at 1. fold zs. f_equal. apply rev_eq. apply (trimmed_inj 256); [lia|..].
  - apply Forall_rev, skip_digits, Hsc.
  - apply Forall_rev, skip_digits, Hb.
  - apply skip_trimmed.
  - apply skip_trimmed.
  - rewrite !skip_number by lia. rewrite Hnum, <- Hn, rev_app_distr, rev_zeros. apply number_zeros.
Qed.

(** What decodes is made of characters of the alphabet. *)
Lemma decode_chars s sc sc' :
  Forall (fun ch => 0 <= ch) s -> foldM decode_step s sc = Ok sc' -> exists ds, Forall digit58 ds /\ to_chars ds = Ok s.
Proof.
  intros Hs. revert sc. induction Hs as [|ch s Hch _ IH]; intros sc; [by exists []|]. cbn [foldM]. intros He.
  apply bind_Ok_inv in He as (sc1 & H1 & H2). destruct (IH sc1 H2) as (ds & Hds & Eds).
  unfold decode_step in H1. destruct (ch >? 128); [done|]. destruct (BASE58_DIGITS !! Z.to_nat ch) as [[d|]|] eqn:Ed; [|done..].
  destruct (digits_chars ch d Hch Ed) as [Hd Ec]. exists (d :: ds). split; [by constructor|]. cbn [to_chars]. unfold to_char.
  by rewrite Ec, Eds.
Qed.

Lemma encode_decode s data :
  Forall (fun ch => 0 <= ch) s -> from s = Ok data -> Forall is_byte data /\ encode_iter data = Ok s.
Proof.
  intros Hs Hf. assert (exists ds, Forall digit58 ds /\ to_chars ds = Ok s) as (ds & Hds & Eds).
  { unfold from in Hf. apply bind_Ok_inv in Hf as (sc & Hsc & _). by eapply decode_chars. }
  destruct (from_exact ds s Hds Eds) as (sc & Hsc & Hnum & E). rewrite Hf in E. injection E as E.
  set (zs := length (take_while is_zero ds)) in *.
  assert (Forall is_byte data) as Hb.
  { rewrite E. apply Forall_app. split; [apply Forall_replicate; unfold is_byte; lia|apply (skip_digits 256), Hsc]. }
  split; [done|]. destruct (encode_iter_exact data Hb) as (es & He & Ht & Hn & ->). rewrite <- Eds. f_equal.
  rewrite E at 1. rewrite take_zeros by apply skip_trimmed. rewrite (zeros_split ds) at 1. fold zs. f_equal. apply rev_eq.
  apply (trimmed_inj 58); [lia|by apply Forall_rev|apply Forall_rev, (skip_digits 58), Hds|done|apply skip_trimmed|].
  rewrite skip_number by lia. rewrite Hn, E, rev_app_distr, rev_zeros, number_zeros, skip_number by lia. done.
Qed.

(** ** Checksums *)
Section Checked.
Context (sha256 : list Z -> array 32).
#[local] Abbreviation checksum data := (take 4 (bytes (sha256d_hash sha256 data))).

Lemma low_u32 (h : array 32) : into_le_low_u32 h = digits256 (take 4 (bytes h)).
Proof.
  unfold into_le_low_u32. destruct (array_bytes_ok h) as [Hl Hb]. set (l := bytes h) in *. change le_value with digits256.
  assert (Forall (is_digit 256) (take 4 l)) as H4 by (by apply Forall_take).
  replace (take 8 l) with (take 4 l ++ take 4 (drop 4 l)) by (apply (take_take_drop l 4 4)).
  rewrite number_app, length_take_le by lia. pose proof (number_bound 256 ltac:(lia) _ H4) as Hn. rewrite length_take_le in Hn by lia.
  change (256 ^ Z.of_nat 4) with (2 ^ 32) in *. rewrite (Z.mul_comm (2 ^ 32)), Z_mod_plus_full. by apply Z.mod_small.
Qed.

Lemma checksum_ok data : length (checksum data) = 4%nat /\ Forall is_byte (checksum data).
Proof.
  destruct (array_bytes_ok (sha256d_hash sha256 data)) as [Hl Hb]. split; [rewrite length_take_le; lia|by apply Forall_take].
Qed.

(** C40. Base 58 with a checksum is exact: every byte string has an encoding, and what the
    decoder accepts as an encoding of a byte string is exactly that encoding; in particular
    encoding and decoding gives the bytes back, and no second spelling is accepted. *)
Theorem base58_check_exact s data :
  Forall is_byte s ->
  (Forall is_byte data -> exists s', check_encode_slice sha256 data = Ok s')
  /\ (from_check sha256 s = Ok data <-> Forall is_byte data /\ check_encode_slice sha256 data = Ok s).
Proof.
  intros Hs. assert (Forall (fun ch => 0 <= ch) s) as Hs' by (eapply Forall_impl; [exact Hs|]; unfold is_byte; cbv beta; lia).
  destruct (checksum_ok data) as [Hl Hc]. split.
  { intros Hd. destruct (decode_encode (data ++ checksum data)) as (s' & E & _); [by apply Forall_app|]. by exists s'. }
  unfold from_check, check_encode_slice. split.
  - intros Hf. apply bind_Ok_inv in Hf as (body & Hb & Hf). destruct (encode_decode s body Hs' Hb) as [Hbytes He].
    destruct (Nat.ltb_spec (length body) 4) as [|Hlen]; [done|]. cbv zeta in Hf. set (n := (length body - 4)%nat) in *.
    destruct (Z.eqb_spec (into_le_low_u32 (sha256d_hash sha256 (take n body))) (le_value (drop n body))) as [E|]; [|done].
    injection Hf as <-. split; [by apply Forall_take|].
    destruct (checksum_ok (take n body)) as [Hl' Hc']. rewrite low_u32 in E. change le_value with digits256 in E.
    apply (number_inj 256) in E; [|lia|done|by apply Forall_drop|rewrite Hl', length_drop; lia].
    by rewrite E, take_drop.
  - intros [Hd He]. destruct (decode_encode (data ++ checksum data)) as (s' & E & Hf); [by apply Forall_app|].
    rewrite He in E. injection E as <-. rewrite Hf. cbn [bind]. rewrite length_app, Hl.
    destruct (Nat.ltb_spec (length data + 4) 4); [lia|]. cbv zeta. replace (length data + 4 - 4)%nat with (length data) by lia.
    rewrite take_app_length, drop_app_length, low_u32. change le_value with digits256. by rewrite Z.eqb_refl.
Qed.
End Checked.

(** ** No panic on text *)
Definition in_alphabet (ch : Z) : Prop := exists d, BASE58_DIGITS !! Z.to_nat ch = Some (Some d).

Lemma alphabet_digits s :
  Forall is_byte s -> Forall in_alphabet s -> exists ds, Forall digit58 ds /\ to_chars ds = Ok s /\ length ds = length s.
Proof.
  intros Hs. induction Hs as [|ch s Hch _ IH]; intros Ha; [by exists []|]. apply Forall_cons in Ha as [[d Hd] Ha].
  destruct (IH Ha) as (ds & Hds & E & Hl). destruct (digits_chars ch d (proj1 Hch) Hd) as [Hd58 Ec].
  exists (d :: ds). split_and!; [by constructor| |by cbn; rewrite Hl]. cbn [to_chars]. unfold to_char. by rewrite Ec, E.
Qed.

Lemma alphabet_split s :
  Forall is_byte s -> Forall in_alphabet s \/ exists pre ch post, s = pre ++ ch :: post /\ Forall in_alphabet pre /\ ~ in_alphabet ch.
Proof.
  induction 1 as [|ch s Hch _ IH]; [by left|].
  assert (in_alphabet ch \/ ~ in_alphabet ch) as [Hin|Hout].
  { unfold in_alphabet. destruct (BASE58_DIGITS !! Z.to_nat ch) as [[d|]|]; [left; by exists d|right; by intros [? ?]..]. }
  - destruct IH as [Ha|(pre & x & post & -> & Hp & Hx)]; [left; by constructor|]. right. exists (ch :: pre), x, post.
    split_and!; [done|by constructor|done].
  - right. by exists [], ch, s.
Qed.

(** In UTF-8 a byte 128 comes after one above it: the decoder has stopped by then, and never
    reads outside its table nor runs out of room. *)
Lemma from_no_panic s :
  Forall is_byte s -> (forall pre post, s = pre ++ 128 :: post -> exists x, x ∈ pre /\ 128 < x) -> from s <> Panic.
Proof.
  intros Hs Hu. destruct (alphabet_split s Hs) as [Ha|(pre & ch & post & E & Hp & Hx)].
  { destruct (alphabet_digits s Hs Ha) as (ds & Hds & Eds & _). destruct (from_exact ds s Hds Eds) as (sc & _ & _ & ->). done. }
  rewrite E in Hs. apply Forall_app in Hs as [Hpre Hs]. apply Forall_cons in Hs as [Hch _].
  destruct (alphabet_digits pre Hpre Hp) as (ds & Hds & Eds & Hl). unfold from. rewrite E at 1. rewrite foldM_app.
  set (sc0 := replicate (1 + length s * 11 / 15) 0).
  assert (digits256 (rev sc0) = 0) as Hz by (unfold sc0; rewrite rev_zeros; apply (number_zeros 256 [])).
  destruct (decode_exact ds pre sc0 Hds Eds) as (sc & -> & _).
  { apply Forall_replicate. unfold is_byte. lia. }
  { rewrite Hz. unfold sc0. rewrite length_replicate. etransitivity; [|apply decode_room]. rewrite Z.mul_1_l.
    apply Z.pow_le_mono_r; [lia|]. rewrite E, length_app, Hl. lia. }
  cbn [bind foldM]. unfold decode_step at 1. destruct (Z.gtb_spec ch 128) as [|Hle]; [done|]. unfold is_byte in Hch.
  destruct (BASE58_DIGITS !! Z.to_nat ch) as [[d|]|] eqn:Ed; [by destruct Hx; exists d|done|]. exfalso.
  apply lookup_ge_None in Ed. change (length BASE58_DIGITS) with 128%nat in Ed. assert (ch = 128) as -> by lia.
  destruct (Hu pre post E) as (x & Hin & Hgt). rewrite Forall_forall in Hp. destruct (Hp x Hin) as [d Hd].
  apply lookup_lt_Some in Hd. change (length BASE58_DIGITS) with 128%nat in Hd. lia.
Qed.

(** A byte 128 by itself is let through by the test of the decoder and is out of its table. *)
Example byte_128_panics : from [128] = Panic.
Proof. reflexivity. Qed.

Definition short_sum (data : list Z) : array 32 := from_vec [Z.of_nat (length data); 7; 9; 200].
Definition written_out : list Z := match check_encode_slice short_sum [0; 0; 3; 39] with Ok s => s | _ => [] end.

Lemma base58_check_exact_witness :
  (Forall is_byte [0; 0; 3; 39] -> exists s', check_encode_slice short_sum [0; 0; 3; 39] = Ok s')
  /\ (from_check short_sum written_out = Ok [0; 0; 3; 39]
      <-> Forall is_byte [0; 0; 3; 39] /\ check_encode_slice short_sum [0; 0; 3; 39] = Ok written_out).
Proof. apply base58_check_exact. vm_decide. Defined.
