(* ===== verification/MnemonicTheory.v ===== *)
(** * Mnemonics are exact

    Bits at places of a list of words; then: entropy becomes a mnemonic that becomes the same
    entropy, and a mnemonic that is accepted is, up to its spacing, the one of its entropy. *)
From Stdlib Require Import String.
From S2P Require Import Prelude Ser Mnemonic.

(** ** Bits of a list of numbers *)
Lemma bit_set_testbit x i : 0 <= i -> bit_set x i = Z.testbit x i.
Proof.
  intros Hi. unfold bit_set. destruct (Z.testbit x i) eqn:E.
  - apply negb_true_iff, Z.eqb_neq. intros Hz. assert (Z.testbit (Z.land x (Z.shiftl 1 i)) i = true) as Ht; [|by rewrite Hz, Z.bits_0 in Ht].
    rewrite Z.land_spec, E, Z.shiftl_spec, Z.sub_diag by lia. done.
  - apply negb_false_iff, Z.eqb_eq. apply Z.bits_inj'. intros n Hn. rewrite Z.land_spec, Z.bits_0, Z.shiftl_spec by lia.
    destruct (decide (n = i)) as [->|]; [by rewrite E|]. destruct (Z.lt_total n i) as [?|[?|?]]; [|done|].
    + rewrite (Z.testbit_neg_r 1) by lia. by rewrite andb_false_r.
    + rewrite (Z.bits_above_log2 1) by (cbn; lia). by rewrite andb_false_r.
Qed.

Lemma high_bit x w j : 0 <= x < 2 ^ w -> 0 <= w <= j -> Z.testbit x j = false.
Proof.
  intros Hx Hj. apply Z.testbit_false; [lia|]. pose proof (Z.pow_le_mono_r 2 w j). by rewrite Z.div_small by lia.
Qed.

Definition bit_at (v : list Z) (p : Z * Z) : bool := Z.testbit (v !!! Z.to_nat p.1) p.2.
Definition valid_place (n : nat) (p : Z * Z) : Prop := 0 <= p.1 < Z.of_nat n /\ 0 <= p.2.

Lemma or_bit_exact v p b :
  valid_place (length v) p ->
  exists v', or_bit v p.1 p.2 b = Ok v' /\ length v' = length v
    /\ forall q, 0 <= q.1 -> bit_at v' q = if decide (q = p) then bit_at v q || b else bit_at v q.
Proof.
  destruct p as [i s]. intros [[H0 Hl] Hs]. cbn [fst snd] in *. unfold or_bit. destruct (Z.ltb_spec i 0); [lia|].
  destruct (lookup_lt_is_Some_2 v (Z.to_nat i)) as [x Hx]; [lia|]. rewrite Hx. cbn [unwrap bind]. eexists. split; [reflexivity|].
  split; [by rewrite length_insert|]. intros [j k] Hq. cbn [fst snd] in *. unfold bit_at. cbn [fst snd].
  destruct (decide (j = i)) as [->|Hne].
  - rewrite list_lookup_total_insert_eq by lia. rewrite (list_lookup_total_correct v _ x Hx), Z.lor_spec.
    case_decide as Hd.
    + injection Hd as ->. f_equal. rewrite Z.shiftl_spec, Z.sub_diag by lia. by destruct b.
    + assert (Z.testbit (Z.shiftl (Z.b2z b) s) k = false) as ->; [|by rewrite orb_false_r].
      destruct (Z_lt_le_dec k 0); [by apply Z.testbit_neg_r|]. rewrite Z.shiftl_spec by lia.
      destruct (Z_lt_le_dec (k - s) 0); [by apply Z.testbit_neg_r|]. apply Z.testbit_false; [lia|].
      rewrite Z.div_small; [done|]. assert (k - s <> 0) by (intros E; apply Hd; f_equal; lia).
      pose proof (Z.pow_le_mono_r 2 1 (k - s)). destruct b; cbn [Z.b2z]; lia.
  - rewrite list_lookup_total_insert_ne by lia. rewrite decide_False by congruence. done.
Qed.

(** One bit after the other, each at its own place. *)
Definition put (place : Z -> Z * Z) (st : list Z * Z) (b : bool) : outcome mnemonic_error (list Z * Z) :=
  let? v := or_bit st.1 (place st.2).1 (place st.2).2 b in Ok (v, st.2 + 1).

Definition bits_of (positions : list Z) (xs : list Z) : list bool := flat_map (fun x => map (bit_set x) positions) xs.

Lemma or_bits_put place positions st x : or_bits place positions st x = foldM (put place) (map (bit_set x) positions) st.
Proof.
  unfold or_bits. revert st. induction positions as [|i ps IH]; intros st; [done|]. cbn [foldM map]. unfold put at 1.
  destruct (or_bit _ _ _ _); cbn [bind]; [apply IH|done..].
Qed.
Lemma or_bits_all place positions xs st : foldM (or_bits place positions) xs st = foldM (put place) (bits_of positions xs) st.
Proof.
  revert st. induction xs as [|x xs IH]; intros st; [done|]. cbn [foldM]. unfold bits_of. cbn [flat_map].
  rewrite foldM_app, or_bits_put. destruct (foldM _ _ st); cbn [bind]; [apply IH|done..].
Qed.

Lemma put_all_exact place bs : forall loc v,
  (forall k, loc <= k < loc + Z.of_nat (length bs) -> valid_place (length v) (place k)) ->
  (forall k k', loc <= k < loc + Z.of_nat (length bs) -> loc <= k' < loc + Z.of_nat (length bs) -> place k = place k' -> k = k') ->
  exists v', foldM (put place) bs (v, loc) = Ok (v', loc + Z.of_nat (length bs)) /\ length v' = length v
    /\ (forall k, loc <= k < loc + Z.of_nat (length bs) -> bit_at v' (place k) = bit_at v (place k) || bs !!! Z.to_nat (k - loc))
    /\ (forall q, 0 <= q.1 -> (forall k, loc <= k < loc + Z.of_nat (length bs) -> place k <> q) -> bit_at v' q = bit_at v q).
Proof.
  induction bs as [|b bs IH]; intros loc v Hv Hi; cbn [length] in *.
  { exists v. split_and!; [by rewrite Z.add_0_r|done|lia|done]. }
  destruct (or_bit_exact v (place loc) b (Hv loc ltac:(lia))) as (v1 & E1 & Hl1 & Hb1).
  destruct (IH (loc + 1) v1) as (v' & E' & Hl' & Hin & Hout).
  { intros k Hk. rewrite Hl1. apply Hv. lia. }
  { intros k k' Hk Hk'. apply Hi; lia. }
  exists v'. cbn [foldM]. unfold put at 1. cbn [fst snd]. rewrite E1. cbn [bind]. split_and!.
  - rewrite E'. do 2 f_equal. lia.
  - lia.
  - intros k Hk. pose proof (proj1 (Hv k Hk)) as Hpos. destruct (decide (k = loc)) as [->|Hne].
    + rewrite Hout, Hb1, decide_True by (done || lia || (intros k Hk' E; apply Hi in E; lia)). by rewrite Z.sub_diag.
    + rewrite Hin, Hb1 by lia. rewrite decide_False by (intros E; apply Hi in E; lia).
      replace (Z.to_nat (k - loc)) with (S (Z.to_nat (k - (loc + 1)))) by lia. done.
  - intros q Hq Hk. rewrite Hout, Hb1 by (done || (intros k Hk'; apply Hk; lia)).
    rewrite decide_False; [done|]. intros ->. apply (Hk loc); [lia|done].
Qed.

(** ** Places from the end *)
(** Bit [d] from the end of [n] numbers of [w] bits. *)
Definition from_end (w n d : Z) : Z * Z := (n - 1 - d / w, d mod w).

Lemma from_end_valid w n d : 0 < w -> 0 <= d < w * Z.of_nat n -> valid_place n (from_end w (Z.of_nat n) d).
Proof.
  intros Hw Hd. unfold valid_place, from_end. cbn [fst snd]. pose proof (Z.mod_pos_bound d w Hw).
  pose proof (Z.div_pos d w). pose proof (Z.div_lt_upper_bound d w (Z.of_nat n)). lia.
Qed.
Lemma from_end_inj w n d d' : 0 < w -> from_end w n d = from_end w n d' -> d = d'.
Proof.
  intros Hw. unfold from_end. intros [= H1 H2]. rewrite (Z.div_mod d w), (Z.div_mod d' w) by lia.
  assert (d / w = d' / w) as -> by lia. by rewrite H2.
Qed.
Lemma from_end_onto w n i j : 0 < w -> 0 <= j < w -> from_end w n (w * (n - 1 - i) + j) = (i, j).
Proof.
  intros Hw Hj. unfold from_end. rewrite Z.add_comm, (Z.mul_comm w). f_equal; [rewrite Z.div_add, Z.div_small by lia; lia|].
  rewrite Z_mod_plus_full. by apply Z.mod_small.
Qed.

Definition words_ok (w : Z) (v : list Z) : Prop := Forall (fun x => 0 <= x < 2 ^ w) v.

(** A list of words is determined by its bits. *)
Lemma words_ext w v v' :
  0 < w -> words_ok w v -> words_ok w v' -> length v = length v' ->
  (forall d, 0 <= d < w * Z.of_nat (length v) ->
    bit_at v (from_end w (Z.of_nat (length v)) d) = bit_at v' (from_end w (Z.of_nat (length v)) d)) -> v = v'.
Proof.
  intros Hw Hv Hv' Hl Hb. apply list_eq_same_length with (n := length v); [done|done|]. intros i x y Hi Hx Hy.
  unfold words_ok in *. rewrite Forall_lookup in Hv, Hv'. pose proof (Hv _ _ Hx) as Bx. pose proof (Hv' _ _ Hy) as By.
  apply Z.bits_inj'. intros j Hj. destruct (Z_lt_le_dec j w) as [Hlt|Hge].
  - specialize (Hb (w * (Z.of_nat (length v) - 1 - Z.of_nat i) + j) ltac:(nia)). rewrite from_end_onto in Hb by lia.
    unfold bit_at in Hb. cbn [fst snd] in Hb. rewrite Nat2Z.id in Hb.
    by rewrite (list_lookup_total_correct _ _ _ Hx), (list_lookup_total_correct _ _ _ Hy) in Hb.
  - pose proof (Z.pow_le_mono_r 2 w j ltac:(lia) Hge). rewrite (high_bit x w j), (high_bit y w j) by lia. done.
Qed.

Lemma bits_small x w : 0 <= w -> (forall j, w <= j -> Z.testbit x j = false) -> 0 <= x < 2 ^ w.
Proof.
  intros Hw Hx. assert (x = x mod 2 ^ w) as ->; [|apply Z.mod_pos_bound, Z.pow_pos_nonneg; lia].
  apply Z.bits_inj'. intros j Hj. destruct (Z_lt_le_dec j w); [by rewrite Z.mod_pow2_bits_low|].
  by rewrite Z.mod_pow2_bits_high, Hx by lia.
Qed.
Lemma words_small w v : 0 <= w -> (forall i j, 0 <= i < Z.of_nat (length v) -> w <= j -> bit_at v (i, j) = false) -> words_ok w v.
Proof.
  intros Hw Hv. apply Forall_lookup. intros i x Hx. apply bits_small; [done|]. intros j Hj.
  pose proof (lookup_lt_Some _ _ _ Hx). specialize (Hv (Z.of_nat i) j ltac:(lia) Hj). unfold bit_at in Hv. cbn [fst snd] in Hv. rewrite Nat2Z.id in Hv.
  by rewrite (list_lookup_total_correct _ _ _ Hx) in Hv.
Qed.
Lemma zeros_bit n p : valid_place n p -> bit_at (replicate n 0) p = false.
Proof. intros [Hp _]. unfold bit_at. rewrite lookup_total_replicate_2 by lia. apply Z.bits_0. Qed.

(** ** The bits that the loops go through *)
Lemma length_bits_of ps xs : length (bits_of ps xs) = (length ps * length xs)%nat.
Proof.
  unfold bits_of. induction xs as [|x xs IH]; [cbn; lia|]. cbn [flat_map length]. rewrite length_app, length_map, IH. lia.
Qed.

Lemma bits_of_lookup ps xs k :
  (0 < length ps)%nat -> (k < length ps * length xs)%nat ->
  bits_of ps xs !!! k = bit_set (xs !!! (k / length ps)%nat) (ps !!! (k mod length ps)%nat).
Proof.
  intros Hp. revert k. induction xs as [|x xs IH]; intros k Hk; cbn [length] in Hk; [lia|].
  unfold bits_of. cbn [flat_map]. destruct (Nat.lt_ge_cases k (length ps)) as [Hlt|Hge].
  - rewrite lookup_total_app_l by (by rewrite length_map). rewrite Nat.div_small, Nat.mod_small by done.
    destruct (lookup_lt_is_Some_2 ps k Hlt) as [y Hy]. rewrite (list_lookup_total_correct ps k y Hy).
    apply list_lookup_total_correct. change (map (bit_set x) ps) with (bit_set x <$> ps). by rewrite list_lookup_fmap, Hy.
  - rewrite lookup_total_app_r by (by rewrite length_map). rewrite length_map. fold (bits_of ps xs).
    rewrite (IH (k - length ps)%nat) by lia.
    replace k with ((k - length ps) + 1 * length ps)%nat at 3 4 by lia. rewrite Nat.div_add, Nat.Div0.mod_add by lia.
    replace ((k - length ps) / length ps + 1)%nat with (S ((k - length ps) / length ps)) by lia. done.
Qed.

Lemma seqZ_total n m : (m < n)%nat -> seqZ 0 (Z.of_nat n) !!! m = Z.of_nat m.
Proof. intros Hm. apply list_lookup_total_correct. rewrite lookup_seqZ. split; lia. Qed.
Lemma reverse_total (l : list Z) m : (m < length l)%nat -> reverse l !!! m = l !!! (length l - S m)%nat.
Proof. intros Hm. by rewrite !list_lookup_total_alt, reverse_lookup by done. Qed.

(** ** Entropy to indexes *)
Abbreviation index_place := (fun loc : Z => (loc / 11, 10 - loc mod 11)).

Lemma index_place_end n loc : index_place loc = from_end 11 n (11 * n - 1 - loc).
Proof.
  unfold from_end. pose proof (Z.div_mod loc 11 ltac:(lia)) as Hd. pose proof (Z.mod_pos_bound loc 11 ltac:(lia)) as Hm.
  set (q := loc / 11) in *. set (r := loc mod 11) in *. clearbody q r.
  replace (11 * n - 1 - loc) with (10 - r + (n - 1 - q) * 11) by lia. rewrite Z.div_add, Z.div_small, Z_mod_plus_full, Z.mod_small by lia. f_equal. lia.
Qed.

Lemma entropy_bits e k :
  0 <= k < 8 * Z.of_nat (length e) ->
  bits_of (reverse (seqZ 0 8)) e !!! Z.to_nat k = bit_at e (from_end 8 (Z.of_nat (length e)) (8 * Z.of_nat (length e) - 1 - k)).
Proof.
  intros Hk. assert (length (reverse (seqZ 0 8)) = 8%nat) as Hl by done. rewrite bits_of_lookup by (rewrite ?Hl; lia). rewrite Hl.
  pose proof (Z.div_mod k 8 ltac:(lia)) as Hd. pose proof (Z.mod_pos_bound k 8 ltac:(lia)) as Hm.
  assert (Z.to_nat k / 8 = Z.to_nat (k / 8))%nat as -> by (rewrite Z2Nat.inj_div by lia; done).
  assert (Z.to_nat k mod 8 = Z.to_nat (k mod 8))%nat as -> by (rewrite Z2Nat.inj_mod by lia; done).
  rewrite reverse_total by (change (length (seqZ 0 8)) with 8%nat; lia). change (length (seqZ 0 8)) with 8%nat. rewrite (seqZ_total 8) by lia.
  rewrite bit_set_testbit by lia. unfold bit_at, from_end. cbn [fst snd].
  set (q := k / 8) in *. set (r := k mod 8) in *. clearbody q r.
  replace (8 * Z.of_nat (length e) - 1 - k) with (7 - r + (Z.of_nat (length e) - 1 - q) * 8) by lia.
  rewrite Z.div_add, Z.div_small, Z_mod_plus_full, Z.mod_small by lia. f_equal; [f_equal; lia|lia].
Qed.

Lemma checksum_bits_lookup cb cs k :
  0 <= k < cb -> map (bit_set cs) (reverse (seqZ 0 cb)) !!! Z.to_nat k = Z.testbit cs (cb - 1 - k).
Proof.
  intros Hk. apply list_lookup_total_correct. change (map (bit_set cs)) with (fmap (M := list) (bit_set cs)).
  rewrite list_lookup_fmap, reverse_lookup by (rewrite length_seqZ; lia). rewrite length_seqZ.
  rewrite (proj2 (lookup_seqZ 0 cb _ (cb - 1 - k))) by lia. cbn. by rewrite bit_set_testbit by lia.
Qed.

Lemma entropy_to_indexes cb e cs :
  4 <= cb <= 8 -> Z.of_nat (length e) = 4 * cb -> 0 <= cs < 2 ^ cb ->
  exists idx,
    (let? r := foldM (or_bits index_place (reverse (seqZ 0 8))) e (replicate (Z.to_nat (3 * cb)) 0, 0) in
     or_bits index_place (reverse (seqZ 0 cb)) r cs) = Ok (idx, 33 * cb)
    /\ Z.of_nat (length idx) = 3 * cb /\ words_ok 11 idx
    /\ (forall d, 0 <= d < 33 * cb ->
         bit_at idx (from_end 11 (3 * cb) d) = if d <? cb then Z.testbit cs d else bit_at e (from_end 8 (4 * cb) (d - cb))).
Proof.
  intros Hcb Hl Hcs. set (v0 := replicate (Z.to_nat (3 * cb)) 0).
  assert (length v0 = Z.to_nat (3 * cb)) as Hv0 by apply length_replicate.
  set (bs := bits_of (reverse (seqZ 0 8)) e ++ map (bit_set cs) (reverse (seqZ 0 cb))).
  assert (Z.of_nat (length (bits_of (reverse (seqZ 0 8)) e)) = 32 * cb) as Hbe.
  { rewrite length_bits_of. change (length (reverse (seqZ 0 8))) with 8%nat. lia. }
  assert (Z.of_nat (length bs) = 33 * cb) as Hbs.
  { unfold bs. rewrite length_app, length_map, length_reverse, length_seqZ. lia. }
  destruct (put_all_exact index_place bs 0 v0) as (idx & E & Hidx & Hin & Hout).
  { intros k Hk. rewrite (index_place_end (3 * cb)). replace (3 * cb) with (Z.of_nat (length v0)) at 1 by lia.
    apply from_end_valid; lia. }
  { intros k k' _ _. rewrite !(index_place_end (3 * cb)). intros Heq. apply from_end_inj in Heq; lia. }
  exists idx. split_and!.
  - rewrite or_bits_all. rewrite Z.add_0_l, Hbs in E. unfold bs in E. rewrite foldM_app in E. rewrite <- E.
    destruct (foldM _ _ (v0, 0)); cbn [bind]; [by rewrite or_bits_put|done..].
  - lia.
  - apply words_small; [lia|]. intros i j Hi Hj. rewrite Hout; [apply zeros_bit; split; cbn; lia|cbn; lia|].
    intros k _ [= _ Hk]. pose proof (Z.mod_pos_bound k 11). lia.
  - intros d Hd. specialize (Hin (33 * cb - 1 - d) ltac:(lia)). rewrite (index_place_end (3 * cb)) in Hin.
    replace (11 * (3 * cb) - 1 - (33 * cb - 1 - d)) with d in Hin by lia. rewrite Hin.
    assert (bit_at v0 (from_end 11 (3 * cb) d) = false) as ->.
    { apply zeros_bit. replace (3 * cb) with (Z.of_nat (Z.to_nat (3 * cb))) at 2 by lia. apply from_end_valid; lia. }
    cbn [orb]. rewrite Z.sub_0_r. unfold bs. destruct (Z.ltb_spec d cb) as [Hlt|Hge].
    + rewrite lookup_total_app_r by lia. replace (Z.to_nat (33 * cb - 1 - d) - length (bits_of (reverse (seqZ 0 8)) e))%nat
        with (Z.to_nat (cb - 1 - d)) by lia. rewrite checksum_bits_lookup by lia. f_equal. lia.
    + rewrite lookup_total_app_l by lia. rewrite entropy_bits by lia. rewrite Hl. do 2 f_equal. lia.
Qed.

(** ** Indexes to entropy *)
Lemma entropy_place_end n loc : (n - 1 - loc / 8, loc mod 8) = from_end 8 n loc.
Proof. done. Qed.

Lemma index_bits idx final k :
  0 <= k < 11 * Z.of_nat (length idx) ->
  bits_of (seqZ 0 11) (reverse idx) !!! Z.to_nat k = bit_at (idx ++ [final]) (from_end 11 (Z.of_nat (length idx) + 1) (k + 11)).
Proof.
  intros Hk. assert (length (seqZ 0 11) = 11%nat) as Hl by done. rewrite bits_of_lookup by (rewrite ?length_reverse, ?Hl; lia). rewrite Hl.
  pose proof (Z.div_mod k 11 ltac:(lia)) as Hd. pose proof (Z.mod_pos_bound k 11 ltac:(lia)) as Hm.
  assert (Z.to_nat k / 11 = Z.to_nat (k / 11))%nat as -> by (rewrite Z2Nat.inj_div by lia; done).
  assert (Z.to_nat k mod 11 = Z.to_nat (k mod 11))%nat as -> by (rewrite Z2Nat.inj_mod by lia; done).
  unfold bit_at, from_end. cbn [fst snd]. set (q := k / 11) in *. set (r := k mod 11) in *. clearbody q r.
  rewrite (seqZ_total 11) by lia. rewrite bit_set_testbit by lia. rewrite reverse_total by lia.
  replace (k + 11) with (r + (q + 1) * 11) by lia. rewrite Z.div_add, Z.div_small, Z_mod_plus_full, Z.mod_small by lia.
  rewrite lookup_total_app_l by lia. f_equal; [f_equal; lia|lia].
Qed.

(** The part of the last word that is not the checksum. *)
Lemma final_bits n final cb d p :
  4 <= cb <= 8 -> 0 <= final < 2 ^ 11 -> p = from_end 8 (Z.of_nat n + 1) d -> 0 <= d < 8 * (Z.of_nat n + 1) ->
  bit_at (replicate n 0 ++ [Z.shiftr final cb mod 256]) p = if d <? 11 - cb then Z.testbit final (d + cb) else false.
Proof.
  intros Hcb Hf -> Hd. unfold bit_at, from_end. cbn [fst snd].
  pose proof (Z.div_mod d 8 ltac:(lia)) as Hdm. pose proof (Z.mod_pos_bound d 8 ltac:(lia)) as Hm.
  assert (Z.shiftr final cb mod 256 = Z.shiftr final cb) as ->.
  { apply Z.mod_small. rewrite Z.shiftr_div_pow2 by lia. split; [apply Z.div_pos; [lia|apply Z.pow_pos_nonneg; lia]|].
    apply Z.div_lt_upper_bound; [apply Z.pow_pos_nonneg; lia|]. pose proof (Z.pow_le_mono_r 2 4 cb). lia. }
  destruct (decide (d / 8 = 0)) as [E|E].
  - rewrite E. replace (Z.to_nat (Z.of_nat n + 1 - 1 - 0)) with n by lia.
    rewrite lookup_total_app_r by (rewrite length_replicate; lia). rewrite length_replicate, Nat.sub_diag.
    change ([Z.shiftr final cb] !!! 0%nat) with (Z.shiftr final cb). rewrite Z.shiftr_spec by lia. replace (d mod 8) with d by lia.
    destruct (Z.ltb_spec d (11 - cb)); [done|]. apply (high_bit _ 11); lia.
  - rewrite lookup_total_app_l by (rewrite length_replicate; lia). rewrite lookup_total_replicate_2, Z.bits_0 by lia.
    destruct (Z.ltb_spec d (11 - cb)); [lia|done].
Qed.

Lemma indexes_to_entropy cb idx final :
  4 <= cb <= 8 -> Z.of_nat (length idx) = 3 * cb - 1 -> words_ok 11 (idx ++ [final]) ->
  exists e,
    foldM (or_bits (fun loc => (4 * cb - 1 - loc / 8, loc mod 8)) (seqZ 0 11)) (reverse idx)
      (replicate (Z.to_nat (4 * cb - 1)) 0 ++ [Z.shiftr final cb mod 256], 11 - cb) = Ok (e, 32 * cb)
    /\ Z.of_nat (length e) = 4 * cb /\ words_ok 8 e
    /\ (forall d, 0 <= d < 32 * cb ->
         bit_at e (from_end 8 (4 * cb) d) = bit_at (idx ++ [final]) (from_end 11 (3 * cb) (d + cb))).
Proof.
  intros Hcb Hl Hw. assert (0 <= final < 2 ^ 11) as Hf by (apply Forall_app in Hw as [_ Hw]; by rewrite Forall_singleton in Hw).
  set (v0 := replicate (Z.to_nat (4 * cb - 1)) 0 ++ _).
  assert (Z.of_nat (length v0) = 4 * cb) as Hv0 by (unfold v0; rewrite length_app, length_replicate; cbn; lia).
  set (bs := bits_of (seqZ 0 11) (reverse idx)).
  assert (Z.of_nat (length bs) = 33 * cb - 11) as Hbs.
  { unfold bs. rewrite length_bits_of, length_reverse. change (length (seqZ 0 11)) with 11%nat. lia. }
  assert (forall d, 0 <= d < 32 * cb -> bit_at v0 (from_end 8 (4 * cb) d) = if d <? 11 - cb then Z.testbit final (d + cb) else false) as Hfin.
  { intros d Hd. apply final_bits; [done|done| |lia]. f_equal. lia. }
  destruct (put_all_exact (from_end 8 (4 * cb)) bs (11 - cb) v0) as (e & E & He & Hin & Hout).
  { intros k Hk. rewrite <- Hv0. apply from_end_valid; lia. }
  { intros k k' _ _ Heq. apply from_end_inj in Heq; lia. }
  exists e. split_and!.
  - rewrite or_bits_all. fold bs. replace (32 * cb) with (11 - cb + Z.of_nat (length bs)) by lia. exact E.
  - lia.
  - apply words_small; [lia|]. intros i j Hi Hj. rewrite Hout; [|cbn; lia|].
    + unfold bit_at. cbn [fst snd]. apply (high_bit _ 8); [|lia]. unfold v0.
      destruct (decide (Z.to_nat i < Z.to_nat (4 * cb - 1))%nat) as [Hlt|Hge].
      * rewrite lookup_total_app_l, lookup_total_replicate_2 by (rewrite ?length_replicate; lia). lia.
      * rewrite lookup_total_app_r by (rewrite length_replicate; lia).
        rewrite length_replicate. replace (Z.to_nat i - Z.to_nat (4 * cb - 1))%nat with 0%nat by lia.
        cbn [lookup_total list_lookup_total]. apply Z.mod_pos_bound. lia.
    + intros k _ [= _ Hk]. pose proof (Z.mod_pos_bound k 8). lia.
  - intros d Hd. destruct (Z_lt_le_dec d (11 - cb)) as [Hlt|Hge].
    + rewrite Hout; [|unfold from_end; cbn [fst]; pose proof (Z.div_le_upper_bound d 8 (4 * cb - 1)); lia|intros k Hk Heq; apply from_end_inj in Heq; lia].
      rewrite Hfin by lia. destruct (Z.ltb_spec d (11 - cb)); [|lia]. unfold bit_at, from_end. cbn [fst snd].
      rewrite Z.div_small, Z.mod_small by lia. replace (Z.to_nat (3 * cb - 1 - 0)) with (length idx + 0)%nat by lia.
      rewrite lookup_total_app_r by lia. by replace (length idx + 0 - length idx)%nat with 0%nat by lia.
    + rewrite Hin, Hfin by lia. destruct (Z.ltb_spec d (11 - cb)); [lia|]. cbn [orb]. unfold bs.
      rewrite (index_bits idx final) by lia. do 2 f_equal; lia.
Qed.

(** ** Words *)
Definition word_lt (a b : list Z) : Prop := lex_cmp a b = Lt.

Fixpoint increasing (l : list (list Z)) : bool :=
  match l with
  | a :: (b :: _) as rest => bool_decide (lex_cmp a b = Lt) && increasing rest
  | _ => true
  end.
Lemma increasing_sorted l : increasing l = true -> StronglySorted word_lt l.
Proof.
  intros Hi. apply Sorted_StronglySorted; [intros a b d; unfold word_lt; apply lex_cmp_trans|].
  induction l as [|a [|b l] IH]; [constructor|repeat constructor|]. cbn [increasing] in Hi. apply andb_true_iff in Hi as [H1 H2].
  constructor; [by apply IH|]. constructor. by apply bool_decide_eq_true in H1.
Qed.

Lemma words_sorted : StronglySorted word_lt WORDS.
Proof. apply increasing_sorted. vm_compute. reflexivity. Qed.
Lemma words_length : length WORDS = 2048%nat.
Proof. vm_compute. reflexivity. Qed.
Lemma words_plain : Forall (fun w => w <> [] /\ forallb (fun ch => negb (is_whitespace ch)) w = true) WORDS.
Proof.
  assert (forallb (fun w => negb (bool_decide (w = [])) && forallb (fun ch => negb (is_whitespace ch)) w) WORDS = true) as Ht
    by (vm_compute; reflexivity).
  apply Forall_forall. intros w Hw. apply list_elem_of_In in Hw. rewrite forallb_forall in Ht. specialize (Ht w Hw).
  apply andb_true_iff in Ht as [H1 H2]. split; [|done]. by apply negb_true_iff, bool_decide_eq_false in H1.
Qed.

Lemma words_order i j a b : (i < j)%nat -> WORDS !! i = Some a -> WORDS !! j = Some b -> word_lt a b.
Proof.
  revert i j. induction words_sorted as [|w l Hs IH Hw]; intros i j Hij Ha Hb; [done|].
  rewrite Forall_forall in Hw. destruct i, j; [lia| |lia|by eapply (IH i j); [lia|..]].
  injection Ha as <-. apply Hw. by eapply list_elem_of_lookup_2.
Qed.
Lemma word_lt_irrefl w : ~ word_lt w w.
Proof. unfold word_lt. assert (lex_cmp w w = Eq) as -> by (by apply lex_cmp_eq). done. Qed.

Lemma words_probe x : probe_sorted (fun w => lex_cmp w x) WORDS.
Proof.
  intros i j a b Hij Ha Hb. pose proof (words_order i j a b Hij Ha Hb) as Hlt.
  unfold word_lt in Hlt. split.
  - intros Hg. rewrite lex_cmp_opp in Hg. assert (lex_cmp x a = Lt) as Hx by (by destruct (lex_cmp x a)).
    rewrite lex_cmp_opp. by rewrite (lex_cmp_trans _ _ _ Hx Hlt).
  - intros Hl. by eapply lex_cmp_trans.
Qed.

Lemma search_exact w i : search w = Ok i <-> 0 <= i /\ WORDS !! Z.to_nat i = Some w.
Proof.
  unfold search. pose proof (binary_search_by_spec _ _ (words_probe w)) as Hs. destruct (binary_search_by _ _) as [k|k|]; [| |done].
  - destruct Hs as (a & Ha & E). apply lex_cmp_eq in E as ->. pose proof (lookup_lt_Some _ _ _ Ha) as Hk. rewrite words_length in Hk.
    rewrite Z.mod_small by lia. split.
    + intros [= <-]. split; [lia|]. by rewrite Nat2Z.id.
    + intros [H0 Hi]. f_equal. destruct (Nat.lt_total k (Z.to_nat i)) as [Hlt|[?|Hlt]]; [|lia|];
        exfalso; apply (word_lt_irrefl w); by eapply words_order.
  - split; [done|]. intros [H0 Hi]. exfalso. destruct Hs as [_ Hs]. specialize (Hs _ _ Hi).
    assert (lex_cmp w w = Eq) as E by (by apply lex_cmp_eq). rewrite E in Hs. by destruct (_ <? _)%nat.
Qed.

Lemma search_all_exact ws idx :
  search_all ws = Ok idx <-> Forall (fun i => 0 <= i) idx /\ words_of idx = Ok ws.
Proof.
  revert idx. induction ws as [|w ws IH]; intros idx; cbn [search_all].
  - split; [by intros [= <-]|]. intros [_ He]. destruct idx as [|i idx]; [done|]. cbn [words_of] in He.
    apply bind_Ok_inv in He as (? & _ & He). by apply bind_Ok_inv in He as (? & _ & ?).
  - split.
    + intros He. apply bind_Ok_inv in He as (i & Hi & He). apply bind_Ok_inv in He as (rest & Hr & [= <-]).
      apply search_exact in Hi as [H0 Hi]. apply IH in Hr as [Hp Hr]. split; [by constructor|]. cbn [words_of]. by rewrite Hi, Hr.
    + intros [Hp He]. destruct idx as [|i idx]; [done|]. apply Forall_cons in Hp as [H0 Hp]. cbn [words_of] in He.
      destruct (WORDS !! Z.to_nat i) as [w'|] eqn:Ew; [|done]. cbn [unwrap bind] in He.
      apply bind_Ok_inv in He as (ws' & Hw' & [= -> ->]). rewrite (proj2 (search_exact w i)) by done.
      cbn [bind]. rewrite (proj2 (IH idx)) by done. done.
Qed.

(** ** Spacing *)
Definition plain (w : list Z) : Prop := w <> [] /\ forallb (fun ch => negb (is_whitespace ch)) w = true.

Lemma pieces_plain w s : forallb (fun ch => negb (is_whitespace ch)) w = true -> pieces (w ++ 32 :: s) = w :: pieces s /\ pieces w = [w].
Proof.
  induction w as [|ch w IH]; [done|]. cbn [forallb app pieces]. intros [Hch Hw]%andb_true_iff. apply negb_true_iff in Hch. rewrite Hch.
  destruct (IH Hw) as [-> ->]. done.
Qed.

Lemma split_join ws : Forall plain ws -> split_whitespace (join ws) = ws.
Proof.
  unfold split_whitespace. induction 1 as [|w [|w' ws] [Hne Hp] Hws IH]; [done| |].
  - cbn [join]. destruct (pieces_plain w [] Hp) as [_ ->]. by rewrite filter_cons_True.
  - change (join (w :: w' :: ws)) with (w ++ 32 :: join (w' :: ws)). destruct (pieces_plain w (join (w' :: ws)) Hp) as [-> _].
    rewrite filter_cons_True by done. by rewrite IH.
Qed.

Lemma pieces_are_plain s : Forall (fun w => forallb (fun ch => negb (is_whitespace ch)) w = true) (pieces s).
Proof.
  induction s as [|ch s IH]; [by repeat constructor|]. cbn [pieces]. destruct (is_whitespace ch) eqn:E; [by constructor|].
  destruct (pieces s) as [|p ps]; [repeat constructor; cbn; by rewrite E|]. apply Forall_cons in IH as [Hp Hps].
  constructor; [|done]. cbn [forallb]. by rewrite E.
Qed.
Lemma split_plain s : Forall plain (split_whitespace s).
Proof.
  unfold split_whitespace. apply Forall_forall. intros w. rewrite list_elem_of_filter. intros [Hne Hw]. split; [done|].
  pose proof (pieces_are_plain s) as Hp. rewrite Forall_forall in Hp. by apply Hp.
Qed.

Lemma words_of_exact idx ws : words_of idx = Ok ws -> length ws = length idx /\ Forall plain ws /\ (Forall (fun i => 0 <= i) idx -> words_ok 11 idx).
Proof.
  revert ws. induction idx as [|i idx IH]; intros ws; cbn [words_of].
  { intros [= <-]. split_and!; [done|constructor|intros; constructor]. }
  destruct (WORDS !! Z.to_nat i) as [w|] eqn:Ew; [|done]. cbn [unwrap bind]. intros He. apply bind_Ok_inv in He as (rest & Hr & [= <-]).
  destruct (IH rest Hr) as (Hl & Hp & Hok). split_and!.
  - cbn [length]. by rewrite Hl.
  - constructor; [|done]. pose proof words_plain as Hw. rewrite Forall_lookup in Hw. by eapply Hw.
  - intros [Hi Hn]%Forall_cons. constructor; [|by apply Hok]. apply lookup_lt_Some in Ew. rewrite words_length in Ew. change (2 ^ 11) with 2048. lia.
Qed.
Lemma words_of_total idx : words_ok 11 idx -> exists ws, words_of idx = Ok ws.
Proof.
  induction 1 as [|i idx Hi _ [ws IH]]; [by exists []|]. cbn [words_of]. change (2 ^ 11) with 2048 in Hi.
  destruct (lookup_lt_is_Some_2 WORDS (Z.to_nat i)) as [w Hw]; [rewrite words_length; lia|]. exists (w :: ws). by rewrite Hw, IH.
Qed.

(** ** The theorem *)
Section Exact.
Context (sha256 : list Z -> array 32).

Lemma mask_ones cb : Z.shiftl 1 cb - 1 = Z.ones cb.
Proof. rewrite Z.shiftl_1_l, Z.ones_equiv. lia. Qed.

Lemma hash_bits_exact e cb : 4 <= cb <= 8 -> exists cs, hash_bits sha256 e cb = Ok cs /\ 0 <= cs < 2 ^ cb.
Proof.
  intros Hcb. unfold hash_bits. destruct (array_bytes_ok (sha256 e)) as [Hl _].
  destruct (lookup_lt_is_Some_2 (bytes (sha256 e)) 0) as [x Hx]; [lia|]. rewrite Hx. cbn [unwrap bind]. eexists. split; [reflexivity|].
  rewrite mask_ones, Z.land_ones by lia. apply Z.mod_pos_bound, Z.pow_pos_nonneg; lia.
Qed.

(** The steps of both directions, for [3 * cb] words. *)
Lemma from_entropy_steps cb e cs idx ws :
  4 <= cb <= 8 -> Z.of_nat (length e) = 4 * cb -> hash_bits sha256 e cb = Ok cs ->
  (let? r := foldM (or_bits index_place (reverse (seqZ 0 8))) e (replicate (Z.to_nat (3 * cb)) 0, 0) in
   or_bits index_place (reverse (seqZ 0 cb)) r cs) = Ok (idx, 33 * cb) ->
  words_of idx = Ok ws -> from_entropy sha256 e = Ok (join ws).
Proof.
  intros Hcb Hl Hcs Hr Hw. unfold from_entropy. rewrite decide_True.
  2: { assert (cb = 4 \/ cb = 5 \/ cb = 6 \/ cb = 7 \/ cb = 8) as Hc by lia.
       replace (length e) with (Z.to_nat (4 * cb)) by lia. repeat destruct Hc as [->|Hc]; [..|subst cb]; vm_decide. }
  rewrite Hl. replace (4 * cb / 4) with cb by (rewrite Z.mul_comm, Z.div_mul; lia). rewrite Hcs. cbn [bind].
  replace ((4 * cb * 8 + cb) / 11) with (3 * cb) by (replace (4 * cb * 8 + cb) with (3 * cb * 11) by lia; by rewrite Z.div_mul).
  destruct (foldM _ e _); cbn [bind] in *; [|done..]. rewrite Hr. cbn [bind fst]. by rewrite Hw.
Qed.

Lemma to_entropy_steps cb ws idx final e m :
  4 <= cb <= 8 -> split_whitespace m = ws -> Z.of_nat (length ws) = 3 * cb -> search_all ws = Ok (idx ++ [final]) ->
  foldM (or_bits (fun loc => (4 * cb - 1 - loc / 8, loc mod 8)) (seqZ 0 11)) (reverse idx)
    (replicate (Z.to_nat (4 * cb - 1)) 0 ++ [Z.shiftr final cb mod 256], 11 - cb) = Ok (e, 32 * cb) ->
  to_entropy sha256 m =
    let? actual := hash_bits sha256 e cb in
    let checksum := Z.land (final mod 256) (Z.shiftl 1 cb - 1) in
    if negb (actual =? checksum) then Err (BadMnemonicChecksum checksum actual) else Ok e.
Proof.
  intros Hcb Hm Hl Hs Hf. unfold to_entropy. rewrite Hm, decide_True.
  2: { assert (cb = 4 \/ cb = 5 \/ cb = 6 \/ cb = 7 \/ cb = 8) as Hc by lia.
       replace (length ws) with (Z.to_nat (3 * cb)) by lia. repeat destruct Hc as [->|Hc]; [..|subst cb]; vm_decide. }
  rewrite Hs. cbn [bind]. rewrite last_snoc. cbn [unwrap bind]. rewrite removelast_last, Hl.
  replace (3 * cb / 3) with cb by (rewrite Z.mul_comm, Z.div_mul; lia).
  replace ((11 * (3 * cb) - cb) / 8) with (4 * cb) by (replace (11 * (3 * cb) - cb) with (4 * cb * 8) by lia; by rewrite Z.div_mul).
  cbv zeta. rewrite Hf. done.
Qed.

Lemma checksum_part cb idx final d :
  4 <= cb <= 8 -> Z.of_nat (length idx) = 3 * cb - 1 -> 0 <= d < cb ->
  Z.testbit (Z.land (final mod 256) (Z.shiftl 1 cb - 1)) d = bit_at (idx ++ [final]) (from_end 11 (3 * cb) d).
Proof.
  intros Hcb Hl Hd. rewrite mask_ones, Z.land_spec, Z.ones_spec_low by lia. rewrite andb_true_r.
  change 256 with (2 ^ 8). rewrite Z.mod_pow2_bits_low by lia. unfold bit_at, from_end. cbn [fst snd].
  rewrite Z.div_small, Z.mod_small by lia. rewrite lookup_total_app_r by lia.
  by replace (Z.to_nat (3 * cb - 1 - 0) - length idx)%nat with 0%nat by lia.
Qed.
Lemma checksum_range x cb : 0 <= cb -> 0 <= Z.land x (Z.shiftl 1 cb - 1) < 2 ^ cb.
Proof. intros Hcb. rewrite mask_ones, Z.land_ones by lia. apply Z.mod_pos_bound, Z.pow_pos_nonneg; lia. Qed.

Lemma low_bits_eq x y w : 0 <= x < 2 ^ w -> 0 <= y < 2 ^ w -> 0 <= w -> (forall d, 0 <= d < w -> Z.testbit x d = Z.testbit y d) -> x = y.
Proof.
  intros Hx Hy Hw Hb. apply Z.bits_inj'. intros j Hj. destruct (Z_lt_le_dec j w); [by apply Hb|].
  by rewrite (high_bit x w), (high_bit y w) by lia.
Qed.

(** What the words of some indexes become. *)
Lemma to_entropy_of cb m ws idx final :
  4 <= cb <= 8 -> split_whitespace m = ws -> Z.of_nat (length ws) = 3 * cb -> search_all ws = Ok (idx ++ [final]) ->
  exists e, Z.of_nat (length e) = 4 * cb /\ words_ok 8 e
    /\ (forall d, 0 <= d < 32 * cb -> bit_at e (from_end 8 (4 * cb) d) = bit_at (idx ++ [final]) (from_end 11 (3 * cb) (d + cb)))
    /\ exists actual, hash_bits sha256 e cb = Ok actual /\ 0 <= actual < 2 ^ cb
    /\ to_entropy sha256 m = if actual =? Z.land (final mod 256) (Z.shiftl 1 cb - 1) then Ok e
         else Err (BadMnemonicChecksum (Z.land (final mod 256) (Z.shiftl 1 cb - 1)) actual).
Proof.
  intros Hcb Hm Hl Hs. pose proof (proj1 (search_all_exact _ _) Hs) as [Hpos Hw]. apply words_of_exact in Hw as (Hlen & _ & Hok).
  specialize (Hok Hpos). rewrite length_app in Hlen. cbn [length] in Hlen.
  destruct (indexes_to_entropy cb idx final Hcb ltac:(lia) Hok) as (e & Hf & Hle & He & Hbits).
  destruct (hash_bits_exact e cb Hcb) as (actual & Ha & Hr). exists e. do 3 (split; [done|]). exists actual. do 2 (split; [done|]).
  rewrite (to_entropy_steps cb ws idx final e m) by done. rewrite Ha. cbn [bind]. by destruct (actual =? _).
Qed.

(** C39. Mnemonics are exact: entropy of an allowed size has a mnemonic, and the texts accepted
    as standing for it are exactly that mnemonic, however its words are spaced. *)
Theorem mnemonic_exact e :
  length e ∈ [16; 20; 24; 28; 32]%nat -> Forall is_byte e ->
  exists m, from_entropy sha256 e = Ok m
    /\ forall text, to_entropy sha256 text = Ok e <-> join (split_whitespace text) = m.
Proof.
  intros Hsize Hb. assert (exists cb, 4 <= cb <= 8 /\ Z.of_nat (length e) = 4 * cb) as (cb & Hcb & Hl).
  { exists (Z.of_nat (length e) / 4). revert Hsize. set (n := length e). clearbody n. rewrite !elem_of_cons. intros Hs.
    repeat destruct Hs as [->|Hs]; [vm_decide..|by apply elem_of_nil in Hs]. }
  destruct (hash_bits_exact e cb Hcb) as (cs & Hcs & Hrange).
  destruct (entropy_to_indexes cb e cs Hcb Hl Hrange) as (idx & Hr & Hidx & Hok & Hbits).
  destruct (words_of_total idx Hok) as (ws & Hws). pose proof (words_of_exact idx ws Hws) as (Hlen & Hplain & _).
  exists (join ws). split; [by eapply from_entropy_steps|]. intros text.
  destruct idx as [|final idx0 _] using rev_ind; [cbn in Hidx; lia|]. rewrite length_app in Hidx. cbn [length] in Hidx.
  split.
  - intros Ht. assert (exists cb', 4 <= cb' <= 8 /\ Z.of_nat (length (split_whitespace text)) = 3 * cb') as (cb' & Hcb' & Hl').
    { unfold to_entropy in Ht. case_decide as Hin; [|done]. revert Hin. set (n := length _). clearbody n. intros Hin.
      exists (Z.of_nat n / 3). rewrite !elem_of_cons in Hin. repeat destruct Hin as [->|Hin]; [vm_decide..|by apply elem_of_nil in Hin]. }
    assert (exists idx' final', search_all (split_whitespace text) = Ok (idx' ++ [final'])) as (idx' & final' & Hsa).
    { unfold to_entropy in Ht. case_decide; [|done]. apply bind_Ok_inv in Ht as (is' & Hs' & Ht). apply bind_Ok_inv in Ht as (f' & Hf' & _).
      destruct is' as [|x is' _] using rev_ind; [done|]. by exists is', x. }
    destruct (to_entropy_of cb' text _ idx' final' Hcb' eq_refl Hl' Hsa) as (e' & Hle & He' & Hb' & actual & Ha & Hra & E).
    rewrite Ht in E. destruct (Z.eqb_spec actual (Z.land (final' mod 256) (Z.shiftl 1 cb' - 1))) as [Eck|]; [|done]. injection E as <-.
    assert (cb' = cb) as -> by lia. rewrite Hcs in Ha. injection Ha as <-.
    pose proof (proj1 (search_all_exact _ _) Hsa) as [Hpos Hw']. pose proof (words_of_exact _ _ Hw') as (Hlen' & _ & Hok').
    specialize (Hok' Hpos). rewrite length_app in Hlen'. cbn [length] in Hlen'.
    assert (idx' ++ [final'] = idx0 ++ [final]) as Eidx; [|rewrite Eidx, Hws in Hw'; by injection Hw' as <-].
    apply (words_ext 11); [lia|done|done|rewrite !length_app; cbn; lia|]. intros d. rewrite length_app. cbn [length].
    replace (Z.of_nat (length idx' + 1)) with (3 * cb) by lia. intros Hd. rewrite Hbits by lia. destruct (Z.ltb_spec d cb).
    + rewrite <- (checksum_part cb) by lia. by rewrite <- Eck.
    + rewrite Hb' by lia. do 2 f_equal. lia.
  - intros E. assert (split_whitespace text = ws) as Hsp by (rewrite <- (split_join _ (split_plain text)), E; by apply split_join).
    assert (search_all ws = Ok (idx0 ++ [final])) as Hsa.
    { apply search_all_exact. split; [|done]. eapply Forall_impl; [exact Hok|]. cbv beta. lia. }
    destruct (to_entropy_of cb text ws idx0 final Hcb Hsp) as (e' & Hle & He' & Hb' & actual & Ha & Hra & ->); [rewrite length_app in Hlen; cbn in Hlen; lia|done|].
    assert (e' = e) as ->.
    { apply (words_ext 8); [lia|done|exact Hb|lia|]. intros d Hd. rewrite Hle. rewrite Hb', Hbits by lia.
      destruct (Z.ltb_spec (d + cb) cb); [lia|]. do 2 f_equal. lia. }
    rewrite Hcs in Ha. injection Ha as <-.
    assert (cs = Z.land (final mod 256) (Z.shiftl 1 cb - 1)) as <-; [|by rewrite Z.eqb_refl].
    apply (low_bits_eq _ _ cb); [done|apply checksum_range; lia|lia|]. intros d Hd.
    rewrite (checksum_part cb idx0) by lia. rewrite Hbits by lia. by destruct (Z.ltb_spec d cb); [|lia].
Qed.
End Exact.

Lemma mnemonic_exact_witness :
  exists m, from_entropy no_hash (replicate 16 127) = Ok m
    /\ forall text, to_entropy no_hash text = Ok (replicate 16 127) <-> join (split_whitespace text) = m.
Proof. apply mnemonic_exact; vm_decide. Defined.
