(* ===== verification/ExtKey.v ===== *)
(** * Hierarchical keys

    [keychain/src/extkey_bip32.rs]: child numbers, extended keys, their derivation and their
    text.  The hash functions of the [hmac], [sha2] and [ripemd160] libraries and the
    operations on keys of the curve library are classes; sums of bytes wrap as in a release
    build. *)
From S2P Require Import Prelude Ser Committed Base58 Mnemonic.

(** ** The libraries *)
Class KeyHashes := {
  hmac_sha512 : list Z -> list Z -> array 64;
  sha_256 : list Z -> array 32;
  ripemd_160 : list Z -> array 20;
}.

(** [add_assign k d]: [k + d]; [add_exp_assign p d]: [p] plus the point of [d]. *)
Class SecpKeys `{Secp} := {
  pubkey_from_secret : SecretKey -> option PublicKey;
  serialize_vec : PublicKey -> array 33;
  pubkey_from_slice : array 33 -> option PublicKey;
  add_assign : SecretKey -> SecretKey -> option SecretKey;
  add_exp_assign : PublicKey -> SecretKey -> option PublicKey;
}.

(** ** Child numbers *)
Inductive ChildNumber : Type := Normal (index : Z) | Hardened (index : Z).
#[export] Instance ChildNumber_eq_dec : EqDecision ChildNumber.
Proof. solve_decision. Defined.

Definition from_normal_idx {E} (index : Z) : outcome E ChildNumber :=
  if Z.land index (2 ^ 31) =? 0 then Ok (Normal index) else Panic.
Definition from_hardened_idx {E} (index : Z) : outcome E ChildNumber :=
  if Z.land index (2 ^ 31) =? 0 then Ok (Hardened index) else Panic.
Definition is_hardened (i : ChildNumber) : bool := match i with Hardened _ => true | Normal _ => false end.
Definition is_normal (i : ChildNumber) : bool := negb (is_hardened i).
Definition child_from_u32 (number : Z) : ChildNumber :=
  if negb (Z.land number (2 ^ 31) =? 0) then Hardened (Z.lxor number (2 ^ 31)) else Normal number.
Definition child_to_u32 (i : ChildNumber) : Z :=
  match i with Normal index => index | Hardened index => Z.lor index (2 ^ 31) end.

(** ** Keys *)
Inductive bip32_error : Type :=
| CannotDeriveFromHardenedKey
| Ecdsa
| InvalidChildNumber (i : ChildNumber)
| RngError
| MnemonicError (e : mnemonic_error).

Record ExtendedPrivKey := mkPriv {
  priv_network : array 4; priv_depth : Z; priv_parent : array 4; priv_child : ChildNumber;
  priv_key : SecretKey; priv_chain : array 32 }.

(** The hasher: the network, and the key and the data of the digest under way. *)
Record EpicHasher := mkHasher { is_floo : bool; mac_key : list Z; mac_data : list Z }.
Definition hasher_new (floo : bool) : EpicHasher := mkHasher floo (replicate 128 0) [].
Definition network_priv (h : EpicHasher) : array 4 :=
  from_vec (if is_floo h then [3; 39; 58; 16] else [3; 60; 4; 164]).
Definition network_pub (h : EpicHasher) : array 4 :=
  from_vec (if is_floo h then [3; 39; 62; 75] else [3; 60; 8; 223]).
Definition master_seed : list Z := [73; 97; 109; 86; 111; 108; 100; 101; 109; 111; 114; 116].
Definition init_sha512 (seed : list Z) (h : EpicHasher) : EpicHasher := mkHasher (is_floo h) seed [].
Definition append_sha512 (value : list Z) (h : EpicHasher) : EpicHasher := mkHasher (is_floo h) (mac_key h) (mac_data h ++ value).

Section Keys.
Context `{KeyHashes} `{SecpKeys}.

Record ExtendedPubKey := mkPub {
  pub_network : array 4; pub_depth : Z; pub_parent : array 4; pub_child : ChildNumber;
  public_key : PublicKey; pub_chain : array 32 }.

(** The digest; the next use starts with a new key. *)
Definition result_sha512 (h : EpicHasher) : array 64 := hmac_sha512 (mac_key h) (mac_data h).

(** *** Private keys *)
Definition new_master (seed : list Z) : trans EpicHasher bip32_error ExtendedPrivKey := fun h =>
  let h := append_sha512 seed (init_sha512 master_seed h) in
  let result := bytes (result_sha512 h) in
  ((let? child := from_normal_idx 0 in
    let? secret_key := ok_or (secret_key_from_slice (from_vec (take 32 result))) Ecdsa in
    Ok (mkPriv (network_priv h) 0 (from_vec [0; 0; 0; 0]) child secret_key (from_vec (drop 32 result)))), h).

Definition from_private (h : EpicHasher) (sk : ExtendedPrivKey) : outcome bip32_error ExtendedPubKey :=
  let? p := unwrap (pubkey_from_secret (priv_key sk)) in
  Ok (mkPub (network_pub h) (priv_depth sk) (priv_parent sk) (priv_child sk) p (priv_chain sk)).

Definition pub_identifier (pk : ExtendedPubKey) : array 20 := ripemd_160 (bytes (sha_256 (bytes (serialize_vec (public_key pk))))).
Definition pub_fingerprint (pk : ExtendedPubKey) : array 4 := from_vec (take 4 (bytes (pub_identifier pk))).
Definition identifier (h : EpicHasher) (sk : ExtendedPrivKey) : outcome bip32_error (array 20) :=
  let? pk := from_private h sk in Ok (pub_identifier pk).
Definition fingerprint (h : EpicHasher) (sk : ExtendedPrivKey) : outcome bip32_error (array 4) :=
  let? i := identifier h sk in Ok (from_vec (take 4 (bytes i))).

Definition ckd_priv (i : ChildNumber) (sk : ExtendedPrivKey) : trans EpicHasher bip32_error ExtendedPrivKey := fun h =>
  let h := init_sha512 (bytes (priv_chain sk)) h in
  match (match i with
         | Normal _ => let? p := ok_or (pubkey_from_secret (priv_key sk)) Ecdsa in Ok (append_sha512 (bytes (serialize_vec p)) h)
         | Hardened _ => Ok (append_sha512 (bytes (priv_key sk)) (append_sha512 [0] h))
         end) with
  | Ok h' =>
      let h := append_sha512 (be_bytes 4 (child_to_u32 i)) h' in
      let result := bytes (result_sha512 h) in
      ((let? tweak := ok_or (secret_key_from_slice (from_vec (take 32 result))) Ecdsa in
        let? key := ok_or (add_assign tweak (priv_key sk)) Ecdsa in
        let? parent := fingerprint h sk in
        Ok (mkPriv (priv_network sk) ((priv_depth sk + 1) mod 256) parent i key (from_vec (drop 32 result)))), h)
  | Err e => (Err e, h)
  | Panic => (Panic, h)
  end.

Fixpoint derive_priv (cnums : list ChildNumber) (sk : ExtendedPrivKey) : trans EpicHasher bip32_error ExtendedPrivKey :=
  match cnums with
  | [] => tret sk
  | i :: cnums => let! sk := ckd_priv i sk in derive_priv cnums sk
  end.

(** *** Public keys *)
Definition ckd_pub_tweak (i : ChildNumber) (pk : ExtendedPubKey) : trans EpicHasher bip32_error (SecretKey * array 32) := fun h =>
  match i with
  | Hardened _ => (Err CannotDeriveFromHardenedKey, h)
  | Normal n =>
      let h := append_sha512 (be_bytes 4 n) (append_sha512 (bytes (serialize_vec (public_key pk))) (init_sha512 (bytes (pub_chain pk)) h)) in
      let result := bytes (result_sha512 h) in
      ((let? secret_key := ok_or (secret_key_from_slice (from_vec (take 32 result))) Ecdsa in
        Ok (secret_key, from_vec (drop 32 result))), h)
  end.

Definition ckd_pub (i : ChildNumber) (pk : ExtendedPubKey) : trans EpicHasher bip32_error ExtendedPubKey :=
  let! t := ckd_pub_tweak i pk in
  let! p := tread (fun _ => ok_or (add_exp_assign (public_key pk) t.1) Ecdsa) in
  tret (mkPub (pub_network pk) ((pub_depth pk + 1) mod 256) (pub_fingerprint pk) i p t.2).

Fixpoint derive_pub (cnums : list ChildNumber) (pk : ExtendedPubKey) : trans EpicHasher bip32_error ExtendedPubKey :=
  match cnums with
  | [] => tret pk
  | i :: cnums => let! pk := ckd_pub i pk in derive_pub cnums pk
  end.

(** *** Text *)
Context (sha256 : list Z -> array 32).

Definition key_bytes (network : array 4) (depth : Z) (parent : array 4) (child : ChildNumber) (chain : array 32) (key : list Z) : list Z :=
  bytes network ++ [depth] ++ bytes parent ++ be_bytes 4 (child_to_u32 child) ++ bytes chain ++ key.

Definition priv_to_string (k : ExtendedPrivKey) : outcome base58_error (list Z) :=
  check_encode_slice sha256
    (key_bytes (priv_network k) (priv_depth k) (priv_parent k) (priv_child k) (priv_chain k) (0 :: bytes (priv_key k))).
Definition pub_to_string (k : ExtendedPubKey) : outcome base58_error (list Z) :=
  check_encode_slice sha256
    (key_bytes (pub_network k) (pub_depth k) (pub_parent k) (pub_child k) (pub_chain k) (bytes (serialize_vec (public_key k)))).

(** [data[a..b]]. *)
Definition slice (a b : nat) (data : list Z) : list Z := take (b - a) (drop a data).

Definition priv_from_str (inp : list Z) : outcome base58_error ExtendedPrivKey :=
  let? data := from_check sha256 inp in
  if negb (length data =? 78)%nat then Err (InvalidLength (length data))
  else
    let? depth := unwrap (data !! 4%nat) in
    let? key := ok_or (secret_key_from_slice (from_vec (slice 46 78 data))) Other in
    Ok (mkPriv (from_vec (slice 0 4 data)) depth (from_vec (slice 5 9 data)) (child_from_u32 (be_value (slice 9 13 data))) key
          (from_vec (slice 13 45 data))).
Definition pub_from_str (inp : list Z) : outcome base58_error ExtendedPubKey :=
  let? data := from_check sha256 inp in
  if negb (length data =? 78)%nat then Err (InvalidLength (length data))
  else
    let? depth := unwrap (data !! 4%nat) in
    let? key := ok_or (pubkey_from_slice (from_vec (slice 45 78 data))) Other in
    Ok (mkPub (from_vec (slice 0 4 data)) depth (from_vec (slice 5 9 data)) (child_from_u32 (be_value (slice 9 13 data))) key
          (from_vec (slice 13 45 data))).

(** A key from words. *)
Context (pbkdf2 : list Z -> list Z -> Z -> array 64) (utf8 : list Z -> list Z).

Definition priv_from_mnemonic (mnemonic passphrase : list Z) (floo : bool) : outcome bip32_error ExtendedPrivKey :=
  let? seed := map_err MnemonicError (to_seed sha256 pbkdf2 utf8 mnemonic (Some passphrase)) in
  fst (new_master (bytes seed) (hasher_new floo)).
End Keys.
