(* ===== verification/Keychain.v ===== *)
(** * The keychain

    [keychain/src/types.rs] (identifiers, paths, sums of blinding factors, the split of one)
    and [keychain/src/keychain.rs] ([ExtKeychain]).  What they use of the curve library beyond
    [Secp] and [SecpKeys], and of [blake2], is the class [SecpSigning]. *)
From S2P Require Import Prelude Ser Committed Base58 Mnemonic ExtKey.

(** [sign]: a plain signature; [sign_single key nonce pubkey_sum msg]: an aggregated one of a
    single key; [bullet_proof amount key nonce message]; [rewind_bullet_proof commit nonce
    proof]: the amount and the message, if the nonce is the proof's. *)
Class SecpSigning `{SecpKeys} := {
  blind_switch : Z -> SecretKey -> option SecretKey;
  sign : Hash -> SecretKey -> option Signature;
  sign_single : SecretKey -> option SecretKey -> option PublicKey -> Hash -> option Signature;
  bullet_proof : Z -> SecretKey -> SecretKey -> list Z -> RangeProof;
  rewind_bullet_proof : Commitment -> SecretKey -> RangeProof -> option (Z * list Z);
  blake2b_32 : list Z -> list Z -> array 32;
}.

Inductive keychain_error : Type :=
| KeySecp
| KeyDerivation (e : bip32_error)
| KeyTransaction
| KeyRangeProof
| SwitchCommitment.

(** ** Identifiers and paths *)
Definition IDENTIFIER_SIZE : nat := 17.
Abbreviation Identifier := (array 17).

Record ExtKeychainPath := mkPath { depth : Z; path : list ChildNumber }.
#[export] Instance ExtKeychainPath_eq_dec : EqDecision ExtKeychainPath.
Proof. solve_decision. Defined.

Definition path_new (depth d0 d1 d2 d3 : Z) : ExtKeychainPath := mkPath depth (map child_from_u32 [d0; d1; d2; d3]).
Definition identifier_word (b : list Z) (i : nat) : ChildNumber := child_from_u32 (be_value (take 4 (drop (1 + 4 * i) b))).
Definition from_identifier (d : Identifier) : ExtKeychainPath :=
  mkPath (be_value (take 1 (bytes d))) (map (identifier_word (bytes d)) [0; 1; 2; 3]%nat).
Definition to_identifier (p : ExtKeychainPath) : Identifier :=
  from_vec (be_bytes 1 (depth p) ++ flat_map (fun c => be_bytes 4 (child_to_u32 c)) (path p)).
(** A depth above 4 is an index out of range. *)
Definition last_path_index {E} (p : ExtKeychainPath) : outcome E Z :=
  if depth p =? 0 then Ok 0
  else let? c := unwrap (path p !! Z.to_nat (depth p - 1)) in Ok (child_to_u32 c).

Definition id_zero : Identifier := from_vec [].
Definition from_path : ExtKeychainPath -> Identifier := to_identifier.
Definition to_path : Identifier -> ExtKeychainPath := from_identifier.
Definition serialize_path (d : Identifier) : list Z := drop 1 (bytes d).
Definition from_serialized_path {E} (len : Z) (p : list Z) : outcome E Identifier :=
  if (length p <? 16)%nat then Panic else Ok (from_vec (len :: take 16 p)).
Definition parent_path {E} (d : Identifier) : outcome E Identifier :=
  let p := from_identifier d in
  if depth p >? 0 then
    if (Z.to_nat (depth p - 1) <? length (path p))%nat
    then Ok (from_path (mkPath (depth p - 1) (<[Z.to_nat (depth p - 1) := child_from_u32 0]> (path p))))
    else Panic
  else Ok (from_path p).

Record ValueExtKeychainPath := mkValuePath { vp_value : Z; vp_path : ExtKeychainPath }.
Definition to_value_path (d : Identifier) (value : Z) : ValueExtKeychainPath := mkValuePath value (to_path d).

(** ** Sums of blinding factors *)
Record BlindSum := mkBlindSum {
  positive_key_ids : list ValueExtKeychainPath; negative_key_ids : list ValueExtKeychainPath;
  positive_blinding_factors : list BlindingFactor; negative_blinding_factors : list BlindingFactor }.
Definition blind_sum_new : BlindSum := mkBlindSum [] [] [] [].
Definition add_key_id (p : ValueExtKeychainPath) (s : BlindSum) : BlindSum :=
  mkBlindSum (positive_key_ids s ++ [p]) (negative_key_ids s) (positive_blinding_factors s) (negative_blinding_factors s).
Definition sub_key_id (p : ValueExtKeychainPath) (s : BlindSum) : BlindSum :=
  mkBlindSum (positive_key_ids s) (negative_key_ids s ++ [p]) (positive_blinding_factors s) (negative_blinding_factors s).
Definition add_blinding_factor (b : BlindingFactor) (s : BlindSum) : BlindSum :=
  mkBlindSum (positive_key_ids s) (negative_key_ids s) (positive_blinding_factors s ++ [b]) (negative_blinding_factors s).
Definition sub_blinding_factor (b : BlindingFactor) (s : BlindSum) : BlindSum :=
  mkBlindSum (positive_key_ids s) (negative_key_ids s) (positive_blinding_factors s) (negative_blinding_factors s ++ [b]).

Section Keychain.
Context `{KeyHashes} `{SecpSigning}.

(** [Add for BlindingFactor]. *)
Definition blinding_add (a b : BlindingFactor) : outcome keychain_error BlindingFactor :=
  match to_secrets [a; b] with
  | [] => Ok blinding_zero
  | keys => ok_or (Committed.blind_sum keys []) KeySecp
  end.

(** [skey_1]: the new random key. *)
Definition split (skey_1 : SecretKey) (b : BlindingFactor) : outcome keychain_error (BlindingFactor * BlindingFactor) :=
  let? skey := ok_or (secret_key b) KeySecp in
  let? skey_2 := ok_or (Committed.blind_sum [skey] [skey_1]) KeySecp in
  Ok (skey_1, skey_2).

Definition id_from_pubkey (blake2b_17 : list Z -> Identifier) (p : PublicKey) : Identifier := blake2b_17 (bytes (serialize_vec p)).

(** ** [ExtKeychain] *)
Record ExtKeychain := mkKeychain { master : ExtendedPrivKey; use_switch_commits : bool; hasher : EpicHasher }.

Definition from_seed (seed : list Z) (floo : bool) : outcome keychain_error ExtKeychain :=
  let '(r, h) := new_master seed (hasher_new floo) in
  let? master := map_err KeyDerivation r in
  Ok (mkKeychain master true h).
Definition keychain_from_mnemonic sha256 pbkdf2 utf8 (word_list extension_word : list Z) (floo : bool) : outcome keychain_error ExtKeychain :=
  let? master := map_err KeyDerivation (priv_from_mnemonic sha256 pbkdf2 utf8 word_list extension_word floo) in
  Ok (mkKeychain master true (hasher_new floo)).
Definition root_key_id : Identifier := to_identifier (path_new 0 0 0 0 0).
Definition derive_key_id (depth d1 d2 d3 d4 : Z) : Identifier := to_identifier (path_new depth d1 d2 d3 d4).

(** The loop over the first [depth] numbers of the path, which holds four. *)
Fixpoint derive_steps (n : nat) (i : nat) (p : list ChildNumber) (k : ExtendedPrivKey) : trans EpicHasher keychain_error ExtendedPrivKey :=
  match n with
  | O => tret k
  | S n =>
      let! c := tread (fun _ => unwrap (p !! i)) in
      let! k := (fun h => let '(r, h) := ckd_priv c k h in (map_err KeyDerivation r, h)) in
      derive_steps n (S i) p k
  end.
Definition derive_key (kc : ExtKeychain) (amount : Z) (d : Identifier) : outcome keychain_error SecretKey :=
  let p := to_path d in
  let? ext_key := fst (derive_steps (Z.to_nat (depth p)) 0 (path p) (master kc) (hasher kc)) in
  if use_switch_commits kc then ok_or (blind_switch amount (priv_key ext_key)) KeySecp else Ok (priv_key ext_key).

Definition key_commit (kc : ExtKeychain) (amount : Z) (d : Identifier) : outcome keychain_error Commitment :=
  let? key := derive_key kc amount d in
  ok_or (Committed.commit amount key) KeySecp.

(** Keys that cannot be derived are left out of the sum; a panic is not. *)
Fixpoint derive_all (kc : ExtKeychain) (l : list ValueExtKeychainPath) : outcome keychain_error (list SecretKey) :=
  match l with
  | [] => Ok []
  | k :: l =>
      match derive_key kc (vp_value k) (from_path (vp_path k)) with
      | Ok s => let? rest := derive_all kc l in Ok (s :: rest)
      | Err _ => derive_all kc l
      | Panic => Panic
      end
  end.
Definition blind_sum (kc : ExtKeychain) (s : BlindSum) : outcome keychain_error BlindingFactor :=
  let? pos_keys := derive_all kc (positive_key_ids s) in
  let? neg_keys := derive_all kc (negative_key_ids s) in
  let pos_keys := pos_keys ++ omap secret_key (positive_blinding_factors s) in
  let neg_keys := neg_keys ++ omap secret_key (negative_blinding_factors s) in
  ok_or (Committed.blind_sum pos_keys neg_keys) KeySecp.

Definition create_nonce (kc : ExtKeychain) (commit : Commitment) : outcome keychain_error SecretKey :=
  let? root_key := derive_key kc 0 root_key_id in
  ok_or (secret_key_from_slice (blake2b_32 (bytes commit) (bytes root_key))) KeyRangeProof.

Definition key_sign (kc : ExtKeychain) (msg : Hash) (amount : Z) (d : Identifier) : outcome keychain_error Signature :=
  let? skey := derive_key kc amount d in ok_or (sign msg skey) KeySecp.
Definition key_sign_with_blinding (kc : ExtKeychain) (msg : Hash) (blinding : BlindingFactor) : outcome keychain_error Signature :=
  let? skey := ok_or (secret_key blinding) KeySecp in ok_or (sign msg skey) KeySecp.
Definition set_use_switch_commits (value : bool) (kc : ExtKeychain) : ExtKeychain := mkKeychain (master kc) value (hasher kc).
End Keychain.
