(* ===== verification/KeyTheory.v ===== *)
(** * Keys and identifiers are exact

    Child numbers and their integers, paths and their identifiers, the text of extended keys;
    deriving and then taking the public key is the same as taking it and then deriving. *)
From S2P Require Import Prelude Ser Committed Base58 Base58Theory Mnemonic MnemonicTheory ExtKey Keychain.

(** ** Child numbers *)
Lemma low_clear i : 0 <= i < 2 ^ 31 -> Z.land i (2 ^ 31) = 0.
Proof.
  intros Hi. apply Z.bits_inj'. intros j Hj. rewrite Z.land_spec, Z.bits_0. destruct (decide (j = 31)) as [->|Hne].
  - rewrite (high_bit i 31) by lia. done.
  - rewrite Z.pow2_bits_false by lia. by rewrite andb_false_r.
Qed.
Lemma top_bit i : 0 <= i < 2 ^ 31 -> Z.lor i (2 ^ 31) = i + 2 ^ 31 /\ Z.lxor (i + 2 ^ 31) (2 ^ 31) = i /\ Z.land (i + 2 ^ 31) (2 ^ 31) = 2 ^ 31.
Proof.
  intros Hi. pose proof (low_clear i Hi) as Hl. pose proof (Z.add_nocarry_lxor i (2 ^ 31) Hl) as Ha.
  pose proof (Z.lxor_lor i (2 ^ 31) Hl) as Hx. split_and!; [congruence| |].
  - rewrite Ha, Z.lxor_assoc, Z.lxor_nilpotent. apply Z.lxor_0_r.
  - rewrite Ha, Hx, Z.land_lor_distr_l, Hl, Z.land_diag. apply Z.lor_0_l.
Qed.

Definition child_ok (c : ChildNumber) : Prop := match c with Normal i | Hardened i => 0 <= i < 2 ^ 31 end.

Lemma child_roundtrip c : child_ok c -> child_from_u32 (child_to_u32 c) = c /\ 0 <= child_to_u32 c < 2 ^ 32.
Proof.
  unfold child_from_u32. destruct c as [i|i]; cbn [child_ok child_to_u32]; intros Hi.
  - rewrite low_clear by done. split; [done|lia].
  - destruct (top_bit i Hi) as (E & Hx & Hl). rewrite E, Hx, Hl. change (2 ^ 32) with (2 ^ 31 + 2 ^ 31). split; [done|lia].
Qed.
Lemma u32_roundtrip n : 0 <= n < 2 ^ 32 -> child_to_u32 (child_from_u32 n) = n /\ child_ok (child_from_u32 n).
Proof.
  intros Hn. change (2 ^ 32) with (2 ^ 31 + 2 ^ 31) in Hn. unfold child_from_u32. destruct (Z_lt_le_dec n (2 ^ 31)) as [Hlt|Hge].
  - rewrite low_clear by lia. change (child_to_u32 (Normal n) = n /\ child_ok (Normal n)). split; [done|]. cbn [child_ok]. lia.
  - destruct (top_bit (n - 2 ^ 31) ltac:(lia)) as (E & Hx & Hl). rewrite Z.sub_add in *. rewrite Hl, Hx.
    change (child_to_u32 (Hardened (n - 2 ^ 31)) = n /\ child_ok (Hardened (n - 2 ^ 31))). cbn [child_to_u32 child_ok]. split; [exact E|lia].
Qed.

(** ** Paths and identifiers *)
Lemma be_value_number l : be_value l = digits256 (rev l).
Proof.
  unfold be_value. induction l as [|x l IH] using rev_ind; [done|]. rewrite foldl_app, rev_app_distr. cbn [foldl rev app].
  rewrite IH, number_cons. lia.
Qed.
Lemma be_bytes_value l : Forall is_byte l -> be_bytes (length l) (be_value l) = l /\ 0 <= be_value l < 2 ^ (8 * Z.of_nat (length l)).
Proof.
  intros Hl. assert (0 <= be_value l < 2 ^ (8 * Z.of_nat (length l))) as Hb.
  { rewrite be_value_number, Z.pow_mul_r by lia. change (2 ^ 8) with 256. rewrite <- length_rev. apply (number_bound 256); [lia|by apply Forall_rev]. }
  split; [|done]. apply rev_eq. destruct (be_bytes_ok (length l) (be_value l)) as [Hlen Hbytes].
  apply (number_inj 256); [lia|by apply Forall_rev|by apply Forall_rev|by rewrite !length_rev, Hlen|].
  rewrite <- !be_value_number. by apply be_value_bytes.
Qed.

Definition path_ok (p : ExtKeychainPath) : Prop := 0 <= depth p < 256 /\ length (path p) = 4%nat /\ Forall child_ok (path p).

Lemma block_at {A} (f : A -> list Z) w cs i c :
  (forall c, length (f c) = w) -> cs !! i = Some c -> take w (drop (w * i) (flat_map f cs)) = f c.
Proof.
  intros Hw. revert i. induction cs as [|c0 cs IH]; intros [|i] Hi; try done; cbn [flat_map].
  - injection Hi as ->. rewrite Nat.mul_0_r. cbn [drop]. rewrite <- (Hw c). apply take_app_length.
  - cbn [lookup list_lookup] in Hi. rewrite drop_app_ge by (rewrite Hw; lia). rewrite Hw.
    replace (w * S i - w)%nat with (w * i)%nat by lia. by apply IH.
Qed.

Lemma path_bytes p : path_ok p -> bytes (to_identifier p) = be_bytes 1 (depth p) ++ flat_map (fun c => be_bytes 4 (child_to_u32 c)) (path p).
Proof.
  intros (_ & Hl & _). cbn [to_identifier bytes from_vec]. apply fit_array. split.
  - rewrite length_app, length_be_bytes. destruct (path p) as [|c0 [|c1 [|c2 [|c3 [|]]]]]; try discriminate Hl. cbn [flat_map].
    by rewrite app_nil_r, !length_app, !length_be_bytes.
  - apply Forall_app. split; [apply be_bytes_ok|]. clear Hl. induction (path p) as [|c cs IH]; [constructor|]. cbn [flat_map].
    apply Forall_app. split; [apply be_bytes_ok|done].
Qed.

(** A path and its identifier determine each other. *)
Lemma path_identifier p : path_ok p -> from_identifier (to_identifier p) = p.
Proof.
  intros Hp. unfold from_identifier. rewrite (path_bytes p Hp). destruct p as [d cs]. destruct Hp as (Hd & Hl & Hcs). cbn [depth path] in *.
  f_equal.
  - rewrite take_app_le by (by rewrite length_be_bytes). rewrite take_ge by (by rewrite length_be_bytes).
    apply be_value_bytes. change (2 ^ (8 * Z.of_nat 1)) with 256. lia.
  - apply list_eq_same_length with (n := 4%nat); [done|done|]. intros i x y Hi Hx Hy.
    change (map (identifier_word ?b) ?l) with (identifier_word b <$> l) in Hx. rewrite list_lookup_fmap in Hx.
    assert (([0; 1; 2; 3]%nat : list nat) !! i = Some i) as E by (do 4 (destruct i as [|i]; [done|]); lia).
    rewrite E in Hx. apply (inj Some) in Hx as <-. unfold identifier_word. rewrite drop_app_ge by (rewrite length_be_bytes; lia).
    rewrite length_be_bytes. replace (1 + 4 * i - 1)%nat with (4 * i)%nat by lia.
    rewrite (block_at _ 4 cs i y) by (done || intros; apply length_be_bytes).
    rewrite Forall_lookup in Hcs. destruct (child_roundtrip y (Hcs i y Hy)) as [Hr Hb]. by rewrite be_value_bytes.
Qed.

Lemma word_bytes l k : Forall is_byte l -> (k + 4 <= length l)%nat ->
  be_bytes 4 (child_to_u32 (child_from_u32 (be_value (take 4 (drop k l))))) = take 4 (drop k l).
Proof.
  intros Hl Hk. assert (Forall is_byte (take 4 (drop k l))) as Hb by (by apply Forall_take, Forall_drop).
  destruct (be_bytes_value _ Hb) as [E Hr]. rewrite length_take_le in E, Hr by (rewrite length_drop; lia).
  by rewrite (proj1 (u32_roundtrip _ Hr)).
Qed.

Lemma identifier_path d : to_identifier (from_identifier d) = d /\ path_ok (from_identifier d).
Proof.
  destruct (array_bytes_ok d) as [Hl Hb]. split.
  - unfold to_identifier, from_identifier, identifier_word. cbn [depth path map flat_map]. rewrite app_nil_r.
    rewrite !word_bytes by (done || (rewrite Hl; cbn; lia)).
    destruct (be_bytes_value (take 1 (bytes d))) as [E _]; [by apply Forall_take|]. rewrite length_take_le in E by lia. rewrite E.
    rewrite <- (from_vec_bytes d) at 6. f_equal. revert Hl. generalize (bytes d). intros l Hl.
    do 17 (destruct l as [|? l]; [discriminate Hl|]). by destruct l.
  - unfold path_ok, from_identifier. cbn [depth path]. destruct (be_bytes_value (take 1 (bytes d))) as [_ Hr]; [by apply Forall_take|].
    rewrite length_take_le in Hr by lia. split_and!; [apply Hr|apply Hr|done|]. apply Forall_map, Forall_forall. intros i Hi. unfold identifier_word.
    apply u32_roundtrip. assert (Forall is_byte (take 4 (drop (1 + 4 * i) (bytes d)))) as Hw by (by apply Forall_take, Forall_drop).
    destruct (be_bytes_value _ Hw) as [_ Hv]. rewrite length_take_le in Hv; [exact Hv|].
    rewrite length_drop, Hl. repeat (apply elem_of_cons in Hi as [->|Hi]; [cbn; lia|]). by apply elem_of_nil in Hi.
Qed.

(** ** Derivation *)
(** What the curve library promises of its tweaks: adding a key and then taking the public
    key is the same as taking it and then adding the point. *)
Class TweakLaws `{SecpKeys} := {
  tweak_public : forall t k s p, add_assign t k = Some s -> pubkey_from_secret k = Some p ->
    exists p', add_exp_assign p t = Some p' /\ pubkey_from_secret s = Some p' }.

Section Derivation.
Context `{KeyHashes} `{SecpKeys} `{!TweakLaws}.

Lemma ckd_agrees i sk h sk' h' pk :
  is_normal i = true -> ckd_priv i sk h = (Ok sk', h') -> from_private h sk = Ok pk ->
  exists pk', ckd_pub i pk h = (Ok pk', h') /\ from_private h' sk' = Ok pk'.
Proof.
  destruct i as [n|n]; [|done]. intros _ Hd Hp. unfold from_private in Hp. destruct (pubkey_from_secret (priv_key sk)) as [p|] eqn:Ep; [|done].
  injection Hp as <-. unfold ckd_priv in Hd. rewrite Ep in Hd. cbn [ok_or bind child_to_u32] in Hd.
  set (h1 := append_sha512 (be_bytes 4 n) _) in Hd. set (res := bytes (result_sha512 h1)) in Hd.
  destruct (secret_key_from_slice (from_vec (take 32 res))) as [t|] eqn:Et; [|done]. cbn [ok_or bind] in Hd.
  destruct (add_assign t (priv_key sk)) as [key|] eqn:Ek; [|done]. cbn [ok_or bind] in Hd.
  unfold fingerprint, identifier, from_private in Hd. rewrite Ep in Hd. cbn [unwrap bind] in Hd. injection Hd as <- <-.
  destruct (tweak_public t _ key p Ek Ep) as (p' & Ep' & Es).
  eexists. split.
  - unfold ckd_pub, ckd_pub_tweak, tbind, tread, tret. cbn [public_key pub_chain]. fold h1. fold res. rewrite Et. cbn [ok_or bind fst snd].
    rewrite Ep'. reflexivity.
  - unfold from_private. cbn [priv_key]. rewrite Es. done.
Qed.

(** C38. Watching keys agree with spending keys.  Along any path without hardened steps, if the
    private key derives, then so does the public key of its start, to the public key of its
    end: same point, chain code, depth, fingerprint and number. *)
Theorem derivation_agrees cnums sk h sk' h' pk :
  Forall (fun i => is_normal i = true) cnums -> derive_priv cnums sk h = (Ok sk', h') -> from_private h sk = Ok pk ->
  exists pk', derive_pub cnums pk h = (Ok pk', h') /\ from_private h' sk' = Ok pk'.
Proof.
  intros Hn. revert sk h pk. induction Hn as [|i cnums Hi _ IH]; intros sk h pk Hd Hp.
  { injection Hd as -> ->. by exists pk. }
  cbn [derive_priv derive_pub] in *. unfold tbind in *. destruct (ckd_priv i sk h) as [[sk1|e|] h1] eqn:E1; [|done..].
  destruct (ckd_agrees i sk h sk1 h1 pk Hi E1 Hp) as (pk1 & -> & Hp1). by eapply IH.
Qed.

(** A hardened step is refused for public keys. *)
Lemma hardened_refused n pk h : fst (ckd_pub (Hardened n) pk h) = Err CannotDeriveFromHardenedKey.
Proof. done. Qed.
End Derivation.

(** ** Text *)
Lemma check_decode_encode sha data :
  Forall is_byte data -> exists s, check_encode_slice sha data = Ok s /\ from_check sha s = Ok data.
Proof.
  intros Hd. destruct (checksum_ok sha data) as [Hl Hc]. unfold check_encode_slice, from_check.
  destruct (decode_encode (data ++ take 4 (bytes (sha256d_hash sha data)))) as (s & E & Hf); [by apply Forall_app|].
  exists s. split; [done|]. rewrite Hf. cbn [bind]. rewrite length_app, Hl.
  destruct (Nat.ltb_spec (length data + 4) 4); [lia|]. cbv zeta. replace (length data + 4 - 4)%nat with (length data) by lia.
  rewrite take_app_length, drop_app_length, low_u32. change le_value with digits256. by rewrite Z.eqb_refl.
Qed.

Section Text.
Context `{KeyHashes} `{SecpKeys} (sha256 : list Z -> array 32).

Definition header_ok (depth : Z) (child : ChildNumber) : Prop := 0 <= depth < 256 /\ child_ok child.

Lemma key_bytes_ok network depth parent child chain key :
  header_ok depth child -> Forall is_byte key -> Forall is_byte (key_bytes network depth parent child chain key).
Proof.
  intros [Hd _] Hk. unfold key_bytes. rewrite !Forall_app. split_and!; try apply array_bytes_ok; [constructor; [exact Hd|constructor]|apply be_bytes_ok|done].
Qed.

(** The fields of the 78 bytes. *)
Lemma key_bytes_fields network depth parent child chain key :
  header_ok depth child -> length key = 33%nat ->
  let data := key_bytes network depth parent child chain key in
  length data = 78%nat /\ slice 0 4 data = bytes network /\ data !! 4%nat = Some depth /\ slice 5 9 data = bytes parent
  /\ child_from_u32 (be_value (slice 9 13 data)) = child /\ slice 13 45 data = bytes chain /\ slice 45 78 data = key.
Proof.
  intros [Hd Hc] Hk. cbv zeta. unfold key_bytes, slice.
  destruct (array_bytes_ok network) as [Hn _], (array_bytes_ok parent) as [Hp _], (array_bytes_ok chain) as [Hch _].
  pose proof (length_be_bytes 4 (child_to_u32 child)) as Hcb. destruct (child_roundtrip child Hc) as [Hr Hb].
  assert (be_value (be_bytes 4 (child_to_u32 child)) = child_to_u32 child) as Hv by (by apply be_value_bytes).
  split; [rewrite !length_app, Hn, Hp, Hch, Hcb, Hk; done|].
  revert Hn Hp Hch Hcb Hv. generalize (bytes network) (bytes parent) (bytes chain) (be_bytes 4 (child_to_u32 child)).
  intros n p ch cb Hn Hp Hch Hcb Hv. do 4 (destruct n as [|? n]; [discriminate Hn|]). destruct n; [|discriminate Hn].
  do 4 (destruct p as [|? p]; [discriminate Hp|]). destruct p; [|discriminate Hp].
  do 4 (destruct cb as [|? cb]; [discriminate Hcb|]). destruct cb; [|discriminate Hcb].
  cbn [app take drop Nat.sub]. split_and!; try done.
  - etransitivity; [|exact Hr]. by rewrite <- Hv.
  - rewrite <- Hch at 1. apply (take_app_length ch key).
  - rewrite <- (firstn_all key) at 2. rewrite Hk. f_equal. rewrite <- Hch at 1. apply (drop_app_length ch key).
Qed.

(** The text of a private key is read back, its key being one that the library accepts. *)
Lemma priv_text_roundtrip k :
  header_ok (priv_depth k) (priv_child k) -> secret_key_from_slice (priv_key k) = Some (priv_key k) ->
  exists s, priv_to_string sha256 k = Ok s /\ priv_from_str sha256 s = Ok k.
Proof.
  intros Hh Hs. unfold priv_to_string, priv_from_str. set (key := 0 :: bytes (priv_key k)).
  destruct (array_bytes_ok (priv_key k)) as [Hl Hb]. assert (length key = 33%nat) as Hk by (unfold key; cbn; by rewrite Hl).
  assert (Forall is_byte key) as Hbk by (constructor; [unfold is_byte; lia|done]).
  destruct (check_decode_encode sha256 (key_bytes (priv_network k) (priv_depth k) (priv_parent k) (priv_child k) (priv_chain k) key))
    as (s & E & Hf); [by apply key_bytes_ok|]. exists s. split; [done|]. rewrite Hf. cbn [bind].
  destruct (key_bytes_fields (priv_network k) (priv_depth k) (priv_parent k) (priv_child k) (priv_chain k) key Hh Hk)
    as (Hlen & H4 & Hd & Hp & Hc & Hch & Hkey). set (data := key_bytes _ _ _ _ _ _) in *. rewrite Hlen. cbn [Nat.eqb negb]. rewrite Hd. cbn [unwrap bind].
  assert (slice 46 78 data = bytes (priv_key k)) as ->.
  { change (slice 46 78 data) with (take 32 (drop (45 + 1) data)). rewrite <- drop_drop. unfold slice in Hkey. cbn [Nat.sub] in Hkey.
    assert (drop 45 data = key) as -> by (rewrite <- Hkey; symmetry; apply take_ge; rewrite length_drop; lia).
    unfold key. cbn [drop]. apply take_ge. lia. }
  rewrite from_vec_bytes, Hs. cbn [ok_or bind]. rewrite H4, Hp, Hc, Hch, !from_vec_bytes. by destruct k.
Qed.
End Text.
