(* ===== verification/LibTx.v ===== *)
(** * Building transactions

    [core/src/libtx/]: the combinators of [build.rs], the rewards of [reward.rs], the range
    proofs of [proof.rs], the signatures of [aggsig.rs] and the fee of [mod.rs].  The random
    key of a split and the keychain are arguments. *)
From S2P Require Import Prelude Ser Global Pow Reward Committed Transaction Base58 Mnemonic ExtKey Keychain.

Inductive libtx_error : Type :=
| LibSecp
| LibKeychain (e : keychain_error)
| LibTransaction (e : tx_error)
| LibSignature
| LibRangeProof.

(** [Result::unwrap]. *)
Definition expect {E F A} (m : outcome E A) : outcome F A :=
  match m with Ok a => Ok a | _ => Panic end.

Definition MILLI_EPIC : Z := EPIC_BASE / 1000.
Definition DEFAULT_BASE_FEE : Z := MILLI_EPIC.
Definition tx_fee (input_len output_len kernel_len : Z) (base_fee : option Z) : Z :=
  weight input_len output_len kernel_len *! default DEFAULT_BASE_FEE base_fee.

Section LibTx.
Context `{Hasher} `{KeyHashes} `{SecpSigning}.
Context (kc : ExtKeychain).

(** ** Range proofs *)
Definition create (amount : Z) (d : Identifier) : outcome libtx_error RangeProof :=
  let? commit := map_err LibKeychain (key_commit kc amount d) in
  let? skey := map_err LibKeychain (derive_key kc amount d) in
  let? nonce := map_err (fun _ => LibRangeProof) (create_nonce kc commit) in
  Ok (bullet_proof amount skey nonce (serialize_path d)).

(** A proof of another keychain is no error: it gives a record of failure. *)
Record ProofInfo := mkProofInfo { success : bool; pi_value : Z; pi_message : list Z }.
Definition rewind (commit : Commitment) (proof : RangeProof) : outcome libtx_error ProofInfo :=
  let? nonce := map_err (fun _ => LibRangeProof) (create_nonce kc commit) in
  Ok match rewind_bullet_proof commit nonce proof with
     | Some (v, m) => mkProofInfo true v m
     | None => mkProofInfo false 0 []
     end.

(** ** Signatures *)
Definition sign_from_key_id (msg : Hash) (value : Z) (d : Identifier) (s_nonce : option SecretKey) (blind_sum : option PublicKey)
    : outcome libtx_error Signature :=
  let? skey := map_err LibKeychain (derive_key kc value d) in
  ok_or (sign_single skey s_nonce blind_sum msg) LibSecp.
Definition verify_single_from_commit (sig : Signature) (msg : Hash) (commit : Commitment) : outcome libtx_error () :=
  let? pubkey := ok_or (to_pubkey commit) LibSecp in
  if negb (verify_single sig msg pubkey) then Err LibSignature else Ok tt.
Definition sign_with_blinding (msg : Hash) (blinding : BlindingFactor) (pubkey_sum : option PublicKey) : outcome libtx_error Signature :=
  let? skey := ok_or (secret_key blinding) (LibKeychain KeySecp) in
  ok_or (sign_single skey None pubkey_sum msg) LibSecp.

(** ** Combinators *)
Definition Building : Type := Transaction * TxKernel * BlindSum.
Definition Append : Type := Building -> outcome libtx_error Building.

Definition tx_with_input (i : Input) (t : Transaction) : Transaction := mkTransaction (offset t) (with_input (body t) i).
Definition tx_with_output (o : Output) (t : Transaction) : Transaction := mkTransaction (offset t) (with_output (body t) o).
Definition tx_with_kernel (k : TxKernel) (t : Transaction) : Transaction := mkTransaction (offset t) (with_kernel (body t) k).
Definition kernel_empty : TxKernel := mkTxKernel KernelPlain 0 0 (from_vec []) (from_vec []).

Definition build_input (value : Z) (features : OutputFeatures) (d : Identifier) : Append := fun '(tx, kern, sum) =>
  let? commit := expect (key_commit kc value d) in
  Ok (tx_with_input (mkInput features commit) tx, kern, sub_key_id (to_value_path d value) sum).
Definition input (value : Z) (d : Identifier) : Append := build_input value Plain d.
Definition coinbase_input (value : Z) (d : Identifier) : Append := build_input value Coinbase d.

Definition output (value : Z) (d : Identifier) : Append := fun '(tx, kern, sum) =>
  let? commit := expect (key_commit kc value d) in
  let? rproof := expect (create value d) in
  Ok (tx_with_output (mkOutput Plain commit rproof) tx, kern, add_key_id (to_value_path d value) sum).

Definition with_fee (fee : Z) : Append := fun '(tx, kern, sum) => Ok (tx, Transaction.with_fee kern fee, sum).
Definition with_lock_height (lock_height : Z) : Append := fun '(tx, kern, sum) =>
  Ok (tx, Transaction.with_lock_height kern lock_height, sum).
Definition with_excess (excess : BlindingFactor) : Append := fun '(tx, kern, sum) =>
  Ok (tx, kern, add_blinding_factor excess sum).
Definition with_offset (offset : BlindingFactor) : Append := fun '(tx, kern, sum) =>
  Ok (Transaction.with_offset tx offset, kern, sum).
(** The kernel is taken out when the combinator is made. *)
Definition initial_tx (tx : Transaction) : outcome libtx_error Append :=
  match kernels (body tx) with
  | [kern] =>
      let tx := mkTransaction (offset tx) (mkBody (inputs (body tx)) (outputs (body tx)) []) in
      Ok (fun '(_, _, sum) => Ok (tx, kern, sum))
  | _ => Panic
  end.

Definition build_all (elems : list Append) : outcome libtx_error Building :=
  foldM (fun acc elem => elem acc) elems (tx_empty, kernel_empty, blind_sum_new).

Definition partial_transaction (elems : list Append) : outcome libtx_error (Transaction * BlindingFactor) :=
  let? '(tx, kern, sum) := build_all elems in
  let? blind := map_err LibKeychain (blind_sum kc sum) in
  match kernels (body tx) with
  | [] => Ok (tx_with_kernel kern tx, blind)
  | _ => Panic
  end.

(** [skey_1]: the random key. *)
Definition transaction (skey_1 : SecretKey) (elems : list Append) : outcome libtx_error Transaction :=
  let? '(tx, kern, sum) := build_all elems in
  let? blind := map_err LibKeychain (blind_sum kc sum) in
  let? '(k1, k2) := map_err LibKeychain (split skey_1 blind) in
  let? msg := map_err LibTransaction (kernel_sig_msg (fee kern) (lock_height kern) (features kern)) in
  let? skey := ok_or (secret_key k1) (LibKeychain KeySecp) in
  let? excess := ok_or (Committed.commit 0 skey) LibSecp in
  let? pubkey := ok_or (to_pubkey excess) LibSecp in
  let? sig := expect (sign_with_blinding msg k1 (Some pubkey)) in
  let kern := mkTxKernel (features kern) (fee kern) (lock_height kern) excess sig in
  let tx := Transaction.with_offset tx k2 in
  match kernels (body tx) with
  | [] => let tx := tx_with_kernel kern tx in
          if (length (kernels (body tx)) =? 1)%nat then Ok tx else Panic
  | _ => Panic
  end.

(** ** Rewards *)
(** The output and the kernel for a value: [output] and [output_foundation] differ in it. *)
Definition reward_for (value : Z) (d : Identifier) (test_mode : bool) : outcome libtx_error (Output * TxKernel) :=
  let? commit := map_err LibKeychain (key_commit kc value d) in
  let? rproof := create value d in
  let output := mkOutput Coinbase commit rproof in
  let? over_commit := ok_or (commit_value value) LibSecp in
  let? excess := ok_or (commit_sum [out_commit output] [over_commit]) LibSecp in
  let? pubkey := ok_or (to_pubkey excess) LibSecp in
  let? msg := map_err LibTransaction (kernel_sig_msg 0 0 KernelCoinbase) in
  let? nonce := if test_mode then let? n := ok_or (secret_key_from_slice (from_vec (replicate 32 1))) LibSecp in Ok (Some n)
                else Ok None in
  let? sig := sign_from_key_id msg value d nonce (Some pubkey) in
  Ok (output, mkTxKernel KernelCoinbase 0 0 excess sig).

Definition reward_output (d : Identifier) (fees : Z) (test_mode : bool) (height : Z) : outcome libtx_error (Output * TxKernel) :=
  let? value := expect (reward fees height) in reward_for value d test_mode.
Definition output_foundation (c : ChainTypes) (d : Identifier) (test_mode : bool) (height : Z) : outcome libtx_error (Output * TxKernel) :=
  let? value := expect (cumulative_reward_foundation c height) in reward_for value d test_mode.
End LibTx.
