(* ===== verification/LibTxTheory.v ===== *)
(** * Built transactions are valid

    Insertion in order; what the combinators accumulate; a transaction built from balanced
    parts passes the validation of [Transaction], and the output and kernel of a reward are
    what the validation of a block asks for. *)
From S2P Require Import Prelude Ser Global Pow Reward Committed Transaction CutThrough Base58 Base58Theory Mnemonic MnemonicTheory ExtKey Keychain KeyTheory LibTx.

(** ** Insertion in order *)
Section Insertion.
Context {A : Type} (h : A -> Hash).

Definition in_order (l : list A) : Prop := StronglySorted (fun a b => hash_lt (h a) (h b)) l.

Lemma in_order_lt l i j a b : in_order l -> (i < j)%nat -> l !! i = Some a -> l !! j = Some b -> hash_lt (h a) (h b).
Proof.
  intros Hs. revert i j. induction Hs as [|x l Hs IH Hx]; intros i j Hij Ha Hb; [done|].
  rewrite Forall_forall in Hx. destruct i, j; [lia| |lia|by eapply (IH i j); [lia|..]].
  injection Ha as <-. apply Hx. by eapply list_elem_of_lookup_2.
Qed.

Lemma in_order_probe l x : in_order l -> probe_sorted (fun y => hash_cmp (h y) (h x)) l.
Proof.
  intros Hs i j a b Hij Ha Hb. pose proof (in_order_lt l i j a b Hs Hij Ha Hb) as Hlt. unfold hash_lt, hash_cmp in *. split.
  - intros Hg. rewrite lex_cmp_opp in Hg. assert (lex_cmp (bytes (h x)) (bytes (h a)) = Lt) as Hx by (by destruct (lex_cmp (bytes (h x)) (bytes (h a)))).
    rewrite lex_cmp_opp. by rewrite (lex_cmp_trans _ _ _ Hx Hlt).
  - intros Hl. by eapply lex_cmp_trans.
Qed.

(** It keeps the order; it adds one element or, when there is one with its hash, nothing. *)
Lemma insert_sorted_exact l x :
  in_order l ->
  in_order (insert_sorted h l x)
  /\ (insert_sorted h l x = l \/ insert_sorted h l x ≡ₚ x :: l).
Proof.
  intros Hs. unfold insert_sorted. pose proof (binary_search_by_spec _ _ (in_order_probe l x Hs)) as Hb.
  destruct (binary_search_by _ l) as [i|i|]; [split; [done|by left]| |split; [done|by left]]. destruct Hb as [Hi Hcmp]. split.
  - rewrite <- (take_drop i l) in Hs. apply StronglySorted_app in Hs as (Hcross & H1 & H2).
    assert (forall a, a ∈ take i l -> hash_lt (h a) (h x)) as Hlo.
    { intros a Ha. apply list_elem_of_lookup_1 in Ha as [k Hk]. apply lookup_take_Some in Hk as [Hk Hlt]. specialize (Hcmp k a Hk).
      destruct (Nat.ltb_spec k i); [exact Hcmp|lia]. }
    assert (forall b, b ∈ drop i l -> hash_lt (h x) (h b)) as Hhi.
    { intros b Hb. apply list_elem_of_lookup_1 in Hb as [k Hk]. rewrite lookup_drop in Hk. specialize (Hcmp _ b Hk).
      destruct (Nat.ltb_spec (i + k) i); [lia|]. unfold hash_lt. unfold hash_cmp in *. rewrite lex_cmp_opp. by rewrite Hcmp. }
    apply StronglySorted_app_2; [|done|].
    + intros a b Ha Hb. apply elem_of_cons in Hb as [->|Hb]; [by apply Hlo|]. by apply Hcross.
    + constructor; [done|]. apply Forall_forall. exact Hhi.
  - right. rewrite <- (take_drop i l) at 3. by rewrite Permutation_middle.
Qed.
End Insertion.

(** ** What the curve library promises *)
(** A commitment is to its value under its key; what is signed with the key of a commitment
    to zero verifies against it; range proofs of committed values verify together. *)
Class BuildLaws `{Hasher} `{SecpSigning} (G : Type) `{!SecpLaws G} := {
  commit_point : forall v k c, Committed.commit v k = Some c -> point c = gadd (value_point v) (key_point k);
  signature_verifies : forall c k n p msg sig, point c = key_point k -> to_pubkey c = Some p ->
    sign_single k n (Some p) msg = Some sig -> verify_single sig msg p = true;
  proofs_verify : forall cs ps, Forall2 (fun c p => exists v k n m, Committed.commit v k = Some c /\ p = bullet_proof v k n m) cs ps ->
    verify_bullet_proof_multi cs ps = true }.

Section Building.
Context `{Hasher} `{KeyHashes} `{SecpSigning} {G : Type} `{!SecpLaws G} `{!BuildLaws G} (kc : ExtKeychain).

(** ** Parts *)
Inductive part : Type :=
| Spend (features : OutputFeatures) (value : Z) (d : Identifier)
| Make (value : Z) (d : Identifier)
| Fee (fee : Z)
| Lock (height : Z).
Definition append_of (p : part) : Append :=
  match p with
  | Spend f v d => build_input kc v f d
  | Make v d => output kc v d
  | Fee f => with_fee f
  | Lock l => with_lock_height l
  end.

Definition part_ok (p : part) : Prop := match p with Fee x | Lock x => 0 <= x | _ => True end.
Definition spent (p : part) : option (OutputFeatures * Z * Identifier) := match p with Spend f v d => Some (f, v, d) | _ => None end.
Definition made (p : part) : option (Z * Identifier) := match p with Make v d => Some (v, d) | _ => None end.
(** The last fee counts. *)
Definition fee_of (parts : list part) : Z := foldl (fun f p => match p with Fee f => f | _ => f end) 0 parts.
Definition total_in (parts : list part) : Z := foldr (fun x acc => x.1.2 + acc) 0 (omap spent parts).
Definition total_out (parts : list part) : Z := foldr (fun x acc => x.1 + acc) 0 (omap made parts).

(** A coin: value, identifier, key and commitment. *)
Record coin := mkCoin { co_value : Z; co_id : Identifier; co_key : SecretKey; co_commit : Commitment }.
Definition coin_ok (x : coin) : Prop :=
  derive_key kc (co_value x) (co_id x) = Ok (co_key x) /\ Committed.commit (co_value x) (co_key x) = Some (co_commit x).
Definition coin_path (x : coin) : ValueExtKeychainPath := to_value_path (co_id x) (co_value x).
Definition coin_values (l : list coin) : Z := foldr (fun x acc => co_value x + acc) 0 l.

Lemma key_commit_coin v d c : key_commit kc v d = Ok c -> exists k, coin_ok (mkCoin v d k c).
Proof.
  unfold key_commit. intros Hk. apply bind_Ok_inv in Hk as (k & Hk & Hc). exists k. split; [done|]. by apply ok_or_Ok in Hc.
Qed.

(** The sum of blinding factors takes every key of the coins: an identifier is that of its
    path. *)
Lemma derive_all_coins l : Forall coin_ok l -> derive_all kc (map coin_path l) = Ok (map co_key l).
Proof.
  induction 1 as [|x l [Hk _] _ IH]; [done|]. cbn [map derive_all coin_path to_value_path vp_value vp_path].
  unfold from_path, to_path. rewrite (proj1 (identifier_path (co_id x))), Hk. cbn [bind]. by rewrite IH.
Qed.

Lemma coin_points l : Forall coin_ok l -> psum (map co_commit l) = gadd (value_point (coin_values l)) (ksum (map co_key l)).
Proof.
  induction 1 as [|x l [_ Hc] _ IH]; [cbn; by rewrite value_point_0, gadd_0|].
  unfold psum, ksum, coin_values in *. cbn [map foldr]. rewrite IH, (commit_point _ _ _ Hc), value_point_add. apply gadd_swap.
Qed.

(** ** What has been built *)
(** One input for each coin spent, or fewer. *)
Definition inserted {A} (h : A -> Hash) (l : list A) (wanted : list A) : Prop :=
  in_order h l /\ (length l <= length wanted)%nat /\ (length l = length wanted -> l ≡ₚ wanted).

Lemma inserted_next {A} (h : A -> Hash) l wanted x : inserted h l wanted -> inserted h (insert_sorted h l x) (x :: wanted).
Proof.
  intros (Hs & Hl & Hp). destruct (insert_sorted_exact h l x Hs) as [Hs' [->|E]]; (split; [done|]); cbn [length].
  - split; lia.
  - rewrite E. cbn [length]. split; [lia|]. intros Hlen. by rewrite Hp by lia.
Qed.

Definition input_of (x : coin * OutputFeatures) : Input := mkInput x.2 (co_commit x.1).
Definition output_of (x : coin * RangeProof) : Output := mkOutput Plain (co_commit x.1) x.2.
Definition proof_ok (x : coin * RangeProof) : Prop :=
  exists n m, x.2 = bullet_proof (co_value x.1) (co_key x.1) n m.

Definition kernel_plain (k : TxKernel) : Prop :=
  features k <> KernelCoinbase /\ (features k = KernelPlain -> lock_height k = 0).

Definition built (parts : list part) (b : Building) (ins : list (coin * OutputFeatures)) (outs : list (coin * RangeProof)) : Prop :=
  let '(tx, kern, sum) := b in
  Forall coin_ok (map fst ins) /\ Forall coin_ok (map fst outs) /\ Forall proof_ok outs
  /\ negative_key_ids sum = rev (map (fun x => coin_path x.1) ins) /\ positive_key_ids sum = rev (map (fun x => coin_path x.1) outs)
  /\ positive_blinding_factors sum = [] /\ negative_blinding_factors sum = []
  /\ inserted input_hash (inputs (body tx)) (map input_of ins) /\ inserted output_hash (outputs (body tx)) (map output_of outs)
  /\ kernels (body tx) = [] /\ fee kern = fee_of parts /\ kernel_plain kern
  /\ coin_values (map fst ins) = total_in parts /\ coin_values (map fst outs) = total_out parts
  /\ length ins = length (omap spent parts) /\ length outs = length (omap made parts).

Lemma omap_snoc {A B} (f : A -> option B) l x : omap f (l ++ [x]) = omap f l ++ match f x with Some y => [y] | None => [] end.
Proof. rewrite omap_app. f_equal. Qed.

Lemma foldr_add_snoc {A} (f : A -> Z) l x : foldr (fun x acc => f x + acc) 0 (l ++ [x]) = foldr (fun x acc => f x + acc) 0 l + f x.
Proof. induction l as [|y l IH]; cbn [app foldr]; [lia|]. rewrite IH. lia. Qed.

Lemma fee_of_snoc parts p : fee_of (parts ++ [p]) = match p with Fee f => f | _ => fee_of parts end.
Proof. unfold fee_of. rewrite foldl_app. cbn [foldl]. by destruct p. Qed.

Lemma build_step parts b ins outs p b' :
  part_ok p -> built parts b ins outs -> append_of p b = Ok b' -> exists ins' outs', built (parts ++ [p]) b' ins' outs'.
Proof.
  destruct b as [[tx kern] sum]. intros Hok (Hci & Hco & Hpr & Hn & Hps & Hbp & Hbn & Hii & Hoo & Hk & Hf & Hkp & Hvi & Hvo & Hli & Hlo) Ha.
  destruct p as [ft v d|v d|f|l]; cbn [append_of] in Ha.
  - unfold build_input in Ha. destruct (key_commit kc v d) as [c| |] eqn:Ec; [|done..]. cbn [expect bind] in Ha. injection Ha as <-.
    destruct (key_commit_coin v d c Ec) as [k Hcoin]. exists ((mkCoin v d k c, ft) :: ins), outs. unfold built.
    cbn [map fst body tx_with_input with_input inputs outputs kernels negative_key_ids positive_key_ids positive_blinding_factors
      negative_blinding_factors sub_key_id length rev].
    rewrite fee_of_snoc. unfold total_in, total_out. rewrite !omap_snoc. cbn [spent made]. rewrite app_nil_r, !length_app. cbn [length].
    split_and!; try done; [by constructor|by rewrite Hn|by apply inserted_next| |lia].
    rewrite (foldr_add_snoc (fun x => x.1.2)). fold (total_in parts). cbn [fst snd]. unfold coin_values in *. cbn [foldr co_value]. lia.
  - unfold output in Ha. destruct (key_commit kc v d) as [c| |] eqn:Ec; [|done..]. cbn [expect bind] in Ha.
    destruct (create kc v d) as [rp| |] eqn:Er; [|done..]. cbn [expect bind] in Ha. injection Ha as <-.
    destruct (key_commit_coin v d c Ec) as [k Hcoin]. exists ins, ((mkCoin v d k c, rp) :: outs). unfold built.
    assert (proof_ok (mkCoin v d k c, rp)) as Hrp.
    { unfold create in Er. rewrite Ec in Er. cbn [map_err bind] in Er. destruct Hcoin as [Hdk _]. cbn [co_value co_id co_key] in Hdk.
      rewrite Hdk in Er. cbn [map_err bind] in Er.
      apply bind_Ok_inv in Er as (n & _ & [= <-]). by eexists _, _. }
    cbn [map fst body tx_with_output with_output inputs outputs kernels negative_key_ids positive_key_ids positive_blinding_factors
      negative_blinding_factors add_key_id length rev].
    rewrite fee_of_snoc. unfold total_in, total_out. rewrite !omap_snoc. cbn [spent made]. rewrite app_nil_r, !length_app. cbn [length].
    split_and!; try done; [by constructor|by constructor|by rewrite Hps|by apply inserted_next| |lia].
    rewrite (foldr_add_snoc fst). fold (total_out parts). cbn [fst]. unfold coin_values in *. cbn [foldr co_value]. lia.
  - injection Ha as <-. exists ins, outs. unfold built, total_in, total_out. rewrite fee_of_snoc, !omap_snoc. cbn [spent made]. rewrite !app_nil_r.
    by split_and!.
  - injection Ha as <-. exists ins, outs. unfold built, total_in, total_out. rewrite fee_of_snoc, !omap_snoc. cbn [spent made]. rewrite !app_nil_r.
    split_and!; try done. unfold kernel_plain. cbn [features lock_height Transaction.with_lock_height]. unfold kernel_features.
    destruct (Z.gtb_spec l 0); (split; [done|]); [done|]. intros _. cbn [part_ok] in Hok. lia.
Qed.

Lemma build_all_built parts b :
  Forall part_ok parts -> build_all (map append_of parts) = Ok b -> exists ins outs, built parts b ins outs.
Proof.
  unfold build_all. intros Hok. revert b. induction parts as [|p parts IH] using rev_ind; intros b Hb.
  { injection Hb as <-. exists [], []. unfold built, inserted, in_order.
    split_and!; try done; constructor. }
  apply Forall_app in Hok as [Hok Hp]. rewrite Forall_singleton in Hp. rewrite map_app, foldM_app in Hb.
  apply bind_Ok_inv in Hb as (b1 & E1 & Hb). cbn [map foldM] in Hb. apply bind_Ok_inv in Hb as (b2 & E2 & [= <-]).
  destruct (IH Hok b1 E1) as (ins & outs & Hbuilt). by eapply build_step.
Qed.

(** ** A built transaction *)
Lemma split_points sk b k1 k2 : split sk b = Ok (k1, k2) -> k1 = sk /\ gadd (key_point k2) (key_point k1) = key_point b.
Proof.
  unfold split. intros Hs. apply bind_Ok_inv in Hs as (k & Hk%ok_or_Ok & Hs). apply bind_Ok_inv in Hs as (k' & Hk'%ok_or_Ok & [= <- <-]).
  split; [done|]. apply blind_sum_point in Hk'. cbn [foldr] in Hk'. rewrite !gadd_0 in Hk'. rewrite Hk'. f_equal.
  unfold secret_key in Hk. case_decide as Hz; [injection Hk as <-; by rewrite Hz|]. by apply secret_key_bytes in Hk.
Qed.

Lemma ksum_perm l k : l ≡ₚ k -> ksum l = ksum k.
Proof.
  unfold ksum. induction 1 as [|x l k _ IH|x y l|l k m _ IH1 _ IH2]; cbn [foldr]; [done|by rewrite IH| |congruence].
  rewrite !gadd_assoc. f_equal. apply gadd_comm.
Qed.

Lemma blind_sum_coins sum ins outs b :
  Forall coin_ok ins -> Forall coin_ok outs ->
  negative_key_ids sum = rev (map coin_path ins) -> positive_key_ids sum = rev (map coin_path outs) ->
  positive_blinding_factors sum = [] -> negative_blinding_factors sum = [] ->
  blind_sum kc sum = Ok b -> gadd (key_point b) (ksum (map co_key ins)) = ksum (map co_key outs).
Proof.
  intros Hi Ho Hn Hp Hbp Hbn Hb. unfold blind_sum in Hb. rewrite Hn, Hp, Hbp, Hbn, <- !map_rev in Hb.
  rewrite !derive_all_coins in Hb by (by apply Forall_rev). cbn [bind omap list_omap] in Hb. rewrite !app_nil_r in Hb.
  apply ok_or_Ok, blind_sum_point in Hb. fold (ksum (map co_key (rev ins))) (ksum (map co_key (rev outs))) in Hb.
  rewrite !map_rev in Hb. rewrite <- (ksum_perm _ _ (Permutation_rev (map co_key ins))) in Hb.
  by rewrite <- (ksum_perm _ _ (Permutation_rev (map co_key outs))) in Hb.
Qed.

(** The kernel, the offset and what the combinators left. *)
Lemma transaction_inv sk elems tx :
  transaction kc sk elems = Ok tx ->
  exists tx0 kern sum b k2 excess sig p msg,
    build_all elems = Ok (tx0, kern, sum) /\ blind_sum kc sum = Ok b /\ split sk b = Ok (sk, k2)
    /\ kernel_sig_msg (fee kern) (lock_height kern) (features kern) = Ok msg
    /\ Committed.commit 0 sk = Some excess /\ to_pubkey excess = Some p /\ sign_single sk None (Some p) msg = Some sig
    /\ kernels (body tx0) = []
    /\ tx = mkTransaction k2 (mkBody (inputs (body tx0)) (outputs (body tx0))
               [mkTxKernel (features kern) (fee kern) (lock_height kern) excess sig]).
Proof.
  unfold transaction. intros Ht. apply bind_Ok_inv in Ht as ([[tx0 kern] sum] & Hb & Ht).
  apply bind_Ok_inv in Ht as (b & Hbs%map_err_Ok_inv & Ht). apply bind_Ok_inv in Ht as ([k1 k2] & Hsp%map_err_Ok_inv & Ht).
  destruct (split_points _ _ _ _ Hsp) as [-> _]. apply bind_Ok_inv in Ht as (msg & Hm%map_err_Ok_inv & Ht).
  apply bind_Ok_inv in Ht as (k & Hk%ok_or_Ok & Ht). apply bind_Ok_inv in Ht as (excess & Hex%ok_or_Ok & Ht).
  apply bind_Ok_inv in Ht as (p & Hp%ok_or_Ok & Ht). apply bind_Ok_inv in Ht as (sig & Hsig & Ht).
  assert (k = sk) as ->.
  { unfold secret_key in Hk. case_decide as Hz; [injection Hk as <-; by rewrite Hz|]. by apply secret_key_bytes in Hk. }
  unfold sign_with_blinding in Hsig. rewrite Hk in Hsig. cbn [ok_or bind] in Hsig.
  destruct (sign_single sk None (Some p) msg) as [sig'|] eqn:Es; [|done]. injection Hsig as ->.
  cbn [body Transaction.with_offset] in Ht. destruct (kernels (body tx0)) as [|] eqn:Ek; [|done].
  exists tx0, kern, sum, b, k2, excess, sig, p, msg. split_and!; try done.
  revert Ht. unfold tx_with_kernel, with_kernel. cbn [body kernels offset Transaction.with_offset]. rewrite Ek.
  cbn [insert_sorted binary_search_by take drop app length Nat.eqb]. by intros [= <-].
Qed.

Lemma built_balance ins outs k1 k2 b fee excess (tx : Transaction) :
  Forall coin_ok ins -> Forall coin_ok outs -> coin_values ins = coin_values outs + fee ->
  inputs_committed tx ≡ₚ map co_commit ins -> outputs_committed tx ≡ₚ map co_commit outs ->
  kernels_committed tx = [excess] -> offset tx = k2 -> point excess = key_point k1 ->
  gadd (key_point k2) (key_point k1) = key_point b ->
  gadd (key_point b) (ksum (map co_key ins)) = ksum (map co_key outs) -> balance tx fee.
Proof.
  intros Hi Ho Hv Ein Eout Ek Eo Hex Hsplit Hsum. unfold balance.
  rewrite Ek, Eo, (psum_perm _ _ Ein), (psum_perm _ _ Eout), !coin_points by done. unfold psum. cbn [foldr]. rewrite gadd_0, Hex.
  rewrite (gadd_comm (key_point k1)), Hsplit, Hv, value_point_add, <- Hsum.
  rewrite (gadd_comm (key_point b)), (gadd_right_comm (value_point (coin_values outs))), gadd_assoc. done.
Qed.

Lemma built_kernel_verifies kern sk ex p msg sig :
  kernel_plain kern -> kernel_sig_msg (fee kern) (lock_height kern) (features kern) = Ok msg ->
  Committed.commit 0 sk = Some ex -> to_pubkey ex = Some p -> sign_single sk None (Some p) msg = Some sig ->
  kernel_verify (mkTxKernel (features kern) (fee kern) (lock_height kern) ex sig) = Ok tt.
Proof.
  intros [Hc Hp] Hm Hex Hpk Hs. unfold kernel_verify. cbn [features fee lock_height excess excess_sig].
  rewrite (bool_decide_eq_false_2 (features kern = KernelCoinbase)) by done. cbn [andb orb].
  assert (negb (bool_decide (features kern = HeightLocked)) && negb (lock_height kern =? 0) = false) as ->.
  { destruct (features kern) eqn:E; [by rewrite Hp|done|done]. }
  rewrite Hpk, Hm. cbn [ok_or bind]. by rewrite (signature_verifies _ _ _ _ _ _ (commit_key_point _ _ Hex) Hpk Hs).
Qed.

Lemma in_order_sorted {A} (h : A -> Hash) l : in_order h l -> sorted_by hash_lt h l.
Proof.
  unfold in_order, sorted_by. induction 1 as [|x l _ IH Hx]; [constructor|]. constructor; [done|]. by apply Forall_map.
Qed.

Lemma built_proofs outs :
  Forall coin_ok (map fst outs) -> Forall proof_ok outs -> forall l, l ≡ₚ map output_of outs ->
  verify_bullet_proof_multi (map out_commit l) (map out_proof l) = true.
Proof.
  intros Hc Hp l Hl. apply proofs_verify.
  assert (Forall (fun o => exists v k n m, Committed.commit v k = Some (out_commit o) /\ out_proof o = bullet_proof v k n m) l) as Hall.
  { rewrite Hl. clear l Hl. induction outs as [|[x rp] outs IH]; [constructor|]. cbn [map fst] in Hc |- *.
    apply Forall_cons in Hc as [[_ Hx] Hc], Hp as [(n & m & Hrp) Hp]. constructor; [|by apply IH].
    by exists (co_value x), (co_key x), n, m. }
  clear Hl. induction Hall as [|o l Ho _ IH]; cbn [map]; by constructor.
Qed.

Lemma fee_nonneg parts : Forall part_ok parts -> 0 <= fee_of parts.
Proof.
  intros Hok. induction parts as [|q parts IH] using rev_ind; [done|]. apply Forall_app in Hok as [Hok Hq]. rewrite Forall_singleton in Hq.
  rewrite fee_of_snoc. destruct q; [by apply IH|by apply IH|exact Hq|by apply IH].
Qed.

(** C16. What is built from balanced parts is valid.  A transaction built with the combinators
    from coins of the keychain, whose inputs amount to its outputs and its fee, none of them
    dropped as a duplicate and none cut through, within the weight limit and with sums that the
    curve library can compute, passes the whole validation of transactions: order, range
    proofs, signature, features and balance. *)
Theorem built_transaction_valid c sk parts tx u k k' :
  transaction kc sk (map append_of parts) = Ok tx ->
  Forall part_ok parts -> fee_of parts < 2 ^ 63 -> total_in parts = total_out parts + fee_of parts ->
  length (inputs (body tx)) = length (omap spent parts) -> length (outputs (body tx)) = length (omap made parts) ->
  verify_weight c AsTransaction (body tx) = Ok tt ->
  (forall i o, i ∈ inputs (body tx) -> o ∈ outputs (body tx) -> input_hash i <> output_hash o) ->
  sum_commitments tx (fee_of parts) = Ok u -> sum_kernel_excesses tx (offset tx) = Ok (k, k') ->
  tx_validate c AsTransaction tx = Ok tt.
Proof.
  intros Ht Hok Hfee Hbal Hli Hlo Hw Hcut Hu Hk.
  destruct (transaction_inv sk _ tx Ht) as (tx0 & kern & sum & b & k2 & ex & sig & p & msg & Hb & Hbs & Hsp & Hm & Hex & Hp & Hs & Hk0 & E).
  destruct (build_all_built parts _ Hok Hb)
    as (ins & outs & Hci & Hco & Hpr & Hn & Hps & Hbp & Hbn & (Hsi & _ & Hii) & (Hso & _ & Hoo) & _ & Hf & Hkp & Hvi & Hvo & Hni & Hno).
  rewrite E in Hli, Hlo. cbn [body inputs outputs] in Hli, Hlo. specialize (Hii ltac:(rewrite length_map; lia)). specialize (Hoo ltac:(rewrite length_map; lia)).
  destruct (split_points sk b sk k2 Hsp) as [_ Hpts].
  pose proof (fee_nonneg parts Hok) as Hf0. assert (body_overage (body tx) = fee_of parts) as Hov.
  { rewrite body_overage_exact; rewrite E; unfold fees_ok, kernel_fees; cbn [body kernels foldr fee]; [lia|repeat constructor; cbn [fee]; lia|lia]. }
  unfold tx_validate, body_validate.
  assert (body_validate_read c AsTransaction (body tx) = Ok tt) as ->.
  { apply body_validate_read_exact. rewrite E in Hcut, Hw |- *. cbn [body inputs outputs kernels] in *.
    split_and!; [done|by apply in_order_sorted..|repeat constructor|done]. }
  cbn [bind]. rewrite Hov.
  assert (verify_kernel_sums tx (fee_of parts) (offset tx) = Ok (u, k)) as Hsums.
  { eapply verify_kernel_sums_balance; [lia|done|done|].
    apply (built_balance (map fst ins) (map fst outs) sk k2 b (fee_of parts) ex); try done; [lia|rewrite E..|by apply commit_key_point|].
    - change (map in_commit (inputs (body tx0)) ≡ₚ map co_commit (map fst ins)). by rewrite Hii, !map_map.
    - change (map out_commit (outputs (body tx0)) ≡ₚ map co_commit (map fst outs)). by rewrite Hoo, !map_map.
    - done.
    - done.
    - apply (blind_sum_coins sum); [done|done|by rewrite map_map|by rewrite map_map|done..]. }
  rewrite Hsums. rewrite E. cbn [body outputs kernels].
  assert ((match outputs (body tx0) with [] => Ok tt | _ => batch_verify_proofs (map out_commit (outputs (body tx0))) (map out_proof (outputs (body tx0))) end) = Ok tt) as ->.
  { destruct (outputs (body tx0)) as [|o l] eqn:Eo; [done|]. rewrite <- Eo. unfold batch_verify_proofs.
    by rewrite (built_proofs outs Hco Hpr (outputs (body tx0))) by (by rewrite Eo). }
  cbn [bind foldM]. rewrite (built_kernel_verifies kern sk ex p msg sig) by done. cbn [bind map_err].
  unfold verify_features, verify_output_features, verify_kernel_features. cbn [outputs kernels existsb features].
  rewrite (bool_decide_eq_false_2 (features kern = KernelCoinbase)) by apply Hkp.
  assert (existsb (fun o => bool_decide (out_features o = Coinbase)) (outputs (body tx0)) = false) as ->; [|done].
  apply not_true_is_false. intros (o & Ho & Hc)%existsb_exists. apply bool_decide_eq_true in Hc. apply list_elem_of_In in Ho.
  rewrite Hoo in Ho. apply list_elem_of_fmap in Ho as (x & -> & _). done.
Qed.

(** ** Rewards *)
(** C28. A reward is what a block asks for: the output and the kernel are coinbase ones, the
    signature of the kernel and the range proof of the output verify, and the output is the
    excess of the kernel plus exactly the value of the reward. *)
Theorem reward_valid value d test_mode out kern :
  reward_for kc value d test_mode = Ok (out, kern) ->
  out_features out = Coinbase /\ features kern = KernelCoinbase /\ kernel_verify kern = Ok tt
  /\ batch_verify_proofs [out_commit out] [out_proof out] = Ok tt
  /\ point (out_commit out) = gadd (point (excess kern)) (value_point value).
Proof.
  unfold reward_for. intros Hr. apply bind_Ok_inv in Hr as (c & Hc%map_err_Ok_inv & Hr). apply bind_Ok_inv in Hr as (rp & Hrp & Hr).
  destruct (key_commit_coin value d c Hc) as (key & Hd & Hco). cbn [co_value co_id co_key co_commit] in Hd, Hco.
  cbv zeta in Hr. apply bind_Ok_inv in Hr as (ov & Hov%ok_or_Ok & Hr). apply bind_Ok_inv in Hr as (ex & Hex%ok_or_Ok & Hr).
  apply bind_Ok_inv in Hr as (p & Hp%ok_or_Ok & Hr). apply bind_Ok_inv in Hr as (msg & Hm%map_err_Ok_inv & Hr).
  apply bind_Ok_inv in Hr as (nonce & _ & Hr). apply bind_Ok_inv in Hr as (sig & Hs & [= <- <-]).
  assert (gadd (point ex) (value_point value) = point c) as Hpt.
  { apply commit_sum_point in Hex. cbn [foldr out_commit] in Hex. rewrite !gadd_0 in Hex. by rewrite <- (commit_value_point _ _ Hov). }
  assert (point ex = key_point key) as Hkey.
  { apply (gadd_cancel _ _ (value_point value)). rewrite Hpt, (commit_point _ _ _ Hco). apply gadd_comm. }
  unfold sign_from_key_id in Hs. rewrite Hd in Hs. cbn [map_err bind] in Hs. apply ok_or_Ok in Hs.
  cbn [out_features out_commit out_proof features excess]. split_and!; [done|done| | |by rewrite Hpt].
  - unfold kernel_verify. cbn [features fee lock_height excess excess_sig]. rewrite Hp, Hm. cbn [ok_or bind].
    by rewrite (signature_verifies _ _ _ _ _ _ Hkey Hp Hs).
  - unfold batch_verify_proofs. rewrite proofs_verify; [done|]. constructor; [|constructor].
    unfold create in Hrp. rewrite Hc in Hrp. cbn [map_err bind] in Hrp. rewrite Hd in Hrp. cbn [map_err bind] in Hrp.
    apply bind_Ok_inv in Hrp as (n & _ & [= <-]). by exists value, key, n, (serialize_path d).
Qed.

(** ** Recovery *)
(** What the keychain needs to find its coins again. *)
Hypothesis rewinds : forall v k n m c, Committed.commit v k = Some c -> rewind_bullet_proof c n (bullet_proof v k n m) = Some (v, m).

Lemma serialized_path d : from_serialized_path (E := libtx_error) (be_value (take 1 (bytes d))) (serialize_path d) = Ok d.
Proof.
  unfold from_serialized_path, serialize_path. destruct (array_bytes_ok d) as [Hl Hb]. rewrite length_drop, Hl. cbn [Nat.sub Nat.ltb Nat.leb].
  f_equal. rewrite <- (from_vec_bytes d) at 3. f_equal. destruct (bytes d) as [|x l]; [done|]. injection Hl as Hl.
  change (drop 1 (x :: l)) with l. rewrite (take_ge l 16) by lia. done.
Qed.

(** From its seed alone, a keychain reads back the value and the path of its output. *)
Lemma output_recovered v d c rp :
  key_commit kc v d = Ok c -> create kc v d = Ok rp -> rewind kc c rp = Ok (mkProofInfo true v (serialize_path d)).
Proof.
  intros Hc Hr. destruct (key_commit_coin v d c Hc) as (key & Hd & Hco). cbn [co_value co_id co_key co_commit] in Hd, Hco.
  unfold create in Hr. rewrite Hc in Hr. cbn [map_err bind] in Hr. rewrite Hd in Hr. cbn [map_err bind] in Hr.
  apply bind_Ok_inv in Hr as (n & Hn & [= <-]). unfold rewind. rewrite Hn. cbn [bind]. by rewrite (rewinds _ _ _ _ _ Hco).
Qed.
End Building.
