(* ===== verification/KeyExample.v ===== *)
(** * Keys and built transactions: examples

    The curve of [CutThrough], on integers, with public keys that are the points: it has every
    property that the theorems on keys and on built transactions ask of it, and a keychain on
    it derives, builds and pays itself a reward. *)
From S2P Require Import Prelude Ser Global Pow Reward Committed Transaction CutThrough Base58 Base58Theory Mnemonic MnemonicTheory ExtKey Keychain KeyTheory LibTx LibTxTheory.

Definition point_proof (c : Commitment) : RangeProof := mkRangeProof (bytes c) 33.
#[local] Instance wallet_secp : Secp := {|
  PublicKey := array 33;
  to_pubkey c := Some c;
  verify_single sig _ p := bool_decide (sig = from_vec (bytes p));
  verify_bullet_proof_multi cs ps := bool_decide (ps = map point_proof cs);
  secret_key_from_slice b := Some b;
  Committed.commit v k := encode_checked 33 (v + value k);
  commit_value v := encode_checked 33 v;
  commit_sum ps ns := encode_checked 33 (values ps - values ns);
  Committed.blind_sum ps ns := encode_checked 32 (values ps - values ns);
  MAX_PROOF_SIZE := 33;
|}.
#[local] Instance wallet_keys : SecpKeys := {|
  pubkey_from_secret k := Some (encode 33 (value k));
  serialize_vec p := p;
  pubkey_from_slice p := Some p;
  add_assign t k := encode_checked 32 (value t + value k);
  add_exp_assign p t := encode_checked 33 (value p + value t);
|}.
#[local] Instance wallet_signing : SecpSigning := {|
  blind_switch _ k := Some k;
  sign _ _ := None;
  sign_single k _ p _ := match p with Some p => if value p =? value k then Some (from_vec (bytes p)) else None | None => None end;
  bullet_proof v k _ _ := point_proof (encode 33 (v + value k));
  rewind_bullet_proof _ _ _ := None;
  blake2b_32 _ _ := from_vec [1];
|}.
Definition byte_sum (l : list Z) : Z := foldr Z.add 0 l.
#[local] Instance wallet_hashes : KeyHashes := {|
  hmac_sha512 k d := from_vec (replicate 30 0 ++ [byte_sum k mod 256; byte_sum d mod 256] ++ d);
  sha_256 l := from_vec l;
  ripemd_160 l := from_vec l;
|}.
#[local] Existing Instance suffix_hasher.

#[local] Instance wallet_laws : SecpLaws Z.
Proof.
  refine (@Build_SecpLaws wallet_secp Z 0 Z.add Z.opp Z.add_comm Z.add_assoc Z.add_0_r Z.add_opp_diag_r
    value value eq_refl eq_refl _ _ (fun v => v) (fun a b => eq_refl) _ _ _ _).
  - intros ps ns c Hc. apply encode_checked_value in Hc as [Hc _]. fold (values ns) (values ps). lia.
  - intros ps ns ps' ns' c c' Hc Hc' He. apply encode_checked_value in Hc as [Hc ->], Hc' as [Hc' ->]. congruence.
  - intros v c Hc. by apply encode_checked_value in Hc as [Hc _].
  - intros k c Hc. by apply encode_checked_value in Hc as [Hc _].
  - intros ps ns k Hk. apply encode_checked_value in Hk as [Hk _]. fold (values ns) (values ps). lia.
  - by intros b k [= <-].
Defined.

Lemma key_range (k : array 32) : 0 <= value k < 2 ^ 256.
Proof. destruct (array_bytes_ok k) as [Hl Hb]. destruct (be_bytes_value (bytes k) Hb) as [_ Hr]. rewrite Hl in Hr. exact Hr. Qed.

#[local] Instance wallet_tweaks : TweakLaws.
Proof.
  constructor. intros t k s p Hs [= <-]. apply encode_checked_value in Hs as [Hs _].
  pose proof (key_range k). pose proof (key_range s).
  assert (2 ^ 256 < 2 ^ (8 * Z.of_nat 33)) by (vm_compute; reflexivity).
  exists (encode 33 (value s)). split; [|done]. unfold add_exp_assign, wallet_keys, encode_checked.
  rewrite value_encode by lia. rewrite Z.add_comm, <- Hs.
  destruct (Z.leb_spec 0 (value s)); [|lia]. destruct (Z.ltb_spec (value s) (2 ^ (8 * Z.of_nat 33))); [done|lia].
Qed.

#[local] Instance wallet_builds : BuildLaws Z.
Proof.
  constructor.
  - intros v k c Hc. by apply encode_checked_value in Hc as [Hc _].
  - intros c k n p msg sig _ _. cbn. destruct (value p =? value k); [|done]. intros [= <-]. by apply bool_decide_eq_true.
  - intros cs ps Hall. apply bool_decide_eq_true. induction Hall as [|c p cs ps (v & k & n & m & Hc & ->) _ IH]; [done|].
    cbn [map]. rewrite <- IH. f_equal. cbn. apply encode_checked_value in Hc as [_ ->]. done.
Qed.

(** ** Derivation *)
Definition wallet : ExtKeychain :=
  match from_seed [1; 2; 3] false with Ok k => k | _ => mkKeychain (mkPriv (from_vec []) 0 (from_vec []) (Normal 0) ZERO_KEY (from_vec [])) true (hasher_new false) end.
Definition steps : list ChildNumber := [Normal 1; Normal 44].
Definition watched : ExtendedPubKey :=
  mkPub (network_pub (hasher wallet)) (priv_depth (master wallet)) (priv_parent (master wallet)) (priv_child (master wallet))
    (encode 33 (value (priv_key (master wallet)))) (priv_chain (master wallet)).

Lemma derivation_agrees_witness :
  match derive_priv steps (master wallet) (hasher wallet) with
  | (Ok sk', h') => exists pk', derive_pub steps watched (hasher wallet) = (Ok pk', h') /\ from_private h' sk' = Ok pk'
  | _ => False
  end.
Proof.
  assert (is_ok (fst (derive_priv steps (master wallet) (hasher wallet))) = true) as Hok by (vm_compute; reflexivity).
  destruct (derive_priv steps (master wallet) (hasher wallet)) as [[sk'|e|] h'] eqn:E; [|discriminate Hok..].
  apply (derivation_agrees steps (master wallet) (hasher wallet) sk' h' watched); [vm_decide|exact E|].
  unfold watched. generalize (master wallet) (hasher wallet). reflexivity.
Defined.

(** ** Transactions *)
Definition first_id : Identifier := derive_key_id 1 1 0 0 0.
Definition second_id : Identifier := derive_key_id 1 30 0 0 0.
Definition parts : list part := [Spend Plain 10 first_id; Make 7 second_id; Fee 1; Fee 3].
Definition sk1 : SecretKey := encode 32 1.
Definition get {E A} (d : A) (m : outcome E A) : A := match m with Ok a => a | _ => d end.
Lemma get_ok {E A} (d : A) (m : outcome E A) : is_ok m = true -> m = Ok (get d m).
Proof. by destruct m. Qed.

Definition paid : Transaction := get tx_empty (transaction wallet sk1 (map (append_of wallet) parts)).
Definition paid_sum : Commitment := get commit_to_zero_value (sum_commitments paid (fee_of parts)).
Definition paid_kernels : Commitment * Commitment := get (commit_to_zero_value, commit_to_zero_value) (sum_kernel_excesses paid (offset paid)).

Lemma built_transaction_valid_witness : tx_validate AutomatedTesting AsTransaction paid = Ok tt.
Proof.
  apply (built_transaction_valid wallet AutomatedTesting sk1 parts paid paid_sum paid_kernels.1 paid_kernels.2).
  - apply get_ok. vm_compute. reflexivity.
  - repeat constructor; vm_compute; discriminate.
  - vm_compute. reflexivity.
  - vm_compute. reflexivity.
  - vm_compute. reflexivity.
  - vm_compute. reflexivity.
  - vm_compute. reflexivity.
  - assert (Forall (fun i => Forall (fun o => input_hash i <> output_hash o) (outputs (body paid))) (inputs (body paid))) as Hall by vm_decide.
    intros i o Hi Ho. rewrite Forall_forall in Hall. specialize (Hall i Hi). rewrite Forall_forall in Hall. by apply Hall.
  - apply get_ok. vm_compute. reflexivity.
  - rewrite <- surjective_pairing. apply get_ok. vm_compute. reflexivity.
Defined.

(** The same coin twice: the second input is dropped, both keys are summed, and what is built
    does not balance. *)
Definition doubled : list part := [Spend Plain 5 first_id; Spend Plain 5 first_id; Make 3 second_id; Make 4 (derive_key_id 1 31 0 0 0); Fee 3].
Example duplicate_unbalanced :
  match transaction wallet sk1 (map (append_of wallet) doubled) with
  | Ok tx => length (inputs (body tx)) = 1%nat /\ tx_validate AutomatedTesting AsTransaction tx = Err (TxCommitted KernelSumMismatch)
  | _ => False
  end.
Proof. vm_compute. by split. Qed.

(** ** Rewards *)
Definition paid_reward : Output * TxKernel := get (mkOutput Plain (from_vec []) (mkRangeProof [] 0), kernel_empty) (reward_for wallet 16 second_id true).
Lemma reward_valid_witness :
  out_features paid_reward.1 = Coinbase /\ features paid_reward.2 = KernelCoinbase /\ kernel_verify paid_reward.2 = Ok tt
  /\ batch_verify_proofs [out_commit paid_reward.1] [out_proof paid_reward.1] = Ok tt
  /\ point (out_commit paid_reward.1) = gadd (point (excess paid_reward.2)) (value_point 16).
Proof.
  apply (reward_valid wallet 16 second_id true). rewrite <- surjective_pairing. apply get_ok. vm_compute. reflexivity.
Defined.

(** ** Identifiers from elsewhere *)
(** A depth above four is an index out of range. *)
Example deep_identifier_panics : derive_key wallet 5 (from_vec [5]) = Panic /\ last_path_index (E := ()) (to_path (from_vec [5])) = Panic.
Proof. split; vm_compute; reflexivity. Qed.
