(* ===== verification/Mining.v ===== *)
(** * Building blocks to mine

    [servers/src/mining/mine_block.rs]: the block a miner works on, on top of the head of the
    chain, with what the pool has to offer and a coinbase of the wallet.  The answer of the
    wallet, the random nonce, the random seed of a burnt reward and the clock, in nanoseconds,
    are arguments. *)
From S2P Require Import Prelude PmmrIndex Pmmr PruneList PmmrBackend Ser Global Pow Reward Retarget Feijoada Committed Transaction Block ChainStore Pipe TxHashSet ProcessBlock Orphans ChainFacade Pool Node Base58 Mnemonic ExtKey Keychain LibTx.

(** The kinds of [servers::Error] that occur here. *)
Inductive mining_error : Type :=
| MineChain (e : chain_error)
| MineCore (e : block_error)
| MineKeychain (e : keychain_error)
| MineWalletComm.

Record BlockFees := mkBlockFees { bf_fees : Z; bf_key_id : option Identifier; bf_height : Z }.

(** What the wallet answers: an output, its kernel and the key. *)
Record CbData := mkCbData { cb_output : Output; cb_kernel : TxKernel; cb_key_id : option Identifier }.

(** One attempt: the clock, the nonce, the seed of a burnt reward, and the wallet, which may
    fail to answer. *)
Record attempt := mkAttempt {
  a_now : Z; a_nonce : Z; a_seed : list Z; a_wallet : BlockFees -> option CbData }.

Section Mining.
Context `{Hasher} `{KeyHashes} `{SecpSigning} (c : ChainTypes) (min_date max_date : Z).
Context (config : PolicyConfig) (load_foundation_output : Z -> Output * TxKernel).
Context (sort_buckets : list Bucket -> list Bucket).

(** ** The coinbase *)
Definition burn_reward (seed : list Z) (fees : BlockFees) (height : Z) : outcome mining_error (Output * TxKernel * BlockFees) :=
  let? keychain := map_err MineKeychain (from_seed seed (bool_decide (c = Floonet))) in
  let? '(out, kernel) := expect (reward_output keychain (derive_key_id 1 1 0 0 0) (bf_fees fees) false height) in
  Ok (out, kernel, fees).

(** [burn]: no address of a wallet is configured. *)
Definition get_coinbase (burn : bool) (a : attempt) (fees : BlockFees) (height : Z) : outcome mining_error (Output * TxKernel * BlockFees) :=
  if burn then burn_reward (a_seed a) fees height
  else
    let? res := ok_or (a_wallet a fees) MineWalletComm in
    Ok (cb_output res, cb_kernel res, mkBlockFees (bf_fees fees) (cb_key_id res) (bf_height fees)).

(** ** The iterators from the head *)
Definition difficulty_iter (s : Chain.Chain) (header : BlockHeader) : outcome chain_error (list HeaderInfo) :=
  let? head := Chain.head s in
  no_err (collect (difficulty_next c min_date max_date (Chain.view s)) (chain_fuel header) (iter_from (last_block_h head))).
Definition bottles_iter (s : Chain.Chain) (policy : Z) : outcome chain_error (list Policy) :=
  let? head := Chain.head s in
  no_err (collect (bottle_next c min_date max_date (Chain.view s) policy) 1 (iter_from (last_block_h head))).

Definition template_difficulty (s : Chain.Chain) (head : BlockHeader) : outcome chain_error HeaderInfo :=
  let? cursor := difficulty_iter s head in
  no_err (if height head <? difficultyfix_height c -! 1
          then next_difficulty c (height head +! 1) (PoWType_from (proof (pow head))) cursor
          else next_difficulty_era1 c (height head +! 1) (PoWType_from (proof (pow head))) cursor).

(** What the pool offers; none of it when the pool is in an unexpected state. *)
Definition mineable (n : Node) : outcome mining_error (list Transaction) :=
  let BC := pool_to_chain c min_date max_date (chain n) in
  match Pool.prepare_mineable_transactions (H1 := BC) c sort_buckets (txpool (tx_pool n)) (mineable_max_weight (Pool.config (tx_pool n))) with
  | Ok txs => Ok txs
  | Err _ => Ok []
  | Panic => Panic
  end.

(** ** The header *)
Definition template_time (now : Z) (head : BlockHeader) : Z :=
  let now_sec := now / 10 ^ 9 in
  if now_sec <=? h_timestamp head then h_timestamp head + 1 else now_sec.

(** The fields set after the block has been validated. *)
Definition set_template (h : BlockHeader) (seed : Hash) (nonce scaling time policy : Z) (bottles : Policy) : BlockHeader :=
  mkBlockHeader (version h) (height h) (prev_hash h) (prev_root h) time (output_root h) (range_proof_root h) (kernel_root h)
    (total_kernel_offset h) (output_mmr_size h) (kernel_mmr_size h)
    (mkProofOfWork (Pow.total_difficulty (pow h)) scaling nonce (proof (pow h)) seed) policy bottles.

(** The body with its coinbase, and the foundation's where it is due. *)
Definition assemble (now : Z) (head : BlockHeader) (txs : list Transaction) (coinbase : Output * TxKernel) (d : Difficulty)
    : outcome mining_error Block :=
  let? f := no_err (is_foundation_height c (height head +! 1)) in
  map_err MineCore
    (if f then from_coinbases c now head txs coinbase (load_foundation_output (height head +! 1)) d
     else from_reward c now head txs coinbase.1 coinbase.2 d).

(** Everything but the roots. *)
Definition template (burn : bool) (a : attempt) (key_id : option Identifier) (n : Node) : outcome mining_error (Block * BlockFees * PoWType) :=
  let s := chain n in
  let? head := map_err MineChain (Chain.head_header c min_date max_date s) in
  let? seed := map_err MineChain (Chain.get_header_hash_by_height c s (rx_current_seed_height (height head +! 1))) in
  let time := template_time (a_now a) head in
  let? info := map_err MineChain (template_difficulty s head) in
  let? txs := mineable n in
  let fees := sum_u64 (map (fun t => body_fee (body t)) txs) in
  let height := height head +! 1 in
  let? '(coinbase, block_fees) := get_coinbase burn a (mkBlockFees fees key_id height) height in
  let? b := assemble (a_now a / 10 ^ 9) head txs coinbase (Retarget.difficulty info) in
  let? _ := map_err MineCore (block_validate c load_foundation_output b (total_kernel_offset head)) in
  if negb ((min_date <=? time) && (time <=? max_date)) then Panic
  else
    let policy := get_emitted_policy height in
    let? cursor := map_err MineChain (bottles_iter s policy) in
    let? '(pow_type, bottles) := no_err (next_policy config policy cursor) in
    Ok (mkBlock (set_template (header b) seed (a_nonce a) (info_scaling info) time policy bottles) (b_body b),
        block_fees, pow_type).

Definition build_block (burn : bool) (a : attempt) (key_id : option Identifier) : trans Node mining_error (Block * BlockFees * PoWType) :=
  let! t := tread (template burn a key_id) in
  let '(b, block_fees, pow_type) := t in
  fun n =>
    match on_chain (Chain.set_txhashset_roots c min_date max_date b) n with
    | (Ok b, n) => (Ok (b, block_fees, pow_type), n)
    | (Err (DuplicateCommitment x), n) => (Err (MineChain (DuplicateCommitment x)), n)
    | (Err _, n) => (Err (MineChain ChainOther), n)
    | (Panic, n) => (Panic, n)
    end.

(** ** Until it succeeds *)
(** The key of the next attempt: none after a commitment that is already there. *)
Definition next_key (key_id : option Identifier) (e : mining_error) : option Identifier :=
  match e with
  | MineChain (DuplicateCommitment _) => None
  | _ => key_id
  end.

(** [None]: still trying when the attempts listed are over. *)
Fixpoint get_block_from (burn : bool) (attempts : list attempt) (key_id current : option Identifier)
    : trans Node mining_error (option (Block * BlockFees * PoWType)) := fun n =>
  match attempts with
  | [] => (Ok None, n)
  | a :: attempts =>
      match build_block burn a current n with
      | (Ok r, n) => (Ok (Some r), n)
      | (Err e, n) => get_block_from burn attempts key_id (next_key key_id e) n
      | (Panic, n) => (Panic, n)
      end
  end.
Definition get_block (burn : bool) (attempts : list attempt) (key_id : option Identifier) : trans Node mining_error (option (Block * BlockFees * PoWType)) :=
  get_block_from burn attempts key_id key_id.
End Mining.
