(* ===== verification/Stratum.v ===== *)
(** * The stratum server

    [servers/src/mining/stratumserver.rs] and the statistics of [servers/src/common/stats.rs]:
    the workers of a mining pool, the jobs they are sent and the shares they hand in.  A
    request arrives as its method and its parameters, whose reading from JSON is an argument;
    answers and jobs are values, their printing is left out.  Threads, sockets, sleeps and log
    lines are left out, with the hashes that some of these compute (which panics on a malformed
    Cuckoo proof): connecting, disconnecting, a request and a round of the main loop are functions
    of the state.  The clock, in nanoseconds, and the state of the synchronization are
    arguments. *)
From Stdlib Require Import String.
From S2P Require Import Prelude PmmrIndex Pmmr PruneList PmmrBackend Ser Global Pow Reward Retarget Feijoada Committed Transaction Block ChainStore Pipe TxHashSet ProcessBlock Orphans ChainFacade Pool Node Base58 Mnemonic ExtKey Keychain LibTx Mining.
#[local] Open Scope Z_scope.

(** ** Requests and answers *)
Inductive rpc_error : Type := InternalError | NodeIsSyncing | MethodNotFound | TooLate | CannotValidate | TooLowDifficulty | InvalidRequest.
Definition rpc_code (e : rpc_error) : Z :=
  match e with
  | InternalError => 32603
  | NodeIsSyncing => -32000
  | MethodNotFound => -32601
  | TooLate => -32503
  | CannotValidate => -32502
  | TooLowDifficulty => -32501
  | InvalidRequest => -32600
  end.

Record LoginParams := mkLogin { lp_login : list Z; lp_pass : list Z; lp_agent : list Z }.
Record JobParams := mkJobParams { jp_algorithm : list Z }.
Inductive AlgorithmParams : Type :=
| CuckooParams (edge_bits : Z) (nonces : list Z)
| RandomXParams (hash : array 32)
| ProgPowParams (mix : array 32).
Record SubmitParams := mkSubmit { sp_height : Z; sp_job_id : Z; sp_nonce : Z; sp_pow : AlgorithmParams }.

Record JobTemplate := mkJob {
  j_height : Z; job_id : Z; j_difficulty : list (PoWType * Z); block_difficulty : list (PoWType * Z);
  j_pre_pow : list Z; epochs : list (Z * Z * Hash); algorithm : PoWType }.
Record WorkerStatus := mkStatus { st_id : nat; st_height : Z; st_difficulty : Z; st_accepted : Z; st_rejected : Z; st_stale : Z }.

Inductive reply : Type := OkReply | BlockFound (h : Hash) | StatusReply (s : WorkerStatus) | JobReply (j : JobTemplate).
(** What is sent to a worker: the answer to a request, or a new job. *)
Inductive message : Type := Response (id : list Z) (method : string) (r : reply + rpc_error) | NewJob (j : JobTemplate).

(** ** Workers and their statistics *)
Record WorkerStats := mkStats {
  ws_id : nat; is_connected : bool; last_seen : Z; initial_block_height : Z; pow_difficulty : Z;
  num_accepted : Z; num_rejected : Z; num_stale : Z; num_blocks_found : Z }.
Definition count_accepted (w : WorkerStats) : WorkerStats :=
  mkStats (ws_id w) (is_connected w) (last_seen w) (initial_block_height w) (pow_difficulty w) (num_accepted w +! 1) (num_rejected w) (num_stale w) (num_blocks_found w).
Definition count_rejected (w : WorkerStats) : WorkerStats :=
  mkStats (ws_id w) (is_connected w) (last_seen w) (initial_block_height w) (pow_difficulty w) (num_accepted w) (num_rejected w +! 1) (num_stale w) (num_blocks_found w).
Definition count_stale (w : WorkerStats) : WorkerStats :=
  mkStats (ws_id w) (is_connected w) (last_seen w) (initial_block_height w) (pow_difficulty w) (num_accepted w) (num_rejected w) (num_stale w +! 1) (num_blocks_found w).
Definition count_block (w : WorkerStats) : WorkerStats :=
  mkStats (ws_id w) (is_connected w) (last_seen w) (initial_block_height w) (pow_difficulty w) (num_accepted w) (num_rejected w) (num_stale w) (num_blocks_found w +! 1).
Definition seen_at (t : Z) (w : WorkerStats) : WorkerStats :=
  mkStats (ws_id w) (is_connected w) t (initial_block_height w) (pow_difficulty w) (num_accepted w) (num_rejected w) (num_stale w) (num_blocks_found w).
Definition disconnected (w : WorkerStats) : WorkerStats :=
  mkStats (ws_id w) false (last_seen w) (initial_block_height w) (pow_difficulty w) (num_accepted w) (num_rejected w) (num_stale w) (num_blocks_found w).

Record StratumStats := mkStratumStats {
  is_enabled : bool; is_running : bool; num_workers : nat; block_height : Z; network_difficulty : DifficultyNumber;
  s_edge_bits : Z; worker_stats : list WorkerStats }.

Definition stats_default : StratumStats :=
  mkStratumStats false false 0 0 (<[ProgPow := 1000]> (<[RandomX := 1000]> (<[Cuckaroo := 1000]> (<[Cuckatoo := 1000]> ∅)))) 29 [].

(** [outbox]: what the channel to the worker holds. *)
Record Worker := mkWorker { w_id : nat; agent : list Z; login : option (list Z); authenticated : bool; outbox : list message }.
Definition worker_new (id : nat) : Worker := mkWorker id [] None false [].
Definition push_message (m : message) (w : Worker) : Worker :=
  mkWorker (w_id w) (agent w) (login w) (authenticated w) (outbox w ++ [m]).

(** ** The state *)
Record State := mkState {
  current_block_versions : list (Block * PoWType); current_key_id : option Identifier;
  current_difficulty : DifficultyNumber; minimum_share_difficulty : DifficultyNumber }.
Definition state_new (c : ChainTypes) (minimum : DifficultyNumber) : State :=
  mkState [(mkBlock (header_default c) (mkBody [] [] []), Cuckaroo)] None
    (<[ProgPow := u64_max]> (<[RandomX := u64_max]> (<[Cuckaroo := u64_max]> (<[Cuckatoo := u64_max]> ∅)))) minimum.

Definition get_minimum_difficulty {E} (s : State) (p : PoWType) : outcome E Z := unwrap (minimum_share_difficulty s !! p).
Definition get_current_difficulty {E} (s : State) (p : PoWType) : outcome E Z := unwrap (current_difficulty s !! p).

Record StratumConfig := mkStratumConfig {
  attempt_time_per_block : Z; burn_reward : bool;
  cuckatoo_minimum_share_difficulty : Z; randomx_minimum_share_difficulty : Z; progpow_minimum_share_difficulty : Z }.
Definition minimum_from (cf : StratumConfig) : DifficultyNumber :=
  <[ProgPow := progpow_minimum_share_difficulty cf]> (<[RandomX := randomx_minimum_share_difficulty cf]>
    (<[Cuckaroo := cuckatoo_minimum_share_difficulty cf]> (<[Cuckatoo := cuckatoo_minimum_share_difficulty cf]> ∅))).

(** The handler with its workers, and the variables of the main loop. *)
Record Handler := mkHandler {
  node : Node; workers : gmap nat Worker; stats : StratumStats; current_state : State; current_hash : Hash; deadline : Z }.
(** As [run_loop] starts it. *)
Definition handler_new (c : ChainTypes) (cf : StratumConfig) (edge_bits : Z) (n : Node) : outcome rpc_error Handler :=
  match Chain.head (chain n) with
  | Ok head =>
      let s := stats_default in
      Ok (mkHandler n ∅
            (mkStratumStats (is_enabled s) true (num_workers s) (block_height s) (network_difficulty s) (edge_bits mod 2 ^ 16) (worker_stats s))
            (state_new c (minimum_from cf)) (prev_block_h head) 0)
  | _ => Panic
  end.

Definition set_node (n : Node) (h : Handler) : Handler := mkHandler n (workers h) (stats h) (current_state h) (current_hash h) (deadline h).
Definition set_workers (w : gmap nat Worker) (h : Handler) : Handler := mkHandler (node h) w (stats h) (current_state h) (current_hash h) (deadline h).
Definition set_stats (s : StratumStats) (h : Handler) : Handler := mkHandler (node h) (workers h) s (current_state h) (current_hash h) (deadline h).
Definition set_state (s : State) (h : Handler) : Handler := mkHandler (node h) (workers h) (stats h) s (current_hash h) (deadline h).

Definition set_worker_stats (l : list WorkerStats) (s : StratumStats) : StratumStats :=
  mkStratumStats (is_enabled s) (is_running s) (num_workers s) (block_height s) (network_difficulty s) (s_edge_bits s) l.
Definition set_num_workers (n : nat) (s : StratumStats) : StratumStats :=
  mkStratumStats (is_enabled s) (is_running s) n (block_height s) (network_difficulty s) (s_edge_bits s) (worker_stats s).

(** ** The list of workers *)
(** [&mut stratum_stats.worker_stats[worker_id]] panics out of range. *)
Definition update_stats {E} (id : nat) (f : WorkerStats -> WorkerStats) : trans Handler E () := fun h =>
  match worker_stats (stats h) !! id with
  | Some w => (Ok tt, set_stats (set_worker_stats (<[id := f w]> (worker_stats (stats h))) (stats h)) h)
  | None => (Panic, h)
  end.

Definition add_worker (now : Z) (h : Handler) : nat * Handler :=
  let id := length (worker_stats (stats h)) in
  let workers := <[id := worker_new id]> (workers h) in
  let ws := mkStats id true now 0 1 0 0 0 0 in
  (id, set_stats (set_num_workers (size workers) (set_worker_stats (worker_stats (stats h) ++ [ws]) (stats h))) (set_workers workers h)).

Definition remove_worker (id : nat) : trans Handler () () :=
  do! update_stats id disconnected then fun h =>
  match workers h !! id with
  | Some _ => let workers := delete id (workers h) in
              (Ok tt, set_stats (set_num_workers (size workers) (stats h)) (set_workers workers h))
  | None => (Panic, h)
  end.

Definition worker_login (id : nat) (name ag : list Z) : trans Handler rpc_error () := fun h =>
  match workers h !! id with
  | Some w => (Ok tt, set_workers (<[id := mkWorker (w_id w) ag (Some name) true (outbox w)]> (workers h)) h)
  | None => (Err InternalError, h)
  end.
Definition get_worker (id : nat) (h : Handler) : outcome rpc_error Worker := ok_or (workers h !! id) InternalError.
Definition get_stats (id : nat) (h : Handler) : outcome rpc_error WorkerStats := ok_or (worker_stats (stats h) !! id) InternalError.

Definition send_to {E} (id : nat) (m : message) : trans Handler E () := fun h =>
  match workers h !! id with
  | Some w => (Ok tt, set_workers (<[id := push_message m w]> (workers h)) h)
  | None => (Panic, h)
  end.
Definition broadcast (m : message) (h : Handler) : Handler := set_workers (push_message m <$> workers h) h.

(** ** Solutions *)
Definition proof_of (p : AlgorithmParams) : Proof :=
  match p with
  | CuckooParams edge_bits nonces => CuckooProof (edge_bits mod 256) nonces
  | RandomXParams hash => RandomXProof hash
  | ProgPowParams mix => ProgPowProof mix
  end.
Definition with_solution (h : BlockHeader) (nonce : Z) (p : Proof) : BlockHeader :=
  mkBlockHeader (version h) (height h) (prev_hash h) (prev_root h) (h_timestamp h) (output_root h) (range_proof_root h) (kernel_root h)
    (total_kernel_offset h) (output_mmr_size h) (kernel_mmr_size h)
    (mkProofOfWork (Pow.total_difficulty (pow h)) (secondary_scaling (pow h)) nonce p (seed (pow h))) (policy h) (bottles h).
Definition solved (b : Block) (nonce : Z) (p : Proof) : Block := mkBlock (with_solution (header b) nonce p) (b_body b).

Section Handler.
Context `{Hasher} `{KeyHashes} `{SecpSigning} `{PoWContext} (c : ChainTypes) (min_date max_date : Z).
Context (get_progpow_value : list Z -> Z -> Z -> Hash) (u256_from : Hash -> Z).
Context (config : PolicyConfig) (pow_verifier : BlockHeader -> bool) (now : Z).
Context (bitmap_serialize : gset Z -> list Z) (bitmap_deserialize : list Z -> gset Z).
Context (load_foundation_output : Z -> Output * TxKernel).
Context (sort_buckets : list Bucket -> list Bucket).
Context {Value : Type} (as_login : Value -> option LoginParams) (as_job : Value -> option JobParams) (as_submit : Value -> option SubmitParams).

Definition parse_params {A} (read : Value -> option A) (params : option Value) : outcome rpc_error A :=
  ok_or (match params with Some v => read v | None => None end) InvalidRequest.

(** ** Jobs *)
Definition seed_epoch (ch : Chain.Chain) (seed_height : Z) : outcome rpc_error (Z * Z * Hash) :=
  match Chain.get_header_hash_by_height c ch seed_height with
  | Ok hash => Ok (rx_epoch_start seed_height, rx_epoch_end seed_height, hash)
  | _ => Panic
  end.

Fixpoint difficulties (get : PoWType -> outcome rpc_error Z) (l : list PoWType) : outcome rpc_error (list (PoWType * Z)) :=
  match l with
  | [] => Ok []
  | p :: l => let? d := get p in let? rest := difficulties get l in Ok ((p, d) :: rest)
  end.

Definition build_block_template (h : Handler) : outcome rpc_error JobTemplate :=
  let st := current_state h in
  let? '(b, algo) := unwrap (last (current_block_versions st)) in
  let bh := header b in
  let? first := seed_epoch (chain (node h)) (rx_current_seed_height (height bh)) in
  let? rest := match rx_next_seed_height (height bh) with
               | Some x => let? e := seed_epoch (chain (node h)) x in Ok [e]
               | None => Ok []
               end in
  let algorithms := [Cuckatoo; RandomX; ProgPow] in
  let? minimum := difficulties (get_minimum_difficulty st) algorithms in
  let? current := difficulties (get_current_difficulty st) algorithms in
  let pre := write_u16 (version bh) ++ header_write_pre_pow bh ++ write_pre_pow (pow bh) in
  Ok (mkJob (height bh) (Z.of_nat (length (current_block_versions st)) - 1) minimum current pre (first :: rest) algo).

(** ** The handlers *)
Definition handle_login (params : option Value) (id : nat) : trans Handler rpc_error reply :=
  let! p := tread (fun _ => parse_params as_login params) in
  do! worker_login id (lp_login p) (lp_agent p) then tret OkReply.

Definition handle_keepalive : trans Handler rpc_error reply := tret OkReply.

Definition handle_status (id : nat) (h : Handler) : outcome rpc_error reply :=
  let? ws := get_stats id h in
  let? '(b, _) := unwrap (last (current_block_versions (current_state h))) in
  Ok (StatusReply (mkStatus (ws_id ws) (height (header b)) (pow_difficulty ws) (num_accepted ws) (num_rejected ws) (num_stale ws))).

Definition handle_getjobtemplate (params : option Value) (h : Handler) : outcome rpc_error reply :=
  let? _ := parse_params as_job params in
  let? job := build_block_template h in Ok (JobReply job).

(** A share that is refused is counted and answered with an error. *)
Definition refuse {A} (id : nat) (count : WorkerStats -> WorkerStats) (e : rpc_error) : trans Handler rpc_error A :=
  do! update_stats id count then tfail e.

(** The difficulty a solved header reaches. *)
Definition share_difficulty (h : BlockHeader) : outcome rpc_error Z :=
  match to_difficulty c get_progpow_value u256_from (pow h) (pre_pow h) (height h) (nonce (pow h)) with
  | Ok d => Ok (to_num d (PoWType_from (proof (pow h))))
  | _ => Panic
  end.

(** A full solution, for the chain to validate. *)
Definition submit_block (b : Block) (id : nat) : trans Handler rpc_error () := fun h =>
  match chain_process_block c min_date max_date now get_progpow_value u256_from config pow_verifier bitmap_serialize bitmap_deserialize
          load_foundation_output b MINE (node h) with
  | (Ok _, n) => (do! update_stats id count_block then do! tread (get_stats id) then tret tt) (set_node n h)
  | (Err _, n) => refuse id count_rejected CannotValidate (set_node n h)
  | (Panic, n) => (Panic, set_node n h)
  end.

Definition log_share (b : Block) (id : nat) (share_is_block : bool) : trans Handler rpc_error (reply * bool) :=
  do! tread (get_worker id) then
  do! update_stats id count_accepted then
  if share_is_block then
    let! hash := tread (fun _ => match header_hash c (header b) with Ok x => Ok x | _ => Panic end) in
    tret (BlockFound hash, true)
  else tret (OkReply, false).

(** A share, against the jobs and difficulties [st]. *)
Definition check_share (st : State) (p : SubmitParams) (id : nat) : trans Handler rpc_error (reply * bool) :=
  let! newest := tread (fun _ => unwrap (last (current_block_versions st))) in
  match current_block_versions st !! Z.to_nat (sp_job_id p), sp_height p =? height (header newest.1) with
  | Some (b, pow_type), true =>
      let b := solved b (sp_nonce p) (proof_of (sp_pow p)) in
      let algo := PoWType_from (proof (pow (header b))) in
      if negb (is_primary c (pow (header b))) && negb (is_secondary (pow (header b))) then refuse id count_rejected CannotValidate
      else
        let! share := tread (fun _ => share_difficulty (header b)) in
        let! minimum := tread (fun _ => get_minimum_difficulty st algo) in
        if share <? minimum then refuse id count_rejected TooLowDifficulty
        else
          let! current := tread (fun _ => get_current_difficulty st algo) in
          if (share >=? current) && bool_decide (pow_type = algo) then
            do! submit_block b id then log_share b id true
          else if negb (verify_size c (header b)) then refuse id count_rejected CannotValidate
          else log_share b id false
  | _, _ => refuse id count_stale TooLate
  end.

Definition handle_submit (params : option Value) (id : nat) : trans Handler rpc_error (reply * bool) :=
  let! p := tread (fun _ => parse_params as_submit params) in
  fun h => check_share (current_state h) p id h.

(** The answers are packed with the id and the method of the request.  The key of the coinbase
    is given up once a block has been found with it. *)
Definition forget_key (st : State) : State :=
  mkState (current_block_versions st) None (current_difficulty st) (minimum_share_difficulty st).

(** The handler of a method. *)
Definition dispatch (is_syncing : bool) (method : string) (params : option Value) (id : nat) : trans Handler rpc_error reply := fun h =>
  if decide (method = "login"%string) then handle_login params id h
  else if decide (method = "submit"%string) then
    match handle_submit params id h with
    | (Ok (v, true), h) => (Ok v, set_state (forget_key (current_state h)) h)
    | (Ok (v, false), h) => (Ok v, h)
    | (Err e, h) => (Err e, h)
    | (Panic, h) => (Panic, h)
    end
  else if decide (method = "keepalive"%string) then handle_keepalive h
  else if decide (method = "getjobtemplate"%string) then
    if is_syncing then (Err NodeIsSyncing, h) else tread (handle_getjobtemplate params) h
  else if decide (method = "status"%string) then tread (handle_status id) h
  else (Err MethodNotFound, h).

Definition handle_rpc_requests (is_syncing : bool) (req_id : list Z) (method : string) (params : option Value) (id : nat)
    : trans Handler () message :=
  do! update_stats id (seen_at now) then fun h =>
  match dispatch is_syncing method params id h with
  | (Ok v, h) => (Ok (Response req_id method (inl v)), h)
  | (Err e, h) => (Ok (Response req_id method (inr e)), h)
  | (Panic, h) => (Panic, h)
  end.

(** A line of a worker, with the answer put in its channel. *)
Definition handle_line (is_syncing : bool) (req_id : list Z) (method : string) (params : option Value) (id : nat) : trans Handler () () :=
  let! m := handle_rpc_requests is_syncing req_id method params id in send_to id m.

(** ** The main loop *)
Definition broadcast_job : trans Handler rpc_error () := fun h =>
  match build_block_template h with
  | Ok job => (Ok tt, broadcast (NewJob job) h)
  | Err e => (Err e, h)
  | Panic => (Panic, h)
  end.

(** The share difficulties of a job: those of the configuration, or less where the block
    itself asks for less. *)
Definition job_minimum (cf : StratumConfig) (current : DifficultyNumber) (minimum : DifficultyNumber) : outcome rpc_error DifficultyNumber :=
  let? cuckatoo := unwrap (current !! Cuckatoo) in
  let? randomx := unwrap (current !! RandomX) in
  let? progpow := unwrap (current !! ProgPow) in
  Ok (<[ProgPow := Z.min (progpow_minimum_share_difficulty cf) progpow]>
      (<[RandomX := Z.min (randomx_minimum_share_difficulty cf) randomx]>
       (<[Cuckaroo := Z.min (cuckatoo_minimum_share_difficulty cf) cuckatoo]>
        (<[Cuckatoo := Z.min (cuckatoo_minimum_share_difficulty cf) cuckatoo]> minimum)))).

(** A block that has been built becomes the newest version of the job, unless the head has
    become heavier meanwhile. *)
Definition publish (cf : StratumConfig) (new_block : Block) (fees : BlockFees) (pow_type : PoWType) : trans Handler rpc_error () :=
  let! head := tread (fun h => match Chain.head (chain (node h)) with Ok t => Ok t | _ => Panic end) in
  if decide (difficulty_cmp (tip_difficulty head) (h_total_difficulty (header new_block)) = Gt) then tret tt
  else
    let current := num (difficulty_sub (h_total_difficulty (header new_block)) (tip_difficulty head)) in
    let! minimum := tread (fun h => job_minimum cf current (minimum_share_difficulty (current_state h))) in
    do! tmodify (fun h =>
      let st := current_state h in
      let versions := if decide (current_hash h = last_block_h head) then current_block_versions st else [] in
      let s := stats h in
      mkHandler (node h) (workers h)
        (mkStratumStats (is_enabled s) (is_running s) (num_workers s) (height (header new_block)) current (s_edge_bits s) (worker_stats s))
        (mkState (versions ++ [(new_block, pow_type)]) (bf_key_id fees) current minimum)
        (last_block_h head) (now / 10 ^ 9 + Z.min (attempt_time_per_block cf) 30)) then
    broadcast_job.

Definition due (h : Handler) (head : Tip) : bool :=
  (bool_decide (current_hash h <> last_block_h head) || (now / 10 ^ 9 >=? deadline h)) && (0 <? size (workers h))%nat.

(** One round; [attempts] are those of [get_block]. *)
Definition run_round (cf : StratumConfig) (attempts : list attempt) : trans Handler rpc_error () := fun h =>
  match Chain.head (chain (node h)) with
  | Ok head =>
      if due h head then
        match Mining.get_block c min_date max_date config load_foundation_output sort_buckets (burn_reward cf) attempts
                (current_key_id (current_state h)) (node h) with
        | (Ok (Some (b, fees, pow_type)), n) => publish cf b fees pow_type (set_node n h)
        | (Ok None, n) => (Ok tt, set_node n h)
        | (_, n) => (Panic, set_node n h)
        end
      else (Ok tt, h)
  | _ => (Panic, h)
  end.
End Handler.
