(* ===== verification/MiningTheory.v ===== *)
(** * Templates, workers and shares

    What a miner is given to solve: a block built on top of the head, once solved, passes the
    validation of its header and of its body in the pipeline, so that work on it is not wasted
    on a wrong template.  The bookkeeping of the stratum server: the invariant that ties its
    workers to their statistics and its jobs to the difficulties asked for, what one share
    does, and that a full solution reaches the chain. *)
From Stdlib Require Import String.
From S2P Require Import Prelude PmmrIndex Pmmr PruneList PmmrBackend Ser Global Pow Reward Retarget Feijoada Committed Transaction CutThrough Block BlockTheory ChainStore ChainStoreTheory Pipe PipeTheory TxHashSet ProcessBlock Orphans ChainFacade Pool Node Base58 Mnemonic ExtKey Keychain LibTx Mining Stratum ProcessBlockTheory.
#[local] Open Scope Z_scope.

(** ** The range of the next difficulty *)
Lemma div_u64 a b : is_u64 a -> 1 <= b -> a / b < 2 ^ 64.
Proof. intros [Ha Hb] H1. apply Z.div_lt_upper_bound; nia. Qed.

Lemma clamp_positive x goal f : 1 <= goal / f -> 1 <= clamp x goal f.
Proof. unfold clamp. lia. Qed.

Lemma next_difficulty_bound c ht algo cursor info :
  next_difficulty c ht algo cursor = Ok info -> to_num (difficulty info) algo < 2 ^ 64.
Proof.
  unfold next_difficulty. intros Hn. apply bind_Ok_inv in Hn as (data & _ & Hn). apply bind_Ok_inv in Hn as (x & _ & Hn).
  apply bind_Ok_inv in Hn as (v & Hv & [= <-]). cbn [difficulty from_diff_scaling]. rewrite to_num_insert, decide_True by done.
  assert (forall p, next_cuckoo_difficulty p data = Ok v -> v < 2 ^ 64) as Hc.
  { intros p Hp. unfold next_cuckoo_difficulty in Hp. apply bind_Ok_inv in Hp as (h60 & _ & Hp). apply bind_Ok_inv in Hp as (h0 & _ & [= <-]).
    apply Z.max_lub_lt; [done|]. apply div_u64; [apply wrap64_range|]. by apply clamp_positive. }
  assert (forall p, next_hash_difficulty p data = Ok v -> v < 2 ^ 64) as Hh.
  { intros p Hp. unfold next_hash_difficulty in Hp. apply bind_Ok_inv in Hp as (f & _ & Hp). apply bind_Ok_inv in Hp as (h1 & _ & Hp).
    apply bind_Ok_inv in Hp as (h0 & _ & Hp). apply bind_Ok_inv in Hp as (m & Hm & [= <-]).
    apply Z.max_lub_lt; [apply wrap64_range|]. assert (m < 2 ^ 64) by (destruct p; injection Hm as <- || discriminate Hm; done). lia. }
  destruct algo; eauto.
Qed.

Lemma next_difficulty_era1_bound c ht algo cursor info :
  next_difficulty_era1 c ht algo cursor = Ok info -> to_num (difficulty info) algo < 2 ^ 64.
Proof.
  unfold next_difficulty_era1. intros Hn. apply bind_Ok_inv in Hn as (data & _ & Hn). apply bind_Ok_inv in Hn as (x & _ & [= <-]).
  cbn [difficulty from_diff_scaling]. rewrite to_num_insert, decide_True by done.
  assert (forall m d f p, m < 2 ^ 64 -> 1 <= BLOCK_TIME_WINDOW / f -> next_difficulty_window m d f p data < 2 ^ 64) as Hw.
  { intros m d f p Hm Hf. unfold next_difficulty_window. apply Z.max_lub_lt; [done|]. apply div_u64; [apply wrap64_range|]. by apply clamp_positive. }
  destruct algo; by apply Hw.
Qed.

(** Adding a difficulty to a total and taking the total away again. *)
Lemma add_sub_back d t : complete d -> difficulty_ok d -> difficulty_sub (difficulty_add d t) t = d.
Proof.
  intros Hc Hd. apply difficulty_eq; [apply zip_num_complete|done|]. intros a. rewrite sub_to_num by apply zip_num_complete.
  unfold difficulty_add. rewrite zip_num_to_num by done. fold (to_num t a). pose proof (to_num_u64 d a Hd) as Hu.
  unfold u64_sub, u64_add, wrap64, is_u64 in *. rewrite Zminus_mod_idemp_l. replace (_ + _ - _) with (to_num d a) by lia.
  by apply Z.mod_small.
Qed.

Section Template.
Context `{Hasher} `{KeyHashes} `{SecpSigning} (c : ChainTypes) (min_date max_date : Z).
Context (get_progpow_value : list Z -> Z -> Z -> Hash) (u256_from : Hash -> Z).
Context (config : PolicyConfig) (pow_verifier : BlockHeader -> bool) (now : Z).
Context (load_foundation_output : Z -> Output * TxKernel) (sort_buckets : list Bucket -> list Bucket).
Context (genesis : BlockHeader).

#[local] Abbreviation hdr := (get_block_header c min_date max_date).
#[local] Abbreviation chain_ok := (chain_ok c min_date max_date genesis).
#[local] Abbreviation validate_header :=
  (validate_header c min_date max_date get_progpow_value u256_from config MINE pow_verifier now).

Lemma required_difficulty_ok b prev ht :
  chain_ok b -> stored c min_date max_date b prev ->
  exists next, required_difficulty c min_date max_date b prev ht = Ok next
    /\ complete (difficulty next) /\ difficulty_ok (difficulty next).
Proof.
  intros Hb Hs. destruct (required_difficulty_positive c min_date max_date genesis b Hb prev ht Hs) as (next & Hn & Hp).
  exists next. split; [done|]. assert (complete (difficulty next)) as Hc.
  { intros t. specialize (Hp t). unfold to_num in Hp. destruct (num (difficulty next) !! t); [by eauto|cbn in Hp; lia]. }
  split; [done|]. intros t v Hv. assert (to_num (difficulty next) t = v) as <- by (unfold to_num; by rewrite Hv).
  specialize (Hp t). split; [lia|]. destruct (stored_hash c min_date max_date genesis b Hb prev Hs) as (k & Hk & Hg).
  unfold required_difficulty, hash_of in Hn. rewrite Hk in Hn. cbn [bind] in Hn.
  destruct (collect_stored c min_date max_date genesis b Hb (Z.to_nat (height prev)) (iter_from k) prev) as (info & l & Hcol & Hi & Hd & Hl & _);
    [by unfold iter_advance, iter_from; cbn [it_header start]; rewrite Hg|done|].
  unfold chain_fuel in Hn. rewrite Hcol in Hn. cbn [no_err bind] in Hn. apply no_err_Ok in Hn.
  destruct (next_difficulty_total c ht (PoWType_from (Pow.proof (pow prev))) info l Hi Hl) as (h1 & h2 & E1 & E2 & _ & _ & Hloc).
  assert (forall a, to_num (difficulty info) a < 2 ^ 64) as Hinfo.
  { intros a. rewrite Hd. apply (to_num_u64 _ a). by apply (work_of_ok c min_date max_date genesis b Hb). }
  destruct (ht <? difficultyfix_height c); rewrite Hn in *; simplify_eq.
  - destruct (decide (t = PoWType_from (Pow.proof (pow prev)))) as [->|Hne]; [by eapply next_difficulty_bound|].
    destruct (Hloc t Hne) as [-> _]. apply Hinfo.
  - destruct (decide (t = PoWType_from (Pow.proof (pow prev)))) as [->|Hne]; [by eapply next_difficulty_era1_bound|].
    destruct (Hloc t Hne) as [_ ->]. apply Hinfo.
Qed.

Lemma difficultyfix_height_positive : 1 <= difficultyfix_height c < 2 ^ 64.
Proof. by destruct c. Qed.

(** The head that a block is built on. *)
Lemma head_header_inv s head :
  chain_ok (Chain.view s) -> Chain.head_header c min_date max_date s = Ok head ->
  exists tip, Chain.head s = Ok tip /\ hdr (Chain.view s) (last_block_h tip) = Ok head /\ header_hash c head = Ok (last_block_h tip).
Proof.
  intros Hb Hh. unfold Chain.head_header, ChainStore.head_header, store_err in Hh. apply map_err_Ok_inv in Hh.
  apply bind_Ok_inv in Hh as (tip & Ht & Hh). exists tip. unfold Chain.head, store_err. rewrite Ht.
  split_and!; [done..|]. by destruct (stored_ok _ _ _ _ _ Hb _ _ Hh).
Qed.

Lemma template_difficulty_required s head :
  chain_ok (Chain.view s) -> Chain.head_header c min_date max_date s = Ok head -> height head + 1 < 2 ^ 64 ->
  template_difficulty c min_date max_date s head = required_difficulty c min_date max_date (Chain.view s) head (height head +! 1).
Proof.
  intros Hb Hh Hlt. destruct (head_header_inv s head Hb Hh) as (tip & Ht & Hg & Hk).
  pose proof (stored_height c min_date max_date genesis _ Hb head ltac:(by eexists)) as Hpos.
  unfold template_difficulty, difficulty_iter, required_difficulty, hash_of. rewrite Ht, Hk. cbn [bind].
  pose proof difficultyfix_height_positive as Hf. rewrite u64_sub_small by (unfold is_u64; lia). rewrite u64_add_small by (unfold is_u64; lia).
  destruct (no_err (collect _ _ _)) as [cursor|e|]; [|done..]. cbn [bind].
  destruct (Z.ltb_spec (height head) (difficultyfix_height c - 1)), (Z.ltb_spec (height head + 1) (difficultyfix_height c)); (done || lia).
Qed.

Lemma assembled_header t head txs coinbase d b :
  assemble c load_foundation_output t head txs coinbase d = Ok b ->
  exists ph off, header_hash c head = Ok ph /\ header b = next_header c head ph t off d.
Proof.
  unfold assemble. intros Ha. apply bind_Ok_inv in Ha as (f & _ & Ha). apply map_err_Ok_inv in Ha.
  assert (forall off body, Block.build_block c head t d off body = Ok b ->
    exists ph off, header_hash c head = Ok ph /\ header b = next_header c head ph t off d) as Hbuild.
  { intros off bd Hb. unfold Block.build_block in Hb. apply bind_Ok_inv in Hb as (off' & _ & Hb). apply bind_Ok_inv in Hb as (ph & Hp & Hb).
    unfold block_cut_through in Hb. apply bind_Ok_inv in Hb as ([ins outs] & _ & [= <-]).
    exists ph, off'. split; [|done]. destruct (header_hash c head); [by injection Hp as ->|done..]. }
  destruct f; unfold from_coinbases, from_reward in Ha; apply bind_Ok_inv in Ha as (agg & _ & Ha); by eapply Hbuild.
Qed.

(** The steps of [template]. *)
Lemma template_inv burn a key_id n b fees algo :
  template c min_date max_date config load_foundation_output sort_buckets burn a key_id n = Ok (b, fees, algo) ->
  exists head sd info b0 bottles cursor ph off,
    Chain.head_header c min_date max_date (chain n) = Ok head
    /\ Chain.get_header_hash_by_height c (chain n) (rx_current_seed_height (height head +! 1)) = Ok sd
    /\ template_difficulty c min_date max_date (chain n) head = Ok info
    /\ header_hash c head = Ok ph /\ header b0 = next_header c head ph (a_now a / 10 ^ 9) off (difficulty info)
    /\ (exists k, block_validate c load_foundation_output b0 (total_kernel_offset head) = Ok k)
    /\ bottles_iter c min_date max_date (chain n) (get_emitted_policy (height head +! 1)) = Ok cursor
    /\ next_policy config (get_emitted_policy (height head +! 1)) cursor = Ok (algo, bottles)
    /\ b = mkBlock (set_template (header b0) sd (a_nonce a) (info_scaling info) (template_time (a_now a) head)
                      (get_emitted_policy (height head +! 1)) bottles) (b_body b0).
Proof.
  unfold template. intros Ht. apply bind_Ok_inv in Ht as (head & Hh%map_err_Ok_inv & Ht). apply bind_Ok_inv in Ht as (sd & Hs%map_err_Ok_inv & Ht).
  cbv zeta in Ht. apply bind_Ok_inv in Ht as (info & Hi%map_err_Ok_inv & Ht). apply bind_Ok_inv in Ht as (txs & _ & Ht).
  apply bind_Ok_inv in Ht as ([cb fs] & _ & Ht). apply bind_Ok_inv in Ht as (b0 & Hb & Ht). apply bind_Ok_inv in Ht as (k & Hv%map_err_Ok_inv & Ht).
  destruct (negb _) in Ht; [done|]. apply bind_Ok_inv in Ht as (cursor & Hc%map_err_Ok_inv & Ht).
  apply bind_Ok_inv in Ht as ([pt bottles] & Hp%no_err_Ok & [= <- <- <-]).
  destruct (assembled_header _ _ _ _ _ _ Hb) as (ph & off & Hph & Hhead).
  exists head, sd, info, b0, bottles, cursor, ph, off. split_and!; try done. by eexists.
Qed.

(** Roots and solutions change nothing that the validation of a block looks at. *)
Lemma validate_dressed b0 sd x sc t po bo r nonce p off :
  block_validate c load_foundation_output
    (solved (Chain.with_roots (mkBlock (set_template (header b0) sd x sc t po bo) (b_body b0)) r) nonce p) off
  = block_validate c load_foundation_output b0 off.
Proof. destruct r as [[pr rs] [[[? ?] ?] ?]]. destruct b0 as [h0 bd]. reflexivity. Qed.

Lemma build_block_inv burn a key_id n b fees algo n' :
  build_block c min_date max_date config load_foundation_output sort_buckets burn a key_id n = (Ok (b, fees, algo), n') ->
  exists b1 r, template c min_date max_date config load_foundation_output sort_buckets burn a key_id n = Ok (b1, fees, algo)
    /\ b = Chain.with_roots b1 r /\ Chain.store (chain n') = Chain.store (chain n).
Proof.
  unfold build_block, tbind, tread. destruct (template _ _ _ _ _ _ _ _ _ n) as [[[b1 fs] al]|e|] eqn:E; [|done..].
  unfold on_chain, Chain.set_txhashset_roots, tbind, tret, Chain.on_set.
  destruct (extending_readonly _ _ _ _ _ _) as [[r|e|] t]; [|by destruct e|done].
  intros [= <- <- <- <-]. by exists b1, r.
Qed.

Lemma template_time_later t head : h_timestamp head < template_time t head.
Proof. unfold template_time. cbv zeta. destruct (Z.leb_spec (t / 10 ^ 9) (h_timestamp head)); lia. Qed.

(** The algorithm of a template is the one the rules choose. *)
Lemma template_policy s head tip h cursor bottles algo :
  Chain.head s = Ok tip -> header_hash c head = Ok (last_block_h tip) ->
  is_allowed_policy (allowed_policies config) (height h) (policy h) = Ok true ->
  bottles_iter c min_date max_date s (policy h) = Ok cursor -> next_policy config (policy h) cursor = Ok (algo, bottles) ->
  proof_algo (proof (pow h)) = Some algo ->
  check_policy c min_date max_date config (Chain.view s) head h = Ok tt.
Proof.
  intros Ht Hk Ha Hc Hn Hp. unfold check_policy. rewrite Ha. cbn [no_err bind negb].
  assert (is_Some (get_policies config (policy h))) as [pol Hpol].
  { unfold next_policy in Hn. destruct (get_policies config (policy h)); [by eexists|]. by destruct cursor. }
  rewrite Hpol. unfold hash_of. rewrite Hk. cbn [bind]. unfold bottles_iter in Hc. rewrite Ht in Hc. cbn [bind] in Hc.
  rewrite Hc. cbn [bind]. rewrite Hn. cbn [no_err bind]. by rewrite decide_True.
Qed.

(** Its work is the work the rules ask for. *)
Lemma template_work b head h info d :
  chain_ok b -> stored c min_date max_date b head ->
  required_difficulty c min_date max_date b head (height h) = Ok info ->
  h_total_difficulty h = difficulty_add (difficulty info) (h_total_difficulty head) -> secondary_scaling (pow h) = info_scaling info ->
  share_difficulty c get_progpow_value u256_from h = Ok d ->
  to_num (difficulty_sub (h_total_difficulty h) (h_total_difficulty head)) (PoWType_from (proof (pow h))) <= d ->
  check_difficulty c min_date max_date get_progpow_value u256_from MINE b head h = Ok tt.
Proof.
  intros Hb Hs Hr Ht Hsc Hd Hle. destruct (required_difficulty_ok b head (height h) Hb Hs) as (info' & Hr' & Hc & Hok).
  assert (info' = info) as -> by congruence. unfold check_difficulty. change (contains MINE SKIP_POW) with false. cbv iota zeta.
  unfold share_difficulty in Hd. destruct (to_difficulty _ _ _ _ _ _ _) as [x|e|]; [|done..]. injection Hd as <-. cbn [bind].
  destruct (Z.ltb_spec (to_num x (PoWType_from (proof (pow h)))) (to_num (difficulty_sub (h_total_difficulty h) (h_total_difficulty head)) (PoWType_from (proof (pow h))))); [lia|].
  rewrite Hr. cbn [bind]. rewrite Ht, add_sub_back by done. rewrite decide_False by (intros Hne; by apply Hne).
  rewrite Hsc, Z.eqb_refl. by destruct (proof (pow h)).
Qed.

(** The steps of [validate_header], the other way round. *)
Lemma validate_header_intro b h head k :
  version h = CURRENT_HEADER_VERSION -> too_far_ahead c now h = false -> check_bad_header c h = Ok tt ->
  is_primary c (pow h) || is_secondary (pow h) = true -> pow_verifier h = true ->
  prev_hash h = k -> hdr b k = Ok head ->
  (exists hs, hdr b (seed (pow h)) = Ok hs /\ height hs = rx_current_seed_height (height h)) ->
  check_policy c min_date max_date config b head h = Ok tt -> height h = height head +! 1 -> h_timestamp head < h_timestamp h ->
  check_difficulty c min_date max_date get_progpow_value u256_from MINE b head h = Ok tt ->
  validate_header b h = Ok tt.
Proof.
  intros Hv Hfar Hbad Hsize Hver Hp Hg (hs & Hs & Ehs) Hpol Hh Htime Hd. unfold Pipe.validate_header, valid_header_version.
  rewrite Hv, Z.eqb_refl. cbn [negb]. rewrite Hfar, Hbad. cbn [bind]. unfold check_proof. change (contains MINE SKIP_POW) with false.
  rewrite <- negb_orb, Hsize, Hver. cbn [negb bind]. unfold prev_header_store, get_previous_header. rewrite Hp, Hg. cbn [map_err bind].
  unfold seed_header_store. rewrite from_vec_bytes, Hs. cbn [map_err bind]. rewrite Ehs, Z.eqb_refl. cbn [negb]. rewrite Hpol. cbn [bind].
  rewrite Hh, Z.eqb_refl. cbn [negb]. destruct (Z.leb_spec (h_timestamp h) (h_timestamp head)); [lia|]. cbn [andb]. done.
Qed.

(** What the header range has at height [k] is the hash of a stored header of that height. *)
Definition header_indexed (s : Chain.Chain) (k : Z) : Prop := forall x,
  Chain.get_header_hash_by_height c s k = Ok x -> exists h, hdr (Chain.view s) x = Ok h /\ height h = k.

(** The configuration allows the policy of each era at its heights. *)
Definition allows_emitted : Prop :=
  forall x, 0 <= x -> is_allowed_policy (allowed_policies config) x (get_emitted_policy x) = Ok true.

(** The time of a template is within the limit when the clock has not gone back and the head
    is not at the limit itself. *)
Lemma template_time_near a head h :
  a_now a <= now -> h_timestamp head < now / 10 ^ 9 + 6 * BLOCK_TIME_SEC -> h_timestamp h = template_time (a_now a) head ->
  too_far_ahead c now h = false.
Proof.
  intros Ha Hh Ht. unfold too_far_ahead. rewrite Ht. apply andb_false_intro1. rewrite Z.gtb_ltb. apply Z.ltb_ge.
  pose proof (Z.mul_div_le (a_now a) (10 ^ 9) ltac:(lia)). pose proof (Z.mul_div_le now (10 ^ 9) ltac:(lia)).
  unfold template_time, BLOCK_TIME_SEC in *. destruct (_ <=? _); lia.
Qed.

(** C13. A solved template is a valid block.  Whatever the pool and the wallet contributed, the
    block that is built on the head of a consistent chain, once it has a nonce and a proof of
    the algorithm it was built for that verifies and reaches the difficulty it asks for, passes
    the validation of its header and of its body: version, time, seed, policy, height, work and
    scaling are those the rules ask for.  Assumed: the configuration allows the policy of each
    era, as the default one does; the clock has not gone back since the block was built, and
    the head is not itself at the limit of six minutes ahead of it; the solved header has a
    hash, and that is not one of the two banned ones. *)
Theorem solved_template_valid burn a key_id n b fees algo n' head nonce p d hash :
  build_block c min_date max_date config load_foundation_output sort_buckets burn a key_id n = (Ok (b, fees, algo), n') ->
  chain_ok (Chain.view (chain n)) -> Chain.head_header c min_date max_date (chain n) = Ok head -> height head + 1 < 2 ^ 64 ->
  header_indexed (chain n) (rx_current_seed_height (height head +! 1)) ->
  allows_emitted -> a_now a <= now -> h_timestamp head < now / 10 ^ 9 + 6 * BLOCK_TIME_SEC ->
  let h := header (solved b nonce p) in
  header_hash c h = Ok hash -> hash ∉ bad_hashes -> pow_verifier h = true ->
  is_primary c (pow h) || is_secondary (pow h) = true -> proof_algo p = Some algo ->
  share_difficulty c get_progpow_value u256_from h = Ok d ->
  to_num (difficulty_sub (h_total_difficulty h) (h_total_difficulty head)) (PoWType_from p) <= d ->
  validate_header (Chain.view (chain n')) h = Ok tt
  /\ validate_block c min_date max_date load_foundation_output (Chain.view (chain n')) (solved b nonce p) = Ok tt.
Proof.
  intros Hbuild Hb Hhead Hlt Hidx Hallow Hclock Hnear h Hhash Hnot Hver Hsize Halgo Hd Hreach.
  destruct (build_block_inv _ _ _ _ _ _ _ _ Hbuild) as (b1 & r & Ht & Hroots & Hstore).
  destruct (template_inv _ _ _ _ _ _ _ Ht) as (head' & sd & info & b0 & bottles & cursor & ph & off & Hh' & Hsd & Hi & Hph & Hb0 & (k & Hval) & Hcur & Hnp & Hb1).
  assert (head' = head) as -> by congruence. destruct (head_header_inv _ _ Hb Hhead) as (tip & Htip & Hg & Hk).
  assert (ph = last_block_h tip) as -> by congruence.
  assert (version h = CURRENT_HEADER_VERSION /\ height h = height head +! 1 /\ prev_hash h = last_block_h tip
    /\ h_timestamp h = template_time (a_now a) head /\ policy h = get_emitted_policy (height head +! 1)
    /\ pow h = mkProofOfWork (difficulty_add (difficulty info) (h_total_difficulty head)) (info_scaling info) nonce p sd)
    as (Ev & Eh & Ep & Et & Epol & Epow).
  { subst h b b1. destruct r as [[pr rs] [[[? ?] ?] ?]]. cbn. rewrite Hb0. by split_and!. }
  assert (check_bad_header c h = Ok tt) as Hbad by (unfold check_bad_header, hash_of; rewrite Hhash; cbn [bind]; by rewrite decide_False).
  pose proof (template_time_near a head h Hclock Hnear Et) as Hfar.
  pose proof (stored_height c min_date max_date genesis _ Hb head ltac:(by eexists)) as Hpos.
  assert (is_allowed_policy (allowed_policies config) (height h) (policy h) = Ok true) as Hpol.
  { rewrite Epol, Eh. apply Hallow. rewrite u64_add_small by (unfold is_u64; lia). lia. }
  assert (Chain.view (chain n') = Chain.view (chain n)) as -> by (unfold Chain.view; by rewrite Hstore). split.
  - apply (validate_header_intro _ h head (last_block_h tip)); try done.
    + destruct (Hidx _ Hsd) as (hs & Hhs & Ehs). exists hs. by rewrite Epow, Eh.
    + apply (template_policy (chain n) head tip h cursor bottles algo); try done; by rewrite ?Epol, ?Epow.
    + rewrite Et. apply template_time_later.
    + rewrite template_difficulty_required in Hi by done.
      apply (template_work _ head h info d); try done.
      * by exists (last_block_h tip).
      * by rewrite Eh.
      * unfold h_total_difficulty at 1. by rewrite Epow.
      * by rewrite Epow.
  - unfold validate_block, get_previous_header. change (header (solved b nonce p)) with h. rewrite Ep, Hg. cbn [map_err bind].
    rewrite Hroots, Hb1, validate_dressed, Hval. done.
Qed.
End Template.

(** ** The invariant of the server *)
(** The workers of the map are those the statistics show as connected, each under its own
    number, and they are counted. *)
Definition workers_ok (w : gmap nat Worker) (s : StratumStats) : Prop :=
  (forall id, is_Some (w !! id) <-> exists x, worker_stats s !! id = Some x /\ is_connected x = true)
  /\ (forall id x, w !! id = Some x -> w_id x = id) /\ (forall id x, worker_stats s !! id = Some x -> ws_id x = id)
  /\ num_workers s = size w.

(** There is a job, all algorithms have their difficulties, and for all but Cuckaroo a full
    solution is difficult enough for a share. *)
Definition state_ok (st : State) : Prop :=
  current_block_versions st <> []
  /\ forall t, exists m d, minimum_share_difficulty st !! t = Some m /\ current_difficulty st !! t = Some d
     /\ (t <> Cuckaroo -> m <= d).

Definition stratum_ok (h : Handler) : Prop := workers_ok (workers h) (stats h) /\ state_ok (current_state h).

(** What preserves the invariant, whatever the outcome. *)
Definition preserves (h h' : Handler) : Prop := stratum_ok h -> stratum_ok h'.
#[local] Instance preserves_po : PreOrder preserves.
Proof. split; [intros h Hh; exact Hh|]. unfold preserves. intros a b d. auto. Qed.

(** A change of the statistics of one worker that leaves its number and connection. *)
Definition same_worker (f : WorkerStats -> WorkerStats) : Prop := forall w, ws_id (f w) = ws_id w /\ is_connected (f w) = is_connected w.

Lemma workers_ok_update w s id x y :
  workers_ok w s -> worker_stats s !! id = Some x -> ws_id y = ws_id x -> is_connected y = is_connected x ->
  workers_ok w (set_worker_stats (<[id := y]> (worker_stats s)) s).
Proof.
  intros (Hc & Hw & Hs & Hn) Hx Hi He. pose proof (lookup_lt_Some _ _ _ Hx) as Hlt. split_and!; [|done| |done].
  - intros j. rewrite Hc. cbn [worker_stats set_worker_stats]. destruct (decide (id = j)) as [<-|Hne].
    + rewrite list_lookup_insert_eq by done. rewrite Hx. split; intros (z & [= <-] & Hz); eexists; (split; [done|congruence]).
    + by rewrite list_lookup_insert_ne.
  - intros j z. cbn [worker_stats set_worker_stats]. destruct (decide (id = j)) as [<-|Hne].
    + rewrite list_lookup_insert_eq by done. intros [= <-]. rewrite Hi. by apply Hs.
    + rewrite list_lookup_insert_ne by done. apply Hs.
Qed.

Lemma update_stats_preserves {E} id f : same_worker f -> tkeeps preserves (update_stats (E := E) id f).
Proof.
  intros Hf h r h'. unfold update_stats. destruct (worker_stats (stats h) !! id) as [x|] eqn:Hx; intros [= <- <-]; [|reflexivity].
  intros [Hw Hs]. split; [|done]. cbn [workers stats set_stats]. destruct (Hf x). by eapply workers_ok_update.
Qed.

Lemma workers_ok_map w w' s :
  workers_ok w s -> (forall id, is_Some (w' !! id) <-> is_Some (w !! id)) -> (forall id x, w' !! id = Some x -> w_id x = id) ->
  size w' = size w -> workers_ok w' s.
Proof. intros (Hc & Hw & Hs & Hn) Hd Hi Hz. split_and!; [|done..|congruence]. intros id. by rewrite Hd. Qed.

(** A worker replaced under its own number. *)
Lemma workers_ok_replace w s id x y :
  workers_ok w s -> w !! id = Some x -> w_id y = w_id x -> workers_ok (<[id := y]> w) s.
Proof.
  intros Hok Hx He. pose proof Hok as (_ & Hw & _). apply (workers_ok_map w); [done|..].
  - intros j. destruct (decide (id = j)) as [<-|Hne]; [rewrite lookup_insert_eq, Hx; by split|by rewrite lookup_insert_ne].
  - intros j z. destruct (decide (id = j)) as [<-|Hne]; [rewrite lookup_insert_eq; intros [= <-]; rewrite He; by apply Hw|].
    rewrite lookup_insert_ne by done. apply Hw.
  - by apply map_size_insert_Some.
Qed.

Lemma worker_login_preserves id name ag : tkeeps preserves (worker_login id name ag).
Proof.
  intros h r h'. unfold worker_login. destruct (workers h !! id) as [w|] eqn:Hw; intros [= <- <-]; [|reflexivity].
  intros [Hok Hs]. split; [|done]. by eapply workers_ok_replace.
Qed.

Lemma send_to_preserves {E} id m : tkeeps preserves (send_to (E := E) id m).
Proof.
  intros h r h'. unfold send_to. destruct (workers h !! id) as [w|] eqn:Hw; intros [= <- <-]; [|reflexivity].
  intros [Hok Hs]. split; [|done]. by eapply workers_ok_replace.
Qed.

Lemma broadcast_preserves m h : preserves h (broadcast m h).
Proof.
  intros [Hok Hs]. split; [|done]. cbn [workers stats broadcast set_workers]. pose proof Hok as (_ & Hw & _).
  apply (workers_ok_map (workers h)); [done|..].
  - intros id. rewrite lookup_fmap. apply fmap_is_Some.
  - intros id x. rewrite lookup_fmap, fmap_Some. intros (y & Hy & ->). exact (Hw id y Hy).
  - apply map_size_fmap.
Qed.

Lemma set_node_preserves n h : preserves h (set_node n h).
Proof. by intros [? ?]. Qed.

Lemma add_worker_ok now h : stratum_ok h -> stratum_ok (snd (add_worker now h)).
Proof.
  intros [(Hc & Hw & Hs & Hn) Hst]. split; [|done]. unfold add_worker. cbn [snd workers stats set_stats set_workers].
  set (n := length (worker_stats (stats h))). assert (workers h !! n = None) as Hnew.
  { apply eq_None_not_Some. rewrite Hc. intros (x & Hx & _). apply lookup_lt_Some in Hx. unfold n in Hx. lia. }
  split_and!; cbn [worker_stats num_workers set_num_workers set_worker_stats].
  - intros id. destruct (decide (n = id)) as [<-|Hne].
    + rewrite lookup_insert_eq. unfold n. rewrite lookup_app_r, Nat.sub_diag by lia. split; intros _; by eexists.
    + rewrite lookup_insert_ne, Hc by done. split; intros (x & Hx & Hi); exists x; (split; [|done]).
      * rewrite lookup_app_l; [done|by apply lookup_lt_Some in Hx].
      * apply lookup_app_Some in Hx as [Hx|[Hle Hx]]; [done|]. apply list_lookup_singleton_Some in Hx as [Hz _]. unfold n in Hne. lia.
  - intros id x. destruct (decide (n = id)) as [<-|Hne]; [rewrite lookup_insert_eq; by intros [= <-]|]. rewrite lookup_insert_ne by done. apply Hw.
  - intros id x Hx. apply lookup_app_Some in Hx as [Hx|[Hle Hx]]; [by apply Hs|].
    apply list_lookup_singleton_Some in Hx as [Hz <-]. cbn [ws_id]. unfold n. lia.
  - done.
Qed.

Lemma remove_worker_ok id h r h' :
  stratum_ok h -> is_Some (workers h !! id) -> remove_worker id h = (r, h') -> r = Ok tt /\ stratum_ok h' /\ workers h' !! id = None.
Proof.
  intros [(Hc & Hw & Hs & Hn) Hst] Hid. pose proof (proj1 (Hc id) Hid) as (x & Hx & Hi). destruct Hid as [w Hwk].
  pose proof (lookup_lt_Some _ _ _ Hx) as Hlt.
  unfold remove_worker, tbind, update_stats. rewrite Hx. cbn [workers set_stats]. rewrite Hwk. intros [= <- <-].
  split; [done|]. split; [|apply lookup_delete_eq]. split; [|done]. cbn [workers stats set_stats set_workers].
  split_and!; cbn [worker_stats num_workers set_num_workers set_worker_stats].
  - intros j. destruct (decide (id = j)) as [<-|Hne].
    + rewrite lookup_delete_eq, list_lookup_insert_eq by done. split; [by intros []|]. by intros (z & [= <-] & Hz).
    + by rewrite lookup_delete_ne, list_lookup_insert_ne, Hc.
  - intros j z Hz. apply lookup_delete_Some in Hz as [_ Hz]. by apply Hw.
  - intros j z. destruct (decide (id = j)) as [<-|Hne].
    + rewrite list_lookup_insert_eq by done. intros [= <-]. exact (Hs id x Hx).
    + rewrite list_lookup_insert_ne by done. apply Hs.
  - done.
Qed.

(** ** The handlers *)
Section Handlers.
Context `{Hasher} `{KeyHashes} `{SecpSigning} `{PoWContext} (c : ChainTypes) (min_date max_date : Z).
Context (get_progpow_value : list Z -> Z -> Z -> Hash) (u256_from : Hash -> Z).
Context (config : PolicyConfig) (pow_verifier : BlockHeader -> bool).
Context (bitmap_serialize : gset Z -> list Z) (bitmap_deserialize : list Z -> gset Z).
Context (load_foundation_output : Z -> Output * TxKernel).
Context (sort_buckets : list Bucket -> list Bucket).
Context {Value : Type} (as_login : Value -> option LoginParams) (as_job : Value -> option JobParams) (as_submit : Value -> option SubmitParams).

#[local] Abbreviation handle_submit now := (handle_submit c min_date max_date get_progpow_value u256_from config pow_verifier now
  bitmap_serialize bitmap_deserialize load_foundation_output as_submit).
#[local] Abbreviation submit_block now := (submit_block c min_date max_date get_progpow_value u256_from config pow_verifier now
  bitmap_serialize bitmap_deserialize load_foundation_output).
#[local] Abbreviation check_share now := (check_share c min_date max_date get_progpow_value u256_from config pow_verifier now
  bitmap_serialize bitmap_deserialize load_foundation_output).
#[local] Abbreviation dispatch now := (dispatch c min_date max_date get_progpow_value u256_from config pow_verifier now
  bitmap_serialize bitmap_deserialize load_foundation_output as_login as_job as_submit).
#[local] Abbreviation handle_line now := (handle_line c min_date max_date get_progpow_value u256_from config pow_verifier now
  bitmap_serialize bitmap_deserialize load_foundation_output as_login as_job as_submit).
#[local] Abbreviation run_round now := (run_round c min_date max_date config now load_foundation_output sort_buckets).

Lemma refuse_preserves {A} id f e : same_worker f -> tkeeps preserves (refuse (A := A) id f e).
Proof. intros Hf. unfold refuse. keeps_seq; [by apply update_stats_preserves|]. apply tkeeps_tfail, _. Qed.

Lemma log_share_preserves b id found : tkeeps preserves (log_share c b id found).
Proof.
  unfold log_share. keeps_seq; [apply tkeeps_tread, _|by apply update_stats_preserves|].
  destruct found; [keeps_seq; [apply tkeeps_tread, _|]|]; apply tkeeps_tret, _.
Qed.

Lemma submit_block_preserves now b id : tkeeps preserves (submit_block now b id).
Proof.
  intros h r h'. unfold Stratum.submit_block. destruct (chain_process_block _ _ _ _ _ _ _ _ _ _ _ _ _ _) as [[tip|e|] n]; intros He.
  - etransitivity; [apply (set_node_preserves n)|]. revert He. generalize (set_node n h) r h'.
    change (tkeeps preserves (do! update_stats id count_block then do! tread (get_stats id) then tret tt)).
    keeps_seq; [by apply update_stats_preserves|apply tkeeps_tread, _|apply tkeeps_tret, _].
  - etransitivity; [apply (set_node_preserves n)|]. revert He. by apply refuse_preserves.
  - injection He as <- <-. apply set_node_preserves.
Qed.

Lemma check_share_preserves now st p id : tkeeps preserves (check_share now st p id).
Proof.
  unfold Stratum.check_share. keeps_seq; [apply tkeeps_tread, _|].
  destruct (current_block_versions st !! _) as [[b t]|]; [|by apply refuse_preserves].
  destruct (sp_height p =? _); [|by apply refuse_preserves]. cbv zeta.
  destruct (negb _ && _); [by apply refuse_preserves|]. keeps_seq; [apply tkeeps_tread, _..|].
  destruct (_ <? _); [by apply refuse_preserves|]. keeps_seq; [apply tkeeps_tread, _|].
  destruct (_ && _); [keeps_seq; [apply submit_block_preserves|apply log_share_preserves]|].
  destruct (negb _); [by apply refuse_preserves|apply log_share_preserves].
Qed.

Lemma handle_submit_preserves now params id : tkeeps preserves (handle_submit now params id).
Proof.
  unfold Stratum.handle_submit. keeps_seq; [apply tkeeps_tread, _|]. intros h r h'. apply check_share_preserves.
Qed.

Lemma handle_login_preserves params id : tkeeps preserves (handle_login as_login params id).
Proof. unfold handle_login. keeps_seq; [apply tkeeps_tread, _|apply worker_login_preserves|apply tkeeps_tret, _]. Qed.

Lemma forget_key_preserves h : preserves h (set_state (forget_key (current_state h)) h).
Proof. by intros [? ?]. Qed.

Lemma dispatch_preserves now syncing method params id : tkeeps preserves (dispatch now syncing method params id).
Proof.
  intros h r h'. unfold Stratum.dispatch. repeat case_decide.
  - apply handle_login_preserves.
  - destruct (handle_submit now params id h) as [q h1] eqn:E. apply handle_submit_preserves in E.
    destruct q as [[v []]|e|]; intros [= <- <-]; [|done..]. etransitivity; [exact E|apply forget_key_preserves].
  - intros [= <- <-]. reflexivity.
  - destruct syncing; intros [= <- <-]; reflexivity.
  - intros [= <- <-]. reflexivity.
  - intros [= <- <-]. reflexivity.
Qed.

Lemma handle_line_preserves now syncing rid method params id : tkeeps preserves (handle_line now syncing rid method params id).
Proof.
  unfold Stratum.handle_line. keeps_seq; [|apply send_to_preserves]. unfold handle_rpc_requests. keeps_seq; [by apply update_stats_preserves|].
  intros h r h'. destruct (dispatch now syncing method params id h) as [q h1] eqn:E. apply dispatch_preserves in E.
  by destruct q; intros [= <- <-].
Qed.

(** ** Jobs *)
Lemma job_minimum_ok cf d m0 m :
  complete d -> job_minimum cf (num d) m0 = Ok m ->
  forall t, exists x y, m !! t = Some x /\ num d !! t = Some y /\ (t <> Cuckaroo -> x <= y).
Proof.
  intros Hd Hm. unfold job_minimum in Hm. destruct (Hd Cuckatoo) as [a Ha], (Hd RandomX) as [b Hb], (Hd ProgPow) as [e He], (Hd Cuckaroo) as [g Hg].
  rewrite Ha, Hb, He in Hm. injection Hm as <-. intros t. destruct t; simplify_map_eq; do 2 eexists; (split_and!; [done|done|]); intros Ht; try done; lia.
Qed.

Lemma broadcast_job_preserves : tkeeps preserves (broadcast_job c).
Proof.
  intros h r h'. unfold broadcast_job. destruct (build_block_template c h); intros [= <- <-]; [apply broadcast_preserves|reflexivity..].
Qed.

Lemma publish_preserves now cf b fees algo : tkeeps preserves (publish c now cf b fees algo).
Proof.
  unfold publish. apply tkeeps_tbind; [exact _|apply tkeeps_tread, _|]. intros tip. case_decide; [apply tkeeps_tret, _|]. cbv zeta.
  intros h r h'. unfold tbind at 1, tread at 1. destruct (job_minimum _ _ _) as [m|e|] eqn:Em; [|intros [= <- <-]; reflexivity..].
  unfold tbind, tmodify. intros Hb. apply broadcast_job_preserves in Hb. intros [Hw [Hv _]]. apply Hb. clear Hb. split; [done|].
  split; [intros E; apply (f_equal length) in E; cbn in E; rewrite length_app in E; cbn in E; lia|]. eapply job_minimum_ok; [|exact Em]. apply difficulty_sub_complete.
Qed.

Lemma run_round_preserves now cf attempts : tkeeps preserves (run_round now cf attempts).
Proof.
  intros h r h'. unfold Stratum.run_round. destruct (Chain.head _) as [tip|e|]; [|intros [= <- <-]; reflexivity..].
  destruct (due now h tip); [|intros [= <- <-]; reflexivity].
  destruct (get_block _ _ _ _ _ _ _ _ _ _) as [[[[[b fees] algo]|]|e|] n]; intros He.
  - etransitivity; [apply (set_node_preserves n)|]. by eapply publish_preserves.
  - injection He as <- <-. apply set_node_preserves.
  - injection He as <- <-. apply set_node_preserves.
  - injection He as <- <-. apply set_node_preserves.
Qed.

(** A life of the server: workers come and go, send lines and are sent jobs, while the rest of
    the node does what it does. *)
Inductive stratum_step : Handler -> Handler -> Prop :=
| step_connect now h : stratum_step h (snd (add_worker now h))
| step_disconnect id h r h' : is_Some (workers h !! id) -> remove_worker id h = (r, h') -> stratum_step h h'
| step_line now syncing rid method params id h r h' :
    is_Some (workers h !! id) -> handle_line now syncing rid method params id h = (r, h') -> stratum_step h h'
| step_round now cf attempts h r h' : run_round now cf attempts h = (r, h') -> stratum_step h h'
| step_node n h : stratum_step h (set_node n h).

Lemma stratum_step_ok h h' : stratum_step h h' -> stratum_ok h -> stratum_ok h'.
Proof.
  intros [now|id x r y Hid Hr|now sy rid me pa id x r y Hid Hl|now cf at_ x r y Hr|n x] Hok.
  - by apply add_worker_ok.
  - by eapply remove_worker_ok.
  - by eapply handle_line_preserves.
  - by eapply run_round_preserves.
  - by apply set_node_preserves.
Qed.

Definition config_ok (cf : StratumConfig) : Prop :=
  is_u64 (cuckatoo_minimum_share_difficulty cf) /\ is_u64 (randomx_minimum_share_difficulty cf) /\ is_u64 (progpow_minimum_share_difficulty cf).

Lemma handler_new_ok cf bits n h : config_ok cf -> handler_new c cf bits n = Ok h -> stratum_ok h /\ workers h = ∅.
Proof.
  intros (Hc1 & Hc2 & Hc3) Hn. unfold handler_new in Hn. destruct (Chain.head (chain n)); [|done..]. injection Hn as <-.
  split; [|done]. unfold is_u64 in *. split.
  - split_and!; cbn; [|by intros ? ? ?..|done]. intros id. split; [intros []; done|]. by intros (x & ? & _).
  - split; [done|]. intros t. cbn. unfold minimum_from, u64_max. destruct t; simplify_map_eq; do 2 eexists; (split_and!; [done|done|]); lia.
Qed.

(** ** One share *)
(** The counters of a worker after a share with outcome [r]. *)
Definition counted (r : outcome rpc_error (reply * bool)) (w w' : WorkerStats) : Prop :=
  match r with
  | Ok (_, found) =>
      num_accepted w' = num_accepted w +! 1 /\ num_rejected w' = num_rejected w /\ num_stale w' = num_stale w
      /\ num_blocks_found w' = (if (found : bool) then num_blocks_found w +! 1 else num_blocks_found w)
  | Err TooLate =>
      num_accepted w' = num_accepted w /\ num_rejected w' = num_rejected w /\ num_stale w' = num_stale w +! 1
      /\ num_blocks_found w' = num_blocks_found w
  | Err _ =>
      num_accepted w' = num_accepted w /\ num_rejected w' = num_rejected w +! 1 /\ num_stale w' = num_stale w
      /\ num_blocks_found w' = num_blocks_found w
  | Panic => True
  end.

(** [h'] is [h] but for the statistics of worker [id], which go from [w] to [w']. *)
Definition only_stats (id : nat) (w w' : WorkerStats) (n : Node) (h h' : Handler) : Prop :=
  worker_stats (stats h) !! id = Some w
  /\ h' = set_node n (set_stats (set_worker_stats (<[id := w']> (worker_stats (stats h))) (stats h)) h).

Lemma refuse_run {A} id f e h w :
  worker_stats (stats h) !! id = Some w ->
  exists h', refuse (A := A) id f e h = (Err e, h') /\ only_stats id w (f w) (node h) h h'.
Proof. intros Hw. unfold refuse, tbind, update_stats. rewrite Hw. eexists. split; [done|]. split; [done|]. by destruct h. Qed.

Lemma log_share_run b id found h w x :
  worker_stats (stats h) !! id = Some w -> workers h !! id = Some x ->
  exists r h', log_share c b id found h = (r, h') /\ only_stats id w (count_accepted w) (node h) h h'
    /\ (if found then r = Panic \/ exists hash, r = Ok (BlockFound hash, true) /\ header_hash c (header b) = Ok hash else r = Ok (OkReply, false)).
Proof.
  intros Hw Hx. unfold log_share, tbind, tread, tret, get_worker, update_stats. rewrite Hx. cbn [ok_or]. rewrite Hw.
  destruct found; [|do 2 eexists; split; [reflexivity|]; split; [|done]; split; [done|by destruct h]].
  destruct (header_hash c (header b)) as [hash|e|]; do 2 eexists; (split; [reflexivity|]); (split; [split; [done|by destruct h]|]); eauto.
Qed.

#[local] Abbreviation process now := (chain_process_block c min_date max_date now get_progpow_value u256_from config pow_verifier
  bitmap_serialize bitmap_deserialize load_foundation_output).

(** What a full solution does: the chain decides. *)
Lemma submit_run now b id h w x :
  worker_stats (stats h) !! id = Some w -> workers h !! id = Some x ->
  exists q n r h', process now b MINE (node h) = (q, n)
    /\ (do! submit_block now b id then log_share c b id true) h = (r, h')
    /\ match q with
       | Ok _ => only_stats id w (count_accepted (count_block w)) n h h'
                 /\ (r = Panic \/ exists hash, r = Ok (BlockFound hash, true) /\ header_hash c (header b) = Ok hash)
       | Err _ => only_stats id w (count_rejected w) n h h' /\ r = Err CannotValidate
       | Panic => r = Panic
       end.
Proof.
  intros Hw Hx. destruct (process now b MINE (node h)) as [q n] eqn:E. pose proof (lookup_lt_Some _ _ _ Hw) as Hlt.
  unfold tbind at 1, Stratum.submit_block. rewrite E. exists q, n. destruct q as [tip|e|].
  - unfold tbind, tread, tret, update_stats, get_stats. cbn [stats set_node]. rewrite Hw. cbn [stats set_stats worker_stats set_worker_stats].
    rewrite list_lookup_insert_eq by done. cbn [ok_or].
    set (h1 := set_stats _ _). destruct (log_share_run b id true h1 (count_block w) x) as (r & h' & Hl & (_ & Ho) & Hr);
      [by unfold h1; cbn; rewrite list_lookup_insert_eq|done|].
    exists r, h'. split_and!; [done|done| |done]. split; [done|]. rewrite Ho. unfold h1. cbn. rewrite list_insert_insert_eq. by destruct h.
  - destruct (refuse_run (A := ()) id count_rejected CannotValidate (set_node n h) w Hw) as (h' & -> & _ & ->).
    do 2 eexists. split_and!; [done|reflexivity| |done]. split; [done|]. by destruct h.
  - do 2 eexists. by split_and!.
Qed.

(** The outcome of a share: one counter of the worker, and the chain only for a solution. *)
Definition share_outcome (now : Z) (p : SubmitParams) (id : nat) (h : Handler) (r : outcome rpc_error (reply * bool)) (h' : Handler) : Prop :=
  exists w w', only_stats id w w' (node h') h h' /\ counted r w w'
    /\ (node h' = node h /\ (forall v, r <> Ok (v, true))
        \/ exists b algo q, current_block_versions (current_state h) !! Z.to_nat (sp_job_id p) = Some (b, algo)
           /\ process now (solved b (sp_nonce p) (proof_of (sp_pow p))) MINE (node h) = (q, node h')
           /\ if is_ok q then exists hash, r = Ok (BlockFound hash, true) else r = Err CannotValidate).

Lemma refused_outcome now p id h f e r h' :
  is_Some (worker_stats (stats h) !! id) -> refuse id f e h = (r, h') -> (forall w, counted (Err e) w (f w)) -> share_outcome now p id h r h'.
Proof.
  intros [w Hw]. destruct (refuse_run (A := reply * bool) id f e h w Hw) as (h1 & -> & Hi & Ho). intros [= <- <-] Hc.
  exists w, (f w). split_and!; [|done|left; by rewrite Ho]. split; [done|]. by rewrite Ho.
Qed.

Lemma logged_outcome now p id h b r h' :
  is_Some (worker_stats (stats h) !! id) -> is_Some (workers h !! id) -> log_share c b id false h = (r, h') -> share_outcome now p id h r h'.
Proof.
  intros [w Hw] [x Hx]. destruct (log_share_run b id false h w x Hw Hx) as (r1 & h1 & -> & (Hi & Ho) & ->). intros [= <- <-].
  exists w, (count_accepted w). split_and!; [|done|left; by rewrite Ho]. split; [done|]. by rewrite Ho.
Qed.

Lemma submitted_outcome now p id h b algo r h' :
  is_Some (worker_stats (stats h) !! id) -> is_Some (workers h !! id) ->
  current_block_versions (current_state h) !! Z.to_nat (sp_job_id p) = Some (b, algo) ->
  let b' := solved b (sp_nonce p) (proof_of (sp_pow p)) in
  (do! submit_block now b' id then log_share c b' id true) h = (r, h') -> r <> Panic -> share_outcome now p id h r h'.
Proof.
  intros [w Hw] [x Hx] Hb b' Hs Hr. destruct (submit_run now b' id h w x Hw Hx) as (q & n & r1 & h1 & Hq & Hs1 & Hm).
  rewrite Hs in Hs1. injection Hs1 as <- <-. destruct q as [tip|e|]; [| |done].
  - destruct Hm as [[Hi Ho] [->|(hash & -> & _)]]; [done|]. exists w, (count_accepted (count_block w)).
    assert (node h' = n) as Hn by (by rewrite Ho). rewrite Hn. split_and!; [done|done|]. right. exists b, algo, (Ok tip).
    split_and!; [done|done|by exists hash].
  - destruct Hm as [[Hi Ho] ->]. exists w, (count_rejected w). assert (node h' = n) as Hn by (by rewrite Ho). rewrite Hn.
    split_and!; [done|done|]. right. by exists b, algo, (Err e).
Qed.

Lemma share_difficulty_no_err bh e : share_difficulty c get_progpow_value u256_from bh <> Err e.
Proof. unfold share_difficulty. by destruct (to_difficulty _ _ _ _ _ _ _). Qed.

(** C15. A share is counted once and judged by the rules.  A share that a connected worker hands
    in, unless it panics, adds one to exactly one of its counters, accepted, rejected or stale,
    in keeping with the answer; nothing else changes, but for the chain when the share was
    submitted to it as a full solution, and a block is reported as found exactly when the chain
    took the block of the job with this solution. *)
Theorem share_counted now params id p h r h' :
  stratum_ok h -> is_Some (workers h !! id) -> parse_params as_submit params = Ok p ->
  handle_submit now params id h = (r, h') -> r <> Panic -> share_outcome now p id h r h'.
Proof.
  intros [(Hc & _) [Hv Hd]] Hid Hp Hs Hr.
  assert (is_Some (worker_stats (stats h) !! id)) as Hw by (destruct (proj1 (Hc id) Hid) as (w & Hw & _); by eexists).
  unfold Stratum.handle_submit, tbind at 1, tread at 1 in Hs. rewrite Hp in Hs. unfold Stratum.check_share, tbind at 1, tread at 1 in Hs.
  destruct (last (current_block_versions (current_state h))) as [newest|]; [cbn [unwrap] in Hs|by injection Hs as <- <-].
  destruct (current_block_versions (current_state h) !! Z.to_nat (sp_job_id p)) as [[b algo]|] eqn:Hb; [|by eapply refused_outcome].
  destruct (sp_height p =? _); [|by eapply refused_outcome]. cbv zeta in Hs. set (b' := solved b (sp_nonce p) (proof_of (sp_pow p))) in *.
  destruct (negb _ && _) in Hs; [by eapply refused_outcome|]. unfold tbind at 1, tread at 1 in Hs.
  destruct (share_difficulty _ _ _ _) as [share|e|] eqn:Es in Hs; [|by apply share_difficulty_no_err in Es|by injection Hs as <- <-].
  unfold tbind at 1, tread at 1 in Hs.
  destruct (Hd (PoWType_from (proof (pow (header b'))))) as (m & d & Hm & Hcur & _). unfold get_minimum_difficulty in Hs. rewrite Hm in Hs.
  cbn [unwrap] in Hs. destruct (share <? m); [by eapply refused_outcome|]. unfold tbind at 1, tread at 1, get_current_difficulty in Hs.
  rewrite Hcur in Hs. cbn [unwrap] in Hs. destruct (_ && _) in Hs; [by eapply submitted_outcome|].
  destruct (negb _) in Hs; [by eapply refused_outcome|by eapply logged_outcome].
Qed.

(** A full solution reaches the chain: for a job still open, with a proof of its algorithm
    other than Cuckaroo that has the difficulty asked for, no check of the server stands
    between the solution and the chain. *)
Lemma full_solution_submitted now params id p h b newest d cur :
  stratum_ok h -> parse_params as_submit params = Ok p ->
  let b' := solved b (sp_nonce p) (proof_of (sp_pow p)) in
  let algo := PoWType_from (proof_of (sp_pow p)) in
  current_block_versions (current_state h) !! Z.to_nat (sp_job_id p) = Some (b, algo) ->
  last (current_block_versions (current_state h)) = Some newest -> sp_height p = height (header newest.1) ->
  is_primary c (pow (header b')) || is_secondary (pow (header b')) = true ->
  share_difficulty c get_progpow_value u256_from (header b') = Ok d ->
  current_difficulty (current_state h) !! algo = Some cur -> cur <= d -> algo <> Cuckaroo ->
  handle_submit now params id h = (do! submit_block now b' id then log_share c b' id true) h.
Proof.
  intros [_ [_ Hd]] Hp b' algo Hb Hl Hh Hsize Hs Hcur Hle Hne.
  unfold Stratum.handle_submit, tbind at 1, tread at 1. rewrite Hp. unfold Stratum.check_share, tbind at 1, tread at 1. rewrite Hl. cbn [unwrap].
  rewrite Hb, Hh, Z.eqb_refl. fold b'. cbv zeta. change (proof (pow (header b'))) with (proof_of (sp_pow p)). fold algo.
  rewrite <- negb_orb, Hsize. cbn [negb]. unfold tbind at 1, tread at 1. rewrite Hs. unfold tbind at 1, tread at 1.
  destruct (Hd algo) as (m & d' & Hm & Hd' & Hmin). assert (d' = cur) as -> by congruence.
  unfold get_minimum_difficulty, get_current_difficulty. rewrite Hm. cbn [unwrap]. specialize (Hmin Hne).
  destruct (Z.ltb_spec d m); [lia|]. unfold tbind at 1, tread at 1. rewrite Hcur. cbn [unwrap].
  rewrite (bool_decide_eq_true_2 (algo = algo)) by done. rewrite (proj2 (Z.geb_le d cur)) by done. done.
Qed.

(** ** Over a whole run *)
(** A request that concerns neither shares nor jobs. *)
Lemma dispatch_answers now syncing method params id h ws w :
  worker_stats (stats h) !! id = Some ws -> workers h !! id = Some w -> current_block_versions (current_state h) <> [] ->
  method <> "submit"%string -> method <> "getjobtemplate"%string ->
  exists v h', dispatch now syncing method params id h = (v, h') /\ v <> Panic
    /\ exists w', workers h' !! id = Some w' /\ outbox w' = outbox w.
Proof.
  intros Hws Hw Hv Hm1 Hm2. unfold Stratum.dispatch. repeat case_decide; try done.
  - unfold handle_login, tbind, tread, tret, worker_login, parse_params. destruct (match params with Some v => _ | None => _ end) as [lp|]; cbn [ok_or].
    + rewrite Hw. do 2 eexists. split_and!; [reflexivity|done|]. eexists. split; [apply lookup_insert_eq|done].
    + do 2 eexists. split_and!; [reflexivity|done|by eexists].
  - do 2 eexists. split_and!; [reflexivity|done|by eexists].
  - do 2 eexists. split_and!; [reflexivity| |by eexists]. unfold handle_status, get_stats. rewrite Hws. cbn [ok_or bind].
    destruct (last (current_block_versions (current_state h))) as [[b t]|] eqn:El; [done|]. by apply last_None in El.
  - do 2 eexists. split_and!; [reflexivity|done|by eexists].
Qed.

Lemma line_answered now syncing rid method params id h :
  stratum_ok h -> is_Some (workers h !! id) -> method <> "submit"%string -> method <> "getjobtemplate"%string ->
  exists v h', handle_line now syncing rid method params id h = (Ok tt, h')
    /\ (outbox <$> workers h' !! id) = (fun w => outbox w ++ [Response rid method v]) <$> workers h !! id.
Proof.
  intros [(Hc & _) [Hv _]] Hid Hm1 Hm2. destruct (proj1 (Hc id) Hid) as (ws & Hws & _). destruct Hid as [w Hw].
  pose proof (lookup_lt_Some _ _ _ Hws) as Hlt.
  unfold Stratum.handle_line, handle_rpc_requests, tbind, update_stats. rewrite Hws. set (h1 := set_stats _ h).
  destruct (dispatch_answers now syncing method params id h1 (seen_at now ws) w) as (v & h2 & -> & Hnp & w' & Hw' & Ho);
    [by unfold h1; cbn; rewrite list_lookup_insert_eq|done..|].
  destruct v as [v|e|]; [| |done]; unfold send_to; rewrite Hw'; do 2 eexists; (split; [reflexivity|]);
    cbn [workers set_workers]; rewrite lookup_insert_eq, Hw; cbn; by rewrite Ho.
Qed.

(** C14. The server stays in order.  Whatever workers come and go, whatever lines they send and
    whatever rounds the main loop takes while the rest of the node moves on, the connected
    workers are exactly those that the statistics show as connected, each under its own number
    and counted; there is a job; every algorithm has a difficulty, and for all but Cuckaroo
    what is asked of a share is at most what the block asks for.  So a line of a connected
    worker that concerns neither shares nor jobs is always answered, in its own channel. *)
Theorem stratum_invariant cf bits n h h' :
  config_ok cf -> handler_new c cf bits n = Ok h -> rtc stratum_step h h' ->
  stratum_ok h'
  /\ forall now syncing rid method params id, is_Some (workers h' !! id) ->
     method <> "submit"%string -> method <> "getjobtemplate"%string ->
     exists v h'', handle_line now syncing rid method params id h' = (Ok tt, h'')
       /\ (outbox <$> workers h'' !! id) = (fun w => outbox w ++ [Response rid method v]) <$> workers h' !! id.
Proof.
  intros Hcf Hn Hs. assert (stratum_ok h') as Hok.
  { destruct (handler_new_ok cf bits n h Hcf Hn) as [Hok _]. clear Hn. induction Hs as [|a b d Hab _ IH]; [done|]. apply IH. by eapply stratum_step_ok. }
  split; [done|]. intros now syncing rid method params id Hid Hm1 Hm2. by apply line_answered.
Qed.
End Handlers.
