(* ===== verification/MiningExample.v ===== *)
(** * Mining: examples

    A node that mines on top of the chain of [ChainExample], with the wallet of [KeyExample]: a
    block is built, solved and valid; workers connect, hand in shares and find it; and runs of
    the defects. *)
From Stdlib Require Import String.
From S2P Require Import Prelude PmmrIndex Pmmr PmmrBackend PruneList AppendOnlyFile PmmrData Ser Global Pow Reward Retarget Feijoada Committed Transaction CutThrough Block BlockTheory ChainStore ChainStoreTheory Pipe PipeTheory ChainSums PipeExample TxHashSet ProcessBlock TxHashSetExample ProcessBlockExample Orphans ChainFacade Pool Node ChainExample Base58 Mnemonic ExtKey Keychain KeyTheory LibTx LibTxTheory KeyExample Mining Stratum MiningTheory.
#[local] Open Scope Z_scope.
#[local] Existing Instance wallet_secp.
#[local] Existing Instance wallet_keys.
#[local] Existing Instance wallet_signing.
#[local] Existing Instance wallet_hashes.
#[local] Existing Instance poly_hasher.
#[local] Existing Instance trusting_context.

(** ** A block, built and solved *)
Definition first_try : attempt := mkAttempt noon 7 [1; 2; 3] (fun _ => None).
Definition keep_order (l : list Bucket) : list Bucket := l.
Definition built : outcome mining_error (Block * BlockFees * PoWType) * Node :=
  Mining.build_block Mainnet 0 far_date default_config no_foundation keep_order true first_try None root_node.
Definition rx_proof : Proof := RandomXProof (from_vec (be_bytes 32 (2 ^ 201))).

(** What the theorem asks of the solution, as one test. *)
Definition well_solved (h : BlockHeader) (algo : PoWType) : bool :=
  match header_hash Mainnet h with Ok hash => bool_decide (hash ∉ bad_hashes) | _ => false end
  && bool_decide (algo = RandomX)
  && match share_difficulty Mainnet no_progpow hash_value h with
     | Ok d => to_num (difficulty_sub (h_total_difficulty h) (h_total_difficulty genesis)) RandomX <=? d
     | _ => false
     end.

Lemma default_allows : allows_emitted default_config.
Proof.
  intros x Hx. pose proof (emitted_range x). rewrite allowed_policy_mod by lia. by rewrite Z.mod_small, bool_decide_eq_true_2 by lia.
Qed.

Lemma solved_template_valid_witness :
  match built with
  | (Ok (b, _, _), n') =>
      validate_header Mainnet 0 far_date no_progpow hash_value default_config MINE trusting noon (Chain.view (chain n')) (header (solved b 9 rx_proof)) = Ok tt
      /\ validate_block Mainnet 0 far_date no_foundation (Chain.view (chain n')) (solved b 9 rx_proof) = Ok tt
  | _ => False
  end.
Proof.
  assert (match built.1 with Ok (b, _, algo) => well_solved (header (solved b 9 rx_proof)) algo | _ => false end = true) as Hok
    by (vm_compute; reflexivity).
  unfold built in *. destruct (Mining.build_block _ _ _ _ _ _ _ _ _ _) as [[[[b fees] algo]|e|] n'] eqn:E; [|discriminate Hok..].
  cbn [fst] in Hok. unfold well_solved in Hok. destruct (header_hash Mainnet _) as [hash|e|] eqn:Eh; [|discriminate Hok..].
  destruct (share_difficulty _ _ _ _) as [d|e|] eqn:Es; [|rewrite andb_false_r in Hok; discriminate Hok..].
  rewrite !andb_true_iff, !bool_decide_eq_true, Z.leb_le in Hok. destruct Hok as ((E1 & ->) & E2).
  apply (solved_template_valid Mainnet 0 far_date no_progpow hash_value default_config trusting noon no_foundation keep_order genesis
    true first_try None root_node b fees RandomX n' genesis 9 rx_proof d hash); try assumption.
  - exact root_chain_consistent.
  - exact root_head.
  - vm_compute. reflexivity.
  - intros x Hx. exists genesis. split; [|vm_compute; reflexivity].
    assert (Chain.get_header_hash_by_height Mainnet root_chain 0 = Ok root_hash) as Hg by (vm_compute; reflexivity).
    change (Chain.get_header_hash_by_height Mainnet root_chain 0 = Ok x) in Hx. rewrite Hg in Hx. injection Hx as <-. vm_decide.
  - exact default_allows.
  - reflexivity.
  - vm_compute. reflexivity.
  - reflexivity.
  - reflexivity.
  - reflexivity.
Defined.

(** ** The server at work *)
Definition pool_config : StratumConfig := mkStratumConfig 15 true 1 1 1.
(** The parameters of a request, already read. *)
Inductive value : Type := LoginValue (p : LoginParams) | SubmitValue (p : SubmitParams) | JobValue (p : JobParams).
Definition as_login (v : value) : option LoginParams := match v with LoginValue p => Some p | _ => None end.
Definition as_job (v : value) : option JobParams := match v with JobValue p => Some p | _ => None end.
Definition as_submit (v : value) : option SubmitParams := match v with SubmitValue p => Some p | _ => None end.

Definition server : Handler :=
  match handler_new Mainnet pool_config 31 root_node with
  | Ok h => h
  | _ => mkHandler root_node ∅ stats_default (state_new Mainnet ∅) root_hash 0
  end.
Definition one_round (h : Handler) : outcome rpc_error () * Handler :=
  run_round Mainnet 0 far_date default_config noon no_foundation keep_order pool_config [first_try] h.
(** A worker has come and a job has been published. *)
Definition working : Handler := snd (one_round (snd (add_worker noon server))).
Definition line (syncing : bool) (method : string) (params : option value) (id : nat) (h : Handler) : outcome () () * Handler :=
  handle_line Mainnet 0 far_date no_progpow hash_value default_config trusting noon no_bitmap empty_bitmap no_foundation as_login as_job as_submit
    syncing [1] method params id h.
Definition solution (nonce : Z) : value := SubmitValue (mkSubmit 1 0 nonce (RandomXParams (from_vec (be_bytes 32 (2 ^ 201))))).

Lemma working_ok : stratum_ok working.
Proof.
  assert (handler_new Mainnet pool_config 31 root_node = Ok server) as Hn by (vm_compute; reflexivity).
  apply handler_new_ok in Hn as [Hs _]; [|by repeat split].
  unfold working. destruct (one_round _) as [r h] eqn:E. unfold one_round in E.
  apply run_round_preserves in E. apply E. by apply add_worker_ok.
Qed.

(** The answers in the channel of a worker, by kind. *)
Definition answer_code (m : message) : Z :=
  match m with
  | NewJob _ => 1
  | Response _ _ (inl (BlockFound _)) => 2
  | Response _ _ (inl _) => 0
  | Response _ _ (inr e) => rpc_code e
  end.
Definition answers (id : nat) (h : Handler) : list Z :=
  match workers h !! id with Some w => map answer_code (outbox w) | None => [] end.

(** A worker is sent the job, solves it, and the block becomes the head. *)
Definition found : Handler := snd (line false "submit" (Some (solution 9)) 0 working).
Example block_found :
  answers 0 found = [1; 2] /\ map num_blocks_found (worker_stats (stats found)) = [1]
  /\ map tip_height (from_option (fun t => [t]) [] (match Chain.head (chain (node found)) with Ok t => Some t | _ => None end)) = [1].
Proof. vm_compute. done. Qed.

#[local] Abbreviation submitted v := (handle_submit Mainnet 0 far_date no_progpow hash_value default_config trusting noon no_bitmap empty_bitmap no_foundation
  as_submit (Some v) 0 working).

Lemma share_counted_witness :
  share_outcome Mainnet 0 far_date no_progpow hash_value default_config trusting no_bitmap empty_bitmap no_foundation noon
    (mkSubmit 1 0 9 (RandomXParams (from_vec (be_bytes 32 (2 ^ 201))))) 0 working (submitted (solution 9)).1 (submitted (solution 9)).2.
Proof.
  apply (share_counted Mainnet 0 far_date no_progpow hash_value default_config trusting no_bitmap empty_bitmap no_foundation
    as_submit noon (Some (solution 9)) 0).
  - exact working_ok.
  - vm_decide.
  - reflexivity.
  - apply surjective_pairing.
  - assert (is_ok (submitted (solution 9)).1 = true) as Hok by (vm_compute; reflexivity).
    intros E. rewrite E in Hok. discriminate Hok.
Defined.

(** A worker comes, is sent a job, finds the block and leaves; another one comes. *)
Definition quitted : Handler := snd (add_worker noon (snd (remove_worker 0 found))).
#[local] Abbreviation server_step := (stratum_step Mainnet 0 far_date no_progpow hash_value default_config trusting no_bitmap empty_bitmap no_foundation
  keep_order as_login as_job as_submit).

Lemma quitted_reached : rtc server_step server quitted.
Proof.
  eapply rtc_l; [apply (step_connect _ _ _ _ _ _ _ _ _ _ _ _ _ _ noon)|].
  eapply rtc_l; [apply (step_round _ _ _ _ _ _ _ _ _ _ _ _ _ _ noon pool_config [first_try] _ (one_round (snd (add_worker noon server))).1 working), surjective_pairing|].
  eapply rtc_l; [apply (step_line _ _ _ _ _ _ _ _ _ _ _ _ _ _ noon false [1] "submit" (Some (solution 9)) 0%nat working
    (line false "submit" (Some (solution 9)) 0 working).1 found); [vm_decide|apply surjective_pairing]|].
  eapply rtc_l; [apply (step_disconnect _ _ _ _ _ _ _ _ _ _ _ _ _ _ 0%nat found (remove_worker 0 found).1 (remove_worker 0 found).2); [vm_decide|apply surjective_pairing]|].
  apply rtc_once, (step_connect _ _ _ _ _ _ _ _ _ _ _ _ _ _ noon).
Qed.

Lemma stratum_invariant_witness : stratum_ok quitted /\ map is_connected (worker_stats (stats quitted)) = [false; true].
Proof.
  split; [|vm_compute; reflexivity].
  apply (stratum_invariant Mainnet 0 far_date no_progpow hash_value default_config trusting no_bitmap empty_bitmap no_foundation
    keep_order as_login as_job as_submit pool_config 31 root_node server quitted).
  - by repeat split.
  - vm_compute. reflexivity.
  - exact quitted_reached.
Defined.

(** ** Defects *)
Definition is_head (x : Hash) (h : Handler) : bool :=
  match Chain.head (chain (node h)) with
  | Ok t => bool_decide (bytes (last_block_h t) = bytes x)
  | _ => false
  end.

(** A block becomes the head while the next job is being built: the job, on top of the old
    head, has the same total difficulty as the new head and is published. *)
Definition outrun : outcome rpc_error () * Handler :=
  match built.1 with
  | Ok (b, fees, algo) => publish Mainnet noon pool_config b fees algo found
  | _ => (Panic, found)
  end.
Definition job_on_head (h : Handler) : bool :=
  match last (current_block_versions (current_state h)) with
  | Some (b, _) => is_head (prev_hash (header b)) h
  | None => false
  end.

(** It stands as the job of the new head, asks for no work at all, and its solutions are
    refused by the chain. *)
Example outrun_job_published :
  is_ok outrun.1 = true /\ is_head (current_hash outrun.2) outrun.2 = true /\ job_on_head outrun.2 = false
  /\ current_difficulty (current_state outrun.2) !! RandomX = Some 0
  /\ answers 0 (snd (line false "submit" (Some (solution 10)) 0 outrun.2)) = [1; 2; 1; rpc_code CannotValidate].
Proof. vm_compute. repeat split. Qed.

(** The share difficulty of Cuckaroo is limited by what the block asks of Cuckatoo: a full
    solution of Cuckaroo is refused as a share. *)
Definition uneven : DifficultyNumber := <[Cuckaroo := 5]> (<[Cuckatoo := 100]> (<[RandomX := 100]> (<[ProgPow := 100]> ∅))).
Example cuckaroo_minimum_above_block :
  match job_minimum (mkStratumConfig 15 true 50 50 50) uneven ∅ with
  | Ok m => m !! Cuckaroo = Some 50 /\ uneven !! Cuckaroo = Some 5
  | _ => False
  end.
Proof. vm_compute. done. Qed.

(** The code of an internal error lacks its sign. *)
Example internal_error_code : rpc_code InternalError = 32603 /\ rpc_code InvalidRequest = -32600.
Proof. done. Qed.
